(* ===== verification/_CoqProject ===== *)
-Q . S2P
Prelude.v
Types.v
Engine.v
Pool.v
Rows.v
KvStore.v
ToolCalls.v
Lru.v
Schema.v
FileIO.v
FileIOSpec.v
AgentFS.v
AgentFSInv.v
AgentFSSpec.v
AgentFSOps.v
AgentFSCoherent.v
Path.v
Init.v
AgentFSProps.v
AgentFSPath.v
AgentFSPathProps.v
AgentFSPathRuns.v
Listing.v
ListingProps.v
Overlay.v
OverlayProps.v
OverlayCopy.v
OverlayLookup.v
FdTable.v
Mounts.v
SqliteVfs.v
SqliteVfsProps.v
Xdr.v
NfsTypes.v
Utf8.v
Syscalls.v
SyscallsProps.v
Processes.v
SyscallFiles.v
Permissions.v
Options.v
Versions.v
NfsVfs.v
NfsAdapter.v
NfsHandlers.v
NfsWire.v
NfsHandlersProps.v
NfsReplies.v
NfsServer.v
NfsAdapterProps.v
NfsFiles.v
Fuse.v
FuseSession.v
FuseProps.v
FuseFiles.v
Scenarios.v
SdkScenarios.v
SandboxScenarios.v
SyscallScenarios.v
OverlayScenarios.v
NfsScenarios.v
FuseScenarios.v
Witnesses.v
HostFs.v
HostFsProps.v
HostFsSession.v
HostFsScenarios.v
HostFsUses.v
NoPanic.v
McpServer.v
McpProps.v
McpListing.v
McpScenarios.v
RunSandbox.v
RunSandboxProps.v
RunSystem.v
RunScenarios.v
