(* ===== verification/Prelude.v ===== *)
(** * AgentFS, verified

    A development beside the Rust code of AgentFS (under [src/] of the repository): the
    SDK ([sdk/rust/src/]), that is a filesystem, an overlay of it over another
    filesystem, a key-value store and an audit log of tool calls, kept in the tables of
    one SQLite-compatible database; the sandbox ([sandbox/src/]), which intercepts the system
    calls of processes and serves them from it, from the host or from the kernel; the NFS
    server of the command line ([cli/src/nfs.rs], [cli/src/nfsserve/]), which serves it to
    clients, from the bytes of their calls to the bytes of the replies; and the FUSE adapter
    ([cli/src/fuse.rs]), which serves it to the kernel; the MCP server
    ([cli/src/cmd/mcp_server.rs]), which serves files and keys to agents as tools and
    resources; [agentfs run] ([cli/src/sandbox/linux.rs]), which runs a command on an overlay with
    everything else read-only; and the commands that name, migrate and list databases.

    ** The program and how it is modelled

    An operation of the SDK takes a connection from a pool that holds one
    ([connection_pool.rs]), runs SQL statements, reads the clock, updates the
    in-memory dentry cache, and returns a [Result].  The model is a shallow
    embedding: the tables are finite maps, a statement is a function on them, and
    an operation is a function in the monad [M] of [Engine] from a world (tables,
    memory of the handle, clock, and the failures the engine is going to have) to
    an outcome ([Ok], [Err] or a panic) and the world it leaves.  An SQL engine, an
    LRU cache, a serializer and a C library are foreign: they are the classes
    [SqlEngine], [RowOrder], [LruCache], [Serde] and [Libc], which state what the
    source relies on and have concrete instances, on which the witnesses evaluate.

    The files, in the order they build on each other:

    - [Prelude]: machine integers as [Z] with their casts, slices and vectors with
      their panics, lists measured in [Z], shared tactics and hint databases.
    - [Types] ([filesystem/mod.rs], [error.rs]): errors and errno codes, mode bits,
      device numbers, [Stats].
    - [Engine] ([connection_pool.rs]): worlds, the monad, statements, transactions,
      and the three classes of operations that carry most proofs: [ReadOnly],
      [Atomic] (no effect on the tables unless [Ok]) and [Stops] (a failure of the
      engine only ends an operation, it never changes what it does).
    - [Pool] ([connection_pool.rs]): the pool as a step relation between tasks.
    - [Rows]: the order of the rows of a query; serializers.
    - [KvStore] ([kvstore.rs]) and [ToolCalls] ([toolcalls.rs]).
    - [Lru]: the interface of the dentry cache and a bounded instance.
    - [Schema] ([filesystem/agentfs.rs]): the tables and their statements.
    - [FileIO], [FileIOSpec]: [AgentFSFile], that is chunked file contents, and the
      proof that its operations are those of [FileSpec] on byte strings.
    - [AgentFS]: [impl FileSystem for AgentFS], one definition per operation.
    - [AgentFSInv]: the invariant [fs_wf] of the tables and how every statement
      changes it.
    - [AgentFSSpec]: the abstract filesystem [Spec], the abstraction [abs] of the
      tables, and [refines].
    - [AgentFSOps], [AgentFSCoherent]: each operation refines its specification,
      and keeps the cache coherent.
    - [Path]: [normalize_path], [split_path] and symlink targets.
    - [Init]: [initialize_schema], [read_chunk_size], [from_pool].
    - [AgentFSProps]: the theorems on the inode-based filesystem.
    - [AgentFSPath], [AgentFSPathProps]: [impl AgentFS], the path-based interface, and
      its theorems; [AgentFSPathRuns]: runs of path operations, as a client chains them.
    - [Options] ([lib.rs], [cli/src/cmd/init.rs]): names, paths and options of agents;
      [Versions] ([schema.rs], [cli/src/cmd/migrate.rs]): the version of a database and its
      migration; [Listing], [ListingProps] ([lib.rs], [cli/src/cmd/fs.rs]): what a filesystem
      holds and what it changed.
    - [Overlay] ([filesystem/overlayfs.rs]): the overlay, over any base filesystem and
      with an [AgentFS] as its delta; inode maps, whiteouts, origins.  [OverlayProps]: what
      its memory keeps, and that removed names stay hidden; [OverlayCopy]: copy-up;
      [OverlayLookup]: a lookup sees the merged tree.
    - [HostFs] ([filesystem/hostfs_linux.rs]): the passthrough to a directory of the host, one
      definition per operation, over a parameter for the calls of the C library ([Host], the
      calls being [HostCall]); an instance of [SdkFs.FileSystem].  [HostFsProps]: what a host
      promises ([HostLaws]), the abstract [Ledger] of inode numbers and references, and a weakest
      precondition for operations; [HostFsSession]: sessions of any operations.
    - [FdTable] ([sandbox/src/vfs/fdtable.rs]): the descriptor table of a process.
    - [Mounts] ([sandbox/src/vfs/mod.rs], [bind.rs], [mount.rs]): where paths lead, and mount
      specifications.
    - [SqliteVfs], [SqliteVfsProps] ([sandbox/src/vfs/sqlite.rs]): files and directories of a
      filesystem mounted in the sandbox.
    - [Syscalls] ([sandbox/src/syscall/], [sandbox/mod.rs]): one definition per handler of a
      system call, in the monad [SM] over descriptors, virtual filesystems (the class
      [VirtualFs.t], the traits [Vfs] and [FileOps]) and a kernel, which is a parameter; the
      tables of all processes.  [SyscallsProps]: a weakest precondition for handlers, what a
      kernel does to its own descriptors ([KernelFds]), and what one process is promised
      ([posix]); [Processes]: the same for processes that interleave ([KernelProcs], [related]);
      [SyscallFiles]: the traits over [SqliteVfs], and a file from [openat] to [close].
    - [Xdr], [NfsTypes] ([nfsserve/xdr.rs], [nfs.rs], [rpc.rs], [mount.rs], [portmap.rs]): the
      wire format, as the classes [XDR] (what the source has) and [XdrCodec] (its laws) and
      combinators for its macros; the messages.  [Utf8]: decoding of UTF-8.
    - [Permissions] ([permissions.rs]): who may do what.
    - [NfsVfs] ([vfs.rs]): the trait between server and filesystem, [Vfs.NFSFileSystem], with
      its default methods; [NfsAdapter] ([cli/src/nfs.rs]): its implementation by any
      filesystem of the SDK ([SdkFs.FileSystem], of which [AgentFS] is an instance).
    - [NfsHandlers] ([nfs_handlers.rs]): the procedures.  [NfsWire]: the codecs of their
      arguments; [NfsHandlersProps]: what they need to change anything; [NfsReplies]: the form
      of their replies.
    - [NfsServer] ([rpcwire.rs], [transaction_tracker.rs], [context.rs], [mount_handlers.rs],
      [portmap_handlers.rs]): from the bytes of a connection to calls and replies.
    - [NfsAdapterProps], [NfsFiles]: listing directories, and READ and WRITE from the bytes of
      the call to the tables of an [AgentFS].
    - [Fuse] ([cli/src/fuse.rs]): [AgentFSFuse] over any filesystem of the SDK, a callback
      being an operation whose result is its reply; [FuseSession] ([fuser/request.rs],
      [session.rs]): the session with the kernel, which dispatches requests to callbacks.
    - [FuseProps]: handles and the life of a session; [FuseFiles]: open files, listings and
      attributes.
    - [NoPanic]: operations that never panic, and that only read.  [McpServer]
      ([cli/src/cmd/mcp_server.rs]): the requests of the MCP server, its tools and its resources,
      over the path interface and the store; JSON and base64 are the classes [SerdeJson] and
      [Base64].  [McpProps]: what it answers; [McpListing]: its list of resources.
    - [RunSandbox] ([cli/src/sandbox/linux.rs], [cmd/ps.rs]): the parent and the child of a run, as
      trees of calls that the system answers in any way.  [RunSandboxProps]: a weakest
      precondition for them, and what is asked of the mounts before the command starts;
      [RunSystem]: the two processes and the pipes between them, as a step relation.
    - [Scenarios], [SdkScenarios], [OverlayScenarios], [NfsScenarios], [SandboxScenarios],
      [SyscallScenarios] (with a kernel), [FuseScenarios], [HostFsScenarios] (with a host),
      [HostFsUses] (a host filesystem behind FUSE and below an overlay), [McpScenarios],
      [RunScenarios] (with a system), [Witnesses]: worlds,
      runs whose outcome differs from the documentation, and every theorem with hypotheses at a
      concrete input.

    ** What is proved

    - Files: [pread], [pwrite] and [truncate] of a handle are the reference
      operations on byte strings, with holes read as zeros; they panic on no
      input within the 63-bit offsets, touch no other file, and have no effect
      when they fail; what is written is read back.
    - The inode filesystem: each operation reports the errors of its abstract
      specification, and only those, or has the effect of the specification and
      nothing else, at every point where the engine may fail; [create_file],
      [rename], [chmod] and [chown] are atomic; any sequence of operations keeps the
      tables well-formed and the dentry cache coherent.
    - The path interface: resolving through the cache is walking the table;
      creating by path implements the same specification; [read_file] returns
      files without holes; normalising absolute paths is canonical.
    - Opening a database creates well-formed tables or keeps them.  The name of an agent
      cannot lead out of its directory.  A migration adds the missing columns, keeps every
      value, and can be stopped anywhere and run again.
    - The pool keeps operations apart, whatever fails or is cancelled, and serves whoever
      asks.
    - Listing the paths of a filesystem ends and is complete; [diff] reports the changes.
    - The key-value store is the finite map of its completed operations.  The audit
      log keeps its rows and their well-formedness, and its queries count and order
      it correctly.
    - The overlay: a lookup finds what the merged tree has at the path; a copy-up leaves
      a complete copy and disturbs nothing else; names that were removed stay hidden; the
      whiteouts and origins in memory are those a new handle loads, under any failures.
    - The host filesystem: over any host that keeps [HostLaws], a session of any operations keeps
      exactly the references that the client was given by the answers, and one descriptor for
      each; inode numbers identify files and never change their meaning.
    - The sandbox: the descriptor table gives out the lowest number that POSIX allows and
      panics only when it is full; paths lead to the deepest mount that covers them; mount
      specifications mean their options; an open file behaves as a byte string with an
      offset, which closing it stores; a directory is listed once.
    - System calls: whatever calls any number of processes make, each process sees the
      descriptors that POSIX promises, duplicates and children included, and every descriptor
      of the kernel belongs to exactly one number; a call always returns, unless a virtual
      filesystem panics.  A file of a SQLite mount, used through two descriptors, is one byte
      string with one offset, and the kernel is not asked.
    - NFS: whatever bytes a client sends, nothing changes unless the caller has the Unix
      permissions that the procedure needs; READ returns the contents of a file byte for
      byte, and what WRITE stores; every reply has the form of its procedure; every message
      format is read back as it was written; messages cross in any fragments; a call is
      handled once within the retention period; file handles identify files; a directory is
      listed once, page by page.
    - FUSE: nothing reaches the filesystem outside of a session; handles are distinct and stay
      what they are; an open file behaves as a byte string, whatever fails; listing a directory
      page by page ends and is complete; the attributes reported are in range, or panic exactly
      when a time is not.
    - Runs: whatever calls fail and however the two processes interleave, the command is started
      only in namespaces of its own, after the mappings of its users, and with every listed mount
      read-only that is not excepted or refused by the kernel; the processes never wait for each
      other, and end.
    - MCP: every well-formed request is answered, whatever fails; what [write_file] stores, [read_file]
      returns; the list of resources of a filesystem without symlinks ends and names exactly
      its files.
    - Where the code does something else than it says, a theorem says what it does:
      renaming a file to itself destroys it, [rmdir] leaks the inode, [mkdir] is not
      atomic, path-based reads skip holes, dangling symlinks cannot be removed by
      path, entries can be created below files, relative paths keep their dots, files of
      migrated databases leak, [init --force] deletes other agents, a tool call can have both a result and an error; the overlay loses what is in a directory
      it renames, and files it renamed cannot be opened; in the sandbox a new file is
      written by the first [fsync] only, [stat] does not follow symlinks, access modes are
      not checked, mounts cover siblings, and closed standard descriptors stay closed; numbers
      that the table does not know reach the kernel, [unlink] and others below a virtual mount
      reach the host, large directories are cut short, [close] hides that data was lost; over
      NFS, calls without credentials are root's, a guard of SETATTR that fails does not stop
      it, READDIR ignores its cookie, small buffers panic, and two links to one file in a
      directory make its listing loop; over FUSE, a file that is unlinked while it is open loses
      its contents, an entry can be skipped when another is removed between two pages, and one
      missing capability turns all of them off, and every listed file of the host keeps a descriptor;
      an overlay over a host filesystem confuses files after a restart, because the numbers it
      kept are given out anew; over MCP, tools that are not offered run all the same, notifications
      are answered, a write that fails loses the old file and one that does not can replace a
      directory, and a loop of symlinks hides every resource; in a run, mounts with names like
      [/sysroot] stay writable, those below an allowed directory become read-only, the name of a
      session leads anywhere, and an overlay that cannot be unmounted is emptied.

    ** Bounds, fuel, overflow

    The loop of [write_data_at_offset_with_conn] writes at least a byte per round:
    [length data] rounds are enough ([pwrite_refines] proves the result, not only
    its form).  The gap loop of [pread] has the gap as fuel; the loops of the
    path-based [pwrite] and [truncate] have the number of chunks; symlinks are followed
    40 times, the source's own bound.  Unsigned additions wrap around; the theorems
    bound offsets by [2^63], where they do not.  The signed arithmetic of [ToolCalls]
    panics or wraps, depending on the build.  Link counts are read back in 32 bits:
    theorems that depend on it assume fewer than [2^32] entries ([small]).  Cutting a
    stream into messages has its length as fuel, of which every fragment takes four bytes.
    Waiting for a child of a run is interrupted as often as it has fuel.
    The parents of a path that MCP writes are at most as many as its characters.
    The walk of a listing, of resources too, has fuel; one round per entry and one for the root are enough.
    The subtractions of the listing procedures panic or wrap, depending on the build.
    A host filesystem gives out numbers below [2^63] and counts references below [2^64]: the [b]
    of [St] is how many more it can, and a directory has at most [dir_max] entries.
    Descriptors are below [i32::MAX], which [room] keeps; sets of [pselect6] have [FD_SETSIZE]
    members, and [selectable] says when none is exceeded.

    ** What is not modelled

    The host filesystems of macOS and Windows and most of the
    command line are not modelled; of a run, the messages, the start of the overlay
    (a database, a host filesystem and a mount, which have their own files) and the registration
    of the handlers of signals are not; of the MCP server, the text of JSON, the opening of the
    agent and failures of its streams are not, and resources below symlinks are in runs only;
    of the host filesystem of Linux, an operation is one step (two runs show
    what happens between the steps of [get_or_create_inode] and [forget]), a directory stream is
    read at once, and names are UTF-8 in its theorems; of the system calls, the access to the memory of the process
    is by value and never faults, one call is handled at a time, the calls that are handed on
    as they are have no effect on descriptors that is looked at, and the handlers of an
    aarch64 build are left out; of [AgentFS::open], the choice between local, encrypted and
    remote databases is not; of [fuser], which is vendored, the session is, its encodings,
    channels and threads are not.  Of the NFS server, sockets, tasks, channels and the signal of mounts are left out:
    a message is handled in one step, one at a time; the modes that Windows adds and
    [fs_util.rs], which nothing uses, are left out too.  Operations meet the pool as a call that
    may fail.  [readdir] and the other queries decode columns of the declared types only.  The rounding of averages to [f64] is left out.  A base
    filesystem of the overlay does not change while it is mounted.  Paths in the sandbox
    are valid UTF-8, and the locks of open files are never poisoned. *)
From Stdlib Require Export ZArith Lia.
From stdpp Require Export base tactics sorting numbers strings gmap list.

#[export] Set Default Goal Selector "!".
#[global] Open Scope Z_scope.
#[global] Generalizable No Variables.

(** ** Bytes *)
Abbreviation byte := Byte.byte.
Abbreviation bytes := (list Byte.byte).
Abbreviation zero_byte := Byte.x00.

(** ** Machine integers

    Rust integers are kept as [Z]; the casts and wrapping operations of the
    source are written out.  All [usize] values are 64 bit wide. *)
Definition as_u32 (z : Z) : Z := z mod 2 ^ 32.
Definition as_u64 (z : Z) : Z := z mod 2 ^ 64.
Definition as_i64 (z : Z) : Z :=
  let m := z mod 2 ^ 64 in if m <? 2 ^ 63 then m else m - 2 ^ 64.
Definition u64_add (a b : Z) : Z := as_u64 (a + b).
Definition saturating_sub (a b : Z) : Z := Z.max 0 (a - b).

(** Ranges of the machine types. *)
Definition in_u32 (z : Z) : Prop := 0 <= z < 2 ^ 32.
Definition in_u64 (z : Z) : Prop := 0 <= z < 2 ^ 64.
Definition in_i64 (z : Z) : Prop := - 2 ^ 63 <= z < 2 ^ 63.

(** [len l] is the length of a vector as the source counts it. *)
Definition len {A} (l : list A) : Z := Z.of_nat (length l).

(** [zeros n] is [std::iter::repeat_n(0u8, n)]. *)
Definition zeros (n : Z) : bytes := replicate (Z.to_nat n) zero_byte.

(** [slice l a b] is the Rust slice [l[a..b]]; [None] is its panic. *)
Definition slice {A} (l : list A) (a b : Z) : option (list A) :=
  if (0 <=? a) && (a <=? b) && (b <=? len l)
  then Some (take (Z.to_nat (b - a)) (drop (Z.to_nat a) l)) else None.

(** [Vec::resize]. *)
Definition vec_resize {A} (l : list A) (n : Z) (x : A) : list A :=
  resize (Z.to_nat n) x l.

(** Copying [src] over the part of [l] that starts at [a]
    ([l[a..a+src.len()].copy_from_slice(src)]); [None] is the panic. *)
Definition copy_at {A} (l : list A) (a : Z) (src : list A) : option (list A) :=
  if (0 <=? a) && (a + len src <=? len l)
  then Some (take (Z.to_nat a) l ++ src ++ drop (Z.to_nat (a + len src)) l)
  else None.

(** ** Tactics *)

(** Case analysis on the boolean and decidable tests of the goal. *)
Ltac case_bool :=
  repeat match goal with
  | |- context [?a <? ?b] => destruct (Z.ltb_spec a b)
  | |- context [?a <=? ?b] => destruct (Z.leb_spec a b)
  | |- context [?a =? ?b] => destruct (Z.eqb_spec a b)
  end; cbn [andb orb negb] in *.

(** Turns boolean hypotheses into propositions. *)
Ltac to_prop :=
  repeat match goal with
  | H : (_ && _) = true |- _ => apply andb_prop in H as [? ?]
  | H : (_ && _) = false |- _ => apply andb_false_iff in H
  | H : (_ || _) = false |- _ => apply orb_false_iff in H as [? ?]
  | H : (_ =? _) = true |- _ => apply Z.eqb_eq in H
  | H : (_ =? _) = false |- _ => apply Z.eqb_neq in H
  | H : (_ <? _) = true |- _ => apply Z.ltb_lt in H
  | H : (_ <? _) = false |- _ => apply Z.ltb_ge in H
  | H : (_ <=? _) = true |- _ => apply Z.leb_le in H
  | H : (_ <=? _) = false |- _ => apply Z.leb_gt in H
  end.

(** Decides one [match] of the goal. *)
Ltac split_match :=
  match goal with |- context [match ?x with _ => _ end] => destruct x eqn:? end.

(** ** Casts *)

Lemma as_i64_id z : in_i64 z → as_i64 z = z.
Proof.
  intros [Hlo Hhi]. unfold as_i64.
  destruct (decide (0 ≤ z)) as [Hz|Hz].
  - rewrite Z.mod_small by lia. case_bool; lia.
  - rewrite <-(Z_mod_plus_full z 1), Z.mod_small by lia. case_bool; lia.
Qed.

Lemma as_u64_id z : in_u64 z → as_u64 z = z.
Proof. intros Hz. apply Z.mod_small, Hz. Qed.

Lemma as_u32_id z : in_u32 z → as_u32 z = z.
Proof. intros Hz. apply Z.mod_small, Hz. Qed.

Lemma as_u64_range z : in_u64 (as_u64 z).
Proof. apply Z.mod_pos_bound. lia. Qed.

Lemma as_u32_range z : in_u32 (as_u32 z).
Proof. apply Z.mod_pos_bound. lia. Qed.

(** A [u64] stored through the signed column and read back is unchanged. *)
Lemma as_u64_as_i64 z : in_u64 z → as_u64 (as_i64 z) = z.
Proof.
  intros Hz. unfold as_u64, as_i64. rewrite (Z.mod_small z) by apply Hz.
  case_bool; [apply Z.mod_small, Hz|].
  rewrite <-(Z_mod_plus_full _ 1), Z.mod_small; [lia|]. unfold in_u64 in Hz. lia.
Qed.

Create Rewrite HintDb casts.
#[export] Hint Rewrite as_i64_id as_u64_id as_u32_id using
  (unfold in_i64, in_u64, in_u32 in *; lia) : casts.
Ltac casts := autorewrite with casts.

(** ** Lengths *)

Lemma len_nil {A} : len (@nil A) = 0.
Proof. done. Qed.
Lemma len_cons {A} (x : A) l : len (x :: l) = 1 + len l.
Proof. unfold len. simpl. lia. Qed.
Lemma len_app {A} (l k : list A) : len (l ++ k) = len l + len k.
Proof. unfold len. rewrite length_app. lia. Qed.
Lemma len_zeros n : 0 <= n → len (zeros n) = n.
Proof. intros. unfold len, zeros. rewrite length_replicate. lia. Qed.
Lemma len_take {A} (l : list A) n :
  0 <= n → len (take (Z.to_nat n) l) = Z.min n (len l).
Proof. intros. unfold len. rewrite length_take. lia. Qed.
Lemma len_drop {A} (l : list A) n :
  0 <= n → len (drop (Z.to_nat n) l) = Z.max 0 (len l - n).
Proof. intros. unfold len. rewrite length_drop. lia. Qed.
Lemma len_nonneg {A} (l : list A) : 0 <= len l.
Proof. unfold len. lia. Qed.
Lemma len_vec_resize {A} (l : list A) n x : 0 <= n → len (vec_resize l n x) = n.
Proof. intros. unfold len, vec_resize. rewrite length_resize. lia. Qed.

Create Rewrite HintDb len.
#[export] Hint Rewrite @len_nil @len_cons @len_app @length_app @length_take
  @length_drop @length_replicate @length_fmap @length_resize : len.
#[export] Hint Rewrite @len_zeros @len_take @len_drop @len_vec_resize
  using lia : len.
#[export] Hint Resolve len_nonneg : core.
Ltac len := autorewrite with len in *; try lia.

Lemma slice_spec {A} (l : list A) a b :
  0 <= a → a <= b → b <= len l →
  slice l a b = Some (take (Z.to_nat (b - a)) (drop (Z.to_nat a) l)).
Proof. intros. unfold slice. case_bool; done || lia. Qed.

Lemma copy_at_spec {A} (l : list A) a src :
  0 <= a → a + len src <= len l →
  copy_at l a src =
    Some (take (Z.to_nat a) l ++ src ++ drop (Z.to_nat (a + len src)) l).
Proof. intros. unfold copy_at. case_bool; done || lia. Qed.

(** ** Unused keys *)

(** A number above all of [f]. *)
Definition above {A} (f : Z → A → Z) (m : gmap Z A) : Z :=
  map_fold (λ i x b, Z.max b (f i x + 1)) 0 m.

Lemma above_spec {A} (f : Z → A → Z) m :
  0 <= above f m ∧ ∀ i x, m !! i = Some x → f i x < above f m.
Proof.
  unfold above. apply (map_fold_weak_ind (λ b m, 0 <= b ∧ ∀ i x, m !! i = Some x → f i x < b)).
  { split; [done|]. intros i x. by rewrite lookup_empty. }
  intros i x m' b Hi [Hb Hlt]. split; [lia|].
  intros j y [[<- <-]|[_ Hj]]%lookup_insert_Some; [lia|]. specialize (Hlt j y Hj). lia.
Qed.

Definition unused {A} (m : gmap Z A) : Z := above (λ fd _, fd) m.
Lemma unused_spec {A} (m : gmap Z A) : 0 <= unused m ∧ m !! unused m = None.
Proof.
  destruct (above_spec (λ fd _, fd) m) as [H0 Hlt]. split; [done|].
  apply eq_None_not_Some. intros [x Hx]. specialize (Hlt _ _ Hx). unfold unused in Hlt. lia.
Qed.
