(* ===== verification/Types.v ===== *)
(** * Types: errors, modes, device numbers and file attributes

    The vocabulary shared by every filesystem component
    ([sdk/rust/src/filesystem/mod.rs] and [sdk/rust/src/error.rs]): the two
    error enums and their errno codes, the POSIX mode bits, the packing of
    device numbers, and the [Stats] record. *)
From S2P Require Import Prelude.

(** ** Errors *)

(** The errno constants of the [libc] crate that the source refers to. *)
Class Libc := {
  ENOENT : Z; EEXIST : Z; ENOTEMPTY : Z; ENOTDIR : Z; EISDIR : Z; EINVAL : Z;
  EPERM : Z; ELOOP : Z; ENAMETOOLONG : Z;
  errno_distinct :
    NoDup [ENOENT; EEXIST; ENOTEMPTY; ENOTDIR; EISDIR; EINVAL; EPERM; ELOOP;
           ENAMETOOLONG]
}.

(** The Linux values. *)
#[export] Program Instance libc_linux : Libc := {|
  ENOENT := 2; EEXIST := 17; ENOTEMPTY := 39; ENOTDIR := 20; EISDIR := 21;
  EINVAL := 22; EPERM := 1; ELOOP := 40; ENAMETOOLONG := 36 |}.
Next Obligation. apply (bool_decide_unpack _). by vm_compute. Qed.

Module FsError.
Inductive t :=
| NotFound | AlreadyExists | NotEmpty | NotADirectory | IsADirectory
| NotASymlink | InvalidPath | RootOperation | SymlinkLoop | InvalidRename
| NameTooLong.

#[global] Instance t_eq_dec : EqDecision t.
Proof. solve_decision. Defined.

Definition to_errno `{Libc} (e : t) : Z :=
  match e with
  | NotFound => ENOENT
  | AlreadyExists => EEXIST
  | NotEmpty => ENOTEMPTY
  | NotADirectory => ENOTDIR
  | IsADirectory => EISDIR
  | NotASymlink => EINVAL
  | InvalidPath => EINVAL
  | RootOperation => EPERM
  | SymlinkLoop => ELOOP
  | InvalidRename => EINVAL
  | NameTooLong => ENAMETOOLONG
  end.

(** The messages of [#[error(...)]]. *)
Definition fmt (e : t) : string :=
  match e with
  | NotFound => "Path does not exist"
  | AlreadyExists => "Path already exists"
  | NotEmpty => "Directory not empty"
  | NotADirectory => "Not a directory"
  | IsADirectory => "Is a directory"
  | NotASymlink => "Not a symbolic link"
  | InvalidPath => "Invalid path"
  | RootOperation => "Cannot modify root directory"
  | SymlinkLoop => "Too many levels of symbolic links"
  | InvalidRename => "Cannot rename directory into its own subdirectory"
  | NameTooLong => "Filename too long"
  end.
End FsError.

(** What the source can observe of a [turso::Error]: a violated constraint, a
    busy database, or any other failure of the engine. *)
Inductive DbError := Constraint | Busy | EngineFailure.

#[export] Instance db_error_eq_dec : EqDecision DbError.
Proof. solve_decision. Defined.

(** The texts of foreign errors. *)
Class ErrorTexts := {
  turso_text : DbError → string;
  io_text : option Z → string;
  time_text : string
}.

Module Error.
(** The payloads that are foreign error values are kept as far as the
    source inspects them. *)
Inductive t :=
| Database (e : DbError)
| Io (raw_os_error : option Z)
| Json (msg : string)
| Time
| Fs (e : FsError.t)
| InvalidAgentId (id : string)
| AgentNotFound (id path : string)
| InvalidUtf8Path (path : string)
| BaseDirectoryNotFound (path : string)
| NotADirectory (path : string)
| ToolCallNotFound
| SyncNotEnabled
| ConnectionPoolTimeout
| EncryptionNotSupported (msg : string)
| InvalidEncryptionKey (msg : string)
| Internal (msg : string)
| SchemaVersionMismatch (found expected : string).

#[global] Instance t_eq_dec : EqDecision t.
Proof. solve_decision. Defined.

(** The messages of [#[error(...)]]. *)
Definition fmt `{ErrorTexts} (e : t) : string :=
  match e with
  | Database e => "database error: " +:+ turso_text e
  | Io e => "io error: " +:+ io_text e
  | Json msg => "json error: " +:+ msg
  | Time => "time error: " +:+ time_text
  | Fs e => FsError.fmt e
  | InvalidAgentId id =>
      "invalid agent ID '" +:+ id +:+
      "': agent IDs must contain only alphanumeric characters, hyphens, and underscores"
  | AgentNotFound id path => "agent '" +:+ id +:+ "' not found at '" +:+ path +:+ "'"
  | InvalidUtf8Path path => "path '" +:+ path +:+ "' is not valid UTF-8"
  | BaseDirectoryNotFound path => "base directory does not exist: " +:+ path
  | NotADirectory path => "path is not a directory: " +:+ path
  | ToolCallNotFound => "tool call not found"
  | SyncNotEnabled => "sync is not enabled for this database"
  | ConnectionPoolTimeout => "connection pool timeout: no connections available"
  | EncryptionNotSupported msg => "encryption not supported: " +:+ msg
  | InvalidEncryptionKey msg => "invalid encryption key: " +:+ msg
  | Internal msg => msg
  | SchemaVersionMismatch found expected =>
      "schema version mismatch: database is version " +:+ found +:+ ", expected " +:+ expected
  end.
End Error.

(** ** Limits and file modes

    The octal literals of the source are written in hexadecimal:
    [0o170000] is [0xf000], [0o7777] is [0xfff], [0o644] is [0x1a4]. *)
Definition MAX_NAME_LEN : Z := 255.

Definition S_IFMT : Z := 0xf000.
Definition S_IFREG : Z := 0x8000.
Definition S_IFDIR : Z := 0x4000.
Definition S_IFLNK : Z := 0xa000.
Definition S_IFIFO : Z := 0x1000.
Definition S_IFCHR : Z := 0x2000.
Definition S_IFBLK : Z := 0x6000.
Definition S_IFSOCK : Z := 0xc000.

Definition DEFAULT_FILE_MODE : Z := Z.lor S_IFREG 0x1a4.
Definition DEFAULT_DIR_MODE : Z := Z.lor S_IFDIR 0x1ed.

(** The test [(mode & S_IFMT) == ty] that the source spells out everywhere. *)
Definition has_type (mode ty : Z) : bool := Z.land mode S_IFMT =? ty.

(** ** Device numbers *)
Definition device_major (dev : Z) : Z :=
  as_u32 (Z.lor (Z.shiftr (Z.land dev 0x00000000000fff00) 8)
                (Z.shiftr (Z.land dev 0xfffff00000000000) 32)).

Definition device_minor (dev : Z) : Z :=
  as_u32 (Z.lor (Z.land dev 0x00000000000000ff)
                (Z.shiftr (Z.land dev 0x00000ffffff00000) 12)).

Definition make_device (major minor : Z) : Z :=
  Z.lor (Z.lor (Z.lor
    (as_u64 (Z.shiftl (Z.land major 0x00000fff) 8))
    (as_u64 (Z.shiftl (Z.land major 0xfffff000) 32)))
    (Z.land minor 0x000000ff))
    (as_u64 (Z.shiftl (Z.land minor 0xffffff00) 12)).

(** ** Attributes *)
Inductive TimeChange := Omit | Now | SetTime (secs nsec : Z).

Record Stats := mkStats {
  st_ino : Z; st_mode : Z; st_nlink : Z; st_uid : Z; st_gid : Z; st_size : Z;
  st_atime : Z; st_mtime : Z; st_ctime : Z;
  st_atime_nsec : Z; st_mtime_nsec : Z; st_ctime_nsec : Z; st_rdev : Z
}.

Record FilesystemStats := mkFsStats { inodes : Z; bytes_used : Z }.

Record DirEntry := mkDirEntry { de_name : string; de_stats : Stats }.

Definition is_file (s : Stats) : bool := has_type (st_mode s) S_IFREG.
Definition is_directory (s : Stats) : bool := has_type (st_mode s) S_IFDIR.
Definition is_symlink (s : Stats) : bool := has_type (st_mode s) S_IFLNK.

(** ** Lemmas *)

(** Permission bits never touch the file type: masking with [0o7777] and
    or-ing a type in yields a mode of that type. *)
Lemma has_type_lor ty perm :
  Z.land ty S_IFMT = ty → has_type (Z.lor ty (Z.land perm 0xfff)) ty = true.
Proof.
  intros Hty. apply Z.eqb_eq. rewrite Z.land_lor_distr_l, Hty, <-Z.land_assoc.
  replace (Z.land 0xfff S_IFMT) with 0 by done.
  by rewrite Z.land_0_r, Z.lor_0_r.
Qed.

Lemma has_type_inj mode ty1 ty2 :
  has_type mode ty1 = true → has_type mode ty2 = true → ty1 = ty2.
Proof. unfold has_type. intros ?%Z.eqb_eq ?%Z.eqb_eq. congruence. Qed.

(** [chmod] keeps the type bits of the old mode. *)
Lemma has_type_chmod old perm ty :
  has_type (Z.lor (Z.land old S_IFMT) (Z.land perm 0xfff)) ty = has_type old ty.
Proof.
  unfold has_type. f_equal.
  rewrite Z.land_lor_distr_l, <-!Z.land_assoc.
  replace (Z.land S_IFMT S_IFMT) with S_IFMT by done.
  replace (Z.land 0xfff S_IFMT) with 0 by done.
  by rewrite Z.land_0_r, Z.lor_0_r.
Qed.

(** Bit tests above the width of a machine integer are false. *)
Lemma testbit_above z w n : 0 <= z < 2 ^ w → 0 <= w <= n → Z.testbit z n = false.
Proof.
  intros Hz Hn. destruct (decide (z = 0)) as [->|]; [apply Z.bits_0|].
  apply Z.bits_above_log2; [lia|]. apply Z.log2_lt_pow2; [lia|].
  pose proof (Z.pow_le_mono_r 2 w n). lia.
Qed.

(** Evaluates a bit test of a constant mask at a concrete position. *)
Ltac mask_bits :=
  rewrite ?Z.lor_spec, ?Z.land_spec, ?Z.shiftr_spec, ?Z.shiftl_spec by lia.

(** Bitwise equality of 32-bit values, one bit at a time. *)
Lemma u32_bits_eq a b :
  in_u32 a → in_u32 b → (∀ n, 0 <= n < 32 → Z.testbit a n = Z.testbit b n) → a = b.
Proof.
  intros Ha Hb Hbits. apply Z.bits_inj'. intros n Hn.
  destruct (decide (n < 32)); [by apply Hbits|].
  by rewrite !(testbit_above _ 32 n) by (done || lia).
Qed.

Lemma testbit_as_u32 z n : 0 <= n < 32 → Z.testbit (as_u32 z) n = Z.testbit z n.
Proof. intros. apply Z.mod_pow2_bits_low. lia. Qed.

Lemma testbit_as_u64 z n :
  0 <= n → Z.testbit (as_u64 z) n = (n <? 64) && Z.testbit z n.
Proof.
  intros. unfold as_u64. destruct (Z.ltb_spec n 64).
  - apply Z.mod_pow2_bits_low. lia.
  - rewrite Z.mod_pow2_bits_high by lia. done.
Qed.

(** Splits [0 <= n < k] (k a numeral) into its cases. *)
Ltac bit_cases n :=
  let rec go := first
    [ match goal with H : 0 <= n < 0 |- _ => exfalso; clear -H; lia end
    | match goal with H : 0 <= n < ?k |- _ =>
        let k' := eval vm_compute in (k - 1) in
        destruct (decide (n = k')) as [->|];
        [ | assert (0 <= n < k') by lia; clear H; go ] end ] in go.

Lemma make_device_bits maj min n :
  in_u32 maj → in_u32 min → 0 <= n < 64 →
  Z.testbit (make_device maj min) n =
    if n <? 8 then Z.testbit min n
    else if n <? 20 then Z.testbit maj (n - 8)
    else if n <? 44 then Z.testbit min (n - 12)
    else Z.testbit maj (n - 32).
Proof.
  intros Hmaj Hmin Hn. unfold make_device.
  rewrite !Z.lor_spec, !testbit_as_u64, !Z.shiftl_spec, !Z.land_spec by lia.
  destruct (Z.ltb_spec n 64); [|lia]. rewrite !andb_true_l.
  bit_cases n;
    repeat match goal with
    | |- context [Z.testbit (Zpos ?m) ?k] =>
        let v := eval vm_compute in (Z.testbit (Zpos m) k) in
        change (Z.testbit (Zpos m) k) with v
    | |- context [?a <? ?b] =>
        let v := eval vm_compute in (a <? b) in change (a <? b) with v
    end; cbn [andb orb]; rewrite ?andb_false_r, ?andb_true_r, ?orb_false_r, ?orb_false_l;
    (done || idtac).
Qed.

(** Reduces the constant bit tests and comparisons of a goal. *)
Ltac eval_masks :=
  repeat match goal with
  | |- context [Z.testbit (Zpos ?m) ?k] =>
      let v := eval vm_compute in (Z.testbit (Zpos m) k) in
      change (Z.testbit (Zpos m) k) with v
  | |- context [Zpos ?a <? Zpos ?b] =>
      let v := eval vm_compute in (Zpos a <? Zpos b) in
      change (Zpos a <? Zpos b) with v
  | |- context [0 <? Zpos ?b] => change (0 <? Zpos b) with true
  | |- context [?a + ?b] => let v := eval vm_compute in (a + b) in change (a + b) with v
  | |- context [?a - ?b] => let v := eval vm_compute in (a - b) in change (a - b) with v
  end; cbn [andb orb];
  rewrite ?andb_false_r, ?andb_true_r, ?orb_false_r, ?orb_false_l.

(** ** Device numbers round-trip *)

(** Packing a major and a minor number into an SDK device id with
    [make_device] and taking it apart again with [device_major] and
    [device_minor] gives both numbers back, for all 32-bit values. *)
Theorem device_roundtrip maj min :
  in_u32 maj → in_u32 min →
  device_major (make_device maj min) = maj ∧
  device_minor (make_device maj min) = min.
Proof.
  intros Hmaj Hmin. split; apply u32_bits_eq; try (done || apply as_u32_range);
    intros n Hn; unfold device_major, device_minor;
    rewrite testbit_as_u32 by done; mask_bits; mask_bits;
    rewrite ?make_device_bits by (done || lia);
    bit_cases n; eval_masks; done.
Qed.

Lemma device_roundtrip_witness :
  device_major (make_device 259 65536) = 259 ∧
  device_minor (make_device 259 65536) = 65536.
Proof. apply device_roundtrip; unfold in_u32; lia. Defined.
