(* ===== verification/Engine.v ===== *)
(** * Engine: the effects of an SDK operation

    Every SDK component ([AgentFS], [KvStore], [ToolCalls]) is a handle on a
    pooled database connection.  An operation runs SQL statements one after
    the other, reads the clock, and may end with [Ok], with an [Err] (the [?]
    operator) or with a panic.  The pool holds a single connection
    ([MAX_CONNECTIONS = 1] in [connection_pool.rs]), so the operations of one
    process run one at a time and an operation is a function from the world
    it starts in to its outcome and the world it leaves.

    The database engine itself is foreign code.  What the source relies on is
    in the class [SqlEngine]; where a statement can fail is explicit in the
    world: [w_faults] is the schedule of the engine's failures, consumed one
    entry per call into the engine, so that a theorem quantified over worlds
    is quantified over every point at which the engine may fail. *)
From S2P Require Import Prelude Types.

(** ** The database engine *)

(** [next_rowid z] is the rowid an [AUTOINCREMENT] column gives to the next
    row when [z] is the largest rowid ever used; the engine documents only
    that it is larger.  [limit_one rows] is the row a [LIMIT 1] query without
    [ORDER BY] returns. *)
Class SqlEngine := {
  next_rowid : Z → Z;
  limit_one : list Z → option Z;
  next_rowid_gt z : z < next_rowid z;
  limit_one_elem rows r : limit_one rows = Some r → r ∈ rows;
  limit_one_none rows : limit_one rows = None → rows = []
}.

(** An engine that counts up and returns the first row. *)
#[local] Program Instance sql_reference : SqlEngine := {|
  next_rowid z := z + 1;
  limit_one rows := head rows |}.
Next Obligation. intros z. cbv beta. lia. Qed.
Next Obligation. intros [|x rows] r; simpl; [done|]. intros [= ->]. left. Qed.
Next Obligation. by intros [|]. Qed.

(** ** Worlds and outcomes *)

Inductive Outcome (A : Type) :=
| Ok (a : A)
| Err (e : Error.t)
| Panic.
Arguments Ok {_} _.
Arguments Err {_} _.
Arguments Panic {_}.

#[export] Instance outcome_eq_dec {A} `{EqDecision A} : EqDecision (Outcome A).
Proof. solve_decision. Defined.

(** [w_db]: the tables.  [w_mem]: the in-memory state of the handle.
    [w_faults]: the engine's failures to come ([None]: the call succeeds).
    [w_clock], [w_tick]: the readings of the system clock (seconds and
    nanoseconds since the epoch, or [None] when the clock is set before it) and
    how many were taken. *)
Record World (D C : Type) := mkWorld {
  w_db : D;
  w_mem : C;
  w_faults : list (option Error.t);
  w_clock : nat → option (Z * Z);
  w_tick : nat
}.
Arguments mkWorld {_ _} _ _ _ _ _.
Arguments w_db {_ _} _.
Arguments w_mem {_ _} _.
Arguments w_faults {_ _} _.
Arguments w_clock {_ _} _.
Arguments w_tick {_ _} _.

Definition set_db {D C} (d : D) (w : World D C) : World D C :=
  mkWorld d (w_mem w) (w_faults w) (w_clock w) (w_tick w).
Definition set_mem {D C} (c : C) (w : World D C) : World D C :=
  mkWorld (w_db w) c (w_faults w) (w_clock w) (w_tick w).
Definition set_faults {D C} (fs : list (option Error.t)) (w : World D C) : World D C :=
  mkWorld (w_db w) (w_mem w) fs (w_clock w) (w_tick w).
Definition set_tick {D C} (t : nat) (w : World D C) : World D C :=
  mkWorld (w_db w) (w_mem w) (w_faults w) (w_clock w) t.

(** ** The monad of operations *)

Definition M (D C A : Type) : Type := World D C → Outcome A * World D C.

#[export] Instance M_ret D C : MRet (M D C) := λ A a w, (Ok a, w).
#[export] Instance M_bind D C : MBind (M D C) := λ A B f m w,
  match m w with
  | (Ok a, w') => f a w'
  | (Err e, w') => (Err e, w')
  | (Panic, w') => (Panic, w')
  end.

Section Operations.
Context {D C : Type}.
Implicit Types w : World D C.

Definition throw {A} (e : Error.t) : M D C A := λ w, (Err e, w).
Definition fs_err {A} (e : FsError.t) : M D C A := throw (Error.Fs e).
Definition panic {A} : M D C A := λ w, (Panic, w).

(** [Option::ok_or(e)?]. *)
Definition ok_or {A} (e : Error.t) (o : option A) : M D C A :=
  match o with Some a => mret a | None => throw e end.

(** An operation that panics when its argument is [None]: slices,
    [unwrap], division by zero. *)
Definition or_panic {A} (o : option A) : M D C A :=
  match o with Some a => mret a | None => panic end.

(** Division of unsigned integers. *)
Definition udiv (a b : Z) : M D C Z :=
  or_panic (if b =? 0 then None else Some (a / b)).
Definition urem (a b : Z) : M D C Z :=
  or_panic (if b =? 0 then None else Some (a mod b)).

(** One call into the engine: it fails when the schedule says so. *)
Definition engine_call : M D C unit := λ w,
  match w_faults w with
  | [] => (Ok tt, w)
  | None :: fs => (Ok tt, set_faults fs w)
  | Some e :: fs => (Err e, set_faults fs w)
  end.

(** [self.pool.get_connection().await?]. *)
Definition get_connection : M D C unit := engine_call.

(** A [SELECT]: preparing and stepping it may fail, it changes nothing. *)
Definition query {A} (f : D → A) : M D C A :=
  engine_call ;; ((λ w, (Ok (f (w_db w)), w)) : M D C A).

(** A statement that returns rows and changes the tables ([RETURNING]);
    [None] is a violated constraint, which leaves the tables unchanged. *)
Definition query_row {A} (f : D → option (A * D)) : M D C A :=
  engine_call ;; ((λ w,
    match f (w_db w) with
    | Some (a, d) => (Ok a, set_db d w)
    | None => (Err (Error.Database Constraint), w)
    end) : M D C A).

Definition execute (f : D → option D) : M D C unit :=
  query_row (λ d, pair tt <$> f d).

(** A statement that violates no constraint. *)
Definition update (f : D → D) : M D C unit := execute (λ d, Some (f d)).

(** [SystemTime::now().duration_since(UNIX_EPOCH)?]: it fails when the
    clock is set before the epoch, whatever the engine does. *)
Definition now : M D C (Z * Z) := λ w,
  match w_clock w (w_tick w) with
  | Some t => (Ok t, set_tick (S (w_tick w)) w)
  | None => (Err Error.Time, set_tick (S (w_tick w)) w)
  end.

(** The same with [unwrap_or_default()] and with [unwrap()]. *)
Definition now_or_default : M D C (Z * Z) := λ w,
  (Ok (match w_clock w (w_tick w) with Some t => t | None => (0, 0) end),
   set_tick (S (w_tick w)) w).
Definition now_unwrap : M D C (Z * Z) := λ w,
  match w_clock w (w_tick w) with
  | Some t => (Ok t, set_tick (S (w_tick w)) w)
  | None => (Panic, set_tick (S (w_tick w)) w)
  end.

(** The in-memory state behind its mutex. *)
Definition with_mem {A} (f : C → A * C) : M D C A := λ w,
  let '(a, c) := f (w_mem w) in (Ok a, set_mem c w).

(** [Transaction::new_unchecked(conn, Immediate)] around a body: commit when
    the body succeeds; otherwise, and when the commit fails, the tables are
    those the transaction started with (explicitly by [rollback], or when
    the uncommitted transaction is dropped). *)
Definition transaction {A} (body : M D C A) : M D C A := λ w,
  match engine_call w with
  | (Ok _, w1) =>
      match body w1 with
      | (Ok a, w2) =>
          match engine_call w2 with
          | (Ok _, w3) => (Ok a, w3)
          | (Err e, w3) => (Err e, set_db (w_db w) w3)
          | (Panic, w3) => (Panic, set_db (w_db w) w3)
          end
      | (r, w2) => (r, set_db (w_db w) w2)
      end
  | (Err e, w1) => (Err e, w1)
  | (Panic, w1) => (Panic, w1)
  end.

(** [k] statements that only can fail ([CREATE ... IF NOT EXISTS] on tables
    that exist, pragmas). *)
Fixpoint statements (k : nat) : M D C unit :=
  match k with O => mret tt | S k => engine_call ;; statements k end.

(** The result of a foreign serializer or parser, with its [?]. *)
Definition json {A} (r : string + A) : M D C A :=
  match r with inr a => mret a | inl msg => throw (Error.Json msg) end.

(** Signed 64-bit arithmetic of the value [z]: a build with overflow checks
    panics outside the range, one without wraps around. *)
Definition i64_arith (overflow_checks : bool) (z : Z) : M D C Z :=
  if (- 2 ^ 63 <=? z) && (z <? 2 ^ 63) then mret z
  else if overflow_checks then panic else mret (as_i64 z).

(** A failure caught in the middle of an operation
    ([Err(e) => ...] on the result of a sub-operation). *)
Definition try {A} (m : M D C A) : M D C (Outcome A) := λ w,
  let '(r, w') := m w in (Ok r, w').
End Operations.

(** ** Laws *)

(** Pointwise equality of operations; [bind] respects it. *)
Definition meq {D C A} (m1 m2 : M D C A) : Prop := ∀ w, m1 w = m2 w.

#[export] Instance meq_equiv D C A : Equivalence (@meq D C A).
Proof.
  split.
  - by intros m w.
  - by intros m1 m2 H w.
  - intros m1 m2 m3 H1 H2 w. by rewrite H1, H2.
Qed.

#[export] Instance bind_proper D C A B :
  Proper (pointwise_relation A meq ==> meq ==> meq) (@mbind (M D C) _ A B).
Proof.
  intros f g Hfg m1 m2 Hm w. unfold mbind, M_bind. rewrite Hm.
  destruct (m2 w) as [[a|e|] w']; [apply Hfg | done..].
Qed.

Lemma bind_ret_l {D C A B} (a : A) (f : A → M D C B) : meq (mret a ≫= f) (f a).
Proof. by intros w. Qed.

Lemma bind_ret_r {D C A} (m : M D C A) : meq (m ≫= mret) m.
Proof. intros w. unfold mbind, M_bind. by destruct (m w) as [[]]. Qed.

Lemma bind_assoc {D C A B E} (m : M D C A) (f : A → M D C B) (g : B → M D C E) :
  meq ((m ≫= f) ≫= g) (m ≫= λ a, f a ≫= g).
Proof. intros w. unfold mbind, M_bind. by destruct (m w) as [[]]. Qed.

(** A sequence that ends with [Ok] got through its parts. *)
Lemma bind_ok {D C A B} (m : M D C A) (f : A → M D C B) w w' b :
  (m ≫= f) w = (Ok b, w') → ∃ a w1, m w = (Ok a, w1) ∧ f a w1 = (Ok b, w').
Proof. unfold mbind, M_bind. destruct (m w) as [[a|e|] w1]; naive_solver. Qed.

(** ** Running operations without failures

    [run] evaluates an operation on a world whose fault schedule is empty: it
    unfolds the monad and the engine calls, and leaves the queries on the
    tables as they are. *)
Ltac run :=
  cbv beta iota zeta delta
      [mbind M_bind mret udiv urem M_ret throw fs_err panic ok_or or_panic engine_call
       get_connection query query_row execute update now now_or_default
       now_unwrap with_mem transaction try fmap option_fmap option_map
       set_db set_mem set_faults set_tick w_db w_mem w_faults w_clock w_tick
       fst snd].

(** A clock that reads [clk], never before the epoch. *)
Abbreviation ticks clk := (λ n, Some (clk n)).

Definition clock_ok {D C} (w : World D C) : Prop := ∃ clk, w_clock w = ticks clk.

(** A world in which the engine does not fail, and one in which the clock does
    not fail either. *)
Definition faultless {D C} (w : World D C) : Prop := w_faults w = [].
Definition healthy {D C} (w : World D C) : Prop := faultless w ∧ clock_ok w.

(** [healthy w] as the form of [w]. *)
Ltac healthy_world w :=
  let d := fresh "d" in let mem := fresh "mem" in let fs := fresh "fs" in
  let clk0 := fresh "clk0" in let t := fresh "t" in let clk := fresh "clk" in
  destruct w as [d mem fs clk0 t];
  match goal with H : healthy _ |- _ =>
    destruct H as [H [clk ?Hclk]]; unfold faultless in H;
    cbn [w_faults w_clock] in *; subst fs clk0 end.

(** ** Read-only and atomic operations

    [ReadOnly m]: under every fault schedule, [m] leaves the tables as they
    are.  [Atomic m]: under every fault schedule, if [m] does not end with
    [Ok] then the tables are those it started with.  [Safe m]: [m] never
    fails and never touches the tables (updates of the in-memory state).
    Instance search proves both from the structure of an operation. *)
Class ReadOnly {D C A} (m : M D C A) := readonly w : w_db (m w).2 = w_db w.
Class Atomic {D C A} (m : M D C A) :=
  atomic w : (∀ a, (m w).1 ≠ Ok a) → w_db (m w).2 = w_db w.
Class Safe {D C A} (m : M D C A) :=
  safe w : (∃ a, (m w).1 = Ok a) ∧ w_db (m w).2 = w_db w.
#[global] Hint Mode ReadOnly + + + ! : typeclass_instances.
#[global] Hint Mode Atomic + + + ! : typeclass_instances.
#[global] Hint Mode Safe + + + ! : typeclass_instances.

Section Classes.
Context {D C : Type}.

Ltac faults w :=
  destruct w as [d c [|[e|] fs] clk t]; run; done || eauto.

#[export] Instance ret_safe {A} (a : A) : Safe (mret (M := M D C) a).
Proof. intros w. split; [by exists a|done]. Qed.
#[export] Instance with_mem_safe {A} (f : C → A * C) : Safe (with_mem (D:=D) f).
Proof. intros w. unfold with_mem. destruct (f (w_mem w)). split; [by eexists|done]. Qed.
#[export] Instance bind_safe {A B} (m : M D C A) (f : A → M D C B) :
  Safe m → (∀ a, Safe (f a)) → Safe (m ≫= f).
Proof.
  intros Hm Hf w. destruct (Hm w) as [[a Ha] Hd]. unfold mbind, M_bind.
  destruct (m w) as [r w']. simpl in *. subst r.
  destruct (Hf a w') as [? ?]. split; [done|congruence].
Qed.

#[export] Instance safe_readonly {A} (m : M D C A) : Safe m → ReadOnly m | 10.
Proof. intros Hm w. apply Hm. Qed.
#[export] Instance throw_readonly {A} e : ReadOnly (throw (D:=D) (C:=C) (A:=A) e).
Proof. done. Qed.
#[export] Instance fs_err_readonly {A} e : ReadOnly (fs_err (D:=D) (C:=C) (A:=A) e).
Proof. done. Qed.
#[export] Instance panic_readonly {A} : ReadOnly (panic (D:=D) (C:=C) (A:=A)).
Proof. done. Qed.
#[export] Instance ok_or_readonly {A} e (o : option A) :
  ReadOnly (ok_or (D:=D) (C:=C) e o).
Proof. by destruct o. Qed.
#[export] Instance or_panic_readonly {A} (o : option A) :
  ReadOnly (or_panic (D:=D) (C:=C) o).
Proof. by destruct o. Qed.
#[export] Instance udiv_readonly a b : ReadOnly (udiv (D:=D) (C:=C) a b).
Proof. apply _. Qed.
#[export] Instance urem_readonly a b : ReadOnly (urem (D:=D) (C:=C) a b).
Proof. apply _. Qed.
#[export] Instance engine_call_readonly : ReadOnly (engine_call (D:=D) (C:=C)).
Proof. intros w. faults w. Qed.
#[export] Instance get_connection_readonly : ReadOnly (get_connection (D:=D) (C:=C)).
Proof. apply _. Qed.
#[export] Instance query_readonly {A} (f : D → A) : ReadOnly (query (C:=C) f).
Proof. intros w. faults w. Qed.
#[export] Instance statements_readonly k : ReadOnly (statements (D:=D) (C:=C) k).
Proof.
  induction k as [|k IH]; intros w; [done|]. cbn [statements].
  unfold mbind, M_bind. pose proof (engine_call_readonly w) as H.
  destruct (engine_call w) as [[a|e|] w1]; [|done..]. rewrite <-H. apply IH.
Qed.
#[export] Instance json_readonly {A} (r : string + A) : ReadOnly (json (D:=D) (C:=C) r).
Proof. by destruct r. Qed.
#[export] Instance i64_arith_readonly b z : ReadOnly (i64_arith (D:=D) (C:=C) b z).
Proof. unfold i64_arith. intros w. by case_match; [|destruct b]. Qed.
#[export] Instance now_readonly : ReadOnly (now (D:=D) (C:=C)).
Proof. intros w. unfold now. by destruct (w_clock w (w_tick w)). Qed.
#[export] Instance now_or_default_readonly : ReadOnly (now_or_default (D:=D) (C:=C)).
Proof. done. Qed.
#[export] Instance now_unwrap_readonly : ReadOnly (now_unwrap (D:=D) (C:=C)).
Proof. intros w. unfold now_unwrap. by destruct (w_clock w (w_tick w)). Qed.
#[export] Instance bind_readonly {A B} (m : M D C A) (f : A → M D C B) :
  ReadOnly m → (∀ a, ReadOnly (f a)) → ReadOnly (m ≫= f).
Proof.
  intros Hm Hf w. specialize (Hm w). unfold mbind, M_bind.
  destruct (m w) as [[a|e|] w']; simpl in *; [|done..]. by rewrite Hf.
Qed.

#[export] Instance readonly_atomic {A} (m : M D C A) : ReadOnly m → Atomic m | 10.
Proof. intros Hm w _. apply Hm. Qed.
#[export] Instance query_row_atomic {A} (f : D → option (A * D)) :
  Atomic (query_row (C:=C) f).
Proof.
  intros w H. destruct w as [d c [|[e|] fs] clk t]; revert H; unfold query_row;
    run; destruct (f d) as [[a d']|]; simpl; intros H; try done; by destruct (H a).
Qed.
#[export] Instance execute_atomic (f : D → option D) : Atomic (execute (C:=C) f).
Proof. apply _. Qed.
#[export] Instance update_atomic (f : D → D) : Atomic (update (C:=C) f).
Proof. apply _. Qed.

(** Reading first keeps atomicity. *)
#[export] Instance bind_atomic_readonly {A B} (m : M D C A) (f : A → M D C B) :
  ReadOnly m → (∀ a, Atomic (f a)) → Atomic (m ≫= f) | 1.
Proof.
  intros Hm Hf w. specialize (Hm w). unfold mbind, M_bind.
  destruct (m w) as [[a|e|] w']; simpl in *; [|done..].
  intros H. rewrite (Hf a w' H). done.
Qed.

(** So does doing something afterwards that cannot fail. *)
#[export] Instance bind_atomic_safe {A B} (m : M D C A) (f : A → M D C B) :
  Atomic m → (∀ a, Safe (f a)) → Atomic (m ≫= f) | 2.
Proof.
  intros Hm Hf w. specialize (Hm w). unfold mbind, M_bind.
  destruct (m w) as [[a|e|] w']; simpl in *; try (intros _; by apply Hm).
  intros H. destruct (Hf a w') as [[b Hb] _]. by destruct (H b).
Qed.

(** Whatever the body does, a transaction is atomic. *)
#[export] Instance transaction_atomic {A} (m : M D C A) : Atomic (transaction m).
Proof.
  intros w H. pose proof (readonly (m := engine_call (D:=D) (C:=C)) w) as Hcall.
  revert H. unfold transaction.
  destruct (engine_call w) as [[u|e|] w1]; simpl in *; [|done..].
  destruct (m w1) as [[a|e|] w2]; simpl; [|done..].
  destruct (engine_call w2) as [[u2|e|] w3]; simpl; [|done..].
  intros H. by destruct (H a).
Qed.
End Classes.

(** ** Failures only stop an operation

    [Stops m]: under a fault schedule, [m] either ends with one of the
    scheduled errors, or does exactly what it does when the engine does not
    fail.  What is proved of an operation in healthy worlds thereby holds in
    all worlds in which it gets through. *)
Class Stops {D C A} (m : M D C A) :=
  stops w :
    (∃ e, Some e ∈ w_faults w ∧ (m w).1 = Err e) ∨
    ((m w).1 = (m (set_faults [] w)).1 ∧
     set_faults [] (m w).2 = (m (set_faults [] w)).2 ∧
     w_faults (m w).2 `suffix_of` w_faults w).
#[global] Hint Mode Stops + + + ! : typeclass_instances.

Section Stops.
Context {D C : Type}.

Ltac now_stops := intros w; right; split_and!; [done..|by exists []].

#[export] Instance ret_stops {A} (a : A) : Stops (mret (M := M D C) a).
Proof. now_stops. Qed.
#[export] Instance throw_stops {A} e : Stops (throw (D:=D) (C:=C) (A:=A) e).
Proof. now_stops. Qed.
#[export] Instance fs_err_stops {A} e : Stops (fs_err (D:=D) (C:=C) (A:=A) e).
Proof. now_stops. Qed.
#[export] Instance panic_stops {A} : Stops (panic (D:=D) (C:=C) (A:=A)).
Proof. now_stops. Qed.
#[export] Instance ok_or_stops {A} e (o : option A) : Stops (ok_or (D:=D) (C:=C) e o).
Proof. destruct o; apply _. Qed.
#[export] Instance or_panic_stops {A} (o : option A) : Stops (or_panic (D:=D) (C:=C) o).
Proof. destruct o; apply _. Qed.
#[export] Instance udiv_stops a b : Stops (udiv (D:=D) (C:=C) a b).
Proof. apply _. Qed.
#[export] Instance urem_stops a b : Stops (urem (D:=D) (C:=C) a b).
Proof. apply _. Qed.
#[export] Instance with_mem_stops {A} (f : C → A * C) : Stops (with_mem (D:=D) f).
Proof.
  intros w. right. destruct w as [d c fs clk t]. unfold with_mem. cbn [w_mem set_faults].
  destruct (f c). split_and!; [done..|by exists []].
Qed.
#[export] Instance engine_call_stops : Stops (engine_call (D:=D) (C:=C)).
Proof.
  intros [d c [|[e|] fs] clk t]; [right|left|right].
  - split_and!; [done..|by exists []].
  - exists e. split; [left|done].
  - split_and!; [done..|by exists [None]].
Qed.

#[export] Instance bind_stops {A B} (m : M D C A) (f : A → M D C B) :
  Stops m → (∀ a, Stops (f a)) → Stops (m ≫= f).
Proof.
  intros Hm Hf w. unfold mbind, M_bind.
  destruct (Hm w) as [(e & He & Hr)|(Hr & Hw & Hsuf)].
  - left. exists e. split; [done|]. destruct (m w) as [r w1]. simpl in *. by subst r.
  - destruct (m w) as [r w1], (m (set_faults [] w)) as [r' w1']. simpl in *. subst r' w1'.
    destruct r as [a|e|]; [|right; by split_and!..].
    destruct (Hf a w1) as [(e & He & Hr)|(? & ? & Hsuf2)].
    + left. exists e. split; [|done]. destruct Hsuf as [l ->].
      apply elem_of_app. by right.
    + right. split_and!; [done..|by trans (w_faults w1)].
Qed.

(** Steps on the tables that do not look at the schedule. *)
Lemma step_stops {A} (m : World D C → Outcome A * World D C) :
  (∀ w, (m w).1 = (m (set_faults [] w)).1) →
  (∀ w, set_faults [] (m w).2 = (m (set_faults [] w)).2) →
  (∀ w, w_faults (m w).2 = w_faults w) →
  Stops (m : M D C A).
Proof. intros H1 H2 H3 w. right. split_and!; [done..|by rewrite H3]. Qed.

#[export] Instance statements_stops k : Stops (statements (D:=D) (C:=C) k).
Proof. induction k; cbn [statements]; apply _. Qed.
#[export] Instance json_stops {A} (r : string + A) : Stops (json (D:=D) (C:=C) r).
Proof. destruct r; apply _. Qed.
#[export] Instance i64_arith_stops b z : Stops (i64_arith (D:=D) (C:=C) b z).
Proof. unfold i64_arith. case_match; [|destruct b]; apply _. Qed.
#[export] Instance query_stops {A} (f : D → A) : Stops (query (C:=C) f).
Proof. unfold query. apply bind_stops; [apply _|]. intros _. by apply step_stops. Qed.
#[export] Instance query_row_stops {A} (f : D → option (A * D)) :
  Stops (query_row (C:=C) f).
Proof.
  unfold query_row. apply bind_stops; [apply _|]. intros _.
  apply step_stops; intros w; cbn [w_db set_faults];
    destruct (f (w_db w)) as [[? ?]|]; done.
Qed.
#[export] Instance execute_stops (f : D → option D) : Stops (execute (C:=C) f).
Proof. unfold execute. apply _. Qed.
#[export] Instance update_stops (f : D → D) : Stops (update (C:=C) f).
Proof. unfold update. apply _. Qed.
#[export] Instance now_stops : Stops (now (D:=D) (C:=C)).
Proof.
  apply step_stops; intros w; unfold now; cbn [w_clock w_tick set_faults];
    by destruct (w_clock w (w_tick w)).
Qed.
#[export] Instance now_or_default_stops : Stops (now_or_default (D:=D) (C:=C)).
Proof. by apply step_stops. Qed.
#[export] Instance now_unwrap_stops : Stops (now_unwrap (D:=D) (C:=C)).
Proof.
  apply step_stops; intros w; unfold now_unwrap; cbn [w_clock w_tick set_faults];
    by destruct (w_clock w (w_tick w)).
Qed.

Lemma engine_call_cases (w : World D C) :
  (∃ e w', Some e ∈ w_faults w ∧ engine_call w = (Err e, w')) ∨
  (∃ w', engine_call w = (Ok tt, w') ∧ set_faults [] w' = set_faults [] w ∧
         w_faults w' `suffix_of` w_faults w).
Proof.
  destruct w as [d c [|[e|] fs] clk t]; [right|left|right].
  - eexists. split_and!; [done..|by exists []].
  - exists e. eexists. split; [left|done].
  - eexists. split_and!; [done..|by exists [None]].
Qed.

#[export] Instance transaction_stops {A} (m : M D C A) : Stops m → Stops (transaction m).
Proof.
  intros Hm w. unfold transaction.
  change (engine_call (set_faults [] w)) with (@Ok unit tt, set_faults [] w).
  destruct (engine_call_cases w) as [(e & w1 & He & ->)|(w1 & -> & Hw1 & Hs1)];
    cbv beta iota.
  { left. by exists e. }
  destruct (Hm w1) as [(e & He & Hr)|(Hr & Hw & Hs2)].
  { left. exists e. split; [destruct Hs1 as [l ->]; apply elem_of_app; by right|].
    destruct (m w1) as [r w2]. simpl in Hr. by subst r. }
  rewrite Hw1 in *. destruct (m w1) as [r w2], (m (set_faults [] w)) as [r' w2'].
  simpl in Hr, Hw, Hs2. subst r' w2'.
  destruct r as [a|e|]; [|right; split_and!; [done..|by trans (w_faults w1)]..].
  change (engine_call (set_faults [] w2)) with (@Ok unit tt, set_faults [] w2).
  destruct (engine_call_cases w2) as [(e & w3 & He & ->)|(w3 & -> & Hw3 & Hs3)];
    cbv beta iota.
  - left. exists e. split; [|done]. destruct Hs1 as [l1 ->], Hs2 as [l2 ->].
    apply elem_of_app. right. apply elem_of_app. by right.
  - right. split_and!; [done..|]. by do 2 (etrans; [eassumption|]).
Qed.
End Stops.

#[export] Hint Extern 0 (ReadOnly (match ?x with _ => _ end)) =>
  destruct x : typeclass_instances.
#[export] Hint Extern 0 (Atomic (match ?x with _ => _ end)) =>
  destruct x : typeclass_instances.
#[export] Hint Extern 0 (Stops (match ?x with _ => _ end)) =>
  destruct x : typeclass_instances.

(** The combined reading of [Stops] and [Atomic]: an operation whose outcome
    in the healthy world is [Ok a] with tables [d'] either ends with an engine
    error and unchanged tables, or ends with [Ok a] and tables [d']. *)
Lemma stops_atomic {D C A} (m : M D C A) `{!Stops m, !Atomic m} w a w' :
  m (set_faults [] w) = (Ok a, w') →
  match m w with
  | (Ok a', w1) => a' = a ∧ w_db w1 = w_db w' ∧ w_mem w1 = w_mem w'
  | (Err e, w1) => Some e ∈ w_faults w ∧ w_db w1 = w_db w
  | (Panic, _) => False
  end.
Proof.
  intros Hok. pose proof (atomic (m:=m) w) as Hat.
  destruct (stops (m:=m) w) as [(e & He & Hr)|(Hr & Hw & _)].
  - destruct (m w) as [r w1]. simpl in *. subst r. split; [done|]. by apply Hat.
  - rewrite Hok in Hr, Hw. destruct (m w) as [r w1]. simpl in *. subst r w'. done.
Qed.

(** ** The clock goes on *)

Class KeepsClock {D C A} (m : M D C A) := keeps_clock w : w_clock (m w).2 = w_clock w.
#[global] Hint Mode KeepsClock + + + ! : typeclass_instances.

Section KeepsClock.
Context {D C : Type}.

#[export] Instance ret_clock {A} (a : A) : KeepsClock (mret (M := M D C) a).
Proof. done. Qed.
#[export] Instance throw_clock {A} e : KeepsClock (throw (D:=D) (C:=C) (A:=A) e).
Proof. done. Qed.
#[export] Instance fs_err_clock {A} e : KeepsClock (fs_err (D:=D) (C:=C) (A:=A) e).
Proof. done. Qed.
#[export] Instance or_panic_clock {A} (o : option A) : KeepsClock (or_panic (D:=D) (C:=C) o).
Proof. by destruct o. Qed.
#[export] Instance udiv_clock a b : KeepsClock (udiv (D:=D) (C:=C) a b).
Proof. apply _. Qed.
#[export] Instance urem_clock a b : KeepsClock (urem (D:=D) (C:=C) a b).
Proof. apply _. Qed.
#[export] Instance with_mem_clock {A} (f : C → A * C) : KeepsClock (with_mem (D:=D) f).
Proof. intros w. unfold with_mem. by destruct (f (w_mem w)). Qed.
#[export] Instance engine_call_clock : KeepsClock (engine_call (D:=D) (C:=C)).
Proof. by intros [d c [|[e|] fs] clk t]. Qed.
#[export] Instance bind_clock {A B} (m : M D C A) (f : A → M D C B) :
  KeepsClock m → (∀ a, KeepsClock (f a)) → KeepsClock (m ≫= f).
Proof.
  intros Hm Hf w. specialize (Hm w). unfold mbind, M_bind.
  destruct (m w) as [[a|e|] w']; simpl in *; [|done..]. by rewrite Hf.
Qed.
#[export] Instance query_clock {A} (f : D → A) : KeepsClock (query (C:=C) f).
Proof. unfold query. by apply bind_clock; [apply _|intros _ w]. Qed.
#[export] Instance query_row_clock {A} (f : D → option (A * D)) :
  KeepsClock (query_row (C:=C) f).
Proof.
  unfold query_row. apply bind_clock; [apply _|intros _ w].
  by destruct (f (w_db w)) as [[a d]|].
Qed.
#[export] Instance execute_clock (f : D → option D) : KeepsClock (execute (C:=C) f).
Proof. unfold execute. apply _. Qed.
#[export] Instance update_clock (f : D → D) : KeepsClock (update (C:=C) f).
Proof. unfold update. apply _. Qed.
#[export] Instance now_clock : KeepsClock (now (D:=D) (C:=C)).
Proof. intros w. unfold now. by destruct (w_clock w (w_tick w)). Qed.
#[export] Instance now_or_default_clock : KeepsClock (now_or_default (D:=D) (C:=C)).
Proof. done. Qed.
#[export] Instance now_unwrap_clock : KeepsClock (now_unwrap (D:=D) (C:=C)).
Proof. intros w. unfold now_unwrap. by destruct (w_clock w (w_tick w)). Qed.
#[export] Instance transaction_clock {A} (m : M D C A) : KeepsClock m → KeepsClock (transaction m).
Proof.
  intros Hm w. unfold transaction.
  pose proof (engine_call_clock w) as Hcall.
  destruct (engine_call w) as [[u|e|] w1]; simpl in *; [|done..].
  pose proof (Hm w1) as Hw2. destruct (m w1) as [[a|e|] w2]; simpl in *; [|congruence..].
  pose proof (engine_call_clock w2) as Hcall2.
  destruct (engine_call w2) as [[u2|e|] w3]; simpl in *; congruence.
Qed.
End KeepsClock.

#[export] Hint Extern 0 (KeepsClock (match ?x with _ => _ end)) =>
  destruct x : typeclass_instances.
