(* ===== verification/Pool.v ===== *)
(** * Pool: the connection pool under concurrent tasks

    [connection_pool.rs]: a semaphore with [MAX_CONNECTIONS] permits and a stack of idle
    connections behind a mutex.  [get_connection] waits for a permit, pops a connection or
    opens one, and the guard it returns puts the connection back when it is dropped, then
    the permit.  Tasks interleave between these points: the pool is a step relation.  The
    theorems are what [Engine] relies on when it runs operations one at a time. *)
From stdpp Require Import relations.
From S2P Require Import Prelude.

Definition MAX_CONNECTIONS : nat := 1.

(** Where a task is that has a permit: it has just got it, it opens a connection, it holds
    one, or it has given the connection back and not yet the permit. *)
Inductive phase := Granted | Connecting | Holding (c : Z) | Returned.
#[export] Instance phase_eq_dec : EqDecision phase.
Proof. solve_decision. Defined.

(** The idle connections (the top of the stack first), the free permits, the tasks that
    have a permit, and the number of the next connection to open. *)
Record Pool := mkPool {
  idle : list Z; permits : nat; tasks : gmap Z phase; next_conn : Z
}.

(** [with_timeout]. *)
Definition with_timeout (max : nat) : Pool := mkPool [] max ∅ 0.

Definition put_task (t : Z) (ph : phase) (p : Pool) : Pool :=
  mkPool (idle p) (permits p) (<[t := ph]> (tasks p)) (next_conn p).
(** The permit goes back to the semaphore. *)
Definition release (t : Z) (p : Pool) : Pool :=
  mkPool (idle p) (S (permits p)) (delete t (tasks p)) (next_conn p).

(** [acquire_owned]: [None] while there is no permit; after the timeout the caller gets
    [ConnectionPoolTimeout], and the pool is as it was. *)
Definition acquire (t : Z) (p : Pool) : option Pool :=
  match permits p with
  | O => None
  | S n => Some (mkPool (idle p) n (<[t := Granted]> (tasks p)) (next_conn p))
  end.

(** [pool.pop()], under the mutex. *)
Definition pop (t : Z) (p : Pool) : Pool :=
  match idle p with
  | c :: rest => put_task t (Holding c) (mkPool rest (permits p) (tasks p) (next_conn p))
  | [] => put_task t Connecting p
  end.

(** [db.connect()?]: an error drops the permit. *)
Definition connect (ok : bool) (t : Z) (p : Pool) : Pool :=
  if ok then
    mkPool (idle p) (permits p) (<[t := Holding (next_conn p)]> (tasks p)) (next_conn p + 1)
  else release t p.

(** [Drop::drop]: with [try_lock] failing the connection is closed instead. *)
Definition give_back (locked : bool) (t c : Z) (p : Pool) : Pool :=
  mkPool (if locked then idle p else c :: idle p) (permits p)
    (<[t := Returned]> (tasks p)) (next_conn p).

(** What a task does next.  A task may also be cancelled inside [get_connection]; what it
    had by then is dropped. *)
Inductive step : Pool → Pool → Prop :=
| Acquire t p p' : tasks p !! t = None → acquire t p = Some p' → step p p'
| TimesOut t p : tasks p !! t = None → acquire t p = None → step p p
| Pops t p : tasks p !! t = Some Granted → step p (pop t p)
| Connects ok t p : tasks p !! t = Some Connecting → step p (connect ok t p)
| Cancelled t p : tasks p !! t = Some Granted ∨ tasks p !! t = Some Connecting →
    step p (release t p)
| Drops locked t c p : tasks p !! t = Some (Holding c) → step p (give_back locked t c p)
| Releases t p : tasks p !! t = Some Returned → step p (release t p).

(** ** The invariant *)

(** Tasks that have a connection, or are about to open one. *)
Definition engaged (ph : phase) : bool :=
  match ph with Holding _ | Connecting => true | _ => false end.
Definition count (m : gmap Z phase) : nat := size (filter (λ kv : Z * phase, engaged kv.2) m).
Definition weight (ph : phase) : nat := if engaged ph then 1 else 0.

Lemma engaged_delete (m : gmap Z phase) t ph : m !! t = Some ph →
  (count (delete t m) + weight ph = count m)%nat.
Proof.
  intros Ht. unfold count, weight. rewrite map_filter_delete. destruct (engaged ph) eqn:He.
  - assert (filter (λ kv : Z * phase, engaged kv.2) m !! t = Some ph) as Hf.
    { apply map_lookup_filter_Some. split; [done|]. cbn. by rewrite He. }
    rewrite map_size_delete_Some by done.
    pose proof (map_size_ne_0_lookup_2 _ t (mk_is_Some _ _ Hf)). lia.
  - rewrite map_size_delete_None; [lia|]. apply map_lookup_filter_None. right.
    intros x Hx. rewrite Ht in Hx. injection Hx as <-. intros Hx. cbn in Hx. by rewrite He in Hx.
Qed.

Lemma engaged_insert (m : gmap Z phase) t ph : m !! t = None →
  count (<[t := ph]> m) = (count m + weight ph)%nat.
Proof.
  intros Ht. pose proof (engaged_delete (<[t:=ph]> m) t ph (lookup_insert_eq _ _ _)) as H.
  rewrite delete_insert_id in H by done. lia.
Qed.

Lemma size_delete (m : gmap Z phase) t ph : m !! t = Some ph → S (size (delete t m)) = size m.
Proof.
  intros Ht. rewrite map_size_delete_Some by done.
  pose proof (map_size_ne_0_lookup_2 _ t (mk_is_Some _ _ Ht)). lia.
Qed.

Lemma count_size (m : gmap Z phase) : (count m <= size m)%nat.
Proof. apply map_size_filter. Qed.

(** The phase of a task changes. *)
Lemma count_change (m : gmap Z phase) t ph ph' : m !! t = Some ph →
  size (<[t := ph']> m) = size m ∧ (count (<[t := ph']> m) + weight ph = count m + weight ph')%nat.
Proof.
  intros Ht. split; [by apply map_size_insert_Some|].
  rewrite <-insert_delete_eq, engaged_insert by apply lookup_delete_eq.
  pose proof (engaged_delete m t ph Ht). lia.
Qed.

(** The connections that are idle are distinct, known, and held by nobody; no connection
    is held twice; permits are neither lost nor made. *)
Record pool_ok (max : nat) (p : Pool) : Prop := {
  permits_ok : (permits p + size (tasks p) = max)%nat;
  open_ok : (length (idle p) + count (tasks p) <= max)%nat;
  idle_ok : NoDup (idle p);
  idle_known : ∀ c, c ∈ idle p → c < next_conn p;
  held_known : ∀ t c, tasks p !! t = Some (Holding c) → c < next_conn p ∧ c ∉ idle p;
  held_once : ∀ t t' c,
    tasks p !! t = Some (Holding c) → tasks p !! t' = Some (Holding c) → t = t'
}.

Lemma new_pool_ok max : pool_ok max (with_timeout max).
Proof.
  split; cbn; [by rewrite map_size_empty, Nat.add_0_r|unfold count; rewrite map_filter_empty, map_size_empty; lia
    |constructor|by intros c ?%elem_of_nil|intros *; by rewrite lookup_empty..].
Qed.

Lemma release_ok max t ph p : pool_ok max p → tasks p !! t = Some ph → pool_ok max (release t p).
Proof.
  intros [Hp Ho Hi Hk Hh H1] Ht.
  pose proof (size_delete _ _ _ Ht). pose proof (engaged_delete _ _ _ Ht).
  split; cbn; [lia|lia|done|done| |]; intros *; rewrite !lookup_delete_Some; naive_solver.
Qed.

(** A task that had no connection gets [c]. *)
Lemma hold_ok max t ph c rest next p : pool_ok max p →
  tasks p !! t = Some ph → (∀ c', ph ≠ Holding c') →
  (idle p = c :: rest ∧ next = next_conn p ∨
   idle p = rest ∧ c = next_conn p ∧ next = next_conn p + 1 ∧ ph = Connecting) →
  pool_ok max (mkPool rest (permits p) (<[t := Holding c]> (tasks p)) next).
Proof.
  intros [Hp Ho Hi Hk Hh H1] Ht Hph Hc.
  destruct (count_change _ t _ (Holding c) Ht) as [Hs Hn].
  assert (c < next ∧ (c ∉ rest) ∧ NoDup rest ∧ (∀ c', c' ∈ rest → (c' ∈ idle p ∧ c' < next)) ∧
    (∀ t c', tasks p !! t = Some (Holding c') → (c' < next ∧ (c' ∉ rest) ∧ c' ≠ c)) ∧
    (length rest + weight (Holding c) <= length (idle p) + weight ph)%nat) as (H2 & H3 & H4 & H5 & H6 & H7).
  { destruct Hc as [[Hl ->]|(<- & -> & -> & ->)].
    - rewrite Hl in *. apply NoDup_cons in Hi as [Hc Hi]. split_and!; [apply Hk; left|done|done| | |].
      + intros c' Hc'. split; [by right|apply Hk; by right].
      + intros t' c' Ht'. destruct (Hh _ _ Ht') as [? Hni].
        split_and!; [done|by intros ?; apply Hni; right|intros ->; apply Hni; left].
      + cbn. lia.
    - split_and!; [lia|intros Hc%Hk; lia|done|intros c' Hc'; pose proof (Hk _ Hc'); split; [done|lia]| |done].
      intros t' c' Ht'. destruct (Hh _ _ Ht'). split_and!; [lia|done|lia]. }
  split; cbn; [lia|lia|done|intros c' Hc'; by apply H5| |].
  - intros t' c'. rewrite lookup_insert_Some. intros [[_ [= <-]]|[_ Ht']]; [done|].
    by destruct (H6 _ _ Ht') as (? & ? & _).
  - intros t1 t2 c'. rewrite !lookup_insert_Some.
    intros [[<- [= <-]]|[? Ht1]] [[<- Heq]|[? Ht2]]; [done| | |by eapply H1].
    + by destruct (H6 _ _ Ht2) as (_ & _ & ?).
    + injection Heq as <-. by destruct (H6 _ _ Ht1) as (_ & _ & ?).
Qed.

(** A task that gets no connection with its new phase. *)
Lemma plain_ok max t ph ph' p : pool_ok max p →
  tasks p !! t = Some ph → (∀ c, ph' ≠ Holding c) →
  (length (idle p) + count (tasks p) + weight ph' <= max + weight ph)%nat →
  pool_ok max (put_task t ph' p).
Proof.
  intros [Hp Ho Hi Hk Hh H1] Ht Hph Hn. destruct (count_change _ t _ ph' Ht) as [Hs Hc].
  split; cbn; [lia|lia|done|done| |].
  - intros t' c. rewrite lookup_insert_Some. intros [[_ ?]|[_ ?]]; [naive_solver|by apply (Hh t')].
  - intros t1 t2 c. rewrite !lookup_insert_Some. naive_solver.
Qed.

Lemma give_back_ok max locked t c p : pool_ok max p → tasks p !! t = Some (Holding c) →
  pool_ok max (give_back locked t c p).
Proof.
  intros Hok Ht. pose proof Hok as [Hp Ho Hi Hk Hh H1].
  destruct (count_change _ t _ Returned Ht) as [Hs Hn]. cbn in Hn.
  assert (∀ t' c', <[t:=Returned]> (tasks p) !! t' = Some (Holding c') →
    tasks p !! t' = Some (Holding c') ∧ t' ≠ t) as Hold.
  { intros t' c'. rewrite lookup_insert_Some. naive_solver. }
  destruct (Hh _ _ Ht) as [Hc Hni].
  split; unfold give_back; cbn; [lia|destruct locked; cbn; lia|destruct locked; [done|by constructor]| | |].
  - intros c' Hc'. destruct locked; [by apply Hk|].
    apply elem_of_cons in Hc' as [->|?]; [done|by apply Hk].
  - intros t' c' [Ht' Hne]%Hold. destruct (Hh _ _ Ht') as [? ?]. split; [done|].
    destruct locked; [done|]. intros [->|?]%elem_of_cons; [|done]. apply Hne. by eapply H1.
  - intros t1 t2 c' [? _]%Hold [? _]%Hold. by eapply H1.
Qed.

Lemma step_ok max p p' : pool_ok max p → step p p' → pool_ok max p'.
Proof.
  intros Hok Hstep. pose proof Hok as [Hp Ho Hi Hk Hh H1]. destruct Hstep as [t p p' Ht Ha|?|t p Ht|[] t p Ht|t p Ht|locked t c p Ht|t p Ht].
  - unfold acquire in Ha. destruct (permits p) as [|n] eqn:Hn; [done|]. injection Ha as <-.
    pose proof (engaged_insert _ t Granted Ht) as Hc. cbn in Hc.
    split; cbn; [rewrite map_size_insert_None by done; lia|lia|done|done| |].
    + intros t' c. rewrite lookup_insert_Some. intros [[_ ?]|[_ ?]]; [done|by apply (Hh t')].
    + intros t1 t2 c. rewrite !lookup_insert_Some. naive_solver.
  - done.
  - unfold pop. destruct (idle p) as [|c rest] eqn:Hl.
    + eapply plain_ok; [done|done|done|]. rewrite Hl. cbn.
      pose proof (engaged_delete _ _ _ Ht) as Hc. pose proof (size_delete _ _ _ Ht).
      pose proof (count_size (delete t (tasks p))). cbn in Hc. lia.
    + eapply (hold_ok max t Granted c rest (next_conn p) p); [done|done|done|]. left. done.
  - eapply (hold_ok max t Connecting (next_conn p) (idle p) (next_conn p + 1) p); [done|done|done|].
    right. done.
  - by eapply release_ok.
  - destruct Ht as [Ht|Ht]; by eapply release_ok.
  - by apply give_back_ok.
  - by eapply release_ok.
Qed.

Lemma reachable_ok max p : rtc step (with_timeout max) p → pool_ok max p.
Proof.
  intros Hr. pose proof (new_pool_ok max) as Hok. induction Hr as [|x y z Hs _ IH]; [done|].
  apply IH. by eapply step_ok.
Qed.

(** ** Progress *)

(** [p'] is what becomes of [p] when task [t] runs to its end, without being cancelled. *)
Definition finishes (t : Z) (p p' : Pool) : Prop :=
  rtc step p p' ∧ tasks p' = delete t (tasks p).

Lemma finish_holding t c p : tasks p !! t = Some (Holding c) → ∃ p', finishes t p p'.
Proof.
  intros Ht. exists (release t (give_back false t c p)). split.
  - eapply rtc_l; [by eapply Drops|]. apply rtc_once, Releases. apply lookup_insert_eq.
  - cbn. by rewrite delete_insert_eq.
Qed.

Lemma finish_after t ph p q : step p q → tasks q = <[t := ph]> (tasks p) →
  (∃ p', finishes t q p') → ∃ p', finishes t p p'.
Proof.
  intros Hs Hq (p' & Hr & Ht). exists p'. split; [by eapply rtc_l|].
  by rewrite Ht, Hq, delete_insert_eq.
Qed.

Lemma finish_connecting t p : tasks p !! t = Some Connecting → ∃ p', finishes t p p'.
Proof.
  intros Ht. eapply finish_after; [by apply (Connects true)|done|].
  eapply finish_holding. apply lookup_insert_eq.
Qed.

Lemma finish t ph p : tasks p !! t = Some ph → ∃ p', finishes t p p'.
Proof.
  intros Ht. destruct ph as [| |c|].
  - destruct (idle p) as [|c rest] eqn:Hl.
    + eapply (finish_after t Connecting); [by apply Pops|by unfold pop; rewrite Hl|].
      apply finish_connecting. unfold pop. rewrite Hl. apply lookup_insert_eq.
    + eapply (finish_after t (Holding c)); [by apply Pops|by unfold pop; rewrite Hl|].
      eapply (finish_holding _ c). unfold pop. rewrite Hl. apply lookup_insert_eq.
  - by apply finish_connecting.
  - by eapply finish_holding.
  - exists (release t p). split; [by apply rtc_once, Releases|done].
Qed.

(** All tasks run to their ends. *)
Lemma drain p : ∃ p', rtc step p p' ∧ tasks p' = ∅.
Proof.
  remember (size (tasks p)) as n eqn:Hn. revert p Hn.
  induction n as [|n IH]; intros p Hn.
  { exists p. split; [done|]. by apply map_size_empty_inv. }
  destruct (map_size_ne_0_lookup_1 (tasks p)) as [t [ph Ht]]; [lia|].
  destruct (finish t ph p Ht) as (q & Hq & Htq).
  destruct (IH q) as (p' & Hp' & He).
  { rewrite Htq. pose proof (size_delete _ _ _ Ht). lia. }
  exists p'. split; [by etrans|done].
Qed.

(** * Properties *)

(** C33: the pool keeps operations apart.  In whatever way tasks ask for connections, open
    them with or without success, are cancelled, give connections back or lose them: never
    more than one task has a permit, never more than one connection is open, and a
    connection that is idle is held by nobody. *)
Theorem pool_exclusive p : rtc step (with_timeout MAX_CONNECTIONS) p →
  (∀ t t', is_Some (tasks p !! t) → is_Some (tasks p !! t') → t = t') ∧
  (length (idle p) + count (tasks p) <= 1)%nat ∧
  (∀ t c, tasks p !! t = Some (Holding c) → c ∉ idle p).
Proof.
  intros Hr. destruct (reachable_ok _ _ Hr) as [Hp Ho _ _ Hh _]. unfold MAX_CONNECTIONS in *. split_and!.
  - intros t t' [ph Ht] [ph' Ht']. destruct (decide (t = t')) as [|Hne]; [done|].
    pose proof (size_delete _ _ _ Ht).
    assert (delete t (tasks p) !! t' = Some ph') as Hd by by rewrite lookup_delete_ne.
    pose proof (size_delete _ _ _ Hd). lia.
  - done.
  - intros t c Ht. by apply (Hh t).
Qed.

(** The pool serves whoever asks.  No failure, timeout, cancellation or lost connection
    uses a permit up: from every state the pool can be in, once the tasks at work have
    finished, any other task gets a connection. *)
Theorem pool_serves max p t : (0 < max)%nat → rtc step (with_timeout max) p → tasks p !! t = None →
  ∃ p' c, rtc step p p' ∧ tasks p' = {[t := Holding c]}.
Proof.
  intros Hmax Hr Ht. destruct (drain p) as (q & Hq & He).
  destruct (reachable_ok max q ltac:(by etrans)) as [Hp _ _ _ _ _].
  rewrite He, map_size_empty, Nat.add_0_r in Hp.
  assert (∃ q1, step q q1 ∧ tasks q1 = {[t := Granted]}) as (q1 & Hs1 & Ht1).
  { destruct (permits q) as [|n] eqn:Hn; [lia|].
    exists (mkPool (idle q) n (<[t := Granted]> (tasks q)) (next_conn q)). split.
    - apply (Acquire t); [by rewrite He, lookup_empty|]. unfold acquire. by rewrite Hn.
    - cbn. by rewrite He. }
  assert (tasks q1 !! t = Some Granted) as Hg by (rewrite Ht1; apply lookup_singleton_eq).
  destruct (idle q1) as [|c rest] eqn:Hl.
  - exists (connect true t (pop t q1)), (next_conn q1). split.
    + etrans; [exact Hq|]. eapply rtc_l; [exact Hs1|]. eapply rtc_l; [by apply Pops|].
      apply rtc_once, Connects. unfold pop. rewrite Hl. apply lookup_insert_eq.
    + unfold pop. rewrite Hl. cbn. rewrite Ht1, !insert_insert_eq. apply insert_singleton_eq.
  - exists (pop t q1), c. split.
    + etrans; [exact Hq|]. eapply rtc_l; [exact Hs1|]. by apply rtc_once, Pops.
    + unfold pop. rewrite Hl. cbn. rewrite Ht1. apply insert_singleton_eq.
Qed.

(** ** At concrete inputs *)

(** Task 7 has a connection, task 8 waits. *)
Definition busy : Pool :=
  connect true 7 (pop 7 (mkPool [] 0 {[7 := Granted]} 0)).
Lemma busy_reachable : rtc step (with_timeout MAX_CONNECTIONS) busy.
Proof.
  eapply rtc_l; [by apply (Acquire 7 _ (mkPool [] 0 {[7 := Granted]} 0))|].
  eapply rtc_l; [by apply (Pops 7)|]. by apply rtc_once, (Connects true 7).
Qed.
Example eight_waits : acquire 8 busy = None.
Proof. done. Qed.

Lemma pool_exclusive_witness :
  (length (idle busy) + count (tasks busy) <= 1)%nat ∧ tasks busy !! 8 = None.
Proof.
  pose proof (pool_exclusive busy busy_reachable) as (Hone & Hopen & _). split; [exact Hopen|].
  destruct (tasks busy !! 8) as [ph|] eqn:H8; [|reflexivity].
  assert (7 = 8) as H78 by (apply Hone; by eexists). discriminate H78.
Defined.

Lemma pool_serves_witness : ∃ p' c, rtc step busy p' ∧ tasks p' = {[8 := Holding c]}.
Proof.
  refine (pool_serves MAX_CONNECTIONS busy 8 _ busy_reachable _); [unfold MAX_CONNECTIONS; lia|done].
Defined.
