(* ===== verification/Rows.v ===== *)
(** * Rows: the order in which a query returns its rows

    SQL leaves the order of rows open except for the keys of [ORDER BY].
    [RowOrder] is that promise: the rows of a query come back in some order
    that respects the key; a query without [ORDER BY] orders by a constant.
    [Serde] is the interface to the serializer of the stored JSON values. *)
From S2P Require Import Prelude.

Class RowOrder := {
  order_desc : ∀ {A : Type}, (A → Z) → list A → list A;
  order_desc_perm {A} (key : A → Z) l : order_desc key l ≡ₚ l;
  order_desc_sorted {A} (key : A → Z) l :
    StronglySorted (λ a b, key b <= key a) (order_desc key l)
}.

(** The rows of a query without [ORDER BY]. *)
Definition scan `{RowOrder} {A} (l : list A) : list A := order_desc (λ _, 0) l.

Lemma scan_perm `{RowOrder} {A} (l : list A) : scan l ≡ₚ l.
Proof. apply order_desc_perm. Qed.

(** [LIMIT n]: a negative limit is no limit. *)
Definition limit_rows {A} (n : Z) (l : list A) : list A :=
  if n <? 0 then l else take (Z.to_nat n) l.

Lemma limit_rows_prefix {A} n (l : list A) : limit_rows n l `prefix_of` l.
Proof.
  unfold limit_rows. case_match; [done|]. exists (drop (Z.to_nat n) l).
  by rewrite take_drop.
Qed.

(** What a limited, ordered query leaves out is not above what it returns. *)
Lemma limit_order_split `{RowOrder} {A} (key : A → Z) n (l : list A) :
  ∃ rest, limit_rows n (order_desc key l) ++ rest ≡ₚ l ∧
    ∀ x y, x ∈ limit_rows n (order_desc key l) → y ∈ rest → key y <= key x.
Proof.
  destruct (limit_rows_prefix n (order_desc key l)) as [rest Hrest].
  exists rest. split; [rewrite <-Hrest; apply order_desc_perm|].
  pose proof (order_desc_sorted key l) as Hs. rewrite Hrest in Hs. clear Hrest.
  intros x y. revert Hs. induction (limit_rows n (order_desc key l)) as [|a pre IH].
  - by intros _ ?%elem_of_nil.
  - simpl. intros [Hs Ha]%StronglySorted_inv [->|Hx]%elem_of_cons Hy; [|by apply IH].
    rewrite Forall_app in Ha. destruct Ha as [_ Ha]. by eapply Forall_forall in Ha.
Qed.

Lemma limit_order_sorted `{RowOrder} {A} (key : A → Z) n (l : list A) :
  StronglySorted (λ a b, b <= a) (key <$> limit_rows n (order_desc key l)).
Proof.
  destruct (limit_rows_prefix n (order_desc key l)) as [rest Hrest].
  pose proof (order_desc_sorted key l) as Hs. rewrite Hrest in Hs. clear Hrest.
  induction (limit_rows n (order_desc key l)) as [|x pre IH]; simpl in *; [constructor|].
  apply StronglySorted_inv in Hs as [Hs Hx]. constructor; [by apply IH|].
  rewrite Forall_app in Hx. rewrite Forall_fmap. apply Hx.
Qed.

(** An engine that sorts by the key. *)
Section Reference.
Context {A : Type} (key : A → Z).
Definition desc (a b : A) : Prop := key b <= key a.
#[local] Instance desc_dec : RelDecision desc.
Proof. intros a b. unfold desc. apply _. Defined.
#[local] Instance desc_total : Total desc.
Proof. intros a b. unfold desc. lia. Qed.
#[local] Instance desc_trans : Transitive desc.
Proof. intros a b c. unfold desc. lia. Qed.
Definition sort_desc (l : list A) : list A := merge_sort desc l.
Lemma sort_desc_perm l : sort_desc l ≡ₚ l.
Proof. apply merge_sort_Permutation. Qed.
Lemma sort_desc_sorted l : StronglySorted desc (sort_desc l).
Proof. apply StronglySorted_merge_sort; apply _. Qed.
End Reference.

#[local] Instance sorting_engine : RowOrder := {|
  order_desc := @sort_desc;
  order_desc_perm := @sort_desc_perm;
  order_desc_sorted := @sort_desc_sorted |}.

(** [serde_json::to_string] and [from_str] at one type; the message is that
    of the error they return. *)
Class Serde (V : Type) := {
  to_json : V → string + string;
  from_json : string → string + V
}.

(** The documented laws: what was serialized is read back, and a JSON text is
    never empty. *)
Class SerdeLaw (V : Type) `{Serde V} := {
  from_to_json v s : to_json v = inr s → from_json s = inr v;
  to_json_nonempty v : to_json v ≠ inr EmptyString
}.
