(* ===== verification/KvStore.v ===== *)
(** * KvStore: the key-value store

    [sdk/rust/src/kvstore.rs]: one table, a value per key, an upsert that keeps
    the creation time.  The theorem is a refinement: whatever the engine's
    failures, the store behaves as the finite map its completed operations
    describe. *)
From S2P Require Import Prelude Types Engine Rows.

(** ** The table *)
Record KvRow := mkKvRow { kv_value : string; kv_created_at : Z; kv_updated_at : Z }.

Abbreviation KvDb := (gmap string KvRow).

(** [INSERT ... ON CONFLICT(key) DO UPDATE SET value, updated_at]; [t] is
    [unixepoch()], which is constant during a statement. *)
Definition upsert (key value : string) (t : Z) (d : KvDb) : KvDb :=
  <[key := mkKvRow value
             (match d !! key with Some r => kv_created_at r | None => t end) t]> d.

(** ** Operations *)
Section KvStore.
Context `{RowOrder} {V : Type} `{Serde V}.
(** The readings of the engine's own clock. *)
Context (unixepoch : nat → Z).

Abbreviation Kv := (M KvDb unit).

Definition initialize : Kv unit := get_connection ;; statements 2.

(** [new] and [from_pool]: the handle is the pool alone. *)
Definition from_pool : Kv unit := initialize.

Definition read_unixepoch : Kv Z := λ w,
  (Ok (unixepoch (w_tick w)), set_tick (S (w_tick w)) w).

Definition set (key : string) (value : V) : Kv unit :=
  get_connection ;;
  serialized ← json (to_json value);
  t ← read_unixepoch;
  update (upsert key serialized t).

Definition get (key : string) : Kv (option V) :=
  get_connection ;;
  row ← query (λ d : KvDb, d !! key);
  match row with
  | Some r => value ← json (from_json (kv_value r)); mret (Some value)
  | None => mret None
  end.

Definition delete (key : string) : Kv unit :=
  get_connection ;;
  update (base.delete key).

Definition keys : Kv (list string) :=
  get_connection ;;
  query (λ d : KvDb, scan (map_to_list d).*1).

(** ** The store as a map *)

(** [represents m d]: the table holds the serialized values of [m]. *)
Definition represents (m : gmap string V) (d : KvDb) : Prop :=
  (∀ k v, m !! k = Some v →
     ∃ r, d !! k = Some r ∧ to_json v = inr (kv_value r)) ∧
  (∀ k, m !! k = None → d !! k = None).

Inductive kv_op := KvSet (key : string) (value : V) | KvDelete (key : string).

Definition run_op (o : kv_op) : Kv unit :=
  match o with KvSet k v => set k v | KvDelete k => delete k end.

Definition apply_op (o : kv_op) (m : gmap string V) : gmap string V :=
  match o with KvSet k v => <[k := v]> m | KvDelete k => base.delete k m end.

(** A history: the operations are run one after the other, those that fail
    are reported and the client goes on; the map is told of the others. *)
Fixpoint history (ops : list kv_op) (m : gmap string V) (w : World KvDb unit) :
    gmap string V * World KvDb unit :=
  match ops with
  | [] => (m, w)
  | o :: ops =>
      match run_op o w with
      | (Ok _, w') => history ops (apply_op o m) w'
      | (_, w') => history ops m w'
      end
  end.

#[export] Instance read_unixepoch_readonly : ReadOnly read_unixepoch.
Proof. done. Qed.
#[export] Instance read_unixepoch_stops : Stops read_unixepoch.
Proof. by apply step_stops. Qed.
#[export] Instance set_atomic key value : Atomic (set key value).
Proof. unfold set. apply _. Qed.
#[export] Instance set_stops key value : Stops (set key value).
Proof. unfold set. apply _. Qed.
#[export] Instance delete_atomic key : Atomic (delete key).
Proof. unfold delete. apply _. Qed.
#[export] Instance delete_stops key : Stops (delete key).
Proof. unfold delete. apply _. Qed.
#[export] Instance run_op_atomic o : Atomic (run_op o).
Proof. destruct o; apply _. Qed.

Lemma set_run key value d c clk t :
  set key value (mkWorld d c [] clk t) =
    match to_json value with
    | inr s => (Ok tt, mkWorld (upsert key s (unixepoch t) d) c [] clk (S t))
    | inl msg => (Err (Error.Json msg), mkWorld d c [] clk t)
    end.
Proof. unfold set, json. run. by destruct (to_json value). Qed.

Lemma upsert_represents m d k v s t :
  to_json v = inr s → represents m d → represents (<[k := v]> m) (upsert k s t d).
Proof.
  intros Hv [Hs Hn]. split; intros k'; unfold upsert.
  - intros v' Hv'. destruct (decide (k' = k)) as [->|Hk].
    + rewrite lookup_insert_eq in Hv'. injection Hv' as <-.
      rewrite lookup_insert_eq. by eexists.
    + rewrite lookup_insert_ne in Hv' by done.
      rewrite lookup_insert_ne by done. by apply Hs.
  - intros Hv'. destruct (decide (k' = k)) as [->|Hk].
    + by rewrite lookup_insert_eq in Hv'.
    + rewrite lookup_insert_ne in Hv' by done.
      rewrite lookup_insert_ne by done. by apply Hn.
Qed.

Lemma delete_represents m d k :
  represents m d → represents (base.delete k m) (base.delete k d).
Proof.
  intros [Hs Hn]. split; intros k'.
  - intros v' [Hk Hv']%lookup_delete_Some. destruct (Hs k' v' Hv') as (r & Hr & ?).
    exists r. by rewrite lookup_delete_ne.
  - intros [->|Hv']%lookup_delete_None; [apply lookup_delete_eq|].
    apply lookup_delete_None. right. by apply Hn.
Qed.

(** One operation, under any failures. *)
Lemma run_op_represents o m w :
  represents m (w_db w) →
  match run_op o w with
  | (Ok _, w') => represents (apply_op o m) (w_db w')
  | (_, w') => represents m (w_db w')
  end.
Proof.
  intros Hm. pose proof (atomic (m:=run_op o) w) as Hat.
  assert (Hst : Stops (run_op o)) by (destruct o; apply _).
  destruct (Hst w) as [(e & _ & Hr)|(Hr & Hw & _)].
  { destruct (run_op o w) as [r w']. simpl in *. subst r. by rewrite Hat. }
  destruct (run_op o w) as [[u|e|] w'] eqn:Hrun; simpl in *; [|by rewrite Hat..].
  destruct w as [d c fs clk t], o as [k v|k]; cbn [run_op apply_op w_db w_mem w_clock w_tick set_faults] in *.
  - change (set_faults [] (mkWorld d c fs clk t)) with (mkWorld d c [] clk t) in Hr, Hw.
    rewrite set_run in Hr, Hw. destruct (to_json v) as [msg|s] eqn:Hv; [done|].
    apply (f_equal w_db) in Hw. simpl in Hw. rewrite Hw. by apply upsert_represents.
  - apply (f_equal w_db) in Hw. revert Hw. unfold delete. run. intros ->.
    by apply delete_represents.
Qed.

Lemma history_represents ops m w :
  represents m (w_db w) →
  represents (history ops m w).1 (w_db (history ops m w).2).
Proof.
  revert m w. induction ops as [|o ops IH]; intros m w Hm; [done|]. simpl.
  pose proof (run_op_represents o m w Hm) as H'.
  destruct (run_op o w) as [[u|e|] w']; by apply IH.
Qed.

Lemma get_represents `{!SerdeLaw V} m k d c clk t :
  represents m d →
  get k (mkWorld d c [] clk t) = (Ok (m !! k), mkWorld d c [] clk t).
Proof.
  intros [Hs Hn]. unfold get, json. run. destruct (m !! k) as [v|] eqn:Hk.
  - destruct (Hs k v Hk) as (r & -> & Hv). by rewrite (from_to_json _ _ Hv).
  - by rewrite (Hn k Hk).
Qed.

Lemma represents_dom m d : represents m d → dom d = dom m.
Proof.
  intros [Hs Hn]. apply set_eq. intros k. rewrite !elem_of_dom. split; intros [x Hx].
  - destruct (m !! k) eqn:Hk; [by eexists|]. rewrite (Hn k Hk) in Hx. done.
  - destruct (Hs k x Hx) as (r & Hr & _). by eexists.
Qed.

(** C8: the key-value store is the finite map of its completed operations: after
    any sequence of [set] and [delete], run with any engine failures, [get]
    returns the value last stored under the key (or nothing), and [keys]
    lists each key of the map exactly once. *)
Theorem kv_store_is_a_map `{!SerdeLaw V} ops (m : gmap string V)
    (w : World KvDb unit) k :
  represents m (w_db w) →
  let '(m', w') := history ops m w in
  let quiet := set_faults [] w' in
  (get k quiet).1 = Ok (m' !! k) ∧
  ∃ ks, (keys quiet).1 = Ok ks ∧ NoDup ks ∧ ∀ k', k' ∈ ks ↔ is_Some (m' !! k').
Proof.
  intros Hm. pose proof (history_represents ops m w Hm) as H'.
  destruct (history ops m w) as [m' w']. simpl in H'. destruct w' as [d c fs clk t].
  change (set_faults [] (mkWorld d c fs clk t)) with (mkWorld d c [] clk t).
  cbv zeta. rewrite (get_represents m') by done. split; [done|].
  exists (scan (map_to_list d).*1). split; [done|]. split.
  - rewrite scan_perm. apply NoDup_fst_map_to_list.
  - intros k'. rewrite scan_perm, <-elem_of_dom, <-(represents_dom _ _ H'), elem_of_dom.
    rewrite list_elem_of_fmap. split.
    + intros ([k0 r] & -> & Hin%elem_of_map_to_list). by eexists.
    + intros [r Hr]. exists (k', r). by rewrite elem_of_map_to_list.
Qed.

(** [set] writes one row: the creation time of an existing key is kept, the
    update time is the engine's clock, and a value that cannot be serialized
    leaves the table as it was. *)
Theorem kv_set_timestamps key (value : V) (w : World KvDb unit) :
  faultless w →
  let t := unixepoch (w_tick w) in
  match to_json value, set key value w with
  | inr s, (Ok _, w') =>
      w_db w' !! key = Some (mkKvRow s
        (match w_db w !! key with Some r => kv_created_at r | None => t end) t) ∧
      ∀ k, k ≠ key → w_db w' !! k = w_db w !! k
  | inl msg, (Err e, w') => e = Error.Json msg ∧ w_db w' = w_db w
  | _, _ => False
  end.
Proof.
  destruct w as [d c fs clk t]. unfold faultless. cbn [w_faults]. intros ->.
  rewrite set_run. destruct (to_json value) as [msg|s]; [done|]. cbn [w_db w_tick].
  unfold upsert. split; [apply lookup_insert_eq|]. intros k Hk. by apply lookup_insert_ne.
Qed.
End KvStore.
