(* ===== verification/ToolCalls.v ===== *)
(** * ToolCalls: the audit log of tool invocations

    [sdk/rust/src/toolcalls.rs]: one table, rows inserted when a call starts
    (or is recorded after the fact) and updated when it ends, and the queries
    over it.  The average of [ToolCallStats] is an exact rational here; the
    rounding of the [f64] is not modelled. *)
From Stdlib Require Import QArith.
From S2P Require Import Prelude Types Engine Rows.
#[local] Open Scope Z_scope.

(** ** Data *)
Module ToolCallStatus.
Inductive t := Pending | Success | Error.

#[global] Instance t_eq_dec : EqDecision t.
Proof. solve_decision. Defined.

(** [Display] and [From<&str>]. *)
Definition fmt (s : t) : string :=
  match s with Pending => "pending" | Success => "success" | Error => "error" end.

Definition from (s : string) : t :=
  if bool_decide (s = "success"%string) then Success
  else if bool_decide (s = "error"%string) then Error
  else Pending.
End ToolCallStatus.

Record ToolCall (V : Type) := mkToolCall {
  call_id : Z; call_name : string; call_parameters : option V; call_result : option V;
  call_error : option string; call_status : ToolCallStatus.t; call_started_at : Z;
  call_completed_at : option Z; call_duration_ms : option Z
}.
Arguments mkToolCall {V} _ _ _ _ _ _ _ _ _.
Arguments call_result {V} _.
Arguments call_error {V} _.
Arguments call_status {V} _.

Record ToolCallStats := mkToolCallStats {
  s_name : string; total_calls : Z; successful : Z; failed : Z; avg_duration_ms : Q
}.

(** A row of [tool_calls] without its id, and the table. *)
Record CallRow := mkCallRow {
  c_name : string; c_parameters : option string; c_result : option string;
  c_error : option string; c_status : string; c_started_at : Z;
  c_completed_at : option Z; c_duration_ms : option Z
}.

Record ToolDb := mkToolDb { tc_seq : Z; tc_calls : gmap Z CallRow }.

(** ** Statements *)
Definition sel_call (id : Z) (d : ToolDb) : option CallRow := tc_calls d !! id.

(** [INSERT INTO tool_calls (...) VALUES (...) RETURNING id] *)
Definition ins_call `{SqlEngine} (row : CallRow) (d : ToolDb) : option (Z * ToolDb) :=
  let id := next_rowid (tc_seq d) in
  Some (id, mkToolDb id (<[id := row]> (tc_calls d))).

(** [UPDATE tool_calls SET ... WHERE id = ?] *)
Definition upd_call (id : Z) (f : CallRow → CallRow) (d : ToolDb) : ToolDb :=
  mkToolDb (tc_seq d) (alter f id (tc_calls d)).

Definition set_success (result : string) (completed_at duration_ms : Z) (r : CallRow) :
    CallRow :=
  mkCallRow (c_name r) (c_parameters r) (Some result) (c_error r) "success"
    (c_started_at r) (Some completed_at) (Some duration_ms).

Definition set_error (error : string) (completed_at duration_ms : Z) (r : CallRow) :
    CallRow :=
  mkCallRow (c_name r) (c_parameters r) (c_result r) (Some error) "error"
    (c_started_at r) (Some completed_at) (Some duration_ms).

(** The aggregates of one [GROUP BY name] group. *)
Definition count_status (s : string) (rows : list CallRow) : Z :=
  len (filter (λ r, c_status r = s) rows).

Definition row_to_stats (name : string) (rows : list CallRow) : ToolCallStats :=
  mkToolCallStats name (len rows) (count_status "success" rows)
    (count_status "error" rows)
    (Qmake (foldr (λ r acc, default 0 (c_duration_ms r) + acc) 0 rows)
           (Z.to_pos (len rows))).

Definition all_rows (d : ToolDb) : list CallRow := (map_to_list (tc_calls d)).*2.

Definition rows_named (name : string) (d : ToolDb) : list CallRow :=
  filter (λ r, c_name r = name) (all_rows d).

Definition sel_stats_for (name : string) (d : ToolDb) : option ToolCallStats :=
  match rows_named name d with
  | [] => None
  | rows => Some (row_to_stats name rows)
  end.

Definition sel_stats `{RowOrder} (d : ToolDb) : list ToolCallStats :=
  order_desc total_calls
    ((λ n, row_to_stats n (rows_named n d)) <$> remove_dups (c_name <$> all_rows d)).

(** ** Operations *)
Section ToolCalls.
Context `{SqlEngine} `{RowOrder} {V : Type} `{Serde V}.
(** Whether the build checks integer overflow. *)
Context (overflow_checks : bool).

Abbreviation Tc := (M ToolDb unit).

Definition initialize : Tc unit := get_connection ;; statements 3.
Definition from_pool : Tc unit := initialize.

(** [value.map(|v| serde_json::to_string(&v)).transpose()?] *)
Definition serialize (value : option V) : Tc (option string) :=
  match value with
  | Some v => s ← json (to_json v); mret (Some s)
  | None => mret None
  end.

(** [SystemTime::now().duration_since(UNIX_EPOCH)?.as_secs() as i64] *)
Definition now_secs : Tc Z := t ← now; mret (as_i64 t.1).

(** [(completed_at - started_at) * 1000] *)
Definition duration (completed_at started_at : Z) : Tc Z :=
  d ← i64_arith overflow_checks (completed_at - started_at);
  i64_arith overflow_checks (d * 1000).

Definition start (name : string) (parameters : option V) : Tc Z :=
  get_connection ;;
  serialized_params ← serialize parameters;
  started_at ← now_secs;
  query_row (ins_call (mkCallRow name (Some (default EmptyString serialized_params))
                         None None "pending" started_at None None)).

Definition success (id : Z) (result : option V) : Tc unit :=
  get_connection ;;
  serialized_result ← serialize result;
  completed_at ← now_secs;
  row ← query (sel_call id);
  started_at ← ok_or Error.ToolCallNotFound (c_started_at <$> row);
  duration_ms ← duration completed_at started_at;
  update (upd_call id (set_success (default EmptyString serialized_result)
                         completed_at duration_ms)).

Definition record (name : string) (started_at completed_at : Z)
    (parameters result : option V) (error : option string) : Tc Z :=
  get_connection ;;
  serialized_params ← serialize parameters;
  serialized_result ← serialize result;
  duration_ms ← duration completed_at started_at;
  let status := match error with Some _ => "error"%string | None => "success"%string end in
  query_row (ins_call (mkCallRow name (Some (default EmptyString serialized_params))
                         (Some (default EmptyString serialized_result))
                         (Some (default EmptyString error)) status started_at
                         (Some completed_at) (Some duration_ms))).

Definition error (id : Z) (msg : string) : Tc unit :=
  get_connection ;;
  completed_at ← now_secs;
  row ← query (sel_call id);
  started_at ← ok_or Error.ToolCallNotFound (c_started_at <$> row);
  duration_ms ← duration completed_at started_at;
  update (upd_call id (set_error msg completed_at duration_ms)).

(** An optional JSON column: absent, empty and unparsable texts are [None]. *)
Definition parse_column (value : option string) : option V :=
  match value with
  | Some EmptyString | None => None
  | Some s => match from_json s with inr v => Some v | inl _ => None end
  end.

Definition row_to_tool_call (id : Z) (r : CallRow) : ToolCall V :=
  mkToolCall id (c_name r) (parse_column (c_parameters r)) (parse_column (c_result r))
    (match c_error r with Some EmptyString | None => None | Some s => Some s end)
    (ToolCallStatus.from (c_status r)) (c_started_at r) (c_completed_at r)
    (c_duration_ms r).

Definition get (id : Z) : Tc (option (ToolCall V)) :=
  get_connection ;;
  row ← query (sel_call id);
  mret (row_to_tool_call id <$> row).

Definition recent (limit : option Z) : Tc (list (ToolCall V)) :=
  get_connection ;;
  let limit := default 100 limit in
  rows ← query (λ d, limit_rows limit
                  (order_desc (λ p, c_started_at p.2) (map_to_list (tc_calls d))));
  mret ((λ p, row_to_tool_call p.1 p.2) <$> rows).

Definition stats_for (name : string) : Tc (option ToolCallStats) :=
  get_connection ;;
  query (sel_stats_for name).

Definition stats : Tc (list ToolCallStats) :=
  get_connection ;;
  query sel_stats.

(** ** The log *)

(** The operations that write, as one datatype; what they return is dropped. *)
Inductive tc_op :=
| Start (name : string) (parameters : option V)
| Success (id : Z) (result : option V)
| Error_ (id : Z) (msg : string)
| Record_ (name : string) (started_at completed_at : Z) (parameters result : option V)
    (error : option string).

Definition run_op (o : tc_op) (w : World ToolDb unit) : World ToolDb unit :=
  match o with
  | Start n p => (start n p w).2
  | Success i r => (success i r w).2
  | Error_ i m => (error i m w).2
  | Record_ n s c p r e => (record n s c p r e w).2
  end.

Definition run_ops (ops : list tc_op) (w : World ToolDb unit) : World ToolDb unit :=
  foldl (λ w o, run_op o w) w ops.

(** A row is pending without a completion, or ended with the duration that the
    two times give (exactly, if the build checks overflow). *)
Definition row_wf (r : CallRow) : Prop :=
  match c_completed_at r, c_duration_ms r with
  | None, None => c_status r = "pending"%string
  | Some c, Some ms =>
      (c_status r = "success"%string ∨ c_status r = "error"%string) ∧
      ms = as_i64 ((c - c_started_at r) * 1000) ∧
      (overflow_checks = true → ms = (c - c_started_at r) * 1000)
  | _, _ => False
  end.

Record log_wf (d : ToolDb) : Prop := {
  log_seq id : is_Some (tc_calls d !! id) → id <= tc_seq d;
  log_rows id r : tc_calls d !! id = Some r → row_wf r
}.

(** What an operation may do to the log: rows stay, with the name, the
    parameters and the start they were inserted with, and a call that ended
    does not become pending again. *)
Definition row_grows (r r' : CallRow) : Prop :=
  c_name r' = c_name r ∧ c_parameters r' = c_parameters r ∧
  c_started_at r' = c_started_at r ∧
  (is_Some (c_completed_at r) → is_Some (c_completed_at r')).

Definition log_grows (d d' : ToolDb) : Prop :=
  tc_seq d <= tc_seq d' ∧
  ∀ id r, tc_calls d !! id = Some r → ∃ r', tc_calls d' !! id = Some r' ∧ row_grows r r'.

#[export] Instance row_grows_preorder : PreOrder row_grows.
Proof.
  split; [by intros r; unfold row_grows|]. intros a b c (?&?&?&?) (?&?&?&?).
  split_and!; [congruence..|by auto].
Qed.
#[export] Instance log_grows_preorder : PreOrder log_grows.
Proof.
  split; [intros d; split; [lia|]; intros i r Hr; by exists r|]. intros a b c [? Ha] [? Hb].
  split; [lia|]. intros id r (r1 & Hr1 & Hg1)%Ha.
  destruct (Hb _ _ Hr1) as (r2 & Hr2 & Hg2). exists r2. split; [done|by trans r1].
Qed.

Lemma insert_grows row d id d' :
  log_wf d → row_wf row → ins_call row d = Some (id, d') → log_wf d' ∧ log_grows d d'.
Proof.
  intros [Hseq Hrows] Hrow [= <- <-]. pose proof (next_rowid_gt (tc_seq d)) as Hgt.
  assert (Hne : ∀ i, is_Some (tc_calls d !! i) → next_rowid (tc_seq d) ≠ i)
    by (intros i Hi%Hseq; lia).
  split; split; simpl.
  - intros i [r [[<- _]|[_ Hr]]%lookup_insert_Some]; [lia|].
    specialize (Hseq i ltac:(by eexists)). lia.
  - intros i r [[_ <-]|[_ Hr]]%lookup_insert_Some; by eauto.
  - lia.
  - intros i r Hr. exists r. split; [|done].
    by rewrite lookup_insert_ne by eauto.
Qed.

Lemma update_grows i (f : CallRow → CallRow) d :
  (∀ r, tc_calls d !! i = Some r → row_wf (f r) ∧ row_grows r (f r)) →
  log_wf d → log_wf (upd_call i f d) ∧ log_grows d (upd_call i f d).
Proof.
  intros Hf [Hseq Hrows]. split; split; simpl.
  - intros j. rewrite lookup_alter_is_Some. apply Hseq.
  - intros j r. rewrite lookup_alter. case_decide as Hij; [subst j|by apply Hrows].
    intros (r0 & Hr0 & ->)%fmap_Some. by apply Hf.
  - lia.
  - intros j r Hr. rewrite lookup_alter. case_decide as Hij; [subst j|by exists r].
    rewrite Hr. exists (f r). split; [done|]. by apply Hf.
Qed.

Lemma as_i64_mul z k : as_i64 (as_i64 z * k) = as_i64 (z * k).
Proof.
  unfold as_i64. cbv zeta.
  assert (Hmod : ((if z mod 2 ^ 64 <? 2 ^ 63 then z mod 2 ^ 64 else z mod 2 ^ 64 - 2 ^ 64)
    * k) mod 2 ^ 64 = (z * k) mod 2 ^ 64).
  { case_match; [by rewrite Z.mul_mod_idemp_l|].
    rewrite <-Z.mul_mod_idemp_l by done. rewrite Zminus_mod, Z_mod_same_full, Z.sub_0_r.
    by rewrite !Z.mod_mod, Z.mul_mod_idemp_l. }
  by rewrite Hmod.
Qed.

Lemma i64_arith_ok z (w : World ToolDb unit) v w' :
  i64_arith overflow_checks z w = (Ok v, w') →
  w' = w ∧ v = as_i64 z ∧ (overflow_checks = true → v = z).
Proof.
  unfold i64_arith. case_match eqn:Hr.
  - intros [= <- <-]. to_prop. rewrite as_i64_id by (unfold in_i64; lia). done.
  - destruct overflow_checks; [done|]. by intros [= <- <-].
Qed.

Lemma duration_ok c s (w : World ToolDb unit) v w' :
  duration c s w = (Ok v, w') →
  w' = w ∧ v = as_i64 ((c - s) * 1000) ∧ (overflow_checks = true → v = (c - s) * 1000).
Proof.
  unfold duration, mbind, M_bind.
  destruct (i64_arith _ (c - s) w) as [[d|e|] w1] eqn:Hsub; [|done..].
  apply i64_arith_ok in Hsub as (-> & -> & Hx). intros (-> & -> & Hy)%i64_arith_ok.
  split_and!; [done|by apply as_i64_mul|]. intros Hb. by rewrite (Hy Hb), (Hx Hb).
Qed.

(** Peels the fault schedule, the serializer and the clock off an operation that
    only computes before its last statement. *)
Lemma bind_completes {A B} (m : Tc A) (f : A → Tc B) w b w' :
  (m ≫= f) w = (Ok b, w') ↔ ∃ a w1, m w = (Ok a, w1) ∧ f a w1 = (Ok b, w').
Proof.
  unfold mbind, M_bind. split.
  - destruct (m w) as [[a|e|] w1]; [|done..]. by eauto.
  - by intros (a & w1 & -> & ?).
Qed.

(** A computation that changes no table, as seen by what follows it. *)
Lemma readonly_ok {A} (m : Tc A) `{!ReadOnly m} w a w' :
  m w = (Ok a, w') → w_db w' = w_db w.
Proof. intros Hm. pose proof (readonly (m:=m) w) as Hr. by rewrite Hm in Hr. Qed.

#[export] Instance serialize_readonly v : ReadOnly (serialize v).
Proof. unfold serialize. apply _. Qed.
#[export] Instance serialize_stops v : Stops (serialize v).
Proof. unfold serialize. apply _. Qed.
#[export] Instance now_secs_readonly : ReadOnly now_secs.
Proof. unfold now_secs. apply _. Qed.
#[export] Instance now_secs_stops : Stops now_secs.
Proof. unfold now_secs. apply _. Qed.
#[export] Instance duration_readonly c s : ReadOnly (duration c s).
Proof. unfold duration. apply _. Qed.
#[export] Instance duration_stops c s : Stops (duration c s).
Proof. unfold duration. apply _. Qed.
#[export] Instance start_atomic n p : Atomic (start n p).
Proof. unfold start. apply _. Qed.
#[export] Instance success_atomic i r : Atomic (success i r).
Proof. unfold success. apply _. Qed.
#[export] Instance error_atomic i m : Atomic (error i m).
Proof. unfold error. apply _. Qed.
#[export] Instance record_atomic n s c p r e : Atomic (record n s c p r e).
Proof. unfold record. apply _. Qed.

(** The last statement of an operation that got through. *)
Lemma query_row_ok {A} (f : ToolDb → option (A * ToolDb)) (w : World ToolDb unit) a w' :
  query_row f w = (Ok a, w') → f (w_db w) = Some (a, w_db w').
Proof.
  destruct w as [d c [|[e|] fs] clk t]; unfold query_row; run; try done;
    destruct (f d) as [[a' d']|]; by intros [= <- <-].
Qed.

Lemma update_ok (f : ToolDb → ToolDb) (w : World ToolDb unit) u w' :
  update f w = (Ok u, w') → f (w_db w) = w_db w'.
Proof. by intros [= _ ?]%query_row_ok. Qed.

Lemma query_ok {A} (f : ToolDb → A) (w : World ToolDb unit) a w' :
  query f w = (Ok a, w') → a = f (w_db w).
Proof.
  destruct w as [d c [|[e|] fs] clk t]; unfold query; run; try done; by intros [= <- <-].
Qed.

Lemma ok_or_ok {A} e (o : option A) (w : World ToolDb unit) a w' :
  ok_or e o w = (Ok a, w') → o = Some a.
Proof. destruct o; [|done]. by intros [= <- <-]. Qed.

(** Splits a completed operation into its completed steps. *)
Ltac steps :=
  repeat match goal with
  | H : mbind _ _ _ = (Ok _, _) |- _ => apply bind_completes in H as (? & ? & ? & H)
  | H : ?m ?w = (Ok _, ?w') |- _ =>
      lazymatch goal with
      | _ : w_db w' = _ |- _ => fail
      | _ => pose proof (readonly_ok m _ _ _ H)
      end
  end;
  repeat match goal with
  | H : query_row _ _ = (Ok _, _) |- _ => apply query_row_ok in H
  | H : update _ _ = (Ok _, _) |- _ => apply update_ok in H
  | H : query _ _ = (Ok _, _) |- _ => apply query_ok in H; subst
  | H : ok_or _ _ _ = (Ok _, _) |- _ => apply ok_or_ok in H
  | H : duration _ _ _ = (Ok _, _) |- _ => apply duration_ok in H as (-> & -> & ?)
  end;
  repeat match goal with H : w_db _ = _ |- _ => rewrite ?H in *; clear H end.

Definition grows_ok {A} (m : Tc A) : Prop :=
  ∀ w, log_wf (w_db w) → log_wf (w_db (m w).2) ∧ log_grows (w_db w) (w_db (m w).2).

Lemma grows_atomic {A} (m : Tc A) `{!Atomic m} :
  (∀ w a w', m w = (Ok a, w') → log_wf (w_db w) →
     log_wf (w_db w') ∧ log_grows (w_db w) (w_db w')) →
  grows_ok m.
Proof.
  intros Hm w Hwf. pose proof (atomic (m:=m) w) as Hat.
  destruct (m w) as [[a|e|] w'] eqn:Hrun; [by eapply Hm| |];
    simpl in *; by rewrite Hat.
Qed.

Lemma start_grows n p : grows_ok (start n p).
Proof.
  apply grows_atomic; [apply _|]. unfold start. intros w a w' Hrun Hwf. steps.
  by eapply insert_grows in Hrun.
Qed.

Lemma record_grows n s c p r e : grows_ok (record n s c p r e).
Proof.
  apply grows_atomic; [apply _|]. unfold record. intros w a w' Hrun Hwf. steps.
  eapply insert_grows in Hrun; [done..|]. unfold row_wf. simpl.
  split_and!; [destruct e; auto|done..].
Qed.

(** Ending a call keeps the row well-formed. *)
Lemma ended_grows (f : Z → Z → CallRow → CallRow) i c d ms s :
  (∀ c ms r, row_grows r (f c ms r) ∧ c_completed_at (f c ms r) = Some c ∧
     c_duration_ms (f c ms r) = Some ms ∧
     (c_status (f c ms r) = "success"%string ∨ c_status (f c ms r) = "error"%string)) →
  c_started_at <$> sel_call i d = Some s →
  ms = as_i64 ((c - s) * 1000) → (overflow_checks = true → ms = (c - s) * 1000) →
  log_wf d → log_wf (upd_call i (f c ms) d) ∧ log_grows d (upd_call i (f c ms) d).
Proof.
  intros Hf Hs Hms Hexact. apply update_grows. intros r Hr.
  destruct (Hf c ms r) as (Hg & Hc & Hm & Hst). split; [|done].
  unfold sel_call in Hs. rewrite Hr in Hs. injection Hs as <-.
  unfold row_wf. rewrite Hc, Hm. destruct Hg as (_ & _ & -> & _). done.
Qed.

Lemma success_grows i r : grows_ok (success i r).
Proof.
  apply grows_atomic; [apply _|]. unfold success. intros w a w' Hrun Hwf. steps.
  rewrite <-Hrun. eapply ended_grows; [|done..]. intros c ms r0.
  split_and!; [|done..|by left]. split_and!; [done..|by intros]. 
Qed.

Lemma error_grows i m : grows_ok (error i m).
Proof.
  apply grows_atomic; [apply _|]. unfold error. intros w a w' Hrun Hwf. steps.
  rewrite <-Hrun. eapply ended_grows; [|done..]. intros c ms r0.
  split_and!; [|done..|by right]. split_and!; [done..|by intros].
Qed.

(** C9: the log is an audit trail: under any sequence of operations and any engine
    failures it stays well-formed (a row is pending, or ended with status,
    completion time and duration, the duration being
    [(completed_at - started_at) * 1000]); no row is removed, no id is reused,
    and the name, the parameters and the start of a call never change. *)
Theorem audit_log ops (w : World ToolDb unit) :
  log_wf (w_db w) →
  log_wf (w_db (run_ops ops w)) ∧ log_grows (w_db w) (w_db (run_ops ops w)).
Proof.
  revert w. induction ops as [|o ops IH]; intros w Hwf; [done|].
  change (run_ops (o :: ops) w) with (run_ops ops (run_op o w)).
  assert (Hstep : log_wf (w_db (run_op o w)) ∧ log_grows (w_db w) (w_db (run_op o w))).
  { destruct o; [by apply start_grows|by apply success_grows|by apply error_grows|
                 by apply record_grows]. }
  destruct Hstep as [Hwf1 Hg1]. destruct (IH _ Hwf1) as [Hwf2 Hg2].
  split; [done|by trans (w_db (run_op o w))].
Qed.

(** ** Reading the log *)

Lemma parse_serialized `{!SerdeLaw V} (v : option V) s (w w' : World ToolDb unit) :
  serialize v w = (Ok s, w') → w' = w ∧ parse_column (Some (default EmptyString s)) = v.
Proof.
  unfold serialize. destruct v as [v|]; [|by intros [= <- <-]].
  unfold json. run. destruct (to_json v) as [msg|j] eqn:Hj; [done|].
  intros [= <- <-]. split; [done|]. simpl. rewrite (from_to_json _ _ Hj).
  destruct j; [by destruct (to_json_nonempty v)|done].
Qed.

(** Operations that end other calls leave the row of a call as it is. *)
Definition ends (o : tc_op) : option Z :=
  match o with Success i _ | Error_ i _ => Some i | _ => None end.

Lemma insert_kept row d j d' id r :
  ins_call row d = Some (j, d') → log_wf d → sel_call id d = Some r →
  sel_call id d' = Some r.
Proof.
  intros [= <- <-] Hwf Hr. unfold sel_call in *. simpl.
  pose proof (next_rowid_gt (tc_seq d)). pose proof (log_seq _ Hwf id (mk_is_Some _ _ Hr)).
  rewrite lookup_insert_ne by lia. done.
Qed.

Lemma update_kept i f d id r :
  i ≠ id → sel_call id d = Some r → sel_call id (upd_call i f d) = Some r.
Proof. intros Hi Hr. unfold sel_call. simpl. by rewrite lookup_alter_ne. Qed.

Lemma atomic_kept {A} (m : Tc A) w id r `{!Atomic m} :
  (∀ a w', m w = (Ok a, w') → sel_call id (w_db w') = Some r) →
  sel_call id (w_db w) = Some r → sel_call id (w_db (m w).2) = Some r.
Proof.
  intros Hm Hr. pose proof (atomic (m:=m) w) as Hat.
  destruct (m w) as [[a|e|] w'] eqn:Hrun; [by eapply Hm| |];
    simpl in *; by rewrite Hat.
Qed.

Lemma run_op_kept o w id r :
  log_wf (w_db w) → ends o ≠ Some id → sel_call id (w_db w) = Some r →
  sel_call id (w_db (run_op o w)) = Some r.
Proof.
  intros Hwf Ho Hr. destruct o; cbn [run_op ends] in *;
    (apply atomic_kept; [apply _| |done]);
    unfold start, success, error, record; intros a w' Hrun; steps.
  - by eapply insert_kept.
  - rewrite <-Hrun. apply update_kept; [congruence|done].
  - rewrite <-Hrun. apply update_kept; [congruence|done].
  - by eapply insert_kept.
Qed.

Lemma run_ops_kept ops w id r :
  log_wf (w_db w) → Forall (λ o, ends o ≠ Some id) ops →
  sel_call id (w_db w) = Some r → sel_call id (w_db (run_ops ops w)) = Some r.
Proof.
  intros Hwf Ho. revert w Hwf. induction Ho as [|o ops Ho _ IH]; intros w Hwf Hr; [done|].
  apply IH; [|by apply run_op_kept].
  destruct o; [by apply start_grows|by apply success_grows|by apply error_grows|
               by apply record_grows].
Qed.

(** The row a completed [start] inserts, and what [success] makes of it. *)
Lemma start_row `{!SerdeLaw V} name params (w : World ToolDb unit) i w1 :
  start name params w = (Ok i, w1) →
  ∃ s p, parse_column (Some p) = params ∧
    sel_call i (w_db w1) = Some (mkCallRow name (Some p) None None "pending" s None None).
Proof.
  unfold start. intros Hrun. steps.
  match goal with Hs : serialize _ _ = _ |- _ =>
    apply parse_serialized in Hs as [_ Hparse] end.
  injection Hrun as <- <-. do 2 eexists. split; [exact Hparse|]. unfold sel_call. simpl.
  apply lookup_insert_eq.
Qed.

Lemma success_row `{!SerdeLaw V} i (res : option V) (w : World ToolDb unit) w1 r :
  success i res w = (Ok tt, w1) → sel_call i (w_db w) = Some r →
  ∃ c j, parse_column (Some j) = res ∧
    sel_call i (w_db w1) =
      Some (set_success j c (as_i64 ((c - c_started_at r) * 1000)) r).
Proof.
  unfold success. intros Hrun Hr. steps.
  match goal with Hs : serialize _ _ = _ |- _ =>
    apply parse_serialized in Hs as [_ Hparse] end.
  match goal with Hs : c_started_at <$> _ = Some _ |- _ =>
    rewrite Hr in Hs; injection Hs as <- end.
  rewrite <-Hrun. do 2 eexists. split; [exact Hparse|].
  unfold sel_call in *. simpl. rewrite lookup_alter_eq, Hr. done.
Qed.

(** The life of a call: when [start] and later [success] go through, with
    any operations on other calls in between and any engine failures, [get]
    returns the call under the id that [start] gave, with its name, parameters
    and result as they were passed in, status success, and the duration between
    the two times in milliseconds. *)
Theorem call_lifecycle `{!SerdeLaw V} name params (res : option V) others
    (w : World ToolDb unit) i w1 w2 :
  log_wf (w_db w) →
  start name params w = (Ok i, w1) →
  Forall (λ o, ends o ≠ Some i) others →
  success i res (run_ops others w1) = (Ok tt, w2) →
  ∃ s c, (get i (set_faults [] w2)).1 =
      Ok (Some (mkToolCall i name params res None ToolCallStatus.Success s (Some c)
                  (Some (as_i64 ((c - s) * 1000))))).
Proof.
  intros Hwf Hstart Hothers Hsucc.
  assert (Hwf1 : log_wf (w_db w1)).
  { pose proof (start_grows name params w Hwf) as [Hg _]. by rewrite Hstart in Hg. }
  destruct (start_row _ _ _ _ _ Hstart) as (s & p & Hp & Hrow).
  apply (run_ops_kept others) in Hrow; [|done..].
  destruct (success_row _ _ _ _ _ Hsucc Hrow) as (c & j & Hj & Hrow2).
  exists s, c. destruct w2 as [d m fs clk t]. cbn [w_db] in Hrow2.
  unfold get. run. rewrite Hrow2. unfold row_to_tool_call, set_success.
  cbn [c_name c_parameters c_result c_error c_status c_started_at c_completed_at
       c_duration_ms]. by rewrite Hp, Hj.
Qed.

(** The outcomes of a call are not exclusive: a call that was marked
    successful and is then marked failed keeps its result next to the error. *)
Theorem outcomes_not_exclusive `{!SerdeLaw V} i (res : V) msg (w : World ToolDb unit)
    w1 w2 :
  msg ≠ EmptyString → is_Some (sel_call i (w_db w)) →
  success i (Some res) w = (Ok tt, w1) → error i msg w1 = (Ok tt, w2) →
  ∃ call, (get i (set_faults [] w2)).1 = Ok (Some call) ∧
    call_result call = Some res ∧ call_error call = Some msg ∧
    call_status call = ToolCallStatus.Error.
Proof.
  intros Hmsg [r Hr] Hsucc Herr.
  destruct (success_row _ _ _ _ _ Hsucc Hr) as (c & j & Hj & Hrow).
  unfold error in Herr. steps. destruct w2 as [d m fs clk t]. cbn [w_db] in Herr.
  unfold get. run. rewrite <-Herr. unfold sel_call in *. simpl.
  rewrite lookup_alter_eq, Hrow. eexists. split; [done|].
  cbn. split_and!; [exact Hj| |done]. by destruct msg.
Qed.

(** [recent] returns the most recent calls: at most [limit] (100 by
    default) rows of the log, each once, in descending order of their start, and
    no call it leaves out started later than one it returns. *)
Theorem recent_calls limit (w : World ToolDb unit) :
  faultless w →
  ∃ rows rest,
    (recent limit w).1 = Ok ((λ p, row_to_tool_call p.1 p.2) <$> rows) ∧
    rows ++ rest ≡ₚ map_to_list (tc_calls (w_db w)) ∧
    StronglySorted (λ a b, b <= a) ((λ p, c_started_at p.2) <$> rows) ∧
    (0 <= default 100 limit → len rows <= default 100 limit) ∧
    ∀ x y, x ∈ rows → y ∈ rest → c_started_at y.2 <= c_started_at x.2.
Proof.
  destruct w as [d c fs clk t]. unfold faultless. cbn [w_faults w_db]. intros ->.
  destruct (limit_order_split (λ p : Z * CallRow, c_started_at p.2) (default 100 limit)
              (map_to_list (tc_calls d))) as (rest & Hperm & Hrest).
  eexists _, rest. split; [done|].
  split_and!; [done|apply limit_order_sorted| |done].
  - intros Hpos. unfold limit_rows. case_match; to_prop; [lia|].
    unfold len. rewrite length_take. lia.
Qed.

Lemma row_status r : row_wf r →
  c_status r = "success"%string ∨ c_status r = "error"%string ∨ c_status r = "pending"%string.
Proof.
  unfold row_wf. destruct (c_completed_at r), (c_duration_ms r); try done; [|by auto].
  intros [[?|?] _]; auto.
Qed.

Lemma count_cons s r rows :
  count_status s (r :: rows) = (if decide (c_status r = s) then 1 else 0) +
    count_status s rows.
Proof. unfold count_status. rewrite filter_cons. case_decide; [by rewrite len_cons|lia]. Qed.

Lemma count_split rows :
  (∀ r, r ∈ rows → c_status r = "success"%string ∨ c_status r = "error"%string ∨
                   c_status r = "pending"%string) →
  len rows = count_status "success" rows + count_status "error" rows +
             count_status "pending" rows.
Proof.
  induction rows as [|r rows IH]; intros Hs; [done|].
  rewrite len_cons, !count_cons, IH by (intros; apply Hs; by right).
  destruct (Hs r) as [Hr|[Hr|Hr]]; [by left|rewrite Hr..];
    repeat case_decide; try done; lia.
Qed.

(** The statistics count the log: the entry of a name exists exactly when a call
    of that name was made, its total is the number of those calls, and on a
    well-formed log the total is the sum of the successful, the failed and the
    pending calls. *)
Theorem stats_for_counts name (w : World ToolDb unit) :
  faultless w → log_wf (w_db w) →
  let rows := rows_named name (w_db w) in
  ∃ o, (stats_for name w).1 = Ok o ∧ (o = None ↔ rows = []) ∧
    ∀ s, o = Some s → s_name s = name ∧ total_calls s = len rows ∧
      total_calls s = successful s + failed s + count_status "pending" rows.
Proof.
  destruct w as [d c fs clk t]. intros Hf Hwf rows. unfold faultless in Hf.
  cbn [w_faults w_db] in *. subst fs.
  exists (sel_stats_for name d). split; [done|]. unfold sel_stats_for. fold rows.
  assert (Hcount : len rows = count_status "success" rows + count_status "error" rows +
                              count_status "pending" rows).
  { apply count_split. subst rows. unfold rows_named, all_rows. intros r Hr.
    apply list_elem_of_filter in Hr as [_ Hr].
    apply list_elem_of_fmap in Hr as ([i r'] & -> & Hr%elem_of_map_to_list).
    eapply row_status, log_rows; done. }
  destruct rows as [|r rows']; [by split|]. split; [done|].
  intros s [= <-]. by split_and!.
Qed.

Lemma rows_named_names name d :
  rows_named name d ≠ [] ↔ name ∈ remove_dups (c_name <$> all_rows d).
Proof.
  rewrite elem_of_remove_dups, list_elem_of_fmap. unfold rows_named. split.
  - intros Hne. destruct (filter _ _) as [|r rows] eqn:Hf; [done|].
    assert (Hr : r ∈ filter (λ r, c_name r = name) (all_rows d)) by (rewrite Hf; by left).
    apply list_elem_of_filter in Hr as [Hn Hr]. by exists r.
  - intros (r & -> & Hr) Hnil.
    assert (Hin : r ∈ filter (λ r', c_name r' = c_name r) (all_rows d))
      by by apply list_elem_of_filter.
    rewrite Hnil in Hin. by apply elem_of_nil in Hin.
Qed.

(** [stats] and [stats_for] agree: [stats] lists, in descending order of their
    totals, each tool name of the log once, with exactly the entry that
    [stats_for] gives for that name. *)
Theorem stats_agree (w : World ToolDb unit) :
  faultless w →
  ∃ l, (stats w).1 = Ok l ∧ NoDup (s_name <$> l) ∧
    StronglySorted (λ a b, total_calls b <= total_calls a) l ∧
    ∀ n s, s ∈ l ∧ s_name s = n ↔ (stats_for n w).1 = Ok (Some s).
Proof.
  destruct w as [d c fs clk t]. unfold faultless. cbn [w_faults]. intros ->.
  exists (sel_stats d). split; [done|]. unfold sel_stats. split_and!.
  - rewrite order_desc_perm, <-list_fmap_compose.
    rewrite (list_fmap_ext _ id) by done. rewrite list_fmap_id. apply NoDup_remove_dups.
  - apply order_desc_sorted.
  - intros n s. rewrite order_desc_perm, list_elem_of_fmap.
    change ((stats_for n _).1) with (@Ok (option ToolCallStats) (sel_stats_for n d)).
    pose proof (rows_named_names n d) as Hn. unfold sel_stats_for.
    destruct (rows_named n d) as [|r rows] eqn:Hr.
    + split; [|done]. intros [(n' & -> & Hin) Heq]. simpl in Heq. subst n'.
      by apply Hn in Hin.
    + split.
      * intros [(n' & -> & Hin) Heq]. simpl in Heq. subst n'. by rewrite Hr.
      * intros [= <-]. split; [|done]. exists n. split; [by rewrite Hr|]. by apply Hn.
Qed.
End ToolCalls.
