(* ===== verification/Lru.v ===== *)
(** * Lru: the interface of the bounded cache

    [DentryCache] keeps its entries in an [LruCache] of the [lru] crate.  The
    crate is foreign code: the class [LruCache] lists the operations the source
    calls and what it relies on, seen through the finite map of the entries
    held at the moment ([lru_view]).  Which entry is evicted is left open:
    [put] may drop any other entry.  [BoundedLru] is a concrete cache (entries
    in order of use, the last one evicted) that satisfies the class and on
    which the development evaluates. *)
From S2P Require Import Prelude.

Class LruCache (K V : Type) `{Countable K} := {
  lru : Type;
  lru_new : nat → lru;
  lru_get : K → lru → option V * lru;
  lru_put : K → V → lru → lru;
  lru_pop : K → lru → lru;
  lru_view : lru → gmap K V;
  lru_new_view n : lru_view (lru_new n) = ∅;
  lru_get_result k c : (lru_get k c).1 = lru_view c !! k;
  lru_get_view k c : lru_view (lru_get k c).2 = lru_view c;
  lru_put_view k v c : lru_view (lru_put k v c) ⊆ <[k := v]> (lru_view c);
  lru_pop_view k c : lru_view (lru_pop k c) = delete k (lru_view c)
}.
Arguments lru K V {_ _ _}.

(** ** A bounded cache *)
Section BoundedLru.
Context {K V : Type} `{Countable K}.

(** Most recently used entry first. *)
Record bounded := mkBounded { b_cap : nat; b_entries : list (K * V) }.

Fixpoint assoc (k : K) (l : list (K * V)) : option V :=
  match l with
  | [] => None
  | (k', v) :: l => if decide (k = k') then Some v else assoc k l
  end.

Definition drop_key (k : K) (l : list (K * V)) : list (K * V) :=
  filter (λ e, e.1 ≠ k) l.

Definition b_get (k : K) (c : bounded) : option V * bounded :=
  match assoc k (b_entries c) with
  | Some v => (Some v, mkBounded (b_cap c) ((k, v) :: drop_key k (b_entries c)))
  | None => (None, c)
  end.
Definition b_put (k : K) (v : V) (c : bounded) : bounded :=
  mkBounded (b_cap c) (take (b_cap c) ((k, v) :: drop_key k (b_entries c))).
Definition b_pop (k : K) (c : bounded) : bounded :=
  mkBounded (b_cap c) (drop_key k (b_entries c)).
Definition b_view (c : bounded) : gmap K V := list_to_map (b_entries c).

Lemma view_cons k v l : list_to_map (M:=gmap K V) ((k, v) :: l) = <[k:=v]> (list_to_map l).
Proof. done. Qed.

Lemma assoc_view k l : assoc k l = list_to_map (M:=gmap K V) l !! k.
Proof.
  induction l as [|[k' v] l IH]; simpl; [done|].
  rewrite lookup_insert, IH. repeat case_decide; congruence.
Qed.

Lemma drop_key_view k l :
  list_to_map (M:=gmap K V) (drop_key k l) = delete k (list_to_map l).
Proof.
  induction l as [|[k' v] l IH]; simpl; [by rewrite delete_empty|].
  unfold drop_key in *. rewrite filter_cons. simpl. case_decide as Hk.
  - simpl. by rewrite delete_insert_ne, IH.
  - subst k'. by rewrite delete_insert_eq, IH.
Qed.

Lemma take_view n l :
  (list_to_map (take n l) : gmap K V) ⊆ list_to_map l.
Proof.
  revert n. induction l as [|[k v] l IH]; intros [|n]; simpl; try done.
  - apply map_empty_subseteq.
  - by apply insert_mono.
Qed.

#[local] Program Instance BoundedLru : LruCache K V := {|
  lru := bounded;
  lru_new n := mkBounded n [];
  lru_get := b_get; lru_put := b_put; lru_pop := b_pop; lru_view := b_view |}.
Next Obligation. done. Qed.
Next Obligation.
  intros k c. unfold b_get, b_view. rewrite <-assoc_view. by destruct assoc.
Qed.
Next Obligation.
  intros k c. unfold b_get. destruct (assoc k (b_entries c)) as [v|] eqn:Hk; [|done].
  unfold b_view. simpl. rewrite drop_key_view, insert_delete_eq.
  apply insert_id. by rewrite <-assoc_view.
Qed.
Next Obligation.
  intros k v c. unfold b_view, b_put. simpl b_entries.
  etrans; [apply take_view|]. simpl. rewrite drop_key_view, insert_delete_eq. done.
Qed.
Next Obligation. intros k c. apply drop_key_view. Qed.
End BoundedLru.
Arguments bounded K V : clear implicits.

(** The cache never holds more entries than its capacity. *)
Lemma b_put_bounded {K V} `{Countable K} (k : K) (v : V) (c : bounded K V) :
  (length (b_entries (b_put k v c)) <= b_cap (b_put k v c))%nat.
Proof. unfold b_put. simpl. rewrite length_take. lia. Qed.
