(* ===== verification/Schema.v ===== *)
(** * Schema: the tables of an AgentFS database and the statements on them

    The tables are those [initialize_schema] creates
    ([sdk/rust/src/filesystem/agentfs.rs]); every SQL statement of the file
    is one function on [Db] below, named after what it does, with the
    statement's text in its comment.  A table with a [PRIMARY KEY] or [UNIQUE]
    constraint is a finite map keyed by the constrained columns; an [INSERT]
    that violates the constraint is [None].  The [id] column of [fs_dentry] is
    never read by the source and is left out. *)
From S2P Require Import Prelude Types Engine Lru.

(** A row of [fs_inode] but for its key [ino]. *)
Record Inode := mkInode {
  i_mode : Z; i_nlink : Z; i_uid : Z; i_gid : Z; i_size : Z;
  i_atime : Z; i_mtime : Z; i_ctime : Z; i_rdev : Z;
  i_atime_nsec : Z; i_mtime_nsec : Z; i_ctime_nsec : Z
}.

#[export] Instance inode_eq_dec : EqDecision Inode.
Proof. solve_decision. Defined.

(** The tables.  [inode_seq] is the largest rowid [fs_inode] ever held (the
    row [AUTOINCREMENT] keeps in [sqlite_sequence]). *)
Record Db := mkDb {
  fs_config : gmap string string;
  inode_seq : Z;
  fs_inode : gmap Z Inode;
  fs_dentry : gmap (Z * string) Z;
  fs_data : gmap (Z * Z) bytes;
  fs_symlink : gmap Z string
}.

Definition empty_db : Db := mkDb ∅ 0 ∅ ∅ ∅ ∅.

Definition set_inodes (m : gmap Z Inode) (d : Db) : Db :=
  mkDb (fs_config d) (inode_seq d) m (fs_dentry d) (fs_data d) (fs_symlink d).
Definition set_dentries (m : gmap (Z * string) Z) (d : Db) : Db :=
  mkDb (fs_config d) (inode_seq d) (fs_inode d) m (fs_data d) (fs_symlink d).
Definition set_data (m : gmap (Z * Z) bytes) (d : Db) : Db :=
  mkDb (fs_config d) (inode_seq d) (fs_inode d) (fs_dentry d) m (fs_symlink d).
Definition set_symlinks (m : gmap Z string) (d : Db) : Db :=
  mkDb (fs_config d) (inode_seq d) (fs_inode d) (fs_dentry d) (fs_data d) m.
Definition set_config (m : gmap string string) (d : Db) : Db :=
  mkDb m (inode_seq d) (fs_inode d) (fs_dentry d) (fs_data d) (fs_symlink d).
Definition set_seq (z : Z) (d : Db) : Db :=
  mkDb (fs_config d) z (fs_inode d) (fs_dentry d) (fs_data d) (fs_symlink d).

(** ** Columns of an inode row *)

(** [SET nlink = f(nlink)] *)
Definition set_nlink (f : Z → Z) (i : Inode) : Inode :=
  mkInode (i_mode i) (f (i_nlink i)) (i_uid i) (i_gid i) (i_size i) (i_atime i)
    (i_mtime i) (i_ctime i) (i_rdev i) (i_atime_nsec i) (i_mtime_nsec i)
    (i_ctime_nsec i).
(** [SET mode = ?] *)
Definition set_mode (m : Z) (i : Inode) : Inode :=
  mkInode m (i_nlink i) (i_uid i) (i_gid i) (i_size i) (i_atime i) (i_mtime i)
    (i_ctime i) (i_rdev i) (i_atime_nsec i) (i_mtime_nsec i) (i_ctime_nsec i).
(** [SET uid = ?] *)
Definition set_uid (u : Z) (i : Inode) : Inode :=
  mkInode (i_mode i) (i_nlink i) u (i_gid i) (i_size i) (i_atime i) (i_mtime i)
    (i_ctime i) (i_rdev i) (i_atime_nsec i) (i_mtime_nsec i) (i_ctime_nsec i).
(** [SET gid = ?] *)
Definition set_gid (g : Z) (i : Inode) : Inode :=
  mkInode (i_mode i) (i_nlink i) (i_uid i) g (i_size i) (i_atime i) (i_mtime i)
    (i_ctime i) (i_rdev i) (i_atime_nsec i) (i_mtime_nsec i) (i_ctime_nsec i).
(** [SET size = ?] *)
Definition set_size (s : Z) (i : Inode) : Inode :=
  mkInode (i_mode i) (i_nlink i) (i_uid i) (i_gid i) s (i_atime i) (i_mtime i)
    (i_ctime i) (i_rdev i) (i_atime_nsec i) (i_mtime_nsec i) (i_ctime_nsec i).
(** [SET atime = ?, atime_nsec = ?] *)
Definition set_atime (t : Z * Z) (i : Inode) : Inode :=
  mkInode (i_mode i) (i_nlink i) (i_uid i) (i_gid i) (i_size i) t.1 (i_mtime i)
    (i_ctime i) (i_rdev i) t.2 (i_mtime_nsec i) (i_ctime_nsec i).
(** [SET mtime = ?, mtime_nsec = ?] *)
Definition set_mtime (t : Z * Z) (i : Inode) : Inode :=
  mkInode (i_mode i) (i_nlink i) (i_uid i) (i_gid i) (i_size i) (i_atime i) t.1
    (i_ctime i) (i_rdev i) (i_atime_nsec i) t.2 (i_ctime_nsec i).
(** [SET ctime = ?, ctime_nsec = ?] *)
Definition set_ctime (t : Z * Z) (i : Inode) : Inode :=
  mkInode (i_mode i) (i_nlink i) (i_uid i) (i_gid i) (i_size i) (i_atime i)
    (i_mtime i) t.1 (i_rdev i) (i_atime_nsec i) (i_mtime_nsec i) t.2.

(** ** Statements on [fs_inode] *)

(** [SELECT ... FROM fs_inode WHERE ino = ?] *)
Definition sel_inode (ino : Z) (d : Db) : option Inode := fs_inode d !! ino.

(** [UPDATE fs_inode SET ... WHERE ino = ?] *)
Definition upd_inode (ino : Z) (f : Inode → Inode) (d : Db) : Db :=
  set_inodes (alter f ino (fs_inode d)) d.

(** [DELETE FROM fs_inode WHERE ino = ?] *)
Definition del_inode (ino : Z) (d : Db) : Db :=
  set_inodes (delete ino (fs_inode d)) d.

(** [INSERT INTO fs_inode (...) VALUES (...) RETURNING ino] *)
Definition ins_inode `{SqlEngine} (row : Inode) (d : Db) : option (Z * Db) :=
  let ino := next_rowid (inode_seq d) in
  Some (ino, set_seq ino (set_inodes (<[ino := row]> (fs_inode d)) d)).

(** ** Statements on [fs_dentry] *)

(** [SELECT ino FROM fs_dentry WHERE parent_ino = ? AND name = ?]: the rows,
    at most one because of [UNIQUE(parent_ino, name)]. *)
Definition sel_dentry (parent : Z) (name : string) (d : Db) : list Z :=
  match fs_dentry d !! (parent, name) with Some ino => [ino] | None => [] end.

(** [INSERT INTO fs_dentry (name, parent_ino, ino) VALUES (?, ?, ?)] *)
Definition ins_dentry (name : string) (parent ino : Z) (d : Db) : option Db :=
  match fs_dentry d !! (parent, name) with
  | Some _ => None
  | None => Some (set_dentries (<[(parent, name) := ino]> (fs_dentry d)) d)
  end.

(** [DELETE FROM fs_dentry WHERE parent_ino = ? AND name = ?] *)
Definition del_dentry (parent : Z) (name : string) (d : Db) : Db :=
  set_dentries (delete (parent, name) (fs_dentry d)) d.

(** [UPDATE fs_dentry SET parent_ino = ?, name = ?
     WHERE parent_ino = ? AND name = ?] *)
Definition upd_dentry (parent' : Z) (name' : string) (parent : Z) (name : string)
    (d : Db) : option Db :=
  match fs_dentry d !! (parent, name) with
  | None => Some d
  | Some ino =>
      match delete (parent, name) (fs_dentry d) !! (parent', name') with
      | Some _ => None
      | None =>
          Some (set_dentries
            (<[(parent', name') := ino]> (delete (parent, name) (fs_dentry d))) d)
      end
  end.

(** The entries of a directory as (name, ino) pairs. *)
Definition children (parent : Z) (d : Db) : list (string * Z) :=
  omap (λ e, if decide (e.1.1 = parent) then Some (e.1.2, e.2) else None)
       (map_to_list (fs_dentry d)).

(** [SELECT COUNT( * ) FROM fs_dentry WHERE parent_ino = ?] *)
Definition count_children (parent : Z) (d : Db) : Z := len (children parent d).

(** [SELECT name, ... FROM fs_dentry WHERE parent_ino = ? ORDER BY name] *)
Definition name_le (a b : string * Z) : Prop := String.le a.1 b.1.
#[export] Instance name_le_dec : RelDecision name_le.
Proof. intros a b. apply String.le_dec. Defined.
Definition sel_children (parent : Z) (d : Db) : list (string * Z) :=
  merge_sort name_le (children parent d).

(** [SELECT parent_ino FROM fs_dentry WHERE ino = ? LIMIT 1] *)
Definition sel_parent `{SqlEngine} (ino : Z) (d : Db) : option Z :=
  limit_one (omap (λ e, if decide (e.2 = ino) then Some e.1.1 else None)
                  (map_to_list (fs_dentry d))).

(** ** Statements on [fs_data] *)

(** [SELECT data FROM fs_data WHERE ino = ? AND chunk_index = ?] *)
Definition sel_chunk (ino idx : Z) (d : Db) : option bytes := fs_data d !! (ino, idx).

(** [SELECT chunk_index, data FROM fs_data WHERE ino = ? AND chunk_index >= ?
     AND chunk_index <= ? ORDER BY chunk_index] *)
Definition chunk_le (a b : Z * bytes) : Prop := a.1 <= b.1.
#[export] Instance chunk_le_dec : RelDecision chunk_le.
Proof. intros a b. unfold chunk_le. apply _. Defined.
Definition chunks_of (ino : Z) (d : Db) : list (Z * bytes) :=
  omap (λ e, if decide (e.1.1 = ino) then Some (e.1.2, e.2) else None)
       (map_to_list (fs_data d)).
Definition sel_chunks (ino lo hi : Z) (d : Db) : list (Z * bytes) :=
  merge_sort chunk_le (filter (λ c, lo <= c.1 ∧ c.1 <= hi) (chunks_of ino d)).

(** [SELECT data FROM fs_data WHERE ino = ? ORDER BY chunk_index] *)
Definition sel_all_chunks (ino : Z) (d : Db) : list (Z * bytes) :=
  merge_sort chunk_le (chunks_of ino d).

(** [INSERT OR REPLACE INTO fs_data (ino, chunk_index, data) VALUES (?, ?, ?)] *)
Definition rep_chunk (ino idx : Z) (data : bytes) (d : Db) : Db :=
  set_data (<[(ino, idx) := data]> (fs_data d)) d.

(** [INSERT INTO fs_data (ino, chunk_index, data) VALUES (?, ?, ?)] *)
Definition ins_chunk (ino idx : Z) (data : bytes) (d : Db) : option Db :=
  match fs_data d !! (ino, idx) with
  | Some _ => None
  | None => Some (set_data (<[(ino, idx) := data]> (fs_data d)) d)
  end.

(** [UPDATE fs_data SET data = ? WHERE ino = ? AND chunk_index = ?] *)
Definition upd_chunk (ino idx : Z) (data : bytes) (d : Db) : Db :=
  set_data (alter (λ _, data) (ino, idx) (fs_data d)) d.

(** [DELETE FROM fs_data WHERE ino = ? AND chunk_index = ?] *)
Definition del_chunk (ino idx : Z) (d : Db) : Db :=
  set_data (delete (ino, idx) (fs_data d)) d.

(** [DELETE FROM fs_data WHERE ino = ? AND chunk_index > ?] *)
Definition del_chunks_after (ino idx : Z) (d : Db) : Db :=
  set_data (filter (λ e, ¬ (e.1.1 = ino ∧ idx < e.1.2)) (fs_data d)) d.

(** [DELETE FROM fs_data WHERE ino = ?] *)
Definition del_data (ino : Z) (d : Db) : Db :=
  set_data (filter (λ e, ¬ (e.1.1 = ino)) (fs_data d)) d.

(** ** Statements on [fs_symlink] *)

(** [SELECT target FROM fs_symlink WHERE ino = ?] *)
Definition sel_symlink (ino : Z) (d : Db) : option string := fs_symlink d !! ino.

(** [INSERT INTO fs_symlink (ino, target) VALUES (?, ?)] *)
Definition ins_symlink (ino : Z) (target : string) (d : Db) : option Db :=
  match fs_symlink d !! ino with
  | Some _ => None
  | None => Some (set_symlinks (<[ino := target]> (fs_symlink d)) d)
  end.

(** [DELETE FROM fs_symlink WHERE ino = ?] *)
Definition del_symlink (ino : Z) (d : Db) : Db :=
  set_symlinks (delete ino (fs_symlink d)) d.

(** ** Rows of a query *)

Lemma elem_of_chunks_of ino idx c d :
  (idx, c) ∈ chunks_of ino d ↔ fs_data d !! (ino, idx) = Some c.
Proof.
  unfold chunks_of. rewrite list_elem_of_omap. split.
  - intros ([[i j] c'] & Hin & Hsome). simpl in Hsome.
    case_decide; simplify_eq/=. by apply elem_of_map_to_list in Hin.
  - intros Hlk. exists ((ino, idx), c). split; [by apply elem_of_map_to_list|].
    simpl. by rewrite decide_True.
Qed.

Lemma elem_of_children parent name ino d :
  (name, ino) ∈ children parent d ↔ fs_dentry d !! (parent, name) = Some ino.
Proof.
  unfold children. rewrite list_elem_of_omap. split.
  - intros ([[p n] c] & Hin & Hsome). simpl in Hsome.
    case_decide; simplify_eq/=. by apply elem_of_map_to_list in Hin.
  - intros Hlk. exists ((parent, name), ino). split; [by apply elem_of_map_to_list|].
    simpl. by rewrite decide_True.
Qed.

Lemma NoDup_omap_key {K A B X} (f : K * A → option (B * X)) (l : list (K * A)) :
  (∀ k1 a1 k2 a2 b x1 x2, f (k1, a1) = Some (b, x1) → f (k2, a2) = Some (b, x2) →
     k1 = k2) →
  NoDup l.*1 → NoDup (omap f l).*1.
Proof.
  intros Hinj. induction l as [|[k a] l IH]; simpl; [constructor|].
  intros [Hk Hnd]%NoDup_cons. destruct (f (k, a)) as [[b x]|] eqn:Hf; simpl; [|auto].
  constructor; [|auto]. intros ([b' x'] & Hb & Hin)%list_elem_of_fmap.
  simpl in Hb. subst b'. apply list_elem_of_omap in Hin as ([k' a'] & Hin & Hf').
  apply Hk. rewrite (Hinj _ _ _ _ _ _ _ Hf Hf').
  apply list_elem_of_fmap. by exists (k', a').
Qed.

Lemma NoDup_chunks_of ino d : NoDup (chunks_of ino d).*1.
Proof.
  apply NoDup_omap_key; [|apply NoDup_fst_map_to_list].
  intros [i1 j1] a1 [i2 j2] a2 b x1 x2. simpl. repeat case_decide; naive_solver.
Qed.

Lemma NoDup_children parent d : NoDup (children parent d).*1.
Proof.
  apply NoDup_omap_key; [|apply NoDup_fst_map_to_list].
  intros [i1 j1] a1 [i2 j2] a2 b x1 x2. simpl. repeat case_decide; naive_solver.
Qed.

#[export] Instance chunk_le_total : Total chunk_le.
Proof. intros a b. unfold chunk_le. lia. Qed.
#[export] Instance chunk_le_trans : Transitive chunk_le.
Proof. intros a b c. unfold chunk_le. lia. Qed.
#[export] Instance name_le_total : Total name_le.
Proof. intros a b. apply String.le_total. Qed.
#[export] Instance name_le_trans : Transitive name_le.
Proof. intros a b c. unfold name_le. apply String.le_po. Qed.

(** Sorting by [<=] distinct keys sorts by [<]. *)
Lemma StronglySorted_strict (l : list (Z * bytes)) :
  StronglySorted chunk_le l → NoDup l.*1 →
  StronglySorted (λ a b, a.1 < b.1) l.
Proof.
  induction 1 as [|a l Hs IH Hall]; [constructor|]. simpl.
  intros [Ha Hnd]%NoDup_cons. constructor; [auto|].
  apply Forall_forall. intros b Hb. rewrite Forall_forall in Hall.
  specialize (Hall b Hb). unfold chunk_le in Hall.
  destruct (decide (a.1 = b.1)) as [Heq|]; [|lia].
  destruct Ha. rewrite Heq. apply list_elem_of_fmap. by exists b.
Qed.

Lemma NoDup_filter_fst {A B} (P : A * B → Prop) `{∀ x, Decision (P x)} l :
  NoDup l.*1 → NoDup (filter P l).*1.
Proof.
  induction l as [|[a b] l IH]; [constructor|]. simpl.
  intros [Ha Hnd]%NoDup_cons. rewrite filter_cons. case_decide; [|auto].
  simpl. constructor; [|auto]. intros ([a' b'] & Heq & Hin)%list_elem_of_fmap.
  simpl in Heq. subst a'. apply list_elem_of_filter in Hin as [_ Hin].
  apply Ha. apply list_elem_of_fmap. by exists (a, b').
Qed.

Lemma sel_chunks_elem ino lo hi d idx c :
  (idx, c) ∈ sel_chunks ino lo hi d ↔
  fs_data d !! (ino, idx) = Some c ∧ lo <= idx <= hi.
Proof.
  unfold sel_chunks. rewrite merge_sort_Permutation, list_elem_of_filter.
  rewrite elem_of_chunks_of. simpl. tauto.
Qed.

Lemma sel_chunks_sorted ino lo hi d :
  StronglySorted (λ a b, a.1 < b.1) (sel_chunks ino lo hi d).
Proof.
  apply StronglySorted_strict; [apply StronglySorted_merge_sort; apply _|].
  unfold sel_chunks. rewrite merge_sort_Permutation.
  apply NoDup_filter_fst, NoDup_chunks_of.
Qed.

Lemma sel_all_chunks_elem ino d idx c :
  (idx, c) ∈ sel_all_chunks ino d ↔ fs_data d !! (ino, idx) = Some c.
Proof. unfold sel_all_chunks. by rewrite merge_sort_Permutation, elem_of_chunks_of. Qed.

Lemma sel_all_chunks_sorted ino d :
  StronglySorted (λ a b, a.1 < b.1) (sel_all_chunks ino d).
Proof.
  apply StronglySorted_strict; [apply StronglySorted_merge_sort; apply _|].
  unfold sel_all_chunks. rewrite merge_sort_Permutation. apply NoDup_chunks_of.
Qed.

Lemma sel_children_elem parent name ino d :
  (name, ino) ∈ sel_children parent d ↔ fs_dentry d !! (parent, name) = Some ino.
Proof. unfold sel_children. by rewrite merge_sort_Permutation, elem_of_children. Qed.

Lemma NoDup_sel_children parent d : NoDup (sel_children parent d).*1.
Proof. unfold sel_children. rewrite merge_sort_Permutation. apply NoDup_children. Qed.

(** The names of a sorted list of entries are sorted, also when some are left
    out. *)
Lemma sorted_names (P : string → Prop) `{∀ n, Decision (P n)} (l : list (string * Z)) :
  StronglySorted name_le l → StronglySorted String.le (filter P l.*1).
Proof.
  induction 1 as [|e l Hs IH Hall]; [constructor|]. rewrite fmap_cons, filter_cons.
  case_decide; [|done]. constructor; [done|]. apply Forall_forall.
  intros n [_ Hin]%list_elem_of_filter. apply list_elem_of_fmap in Hin as (e' & -> & Hin).
  rewrite Forall_forall in Hall. by apply Hall.
Qed.
