(* ===== verification/FileIO.v ===== *)
(** * FileIO: open file handles over chunked storage

    [AgentFSFile] in [sdk/rust/src/filesystem/agentfs.rs]: [pread], [pwrite],
    [truncate], [fsync] and [fstat] of an open file.  A file's bytes are kept
    in [fs_data] in chunks of [chunk_size] bytes; a missing chunk, or the part
    of a chunk past its end, reads as zeros (sparse files).

    [FileSpec] holds the reference operations on byte strings; [FileIOSpec]
    proves that the operations below implement them. *)
From S2P Require Import Prelude Types Engine Lru Schema.

(** ** Reference operations on byte strings *)
Module FileSpec.
Definition read (l : bytes) (off n : Z) : bytes :=
  take (Z.to_nat n) (drop (Z.to_nat off) l).
Definition truncate (l : bytes) (n : Z) : bytes := vec_resize l n zero_byte.
Definition write (l : bytes) (off : Z) (data : bytes) : bytes :=
  let l' := truncate l (Z.max (len l) (off + len data)) in
  take (Z.to_nat off) l' ++ data ++ drop (Z.to_nat (off + len data)) l'.
End FileSpec.

(** ** The operations *)

Record AgentFSFile := mkFile { f_ino : Z; f_chunk_size : Z }.

(** [AgentFS::build_stats_from_row]. *)
Definition build_stats_from_row (ino : Z) (r : Inode) : Stats :=
  mkStats ino (as_u32 (i_mode r)) (as_u32 (i_nlink r)) (as_u32 (i_uid r))
    (as_u32 (i_gid r)) (i_size r) (i_atime r) (i_mtime r) (i_ctime r)
    (as_u32 (i_atime_nsec r)) (as_u32 (i_mtime_nsec r)) (as_u32 (i_ctime_nsec r))
    (as_u64 (i_rdev r)).

(** The [size] column read back as [u64], 0 when there is no row. *)
Definition row_size (row : option Inode) : Z :=
  match row with Some i => as_u64 (i_size i) | None => 0 end.

(** The inner loop of [pread] that fills the gap before chunk [chunk_index]
    with zeros; it moves [next] up by one per iteration. *)
Fixpoint fill_gap (fuel : nat) (cs size start sko chunk_index next : Z)
    (result : bytes) : Z * bytes :=
  match fuel with
  | O => (next, result)
  | S fuel =>
      if (next <? chunk_index) && (len result <? size) then
        let skip := if next =? start then sko else 0 in
        let zeros_needed := Z.min (cs - skip) (size - len result) in
        fill_gap fuel cs size start sko chunk_index (next + 1)
          (result ++ zeros zeros_needed)
      else (next, result)
  end.

(** The part of the outer loop that appends the bytes of one chunk. *)
Definition append_chunk (cs size start sko chunk_index : Z) (chunk_data : bytes)
    (result : bytes) : option bytes :=
  let skip := if chunk_index =? start then sko else 0 in
  if len chunk_data <=? skip then
    Some (result ++ zeros (Z.min (cs - skip) (size - len result)))
  else
    let remaining := size - len result in
    let take := Z.min (len chunk_data - skip) remaining in
    part ← slice chunk_data skip (skip + take);
    let result := result ++ part in
    let chunk_end := skip + take in
    if (chunk_end <? cs) && (len result <? size) then
      Some (result ++ zeros (Z.min (cs - chunk_end) (size - len result)))
    else Some result.

(** The outer loop of [pread]; [None] is a panic. *)
Fixpoint read_rows (cs size start sko : Z) (rows : list (Z * bytes)) (next : Z)
    (result : bytes) : option bytes :=
  match rows with
  | [] => Some result
  | (idx, chunk_data) :: rows =>
      let chunk_index := as_u64 idx in
      let '(_, result) :=
        fill_gap (Z.to_nat (chunk_index - next)) cs size start sko chunk_index next
          result in
      result ← append_chunk cs size start sko chunk_index chunk_data result;
      read_rows cs size start sko rows (chunk_index + 1) result
  end.

(** [Vec::with_capacity(n)] panics past [isize::MAX] bytes. *)
Definition vec_with_capacity (n : Z) : option unit :=
  if n <? 2 ^ 63 then Some tt else None.

Section Operations.
Context {C : Type}.

Definition pread (f : AgentFSFile) (offset size : Z) : M Db C bytes :=
  get_connection ;;
  row ← query (sel_inode (f_ino f));
  let file_size := row_size row in
  if file_size <=? offset then mret []
  else
    let size := Z.min size (file_size - offset) in
    let cs := f_chunk_size f in
    start_chunk ← udiv offset cs;
    end_chunk ← udiv (saturating_sub (u64_add offset size) 1) cs;
    rows ← query (sel_chunks (f_ino f) (as_i64 start_chunk) (as_i64 end_chunk));
    or_panic (vec_with_capacity size) ;;
    start_offset_in_chunk ← urem offset cs;
    result ← or_panic
      (read_rows cs size start_chunk start_offset_in_chunk rows start_chunk []);
    mret (if len result <? size then vec_resize result size zero_byte else result).

(** The loop of [write_data_at_offset_with_conn]: every iteration writes at
    least one byte, so [length data] iterations are enough. *)
Fixpoint write_loop (fuel : nat) (f : AgentFSFile) (offset : Z) (data : bytes)
    (written : Z) : M Db C unit :=
  match fuel with
  | O => mret tt
  | S fuel =>
      if written <? len data then
        let cs := f_chunk_size f in
        let current_offset := u64_add offset written in
        idx ← udiv current_offset cs;
        let chunk_index := as_i64 idx in
        offset_in_chunk ← urem current_offset cs;
        let remaining_in_chunk := cs - offset_in_chunk in
        let remaining_data := len data - written in
        let to_write := Z.min remaining_in_chunk remaining_data in
        chunk_data ←
          (if negb (to_write =? cs) then
             row ← query (sel_chunk (f_ino f) chunk_index);
             let chunk_data := default [] row in
             let chunk_data :=
               if len chunk_data <? offset_in_chunk + to_write
               then vec_resize chunk_data (offset_in_chunk + to_write) zero_byte
               else chunk_data in
             src ← or_panic (slice data written (written + to_write));
             or_panic (copy_at chunk_data offset_in_chunk src)
           else or_panic (slice data written (written + to_write)));
        update (rep_chunk (f_ino f) chunk_index chunk_data) ;;
        write_loop fuel f offset data (written + to_write)
      else mret tt
  end.

Definition write_data_at_offset_with_conn (f : AgentFSFile) (offset : Z)
    (data : bytes) : M Db C unit :=
  match data with
  | [] => mret tt
  | _ => write_loop (length data) f offset data 0
  end.

Definition pwrite (f : AgentFSFile) (offset : Z) (data : bytes) : M Db C unit :=
  match data with
  | [] => mret tt
  | _ =>
      get_connection ;;
      transaction (
        row ← query (sel_inode (f_ino f));
        let current_size := row_size row in
        write_data_at_offset_with_conn f offset data ;;
        let new_size := Z.max current_size (u64_add offset (len data)) in
        t ← now;
        update (upd_inode (f_ino f) (set_mtime t ∘ set_size (as_i64 new_size))))
  end.

Definition truncate (f : AgentFSFile) (new_size : Z) : M Db C unit :=
  get_connection ;;
  row ← query (sel_inode (f_ino f));
  let current_size := row_size row in
  let cs := f_chunk_size f in
  transaction (
    (if new_size =? 0 then update (del_data (f_ino f))
     else if new_size <? current_size then
       last_chunk_idx ← udiv (new_size - 1) cs;
       update (del_chunks_after (f_ino f) (as_i64 last_chunk_idx)) ;;
       offset_in_chunk ← urem new_size cs;
       if 0 <? offset_in_chunk then
         row ← query (sel_chunk (f_ino f) (as_i64 last_chunk_idx));
         match row with
         | Some chunk_data =>
             if offset_in_chunk <? len chunk_data then
               update (upd_chunk (f_ino f) (as_i64 last_chunk_idx)
                         (take (Z.to_nat offset_in_chunk) chunk_data))
             else mret tt
         | None => mret tt
         end
       else mret tt
     else mret tt) ;;
    t ← now;
    update (upd_inode (f_ino f)
              (set_ctime t ∘ set_mtime t ∘ set_size (as_i64 new_size)))).

(** [PRAGMA synchronous = FULL; BEGIN; COMMIT; PRAGMA synchronous = OFF]:
    four engine calls that leave the tables alone. *)
Definition fsync : M Db C unit :=
  get_connection ;; engine_call ;; engine_call ;; engine_call ;; engine_call.

Definition fstat (f : AgentFSFile) : M Db C Stats :=
  get_connection ;;
  row ← query (sel_inode (f_ino f));
  match row with
  | Some r => mret (build_stats_from_row (f_ino f) r)
  | None => fs_err FsError.NotFound
  end.
End Operations.

(** Instance search takes the operations as they are. *)
#[global] Typeclasses Opaque pread write_loop write_data_at_offset_with_conn pwrite
  truncate fsync fstat.
