(* ===== verification/FileIOSpec.v ===== *)
(** * FileIOSpec: open files are byte strings

    The abstraction of a file ([contents]), the invariant of the chunk tables
    ([chunks_ok]), and the proof that [pread], [pwrite] and [truncate] of
    [FileIO] implement [FileSpec] on it. *)
From S2P Require Import Prelude Types Engine Lru Schema FileIO.

(** ** The abstraction *)

(** Byte [i] of file [ino]; zero where nothing is stored. *)
Definition fbyte (cs : Z) (d : Db) (ino i : Z) : byte :=
  default zero_byte (default [] (fs_data d !! (ino, i / cs)) !! Z.to_nat (i mod cs)).

(** The [n] bytes from [off] on. *)
Definition fbytes (cs : Z) (d : Db) (ino off n : Z) : bytes :=
  (λ k, fbyte cs d ino (off + Z.of_nat k)) <$> seq 0 (Z.to_nat n).

(** The [size] column. *)
Definition fsize (d : Db) (ino : Z) : Z :=
  match fs_inode d !! ino with Some i => i_size i | None => 0 end.

Definition contents (cs : Z) (d : Db) (ino : Z) : bytes :=
  fbytes cs d ino 0 (fsize d ino).

(** The invariant of the tables behind file contents: sizes fit the signed
    column, chunks are indexed from 0, hold at most [cs] bytes and end within
    the size of their file. *)
Record chunks_ok (cs : Z) (d : Db) : Prop := {
  sizes_ok ino i : fs_inode d !! ino = Some i → 0 <= i_size i < 2 ^ 63;
  chunk_ok ino idx c : fs_data d !! (ino, idx) = Some c →
    0 <= idx ∧ len c <= cs ∧ idx * cs + len c <= fsize d ino
}.

(** ** Bytes of a file *)

Lemma fsize_range cs d ino : chunks_ok cs d → 0 <= fsize d ino < 2 ^ 63.
Proof.
  intros Hok. unfold fsize. destruct (fs_inode d !! ino) eqn:Hi; [|lia].
  by apply (sizes_ok _ _ Hok) in Hi.
Qed.

Lemma row_size_fsize cs d ino :
  chunks_ok cs d → row_size (sel_inode ino d) = fsize d ino.
Proof.
  intros Hok. pose proof (fsize_range _ _ ino Hok) as Hr.
  unfold row_size, sel_inode, fsize in *. destruct (fs_inode d !! ino); [|done].
  rewrite as_u64_id; [done|unfold in_u64; lia].
Qed.

Lemma length_fbytes cs d ino off n : length (fbytes cs d ino off n) = Z.to_nat n.
Proof. unfold fbytes. by rewrite length_fmap, length_seq. Qed.

Lemma len_fbytes cs d ino off n : 0 <= n → len (fbytes cs d ino off n) = n.
Proof. intros. unfold len. rewrite length_fbytes. lia. Qed.
#[export] Hint Rewrite length_fbytes : len.
#[export] Hint Rewrite len_fbytes using lia : len.

Lemma lookup_fbytes cs d ino off n (k : nat) :
  (k < Z.to_nat n)%nat →
  fbytes cs d ino off n !! k = Some (fbyte cs d ino (off + Z.of_nat k)).
Proof.
  intros Hk. unfold fbytes. rewrite list_lookup_fmap, lookup_seq_lt by done. done.
Qed.

Lemma fbytes_app cs d ino off n m :
  0 <= n → 0 <= m →
  fbytes cs d ino off (n + m) = fbytes cs d ino off n ++ fbytes cs d ino (off + n) m.
Proof.
  intros Hn Hm. unfold fbytes. rewrite Z2Nat.inj_add, seq_app, fmap_app by done.
  f_equal. apply list_eq. intros k. rewrite !list_lookup_fmap.
  destruct (decide (k < Z.to_nat m)%nat) as [Hk|Hk].
  - rewrite !lookup_seq_lt by done. simpl. do 2 f_equal. lia.
  - rewrite !lookup_seq_ge by lia. done.
Qed.

Lemma fbytes_0 cs d ino off : fbytes cs d ino off 0 = [].
Proof. done. Qed.

(** Two byte strings given byte by byte. *)
Lemma fbytes_ext cs d ino off n (l : bytes) :
  len l = n →
  (∀ k, 0 <= k < n → l !! Z.to_nat k = Some (fbyte cs d ino (off + k))) →
  l = fbytes cs d ino off n.
Proof.
  intros Hl Hk. apply list_eq. intros k.
  destruct (decide (Z.of_nat k < n)) as [Hlt|Hge].
  - rewrite lookup_fbytes by lia. rewrite <-(Nat2Z.id k) at 1. by rewrite Hk by lia.
  - rewrite !lookup_ge_None_2; [done|rewrite length_fbytes; lia|unfold len in *; lia].
Qed.

Lemma fbytes_eq cs d1 d2 ino1 ino2 off n :
  (∀ i, off <= i < off + n → fbyte cs d1 ino1 i = fbyte cs d2 ino2 i) →
  fbytes cs d1 ino1 off n = fbytes cs d2 ino2 off n.
Proof.
  intros H. unfold fbytes. apply list_fmap_ext. intros k x Hx.
  apply lookup_seq in Hx as [-> Hx]. apply H. lia.
Qed.

Lemma lookup_resize_default {A} (l : list A) (n : nat) x (k : nat) :
  (k < n)%nat → resize n x l !! k = Some (default x (l !! k)).
Proof.
  intros Hk. destruct (decide (k < length l)%nat) as [Hl|Hl].
  - rewrite lookup_resize by done. destruct (lookup_lt_is_Some_2 l k Hl) as [y Hy].
    by rewrite Hy.
  - rewrite lookup_resize_new by lia. by rewrite lookup_ge_None_2 by lia.
Qed.

(** The bytes that chunk [idx] contributes between its offsets [a] and
    [a + n]: its data from [a] on, padded with zeros. *)
Lemma fbytes_chunk cs d ino idx a n :
  0 <= a → 0 <= n → a + n <= cs → 0 < cs →
  fbytes cs d ino (idx * cs + a) n =
    vec_resize (drop (Z.to_nat a) (default [] (fs_data d !! (ino, idx)))) n zero_byte.
Proof.
  intros Ha Hn Hle Hcs. symmetry. apply fbytes_ext; [len|].
  intros k Hk. unfold vec_resize. rewrite lookup_resize_default by lia.
  rewrite lookup_drop. unfold fbyte.
  replace (idx * cs + a + k) with ((a + k) + idx * cs) by lia.
  rewrite Z.div_add, Z.mod_add, Z.div_small, Z.mod_small by lia.
  do 2 f_equal. f_equal. lia.
Qed.

(** Where there are no chunks there are zeros. *)
Lemma fbytes_gap cs d ino off n :
  0 < cs → 0 <= n →
  (∀ j, off / cs <= j <= (off + n - 1) / cs → fs_data d !! (ino, j) = None) →
  fbytes cs d ino off n = zeros n.
Proof.
  intros Hcs Hn Hgap. symmetry. apply fbytes_ext; [len|].
  intros k Hk. unfold zeros. rewrite lookup_replicate_2 by lia. unfold fbyte.
  rewrite Hgap; [done|]. split; apply Z.div_le_mono; lia.
Qed.

Lemma vec_resize_zeros (l : bytes) n :
  len l <= n → vec_resize l n zero_byte = l ++ zeros (n - len l).
Proof.
  intros H. unfold vec_resize, zeros, len in *. rewrite resize_spec.
  rewrite take_ge by lia. do 2 f_equal. lia.
Qed.

Lemma vec_resize_take (l : bytes) n :
  n <= len l → vec_resize l n zero_byte = take (Z.to_nat n) l.
Proof.
  intros H. unfold vec_resize, len in *. rewrite resize_spec.
  replace (Z.to_nat n - length l)%nat with 0%nat by lia. simpl. by rewrite app_nil_r.
Qed.

(** ** Reading *)
Section Read.
Context (cs : Z) (d : Db) (ino off n : Z).
Hypothesis Hcs : 0 < cs.
Hypothesis Hoff : 0 <= off.
Hypothesis Hn : 0 <= n.
Hypothesis Hchunks : ∀ idx c, fs_data d !! (ino, idx) = Some c → len c <= cs.

(** Number of bytes read when every chunk below [next] is done. *)
Definition pos (next : Z) : Z := Z.min n (Z.max 0 (next * cs - off)).

Local Abbreviation start := (off / cs).
Local Abbreviation sko := (off mod cs).
Local Abbreviation done_to next := (fbytes cs d ino off (pos next)).

Definition skip_of (next : Z) : Z := if next =? start then sko else 0.

Lemma start_eq : off = start * cs + sko ∧ 0 <= sko < cs.
Proof.
  pose proof (Z.div_mod off cs). pose proof (Z.mod_pos_bound off cs). lia.
Qed.

Lemma pos_start : pos start = 0.
Proof. pose proof start_eq. unfold pos. lia. Qed.

(** Chunk [next] contributes the bytes from [skip_of next] on. *)
Lemma pos_step next :
  start <= next →
  0 <= pos next <= n ∧
  0 <= skip_of next < cs ∧
  pos (next + 1) - pos next = Z.min (cs - skip_of next) (n - pos next) ∧
  (pos next < n → off + pos next = next * cs + skip_of next).
Proof.
  intros Hnext. pose proof start_eq as [Heq Hsko]. unfold pos, skip_of.
  destruct (Z.eqb_spec next start) as [->|Hne]; [lia|].
  assert (start * cs + cs <= next * cs) by nia. lia.
Qed.

Lemma len_done next : start <= next → len (done_to next) = pos next.
Proof. intros H. apply len_fbytes. pose proof (pos_step next H). lia. Qed.

(** Reading one more chunk: its data from the skipped offset on, padded
    with zeros. *)
Lemma done_step next :
  start <= next →
  done_to (next + 1) =
    done_to next ++
    vec_resize (drop (Z.to_nat (skip_of next)) (default [] (fs_data d !! (ino, next))))
      (pos (next + 1) - pos next) zero_byte.
Proof.
  intros Hnext. pose proof (pos_step next Hnext) as (Hp & Hs & Hstep & Hoffset).
  replace (pos (next + 1)) with (pos next + (pos (next + 1) - pos next)) at 1 by lia.
  rewrite fbytes_app by lia. f_equal.
  destruct (decide (pos next < n)) as [Hlt|Hge].
  - rewrite Hoffset by done. apply fbytes_chunk; lia.
  - replace (pos (next + 1) - pos next) with 0 by lia. symmetry. apply resize_0.
Qed.

Lemma fill_gap_spec fuel chunk_index next :
  start <= next → next + Z.of_nat fuel = chunk_index →
  (∀ j, next <= j < chunk_index → fs_data d !! (ino, j) = None) →
  (fill_gap fuel cs n start sko chunk_index next (done_to next)).2 =
    done_to chunk_index.
Proof.
  revert next. induction fuel as [|fuel IH]; intros next Hnext Hfuel Hgap; simpl.
  { by replace chunk_index with next by lia. }
  rewrite len_done by done.
  pose proof (pos_step next Hnext) as (Hp & Hs & Hstep & _).
  destruct (Z.ltb_spec next chunk_index); [|lia]. simpl.
  destruct (Z.ltb_spec (pos next) n) as [Hlt|Hge]; simpl.
  - fold (skip_of next). rewrite <-Hstep.
    replace (done_to next ++ _) with (done_to (next + 1)).
    { apply IH; [lia..|]. intros j Hj. apply Hgap. lia. }
    rewrite done_step, Hgap by lia. simpl. rewrite drop_nil.
    rewrite vec_resize_zeros by (rewrite len_nil; lia). simpl.
    by rewrite len_nil, Z.sub_0_r.
  - assert (Hsame : pos chunk_index = pos next); [|by rewrite Hsame].
    unfold pos in *. assert (next * cs <= chunk_index * cs) by nia. lia.
Qed.

Lemma append_chunk_spec idx c :
  start <= idx → fs_data d !! (ino, idx) = Some c →
  append_chunk cs n start sko idx c (done_to idx) = Some (done_to (idx + 1)).
Proof.
  intros Hidx Hc. pose proof (pos_step idx Hidx) as (Hp & Hs & Hstep & _).
  pose proof (Hchunks _ _ Hc) as Hlen. rewrite done_step, Hc by done. simpl.
  unfold append_chunk. fold (skip_of idx). rewrite len_done by done.
  destruct (Z.leb_spec (len c) (skip_of idx)).
  - rewrite drop_ge by (unfold len in *; lia).
    rewrite vec_resize_zeros by (rewrite len_nil; lia). simpl.
    by rewrite len_nil, Z.sub_0_r, Hstep.
  - rewrite slice_spec by lia. simpl.
    set (t := Z.min (len c - skip_of idx) (n - pos idx)).
    replace (skip_of idx + t - skip_of idx) with t by lia.
    rewrite len_app, len_done, len_take, len_drop by lia.
    replace (Z.min t _) with t by lia.
    destruct (Z.ltb_spec (skip_of idx + t) cs), (Z.ltb_spec (pos idx + t) n);
      cbn [andb]; f_equal; rewrite <-?app_assoc; f_equal.
    1: { rewrite vec_resize_zeros by (rewrite len_drop; lia). f_equal.
         - apply take_ge. rewrite length_drop. unfold len in *. lia.
         - f_equal. rewrite len_drop; lia. }
    all: rewrite vec_resize_take by (rewrite len_drop; lia); f_equal; lia.
Qed.

Lemma read_rows_spec rows next last :
  start <= next → last < 2 ^ 64 →
  StronglySorted (λ a b : Z * bytes, a.1 < b.1) rows →
  (∀ j c, (j, c) ∈ rows → next <= j <= last ∧ fs_data d !! (ino, j) = Some c) →
  (∀ j c, next <= j <= last → fs_data d !! (ino, j) = Some c → (j, c) ∈ rows) →
  ∃ next', start <= next' ∧ next <= next' ∧
    read_rows cs n start sko rows next (done_to next) = Some (done_to next') ∧
    ∀ j, next' <= j <= last → fs_data d !! (ino, j) = None.
Proof.
  revert next. induction rows as [|[idx c] rows IH]; intros next Hnext Hlast Hsort Hin Hall.
  { exists next. split_and!; [done..|]. intros j Hj.
    destruct (fs_data d !! (ino, j)) eqn:Hj'; [|done].
    apply Hall in Hj'; [|done]. by apply elem_of_nil in Hj'. }
  apply StronglySorted_inv in Hsort as [Hsort Hlt]. rewrite Forall_forall in Hlt.
  destruct (Hin idx c) as [Hidx Hc]; [left|].
  destruct (IH (idx + 1)) as (next' & ? & ? & Hread & Hnone); [lia|done|done|..|].
  { intros j c' Hj. specialize (Hlt _ Hj). simpl in Hlt.
    destruct (Hin j c'); [by right|]. split; [lia|done]. }
  { intros j c' Hj Hj'. apply Hall in Hj'; [|lia].
    apply elem_of_cons in Hj' as [[= -> ->]|]; [lia|done]. }
  exists next'. split_and!; [lia..| |done]. simpl.
  assert (Hu : as_u64 idx = idx).
  { apply as_u64_id. unfold in_u64. pose proof (Z.div_pos off cs). lia. }
  assert (Hgap : (fill_gap (Z.to_nat (idx - next)) cs n start sko idx next
                    (done_to next)).2 = done_to idx).
  { apply fill_gap_spec; [lia..|]. intros j Hj.
    destruct (fs_data d !! (ino, j)) as [c'|] eqn:Hj'; [|done].
    apply Hall in Hj'; [|lia]. apply elem_of_cons in Hj' as [[= -> ->]|Hj']; [lia|].
    specialize (Hlt _ Hj'). simpl in Hlt. lia. }
  rewrite Hu. destruct (fill_gap _ _ _ _ _ _ _ _) as [x result]. simpl in Hgap.
  rewrite Hgap, append_chunk_spec by (done || lia). exact Hread.
Qed.
End Read.

(** Reading the byte string is reading its bytes. *)
Lemma spec_read_contents cs d ino off n :
  0 <= off → 0 <= n → 0 <= fsize d ino →
  FileSpec.read (contents cs d ino) off n =
    fbytes cs d ino off (Z.max 0 (Z.min n (fsize d ino - off))).
Proof.
  intros Hoff Hn Hsize. unfold FileSpec.read, contents.
  apply fbytes_ext.
  { rewrite len_take, len_drop, len_fbytes by lia. lia. }
  intros k Hk. rewrite lookup_take_lt, lookup_drop by lia.
  rewrite lookup_fbytes by lia. do 2 f_equal. lia.
Qed.

Lemma spec_write_new data : FileSpec.write [] 0 data = data.
Proof.
  unfold FileSpec.write. change (len (A:=byte) []) with 0. simpl.
  unfold FileSpec.truncate, vec_resize. unfold len. rewrite drop_ge; [by rewrite app_nil_r|].
  rewrite length_resize. lia.
Qed.

(** The tail that no chunk covers reads as zeros. *)
Lemma done_tail cs d ino off n next last :
  0 < cs → 0 <= off → 0 <= n → off / cs <= next → last = (off + n - 1) / cs →
  (∀ j, next <= j <= last → fs_data d !! (ino, j) = None) →
  (let r := fbytes cs d ino off (pos cs off n next) in
   if len r <? n then vec_resize r n zero_byte else r) = fbytes cs d ino off n.
Proof.
  intros Hcs Hoff Hn Hnext Hlast Hgap. cbv zeta.
  pose proof (pos_step cs off n Hcs Hn next Hnext) as (Hp & Hs & _ & Hoffset).
  rewrite len_fbytes by lia. destruct (Z.ltb_spec (pos cs off n next) n) as [Hlt|].
  - rewrite vec_resize_zeros by (rewrite len_fbytes; lia).
    rewrite len_fbytes by lia.
    replace n with (pos cs off n next + (n - pos cs off n next)) at 4 by lia.
    rewrite fbytes_app by lia. f_equal. symmetry. apply fbytes_gap; [lia..|].
    intros j Hj. apply Hgap. subst last. rewrite Hoffset in Hj by done.
    replace (off + n - 1) with (off + pos cs off n next + (n - pos cs off n next) - 1)
      by lia.
    split; [|by rewrite Hoffset by done; apply Hj].
    etrans; [|apply Hj]. apply Z.div_le_lower_bound; lia.
  - by replace (pos cs off n next) with n by lia.
Qed.

Lemma pread_run {C} cs ino off n (w : World Db C) :
  0 < cs → chunks_ok cs (w_db w) → faultless w → 0 <= off → 0 <= n →
  pread (mkFile ino cs) off n w =
    (Ok (FileSpec.read (contents cs (w_db w) ino) off n), w).
Proof.
  intros Hcs Hok Hw Hoff Hn. pose proof (fsize_range _ _ ino Hok) as Hsize.
  pose proof (row_size_fsize _ _ ino Hok) as Hrow.
  rewrite spec_read_contents by lia.
  destruct w as [d c fs clk t]. unfold faultless in Hw. simpl in *. subst fs.
  unfold pread. cbn [f_ino f_chunk_size]. run. rewrite Hrow.
  destruct (Z.leb_spec (fsize d ino) off) as [Hend|Hlt]; run.
  { by rewrite Z.max_l, fbytes_0 by lia. }
  set (m := Z.min n (fsize d ino - off)). unfold u64_add, saturating_sub.
  rewrite as_u64_id by (unfold in_u64; lia).
  destruct (Z.eqb_spec cs 0); [lia|]. run.
  assert (Hdiv : 0 <= off / cs < 2 ^ 63).
  { split; [by apply Z.div_pos|]. apply Z.div_lt_upper_bound; nia. }
  assert (Hdiv2 : 0 <= Z.max 0 (off + m - 1) / cs < 2 ^ 63).
  { split; [apply Z.div_pos; lia|]. apply Z.div_lt_upper_bound; nia. }
  rewrite !as_i64_id by (unfold in_i64; lia).
  unfold vec_with_capacity. destruct (Z.ltb_spec m (2 ^ 63)); [|lia]. run.
  replace (Z.max 0 m) with m by lia.
  set (last := Z.max 0 (off + m - 1) / cs) in *.
  destruct (read_rows_spec cs d ino off m Hcs Hoff ltac:(lia)
    (λ idx ch Hc, proj1 (proj2 (chunk_ok _ _ Hok _ _ _ Hc)))
    (sel_chunks ino (off / cs) last d) (off / cs) last) as (next' & Hn1 & _ & Hread & Hgap).
  all: try lia.
  - apply sel_chunks_sorted.
  - intros j ch. rewrite sel_chunks_elem. tauto.
  - intros j ch Hj Hlk. by apply sel_chunks_elem.
  - rewrite pos_start, fbytes_0 in Hread by lia. rewrite Hread. run.
    destruct (decide (m = 0)) as [Hm0|Hm0].
    + assert (Hp : pos cs off m next' = 0) by (unfold pos; lia).
      rewrite Hp, Hm0, !fbytes_0. done.
    + f_equal. f_equal.
      apply (done_tail cs d ino off m next' last); [lia..| |done].
      unfold last. by rewrite Z.max_r by lia.
Qed.

(** ** Writing *)

Lemma fbyte_rep_chunk cs d ino idx c i :
  fbyte cs (rep_chunk ino idx c d) ino i =
    if decide (i / cs = idx) then default zero_byte (c !! Z.to_nat (i mod cs))
    else fbyte cs d ino i.
Proof.
  unfold fbyte, rep_chunk. cbn [fs_data set_data].
  destruct (decide (i / cs = idx)) as [->|Hne]; [by rewrite lookup_insert_eq|].
  by rewrite lookup_insert_ne by congruence.
Qed.

(** [c'] is chunk [c] with [src] written at offset [o]. *)
Record chunk_merge (cs : Z) (c : bytes) (o : Z) (src c' : bytes) : Prop := {
  cm_len : len c' <= cs ∧ len c' <= Z.max (len c) (o + len src);
  cm_byte j : 0 <= j < cs →
    default zero_byte (c' !! Z.to_nat j) =
      if (o <=? j) && (j <? o + len src)
      then default zero_byte (src !! Z.to_nat (j - o))
      else default zero_byte (c !! Z.to_nat j)
}.

Lemma chunk_merge_full cs c src : len src = cs → chunk_merge cs c 0 src src.
Proof.
  intros Hlen. split; [lia|]. intros j Hj. rewrite Z.sub_0_r.
  case_bool; done || lia.
Qed.

Lemma chunk_merge_partial cs c o src :
  0 <= o → len c <= cs → o + len src <= cs →
  let ext := if len c <? o + len src then vec_resize c (o + len src) zero_byte else c in
  ∃ c', copy_at ext o src = Some c' ∧ chunk_merge cs c o src c'.
Proof.
  intros Ho Hc Hsrc ext. pose proof (len_nonneg src).
  assert (Hext : len ext = Z.max (len c) (o + len src) ∧
            ∀ j : nat, default zero_byte (ext !! j) = default zero_byte (c !! j)).
  { unfold ext. destruct (Z.ltb_spec (len c) (o + len src)).
    - split; [rewrite len_vec_resize; lia|]. intros j. unfold vec_resize.
      destruct (decide (j < Z.to_nat (o + len src))%nat).
      + by rewrite lookup_resize_default.
      + rewrite lookup_resize_old, lookup_ge_None_2 by (unfold len in *; lia). done.
    - split; [lia|done]. }
  destruct Hext as [Hlen Hbytes].
  rewrite copy_at_spec by lia. eexists. split; [done|]. split.
  { rewrite !len_app, len_take, len_drop by lia. lia. }
  intros j Hj. destruct (Z.leb_spec o j); cbn [andb].
  - rewrite lookup_app_r by (rewrite length_take; lia).
    rewrite length_take_le by (unfold len in *; lia).
    destruct (Z.ltb_spec j (o + len src)).
    + rewrite lookup_app_l by (unfold len in *; lia). do 2 f_equal. lia.
    + rewrite lookup_app_r, lookup_drop, <-Hbytes by (unfold len in *; lia).
      do 2 f_equal. unfold len in *. lia.
  - rewrite lookup_app_l by (rewrite length_take; unfold len in *; lia).
    rewrite lookup_take_lt by lia. apply Hbytes.
Qed.

(** The state of the tables when the first [k] bytes of [data] are written. *)
Record written (cs : Z) (d0 d : Db) (ino off : Z) (data : bytes) (k : Z) : Prop := {
  wr_tables : d = set_data (fs_data d) d0;
  wr_other ino' idx : ino' ≠ ino → fs_data d !! (ino', idx) = fs_data d0 !! (ino', idx);
  wr_byte i : 0 <= i →
    fbyte cs d ino i =
      if (off <=? i) && (i <? off + k)
      then default zero_byte (data !! Z.to_nat (i - off)) else fbyte cs d0 ino i;
  wr_chunk idx c : fs_data d !! (ino, idx) = Some c →
    0 <= idx ∧ len c <= cs ∧ idx * cs + len c <= Z.max (fsize d0 ino) (off + k)
}.

Lemma written_0 cs d ino off data :
  chunks_ok cs d → written cs d d ino off data 0.
Proof.
  intros Hok. split.
  - by destruct d.
  - done.
  - intros i _. case_bool; done || lia.
  - intros idx c Hc. apply (chunk_ok _ _ Hok) in Hc. lia.
Qed.

Lemma written_step cs d0 d ino off data k src c' :
  0 < cs → 0 <= off → 0 <= k →
  written cs d0 d ino off data k →
  let idx := (off + k) / cs in
  let o := (off + k) mod cs in
  chunk_merge cs (default [] (fs_data d !! (ino, idx))) o src c' →
  src = take (Z.to_nat (len src)) (drop (Z.to_nat k) data) →
  o + len src <= cs →
  written cs d0 (rep_chunk ino idx c' d) ino off data (k + len src).
Proof.
  intros Hcs Hoff Hk [Htab Hother Hbyte Hchunk] idx o [[Hlen1 Hlen2] Hmerge] Hsrc Hfit.
  pose proof (Z.div_mod (off + k) cs ltac:(lia)) as Hdm.
  pose proof (Z.mod_pos_bound (off + k) cs Hcs) as Hmod.
  fold idx o in Hdm, Hmod. pose proof (len_nonneg src).
  assert (0 <= idx) by (apply Z.div_pos; lia). clearbody idx o. split.
  - rewrite Htab at 1. by destruct d0.
  - intros ino' idx' Hne. simpl. rewrite lookup_insert_ne by congruence. by apply Hother.
  - intros i Hi. rewrite fbyte_rep_chunk, Hbyte by done.
    pose proof (Z.div_mod i cs ltac:(lia)) as Him.
    pose proof (Z.mod_pos_bound i cs Hcs) as Himod.
    destruct (decide (i / cs = idx)) as [Hi'|Hi'].
    + rewrite Hmerge by done. rewrite Hi' in Him.
      assert (Hold : default zero_byte
                (default [] (fs_data d !! (ino, idx)) !! Z.to_nat (i mod cs)) =
                fbyte cs d ino i) by (unfold fbyte; by rewrite Hi').
      rewrite Hold, Hbyte by done.
      destruct (Z.leb_spec o (i mod cs)), (Z.ltb_spec (i mod cs) (o + len src));
        cbn [andb]; case_bool; try lia; try done.
      rewrite Hsrc, lookup_take_lt, lookup_drop by lia. do 2 f_equal. lia.
    + assert (i < off + k ∨ off + k + len src <= i).
      { destruct (Z.lt_total (i / cs) idx) as [Hlt|[?|Hlt]]; [left|done|right]; nia. }
      case_bool; try lia; done.
  - intros idx' c Hc. simpl in Hc. rewrite lookup_insert in Hc. case_decide as Heq.
    + injection Heq as <-. injection Hc as <-.
      destruct (fs_data d !! (ino, idx)) as [c0|] eqn:Hc0; simpl in *.
      * apply Hchunk in Hc0. lia.
      * rewrite len_nil in *. lia.
    + apply Hchunk in Hc. lia.
Qed.

Lemma written_chunk_le cs d0 d ino off data k idx :
  0 < cs → written cs d0 d ino off data k →
  len (default [] (fs_data d !! (ino, idx))) <= cs.
Proof.
  intros Hcs Hwr. destruct (fs_data d !! (ino, idx)) eqn:Hc; simpl.
  - apply (wr_chunk _ _ _ _ _ _ _ Hwr) in Hc. lia.
  - rewrite len_nil. lia.
Qed.

Lemma write_loop_run {C} cs d0 ino off data fuel k (w : World Db C) :
  0 < cs → 0 <= off → off + len data < 2 ^ 63 → faultless w →
  0 <= k → len data - k <= Z.of_nat fuel →
  written cs d0 (w_db w) ino off data k →
  ∃ d', write_loop fuel (mkFile ino cs) off data k w = (Ok tt, set_db d' w) ∧
        written cs d0 d' ino off data (Z.max k (len data)).
Proof.
  intros Hcs Hoff Hmax. revert k w. induction fuel as [|fuel IH];
    intros k [d c fs clk t] Hw Hk Hfuel Hwr; unfold faultless in Hw; simpl in Hw; subst fs.
  { exists d. split; [done|]. by rewrite Z.max_l by lia. }
  cbn [write_loop f_chunk_size f_ino]. destruct (Z.ltb_spec k (len data)) as [Hlt|Hge].
  2: { exists d. split; [done|]. by rewrite Z.max_l by lia. }
  unfold u64_add. rewrite as_u64_id by (unfold in_u64; lia).
  run. destruct (Z.eqb_spec cs 0); [lia|]. run.
  assert (Hdiv : 0 <= (off + k) / cs < 2 ^ 63).
  { split; [apply Z.div_pos; lia|]. apply Z.div_lt_upper_bound; nia. }
  rewrite as_i64_id by (unfold in_i64; lia).
  pose proof (Z.mod_pos_bound (off + k) cs Hcs) as Hmod. cbn [w_db] in Hwr.
  set (o := (off + k) mod cs) in *. set (idx := (off + k) / cs) in *.
  set (tw := Z.min (cs - o) (len data - k)).
  set (src := take (Z.to_nat tw) (drop (Z.to_nat k) data)).
  assert (Hsl : slice data k (k + tw) = Some src).
  { rewrite slice_spec by lia. unfold src. by replace (k + tw - k) with tw by lia. }
  assert (Hsrc : len src = tw) by (unfold src; rewrite len_take, len_drop; lia).
  rewrite Hsl.
  (* the new chunk, in both branches *)
  assert (Hgo : ∀ c', chunk_merge cs (default [] (fs_data d !! (ino, idx))) o src c' →
    ∃ d', write_loop fuel (mkFile ino cs) off data (k + tw)
            (mkWorld (rep_chunk ino idx c' d) c [] clk t) =
            (Ok tt, mkWorld d' c [] clk t) ∧
          written cs d0 d' ino off data (Z.max k (len data))).
  { intros c' Hm.
    assert (Hnext : written cs d0 (rep_chunk ino idx c' d) ino off data (k + tw)).
    { rewrite <-Hsrc. apply written_step; [done..| |lia].
      by rewrite Hsrc. }
    destruct (IH (k + tw) (mkWorld (rep_chunk ino idx c' d) c [] clk t))
      as (d' & Hrun & Hwr'); [done|lia..|done|].
    exists d'. split; [exact Hrun|]. by replace (Z.max k (len data))
      with (Z.max (k + tw) (len data)) by lia. }
  destruct (Z.eqb_spec tw cs) as [Hfull|Hpart]; cbn [negb]; run.
  - replace o with 0 in Hgo by lia. apply Hgo, chunk_merge_full. lia.
  - destruct (chunk_merge_partial cs (default [] (fs_data d !! (ino, idx))) o src)
      as (c' & Hcopy & Hm); [lia|by eapply written_chunk_le|lia|].
    rewrite Hsrc in Hcopy. unfold sel_chunk. rewrite Hcopy. run. by apply Hgo.
Qed.

(** The size after a write, and the bytes. *)
Lemma contents_written cs d0 d ino off data :
  0 < cs → 0 <= off → chunks_ok cs d0 →
  written cs d0 d ino off data (len data) →
  ∀ d', fs_data d' = fs_data d →
    fsize d' ino = Z.max (fsize d0 ino) (off + len data) →
  contents cs d' ino = FileSpec.write (contents cs d0 ino) off data.
Proof.
  intros Hcs Hoff Hok Hwr d' Hdata Hsize.
  pose proof (fsize_range _ _ ino Hok) as Hr. pose proof (len_nonneg data).
  unfold contents at 1. rewrite Hsize. symmetry.
  set (n := Z.max (fsize d0 ino) (off + len data)).
  assert (Hlen0 : len (contents cs d0 ino) = fsize d0 ino) by (apply len_fbytes; lia).
  unfold FileSpec.write, FileSpec.truncate. rewrite Hlen0. fold n.
  assert (Hold : ∀ i, 0 <= i < n →
    vec_resize (contents cs d0 ino) n zero_byte !! Z.to_nat i = Some (fbyte cs d0 ino i)).
  { intros i Hi. unfold vec_resize. rewrite lookup_resize_default by lia. f_equal.
    destruct (decide (i < fsize d0 ino)) as [Hlt|Hge].
    - unfold contents. rewrite lookup_fbytes by lia. simpl. f_equal. lia.
    - rewrite lookup_ge_None_2 by (unfold len in *; lia). simpl. unfold fbyte.
      destruct (fs_data d0 !! (ino, i / cs)) as [c|] eqn:Hc; [|done]. simpl.
      apply (chunk_ok _ _ Hok) in Hc as (_ & _ & Hend).
      rewrite lookup_ge_None_2; [done|].
      pose proof (Z.div_mod i cs ltac:(lia)). unfold len in *. lia. }
  assert (Hn : len (vec_resize (contents cs d0 ino) n zero_byte) = n)
    by (apply len_vec_resize; lia).
  apply fbytes_ext.
  { rewrite !len_app, len_take, len_drop by lia. lia. }
  intros i Hi. rewrite Z.add_0_l.
  assert (Hb : fbyte cs d' ino i = fbyte cs d ino i) by (unfold fbyte; by rewrite Hdata).
  rewrite Hb, (wr_byte _ _ _ _ _ _ _ Hwr) by lia.
  assert (Ht : length (take (Z.to_nat off) (vec_resize (contents cs d0 ino) n zero_byte))
               = Z.to_nat off) by (rewrite length_take; unfold len in *; lia).
  destruct (Z.leb_spec off i); cbn [andb].
  - rewrite lookup_app_r, Ht by lia. destruct (Z.ltb_spec i (off + len data)).
    + rewrite lookup_app_l by (unfold len in *; lia).
      replace (Z.to_nat i - Z.to_nat off)%nat with (Z.to_nat (i - off)) by lia.
      destruct (lookup_lt_is_Some_2 data (Z.to_nat (i - off))) as [b Hb'];
        [unfold len in *; lia|]. by rewrite Hb'.
    + rewrite lookup_app_r, lookup_drop by (unfold len in *; lia).
      rewrite <-Hold by lia. f_equal. unfold len in *. lia.
  - rewrite lookup_app_l, lookup_take_lt by lia. apply Hold. lia.
Qed.

(** ** What an operation on one file leaves alone *)

(** [d'] differs from [d] only in the chunks and the inode row of [ino], and
    that row still exists. *)
Record only_file (ino : Z) (d d' : Db) : Prop := {
  of_config : fs_config d' = fs_config d;
  of_seq : inode_seq d' = inode_seq d;
  of_dentry : fs_dentry d' = fs_dentry d;
  of_symlink : fs_symlink d' = fs_symlink d;
  of_inode ino' : ino' ≠ ino → fs_inode d' !! ino' = fs_inode d !! ino';
  of_data ino' idx : ino' ≠ ino → fs_data d' !! (ino', idx) = fs_data d !! (ino', idx)
}.

Lemma only_file_refl ino d : only_file ino d d.
Proof. by split. Qed.

Lemma only_file_trans ino d d1 d2 : only_file ino d d1 → only_file ino d1 d2 → only_file ino d d2.
Proof.
  intros [A1 A2 A3 A4 A5 A6] [B1 B2 B3 B4 B5 B6]. split; [congruence..| |]; intros.
  - by rewrite B5, A5.
  - by rewrite B6, A6.
Qed.

Lemma only_file_contents cs ino ino' d d' :
  only_file ino d d' → ino' ≠ ino → contents cs d' ino' = contents cs d ino'.
Proof.
  intros Hof Hne. unfold contents, fsize. rewrite (of_inode _ _ _ Hof) by done.
  apply fbytes_eq. intros i _. unfold fbyte. by rewrite (of_data _ _ _ Hof).
Qed.

(** The table of chunks stays well formed when the size of [ino] becomes [n]
    and its chunks fit. *)
Lemma chunks_ok_resized cs ino d d' row n :
  chunks_ok cs d → only_file ino d d' →
  fs_inode d' !! ino = Some row → i_size row = n → 0 <= n < 2 ^ 63 →
  (∀ idx c, fs_data d' !! (ino, idx) = Some c →
     0 <= idx ∧ len c <= cs ∧ idx * cs + len c <= n) →
  chunks_ok cs d'.
Proof.
  intros Hok Hof Hrow Hn Hr Hch. split.
  - intros ino' i Hi. destruct (decide (ino' = ino)) as [->|Hne].
    + by simplify_eq.
    + rewrite (of_inode _ _ _ Hof) in Hi by done. by eapply sizes_ok.
  - intros ino' idx c Hc. destruct (decide (ino' = ino)) as [->|Hne].
    + unfold fsize. rewrite Hrow, Hn. by apply Hch.
    + rewrite (of_data _ _ _ Hof) in Hc by done. unfold fsize.
      rewrite (of_inode _ _ _ Hof) by done. by apply (chunk_ok _ _ Hok) in Hc.
Qed.

(** The row [o] is [row] but for its size and its times. *)
Definition same_links (row : Inode) (o : option Inode) : Prop :=
  ∃ row', o = Some row' ∧ i_mode row' = i_mode row ∧ i_nlink row' = i_nlink row ∧
    i_uid row' = i_uid row ∧ i_gid row' = i_gid row ∧ i_rdev row' = i_rdev row.

Lemma fsize_row d ino row : fs_inode d !! ino = Some row → fsize d ino = i_size row.
Proof. intros H. unfold fsize. by rewrite H. Qed.

Lemma pwrite_run {C} cs ino off data row (w : World Db C) :
  0 < cs → chunks_ok cs (w_db w) → healthy w →
  fs_inode (w_db w) !! ino = Some row →
  0 <= off → off + len data < 2 ^ 63 →
  ∃ w', pwrite (mkFile ino cs) off data w = (Ok tt, w') ∧
    healthy w' ∧ only_file ino (w_db w) (w_db w') ∧
    chunks_ok cs (w_db w') ∧ w_mem w' = w_mem w ∧
    same_links row (fs_inode (w_db w') !! ino) ∧
    contents cs (w_db w') ino =
      match data with [] => contents cs (w_db w) ino
      | _ => FileSpec.write (contents cs (w_db w) ino) off data end.
Proof.
  intros Hcs Hok Hw Hrow Hoff Hmax.
  destruct data as [|b data']; [exists w; split_and!; try done; by exists row|]. set (data := b :: data') in *.
  destruct w as [d c fs clk0 t]. destruct Hw as [Hw [clk Hclk]]. unfold faultless in Hw.
  cbn [w_faults w_clock] in *. subst fs clk0.
  cbn [w_db] in *. unfold pwrite. subst data. cbn [write_data_at_offset_with_conn].
  set (data := b :: data') in *.
  edestruct (write_loop_run cs d ino off data (length data) 0 (mkWorld d c [] (ticks clk) t))
    as (d1 & Hloop & Hwr); [lia|lia|lia|done|lia|unfold len in *; lia|
                            by apply written_0|].
  rewrite Z.max_r in Hwr by apply len_nonneg.
  cbn [f_ino]. pose proof (row_size_fsize _ _ ino Hok) as Hrs.
  pose proof (fsize_range _ _ ino Hok) as Hfs. pose proof (len_nonneg data).
  assert (Hin : fs_inode d1 = fs_inode d) by (rewrite (wr_tables _ _ _ _ _ _ _ Hwr); done).
  run. cbn [set_db w_mem w_faults w_clock w_tick] in Hloop. rewrite Hloop. run.
  rewrite Hrs. unfold u64_add. rewrite as_u64_id, as_i64_id
    by (unfold in_u64, in_i64; lia).
  eexists. split; [done|]. split; [by split; [|exists clk]|]. cbn [w_db].
  set (n := Z.max (fsize d ino) (off + len data)). set (t0 := clk t).
  set (d' := upd_inode ino (set_mtime t0 ∘ set_size n) d1).
  assert (Hrow' : fs_inode d' !! ino = Some (set_mtime t0 (set_size n row))).
  { unfold d', upd_inode. cbn [fs_inode set_inodes].
    by rewrite lookup_alter_eq, Hin, Hrow. }
  assert (Hof : only_file ino d d').
  { unfold d', upd_inode. pose proof (wr_tables _ _ _ _ _ _ _ Hwr) as Htab.
    split; try (rewrite Htab; done).
    - intros ino' Hne. cbn [fs_inode set_inodes]. by rewrite lookup_alter_ne, Hin.
    - intros ino' idx Hne. cbn [fs_data set_inodes].
      by apply (wr_other _ _ _ _ _ _ _ Hwr). }
  split_and!.
  - exact Hof.
  - eapply (chunks_ok_resized _ ino d d' _ n); [done|done|done|done|lia|].
    intros idx ch Hch. by apply (wr_chunk _ _ _ _ _ _ _ Hwr) in Hch.
  - done.
  - by rewrite Hrow'; eexists.
  - eapply contents_written; [done..|]. by rewrite (fsize_row _ _ _ Hrow').
Qed.

(** ** Truncating *)

(** The chunk table of [ino] cut (or left) at [n] bytes. *)
Record cut (cs : Z) (d d1 : Db) (ino n : Z) : Prop := {
  cut_tables : d1 = set_data (fs_data d1) d;
  cut_other ino' idx : ino' ≠ ino → fs_data d1 !! (ino', idx) = fs_data d !! (ino', idx);
  cut_byte i : 0 <= i →
    fbyte cs d1 ino i = if i <? n then fbyte cs d ino i else zero_byte;
  cut_chunk idx c : fs_data d1 !! (ino, idx) = Some c →
    0 <= idx ∧ len c <= cs ∧ idx * cs + len c <= n
}.

(** Past the size of a file there is nothing. *)
Lemma fbyte_past_end cs d ino i :
  0 < cs → chunks_ok cs d → fsize d ino <= i → fbyte cs d ino i = zero_byte.
Proof.
  intros Hcs Hok Hi. unfold fbyte.
  destruct (fs_data d !! (ino, i / cs)) as [c|] eqn:Hc; [|done]. simpl.
  apply (chunk_ok _ _ Hok) in Hc as (_ & _ & Hend).
  rewrite lookup_ge_None_2; [done|].
  pose proof (Z.div_mod i cs ltac:(lia)). unfold len in *. lia.
Qed.

Lemma cut_extend cs d ino n :
  0 < cs → chunks_ok cs d → fsize d ino <= n → cut cs d d ino n.
Proof.
  intros Hcs Hok Hn. split; [by destruct d|done|..].
  - intros i Hi. destruct (Z.ltb_spec i n); [done|]. apply fbyte_past_end; [done..|lia].
  - intros idx c Hc. apply (chunk_ok _ _ Hok) in Hc. lia.
Qed.

Lemma cut_zero cs d ino : cut cs d (del_data ino d) ino 0.
Proof.
  unfold del_data. split.
  - by destruct d.
  - intros ino' idx Hne. cbn [fs_data set_data].
    apply option_eq. intros c. rewrite map_lookup_filter_Some. simpl. naive_solver.
  - intros i Hi. case_bool; [lia|]. unfold fbyte. cbn [fs_data set_data].
    by rewrite map_lookup_filter_None_2 by naive_solver.
  - intros idx c. cbn [fs_data set_data]. rewrite map_lookup_filter_Some. naive_solver.
Qed.

Lemma lookup_del_after ino last d ino' idx :
  fs_data (del_chunks_after ino last d) !! (ino', idx) =
    if decide (ino' = ino ∧ last < idx) then None else fs_data d !! (ino', idx).
Proof.
  unfold del_chunks_after. cbn [fs_data set_data]. case_decide as Hd.
  - apply map_lookup_filter_None_2. naive_solver.
  - apply option_eq. intros c. rewrite map_lookup_filter_Some. simpl. naive_solver.
Qed.

(** Shrinking: delete the chunks after the last one, cut the last one. *)
Lemma cut_shrink cs d d1 ino n :
  0 < cs → chunks_ok cs d → 0 < n →
  let last := (n - 1) / cs in
  let o := n mod cs in
  d1 = set_data (fs_data d1) d →
  (∀ ino' idx, (ino', idx) ≠ (ino, last) →
     fs_data d1 !! (ino', idx) = fs_data (del_chunks_after ino last d) !! (ino', idx)) →
  (fs_data d1 !! (ino, last) =
     if 0 <? o then take (Z.to_nat o) <$> fs_data d !! (ino, last)
     else fs_data d !! (ino, last)) →
  cut cs d d1 ino n.
Proof.
  intros Hcs Hok Hn last o Htab Hlk Hlast.
  assert (Hln : last * cs < n <= (last + 1) * cs ∧ 0 <= o < cs ∧
            (o = 0 → n = (last + 1) * cs) ∧ (0 < o → n = last * cs + o)).
  { pose proof (Z.div_mod (n - 1) cs ltac:(lia)).
    pose proof (Z.mod_pos_bound (n - 1) cs Hcs).
    pose proof (Z.div_mod n cs ltac:(lia)). pose proof (Z.mod_pos_bound n cs Hcs).
    fold last in H |- *. fold o in H1, H2.
    assert (n / cs = last ∨ n / cs = last + 1) by nia. nia. }
  destruct Hln as (Hln & Ho & Ho0 & Ho1). clearbody last o.
  assert (Hlt : ∀ idx, idx ≠ last → fs_data d1 !! (ino, idx) =
            if decide (last < idx) then None else fs_data d !! (ino, idx)).
  { intros idx Hne. rewrite Hlk, lookup_del_after by congruence.
    repeat case_decide; naive_solver. }
  split; [done|..].
  - intros ino' idx Hne. rewrite Hlk, lookup_del_after by congruence.
    by rewrite decide_False by naive_solver.
  - intros i Hi. pose proof (Z.div_mod i cs ltac:(lia)) as Hdm.
    pose proof (Z.mod_pos_bound i cs Hcs) as Hm. unfold fbyte.
    destruct (decide (i / cs = last)) as [Hl|Hl].
    + rewrite Hl, Hlast in *. destruct (Z.ltb_spec 0 o).
      * destruct (fs_data d !! (ino, last)) as [c|]; simpl; [|by destruct (i <? n)].
        destruct (Z.ltb_spec i n).
        -- rewrite lookup_take_lt by lia. done.
        -- by rewrite lookup_take_ge by lia.
      * destruct (Z.ltb_spec i n); [done|]. lia.
    + rewrite Hlt by done. case_decide.
      * destruct (Z.ltb_spec i n); [|done]. nia.
      * destruct (Z.ltb_spec i n); [done|]. nia.
  - intros idx c Hc. destruct (decide (idx = last)) as [->|Hl].
    + rewrite Hlast in Hc. destruct (Z.ltb_spec 0 o).
      * apply fmap_Some in Hc as (c0 & Hc0 & ->).
        apply (chunk_ok _ _ Hok) in Hc0. rewrite len_take by lia. lia.
      * apply (chunk_ok _ _ Hok) in Hc. lia.
    + rewrite Hlt in Hc by done. case_decide; [done|].
      apply (chunk_ok _ _ Hok) in Hc. nia.
Qed.

Lemma contents_cut cs d d1 d' ino n :
  0 < cs → chunks_ok cs d → 0 <= n → cut cs d d1 ino n →
  fs_data d' = fs_data d1 → fsize d' ino = n →
  contents cs d' ino = FileSpec.truncate (contents cs d ino) n.
Proof.
  intros Hcs Hok Hn Hcut Hdata Hsize. symmetry. unfold contents at 2. rewrite Hsize.
  pose proof (fsize_range _ _ ino Hok) as Hr.
  apply fbytes_ext; [by apply len_vec_resize|].
  intros i Hi. unfold FileSpec.truncate, vec_resize.
  rewrite lookup_resize_default by lia. f_equal. rewrite Z.add_0_l.
  assert (Hb : fbyte cs d' ino i = fbyte cs d1 ino i) by (unfold fbyte; by rewrite Hdata).
  rewrite Hb, (cut_byte _ _ _ _ _ Hcut) by lia. destruct (Z.ltb_spec i n); [|lia].
  destruct (decide (i < fsize d ino)).
  - unfold contents. rewrite lookup_fbytes by lia. simpl. f_equal. lia.
  - rewrite lookup_ge_None_2 by (unfold contents; rewrite length_fbytes; lia).
    simpl. symmetry. apply fbyte_past_end; [done..|lia].
Qed.

(** The part of [truncate] that changes chunks. *)
Lemma truncate_chunks_run {C} cs ino n d (c : C) clk t :
  0 < cs → chunks_ok cs d → 0 <= n < 2 ^ 63 →
  ∃ d1, cut cs d d1 ino n ∧
    ∀ B (k : M Db C B),
    ((if n =? 0 then update (del_data ino)
      else if n <? fsize d ino then
        last_chunk_idx ← udiv (n - 1) cs;
        update (del_chunks_after ino (as_i64 last_chunk_idx)) ;;
        offset_in_chunk ← urem n cs;
        if 0 <? offset_in_chunk then
          row ← query (sel_chunk ino (as_i64 last_chunk_idx));
          match row with
          | Some chunk_data =>
              if offset_in_chunk <? len chunk_data then
                update (upd_chunk ino (as_i64 last_chunk_idx)
                          (take (Z.to_nat offset_in_chunk) chunk_data))
              else mret tt
          | None => mret tt
          end
        else mret tt
      else mret tt) ;; k) (mkWorld d c [] clk t) = k (mkWorld d1 c [] clk t).
Proof.
  intros Hcs Hok Hn. destruct (Z.eqb_spec n 0) as [->|Hn0].
  { exists (del_data ino d). split; [apply cut_zero|]. intros B k. by run. }
  destruct (Z.ltb_spec n (fsize d ino)) as [Hlt|Hge].
  2: { exists d. split; [by apply cut_extend|]. intros B k. by run. }
  assert (Hdiv : 0 <= (n - 1) / cs < 2 ^ 63).
  { split; [apply Z.div_pos; lia|]. apply Z.div_lt_upper_bound; nia. }
  set (last := (n - 1) / cs) in *. set (o := n mod cs).
  set (d2 := del_chunks_after ino last d).
  assert (Hd2 : fs_data d2 !! (ino, last) = fs_data d !! (ino, last)).
  { unfold d2. rewrite lookup_del_after. by rewrite decide_False by lia. }
  set (d1 := if 0 <? o then
               match fs_data d !! (ino, last) with
               | Some ch => if o <? len ch
                            then upd_chunk ino last (take (Z.to_nat o) ch) d2 else d2
               | None => d2 end
             else d2).
  exists d1. split.
  - apply cut_shrink; [done|done|lia|..]; fold last o.
    + unfold d1. repeat case_match; by destruct d.
    + intros ino' idx Hne. fold d2. unfold d1.
      repeat case_match; try done. unfold upd_chunk. cbn [fs_data set_data].
      by rewrite lookup_alter_ne by congruence.
    + unfold d1. destruct (0 <? o) eqn:Ho; [|done].
      destruct (fs_data d !! (ino, last)) as [ch|] eqn:Hch; [|done].
      destruct (Z.ltb_spec o (len ch)).
      * unfold upd_chunk. cbn [fs_data set_data]. by rewrite lookup_alter_eq, Hd2.
      * rewrite Hd2. simpl. rewrite take_ge by (unfold len in *; lia). done.
  - intros B k. run. destruct (Z.eqb_spec cs 0); [lia|]. run.
    fold last o. rewrite as_i64_id by (unfold in_i64; lia). fold d2. unfold d1.
    destruct (0 <? o); run; [|done]. unfold sel_chunk. rewrite Hd2.
    destruct (fs_data d !! (ino, last)) as [ch|]; run; [|done].
    destruct (o <? len ch); by run.
Qed.

Lemma truncate_run {C} cs ino n row (w : World Db C) :
  0 < cs → chunks_ok cs (w_db w) → healthy w →
  fs_inode (w_db w) !! ino = Some row → 0 <= n < 2 ^ 63 →
  ∃ w', truncate (mkFile ino cs) n w = (Ok tt, w') ∧
    healthy w' ∧ only_file ino (w_db w) (w_db w') ∧
    chunks_ok cs (w_db w') ∧ w_mem w' = w_mem w ∧
    same_links row (fs_inode (w_db w') !! ino) ∧
    contents cs (w_db w') ino = FileSpec.truncate (contents cs (w_db w) ino) n.
Proof.
  intros Hcs Hok Hw Hrow Hn. destruct w as [d c fs clk0 t].
  destruct Hw as [Hw [clk Hclk]]. unfold faultless in Hw.
  cbn [w_faults w_clock w_db] in *. subst fs clk0.
  pose proof (row_size_fsize _ _ ino Hok) as Hrs.
  destruct (truncate_chunks_run cs ino n d c (ticks clk) t Hcs Hok Hn) as (d1 & Hcut & Hrun).
  pose proof (cut_tables _ _ _ _ _ Hcut) as Htab.
  assert (Hin : fs_inode d1 = fs_inode d) by (by rewrite Htab).
  set (t0 := clk t).
  set (d' := upd_inode ino (set_ctime t0 ∘ set_mtime t0 ∘ set_size n) d1).
  assert (Hrow' : fs_inode d' !! ino =
                  Some (set_ctime t0 (set_mtime t0 (set_size n row)))).
  { unfold d', upd_inode. cbn [fs_inode set_inodes]. by rewrite lookup_alter_eq, Hin, Hrow. }
  assert (Hof : only_file ino d d').
  { unfold d', upd_inode. split; try (rewrite Htab; done).
    - intros ino' Hne. cbn [fs_inode set_inodes]. by rewrite lookup_alter_ne, Hin.
    - intros ino' idx Hne. cbn [fs_data set_inodes].
      by apply (cut_other _ _ _ _ _ Hcut). }
  exists (mkWorld d' c [] (ticks clk) (S t)). split_and!; [|by split; [|exists clk]|exact Hof|..].
  - unfold truncate, transaction. cbn [f_ino f_chunk_size].
    specialize (Hrun unit (t1 ← now; update (upd_inode ino (set_ctime t1 ∘ set_mtime t1 ∘ set_size (as_i64 n))))).
    unfold mbind at 1, M_bind at 1.
    change (get_connection (mkWorld d c [] (ticks clk) t)) with (@Ok unit tt, mkWorld d c [] (ticks clk) t).
    cbv beta iota. unfold mbind at 1, M_bind at 1.
    change (query (sel_inode ino) (mkWorld d c [] (ticks clk) t))
      with (Ok (sel_inode ino d), mkWorld d c [] (ticks clk) t). cbv beta iota zeta.
    rewrite Hrs.
    change (engine_call (mkWorld d c [] (ticks clk) t)) with (@Ok unit tt, mkWorld d c [] (ticks clk) t).
    cbv beta iota. rewrite Hrun. run. rewrite as_i64_id by (unfold in_i64; lia). done.
  - eapply (chunks_ok_resized _ ino d d' _ n); [done|done|done|done|lia|].
    intros idx ch Hch. by apply (cut_chunk _ _ _ _ _ Hcut) in Hch.
  - done.
  - cbn [w_db]. by rewrite Hrow'; eexists.
  - eapply contents_cut; [done|done|lia|done|done|]. exact (fsize_row _ _ _ Hrow').
Qed.

(** ** Behaviour under engine failures *)
Section Failures.
Context {C : Type}.

#[export] Instance pread_readonly f off n : ReadOnly (pread (C:=C) f off n).
Proof. unfold pread. apply _. Qed.
#[export] Instance pread_stops f off n : Stops (pread (C:=C) f off n).
Proof. unfold pread. apply _. Qed.
#[export] Instance write_loop_stops fuel f off data k :
  Stops (write_loop (C:=C) fuel f off data k).
Proof.
  revert k. induction fuel as [|fuel IH]; intros k; cbn [write_loop]; [apply _|].
  destruct (k <? len data); apply _.
Qed.
#[export] Instance pwrite_stops f off data : Stops (pwrite (C:=C) f off data).
Proof. unfold pwrite, write_data_at_offset_with_conn. apply _. Qed.
#[export] Instance pwrite_atomic f off data : Atomic (pwrite (C:=C) f off data).
Proof. unfold pwrite. apply _. Qed.
#[export] Instance truncate_stops f n : Stops (truncate (C:=C) f n).
Proof. unfold truncate. apply _. Qed.
#[export] Instance truncate_atomic f n : Atomic (truncate (C:=C) f n).
Proof. unfold truncate. apply _. Qed.
#[export] Instance fsync_readonly : ReadOnly (fsync (C:=C)).
Proof. unfold fsync. apply _. Qed.
#[export] Instance fstat_readonly f : ReadOnly (fstat (C:=C) f).
Proof. unfold fstat. apply _. Qed.
#[export] Instance write_loop_clock fuel f off data k :
  KeepsClock (write_loop (C:=C) fuel f off data k).
Proof. revert k. induction fuel; intros k; cbn [write_loop]; apply _. Qed.
#[export] Instance pwrite_clock f off data : KeepsClock (pwrite (C:=C) f off data).
Proof. unfold pwrite, write_data_at_offset_with_conn. apply _. Qed.
End Failures.

(** * Properties *)

(** C3: on well-formed tables, [pread] of an open file returns exactly the
    bytes [offset .. offset+size] of the file's contents (cut at the end of the
    file, holes read as zeros), for every schedule of engine failures: it
    either returns those bytes or one of the engine's errors, never panics, and
    never changes the tables. *)
Theorem pread_refines {C} cs ino off n (w : World Db C) :
  0 < cs → chunks_ok cs (w_db w) → 0 <= off → 0 <= n →
  match pread (mkFile ino cs) off n w with
  | (Ok l, w') => l = FileSpec.read (contents cs (w_db w) ino) off n ∧ w_db w' = w_db w
  | (Err e, w') => Some e ∈ w_faults w ∧ w_db w' = w_db w
  | (Panic, _) => False
  end.
Proof.
  intros Hcs Hok Hoff Hn.
  pose proof (pread_run cs ino off n (set_faults [] w) Hcs Hok eq_refl Hoff Hn) as Hrun.
  apply stops_atomic in Hrun; [|apply _..].
  destruct (pread _ _ _ w) as [[l|e|] w']; [|done..]. destruct Hrun as (-> & -> & _). done.
Qed.

(** C4: on well-formed tables, [pwrite] makes the file's contents those of the
    reference write (extended with zeros when the offset is past the end),
    keeps the tables well formed and touches no other file; if it fails, with
    an engine error, the tables are exactly as before; it never panics. *)
Theorem pwrite_refines {C} cs ino off data row (w : World Db C) :
  0 < cs → chunks_ok cs (w_db w) → fs_inode (w_db w) !! ino = Some row →
  0 <= off → off + len data < 2 ^ 63 → clock_ok w →
  match pwrite (mkFile ino cs) off data w with
  | (Ok _, w') =>
      contents cs (w_db w') ino =
        match data with [] => contents cs (w_db w) ino
        | _ => FileSpec.write (contents cs (w_db w) ino) off data end ∧
      only_file ino (w_db w) (w_db w') ∧ chunks_ok cs (w_db w')
  | (Err e, w') => Some e ∈ w_faults w ∧ w_db w' = w_db w
  | (Panic, _) => False
  end.
Proof.
  intros Hcs Hok Hrow Hoff Hmax Hclk.
  destruct (pwrite_run cs ino off data row (set_faults [] w) Hcs Hok (conj eq_refl Hclk) Hrow Hoff Hmax)
    as (w1 & Hrun & _ & Hof & Hok' & _ & _ & Hc).
  apply stops_atomic in Hrun; [|apply _..].
  destruct (pwrite _ _ _ w) as [[u|e|] w']; [|done..]. destruct Hrun as (_ & -> & _). done.
Qed.

(** On well-formed tables, [truncate] of an open file cuts its contents or
    extends them with zeros to the new size, keeps the tables well formed and
    touches no other file; if it fails the tables are exactly as before. *)
Theorem truncate_refines {C} cs ino n row (w : World Db C) :
  0 < cs → chunks_ok cs (w_db w) → fs_inode (w_db w) !! ino = Some row →
  0 <= n < 2 ^ 63 → clock_ok w →
  match truncate (mkFile ino cs) n w with
  | (Ok _, w') =>
      contents cs (w_db w') ino = FileSpec.truncate (contents cs (w_db w) ino) n ∧
      only_file ino (w_db w) (w_db w') ∧ chunks_ok cs (w_db w')
  | (Err e, w') => Some e ∈ w_faults w ∧ w_db w' = w_db w
  | (Panic, _) => False
  end.
Proof.
  intros Hcs Hok Hrow Hn Hclk.
  destruct (truncate_run cs ino n row (set_faults [] w) Hcs Hok (conj eq_refl Hclk) Hrow Hn)
    as (w1 & Hrun & _ & Hof & Hok' & _ & _ & Hc).
  apply stops_atomic in Hrun; [|apply _..].
  destruct (truncate _ _ w) as [[u|e|] w']; [|done..]. destruct Hrun as (_ & -> & _). done.
Qed.
