(* ===== verification/AgentFS.v ===== *)
(** * AgentFS: the inode-based filesystem

    [impl FileSystem for AgentFS] in [sdk/rust/src/filesystem/agentfs.rs]
    (what FUSE and NFS call), the dentry cache, and the helpers it shares with
    the path-based interface.  One definition per operation, statement by
    statement; the state of the handle is the dentry cache. *)
From S2P Require Import Prelude Types Engine Lru Schema FileIO.

Definition ROOT_INO : Z := 1.
Definition DEFAULT_CHUNK_SIZE : Z := 4096.
Definition DENTRY_CACHE_MAX_SIZE : nat := Z.to_nat 10000.

(** [name.len()]: strings are byte strings. *)
Definition strlen (s : string) : Z := Z.of_nat (String.length s).

(** The row an [INSERT INTO fs_inode] creates; columns the statement does not
    name take their defaults ([nlink] 0, [rdev] 0). *)
Definition new_row (mode nlink uid gid size rdev : Z) (t : Z * Z) : Inode :=
  mkInode mode nlink uid gid size t.1 t.1 t.1 rdev t.2 t.2 t.2.

(** The [Stats] that the creating operations return. *)
Definition new_stats (ino mode nlink uid gid size rdev : Z) (t : Z * Z) : Stats :=
  mkStats ino mode nlink uid gid size t.1 t.1 t.1
    (as_u32 t.2) (as_u32 t.2) (as_u32 t.2) rdev.

(** [SET ctime = ?, mtime = ?, ...]: the two timestamps of a changed
    directory. *)
Definition touch (t : Z * Z) : Inode → Inode := set_ctime t ∘ set_mtime t.

Section AgentFS.
Context {E : SqlEngine} {Lru : LruCache (Z * string) Z}.
Context (chunk_size : Z).

Abbreviation Fs := (M Db (lru (Z * string) Z)).

(** ** The dentry cache *)
Definition cache_get (parent_ino : Z) (name : string) : Fs (option Z) :=
  with_mem (lru_get (parent_ino, name)).
Definition cache_insert (parent_ino : Z) (name : string) (child_ino : Z) : Fs unit :=
  with_mem (λ c, (tt, lru_put (parent_ino, name) child_ino c)).
Definition cache_remove (parent_ino : Z) (name : string) : Fs unit :=
  with_mem (λ c, (tt, lru_pop (parent_ino, name) c)).

(** ** Helpers *)

(** The rows of the query are counted; a second row is an error. *)
Definition one_row (rows : list Z) : Fs (option Z) :=
  if 1 <? len rows then fs_err FsError.InvalidPath else mret (last rows).

Definition lookup_child (parent_ino : Z) (name : string) : Fs (option Z) :=
  rows ← query (sel_dentry parent_ino name);
  one_row rows.

Definition get_link_count (ino : Z) : Fs Z :=
  row ← query (sel_inode ino);
  mret (match row with Some r => as_u32 (i_nlink r) | None => 0 end).

Definition getattr_with_conn (ino : Z) : Fs (option Stats) :=
  row ← query (sel_inode ino);
  mret (build_stats_from_row ino <$> row).

(** The cascade that follows the removal of the last link. *)
Definition purge_inode (ino : Z) : Fs unit :=
  update (del_data ino) ;; update (del_symlink ino) ;; update (del_inode ino).

(** ** Reading *)

Definition lookup (parent_ino : Z) (name : string) : Fs (option Stats) :=
  if MAX_NAME_LEN <? strlen name then fs_err FsError.NameTooLong
  else
    get_connection ;;
    if String.eqb name ".." then
      if parent_ino =? ROOT_INO then getattr_with_conn ROOT_INO
      else
        row ← query (sel_parent parent_ino);
        getattr_with_conn (default ROOT_INO row)
    else
      child ← lookup_child parent_ino name;
      match child with
      | None => mret None
      | Some child_ino =>
          row ← query (sel_inode child_ino);
          match row with
          | Some r =>
              cache_insert parent_ino name child_ino ;;
              mret (Some (build_stats_from_row child_ino r))
          | None => mret None
          end
      end.

Definition getattr (ino : Z) : Fs (option Stats) :=
  get_connection ;; getattr_with_conn ino.

Definition readlink (ino : Z) : Fs (option string) :=
  get_connection ;;
  row ← query (sel_inode ino);
  match row with
  | None => mret None
  | Some r =>
      if negb (has_type (as_u32 (i_mode r)) S_IFLNK) then fs_err FsError.NotASymlink
      else query (sel_symlink ino)
  end.

Definition readdir (ino : Z) : Fs (option (list string)) :=
  get_connection ;;
  row ← query (sel_inode ino);
  match row with
  | None => mret None
  | Some r =>
      if negb (has_type (as_u32 (i_mode r)) S_IFDIR) then fs_err FsError.NotADirectory
      else
        rows ← query (sel_children ino);
        mret (Some (filter (λ name, name ≠ "") rows.*1))
  end.

(** The rows of the [JOIN] of [fs_dentry] with [fs_inode], by name. *)
Definition sel_children_plus (ino : Z) (d : Db) : list DirEntry :=
  omap (λ e, (λ r, mkDirEntry e.1 (build_stats_from_row e.2 r)) <$> fs_inode d !! e.2)
       (sel_children ino d).

Definition readdir_plus (ino : Z) : Fs (option (list DirEntry)) :=
  get_connection ;;
  row ← query (sel_inode ino);
  match row with
  | None => mret None
  | Some r =>
      if negb (has_type (as_u32 (i_mode r)) S_IFDIR) then fs_err FsError.NotADirectory
      else
        rows ← query (sel_children_plus ino);
        mret (Some (filter (λ e, de_name e ≠ "") rows))
  end.

(** ** Changing attributes *)

Definition chmod (ino mode : Z) : Fs unit :=
  get_connection ;;
  row ← query (sel_inode ino);
  match row with
  | None => fs_err FsError.NotFound
  | Some r =>
      let current_mode := as_u32 (i_mode r) in
      let new_mode := Z.lor (Z.land current_mode S_IFMT) (Z.land mode 0xfff) in
      t ← now;
      update (upd_inode ino (set_ctime t ∘ set_mode new_mode))
  end.

(** [SET uid = ?] / [SET gid = ?] when the value is given. *)
Definition set_owner (uid gid : option Z) : Inode → Inode :=
  (match gid with Some g => set_gid g | None => id end) ∘
  (match uid with Some u => set_uid u | None => id end).

Definition chown (ino : Z) (uid gid : option Z) : Fs unit :=
  match uid, gid with
  | None, None => mret tt
  | _, _ =>
      get_connection ;;
      row ← query (sel_inode ino);
      match row with
      | None => fs_err FsError.NotFound
      | Some _ =>
          t ← now;
          update (upd_inode ino (set_ctime t ∘ set_owner uid gid))
      end
  end.

(** The closure [resolve]: an explicit time, or the clock ([unwrap]). *)
Definition resolve_time (tc : TimeChange) : Fs (Z * Z) :=
  match tc with
  | SetTime secs nsec => mret (secs, nsec)
  | Now => now_unwrap
  | Omit => panic
  end.
Definition time_update (set : Z * Z → Inode → Inode) (tc : TimeChange) :
    Fs (option (Inode → Inode)) :=
  match tc with
  | Omit => mret None
  | _ => t ← resolve_time tc; mret (Some (set t))
  end.

(** The collected assignments: none means nothing to do, otherwise the change
    time is set too. *)
Definition apply_times (ino : Z) (ua um : option (Inode → Inode)) : Fs unit :=
  match ua, um with
  | None, None => mret tt
  | _, _ =>
      t ← now;
      update (upd_inode ino (set_ctime t ∘ default id um ∘ default id ua))
  end.

Definition utimens (ino : Z) (atime mtime : TimeChange) : Fs unit :=
  get_connection ;;
  row ← query (sel_inode ino);
  match row with
  | None => fs_err FsError.NotFound
  | Some _ =>
      ua ← time_update set_atime atime;
      um ← time_update set_mtime mtime;
      apply_times ino ua um
  end.

Definition open (ino flags : Z) : Fs AgentFSFile :=
  get_connection ;;
  row ← query (sel_inode ino);
  match row with
  | None => fs_err FsError.NotFound
  | Some _ => mret (mkFile ino chunk_size)
  end.

(** ** Creating entries *)

Definition mkdir (parent_ino : Z) (name : string) (mode uid gid : Z) : Fs Stats :=
  if MAX_NAME_LEN <? strlen name then fs_err FsError.NameTooLong
  else
    get_connection ;;
    existing ← lookup_child parent_ino name;
    match existing with
    | Some _ => fs_err FsError.AlreadyExists
    | None =>
        t ← now;
        let dir_mode := Z.lor S_IFDIR (Z.land mode 0xfff) in
        ino ← query_row (ins_inode (new_row dir_mode 0 uid gid 0 0 t));
        execute (ins_dentry name parent_ino ino) ;;
        update (upd_inode ino (set_nlink (λ _, 2))) ;;
        update (upd_inode parent_ino (touch t ∘ set_nlink (λ n, n + 1))) ;;
        cache_insert parent_ino name ino ;;
        mret (new_stats ino dir_mode 2 uid gid 0 0 t)
    end.

Definition create_file (parent_ino : Z) (name : string) (mode uid gid : Z) :
    Fs (Stats * AgentFSFile) :=
  if MAX_NAME_LEN <? strlen name then fs_err FsError.NameTooLong
  else
    get_connection ;;
    existing ← lookup_child parent_ino name;
    match existing with
    | Some _ => fs_err FsError.AlreadyExists
    | None =>
        let file_mode := Z.lor S_IFREG (Z.land mode 0xfff) in
        r ← transaction (
          t ← now;
          ino ← query_row (ins_inode (new_row file_mode 1 uid gid 0 0 t));
          execute (ins_dentry name parent_ino ino) ;;
          update (upd_inode parent_ino (touch t)) ;;
          mret (ino, t));
        cache_insert parent_ino name r.1 ;;
        mret (new_stats r.1 file_mode 1 uid gid 0 0 r.2, mkFile r.1 chunk_size)
    end.

Definition mknod (parent_ino : Z) (name : string) (mode rdev uid gid : Z) : Fs Stats :=
  if MAX_NAME_LEN <? strlen name then fs_err FsError.NameTooLong
  else
    get_connection ;;
    existing ← lookup_child parent_ino name;
    match existing with
    | Some _ => fs_err FsError.AlreadyExists
    | None =>
        t ← now;
        ino ← query_row (ins_inode (new_row mode 0 uid gid 0 (as_i64 rdev) t));
        execute (ins_dentry name parent_ino ino) ;;
        update (upd_inode ino (set_nlink (λ n, n + 1))) ;;
        update (upd_inode parent_ino (touch t)) ;;
        cache_insert parent_ino name ino ;;
        mret (new_stats ino mode 1 uid gid 0 rdev t)
    end.

Definition symlink (parent_ino : Z) (name target : string) (uid gid : Z) : Fs Stats :=
  if MAX_NAME_LEN <? strlen name then fs_err FsError.NameTooLong
  else
    get_connection ;;
    existing ← lookup_child parent_ino name;
    match existing with
    | Some _ => fs_err FsError.AlreadyExists
    | None =>
        t ← now;
        let mode := Z.lor S_IFLNK 0x1ff in
        let size := as_i64 (strlen target) in
        ino ← query_row (ins_inode (new_row mode 0 uid gid size 0 t));
        execute (ins_symlink ino target) ;;
        execute (ins_dentry name parent_ino ino) ;;
        update (upd_inode ino (set_nlink (λ n, n + 1))) ;;
        update (upd_inode parent_ino (touch t)) ;;
        cache_insert parent_ino name ino ;;
        mret (new_stats ino mode 1 uid gid size 0 t)
    end.

Definition link (ino newparent_ino : Z) (newname : string) : Fs Stats :=
  if MAX_NAME_LEN <? strlen newname then fs_err FsError.NameTooLong
  else
    get_connection ;;
    row ← query (sel_inode ino);
    match row with
    | None => fs_err FsError.NotFound
    | Some r =>
        if has_type (as_u32 (i_mode r)) S_IFDIR then fs_err FsError.IsADirectory
        else
          existing ← lookup_child newparent_ino newname;
          match existing with
          | Some _ => fs_err FsError.AlreadyExists
          | None =>
              execute (ins_dentry newname newparent_ino ino) ;;
              t ← now;
              update (upd_inode ino (set_ctime t ∘ set_nlink (λ n, n + 1))) ;;
              update (upd_inode newparent_ino (touch t)) ;;
              cache_insert newparent_ino newname ino ;;
              stats ← getattr_with_conn ino;
              ok_or (Error.Fs FsError.NotFound) stats
          end
    end.

(** ** Removing entries *)

Definition unlink (parent_ino : Z) (name : string) : Fs unit :=
  if MAX_NAME_LEN <? strlen name then fs_err FsError.NameTooLong
  else
    get_connection ;;
    child ← lookup_child parent_ino name;
    ino ← ok_or (Error.Fs FsError.NotFound) child;
    row ← query (sel_inode ino);
    (match row with
     | Some r =>
         if has_type (as_u32 (i_mode r)) S_IFDIR then fs_err FsError.IsADirectory
         else mret tt
     | None => mret tt
     end) ;;
    update (del_dentry parent_ino name) ;;
    cache_remove parent_ino name ;;
    t ← now;
    update (upd_inode parent_ino (touch t)) ;;
    update (upd_inode ino (set_ctime t ∘ set_nlink (λ n, n - 1))) ;;
    link_count ← get_link_count ino;
    if link_count =? 0 then purge_inode ino else mret tt.

Definition rmdir (parent_ino : Z) (name : string) : Fs unit :=
  if MAX_NAME_LEN <? strlen name then fs_err FsError.NameTooLong
  else
    get_connection ;;
    child ← lookup_child parent_ino name;
    ino ← ok_or (Error.Fs FsError.NotFound) child;
    if ino =? ROOT_INO then fs_err FsError.RootOperation
    else
      row ← query (sel_inode ino);
      match row with
      | None => fs_err FsError.NotFound
      | Some r =>
          if negb (has_type (as_u32 (i_mode r)) S_IFDIR)
          then fs_err FsError.NotADirectory
          else
            count ← query (count_children ino);
            if 0 <? count then fs_err FsError.NotEmpty
            else
              update (del_dentry parent_ino name) ;;
              cache_remove parent_ino name ;;
              update (upd_inode ino (set_nlink (λ n, n - 1))) ;;
              t ← now;
              update (upd_inode parent_ino (touch t ∘ set_nlink (λ n, n - 1))) ;;
              link_count ← get_link_count ino;
              if link_count =? 0 then update (del_inode ino) else mret tt
      end.

(** ** Renaming *)

(** The part of [rename] that replaces an existing destination. *)
Definition replace_destination (newparent_ino : Z) (newname : string)
    (src_stats : Stats) (dst_ino : Z) : Fs unit :=
  dst ← getattr_with_conn dst_ino;
  dst_stats ← ok_or (Error.Fs FsError.NotFound) dst;
  if is_directory dst_stats && negb (is_directory src_stats)
  then fs_err FsError.IsADirectory
  else if negb (is_directory dst_stats) && is_directory src_stats
  then fs_err FsError.NotADirectory
  else
    (if is_directory dst_stats then
       count ← query (count_children dst_ino);
       if 0 <? count then fs_err FsError.NotEmpty else mret tt
     else mret tt) ;;
    update (del_dentry newparent_ino newname) ;;
    t ← now_or_default;
    update (upd_inode dst_ino (set_ctime t ∘ set_nlink (λ n, n - 1))) ;;
    link_count ← get_link_count dst_ino;
    if link_count =? 0 then purge_inode dst_ino else mret tt.

(** The rest of the transaction: the entry moves, a directory's parents
    count it, and the times are set. *)
Definition move_entry (oldparent_ino : Z) (oldname : string) (newparent_ino : Z)
    (newname : string) (src_ino : Z) (src_dir : bool) : Fs unit :=
  execute (upd_dentry newparent_ino newname oldparent_ino oldname) ;;
  (if src_dir && negb (oldparent_ino =? newparent_ino) then
     update (upd_inode oldparent_ino (set_nlink (λ n, n - 1))) ;;
     update (upd_inode newparent_ino (set_nlink (λ n, n + 1)))
   else mret tt) ;;
  t ← now_or_default;
  update (upd_inode src_ino (set_ctime t)) ;;
  update (upd_inode oldparent_ino (touch t)) ;;
  (if negb (newparent_ino =? oldparent_ino)
   then update (upd_inode newparent_ino (touch t)) else mret tt).

Definition rename (oldparent_ino : Z) (oldname : string) (newparent_ino : Z)
    (newname : string) : Fs unit :=
  if MAX_NAME_LEN <? strlen newname then fs_err FsError.NameTooLong
  else
    get_connection ;;
    child ← lookup_child oldparent_ino oldname;
    src_ino ← ok_or (Error.Fs FsError.NotFound) child;
    if src_ino =? ROOT_INO then fs_err FsError.RootOperation
    else
      src ← getattr_with_conn src_ino;
      src_stats ← ok_or (Error.Fs FsError.NotFound) src;
      transaction (
        dst ← lookup_child newparent_ino newname;
        (match dst with
         | Some dst_ino => replace_destination newparent_ino newname src_stats dst_ino
         | None => mret tt
         end) ;;
        move_entry oldparent_ino oldname newparent_ino newname src_ino
          (is_directory src_stats)) ;;
      cache_remove oldparent_ino oldname ;;
      cache_remove newparent_ino newname ;;
      cache_insert newparent_ino newname src_ino.

(** ** Statistics *)

(** [SELECT COALESCE(SUM(size), 0) FROM fs_inode]: the engine reports an
    overflow of the signed sum as an error. *)
Definition sum_sizes (d : Db) : Z :=
  foldr Z.add 0 ((λ e : Z * Inode, i_size e.2) <$> map_to_list (fs_inode d)).

Definition statfs : Fs FilesystemStats :=
  get_connection ;;
  n ← query (λ d, Z.of_nat (size (fs_inode d)));
  sum ← query sum_sizes;
  if bool_decide (in_i64 sum) then mret (mkFsStats (as_u64 n) (as_u64 sum))
  else throw (Error.Database EngineFailure).
End AgentFS.

(** Instance search takes the operations as they are. *)
#[global] Typeclasses Opaque cache_get cache_insert cache_remove one_row lookup_child
  get_link_count getattr_with_conn purge_inode lookup getattr readlink readdir
  readdir_plus chmod chown resolve_time time_update apply_times utimens open mkdir
  create_file mknod symlink link unlink rmdir replace_destination move_entry rename statfs.
