(* ===== verification/AgentFSInv.v ===== *)
(** * AgentFSInv: the invariant of the tables

    [fs_wf]: every entry leads from a directory to an existing inode, the link
    count of a file is the number of its entries (and positive), a directory
    has at most one entry, symlink targets and chunks belong to symlinks and
    files.  Between two statements of one operation the link counts are out of
    step; [core cs delta d] is the invariant with the difference [delta] made
    explicit, and each statement has one lemma that says how it changes
    [delta]. *)
From S2P Require Import Prelude Types Engine Lru Schema FileIO FileIOSpec AgentFS.

(** ** Definitions *)

Definition dir_row (r : Inode) : bool := has_type (i_mode r) S_IFDIR.
Definition lnk_row (r : Inode) : bool := has_type (i_mode r) S_IFLNK.

Definition is_dir (d : Db) (ino : Z) : Prop :=
  ∃ r, fs_inode d !! ino = Some r ∧ dir_row r = true.

(** The number of directory entries that lead to [ino]. *)
Definition links (d : Db) (ino : Z) : Z :=
  Z.of_nat (size (filter (λ e : (Z * string) * Z, e.2 = ino) (fs_dentry d))).

Record core (cs : Z) (delta : Z → Z) (d : Db) : Prop := {
  co_root : is_dir d ROOT_INO;
  co_seq ino : is_Some (fs_inode d !! ino) → 0 < ino <= inode_seq d;
  co_dentry p n c : fs_dentry d !! (p, n) = Some c →
    is_dir d p ∧ is_Some (fs_inode d !! c);
  co_files ino r : fs_inode d !! ino = Some r → dir_row r = false →
    i_nlink r = links d ino + delta ino;
  co_dirs ino : is_dir d ino → links d ino <= 1 ∧ (ino = ROOT_INO → links d ino = 0);
  co_symlink ino t : fs_symlink d !! ino = Some t →
    ∃ r, fs_inode d !! ino = Some r ∧ lnk_row r = true;
  co_data ino idx c : fs_data d !! (ino, idx) = Some c →
    ∃ r, fs_inode d !! ino = Some r ∧ dir_row r = false;
  co_chunks : chunks_ok cs d
}.

(** Files other than [x] have links, symlinks other than [x] a target. *)
Definition settled_except (x : option Z) (d : Db) : Prop :=
  ∀ ino r, Some ino ≠ x → fs_inode d !! ino = Some r → dir_row r = false →
    0 < i_nlink r ∧ (lnk_row r = true → is_Some (fs_symlink d !! ino)).

Definition fs_wf (cs : Z) (d : Db) : Prop :=
  core cs (λ _, 0) d ∧ settled_except None d.

(** The dentry cache is coherent: it only holds entries of the table. *)
Definition coherent {Lru : LruCache (Z * string) Z} (w : World Db (lru (Z * string) Z)) : Prop :=
  lru_view (w_mem w) ⊆ fs_dentry (w_db w).

(** ** Counting entries of a map *)
Section Count.
Context {K A : Type} `{Countable K}.
Context (P : K * A → Prop) `{!∀ x, Decision (P x)}.

Lemma count_insert (m : gmap K A) k a :
  m !! k = None →
  Z.of_nat (size (filter P (<[k:=a]> m))) =
    Z.of_nat (size (filter P m)) + (if decide (P (k, a)) then 1 else 0).
Proof.
  intros Hk. rewrite map_filter_insert. case_decide.
  - rewrite map_size_insert_None; [lia|]. by apply map_lookup_filter_None_2; left.
  - rewrite delete_id by done. lia.
Qed.

Lemma count_delete (m : gmap K A) k a :
  m !! k = Some a →
  Z.of_nat (size (filter P (delete k m))) =
    Z.of_nat (size (filter P m)) - (if decide (P (k, a)) then 1 else 0).
Proof.
  intros Hk. rewrite <-(insert_delete_id m k a Hk) at 2.
  rewrite count_insert by apply lookup_delete_eq. lia.
Qed.
End Count.

(** ** Row predicates *)

Lemma has_type_as_u32 m ty : has_type (as_u32 m) ty = has_type m ty.
Proof.
  unfold has_type. f_equal. apply Z.bits_inj'. intros n Hn. rewrite !Z.land_spec.
  destruct (decide (n < 32)); [by rewrite testbit_as_u32|].
  replace (Z.testbit S_IFMT n) with false; [by rewrite !andb_false_r|].
  symmetry. apply (testbit_above _ 32); [done|lia].
Qed.

Lemma is_directory_stats ino r : is_directory (build_stats_from_row ino r) = dir_row r.
Proof. apply has_type_as_u32. Qed.

Lemma lnk_not_dir r : lnk_row r = true → dir_row r = false.
Proof.
  intros Hl. destruct (dir_row r) eqn:Hd; [|done].
  by pose proof (has_type_inj _ _ _ Hl Hd).
Qed.

(** [r'] has the type and size of [r], and [k] links more. *)
Record adjusts (k : Z) (r r' : Inode) : Prop := {
  adj_type ty : has_type (i_mode r') ty = has_type (i_mode r) ty;
  adj_size : i_size r' = i_size r;
  adj_nlink : i_nlink r' = i_nlink r + k
}.

Lemma adjusts_dir k r r' : adjusts k r r' → dir_row r' = dir_row r.
Proof. intros H. apply (adj_type _ _ _ H). Qed.
Lemma adjusts_lnk k r r' : adjusts k r r' → lnk_row r' = lnk_row r.
Proof. intros H. apply (adj_type _ _ _ H). Qed.

Ltac adjusts := split; intros; simpl; done || lia.
Lemma adjusts_refl r : adjusts 0 r r.
Proof. adjusts. Qed.
Lemma adjusts_touch t k r r' : adjusts k r r' → adjusts k r (touch t r').
Proof. intros []. by split. Qed.
Lemma adjusts_ctime t k r r' : adjusts k r r' → adjusts k r (set_ctime t r').
Proof. intros []. by split. Qed.
Lemma adjusts_mtime t k r r' : adjusts k r r' → adjusts k r (set_mtime t r').
Proof. intros []. by split. Qed.
Lemma adjusts_atime t k r r' : adjusts k r r' → adjusts k r (set_atime t r').
Proof. intros []. by split. Qed.
Lemma adjusts_uid u k r r' : adjusts k r r' → adjusts k r (set_uid u r').
Proof. intros []. by split. Qed.
Lemma adjusts_gid g k r r' : adjusts k r r' → adjusts k r (set_gid g r').
Proof. intros []. by split. Qed.
Lemma adjusts_incr r : adjusts 1 r (set_nlink (λ n, n + 1) r).
Proof. adjusts. Qed.
Lemma adjusts_decr r : adjusts (-1) r (set_nlink (λ n, n - 1) r).
Proof. adjusts. Qed.
Create HintDb adjusts.
#[export] Hint Resolve adjusts_refl adjusts_touch adjusts_ctime adjusts_mtime
  adjusts_atime adjusts_uid adjusts_gid adjusts_incr adjusts_decr : adjusts.

(** ** One lemma per statement *)

(** [delta] with [k] added at [ino]. *)
Definition bump (ino k : Z) (delta : Z → Z) : Z → Z :=
  λ j, delta j + (if decide (j = ino) then k else 0).

Section Statements.
Context {E : SqlEngine} (cs : Z) (Hcs : 0 < cs).
Implicit Types (d : Db) (delta : Z → Z).

(** Only the differences at files matter. *)
Lemma core_ext delta delta' d :
  core cs delta d →
  (∀ ino r, fs_inode d !! ino = Some r → dir_row r = false → delta ino = delta' ino) →
  core cs delta' d.
Proof.
  intros [] Hext. split; try done. intros ino r Hr Hf. rewrite <-(Hext ino r); auto.
Qed.

Lemma links_nonneg d ino : 0 <= links d ino.
Proof. unfold links. lia. Qed.

Lemma links_0 d ino p n :
  links d ino = 0 → fs_dentry d !! (p, n) ≠ Some ino.
Proof.
  unfold links. intros H0 Hd.
  assert (Hs : size (filter (λ e : (Z * string) * Z, e.2 = ino) (fs_dentry d)) = 0%nat)
    by lia.
  apply map_size_empty_iff in Hs.
  by apply (map_filter_empty_not_lookup _ _ (p, n) ino Hs).
Qed.

Lemma links_pos d ino p n : fs_dentry d !! (p, n) = Some ino → 0 < links d ino.
Proof.
  intros Hd. pose proof (links_nonneg d ino).
  destruct (decide (links d ino = 0)) as [H0|]; [|lia].
  by destruct (links_0 _ _ p n H0).
Qed.

(** The links of an inode are among the entries of the table. *)
Lemma links_le_size d ino : links d ino <= Z.of_nat (size (fs_dentry d)).
Proof.
  unfold links. apply inj_le. apply map_subseteq_size, map_filter_subseteq.
Qed.

Lemma lookup_upd_inode ino f d j :
  fs_inode (upd_inode ino f d) !! j =
    if decide (j = ino) then f <$> fs_inode d !! j else fs_inode d !! j.
Proof.
  unfold upd_inode. cbn [fs_inode set_inodes]. case_decide as Hj.
  - subst j. apply lookup_alter_eq.
  - by rewrite lookup_alter_ne.
Qed.

Lemma upd_inode_row ino f d j r' :
  fs_inode (upd_inode ino f d) !! j = Some r' →
  ∃ r, fs_inode d !! j = Some r ∧ r' = if decide (j = ino) then f r else r.
Proof.
  rewrite lookup_upd_inode. case_decide; [|naive_solver].
  rewrite fmap_Some. naive_solver.
Qed.

Lemma upd_inode_some ino f d j :
  is_Some (fs_inode (upd_inode ino f d) !! j) ↔ is_Some (fs_inode d !! j).
Proof. rewrite lookup_upd_inode. case_decide; [apply fmap_is_Some|done]. Qed.

Lemma core_upd delta d ino k f :
  core cs delta d → (∀ r, fs_inode d !! ino = Some r → adjusts k r (f r)) →
  core cs (bump ino k delta) (upd_inode ino f d).
Proof.
  intros H Hf.
  assert (Hrow : ∀ j r, fs_inode d !! j = Some r → ∃ k' r',
    fs_inode (upd_inode ino f d) !! j = Some r' ∧ adjusts k' r r' ∧
    k' = if decide (j = ino) then k else 0).
  { intros j r Hr. rewrite lookup_upd_inode, Hr. case_decide as Hj.
    - subst j. exists k, (f r). auto.
    - exists 0, r. auto with adjusts. }
  assert (Hdir : ∀ j, is_dir (upd_inode ino f d) j ↔ is_dir d j).
  { intros j. split.
    - intros (r' & (r & Hr & ->)%upd_inode_row & Hd).
      exists r. split; [done|]. destruct (Hrow _ _ Hr) as (k' & r' & Hr' & Ha & _).
      rewrite <-(adjusts_dir _ _ _ Ha). rewrite lookup_upd_inode, Hr in Hr'.
      case_decide; simplify_eq/=; done.
    - intros (r & Hr & Hd). destruct (Hrow _ _ Hr) as (k' & r' & Hr' & Ha & _).
      exists r'. by rewrite (adjusts_dir _ _ _ Ha). }
  destruct H as [Hroot Hseq Hde Hfi Hdi Hsy Hda [Hsz Hch]].
  assert (Hfs : ∀ j, fsize (upd_inode ino f d) j = fsize d j).
  { intros j. unfold fsize. destruct (fs_inode d !! j) as [r|] eqn:Hr.
    - destruct (Hrow _ _ Hr) as (k' & r' & -> & Ha & _). apply (adj_size _ _ _ Ha).
    - by rewrite lookup_upd_inode, Hr; case_decide. }
  split.
  - by apply Hdir.
  - intros j. rewrite upd_inode_some. apply Hseq.
  - intros p n c Hd. rewrite Hdir, upd_inode_some. by eapply Hde.
  - intros j r' (r & Hr & ->)%upd_inode_row Hdr.
    change (links (upd_inode ino f d) j) with (links d j). unfold bump.
    case_decide as Hj; subst.
    + pose proof (Hf _ Hr) as Ha. rewrite (adj_nlink _ _ _ Ha).
      rewrite (Hfi _ _ Hr); [lia|]. by rewrite <-(adjusts_dir _ _ _ Ha).
    + rewrite (Hfi _ _ Hr) by done. lia.
  - intros j. rewrite Hdir. apply Hdi.
  - intros j t Hj. destruct (Hsy _ _ Hj) as (r & Hr & Hl).
    destruct (Hrow _ _ Hr) as (k' & r' & Hr' & Ha & _). exists r'.
    by rewrite (adjusts_lnk _ _ _ Ha).
  - intros j idx c Hj. destruct (Hda _ _ _ Hj) as (r & Hr & Hl).
    destruct (Hrow _ _ Hr) as (k' & r' & Hr' & Ha & _). exists r'.
    by rewrite (adjusts_dir _ _ _ Ha).
  - split.
    + intros j r' (r & Hr & ->)%upd_inode_row. case_decide as Hj; [subst|eauto].
      rewrite (adj_size _ _ _ (Hf _ Hr)). eauto.
    + intros j idx c Hj. rewrite Hfs. by apply Hch.
Qed.

(** Statements on [fs_dentry] change nothing else. *)
Lemma core_dentries delta delta' d m :
  core cs delta d →
  (∀ p n c, m !! (p, n) = Some c → is_dir d p ∧ is_Some (fs_inode d !! c)) →
  (∀ j, links (set_dentries m d) j + delta' j = links d j + delta j) →
  (∀ j, is_dir d j →
     links (set_dentries m d) j <= 1 ∧ (j = ROOT_INO → links (set_dentries m d) j = 0)) →
  core cs delta' (set_dentries m d).
Proof.
  intros [Hroot Hseq Hde Hfi Hdi Hsy Hda [Hsz Hch]] Hm Hl Hdir. split; try done.
  intros j r Hr Hd. rewrite (Hfi _ _ Hr Hd). specialize (Hl j). lia.
Qed.

Lemma links_insert d p n c m j :
  m !! (p, n) = None →
  links (set_dentries (<[(p, n) := c]> m) d) j =
    links (set_dentries m d) j + (if decide (j = c) then 1 else 0).
Proof.
  intros Hn. unfold links. cbn [fs_dentry set_dentries].
  rewrite count_insert by done. f_equal. simpl. repeat case_decide; congruence.
Qed.

Lemma links_delete d p n c j :
  fs_dentry d !! (p, n) = Some c →
  links (set_dentries (delete (p, n) (fs_dentry d)) d) j =
    links d j - (if decide (j = c) then 1 else 0).
Proof.
  intros Hn. unfold links. cbn [fs_dentry set_dentries].
  rewrite (count_delete _ _ _ c) by done. f_equal. simpl.
  repeat case_decide; congruence.
Qed.

Lemma set_dentries_id d : set_dentries (fs_dentry d) d = d.
Proof. by destruct d. Qed.

(** An entry that may be added: a directory has no other link, and is not
    the root. *)
Definition linkable d (c : Z) : Prop :=
  is_Some (fs_inode d !! c) ∧ (is_dir d c → links d c = 0 ∧ c ≠ ROOT_INO).

Lemma core_ins_dentry delta d p n c d' :
  core cs delta d → is_dir d p → linkable d c →
  ins_dentry n p c d = Some d' →
  core cs (bump c (-1) delta) d'.
Proof.
  intros H Hp [Hc Hlk] Hins. unfold ins_dentry in Hins.
  destruct (fs_dentry d !! (p, n)) eqn:Hn; simplify_eq/=.
  assert (Hl : ∀ j, links (set_dentries (<[(p, n) := c]> (fs_dentry d)) d) j =
                    links d j + (if decide (j = c) then 1 else 0)).
  { intros j. by rewrite links_insert, set_dentries_id. }
  eapply core_dentries; [exact H|..].
  - intros p' n' c'. rewrite lookup_insert_Some.
    intros [[? ?]|[_ Hold]]; [by simplify_eq|by eapply co_dentry].
  - intros j. rewrite Hl. unfold bump. case_decide; lia.
  - intros j Hj. rewrite Hl. case_decide as Heq.
    + subst j. destruct (Hlk Hj) as [-> Hroot]. split; [lia|done].
    + rewrite Z.add_0_r. by apply (co_dirs _ _ _ H).
Qed.

Lemma core_del_dentry delta d p n c :
  core cs delta d → fs_dentry d !! (p, n) = Some c →
  core cs (bump c 1 delta) (del_dentry p n d).
Proof.
  intros H Hn. unfold del_dentry. eapply core_dentries; [exact H|..].
  - intros p' n' c'. rewrite lookup_delete_Some. intros [_ Hold].
    by eapply co_dentry.
  - intros j. rewrite (links_delete _ _ _ c) by done. unfold bump. case_decide; lia.
  - intros j Hj. rewrite (links_delete _ _ _ c) by done.
    destruct (co_dirs _ _ _ H j Hj) as [H1 H2]. case_decide as Heq.
    + subst j. pose proof (links_pos _ _ _ _ Hn). split; [lia|].
      intros Hroot. apply H2 in Hroot. lia.
    + rewrite Z.sub_0_r. done.
Qed.

(** The row an insertion creates is new in every table. *)
Lemma ins_inode_fresh delta row ino d d' :
  core cs delta d → ins_inode row d = Some (ino, d') →
  fs_inode d !! ino = None ∧ fs_symlink d !! ino = None ∧ inode_seq d < ino ∧
  links d ino = 0 ∧
  d' = set_seq ino (set_inodes (<[ino := row]> (fs_inode d)) d).
Proof.
  intros H [= Hino <-]. pose proof (next_rowid_gt (inode_seq d)) as Hgt.
  rewrite Hino in *. assert (Hnew : fs_inode d !! ino = None).
  { apply eq_None_not_Some. intros Hs. apply (co_seq _ _ _ H) in Hs. lia. }
  split_and!; [done|..|done].
  - apply eq_None_not_Some. intros [t Ht].
    apply (co_symlink _ _ _ H) in Ht as (r & Hr & _). congruence.
  - done.
  - unfold links.
    replace (filter _ (fs_dentry d)) with (∅ : gmap (Z * string) Z); [done|].
    symmetry. apply map_empty. intros [p n].
    apply map_lookup_filter_None. right. intros c Hc. simpl. intros ->.
    apply (co_dentry _ _ _ H) in Hc as [_ [x Hx]]. congruence.
Qed.

Lemma core_ins_inode delta d row ino d' :
  core cs delta d → delta ino = 0 →
  0 <= i_size row < 2 ^ 63 →
  ins_inode row d = Some (ino, d') →
  core cs (bump ino (i_nlink row) delta) d'.
Proof.
  intros H Hz Hsize Hins.
  apply (ins_inode_fresh _ _ _ _ _ H) in Hins as (Hnew & _ & Hgt & Hlinks & ->).
  assert (Hdir : ∀ j, is_dir d j →
    is_dir (set_seq ino (set_inodes (<[ino := row]> (fs_inode d)) d)) j).
  { intros j (r & Hr & Hd). exists r. split; [|done]. cbn [fs_inode set_seq set_inodes].
    rewrite lookup_insert_ne; congruence. }
  assert (Hsome : ∀ j r, fs_inode d !! j = Some r →
    <[ino := row]> (fs_inode d) !! j = Some r).
  { intros j r Hr. rewrite lookup_insert_ne; congruence. }
  split.
  - apply Hdir, H.
  - intros j. cbn [fs_inode set_seq set_inodes inode_seq].
    rewrite lookup_insert_is_Some'. intros [->|Hs%(co_seq _ _ _ H)]; [|lia].
    pose proof (co_root _ _ _ H) as (r & Hr & _).
    pose proof (co_seq _ _ _ H ROOT_INO (ex_intro _ r Hr)). unfold ROOT_INO in *. lia.
  - intros p n c Hd. apply (co_dentry _ _ _ H) in Hd as [Hp [r Hr]].
    split; [by apply Hdir|]. exists r. by apply Hsome.
  - intros j r. cbn [fs_inode set_seq set_inodes]. rewrite lookup_insert_Some.
    change (links (set_seq ino (set_inodes (<[ino := row]> (fs_inode d)) d)) j)
      with (links d j). unfold bump.
    intros [[<- <-]|[Hne Hr]] Hd.
    + rewrite decide_True, Hlinks, Hz by done. lia.
    + rewrite decide_False by done. rewrite (co_files _ _ _ H _ _ Hr Hd). lia.
  - intros j (r & Hr & Hd).
    change (links (set_seq ino (set_inodes (<[ino := row]> (fs_inode d)) d)) j)
      with (links d j). cbn [fs_inode set_seq set_inodes] in Hr.
    apply lookup_insert_Some in Hr as [[<- <-]|[Hne Hr]].
    + split; [lia|done].
    + apply (co_dirs _ _ _ H). by exists r.
  - intros j t Hj. apply (co_symlink _ _ _ H) in Hj as (r & Hr & Hl). exists r.
    split; [by apply Hsome|done].
  - intros j idx c Hj. apply (co_data _ _ _ H) in Hj as (r & Hr & Hl). exists r.
    split; [by apply Hsome|done].
  - destruct (co_chunks _ _ _ H) as [Hsz Hch]. split.
    + intros j r Hr. cbn [fs_inode set_seq set_inodes] in Hr.
      apply lookup_insert_Some in Hr as [[<- <-]|[Hne Hr]]; [done|eauto].
    + intros j idx c Hj. destruct (co_data _ _ _ H _ _ _ Hj) as (r & Hr & _).
      destruct (Hch _ _ _ Hj) as (? & ? & ?). split_and!; [done..|].
      unfold fsize in *. cbn [fs_inode set_seq set_inodes]. rewrite Hr in *.
      by rewrite (Hsome _ _ Hr).
Qed.

Lemma core_ins_symlink delta d ino t r d' :
  core cs delta d → fs_inode d !! ino = Some r → lnk_row r = true →
  ins_symlink ino t d = Some d' → core cs delta d'.
Proof.
  intros H Hr Hl Hins. unfold ins_symlink in Hins.
  destruct (fs_symlink d !! ino); simplify_eq/=.
  destruct H as [?????? ? [? ?]]. split; [done..| |done|by split].
  intros j t' Hj. cbn [fs_symlink set_symlinks] in Hj.
  apply lookup_insert_Some in Hj as [[<- _]|[_ Hj]]; eauto.
Qed.

(** The cascade of three deletes. *)
Definition purge_db (ino : Z) d : Db := del_inode ino (del_symlink ino (del_data ino d)).

Lemma lookup_del_data ino d j idx :
  fs_data (del_data ino d) !! (j, idx) =
    if decide (j = ino) then None else fs_data d !! (j, idx).
Proof.
  unfold del_data. cbn [fs_data set_data]. case_decide as Hj.
  - apply map_lookup_filter_None_2. naive_solver.
  - apply option_eq. intros c. rewrite map_lookup_filter_Some. naive_solver.
Qed.

(** A childless inode without links may go, with what belongs to it. *)
Lemma core_purge delta d ino :
  core cs delta d → links d ino = 0 → ino ≠ ROOT_INO →
  (∀ n, fs_dentry d !! (ino, n) = None) →
  core cs delta (purge_db ino d).
Proof.
  intros [Hroot Hseq Hde Hfi Hdi Hsy Hda [Hsz Hch]] Hl Hr Hn.
  assert (Hrow : ∀ j, fs_inode (purge_db ino d) !! j =
                      if decide (j = ino) then None else fs_inode d !! j).
  { intros j. cbn [purge_db del_inode fs_inode set_inodes del_symlink set_symlinks
                   del_data set_data]. by rewrite lookup_delete; repeat case_decide. }
  assert (Hdir : ∀ j, j ≠ ino → is_dir d j → is_dir (purge_db ino d) j).
  { intros j Hj (r & Hr' & Hd). exists r. by rewrite Hrow, decide_False. }
  split.
  - by apply Hdir.
  - intros j. rewrite Hrow. case_decide; [by intros []|apply Hseq].
  - intros p n c Hd. change (fs_dentry d !! (p, n) = Some c) in Hd.
    destruct (Hde _ _ _ Hd) as [Hp Hc]. rewrite Hrow. split.
    + apply Hdir; [|done]. intros ->. by rewrite Hn in Hd.
    + rewrite decide_False; [done|]. intros ->. by apply (links_0 _ _ p n Hl).
  - intros j r. rewrite Hrow. case_decide; [done|]. apply Hfi.
  - intros j (r & Hr' & Hd). rewrite Hrow in Hr'. case_decide; [done|].
    apply Hdi. by exists r.
  - intros j t Hj. cbn [purge_db del_inode fs_symlink set_inodes del_symlink
                        set_symlinks] in Hj.
    apply lookup_delete_Some in Hj as [Hne Hj]. rewrite Hrow, decide_False by done.
    by eapply Hsy.
  - intros j idx c Hj.
    change (fs_data (del_data ino d) !! (j, idx) = Some c) in Hj.
    rewrite lookup_del_data in Hj. case_decide; [done|].
    rewrite Hrow, decide_False by done. by eapply Hda.
  - split.
    + intros j r. rewrite Hrow. case_decide; [done|]. apply Hsz.
    + intros j idx c Hj.
      change (fs_data (del_data ino d) !! (j, idx) = Some c) in Hj.
      rewrite lookup_del_data in Hj. case_decide; [done|].
      unfold fsize. rewrite Hrow, decide_False by done. by apply Hch.
Qed.

(** Nothing belongs to a directory but its row. *)
Lemma purge_db_dir delta d ino :
  core cs delta d → is_dir d ino → purge_db ino d = del_inode ino d.
Proof.
  intros H (r & Hr & Hd). unfold purge_db. f_equal.
  destruct d as [cfg sq ino' de da sy]. unfold del_symlink, del_data, set_symlinks, set_data.
  cbn [fs_config inode_seq fs_inode fs_dentry fs_data fs_symlink] in *. f_equal.
  - apply map_filter_id. intros [j idx] c Hj. simpl. intros ->.
    apply (co_data _ _ _ H) in Hj as (r' & Hr' & Hd'). simpl in Hr'. congruence.
  - apply delete_id. apply eq_None_not_Some. intros [t Ht].
    apply (co_symlink _ _ _ H) in Ht as (r' & Hr' & Hl'%lnk_not_dir). simpl in Hr'.
    congruence.
Qed.

Lemma is_dir_row d ino r : fs_inode d !! ino = Some r → is_dir d ino ↔ dir_row r = true.
Proof.
  intros Hr. split; [|by exists r]. intros (r' & Hr' & Hd). congruence.
Qed.

(** Only directories have entries. *)
Lemma file_childless delta d ino r n :
  core cs delta d → fs_inode d !! ino = Some r → dir_row r = false →
  fs_dentry d !! (ino, n) = None.
Proof.
  intros H Hr Hd. apply eq_None_not_Some. intros [c Hc].
  apply (co_dentry _ _ _ H) in Hc as [Hdir _].
  apply (is_dir_row _ _ _ Hr) in Hdir. congruence.
Qed.

Lemma root_not_file delta d ino r :
  core cs delta d → fs_inode d !! ino = Some r → dir_row r = false → ino ≠ ROOT_INO.
Proof.
  intros H Hr Hd ->. pose proof (co_root _ _ _ H) as Hroot.
  apply (is_dir_row _ _ _ Hr) in Hroot. congruence.
Qed.

(** Moving an entry is deleting and inserting it. *)
Lemma upd_dentry_spec d p' n' p n c :
  fs_dentry d !! (p, n) = Some c →
  upd_dentry p' n' p n d = ins_dentry n' p' c (del_dentry p n d).
Proof.
  intros Hc. unfold upd_dentry, ins_dentry, del_dentry. rewrite Hc.
  cbn [fs_dentry set_dentries]. by destruct (delete _ _ !! _).
Qed.

Lemma core_upd_dentry delta d p' n' p n c d' :
  core cs delta d → fs_dentry d !! (p, n) = Some c → is_dir d p' → c ≠ ROOT_INO →
  upd_dentry p' n' p n d = Some d' → core cs delta d'.
Proof.
  intros H Hc Hp' Hroot Hupd. rewrite (upd_dentry_spec _ _ _ _ _ _ Hc) in Hupd.
  pose proof (core_del_dentry _ _ _ _ _ H Hc) as Hdel.
  eapply core_ext; [eapply core_ins_dentry; [exact Hdel|exact Hp'| |exact Hupd]|].
  - split; [by apply (co_dentry _ _ _ H) in Hc as [_ ?]|]. intros Hdir. split; [|done].
    unfold del_dentry. rewrite (links_delete _ _ _ _ _ Hc), decide_True by done.
    destruct (co_dirs _ _ _ H _ Hdir) as [Hle _].
    pose proof (links_pos _ _ _ _ Hc). lia.
  - intros j r _ _. unfold bump. case_decide; lia.
Qed.
End Statements.

(** ** Links and targets *)
Section Settled.
Context {E : SqlEngine}.
Implicit Types (d : Db).

Lemma settled_weaken ino d : settled_except None d → settled_except (Some ino) d.
Proof. intros H j r _. by apply H. Qed.

Lemma settled_upd x d ino k f :
  settled_except x d → (∀ r, fs_inode d !! ino = Some r → adjusts k r (f r)) →
  (x = Some ino ∨ 0 <= k ∨ is_dir d ino) → settled_except x (upd_inode ino f d).
Proof.
  intros H Hf Hk j r' Hj (r & Hr & ->)%upd_inode_row.
  destruct (decide (j = ino)) as [->|Hne]; [|by apply H].
  destruct Hk as [->|Hk]; [done|]. pose proof (Hf _ Hr) as Ha.
  rewrite (adjusts_dir _ _ _ Ha), (adjusts_lnk _ _ _ Ha), (adj_nlink _ _ _ Ha).
  intros Hd. destruct (H _ _ Hj Hr Hd) as [? ?].
  destruct Hk as [Hk|Hdir%(is_dir_row _ _ _ Hr)]; [split; [lia|done]|congruence].
Qed.

Lemma settled_close ino d :
  settled_except (Some ino) d →
  (∀ r, fs_inode d !! ino = Some r → dir_row r = false →
     0 < i_nlink r ∧ (lnk_row r = true → is_Some (fs_symlink d !! ino))) →
  settled_except None d.
Proof.
  intros H Hino j r _ Hr. destruct (decide (j = ino)) as [->|Hne]; [by apply Hino|].
  apply H; congruence.
Qed.

Lemma settled_purge ino d :
  settled_except (Some ino) d → settled_except None (purge_db ino d).
Proof.
  intros H j r _ Hr. cbn [purge_db del_inode fs_inode set_inodes del_symlink set_symlinks
    del_data set_data fs_symlink] in *.
  apply lookup_delete_Some in Hr as [Hne Hr]. rewrite lookup_delete_ne by done.
  apply H; congruence.
Qed.

Lemma settled_ins_inode row ino d d' :
  settled_except None d → ins_inode row d = Some (ino, d') →
  settled_except (Some ino) d'.
Proof.
  intros H [= <- <-] j r Hj Hr. cbn [fs_inode set_seq set_inodes] in Hr.
  rewrite lookup_insert_ne in Hr by congruence. by apply H.
Qed.

Lemma settled_ins_symlink x ino t d d' :
  settled_except x d → ins_symlink ino t d = Some d' → settled_except x d'.
Proof.
  intros H Hins j r Hj Hr Hd. unfold ins_symlink in Hins.
  destruct (fs_symlink d !! ino) eqn:Hs; simplify_eq/=.
  destruct (H _ _ Hj Hr Hd) as [? Hl]. split; [done|].
  intros Hlnk. rewrite lookup_insert_is_Some'. auto.
Qed.
End Settled.

(** ** Lookups after a statement *)
Section Lookups.
Context {E : SqlEngine}.
Implicit Types (d : Db).

Lemma ins_dentry_some p n c d :
  fs_dentry d !! (p, n) = None →
  ins_dentry n p c d = Some (set_dentries (<[(p, n) := c]> (fs_dentry d)) d).
Proof. intros Hn. unfold ins_dentry. by rewrite Hn. Qed.

End Lookups.
