(* ===== verification/AgentFSSpec.v ===== *)
(** * AgentFSSpec: what the filesystem promises

    [Spec]: a filesystem as a client sees it: directory entries and nodes with
    a payload, and no tables, link counters, chunks or timestamps.  [abs]
    reads it off the tables, and [refines] states that an operation of
    [AgentFS] does what its [Spec] counterpart does, whatever the engine's
    failures. *)
From S2P Require Import Prelude Types Engine Lru Schema FileIO FileIOSpec AgentFS.
From S2P Require Import AgentFSInv.

Module Spec.
Inductive payload := Directory | Link (target : string) | Data (b : bytes).
Record node := mkNode {
  n_mode : Z; n_uid : Z; n_gid : Z; n_rdev : Z; n_payload : payload }.
Record t := mkFs { entries : gmap (Z * string) Z; nodes : gmap Z node }.

Definition is_directory (nd : node) : bool :=
  match n_payload nd with Directory => true | _ => false end.

(** The number of entries that lead to [c]. *)
Definition refs (c : Z) (a : t) : nat :=
  size (filter (λ e : (Z * string) * Z, e.2 = c) (entries a)).

(** Removing the entry [(p, n)]; with the last entry of a node the node
    goes. *)
Definition detach (p : Z) (n : string) (c : Z) (a : t) : t :=
  let a' := mkFs (delete (p, n) (entries a)) (nodes a) in
  if Nat.eqb (refs c a') 0 then mkFs (entries a') (delete c (nodes a')) else a'.

Definition attach (p : Z) (n : string) (c : Z) (a : t) : t :=
  mkFs (<[(p, n) := c]> (entries a)) (nodes a).

Definition childless (c : Z) (a : t) : bool :=
  bool_decide (filter (λ e : (Z * string) * Z, e.1.1 = c) (entries a) = ∅).

Definition check_name (n : string) (r : FsError.t + t) : FsError.t + t :=
  if MAX_NAME_LEN <? strlen n then inl FsError.NameTooLong else r.

(** [create_file], [mkdir], [mknod] and [symlink]: a fresh node [nd] under
    number [ino]. *)
Definition create (p : Z) (n : string) (ino : Z) (nd : node) (a : t) : FsError.t + t :=
  check_name n
    match entries a !! (p, n) with
    | Some _ => inl FsError.AlreadyExists
    | None => inr (attach p n ino (mkFs (entries a) (<[ino := nd]> (nodes a))))
    end.

Definition link (ino p : Z) (n : string) (a : t) : FsError.t + t :=
  check_name n
    match nodes a !! ino with
    | None => inl FsError.NotFound
    | Some nd =>
        if is_directory nd then inl FsError.IsADirectory
        else match entries a !! (p, n) with
             | Some _ => inl FsError.AlreadyExists
             | None => inr (attach p n ino a)
             end
    end.

Definition unlink (p : Z) (n : string) (a : t) : FsError.t + t :=
  check_name n
    match entries a !! (p, n) with
    | None => inl FsError.NotFound
    | Some c =>
        match nodes a !! c with
        | Some nd =>
            if is_directory nd then inl FsError.IsADirectory else inr (detach p n c a)
        | None => inl FsError.NotFound
        end
    end.

(** Removing the entry of a directory; [gone] says whether its node goes
    too. *)
Definition detach_dir (p : Z) (n : string) (c : Z) (gone : bool) (a : t) : t :=
  mkFs (delete (p, n) (entries a)) (if gone then delete c (nodes a) else nodes a).

Definition rmdir (p : Z) (n : string) (gone : bool) (a : t) : FsError.t + t :=
  check_name n
    match entries a !! (p, n) with
    | None => inl FsError.NotFound
    | Some c =>
        if c =? ROOT_INO then inl FsError.RootOperation
        else match nodes a !! c with
        | None => inl FsError.NotFound
        | Some nd =>
            if negb (is_directory nd) then inl FsError.NotADirectory
            else if negb (childless c a) then inl FsError.NotEmpty
            else inr (detach_dir p n c gone a)
        end
    end.

Definition move (p : Z) (n : string) (p' : Z) (n' : string) (c : Z) (a : t) : t :=
  mkFs (<[(p', n') := c]> (delete (p, n) (entries a))) (nodes a).

Definition rename (p : Z) (n : string) (p' : Z) (n' : string) (gone : bool)
    (a : t) : FsError.t + t :=
  check_name n'
    match entries a !! (p, n) with
    | None => inl FsError.NotFound
    | Some c =>
        if c =? ROOT_INO then inl FsError.RootOperation
        else match nodes a !! c, entries a !! (p', n') with
        | None, _ => inl FsError.NotFound
        | Some _, None => inr (move p n p' n' c a)
        | Some nd, Some c' =>
            match nodes a !! c' with
            | None => inl FsError.NotFound
            | Some nd' =>
                if is_directory nd' && negb (is_directory nd)
                then inl FsError.IsADirectory
                else if negb (is_directory nd') && is_directory nd
                then inl FsError.NotADirectory
                else if is_directory nd' then
                  if negb (childless c' a) then inl FsError.NotEmpty
                  else inr (move p n p' n' c (detach_dir p' n' c' gone a))
                else inr (move p n p' n' c (detach p' n' c' a))
            end
        end
    end.

Definition change (ino : Z) (f : node → node) (a : t) : FsError.t + t :=
  match nodes a !! ino with
  | None => inl FsError.NotFound
  | Some _ => inr (mkFs (entries a) (alter f ino (nodes a)))
  end.

Definition chmod (ino mode : Z) : t → FsError.t + t :=
  change ino (λ nd, mkNode (Z.lor (Z.land (as_u32 (n_mode nd)) S_IFMT) (Z.land mode 0xfff))
                      (n_uid nd) (n_gid nd) (n_rdev nd) (n_payload nd)).
Definition chown (ino : Z) (uid gid : option Z) : t → FsError.t + t :=
  match uid, gid with
  | None, None => inr
  | _, _ => change ino (λ nd, mkNode (n_mode nd) (default (n_uid nd) uid)
                               (default (n_gid nd) gid) (n_rdev nd) (n_payload nd))
  end.

(** Changing the bytes of a file. *)
Definition edit (ino : Z) (f : bytes → bytes) : t → FsError.t + t :=
  change ino (λ nd, mkNode (n_mode nd) (n_uid nd) (n_gid nd) (n_rdev nd)
                      (match n_payload nd with Data b => Data (f b) | pl => pl end)).
End Spec.

(** ** Abstraction *)

Definition payload_of (cs : Z) (d : Db) (ino : Z) (r : Inode) : Spec.payload :=
  if dir_row r then Spec.Directory
  else if lnk_row r then Spec.Link (default "" (fs_symlink d !! ino))
  else Spec.Data (contents cs d ino).

Definition node_of (cs : Z) (d : Db) (ino : Z) (r : Inode) : Spec.node :=
  Spec.mkNode (i_mode r) (i_uid r) (i_gid r) (i_rdev r) (payload_of cs d ino r).

Definition abs (cs : Z) (d : Db) : Spec.t :=
  Spec.mkFs (fs_dentry d) (map_imap (λ ino r, Some (node_of cs d ino r)) (fs_inode d)).

Section Abstraction.
Context {E : SqlEngine} (cs : Z).
Implicit Types (d : Db).

Lemma abs_node d ino :
  Spec.nodes (abs cs d) !! ino = node_of cs d ino <$> fs_inode d !! ino.
Proof. unfold abs. cbn [Spec.nodes]. rewrite map_lookup_imap. by destruct (_ !! _). Qed.

Lemma abs_row d ino r :
  fs_inode d !! ino = Some r → Spec.nodes (abs cs d) !! ino = Some (node_of cs d ino r).
Proof. intros Hr. by rewrite abs_node, Hr. Qed.

Lemma is_directory_node d ino r : Spec.is_directory (node_of cs d ino r) = dir_row r.
Proof.
  unfold node_of, payload_of, Spec.is_directory. cbn [Spec.n_payload].
  destruct (dir_row r); [done|]. by destruct (lnk_row r).
Qed.

Lemma refs_links d ino : Z.of_nat (Spec.refs ino (abs cs d)) = links d ino.
Proof. done. Qed.

Lemma spec_eq (a b : Spec.t) :
  Spec.entries a = Spec.entries b → (∀ ino, Spec.nodes a !! ino = Spec.nodes b !! ino) →
  a = b.
Proof.
  destruct a as [ea na], b as [eb nb]. cbn [Spec.entries Spec.nodes]. intros -> H.
  f_equal. by apply map_eq.
Qed.

(** The bytes of a file depend on its size and its chunks only. *)
Lemma contents_eq d d' ino :
  fsize d' ino = fsize d ino → (∀ idx, fs_data d' !! (ino, idx) = fs_data d !! (ino, idx)) →
  contents cs d' ino = contents cs d ino.
Proof.
  intros Hs Hd. unfold contents. rewrite Hs. apply fbytes_eq. intros i _.
  unfold fbyte. by rewrite Hd.
Qed.

Lemma payload_eq d d' ino r r' :
  (∀ ty, has_type (i_mode r') ty = has_type (i_mode r) ty) →
  fs_symlink d' !! ino = fs_symlink d !! ino →
  contents cs d' ino = contents cs d ino →
  payload_of cs d' ino r' = payload_of cs d ino r.
Proof.
  intros Ht Hs Hc. unfold payload_of, dir_row, lnk_row. by rewrite !Ht, Hs, Hc.
Qed.

Lemma fsize_upd d ino f j :
  (∀ r, fs_inode d !! ino = Some r → i_size (f r) = i_size r) →
  fsize (upd_inode ino f d) j = fsize d j.
Proof.
  intros Hf. unfold fsize. rewrite lookup_upd_inode.
  case_decide; subst; [|done]. destruct (fs_inode d !! ino) eqn:Hr; [|done].
  by apply Hf.
Qed.

(** Updates of a row that a client sees as [g]. *)
Lemma abs_change d ino f (g : Spec.node → Spec.node) :
  (∀ r, fs_inode d !! ino = Some r →
     i_size (f r) = i_size r ∧
     (∀ ty, has_type (i_mode (f r)) ty = has_type (i_mode r) ty) ∧
     g (node_of cs d ino r) =
       Spec.mkNode (i_mode (f r)) (i_uid (f r)) (i_gid (f r)) (i_rdev (f r))
         (payload_of cs d ino r)) →
  abs cs (upd_inode ino f d) =
    Spec.mkFs (Spec.entries (abs cs d)) (alter g ino (Spec.nodes (abs cs d))).
Proof.
  intros Hf. apply spec_eq; [done|]. intros j.
  assert (Hc : contents cs (upd_inode ino f d) j = contents cs d j).
  { apply contents_eq; [|done]. apply fsize_upd. intros r Hr. by apply Hf. }
  rewrite abs_node, lookup_upd_inode. cbn [Spec.nodes].
  destruct (decide (j = ino)) as [->|Hj].
  - rewrite lookup_alter_eq, abs_node.
    destruct (fs_inode d !! ino) as [r|] eqn:Hr; [|done]. cbn. f_equal.
    destruct (Hf r eq_refl) as (_ & Ht & ->). unfold node_of. f_equal.
    by apply payload_eq.
  - rewrite lookup_alter_ne, abs_node by done.
    destruct (fs_inode d !! j) as [r|]; [|done]. cbn. f_equal.
    unfold node_of. f_equal. by apply payload_eq.
Qed.

(** Columns a client of [Spec] does not see. *)
Definition hidden (r r' : Inode) : Prop :=
  i_mode r' = i_mode r ∧ i_uid r' = i_uid r ∧ i_gid r' = i_gid r ∧
  i_rdev r' = i_rdev r ∧ i_size r' = i_size r.

Lemma abs_hidden d ino f :
  (∀ r, hidden r (f r)) → abs cs (upd_inode ino f d) = abs cs d.
Proof.
  intros Hf. rewrite (abs_change d ino f id).
  - apply spec_eq; [done|]. intros j. cbn [Spec.nodes]. by rewrite alter_id.
  - intros r _. destruct (Hf r) as (Hm & Hu & Hg & Hd & Hs).
    by rewrite Hm, Hu, Hg, Hd.
Qed.

Lemma abs_set_dentries d m :
  abs cs (set_dentries m d) = Spec.mkFs m (Spec.nodes (abs cs d)).
Proof. done. Qed.

Lemma abs_purge d ino :
  abs cs (purge_db ino d) =
    Spec.mkFs (Spec.entries (abs cs d)) (delete ino (Spec.nodes (abs cs d))).
Proof.
  apply spec_eq; [done|]. intros j. cbn [Spec.nodes].
  rewrite lookup_delete, !abs_node.
  change (fs_inode (purge_db ino d)) with (delete ino (fs_inode d)).
  rewrite lookup_delete. case_decide as Hj; [done|].
  destruct (fs_inode d !! j) as [r|] eqn:Hr; [|done]. cbn. f_equal.
  unfold node_of. f_equal. apply payload_eq; [done|..].
  - change (fs_symlink (purge_db ino d)) with (delete ino (fs_symlink d)).
    by rewrite lookup_delete_ne.
  - apply contents_eq.
    + unfold fsize. change (fs_inode (purge_db ino d)) with (delete ino (fs_inode d)).
      by rewrite lookup_delete_ne.
    + intros idx. change (fs_data (purge_db ino d)) with (fs_data (del_data ino d)).
      by rewrite lookup_del_data, decide_False.
Qed.

(** A new row, whose payload is [pl] once [fs_symlink] is [sy]. *)
Lemma abs_new d ino r sq sy :
  fs_inode d !! ino = None → (∀ j, j ≠ ino → sy !! j = fs_symlink d !! j) →
  let d' := set_symlinks sy (set_seq sq (set_inodes (<[ino := r]> (fs_inode d)) d)) in
  abs cs d' =
    Spec.mkFs (Spec.entries (abs cs d))
      (<[ino := node_of cs d' ino r]> (Spec.nodes (abs cs d))).
Proof.
  intros Hnew Hsy d'. apply spec_eq; [done|]. intros j. cbn [Spec.nodes].
  rewrite lookup_insert, !abs_node. unfold d' at 2.
  cbn [fs_inode set_symlinks set_seq set_inodes]. rewrite lookup_insert.
  case_decide as Hj; subst; [done|].
  destruct (fs_inode d !! j) as [rj|] eqn:Hr; [|done]. cbn. f_equal.
  unfold node_of. f_equal. apply payload_eq; [done|..].
  - by apply Hsy.
  - apply contents_eq; [|done]. unfold fsize, d'.
    cbn [fs_inode set_symlinks set_seq set_inodes]. by rewrite lookup_insert_ne.
Qed.

(** A file of size 0 is empty. *)
Lemma contents_empty d ino : fsize d ino = 0 → contents cs d ino = [].
Proof. intros Hs. unfold contents. by rewrite Hs. Qed.

Lemma childless_abs d c :
  Spec.childless c (abs cs d) = true ↔ ∀ n, fs_dentry d !! (c, n) = None.
Proof.
  unfold Spec.childless. rewrite bool_decide_eq_true. split.
  - intros He n. apply eq_None_not_Some. intros [x Hx].
    apply (map_filter_empty_not_lookup _ _ (c, n) x He); done.
  - intros Hn. apply map_empty. intros [p n]. apply map_lookup_filter_None.
    right. intros x Hx. simpl. intros ->. cbn [abs Spec.entries] in Hx.
    by rewrite Hn in Hx.
Qed.

Lemma count_children_abs d c :
  (0 <? count_children c d) = negb (Spec.childless c (abs cs d)).
Proof.
  unfold count_children. destruct (Spec.childless c (abs cs d)) eqn:Hc; simpl.
  - pose proof (proj1 (childless_abs d c) Hc) as Hn.
    destruct (children c d) as [|[n x] l] eqn:Hl; [done|].
    assert (Hin : (n, x) ∈ children c d) by (rewrite Hl; left).
    apply elem_of_children in Hin. by rewrite Hn in Hin.
  - destruct (children c d) as [|e l] eqn:Hl; [|done].
    assert (Hn : Spec.childless c (abs cs d) = true); [|congruence].
    apply childless_abs. intros n. apply eq_None_not_Some. intros [x Hx].
    apply elem_of_children in Hx. rewrite Hl in Hx. by apply elem_of_nil in Hx.
Qed.
End Abstraction.

(** ** Refinement *)

(** [m] does in [w] what [spec] does on the abstraction; or it reports one of
    the engine's failures. *)
Definition refines {C A} (cs : Z) (m : M Db C A) (spec : Spec.t → FsError.t + Spec.t)
    (w : World Db C) : Prop :=
  match m w with
  | (Ok _, w') => spec (abs cs (w_db w)) = inr (abs cs (w_db w')) ∧ fs_wf cs (w_db w')
  | (Err e, w') =>
      (∃ fe, e = Error.Fs fe ∧ spec (abs cs (w_db w)) = inl fe ∧ w_db w' = w_db w) ∨
      Some e ∈ w_faults w
  | (Panic, _) => False
  end.

(** What is shown without failures holds with failures. *)
Lemma refines_stops {C A} cs (m : M Db C A) spec w `{!Stops m} :
  refines cs m spec (set_faults [] w) → refines cs m spec w.
Proof.
  unfold refines. intros H. destruct (stops (m:=m) w) as [(e & He & Hr)|(Hr & Hw & _)].
  - destruct (m w) as [r w1]. simpl in Hr. subst r. by right.
  - destruct (m w) as [r w1], (m (set_faults [] w)) as [r' w1']. simpl in Hr, Hw.
    subst r' w1'. destruct r as [a|e|]; [done| |done].
    destruct H as [H|H]; [by left|by apply elem_of_nil in H].
Qed.
