(* ===== verification/AgentFSOps.v ===== *)
(** * AgentFSOps: the operations refine their specification

    For each operation of [AgentFS]: in a well-formed filesystem it does what
    [Spec] says and keeps the tables well-formed.  The cache is the subject of
    [AgentFSCoherent]. *)
From S2P Require Import Prelude Types Engine Lru Schema FileIO FileIOSpec AgentFS.
From S2P Require Import AgentFSInv AgentFSSpec.

(** Link counts fit in the 32 bits they are read back in. *)
Definition small (d : Db) : Prop := Z.of_nat (size (fs_dentry d)) < 2 ^ 32.

(** [run], through the helpers of [AgentFS]. *)
Ltac run_fs :=
  cbv beta iota zeta delta
      [mbind M_bind mret udiv urem M_ret throw fs_err panic ok_or or_panic engine_call
       get_connection query query_row execute update now now_or_default
       now_unwrap with_mem transaction try fmap option_fmap option_map
       set_db set_mem set_faults set_tick w_db w_mem w_faults w_clock w_tick
       fst snd cache_insert cache_remove get_link_count getattr_with_conn sel_inode].

Section Ops.
Context {E : SqlEngine} {Lru : LruCache (Z * string) Z} (cs : Z).
Implicit Types (d : Db) (mem : lru (Z * string) Z).

Abbreviation W := (World Db (lru (Z * string) Z)).
Abbreviation Fs := (M Db (lru (Z * string) Z)).

(** ** Failures only stop the operations *)

#[export] Instance cache_insert_stops p n c : Stops (cache_insert p n c : Fs _).
Proof. unfold cache_insert. apply _. Qed.
#[export] Instance cache_remove_stops p n : Stops (cache_remove p n : Fs _).
Proof. unfold cache_remove. apply _. Qed.
#[export] Instance lookup_child_stops p n : Stops (lookup_child p n : Fs _).
Proof. unfold lookup_child, one_row. apply _. Qed.
#[export] Instance get_link_count_stops ino : Stops (get_link_count ino : Fs _).
Proof. unfold get_link_count. apply _. Qed.
#[export] Instance getattr_with_conn_stops ino : Stops (getattr_with_conn ino : Fs _).
Proof. unfold getattr_with_conn. apply _. Qed.
#[export] Instance purge_inode_stops ino : Stops (purge_inode ino : Fs _).
Proof. unfold purge_inode. apply _. Qed.
#[export] Instance replace_destination_stops p n src c : Stops (replace_destination p n src c : Fs _).
Proof. unfold replace_destination. apply _. Qed.
#[export] Instance move_entry_stops p n p' n' c b : Stops (move_entry p n p' n' c b : Fs _).
Proof. unfold move_entry. apply _. Qed.
#[export] Instance lookup_stops p n : Stops (lookup p n : Fs _).
Proof. unfold lookup. apply _. Qed.
#[export] Instance getattr_stops ino : Stops (getattr ino : Fs _).
Proof. unfold getattr. apply _. Qed.
#[export] Instance readlink_stops ino : Stops (readlink ino : Fs _).
Proof. unfold readlink. apply _. Qed.
#[export] Instance readdir_stops ino : Stops (readdir ino : Fs _).
Proof. unfold readdir. apply _. Qed.
#[export] Instance readdir_plus_stops ino : Stops (readdir_plus ino : Fs _).
Proof. unfold readdir_plus. apply _. Qed.
#[export] Instance chmod_stops ino mode : Stops (chmod ino mode : Fs _).
Proof. unfold chmod. apply _. Qed.
#[export] Instance chown_stops ino uid gid : Stops (chown ino uid gid : Fs _).
Proof. unfold chown. apply _. Qed.
#[export] Instance mkdir_stops p n mode uid gid : Stops (mkdir p n mode uid gid : Fs _).
Proof. unfold mkdir. apply _. Qed.
#[export] Instance create_file_stops p n mode uid gid : Stops (create_file cs p n mode uid gid : Fs _).
Proof. unfold create_file. apply _. Qed.
#[export] Instance mknod_stops p n mode rdev uid gid : Stops (mknod p n mode rdev uid gid : Fs _).
Proof. unfold mknod. apply _. Qed.
#[export] Instance symlink_stops p n target uid gid : Stops (symlink p n target uid gid : Fs _).
Proof. unfold symlink. apply _. Qed.
#[export] Instance link_stops ino p n : Stops (link ino p n : Fs _).
Proof. unfold link. apply _. Qed.
#[export] Instance unlink_stops p n : Stops (unlink p n : Fs _).
Proof. unfold unlink. apply _. Qed.
#[export] Instance rmdir_stops p n : Stops (rmdir p n : Fs _).
Proof. unfold rmdir. apply _. Qed.
#[export] Instance rename_stops p n p' n' : Stops (rename p n p' n' : Fs _).
Proof. unfold rename. apply _. Qed.
#[export] Instance statfs_stops : Stops (statfs : Fs _).
Proof. unfold statfs. apply _. Qed.

(** ** Readers leave the tables alone *)

#[export] Instance cache_insert_safe p n c : Safe (cache_insert p n c : Fs _).
Proof. unfold cache_insert. apply _. Qed.
#[export] Instance cache_remove_safe p n : Safe (cache_remove p n : Fs _).
Proof. unfold cache_remove. apply _. Qed.
#[export] Instance lookup_child_readonly p n : ReadOnly (lookup_child p n : Fs _).
Proof. unfold lookup_child, one_row. apply _. Qed.
#[export] Instance getattr_with_conn_readonly ino : ReadOnly (getattr_with_conn ino : Fs _).
Proof. unfold getattr_with_conn. apply _. Qed.
#[export] Instance get_link_count_readonly ino : ReadOnly (get_link_count ino : Fs _).
Proof. unfold get_link_count. apply _. Qed.
#[export] Instance lookup_readonly p n : ReadOnly (lookup p n : Fs _).
Proof. unfold lookup. apply _. Qed.
#[export] Instance getattr_readonly ino : ReadOnly (getattr ino : Fs _).
Proof. unfold getattr. apply _. Qed.
#[export] Instance readlink_readonly ino : ReadOnly (readlink ino : Fs _).
Proof. unfold readlink. apply _. Qed.
#[export] Instance readdir_readonly ino : ReadOnly (readdir ino : Fs _).
Proof. unfold readdir. apply _. Qed.
#[export] Instance readdir_plus_readonly ino : ReadOnly (readdir_plus ino : Fs _).
Proof. unfold readdir_plus. apply _. Qed.
#[export] Instance statfs_readonly : ReadOnly (statfs : Fs _).
Proof. unfold statfs. apply _. Qed.
#[export] Instance open_readonly ino flags : ReadOnly (open cs ino flags : Fs _).
Proof. unfold open. apply _. Qed.

(** ** Operations that succeed or change nothing *)

#[export] Instance create_file_atomic p n mode uid gid : Atomic (create_file cs p n mode uid gid : Fs _).
Proof. unfold create_file. apply _. Qed.
#[export] Instance rename_atomic p n p' n' : Atomic (rename p n p' n' : Fs _).
Proof. unfold rename. apply _. Qed.
#[export] Instance chmod_atomic ino mode : Atomic (chmod ino mode : Fs _).
Proof. unfold chmod. apply _. Qed.
#[export] Instance chown_atomic ino uid gid : Atomic (chown ino uid gid : Fs _).
Proof. unfold chown. apply _. Qed.

(** ** Helpers *)

Lemma lookup_child_run p n d mem clk t :
  lookup_child p n (mkWorld d mem [] (ticks clk) t) =
    (Ok (fs_dentry d !! (p, n)), mkWorld d mem [] (ticks clk) t).
Proof.
  unfold lookup_child, sel_dentry. run.
  by destruct (fs_dentry d !! (p, n)).
Qed.

Lemma get_link_count_run ino d mem clk t :
  get_link_count ino (mkWorld d mem [] (ticks clk) t) =
    (Ok (match fs_inode d !! ino with Some r => as_u32 (i_nlink r) | None => 0 end),
     mkWorld d mem [] (ticks clk) t).
Proof. done. Qed.

Lemma getattr_with_conn_run ino d mem clk t :
  getattr_with_conn ino (mkWorld d mem [] (ticks clk) t) =
    (Ok (build_stats_from_row ino <$> fs_inode d !! ino), mkWorld d mem [] (ticks clk) t).
Proof. done. Qed.

Lemma purge_inode_run ino d mem clk t :
  purge_inode ino (mkWorld d mem [] (ticks clk) t) =
    (Ok tt, mkWorld (purge_db ino d) mem [] (ticks clk) t).
Proof. done. Qed.

Lemma wf_core d : fs_wf cs d → core cs (λ _, 0) d.
Proof. by intros []. Qed.

(** An entry of the table leads to a row. *)
Lemma entry_row delta d p n c :
  core cs delta d → fs_dentry d !! (p, n) = Some c → ∃ r, fs_inode d !! c = Some r.
Proof. intros H Hc. by apply (co_dentry _ _ _ H) in Hc as [_ ?]. Qed.

(** ** Removing the entry of a file *)

(** The statements of [unlink] and of [replace_destination]: [f] updates the
    file and [g] the directory. *)
Definition drop_link (f : Inode → Inode) (p : Z) (n : string) (c : Z) (g : Inode → Inode)
    (d : Db) : Db :=
  let d1 := upd_inode c f (upd_inode p g (del_dentry p n d)) in
  match fs_inode d1 !! c with
  | Some r => if as_u32 (i_nlink r) =? 0 then purge_db c d1 else d1
  | None => purge_db c d1
  end.

Lemma drop_link_row f p n c g d r :
  fs_inode d !! c = Some r → p ≠ c →
  fs_inode (upd_inode c f (upd_inode p g (del_dentry p n d))) !! c = Some (f r).
Proof.
  intros Hr Hp. rewrite lookup_upd_inode, decide_True, lookup_upd_inode by done.
  rewrite decide_False by done. cbn [fs_inode del_dentry set_dentries]. by rewrite Hr.
Qed.

Lemma drop_link_ok f p n c g d r :
  fs_wf cs d → small d → fs_dentry d !! (p, n) = Some c →
  fs_inode d !! c = Some r → dir_row r = false →
  (∀ r, adjusts (-1) r (f r)) → (∀ r, hidden r (f r)) →
  (∀ r, adjusts 0 r (g r)) → (∀ r, hidden r (g r)) →
  fs_wf cs (drop_link f p n c g d) ∧
  abs cs (drop_link f p n c g d) = Spec.detach p n c (abs cs d).
Proof.
  intros [H Hset] Hsmall Hc Hr Hf Hadj Hfhid Hg Hhid.
  assert (Hpc : p ≠ c).
  { intros ->. by rewrite (file_childless _ _ _ _ _ n H Hr Hf) in Hc. }
  pose proof (core_del_dentry _ _ _ _ _ _ H Hc) as H1.
  pose proof (core_upd _ _ _ p 0 g H1 (λ r _, Hg r)) as H2.
  pose proof (core_upd _ _ _ c (-1) f H2 (λ r _, Hadj r)) as H3.
  unfold drop_link. set (d1 := upd_inode c f _) in *.
  assert (Hrow : fs_inode d1 !! c = Some (f r)) by by apply drop_link_row.
  assert (Hl : links d1 c = links d c - 1).
  { change (links d1 c) with (links (del_dentry p n d) c). unfold del_dentry.
    by rewrite (links_delete _ _ _ _ _ Hc), decide_True. }
  assert (Hn : i_nlink (f r) = links d1 c).
  { rewrite (adj_nlink _ _ _ (Hadj r)), (co_files _ _ _ H _ _ Hr Hf), Hl. lia. }
  assert (H4 : core cs (λ _, 0) d1).
  { eapply core_ext; [exact H3|]. intros j ? _ _. unfold bump. repeat case_decide; lia. }
  assert (Hset1 : settled_except (Some c) d1).
  { eapply settled_upd; [|intros; apply Hadj|by left].
    eapply settled_upd; [by apply settled_weaken|intros; apply Hg|right; lia]. }
  assert (Habs : abs cs d1 = Spec.mkFs (delete (p, n) (Spec.entries (abs cs d)))
                               (Spec.nodes (abs cs d))).
  { unfold d1. rewrite abs_hidden by done. by rewrite abs_hidden. }
  pose proof (links_nonneg d1 c). pose proof (links_le_size d c).
  unfold small in Hsmall.
  rewrite Hrow, Hn, as_u32_id by (unfold in_u32; lia).
  unfold Spec.detach. rewrite <-Habs.
  assert (Hrefs : Nat.eqb (Spec.refs c (abs cs d1)) 0 = (links d1 c =? 0)).
  { rewrite <-(refs_links cs). destruct (Spec.refs c (abs cs d1)); done. }
  rewrite Hrefs. destruct (Z.eqb_spec (links d1 c) 0) as [Hz|Hz].
  - split; [|apply abs_purge]. split.
    + apply core_purge; [done|done|by eapply (root_not_file _ _ _ _ r H)|].
      intros m. apply (file_childless _ _ _ _ (f r) m H4 Hrow).
      by rewrite (adjusts_dir _ _ _ (Hadj r)).
    + by apply settled_purge.
  - split; [|by destruct (abs cs d1)]. split; [done|].
    eapply settled_close; [exact Hset1|]. intros r' Hr' Hd'. simplify_eq.
    split; [lia|]. rewrite (adjusts_lnk _ _ _ (Hadj r)).
    by apply (Hset c r).
Qed.

Lemma unlink_healthy p n mem d clk t :
  fs_wf cs d → small d → refines cs (unlink p n) (Spec.unlink p n) (mkWorld d mem [] (ticks clk) t).
Proof.
  intros H Hs. unfold refines, unlink, Spec.unlink, Spec.check_name. cbn [w_db].
  destruct (MAX_NAME_LEN <? strlen n); [by left; eexists|].
  run. rewrite lookup_child_run. run. change (Spec.entries (abs cs d)) with (fs_dentry d).
  destruct (fs_dentry d !! (p, n)) as [c|] eqn:Hc; [|by left; eexists].
  run_fs. destruct (entry_row _ _ _ _ _ (wf_core _ H) Hc) as [r Hr].
  rewrite (abs_row _ _ _ _ Hr), is_directory_node, Hr, has_type_as_u32.
  change (has_type (i_mode r) S_IFDIR) with (dir_row r).
  destruct (dir_row r) eqn:Hd; run_fs; [by left; eexists|].
  set (f := set_ctime (clk t) ∘ set_nlink (λ k, k - 1)).
  destruct (drop_link_ok f p n c (touch (clk t)) d r) as [Hwf Habs];
    [done..|intros; unfold f; simpl; eauto with adjusts|done|intros; eauto with adjusts|done|].
  unfold drop_link in Hwf, Habs.
  assert (Hp : p ≠ c).
  { intros ->. by rewrite (file_childless _ _ _ _ _ n (wf_core _ H) Hr Hd) in Hc. }
  pose proof (drop_link_row f p n c (touch (clk t)) d r Hr Hp) as Hrow.
  rewrite Hrow in Hwf, Habs |- *.
  rewrite <-Habs. destruct (as_u32 _ =? 0); [rewrite purge_inode_run|]; by split.
Qed.
(** ** Adding an entry *)

(** The insertion of an entry for [c], and the updates of the rows of [c]
    ([f]) and of the directory ([g]) that follow.  [k] links of [c] are not
    counted yet. *)
Lemma attach_ok d delta p n c rc f g (k : Z) :
  core cs delta d → settled_except (Some c) d →
  (∀ j, j ≠ c → delta j = 0) → is_dir d p → fs_dentry d !! (p, n) = None →
  fs_inode d !! c = Some rc →
  (dir_row rc = true → links d c = 0 ∧ c ≠ ROOT_INO) →
  (dir_row rc = false → k = 1 - delta c) →
  (lnk_row rc = true → is_Some (fs_symlink d !! c)) → p ≠ c →
  adjusts k rc (f rc) → (∀ r, hidden r (f r)) →
  (∀ r, ∃ j, adjusts j r (g r)) → (∀ r, hidden r (g r)) →
  let d' := set_dentries (<[(p, n) := c]> (fs_dentry d)) d in
  fs_wf cs (upd_inode p g (upd_inode c f d')) ∧
  abs cs (upd_inode p g (upd_inode c f d')) = Spec.attach p n c (abs cs d).
Proof.
  intros H Hset Hdelta Hp Hn Hrc Hdir Hfile Hlnk Hpc Hf Hfh Hg Hgh d'.
  split; [|by rewrite !abs_hidden].
  assert (H1 : core cs (bump c (-1) delta) d').
  { eapply core_ins_dentry; [exact H|exact Hp| |by apply ins_dentry_some].
    split; [by exists rc|]. intros Hd%(is_dir_row _ _ _ Hrc). auto. }
  destruct Hp as (rp & Hrp & Hdp). destruct (Hg rp) as [kp Hkp].
  assert (H2 : core cs (bump c k (bump c (-1) delta)) (upd_inode c f d')).
  { apply core_upd; [done|]. intros r Hr. change (fs_inode d !! c = Some r) in Hr.
    by simplify_eq. }
  assert (Hrp' : fs_inode (upd_inode c f d') !! p = Some rp)
    by by rewrite lookup_upd_inode, decide_False.
  assert (Hgp : ∀ r, fs_inode (upd_inode c f d') !! p = Some r → adjusts kp r (g r)).
  { intros r Hr. by simplify_eq. }
  pose proof (core_upd _ _ _ p kp g H2 Hgp) as H3. split.
  - eapply core_ext; [exact H3|]. intros j r (r0 & Hr0 & ->)%upd_inode_row Hd.
    unfold bump. destruct (decide (j = p)) as [->|Hjp].
    { simplify_eq. rewrite (adjusts_dir _ _ _ Hkp) in Hd. congruence. }
    case_decide as Hjc; [subst|rewrite (Hdelta j) by done; lia].
    rewrite lookup_upd_inode, decide_True in Hr0 by done.
    change (fs_inode d') with (fs_inode d) in Hr0. rewrite Hrc in Hr0. simplify_eq/=.
    rewrite (adjusts_dir _ _ _ Hf) in Hd. rewrite (Hfile Hd). lia.
  - apply (settled_close c).
    + eapply settled_upd; [|exact Hgp|right; right; by exists rp].
      eapply (settled_upd _ _ _ k); [exact Hset| |by left].
      intros r Hr. change (fs_inode d !! c = Some r) in Hr. by simplify_eq.
    + intros r Hr Hd.
      assert (Hr' : r = f rc).
      { rewrite lookup_upd_inode, decide_False in Hr by done.
        rewrite lookup_upd_inode, decide_True in Hr by done.
        change (fs_inode d') with (fs_inode d) in Hr. rewrite Hrc in Hr.
        by simplify_eq/=. }
      subst r. rewrite (adjusts_dir _ _ _ Hf) in Hd.
      rewrite (adjusts_lnk _ _ _ Hf). split; [|exact Hlnk].
      rewrite (adj_nlink _ _ _ Hf), (co_files _ _ _ H _ _ Hrc Hd), (Hfile Hd).
      pose proof (links_nonneg d c). lia.
Qed.

(** A new row and its entry: [sy] are the symlinks with that of the row. *)
Lemma create_ok d p n row ino d1 d2 f g sy :
  fs_wf cs d → is_dir d p → fs_dentry d !! (p, n) = None →
  ins_inode row d = Some (ino, d1) → 0 <= i_size row < 2 ^ 63 →
  (∀ r, ∃ k, adjusts k r (f r)) → (∀ r, hidden r (f r)) →
  (dir_row row = false → i_nlink (f row) = 1) →
  (∀ r, ∃ j, adjusts j r (g r)) → (∀ r, hidden r (g r)) →
  d2 = set_symlinks sy d1 →
  (sy = fs_symlink d1 ∧ lnk_row row = false ∨
   ∃ t, ins_symlink ino t d1 = Some d2 ∧ lnk_row row = true) →
  let d' := set_dentries (<[(p, n) := ino]> (fs_dentry d)) d2 in
  fs_wf cs (upd_inode p g (upd_inode ino f d')) ∧
  abs cs (upd_inode p g (upd_inode ino f d')) =
    Spec.attach p n ino
      (Spec.mkFs (fs_dentry d) (<[ino := node_of cs d2 ino row]> (Spec.nodes (abs cs d)))).
Proof.
  intros [H Hset] Hp Hn Hins Hsize Hf Hfh Hnl Hg Hgh Hd2 Hsy d'.
  destruct (ins_inode_fresh _ _ _ _ _ _ H Hins) as (Hnew & Hnosy & Hgt & Hlinks & Hd1).
  assert (Hrow : fs_inode d2 !! ino = Some row).
  { subst d2 d1. apply lookup_insert_eq. }
  assert (Hp2 : is_dir d2 p).
  { destruct Hp as (rp & Hrp & Hd). exists rp. split; [|done]. subst d2 d1.
    cbn [fs_inode set_symlinks set_seq set_inodes].
    rewrite lookup_insert_ne; congruence. }
  assert (H1 : core cs (bump ino (i_nlink row) (λ _, 0)) d2).
  { pose proof (core_ins_inode _ _ _ row ino d1 H eq_refl Hsize Hins) as H1.
    destruct Hsy as [[-> _]|(t & Ht & Hl)]; [by destruct d1; subst d2|].
    eapply core_ins_symlink; [exact H1| |exact Hl|exact Ht]. subst d1.
    apply lookup_insert_eq. }
  assert (Hset2 : settled_except (Some ino) d2).
  { pose proof (settled_ins_inode _ _ _ _ Hset Hins) as Hset1.
    destruct Hsy as [[-> _]|(t & Ht & Hl)]; [by destruct d1; subst d2|].
    by eapply settled_ins_symlink. }
  destruct (Hf row) as [k Hk].
  edestruct (attach_ok d2 _ p n ino row f g k H1 Hset2) as [Hwf Habs];
    try done; [..|].
  - intros j Hj. unfold bump. by rewrite decide_False.
  - subst d2 d1. done.
  - intros _. split; [by subst d2 d1|].
    destruct (co_root _ _ _ H) as (rr & Hrr & _).
    pose proof (co_seq _ _ _ H ROOT_INO (ex_intro _ rr Hrr)). unfold ROOT_INO in *. lia.
  - intros Hd. unfold bump. rewrite decide_True by done.
    pose proof (adj_nlink _ _ _ Hk). specialize (Hnl Hd). lia.
  - intros Hl. destruct Hsy as [[_ Hl']|(t & Ht & _)]; [congruence|].
    unfold ins_symlink in Ht. destruct (fs_symlink d1 !! ino); [done|].
    injection Ht as Ht. exists t. rewrite <-Ht. apply lookup_insert_eq.
  - intros ->. destruct Hp as (rp & Hrp & _). congruence.
  - assert (Hde : fs_dentry d2 = fs_dentry d) by by subst d2 d1.
    unfold d'. rewrite <-Hde at 1 2. split; [done|]. rewrite Habs. f_equal.
    assert (Hnew2 : abs cs d2 = Spec.mkFs (Spec.entries (abs cs d))
                      (<[ino := node_of cs d2 ino row]> (Spec.nodes (abs cs d)))).
    { subst d2 d1. apply abs_new; [done|]. intros j Hj.
      destruct Hsy as [[-> _]|(t & Ht & _)]; [done|].
      unfold ins_symlink in Ht. destruct (_ !! ino); [done|].
      injection Ht as Ht. rewrite <-Ht. by apply lookup_insert_ne. }
    rewrite Hnew2. done.
Qed.
Lemma upd_inode_id ino d : upd_inode ino id d = d.
Proof.
  unfold upd_inode. rewrite alter_id by done. by destruct d.
Qed.

Lemma touch_hidden t r : hidden r (touch t r).
Proof. done. Qed.
Lemma touch_adjusts t r : ∃ k, adjusts k r (touch t r).
Proof. exists 0. auto with adjusts. Qed.

Lemma ins_inode_run row d :
  ins_inode row d = Some (next_rowid (inode_seq d),
    set_seq (next_rowid (inode_seq d))
      (set_inodes (<[next_rowid (inode_seq d) := row]> (fs_inode d)) d)).
Proof. done. Qed.

Lemma other_type m ty ty' : has_type m ty = true → ty ≠ ty' → has_type m ty' = false.
Proof.
  intros H Hne. destruct (has_type m ty') eqn:H'; [|done].
  by pose proof (has_type_inj _ _ _ H H').
Qed.

Lemma create_file_healthy p n mode uid gid mem d clk t :
  fs_wf cs d → is_dir d p →
  refines cs (create_file cs p n mode uid gid)
    (Spec.create p n (next_rowid (inode_seq d))
       (Spec.mkNode (Z.lor S_IFREG (Z.land mode 0xfff)) uid gid 0 (Spec.Data [])))
    (mkWorld d mem [] (ticks clk) t).
Proof.
  intros H Hp. unfold refines, create_file, Spec.create, Spec.check_name. cbn [w_db].
  destruct (MAX_NAME_LEN <? strlen n); [by left; eexists|].
  run. rewrite lookup_child_run. run. change (Spec.entries (abs cs d)) with (fs_dentry d).
  destruct (fs_dentry d !! (p, n)) as [c|] eqn:Hc; [by left; eexists|].
  set (row := new_row _ _ _ _ _ _ _).
  assert (Hty : has_type (i_mode row) S_IFREG = true) by by apply has_type_lor.
  pose proof (ins_inode_run row d) as Hins. rewrite Hins.
  set (ino := next_rowid (inode_seq d)) in *. set (d1 := set_seq ino _) in *.
  run_fs. rewrite (ins_dentry_some p n ino d1) by exact Hc. run_fs.
  edestruct (create_ok d p n row ino d1 d1 id (touch (clk t)) (fs_symlink d1) H Hp Hc Hins)
    as [Hwf Habs]; try done; [by intros; exists 0; auto with adjusts|
      by intros; apply touch_adjusts|left; split; [done|by eapply other_type]|].
  rewrite upd_inode_id in Hwf, Habs. split; [|exact Hwf].
  change (fs_dentry d1) with (fs_dentry d). rewrite Habs. do 4 f_equal.
  unfold node_of, payload_of, dir_row, lnk_row.
  rewrite !(other_type _ _ _ Hty), contents_empty; [done| |done..].
  unfold fsize. replace (fs_inode d1 !! ino) with (Some row); [done|].
  symmetry. apply lookup_insert_eq.
Qed.
Lemma adjusts_set_nlink k r : adjusts (k - i_nlink r) r (set_nlink (λ _, k) r).
Proof. split; intros; simpl; done || lia. Qed.

Lemma mkdir_healthy p n mode uid gid mem d clk t :
  fs_wf cs d → is_dir d p →
  refines cs (mkdir p n mode uid gid)
    (Spec.create p n (next_rowid (inode_seq d))
       (Spec.mkNode (Z.lor S_IFDIR (Z.land mode 0xfff)) uid gid 0 Spec.Directory))
    (mkWorld d mem [] (ticks clk) t).
Proof.
  intros H Hp. unfold refines, mkdir, Spec.create, Spec.check_name. cbn [w_db].
  destruct (MAX_NAME_LEN <? strlen n); [by left; eexists|].
  run. rewrite lookup_child_run. run. change (Spec.entries (abs cs d)) with (fs_dentry d).
  destruct (fs_dentry d !! (p, n)) as [c|] eqn:Hc; [by left; eexists|].
  set (row := new_row _ _ _ _ _ _ _).
  assert (Hty : dir_row row = true) by by apply has_type_lor.
  pose proof (ins_inode_run row d) as Hins. rewrite Hins.
  set (ino := next_rowid (inode_seq d)) in *. set (d1 := set_seq ino _) in *.
  run_fs. rewrite (ins_dentry_some p n ino d1) by exact Hc. run_fs.
  set (g := touch (clk t) ∘ set_nlink (λ k, k + 1)).
  edestruct (create_ok d p n row ino d1 d1 (set_nlink (λ _, 2)) g (fs_symlink d1)
               H Hp Hc Hins) as [Hwf Habs]; try done;
    [by intros r; exists (2 - i_nlink r); apply adjusts_set_nlink|congruence|
     by intros; exists 1; unfold g; simpl; auto with adjusts|
     left; split; [done|by eapply other_type]|].
  split; [|exact Hwf]. change (fs_dentry d1) with (fs_dentry d). rewrite Habs.
  do 4 f_equal. unfold node_of, payload_of. by rewrite Hty.
Qed.

Lemma mknod_healthy p n mode rdev uid gid mem d clk t :
  fs_wf cs d → is_dir d p → has_type mode S_IFDIR = false → has_type mode S_IFLNK = false →
  refines cs (mknod p n mode rdev uid gid)
    (Spec.create p n (next_rowid (inode_seq d))
       (Spec.mkNode mode uid gid (as_i64 rdev) (Spec.Data [])))
    (mkWorld d mem [] (ticks clk) t).
Proof.
  intros H Hp Hdir Hlnk. unfold refines, mknod, Spec.create, Spec.check_name. cbn [w_db].
  destruct (MAX_NAME_LEN <? strlen n); [by left; eexists|].
  run. rewrite lookup_child_run. run. change (Spec.entries (abs cs d)) with (fs_dentry d).
  destruct (fs_dentry d !! (p, n)) as [c|] eqn:Hc; [by left; eexists|].
  set (row := new_row _ _ _ _ _ _ _).
  pose proof (ins_inode_run row d) as Hins. rewrite Hins.
  set (ino := next_rowid (inode_seq d)) in *. set (d1 := set_seq ino _) in *.
  run_fs. rewrite (ins_dentry_some p n ino d1) by exact Hc. run_fs.
  edestruct (create_ok d p n row ino d1 d1 (set_nlink (λ k, k + 1)) (touch (clk t))
               (fs_symlink d1) H Hp Hc Hins) as [Hwf Habs]; try done;
    [by intros r; exists 1; apply adjusts_incr|by intros; apply touch_adjusts|by left|].
  split; [|exact Hwf]. change (fs_dentry d1) with (fs_dentry d). rewrite Habs.
  do 4 f_equal. unfold node_of, payload_of.
  change (dir_row row) with (has_type mode S_IFDIR).
  change (lnk_row row) with (has_type mode S_IFLNK).
  rewrite Hdir, Hlnk, contents_empty; [done|].
  unfold fsize. replace (fs_inode d1 !! ino) with (Some row); [done|].
  symmetry. apply lookup_insert_eq.
Qed.

Lemma symlink_healthy p n target uid gid mem d clk t :
  fs_wf cs d → is_dir d p → strlen target < 2 ^ 63 →
  refines cs (symlink p n target uid gid)
    (Spec.create p n (next_rowid (inode_seq d))
       (Spec.mkNode (Z.lor S_IFLNK 0x1ff) uid gid 0 (Spec.Link target)))
    (mkWorld d mem [] (ticks clk) t).
Proof.
  intros H Hp Hlen. unfold refines, symlink, Spec.create, Spec.check_name. cbn [w_db].
  destruct (MAX_NAME_LEN <? strlen n); [by left; eexists|].
  run. rewrite lookup_child_run. run. change (Spec.entries (abs cs d)) with (fs_dentry d).
  destruct (fs_dentry d !! (p, n)) as [c|] eqn:Hc; [by left; eexists|].
  assert (Hsz : 0 <= as_i64 (strlen target) < 2 ^ 63).
  { rewrite as_i64_id; unfold strlen, in_i64 in *; lia. }
  set (row := new_row _ _ _ _ _ _ _).
  assert (Hty : lnk_row row = true) by done.
  pose proof (ins_inode_run row d) as Hins. rewrite Hins.
  destruct (ins_inode_fresh _ _ _ _ _ _ (wf_core _ H) Hins) as (_ & Hnosy & _).
  set (ino := next_rowid (inode_seq d)) in *. set (d1 := set_seq ino _) in *.
  assert (Hsy : ins_symlink ino target d1 =
    Some (set_symlinks (<[ino := target]> (fs_symlink d1)) d1)).
  { unfold ins_symlink. change (fs_symlink d1) with (fs_symlink d). by rewrite Hnosy. }
  set (d2 := set_symlinks _ d1) in *.
  run_fs. rewrite Hsy. run_fs.
  rewrite (ins_dentry_some p n ino d2) by exact Hc. run_fs.
  edestruct (create_ok d p n row ino d1 d2 (set_nlink (λ k, k + 1)) (touch (clk t))
               (fs_symlink d2) H Hp Hc Hins) as [Hwf Habs];
    [done|by intros r; exists 1; apply adjusts_incr|done|done|
     by intros; apply touch_adjusts|done|reflexivity|right; by exists target|].
  split; [|exact Hwf]. change (fs_dentry d2) with (fs_dentry d). rewrite Habs.
  do 4 f_equal. unfold node_of, payload_of. rewrite Hty, (lnk_not_dir _ Hty).
  do 2 f_equal. change (fs_symlink d2) with (<[ino := target]> (fs_symlink d1)).
  by rewrite lookup_insert_eq.
Qed.

Lemma link_healthy ino p n mem d clk t :
  fs_wf cs d → is_dir d p →
  refines cs (link ino p n) (Spec.link ino p n) (mkWorld d mem [] (ticks clk) t).
Proof.
  intros H Hp. unfold refines, link, Spec.link, Spec.check_name. cbn [w_db].
  destruct (MAX_NAME_LEN <? strlen n); [by left; eexists|].
  run_fs. rewrite abs_node. destruct (fs_inode d !! ino) as [r|] eqn:Hr;
    [|by left; eexists]. cbn [fmap option_fmap option_map].
  rewrite is_directory_node, has_type_as_u32.
  change (has_type (i_mode r) S_IFDIR) with (dir_row r).
  destruct (dir_row r) eqn:Hd; [by left; eexists|].
  rewrite lookup_child_run. run_fs. change (Spec.entries (abs cs d)) with (fs_dentry d).
  destruct (fs_dentry d !! (p, n)) as [c|] eqn:Hc; [by left; eexists|].
  rewrite (ins_dentry_some p n ino d) by exact Hc. run_fs.
  set (f := set_ctime (clk t) ∘ set_nlink (λ k, k + 1)).
  assert (Hpi : p ≠ ino).
  { intros ->. apply (is_dir_row _ _ _ Hr) in Hp. congruence. }
  edestruct (attach_ok d (λ _, 0) p n ino r f (touch (clk t)) 1 (wf_core _ H))
    as [Hwf Habs]; try done;
    [by apply settled_weaken, H|congruence|by apply (proj2 H ino r)|by intros; apply touch_adjusts|].
  rewrite lookup_upd_inode, decide_False, lookup_upd_inode, decide_True by done.
  cbn [fs_inode set_dentries]. rewrite Hr. split; [by rewrite Habs|exact Hwf].
Qed.
(** ** Updates that a client does not see *)

(** [d'] is [d] but for hidden columns. *)
Definition alike (d d' : Db) : Prop :=
  fs_wf cs d' ∧ abs cs d' = abs cs d ∧ ∀ i, is_dir d i → is_dir d' i.

Lemma alike_refl d : fs_wf cs d → alike d d.
Proof. by refine (λ H, conj H (conj _ _)). Qed.

Lemma alike_trans d1 d2 d3 : alike d1 d2 → alike d2 d3 → alike d1 d3.
Proof. intros (_ & Ha & Hd) (? & Ha' & Hd'). refine (conj _ (conj _ _)); [done|congruence|auto]. Qed.

Lemma is_dir_upd d ino f i :
  (∀ r, ∃ k, adjusts k r (f r)) → is_dir d i → is_dir (upd_inode ino f d) i.
Proof.
  intros Hf (r & Hr & Hd). unfold is_dir. rewrite lookup_upd_inode, Hr.
  case_decide; [|by exists r]. exists (f r). split; [done|].
  destruct (Hf r) as [k Hk]. by rewrite (adjusts_dir _ _ _ Hk).
Qed.

(** A row of a directory, any column that counts links or time. *)
Lemma alike_upd_dir d ino f :
  fs_wf cs d → is_dir d ino →
  (∀ r, ∃ k, adjusts k r (f r)) → (∀ r, hidden r (f r)) →
  alike d (upd_inode ino f d).
Proof.
  intros [H Hset] Hd Hf Hh. refine (conj _ (conj _ _)); [|by apply abs_hidden|by intros; apply is_dir_upd].
  pose proof Hd as (r & Hr & Hdr). destruct (Hf r) as [k Hk].
  assert (Hk' : ∀ r', fs_inode d !! ino = Some r' → adjusts k r' (f r')).
  { intros r' Hr'. by simplify_eq. }
  split; [|eapply settled_upd; eauto].
  eapply core_ext; [by apply (core_upd _ (λ _, 0) _ _ k)|].
  intros j r' (r0 & Hr0 & ->)%upd_inode_row Hd'. unfold bump.
  case_decide; [subst|lia]. simplify_eq.
  rewrite (adjusts_dir _ _ _ Hk) in Hd'. congruence.
Qed.

(** Any row, columns that hold times. *)
Lemma alike_upd d ino f :
  fs_wf cs d → (∀ r, adjusts 0 r (f r)) → (∀ r, hidden r (f r)) →
  alike d (upd_inode ino f d).
Proof.
  intros [H Hset] Hf Hh. refine (conj _ (conj _ _)); [|by apply abs_hidden|].
  - split; [|eapply settled_upd; eauto; right; lia].
    eapply core_ext; [by apply (core_upd _ (λ _, 0) _ _ 0)|].
    intros j r' _ _. unfold bump. case_decide; lia.
  - intros. apply is_dir_upd; [|done]. intros r. by exists 0.
Qed.

(** ** Removing the entry of a directory *)

Lemma drop_dir_ok d p n c f :
  fs_wf cs d → fs_dentry d !! (p, n) = Some c → is_dir d c → c ≠ ROOT_INO →
  Spec.childless c (abs cs d) = true →
  (∀ r, ∃ k, adjusts k r (f r)) → (∀ r, hidden r (f r)) →
  let d1 := upd_inode c f (del_dentry p n d) in
  fs_wf cs d1 ∧ abs cs d1 = Spec.detach_dir p n c false (abs cs d) ∧
  (∀ i, is_dir d i → is_dir d1 i).
Proof.
  intros [H Hset] Hc Hdir Hroot Hno Hf Hh d1.
  assert (Hwf : fs_wf cs (del_dentry p n d)).
  { split; [|done]. eapply core_ext; [by apply core_del_dentry|].
    intros j r Hr Hd. unfold bump. case_decide; [subst|done].
    apply (is_dir_row _ _ _ Hr) in Hdir. congruence. }
  destruct (alike_upd_dir (del_dentry p n d) c f) as (Hwf1 & Ha & Hd); [done..|].
  fold d1 in Hwf1, Ha, Hd. split_and!; [done| |done]. by rewrite Ha.
Qed.

Lemma purge_dir_ok d c :
  fs_wf cs d → links d c = 0 → c ≠ ROOT_INO → (∀ n, fs_dentry d !! (c, n) = None) →
  fs_wf cs (purge_db c d).
Proof.
  intros [H Hset] Hl Hc Hno. split.
  - by apply core_purge.
  - by apply settled_purge, settled_weaken.
Qed.

(** A directory that lost its entry has no other one. *)
Lemma dir_unlinked d p n c f :
  core cs (λ _, 0) d → fs_dentry d !! (p, n) = Some c → is_dir d c →
  links (upd_inode c f (del_dentry p n d)) c = 0.
Proof.
  intros H Hc Hd. change (links (del_dentry p n d) c = 0). unfold del_dentry.
  rewrite (links_delete _ _ _ _ _ Hc), decide_True by done.
  destruct (co_dirs _ _ _ H _ Hd) as [? _]. pose proof (links_pos _ _ _ _ Hc). lia.
Qed.
(** Does the node of the directory behind [(p, n)] go with its entry?  Only
    when its link count drops to 0. *)
Definition dir_gone (p : Z) (n : string) (d : Db) : bool :=
  match fs_dentry d !! (p, n) with
  | Some c => match fs_inode d !! c with
              | Some r => as_u32 (i_nlink r - 1) =? 0
              | None => true
              end
  | None => false
  end.

Lemma rmdir_healthy p n mem d clk t :
  fs_wf cs d → is_dir d p →
  refines cs (rmdir p n) (Spec.rmdir p n (dir_gone p n d)) (mkWorld d mem [] (ticks clk) t).
Proof.
  intros H Hp. unfold refines, rmdir, Spec.rmdir, Spec.check_name. cbn [w_db].
  destruct (MAX_NAME_LEN <? strlen n); [by left; eexists|].
  run. rewrite lookup_child_run. run. change (Spec.entries (abs cs d)) with (fs_dentry d).
  unfold dir_gone. destruct (fs_dentry d !! (p, n)) as [c|] eqn:Hc; [|by left; eexists].
  destruct (Z.eqb_spec c ROOT_INO) as [Hroot|Hroot]; [by left; eexists|].
  run_fs. destruct (entry_row _ _ _ _ _ (wf_core _ H) Hc) as [r Hr].
  rewrite (abs_row _ _ _ _ Hr), is_directory_node, Hr, has_type_as_u32.
  change (has_type (i_mode r) S_IFDIR) with (dir_row r).
  destruct (dir_row r) eqn:Hd; cbn [negb]; run_fs; [|by left; eexists].
  rewrite (count_children_abs cs). destruct (Spec.childless c (abs cs d)) eqn:Hno;
    run_fs; [|by left; eexists]. cbn [negb].
  set (f := set_nlink (λ k, k - 1)). set (g := touch (clk t) ∘ f).
  assert (Hcd : is_dir d c) by by exists r.
  assert (Hf : ∀ r, ∃ k, adjusts k r (f r)) by (intros r'; exists (-1); apply adjusts_decr).
  assert (Hg : ∀ r, ∃ k, adjusts k r (g r)).
  { intros r'; exists (-1); unfold g; simpl; auto with adjusts. }
  destruct (drop_dir_ok d p n c f) as (Hwf & Ha & Hdirs); [done..|].
  set (d1 := upd_inode c f (del_dentry p n d)) in *.
  destruct (alike_upd_dir d1 p g Hwf (Hdirs _ Hp) Hg) as (Hwf2 & Ha2 & Hdirs2); [done|].
  set (d2 := upd_inode p g d1) in *.
  assert (Hpc : p ≠ c).
  { intros ->. apply (childless_abs cs) with (n := n) in Hno. congruence. }
  assert (Hrow : fs_inode d2 !! c = Some (f r)).
  { unfold d2. rewrite lookup_upd_inode, decide_False by done. unfold d1.
    rewrite lookup_upd_inode, decide_True by done. cbn. by rewrite Hr. }
  rewrite Hrow. change (i_nlink (f r)) with (i_nlink r - 1).
  rewrite <-Ha2 in Ha. unfold Spec.detach_dir in Ha |- *.
  destruct (as_u32 _ =? 0); [|by rewrite Ha].
  erewrite <-purge_db_dir; [|exact (wf_core _ Hwf2)|by apply Hdirs2, Hdirs].
  rewrite abs_purge, Ha. split; [done|]. apply purge_dir_ok; [done| |done|].
  - by apply (dir_unlinked d p n c f (wf_core _ H)).
  - intros m. apply lookup_delete_None. right. revert m. by apply (childless_abs cs).
Qed.
(** ** Renaming *)

Lemma entry_not_root d p n c :
  core cs (λ _, 0) d → fs_dentry d !! (p, n) = Some c → c ≠ ROOT_INO.
Proof.
  intros H Hc ->. pose proof (links_pos _ _ _ _ Hc).
  destruct (co_dirs _ _ _ H _ (co_root _ _ _ H)) as [_ Hz].
  specialize (Hz eq_refl). lia.
Qed.

(** What the replacement of the destination [c'] leaves. *)
Definition replaced (d : Db) (c' : Z) (a : Spec.t) (d1 : Db) : Prop :=
  fs_wf cs d1 ∧ abs cs d1 = a ∧ ∀ i, is_dir d i → i ≠ c' → is_dir d1 i.

(** A directory, whatever happens to its row. *)
Lemma replace_dir_ok d p n c r tm :
  fs_wf cs d → fs_dentry d !! (p, n) = Some c → fs_inode d !! c = Some r →
  dir_row r = true → Spec.childless c (abs cs d) = true →
  let d1 := upd_inode c (set_ctime tm ∘ set_nlink (λ k, k - 1)) (del_dentry p n d) in
  replaced d c (Spec.detach_dir p n c (as_u32 (i_nlink r - 1) =? 0) (abs cs d))
    (if as_u32 (i_nlink r - 1) =? 0 then purge_db c d1 else d1).
Proof.
  intros H Hc Hr Hd Hno d1. pose proof (entry_not_root _ _ _ _ (wf_core _ H) Hc).
  assert (Hcd : is_dir d c) by by exists r.
  edestruct (drop_dir_ok d p n c (set_ctime tm ∘ set_nlink (λ k, k - 1)))
    as (Hwf & Ha & Hdirs); [done..| |done|].
  { intros r'. exists (-1). simpl. auto with adjusts. }
  fold d1 in Hwf, Ha, Hdirs. destruct (as_u32 _ =? 0); [|by split_and!; auto].
  refine (conj _ (conj _ _)).
  - apply purge_dir_ok; [done|by apply (dir_unlinked d p n c _ (wf_core _ H))|done|].
    intros m. apply lookup_delete_None. right. revert m. by apply (childless_abs cs).
  - by rewrite abs_purge, Ha.
  - intros i Hi Hne. destruct (Hdirs _ Hi) as (ri & Hri & Hdi). exists ri.
    split; [|done]. by apply lookup_delete_Some.
Qed.

Lemma replace_file_ok d p n c r tm :
  fs_wf cs d → small d → fs_dentry d !! (p, n) = Some c → fs_inode d !! c = Some r →
  dir_row r = false →
  let d1 := upd_inode c (set_ctime tm ∘ set_nlink (λ k, k - 1)) (del_dentry p n d) in
  replaced d c (Spec.detach p n c (abs cs d))
    (if as_u32 (i_nlink r - 1) =? 0 then purge_db c d1 else d1).
Proof.
  intros H Hs Hc Hr Hd d1.
  destruct (drop_link_ok (set_ctime tm ∘ set_nlink (λ k, k - 1)) p n c id d r) as [Hwf Ha];
    [done..|intros; simpl; eauto with adjusts|done|intros; apply adjusts_refl|done|].
  unfold drop_link in Hwf, Ha. rewrite upd_inode_id in Hwf, Ha. fold d1 in Hwf, Ha.
  assert (Hrow : fs_inode d1 !! c = Some (set_ctime tm (set_nlink (λ k, k - 1) r))).
  { unfold d1. rewrite lookup_upd_inode, decide_True by done.
    change (fs_inode (del_dentry p n d)) with (fs_inode d). by rewrite Hr. }
  rewrite Hrow in Hwf, Ha. cbn [i_nlink set_ctime set_nlink] in Hwf, Ha.
  refine (conj Hwf (conj Ha _)). intros i (ri & Hri & Hdi) Hne. exists ri.
  split; [|done].
  assert (Hri1 : fs_inode d1 !! i = Some ri)
    by (unfold d1; by rewrite lookup_upd_inode, decide_False).
  destruct (as_u32 _ =? 0); [|done]. by apply lookup_delete_Some.
Qed.
Lemma replace_run p n src c r d mem clk t :
  fs_wf cs d → small d → fs_dentry d !! (p, n) = Some c → fs_inode d !! c = Some r →
  let w := mkWorld d mem [] (ticks clk) t in
  let a := abs cs d in
  let run := replace_destination p n src c w in
  let gone := as_u32 (i_nlink r - 1) =? 0 in
  if dir_row r && negb (is_directory src)
  then run = (Err (Error.Fs FsError.IsADirectory), w)
  else if negb (dir_row r) && is_directory src
  then run = (Err (Error.Fs FsError.NotADirectory), w)
  else if dir_row r && negb (Spec.childless c a)
  then run = (Err (Error.Fs FsError.NotEmpty), w)
  else ∃ d1, run = (Ok tt, mkWorld d1 mem [] (ticks clk) (S t)) ∧
       replaced d c (if dir_row r then Spec.detach_dir p n c gone a
                     else Spec.detach p n c a) d1.
Proof.
  intros H Hs Hc Hr w a run gone. unfold run, replace_destination, w. run_fs.
  rewrite Hr, !is_directory_stats. run_fs.
  destruct (dir_row r) eqn:Hd, (is_directory src); cbn [andb negb]; try done.
  - rewrite (count_children_abs cs). fold a.
    destruct (Spec.childless c a) eqn:Hno; cbn [negb]; [|done]. run_fs.
    eexists. split; [|by apply (replace_dir_ok d p n c r (clk t))].
    rewrite lookup_upd_inode, decide_True by done.
    change (fs_inode (del_dentry p n d)) with (fs_inode d). rewrite Hr. cbn.
    by destruct (as_u32 _ =? 0); [rewrite purge_inode_run|].
  - eexists. split; [|by apply (replace_file_ok d p n c r (clk t))]. run_fs.
    rewrite lookup_upd_inode, decide_True by done.
    change (fs_inode (del_dentry p n d)) with (fs_inode d). rewrite Hr. cbn.
    by destruct (as_u32 _ =? 0); [rewrite purge_inode_run|].
Qed.
Lemma move_ok d p n p' n' c :
  fs_wf cs d → fs_dentry d !! (p, n) = Some c → fs_dentry d !! (p', n') = None →
  is_dir d p' → ∃ d2,
    upd_dentry p' n' p n d = Some d2 ∧ fs_wf cs d2 ∧
    abs cs d2 = Spec.move p n p' n' c (abs cs d) ∧ ∀ i, is_dir d i → is_dir d2 i.
Proof.
  intros [H Hset] Hc Hn Hp'. pose proof (entry_not_root _ _ _ _ H Hc) as Hroot.
  assert (Hupd : upd_dentry p' n' p n d =
    Some (set_dentries (<[(p', n') := c]> (delete (p, n) (fs_dentry d))) d)).
  { unfold upd_dentry. rewrite Hc, lookup_delete_ne, Hn; [done|congruence]. }
  eexists. split; [exact Hupd|]. refine (conj (conj _ Hset) (conj _ _)); [|done..].
  by eapply core_upd_dentry.
Qed.

Lemma alike_upd_nlink d ino k :
  fs_wf cs d → is_dir d ino → alike d (upd_inode ino (set_nlink (λ n, n + k)) d).
Proof.
  intros H Hd. apply alike_upd_dir; [done..| |done].
  intros r. exists k. split; intros; simpl; done || lia.
Qed.

Lemma alike_touch d ino tm : fs_wf cs d → alike d (upd_inode ino (touch tm) d).
Proof. intros H. apply alike_upd; [done|auto with adjusts|done]. Qed.

Lemma move_entry_run p n p' n' c b d mem clk t :
  fs_wf cs d → fs_dentry d !! (p, n) = Some c → fs_dentry d !! (p', n') = None →
  is_dir d p → is_dir d p' → ∃ d',
    move_entry p n p' n' c b (mkWorld d mem [] (ticks clk) t) =
      (Ok tt, mkWorld d' mem [] (ticks clk) (S t)) ∧ fs_wf cs d' ∧
    abs cs d' = Spec.move p n p' n' c (abs cs d).
Proof.
  intros H Hc Hn Hp Hp'.
  destruct (move_ok d p n p' n' c) as (d2 & Hupd & Hwf2 & Ha2 & Hdirs); [done..|].
  apply Hdirs in Hp, Hp'. clear Hdirs.
  set (d3 := if b && negb (p =? p')
             then upd_inode p' (set_nlink (λ n, n + 1))
                    (upd_inode p (set_nlink (λ n, n - 1)) d2) else d2).
  assert (H3 : alike d2 d3).
  { unfold d3. destruct (b && _); [|by apply alike_refl].
    pose proof (alike_upd_nlink d2 p (-1) Hwf2 Hp) as H1.
    eapply alike_trans; [exact H1|]. destruct H1 as (Hwf & _ & Hd).
    by apply alike_upd_nlink; [|apply Hd]. }
  set (d4 := upd_inode p (touch (clk t)) (upd_inode c (set_ctime (clk t)) d3)).
  assert (H4 : alike d2 d4).
  { eapply alike_trans; [exact H3|]. unfold d4. destruct H3 as (Hwf & _).
    assert (H1 : alike d3 (upd_inode c (set_ctime (clk t)) d3)).
    { apply alike_upd; [done|auto with adjusts|done]. }
    eapply alike_trans; [exact H1|]. apply alike_touch, H1. }
  set (d5 := if negb (p' =? p) then upd_inode p' (touch (clk t)) d4 else d4).
  assert (H5 : alike d2 d5).
  { unfold d5. destruct (negb (p' =? p)); [|exact H4]. eapply alike_trans; [exact H4|].
    apply alike_touch, H4. }
  exists d5. destruct H5 as (Hwf5 & Ha5 & _). split_and!; [|done|by rewrite Ha5].
  unfold move_entry. run_fs. rewrite Hupd. run_fs. unfold d5, d4, d3.
  destruct (b && negb (p =? p')); run_fs; by destruct (negb (p' =? p)).
Qed.

Lemma rename_healthy p n p' n' mem d clk t :
  fs_wf cs d → small d → is_dir d p → is_dir d p' → (p, n) ≠ (p', n') →
  refines cs (rename p n p' n') (Spec.rename p n p' n' (dir_gone p' n' d))
    (mkWorld d mem [] (ticks clk) t).
Proof.
  intros H Hs Hp Hp' Hne. unfold refines, rename, Spec.rename, Spec.check_name. cbn [w_db].
  destruct (MAX_NAME_LEN <? strlen n'); [by left; eexists|].
  run. rewrite lookup_child_run. run. change (Spec.entries (abs cs d)) with (fs_dentry d).
  destruct (fs_dentry d !! (p, n)) as [c|] eqn:Hc; [|by left; eexists].
  destruct (Z.eqb_spec c ROOT_INO) as [Hroot|Hroot]; [by left; eexists|].
  run_fs. destruct (entry_row _ _ _ _ _ (wf_core _ H) Hc) as [r Hr].
  rewrite (abs_row _ _ _ _ Hr), !is_directory_node, Hr, is_directory_stats.
  rewrite lookup_child_run.
  destruct (fs_dentry d !! (p', n')) as [c'|] eqn:Hc'.
  - destruct (entry_row _ _ _ _ _ (wf_core _ H) Hc') as [r' Hr'].
    rewrite (abs_row _ _ _ _ Hr'), !is_directory_node.
    pose proof (replace_run p' n' (build_stats_from_row c r) c' r' d mem clk t
                  H Hs Hc' Hr') as Hrep. cbv zeta in Hrep.
    rewrite is_directory_stats in Hrep.
    destruct (dir_row r' && negb (dir_row r)) eqn:H1;
      [rewrite Hrep; by left; eexists|].
    destruct (negb (dir_row r') && dir_row r) eqn:H2;
      [rewrite Hrep; by left; eexists|].
    destruct (dir_row r' && negb (Spec.childless c' (abs cs d))) eqn:H3.
    { apply andb_true_iff in H3 as [-> ->]. rewrite Hrep. by left; eexists. }
    destruct Hrep as (d1 & -> & Hwf1 & Ha1 & Hdirs).
    assert (Hent : fs_dentry d1 = delete (p', n') (fs_dentry d)).
    { change (fs_dentry d1) with (Spec.entries (abs cs d1)). rewrite Ha1.
      unfold Spec.detach. destruct (dir_row r'); [done|]. by destruct (Nat.eqb _ _). }
    assert (Hchild : dir_row r' = true → ∀ m, fs_dentry d !! (c', m) = None).
    { intros Hd'. rewrite Hd' in H3. apply (childless_abs cs). by destruct (Spec.childless _ _). }
    assert (Hkeep : ∀ q m x, is_dir d q → fs_dentry d !! (q, m) = Some x → is_dir d1 q).
    { intros q m x Hq Hm. apply Hdirs; [done|]. intros ->.
      apply (is_dir_row _ _ _ Hr') in Hq. by rewrite (Hchild Hq) in Hm. }
    destruct (move_entry_run p n p' n' c (dir_row r) d1 mem clk (S t))
      as (d2 & -> & Hwf2 & Ha2); [done|by rewrite Hent, lookup_delete_ne|
                                  by rewrite Hent, lookup_delete_eq|
                                  by eapply Hkeep..|].
    split; [|done]. rewrite Ha2, Ha1. unfold dir_gone. rewrite Hc', Hr'.
    destruct (dir_row r'); [|done]. by destruct (Spec.childless _ _).
  - destruct (move_entry_run p n p' n' c (dir_row r) d mem clk t)
      as (d2 & -> & Hwf2 & Ha2); [done..|]. split; [by rewrite Ha2|done].
Qed.

(** ** Attributes *)

Lemma change_ok d ino r f (g : Spec.node → Spec.node) :
  fs_wf cs d → fs_inode d !! ino = Some r →
  adjusts 0 r (f r) →
  g (node_of cs d ino r) =
    Spec.mkNode (i_mode (f r)) (i_uid (f r)) (i_gid (f r)) (i_rdev (f r))
      (payload_of cs d ino r) →
  Spec.change ino g (abs cs d) = inr (abs cs (upd_inode ino f d)) ∧
  fs_wf cs (upd_inode ino f d).
Proof.
  intros [H Hset] Hr Ha Hg. split.
  - unfold Spec.change. rewrite (abs_row _ _ _ _ Hr), (abs_change cs d ino f g); [done|].
    intros r' Hr'. simplify_eq. split_and!; [apply Ha|apply Ha|done].
  - assert (Hf : ∀ r', fs_inode d !! ino = Some r' → adjusts 0 r' (f r')).
    { intros r' Hr'. by simplify_eq. }
    split; [|eapply settled_upd; eauto; right; lia].
    eapply core_ext; [by apply (core_upd _ (λ _, 0) _ _ 0)|].
    intros j r' _ _. unfold bump. case_decide; lia.
Qed.

Lemma chmod_healthy ino mode mem d clk t :
  fs_wf cs d → refines cs (chmod ino mode) (Spec.chmod ino mode) (mkWorld d mem [] (ticks clk) t).
Proof.
  intros H. unfold refines, chmod. run_fs.
  destruct (fs_inode d !! ino) as [r|] eqn:Hr.
  - eapply change_ok; [done|exact Hr| |done].
    split; intros; simpl; [|done|lia].
    rewrite has_type_chmod. apply has_type_as_u32.
  - left. eexists. split_and!; [done| |done]. unfold Spec.chmod, Spec.change.
    by rewrite abs_node, Hr.
Qed.

Lemma chown_healthy ino uid gid mem d clk t :
  fs_wf cs d →
  refines cs (chown ino uid gid) (Spec.chown ino uid gid) (mkWorld d mem [] (ticks clk) t).
Proof.
  intros H. unfold refines, chown, Spec.chown.
  destruct uid as [u|], gid as [g|]; [..|done]; run_fs;
    (destruct (fs_inode d !! ino) as [r|] eqn:Hr;
     [eapply change_ok; [done|exact Hr|by split; intros; simpl; try lia|done]
     |left; eexists; split_and!; [done| |done]; unfold Spec.change; by rewrite abs_node, Hr]).
Qed.

(** Times are hidden: a client sees at most the error. *)
Definition spec_utimens (ino : Z) : Spec.t → FsError.t + Spec.t := Spec.change ino id.

Lemma utimens_healthy ino a m mem d clk t :
  fs_wf cs d →
  refines cs (utimens ino a m) (spec_utimens ino) (mkWorld d mem [] (ticks clk) t).
Proof.
  intros H. unfold refines, utimens. run_fs.
  destruct (fs_inode d !! ino) as [r|] eqn:Hr.
  2:{ left. eexists. split_and!; [done| |done]. unfold spec_utimens, Spec.change.
      by rewrite abs_node, Hr. }
  assert (Hid : spec_utimens ino (abs cs d) = inr (abs cs d)).
  { unfold spec_utimens, Spec.change. rewrite (abs_row _ _ _ _ Hr). f_equal.
    apply spec_eq; [done|]. intros j. cbn [Spec.nodes]. by rewrite alter_id. }
  assert (Hupd : ∀ f, adjusts 0 r (f r) → hidden r (f r) →
    spec_utimens ino (abs cs d) = inr (abs cs (upd_inode ino f d)) ∧
    fs_wf cs (upd_inode ino f d)).
  { intros f Ha (Hm & Hu & Hg & Hd & _). eapply change_ok; [done|exact Hr|done|].
    by rewrite Hm, Hu, Hg, Hd. }
  unfold time_update, apply_times, resolve_time.
  destruct a, m; run_fs; first [done|apply Hupd; [simpl; eauto 10 with adjusts|done]].
Qed.

(** ** Writing through a handle *)

(** A change of one file's bytes, size and times. *)
Lemma edit_ok d d' ino row b' :
  fs_wf cs d → fs_inode d !! ino = Some row → dir_row row = false →
  lnk_row row = false → only_file ino d d' → chunks_ok cs d' →
  (∃ row', fs_inode d' !! ino = Some row' ∧ i_nlink row' = i_nlink row ∧
     node_of cs d' ino row' =
       Spec.mkNode (i_mode row) (i_uid row) (i_gid row) (i_rdev row)
         (Spec.Data b')) →
  fs_wf cs d' ∧
  abs cs d' =
    Spec.mkFs (Spec.entries (abs cs d))
      (<[ino := Spec.mkNode (i_mode row) (i_uid row) (i_gid row) (i_rdev row)
                  (Spec.Data b')]> (Spec.nodes (abs cs d))).
Proof.
  intros [H Hset] Hrow Hd Hl Hof Hok (row' & Hrow' & Hn & Hnode).
  assert (Hm : i_mode row' = i_mode row) by by injection Hnode.
  assert (Hd' : dir_row row' = false) by (unfold dir_row; by rewrite Hm).
  assert (Hother : ∀ j r, j ≠ ino → fs_inode d' !! j = Some r ↔ fs_inode d !! j = Some r).
  { intros j r Hj. by rewrite (of_inode _ _ _ Hof). }
  assert (Hsome : ∀ j, is_Some (fs_inode d' !! j) ↔ is_Some (fs_inode d !! j)).
  { intros j. destruct (decide (j = ino)) as [->|Hj].
    - rewrite Hrow, Hrow'. split; intros _; eauto.
    - by rewrite (of_inode _ _ _ Hof). }
  assert (Hdir : ∀ j, is_dir d' j ↔ is_dir d j).
  { intros j. destruct (decide (j = ino)) as [->|Hj].
    - rewrite (is_dir_row _ _ _ Hrow'), (is_dir_row _ _ _ Hrow). by rewrite Hd, Hd'.
    - unfold is_dir. by setoid_rewrite (Hother j). }
  assert (Hlinks : ∀ j, links d' j = links d j).
  { intros j. unfold links. by rewrite (of_dentry _ _ _ Hof). }
  split; [split|].
  - split.
    + apply Hdir, H.
    + intros j. rewrite Hsome, (of_seq _ _ _ Hof). apply H.
    + intros p n c. rewrite (of_dentry _ _ _ Hof), Hdir, Hsome. apply H.
    + intros j r Hr Hdr. rewrite Hlinks. destruct (decide (j = ino)) as [->|Hj].
      * simplify_eq. rewrite Hn. by apply (co_files _ _ _ H).
      * apply Hother in Hr; [|done]. by apply (co_files _ _ _ H).
    + intros j. rewrite Hdir, !Hlinks. apply H.
    + intros j t Hj. rewrite (of_symlink _ _ _ Hof) in Hj.
      destruct (co_symlink _ _ _ H _ _ Hj) as (r & Hr & Hlr). exists r.
      split; [|done]. apply Hother; [|done]. intros ->. congruence.
    + intros j idx c Hj. destruct (decide (j = ino)) as [->|Hne]; [by exists row'|].
      rewrite (of_data _ _ _ Hof) in Hj by done.
      destruct (co_data _ _ _ H _ _ _ Hj) as (r & Hr & Hdr). exists r.
      split; [by apply Hother|done].
    + done.
  - intros j r _ Hr Hdr. rewrite (of_symlink _ _ _ Hof).
    destruct (decide (j = ino)) as [->|Hj].
    + simplify_eq. rewrite Hn. unfold lnk_row. rewrite Hm. by apply (Hset ino row).
    + apply Hother in Hr; [|done]. by apply Hset.
  - apply spec_eq; [apply (of_dentry _ _ _ Hof)|]. intros j. cbn [Spec.nodes].
    rewrite abs_node. destruct (decide (j = ino)) as [->|Hj].
    + rewrite lookup_insert_eq, Hrow'. cbn. by rewrite Hnode.
    + rewrite lookup_insert_ne, abs_node, (of_inode _ _ _ Hof) by done.
      destruct (fs_inode d !! j) as [r|]; [|done]. cbn. f_equal. unfold node_of.
      f_equal. apply payload_eq; [done|by rewrite (of_symlink _ _ _ Hof)|].
      by apply (only_file_contents _ ino).
Qed.

Lemma edit_spec d ino row f :
  fs_inode d !! ino = Some row → dir_row row = false → lnk_row row = false →
  Spec.edit ino f (abs cs d) =
    inr (Spec.mkFs (Spec.entries (abs cs d))
           (<[ino := Spec.mkNode (i_mode row) (i_uid row) (i_gid row) (i_rdev row)
                       (Spec.Data (f (contents cs d ino)))]> (Spec.nodes (abs cs d)))).
Proof.
  intros Hrow Hd Hl. unfold Spec.edit, Spec.change. rewrite (abs_row _ _ _ _ Hrow).
  f_equal. apply spec_eq; [done|]. intros j. cbn [Spec.nodes].
  destruct (decide (j = ino)) as [->|Hj].
  - rewrite lookup_alter_eq, lookup_insert_eq, (abs_row _ _ _ _ Hrow).
    unfold node_of, payload_of. by rewrite Hd, Hl.
  - by rewrite lookup_alter_ne, lookup_insert_ne.
Qed.

(** What [pwrite_run] and [truncate_run] tell of the written row. *)
Lemma edit_run d d' ino row :
  fs_wf cs d → fs_inode d !! ino = Some row → dir_row row = false →
  lnk_row row = false → only_file ino d d' → chunks_ok cs d' →
  same_links row (fs_inode d' !! ino) →
  fs_wf cs d' ∧
  ∀ f, f (contents cs d ino) = contents cs d' ino →
    Spec.edit ino f (abs cs d) = inr (abs cs d').
Proof.
  intros H Hrow Hd Hl Hof Hok (row' & Hr' & Hm & Hn & Hu & Hg & Hdv).
  edestruct (edit_ok d d' ino row (contents cs d' ino) H) as [Hwf Ha]; try done.
  { exists row'. split_and!; [done..|]. unfold node_of, payload_of, dir_row, lnk_row.
    unfold dir_row in Hd. unfold lnk_row in Hl. by rewrite Hm, Hu, Hg, Hdv, Hd, Hl. }
  split; [done|]. intros f Hf. by rewrite Ha, (edit_spec _ _ row), Hf.
Qed.

Lemma pwrite_healthy ino off data row mem d clk t :
  0 < cs → fs_wf cs d → fs_inode d !! ino = Some row → dir_row row = false →
  lnk_row row = false → 0 <= off → off + len data < 2 ^ 63 →
  refines cs (pwrite (mkFile ino cs) off data)
    (Spec.edit ino (λ b, match data with [] => b | _ => FileSpec.write b off data end))
    (mkWorld d mem [] (ticks clk) t).
Proof.
  intros Hcs H Hrow Hd Hl Hoff Hmax. unfold refines.
  edestruct (pwrite_run cs ino off data row (mkWorld d mem [] (ticks clk) t))
    as (w' & -> & _ & Hof & Hok & _ & Hsame & Hc);
    [done|by apply (wf_core _ H)|by split; [|exists clk]|done..|].
  edestruct (edit_run d (w_db w') ino row) as [Hwf Hedit]; [done..|].
  split; [|done]. by apply Hedit.
Qed.

Lemma truncate_healthy ino n row mem d clk t :
  0 < cs → fs_wf cs d → fs_inode d !! ino = Some row → dir_row row = false →
  lnk_row row = false → 0 <= n < 2 ^ 63 →
  refines cs (truncate (mkFile ino cs) n)
    (Spec.edit ino (λ b, FileSpec.truncate b n)) (mkWorld d mem [] (ticks clk) t).
Proof.
  intros Hcs H Hrow Hd Hl Hn. unfold refines.
  edestruct (truncate_run cs ino n row (mkWorld d mem [] (ticks clk) t))
    as (w' & -> & _ & Hof & Hok & _ & Hsame & Hc);
    [done|by apply (wf_core _ H)|by split; [|exists clk]|done..|].
  edestruct (edit_run d (w_db w') ino row) as [Hwf Hedit]; [done..|].
  split; [|done]. by apply Hedit.
Qed.
End Ops.
