(* ===== verification/AgentFSCoherent.v ===== *)
(** * AgentFSCoherent: the dentry cache never lies

    Whatever the engine's failures, after every operation the dentry cache
    holds only entries of [fs_dentry].  The proof follows the order of the
    statements: a cache entry is removed right after its row, and inserted
    only when its row is there. *)
From S2P Require Import Prelude Types Engine Lru Schema FileIO FileIOSpec AgentFS.
From S2P Require Import AgentFSInv AgentFSSpec AgentFSOps.

(** ** Statements that keep the entries *)

Class KeepsEntries {A} (f : Db → option (A * Db)) :=
  keeps_entries d a d' : f d = Some (a, d') → fs_dentry d' = fs_dentry d.

(** [Calm m]: under every fault schedule and on every outcome, [m] changes
    neither the entries nor the in-memory state. *)
Class Calm {C A} (m : M Db C A) :=
  calm w : fs_dentry (w_db (m w).2) = fs_dentry (w_db w) ∧ w_mem (m w).2 = w_mem w.
#[global] Hint Mode Calm + + ! : typeclass_instances.

Section Calm.
Context {C : Type}.

#[export] Instance ret_calm {A} (a : A) : Calm (mret (M := M Db C) a).
Proof. done. Qed.
#[export] Instance throw_calm {A} e : Calm (throw (D:=Db) (C:=C) (A:=A) e).
Proof. done. Qed.
#[export] Instance fs_err_calm {A} e : Calm (fs_err (D:=Db) (C:=C) (A:=A) e).
Proof. done. Qed.
#[export] Instance panic_calm {A} : Calm (panic (D:=Db) (C:=C) (A:=A)).
Proof. done. Qed.
#[export] Instance ok_or_calm {A} e (o : option A) : Calm (ok_or (D:=Db) (C:=C) e o).
Proof. by destruct o. Qed.
#[export] Instance or_panic_calm {A} (o : option A) : Calm (or_panic (D:=Db) (C:=C) o).
Proof. by destruct o. Qed.
#[export] Instance udiv_calm a b : Calm (udiv (D:=Db) (C:=C) a b).
Proof. apply _. Qed.
#[export] Instance urem_calm a b : Calm (urem (D:=Db) (C:=C) a b).
Proof. apply _. Qed.
#[export] Instance engine_call_calm : Calm (engine_call (D:=Db) (C:=C)).
Proof. by intros [d c [|[e|] fs] clk t]. Qed.
#[export] Instance get_connection_calm : Calm (get_connection (D:=Db) (C:=C)).
Proof. apply _. Qed.
#[export] Instance query_calm {A} (f : Db → A) : Calm (query (C:=C) f).
Proof. by intros [d c [|[e|] fs] clk t]. Qed.
#[export] Instance now_calm : Calm (now (D:=Db) (C:=C)).
Proof. intros w. unfold now. by destruct (w_clock w (w_tick w)). Qed.
#[export] Instance now_or_default_calm : Calm (now_or_default (D:=Db) (C:=C)).
Proof. done. Qed.
#[export] Instance now_unwrap_calm : Calm (now_unwrap (D:=Db) (C:=C)).
Proof. intros w. unfold now_unwrap. by destruct (w_clock w (w_tick w)). Qed.
#[export] Instance query_row_calm {A} (f : Db → option (A * Db)) :
  KeepsEntries f → Calm (query_row (C:=C) f).
Proof.
  intros Hf [d c [|[e|] fs] clk t]; [|done|]; unfold query_row; run;
    destruct (f d) as [[a d']|] eqn:Hd; simpl; try done;
    split; try done; by eapply keeps_entries.
Qed.
#[export] Instance execute_calm f :
  KeepsEntries (λ d, pair () <$> f d) → Calm (execute (C:=C) f).
Proof. unfold execute. apply _. Qed.
#[export] Instance bind_calm {A B : Type} (m : M Db C A) (f : A → M Db C B) :
  Calm m → (∀ a, Calm (f a)) → Calm (m ≫= f).
Proof.
  intros Hm Hf w. destruct (Hm w) as [H1 H2]. unfold mbind, M_bind.
  destruct (m w) as [[a|e|] w']; simpl in *; [|done..].
  destruct (Hf a w'). split; congruence.
Qed.
#[export] Instance transaction_calm {A} (m : M Db C A) : Calm m → Calm (transaction m).
Proof.
  intros Hm w. unfold transaction. destruct (calm (m := engine_call) w) as [H1 H1'].
  destruct (engine_call w) as [[u|e|] w1]; simpl in *; [|done..].
  destruct (Hm w1) as [H2 H2'].
  destruct (m w1) as [[a|e|] w2]; simpl in *; [|split; congruence..].
  destruct (calm (m := engine_call) w2) as [H3 H3'].
  destruct (engine_call w2) as [[u2|e|] w3]; simpl in *; split; congruence.
Qed.
End Calm.

Section Statements.
#[export] Instance upd_inode_keeps ino f :
  KeepsEntries (λ d, pair () <$> Some (upd_inode ino f d)).
Proof. by intros d a d' [= _ <-]. Qed.
#[export] Instance del_inode_keeps ino : KeepsEntries (λ d, pair () <$> Some (del_inode ino d)).
Proof. by intros d a d' [= _ <-]. Qed.
#[export] Instance del_symlink_keeps ino :
  KeepsEntries (λ d, pair () <$> Some (del_symlink ino d)).
Proof. by intros d a d' [= _ <-]. Qed.
#[export] Instance del_data_keeps ino : KeepsEntries (λ d, pair () <$> Some (del_data ino d)).
Proof. by intros d a d' [= _ <-]. Qed.
#[export] Instance del_after_keeps ino i :
  KeepsEntries (λ d, pair () <$> Some (del_chunks_after ino i d)).
Proof. by intros d a d' [= _ <-]. Qed.
#[export] Instance rep_chunk_keeps ino i b :
  KeepsEntries (λ d, pair () <$> Some (rep_chunk ino i b d)).
Proof. by intros d a d' [= _ <-]. Qed.
#[export] Instance upd_chunk_keeps ino i b :
  KeepsEntries (λ d, pair () <$> Some (upd_chunk ino i b d)).
Proof. by intros d a d' [= _ <-]. Qed.
#[export] Instance ins_inode_keeps `{SqlEngine} row : KeepsEntries (ins_inode row).
Proof. by intros d a d' [= _ <-]. Qed.
#[export] Instance ins_symlink_keeps ino t : KeepsEntries (λ d, pair () <$> ins_symlink ino t d).
Proof.
  intros d a d'. unfold ins_symlink. destruct (_ !! _); [done|]. by intros [= _ <-].
Qed.
End Statements.

#[export] Hint Extern 0 (Calm (match ?x with _ => _ end)) =>
  destruct x : typeclass_instances.
#[export] Hint Extern 0 (Calm (update _)) => unfold update : typeclass_instances.

(** ** Coherence *)
Section Coherence.
Context {E : SqlEngine} {Lru : LruCache (Z * string) Z} (cs : Z).
Abbreviation Fs := (M Db (lru (Z * string) Z)).

(** [m] keeps the cache coherent, under every fault schedule. *)
Definition keeps_coherent {A} (m : Fs A) : Prop :=
  ∀ w, coherent w → coherent (m w).2.
Class Coh {A} (m : Fs A) := coh : keeps_coherent m.
(** The same when [(p, n)] leads to [c]. *)
Definition keeps_coherent_at {A} (p : Z) (n : string) (c : Z) (m : Fs A) : Prop :=
  ∀ w, coherent w → fs_dentry (w_db w) !! (p, n) = Some c → coherent (m w).2.
Class CohAt {A} (p : Z) (n : string) (c : Z) (m : Fs A) :=
  coh_at : keeps_coherent_at p n c m.

#[export] Instance calm_coh {A} (m : Fs A) : Calm m → Coh m | 10.
Proof. intros Hm w. unfold coherent. by destruct (Hm w) as [-> ->]. Qed.

#[export] Instance calm_bind_coh {A B : Type} (m : Fs A) (f : A → Fs B) :
  Calm m → (∀ a, Coh (f a)) → Coh (m ≫= f).
Proof.
  intros Hm Hf w Hw. pose proof (calm_coh m Hm w Hw) as Hw'. unfold mbind, M_bind.
  destruct (m w) as [[a|e|] w']; [by apply Hf|done..].
Qed.

#[export] Instance coh_at_calm {A} (p : Z) (n : string) (c : Z) (m : Fs A) : Calm m → CohAt p n c m | 10.
Proof. intros Hm w Hw _. by apply calm_coh. Qed.

#[export] Instance coh_at_bind {A B : Type} (p : Z) (n : string) (c : Z) (m : Fs A) (f : A → Fs B) :
  Calm m → (∀ a, CohAt p n c (f a)) → CohAt (p : Z) (n : string) (c : Z) (m ≫= f).
Proof.
  intros Hm Hf w Hw Hc. pose proof (calm_coh m Hm w Hw) as Hw'.
  destruct (Hm w) as [He _]. unfold mbind, M_bind.
  destruct (m w) as [[a|e|] w']; [|done..]. apply Hf; [done|]. simpl in He. by rewrite He.
Qed.

#[export] Instance coh_at_insert {A} (p : Z) (n : string) (c : Z) (k : unit → Fs A) :
  (∀ u, CohAt (p : Z) (n : string) (c : Z) (k u)) → CohAt p n c (cache_insert p n c ≫= k).
Proof.
  intros Hk w Hw Hc. unfold mbind, M_bind, cache_insert, with_mem. apply Hk; [|done].
  unfold coherent in *. cbn [w_mem w_db set_mem]. etrans; [apply lru_put_view|].
  apply insert_subseteq_l; done.
Qed.

(** A row is inserted only where there was none. *)
#[export] Instance coh_ins_dentry {A} (p : Z) (n : string) (c : Z) (k : unit → Fs A) :
  (∀ u, CohAt (p : Z) (n : string) (c : Z) (k u)) → Coh (execute (ins_dentry n p c) ≫= k).
Proof.
  intros Hk w Hw. unfold execute, query_row, ins_dentry. unfold mbind, M_bind.
  destruct (calm (m := engine_call (C := lru (Z * string) Z)) w) as [He Hm].
  assert (Hw1 : coherent (engine_call w).2).
  { unfold coherent in *. by rewrite Hm, He. }
  destruct (engine_call w) as [[u|e|] w1]; [|done..]. cbn [snd] in *.
  destruct (fs_dentry (w_db w1) !! (p, n)) eqn:Hn; [done|]. cbn [fmap option_fmap option_map].
  apply Hk; [|apply lookup_insert_eq]. unfold coherent in *. cbn [w_mem w_db set_db].
  etrans; [exact Hw1|]. by apply insert_subseteq.
Qed.

(** The row and then the cache entry go. *)
#[export] Instance coh_del_dentry {A} (p : Z) (n : string) (k : unit → Fs A) :
  (∀ u, Coh (k u)) → Coh (update (del_dentry p n) ≫= λ _, cache_remove p n ≫= k).
Proof.
  intros Hk w Hw. unfold update, execute, query_row. unfold mbind, M_bind.
  destruct (calm (m := engine_call (C := lru (Z * string) Z)) w) as [He Hm].
  assert (Hw1 : coherent (engine_call w).2).
  { unfold coherent in *. by rewrite Hm, He. }
  destruct (engine_call w) as [[u|e|] w1]; [|done..]. cbn [snd fmap option_fmap option_map] in *.
  apply Hk. unfold coherent in *. cbn [w_mem w_db set_db set_mem del_dentry fs_dentry
    set_dentries]. rewrite lru_pop_view. by apply delete_mono.
Qed.
End Coherence.
#[export] Hint Extern 0 (Coh (match ?x with _ => _ end)) =>
  destruct x : typeclass_instances.
#[export] Hint Extern 0 (CohAt _ _ _ (match ?x with _ => _ end)) =>
  destruct x : typeclass_instances.

Section Operations.
Context {E : SqlEngine} {Lru : LruCache (Z * string) Z} (cs : Z).
Abbreviation Fs := (M Db (lru (Z * string) Z)).

#[export] Instance lookup_child_calm p n : Calm (lookup_child p n : Fs _).
Proof. unfold lookup_child, one_row. apply _. Qed.
#[export] Instance get_link_count_calm ino : Calm (get_link_count ino : Fs _).
Proof. unfold get_link_count. apply _. Qed.
#[export] Instance getattr_with_conn_calm ino : Calm (getattr_with_conn ino : Fs _).
Proof. unfold getattr_with_conn. apply _. Qed.
#[export] Instance purge_inode_calm ino : Calm (purge_inode ino : Fs _).
Proof. unfold purge_inode. apply _. Qed.
#[export] Instance chmod_calm ino m : Calm (chmod ino m : Fs _).
Proof. unfold chmod. apply _. Qed.
#[export] Instance chown_calm ino u g : Calm (chown ino u g : Fs _).
Proof. unfold chown. apply _. Qed.
#[export] Instance utimens_calm ino a m : Calm (utimens ino a m : Fs _).
Proof. unfold utimens, time_update, apply_times, resolve_time. apply _. Qed.
#[export] Instance write_loop_calm fuel f off data k : Calm (write_loop fuel f off data k : Fs _).
Proof.
  revert k. induction fuel as [|fuel IH]; intros k; cbn [write_loop]; [apply _|].
  destruct (k <? len data); apply _.
Qed.
#[export] Instance pwrite_calm f off data : Calm (pwrite f off data : Fs _).
Proof. unfold pwrite, write_data_at_offset_with_conn. apply _. Qed.
#[export] Instance truncate_calm f n : Calm (truncate f n : Fs _).
Proof. unfold truncate. apply _. Qed.

#[export] Instance mkdir_coh p n mode uid gid : Coh (mkdir p n mode uid gid).
Proof. unfold mkdir. apply _. Qed.
#[export] Instance mknod_coh p n mode rdev uid gid : Coh (mknod p n mode rdev uid gid).
Proof. unfold mknod. apply _. Qed.
#[export] Instance symlink_coh p n target uid gid : Coh (symlink p n target uid gid).
Proof. unfold symlink. apply _. Qed.
#[export] Instance link_coh ino p n : Coh (link ino p n).
Proof. unfold link. apply _. Qed.
#[export] Instance unlink_coh p n : Coh (unlink p n).
Proof. unfold unlink. apply _. Qed.
#[export] Instance rmdir_coh p n : Coh (rmdir p n).
Proof. unfold rmdir. apply _. Qed.
End Operations.

(** ** Transactions and lookups

    The body of a transaction may add and remove entries, but it leaves the
    cache alone; what it left is looked at only when it is committed. *)

Class Quiet {D C A} (m : M D C A) := quiet w : w_mem (m w).2 = w_mem w.
#[global] Hint Mode Quiet + + + ! : typeclass_instances.

Section Quiet.
Context {D C : Type}.

Ltac all_faults := by intros [d c [|[e|] fs] clk t].

#[export] Instance ret_quiet {A} (a : A) : Quiet (mret (M := M D C) a).
Proof. done. Qed.
#[export] Instance throw_quiet {A} e : Quiet (throw (D:=D) (C:=C) (A:=A) e).
Proof. done. Qed.
#[export] Instance fs_err_quiet {A} e : Quiet (fs_err (D:=D) (C:=C) (A:=A) e).
Proof. done. Qed.
#[export] Instance ok_or_quiet {A} e (o : option A) : Quiet (ok_or (D:=D) (C:=C) e o).
Proof. by destruct o. Qed.
#[export] Instance engine_call_quiet : Quiet (engine_call (D:=D) (C:=C)).
Proof. all_faults. Qed.
#[export] Instance query_quiet {A} (f : D → A) : Quiet (query (C:=C) f).
Proof. all_faults. Qed.
#[export] Instance now_quiet : Quiet (now (D:=D) (C:=C)).
Proof. intros w. unfold now. by destruct (w_clock w (w_tick w)). Qed.
#[export] Instance now_or_default_quiet : Quiet (now_or_default (D:=D) (C:=C)).
Proof. done. Qed.
#[export] Instance query_row_quiet {A} (f : D → option (A * D)) : Quiet (query_row (C:=C) f).
Proof.
  intros [d c [|[e|] fs] clk t]; unfold query_row; run; [|done|];
    by destruct (f d) as [[]|].
Qed.
#[export] Instance execute_quiet (f : D → option D) : Quiet (execute (C:=C) f).
Proof. apply query_row_quiet. Qed.
#[export] Instance update_quiet (f : D → D) : Quiet (update (C:=C) f).
Proof. apply query_row_quiet. Qed.
#[export] Instance bind_quiet {A B : Type} (m : M D C A) (f : A → M D C B) :
  Quiet m → (∀ a, Quiet (f a)) → Quiet (m ≫= f).
Proof.
  intros Hm Hf w. specialize (Hm w). unfold mbind, M_bind.
  destruct (m w) as [[a|e|] w']; simpl in *; [|done..]. by rewrite Hf.
Qed.
End Quiet.
#[export] Hint Extern 0 (Quiet (match ?x with _ => _ end)) =>
  destruct x : typeclass_instances.

Section Transactions.
Context {E : SqlEngine} {Lru : LruCache (Z * string) Z} (cs : Z).
Abbreviation Fs := (M Db (lru (Z * string) Z)).
Abbreviation W := (World Db (lru (Z * string) Z)).

Lemma coherent_same (w w' : W) :
  fs_dentry (w_db w') = fs_dentry (w_db w) → w_mem w' = w_mem w →
  coherent w → coherent w'.
Proof. unfold coherent. by intros -> ->. Qed.

#[export] Instance lookup_child_quiet p n : Quiet (lookup_child p n : Fs _).
Proof. unfold lookup_child, one_row. apply _. Qed.
#[export] Instance replace_destination_quiet p n src c :
  Quiet (replace_destination p n src c : Fs _).
Proof.
  unfold replace_destination, getattr_with_conn, get_link_count, purge_inode. apply _.
Qed.
#[export] Instance move_entry_quiet p n p' n' c b : Quiet (move_entry p n p' n' c b : Fs _).
Proof. unfold move_entry. apply _. Qed.

(** What follows a transaction starts from the outcome of the body, or is
    not reached. *)
Lemma coh_transaction {A B : Type} (Q : gmap (Z * string) Z → Prop) (body : Fs A)
    (k : A → Fs B) :
  Quiet body → Stops body →
  (∀ (w w' w2 : W) a, faultless w → coherent w → Q (fs_dentry (w_db w)) →
     body w = (Ok a, w') → w_db w2 = w_db w' → w_mem w2 = w_mem w →
     coherent (k a w2).2) →
  ∀ w, coherent w → Q (fs_dentry (w_db w)) → coherent ((transaction body ≫= k) w).2.
Proof.
  intros Hq Hst Hk w Hw HQ. unfold mbind, M_bind, transaction.
  destruct (calm (m := engine_call (C := lru (Z * string) Z)) w) as [He Hm].
  pose proof (readonly (m := engine_call (D := Db) (C := lru (Z * string) Z)) w) as Hro.
  destruct (engine_call w) as [[u|e|] w1]; simpl in *;
    [|by eapply coherent_same..].
  pose proof (Hq w1) as Hq1. specialize (Hst w1).
  destruct (body w1) as [[a|e|] w2]; simpl in *;
    [|eapply coherent_same; [| |exact Hw]; simpl; congruence..].
  pose proof (quiet (m := engine_call (D := Db) (C := lru (Z * string) Z)) w2) as Hq2.
  pose proof (readonly (m := engine_call (D := Db) (C := lru (Z * string) Z)) w2) as Hro2.
  destruct (engine_call w2) as [[u2|e|] w3]; simpl in *;
    [|eapply coherent_same; [| |exact Hw]; simpl; congruence..].
  destruct Hst as [(e & _ & ?)|(Hr & Hw2 & _)]; [done|].
  apply (Hk (set_faults [] w1) (set_faults [] w2)); [done|..].
  - by eapply (coherent_same w).
  - simpl. by rewrite Hro.
  - rewrite Hw2. destruct (body (set_faults [] w1)) as [r w4]. simpl in *. by subst.
  - simpl. congruence.
  - simpl. congruence.
Qed.

(** An entry that was looked up is there. *)
Lemma coh_lookup_child {A : Type} (p : Z) (n : string) (k : option Z → Fs A) :
  Coh (k None) → (∀ c, CohAt p n c (k (Some c))) → Coh (lookup_child p n ≫= k).
Proof.
  intros Hnone Hsome w Hw. unfold mbind, M_bind.
  destruct (calm (m := lookup_child p n : Fs _) w) as [He Hm].
  assert (Hres : ∀ c, (lookup_child p n w).1 = Ok (Some c) →
                      fs_dentry (w_db w) !! (p, n) = Some c).
  { intros c. unfold lookup_child, sel_dentry. destruct w as [d mem [|[e|] fs] clk t];
      run; [|done|]; by destruct (fs_dentry d !! (p, n)); intros [= ->]. }
  destruct (lookup_child p n w) as [[[c|]|e|] w1]; simpl in *;
    [|apply Hnone|..]; [|by eapply (coherent_same w)..].
  apply Hsome; [by eapply (coherent_same w)|]. rewrite He. by apply Hres.
Qed.

#[export] Instance create_file_coh p n mode uid gid : Coh (create_file cs p n mode uid gid).
Proof.
  unfold create_file. destruct (_ <? _); [apply _|].
  apply calm_bind_coh; [apply _|intros _].
  apply calm_bind_coh; [apply _|intros [c|]]; [apply _|].
  intros w0 Hw0. apply (coh_transaction (λ _, True)); [apply _..| |done|done].
  intros [d mem fs clk t] w' w2 a Hf Hw _ Hrun Hdb Hmem. unfold faultless in Hf.
  cbn [w_faults] in Hf. subst fs. revert Hrun. run.
  destruct (clk t) as [tm|]; [|done]. rewrite ins_inode_run. set (ino := next_rowid _). run.
  set (d1 := set_seq _ _). unfold ins_dentry.
  destruct (fs_dentry d1 !! (p, n)) eqn:Hn; [done|]. intros Hrun. injection Hrun as <- <-.
  apply (coh_at_insert p n ino (λ _, _)).
  - intros _. by apply coh_at_calm.
  - unfold coherent in *. cbn [w_db w_mem] in *. rewrite Hdb, Hmem.
    etrans; [exact Hw|]. by apply insert_subseteq.
  - rewrite Hdb. apply lookup_insert_eq.
Qed.

#[export] Instance lookup_coh p n : Coh (lookup p n).
Proof.
  unfold lookup. destruct (_ <? _); [apply _|].
  apply calm_bind_coh; [apply _|intros _]. destruct (String.eqb n ".."); [apply _|].
  apply coh_lookup_child; intros; apply _.
Qed.

(** The entries an operation that ends with [Ok] leaves. *)
Lemma calm_bind_ok {A B : Type} (m : Fs A) (f : A → Fs B) `{!Calm m} (w w' : W) (b : B) :
  (m ≫= f) w = (Ok b, w') → ∃ a w1, fs_dentry (w_db w1) = fs_dentry (w_db w) ∧
    f a w1 = (Ok b, w').
Proof.
  intros (a & w1 & Hm & Hf)%bind_ok. exists a, w1. split; [|done].
  destruct (calm (m := m) w) as [He _]. by rewrite Hm in He.
Qed.

Lemma execute_ok (f : Db → option Db) (w w' : W) :
  execute f w = (Ok tt, w') → f (w_db w) = Some (w_db w').
Proof.
  destruct w as [d mem [|[e|] fs] clk t]; unfold execute, query_row; run; try done;
    destruct (f d); intros [= <-]; done.
Qed.

Lemma replace_entries (p : Z) (n : string) (src : Stats) (c : Z) (w w' : W) :
  replace_destination p n src c w = (Ok tt, w') →
  fs_dentry (w_db w') = delete (p, n) (fs_dentry (w_db w)).
Proof.
  unfold replace_destination. intros (o & w1 & <- & H)%calm_bind_ok; [|apply _].
  revert H. intros (s & w2 & <- & H)%calm_bind_ok; [|apply _].
  destruct (_ && _); [done|]. destruct (_ && _); [done|].
  revert H. intros (u & w3 & <- & H)%calm_bind_ok; [|apply _].
  apply bind_ok in H as ([] & w4 & Hdel%execute_ok & H). injection Hdel as Hdel.
  change (fs_dentry (w_db w')) with (fs_dentry (w_db (Ok tt, w').2)). rewrite <-H.
  assert (Hc : Calm (t ← now_or_default;
    update (upd_inode c (set_ctime t ∘ set_nlink (λ k, k - 1))) ;;
    link_count ← get_link_count c;
    if link_count =? 0 then purge_inode c else mret tt : Fs unit)) by apply _.
  destruct (Hc w4) as [-> _]. by rewrite <-Hdel.
Qed.

Lemma move_entries (p : Z) (n : string) (p' : Z) (n' : string) (c : Z) (b : bool) (w w' : W) :
  move_entry p n p' n' c b w = (Ok tt, w') →
  ∃ d, upd_dentry p' n' p n (w_db w) = Some d ∧ fs_dentry (w_db w') = fs_dentry d.
Proof.
  unfold move_entry. intros ([] & w1 & H1%execute_ok & H)%bind_ok.
  exists (w_db w1). split; [done|].
  change (fs_dentry (w_db w')) with (fs_dentry (w_db (Ok tt, w').2)). rewrite <-H.
  assert (Hc : Calm ((if b && negb (p =? p') then
     update (upd_inode p (set_nlink (λ n, n - 1))) ;;
     update (upd_inode p' (set_nlink (λ n, n + 1))) else mret tt) ;;
    t ← now_or_default; update (upd_inode c (set_ctime t)) ;;
    update (upd_inode p (touch t)) ;;
    (if negb (p' =? p) then update (upd_inode p' (touch t)) else mret tt)
    : Fs unit)) by apply _.
  by destruct (Hc w1) as [-> _].
Qed.

Lemma coh_at_ok_or {A B : Type} (p : Z) (n : string) (c : Z) (e : Error.t) (a : A)
    (f : A → Fs B) :
  CohAt p n c (f a) → CohAt p n c (ok_or e (Some a) ≫= f).
Proof. intros H. exact H. Qed.

(** Renaming an entry onto another one. *)
Lemma rename_coh p n p' n' : (p, n) ≠ (p', n') → Coh (rename p n p' n').
Proof.
  intros Hne. unfold rename. destruct (_ <? _); [apply _|].
  apply calm_bind_coh; [apply _|intros _]. apply coh_lookup_child; [apply _|intros c].
  apply coh_at_ok_or. destruct (c =? ROOT_INO); [by apply coh_at_calm|].
  apply coh_at_bind; [apply _|intros o]. apply coh_at_bind; [apply _|intros src].
  intros w Hw Hc.
  apply (coh_transaction (λ e, e !! (p, n) = Some c)); [apply _|apply _| |done|done].
  clear Hw Hc w. intros w w' w2 [] _ Hw Hc Hrun Hdb Hmem.
  assert (He : fs_dentry (w_db w') =
               <[(p', n') := c]> (delete (p, n) (delete (p', n') (fs_dentry (w_db w))))).
  { apply bind_ok in Hrun as (dst & w1 & Hl & Hrun).
    assert (Hw1 : fs_dentry (w_db w1) = fs_dentry (w_db w)).
    { destruct (calm (m := lookup_child p' n' : Fs _) w) as [He _]. by rewrite Hl in He. }
    apply bind_ok in Hrun as ([] & w3 & Hrep & Hmv).
    assert (Hw3 : fs_dentry (w_db w3) = delete (p', n') (fs_dentry (w_db w))).
    { destruct dst as [c'|]; [by apply replace_entries in Hrep; rewrite Hrep, Hw1|].
      injection Hrep as <-. rewrite Hw1. symmetry. apply delete_id.
      revert Hl. unfold lookup_child, sel_dentry. 
      destruct w as [d mem [|[e|] fs] clk t]; run; [|done|];
        by destruct (fs_dentry d !! (p', n')). }
    apply move_entries in Hmv as (d' & Hupd & ->). unfold upd_dentry in Hupd.
    rewrite Hw3, lookup_delete_ne, Hc, lookup_delete_ne, lookup_delete_eq in Hupd by done.
    injection Hupd as <-. done. }
  destruct w2 as [d2 mem2 fs2 clk2 t2]. cbn [w_db w_mem] in Hdb, Hmem.
  unfold coherent in *. run_fs. rewrite Hdb, He, Hmem.
  etrans; [apply lru_put_view|]. rewrite !lru_pop_view, (delete_delete _ (p', n')).
  by apply insert_mono, delete_mono, delete_mono.
Qed.
End Transactions.
