(* ===== verification/Path.v ===== *)
(** * Path: normalising and splitting paths

    [normalize_path] and [split_path] of [sdk/rust/src/filesystem/agentfs.rs],
    and the parts of [std::path] that [stat] uses on symlink targets.  A path
    is a byte string; components are separated by ['/']. *)
From S2P Require Import Prelude.

(** ['/'] *)
Definition slash : Ascii.ascii := Ascii.Ascii true true true true false true false false.

(** ** Strings *)

(** [str::split('/')]: the pieces between separators, never an empty list. *)
Fixpoint split_slash (s : string) : list string :=
  match s with
  | EmptyString => [""]
  | String a s =>
      if Ascii.eqb a slash then "" :: split_slash s
      else match split_slash s with
           | [] => [String a ""]
           | p :: ps => String a p :: ps
           end
  end.

(** [components.join("/")]. *)
Fixpoint join_slash (l : list string) : string :=
  match l with
  | [] => ""
  | [p] => p
  | p :: ps => p +:+ "/" +:+ join_slash ps
  end.

(** [str::trim_end_matches('/')]. *)
Fixpoint trim_end (s : string) : string :=
  match s with
  | EmptyString => EmptyString
  | String a s =>
      match trim_end s with
      | EmptyString => if Ascii.eqb a slash then "" else String a ""
      | t => String a t
      end
  end.

(** [str::starts_with]. *)
Fixpoint starts_with (s prefix : string) : bool :=
  match prefix, s with
  | EmptyString, _ => true
  | String a prefix, String b s => Ascii.eqb a b && starts_with s prefix
  | _, _ => false
  end.

(** [str::contains('/')] and [str::trim_start_matches('/')] *)
Fixpoint has_slash (s : string) : bool :=
  match s with
  | EmptyString => false
  | String a s => if Ascii.eqb a slash then true else has_slash s
  end.
Fixpoint trim_start (s : string) : string :=
  match s with
  | String a s' => if Ascii.eqb a slash then trim_start s' else s
  | EmptyString => EmptyString
  end.
(** [&p[prefix.len()..]] when [p] starts with [prefix]. *)
Fixpoint strip_prefix (p prefix : string) : option string :=
  match prefix, p with
  | EmptyString, _ => Some p
  | String a prefix, String b p => if Ascii.eqb a b then strip_prefix p prefix else None
  | String _ _, EmptyString => None
  end.

(** ** The two functions *)

(** One iteration of the loop over the components; [result] in reverse. *)
Definition push_component (result : list string) (component : string) : list string :=
  if String.eqb component "." then result
  else if String.eqb component ".." then tail result
  else component :: result.

(** The components that remain, in order. *)
Definition resolve_dots (components : list string) : list string :=
  rev (fold_left push_component components []).

Definition nonempty (s : string) : Prop := s ≠ "".
#[global] Instance nonempty_dec s : Decision (nonempty s).
Proof. unfold nonempty. apply _. Defined.

Definition normalize_path (path : string) : string :=
  let normalized := trim_end path in
  if String.eqb normalized "" then "/"
  else if starts_with normalized "/" then
    match resolve_dots (filter nonempty (split_slash normalized)) with
    | [] => "/"
    | result => "/" +:+ join_slash result
    end
  else "/" +:+ normalized.

Definition split_path (path : string) : list string :=
  let normalized := normalize_path path in
  if String.eqb normalized "/" then []
  else filter nonempty (split_slash normalized).

(** The path of the parent directory, from the components of a path. *)
Definition parent_path (components : list string) : string :=
  match components with
  | [] | [_] => "/"
  | _ => "/" +:+ join_slash (removelast components)
  end.

(** ** [std::path::Path]

    [parent]: the path without its last component ([.] components do not
    count), [None] for the root.  [join]: an absolute path replaces the base.
    Redundant separators are left out: [normalize_path] drops them. *)
Definition path_parent (path : string) : option string :=
  match filter (λ c, c ≠ "" ∧ c ≠ ".") (split_slash path) with
  | [] => None
  | cs => Some ("/" +:+ join_slash (removelast cs))
  end.

Definition path_join (base target : string) : string :=
  if starts_with target "/" then target
  else if String.eqb base "/" then "/" +:+ target
  else base +:+ "/" +:+ target.

(** Where a symlink at [current_path] leads ([stat]). *)
Definition follow_target (current_path target : string) : string :=
  normalize_path
    (if starts_with target "/" then target
     else path_join (default "/" (path_parent current_path)) target).

(** ** Splitting and joining *)

(** A component: not empty, no separator. *)
Definition plain (s : string) : Prop := s ≠ "" ∧ split_slash s = [s].
(** A component of a normalised path. *)
Definition canonical_component (s : string) : Prop := plain s ∧ s ≠ "." ∧ s ≠ "..".
Definition canonical (l : list string) : Prop := Forall canonical_component l.

Lemma string_app_assoc (s t u : string) : s +:+ (t +:+ u) = (s +:+ t) +:+ u.
Proof. induction s as [|a s IH]; [done|]. exact (f_equal (String a) IH). Qed.

Lemma split_slash_cons s : ∃ p ps, split_slash s = p :: ps.
Proof.
  induction s as [|a s (p & ps & IH)]; simpl; [eauto|].
  destruct (Ascii.eqb a slash); [eauto|]. rewrite IH. eauto.
Qed.

Lemma split_slash_app s t :
  split_slash s = [s] → split_slash (s +:+ String slash t) = s :: split_slash t.
Proof.
  induction s as [|a s IH]; [done|]. simpl. destruct (Ascii.eqb a slash).
  - destruct (split_slash_cons s) as (p & ps & ->). done.
  - destruct (split_slash_cons s) as (p & ps & Hs). rewrite Hs.
    intros [= -> ->]. rewrite IH by done. done.
Qed.

Lemma split_slash_join s t : split_slash (s +:+ String slash t) = split_slash s ++ split_slash t.
Proof.
  induction s as [|a s IH]; [done|]. change (String a s +:+ ?x) with (String a (s +:+ x)).
  cbn [split_slash]. destruct (Ascii.eqb a slash); [by rewrite IH|].
  destruct (split_slash_cons s) as (p & ps & Hs). by rewrite IH, Hs.
Qed.

(** Every piece is free of separators. *)
Lemma split_slash_pieces s : Forall (λ p, split_slash p = [p]) (split_slash s).
Proof.
  induction s as [|a s IH]; simpl; [by constructor|].
  destruct (Ascii.eqb a slash) eqn:Ha; [by constructor|].
  destruct (split_slash s) as [|p ps] eqn:Hs.
  - destruct (split_slash_cons s) as (? & ? & ?). congruence.
  - inversion IH as [|? ? Hp Hps]; subst. constructor; [|done].
    simpl. by rewrite Ha, Hp.
Qed.

Lemma filter_split_plain s : Forall plain (filter nonempty (split_slash s)).
Proof.
  apply Forall_forall. intros p [Hne Hin]%list_elem_of_filter.
  pose proof (split_slash_pieces s) as Hall. rewrite Forall_forall in Hall.
  split; [done|auto].
Qed.

Lemma split_join l : l ≠ [] → Forall plain l → split_slash (join_slash l) = l.
Proof.
  intros Hne Hl. induction Hl as [|p l [Hp Hs] Hl IH]; [done|].
  destruct l as [|q l]; [done|]. change (join_slash (p :: q :: l)) with
    (p +:+ String slash (join_slash (q :: l))). by rewrite split_slash_app, IH.
Qed.

(** ** Dots *)

Lemma resolve_dots_spec l acc :
  Forall plain l → canonical acc → canonical (fold_left push_component l acc).
Proof.
  intros Hl. revert acc. induction Hl as [|c l Hc Hl IH]; intros acc Hacc; [done|].
  simpl. apply IH. unfold push_component.
  destruct (String.eqb_spec c "."); [done|].
  destruct (String.eqb_spec c ".."); 
    [by destruct acc; [|apply Forall_cons in Hacc as [_ ?]]|].
  apply Forall_cons. by split_and!.
Qed.

Lemma resolve_dots_canonical l : Forall plain l → canonical (resolve_dots l).
Proof.
  intros Hl. unfold resolve_dots, canonical. apply Forall_rev.
  apply resolve_dots_spec; [done|constructor].
Qed.

(** Canonical components are left alone. *)
Lemma resolve_dots_id l : canonical l → resolve_dots l = l.
Proof.
  intros Hl. unfold resolve_dots.
  assert (H : ∀ acc, fold_left push_component l acc = rev l ++ acc).
  { induction Hl as [|c l (Hp & Hd & Hdd) Hl IH]; intros acc; [done|]. simpl.
    rewrite IH. unfold push_component.
    destruct (String.eqb_spec c "."); [done|]. destruct (String.eqb_spec c ".."); [done|].
    by rewrite <-app_assoc. }
  by rewrite H, app_nil_r, rev_involutive.
Qed.

(** ** Trimming *)

Lemma trim_end_id s c : split_slash c = [c] → c ≠ "" → trim_end (s +:+ c) = s +:+ c.
Proof.
  intros Hs Hc. induction s as [|a s IH]; simpl.
  - clear -Hs Hc. induction c as [|a c IH]; [done|]. simpl in *.
    destruct (Ascii.eqb a slash) eqn:Ha.
    { destruct (split_slash_cons c) as (? & ? & H). rewrite H in Hs. done. }
    destruct c as [|b c]; [done|]. change (trim_end (String b c)) with
      (trim_end ("" +:+ String b c)). rewrite IH; [done| |done].
    destruct (split_slash_cons (String b c)) as (p & ps & H). rewrite H in *. by simplify_eq.
  - rewrite IH. destruct s; [|done]. simpl. by destruct c.
Qed.

Lemma join_slash_cons p q l :
  join_slash (p :: q :: l) = p +:+ "/" +:+ join_slash (q :: l).
Proof. done. Qed.

Lemma join_slash_last l c : ∃ s, join_slash (l ++ [c]) = s +:+ c.
Proof.
  induction l as [|p l [s IH]]; [by exists ""|].
  destruct l as [|q l]; [exists (p +:+ "/"); apply string_app_assoc|].
  exists (p +:+ "/" +:+ s). simpl app in IH |- *.
  by rewrite join_slash_cons, IH, <-!string_app_assoc.
Qed.

(** ** Normalised paths *)

(** The rendering of canonical components. *)
Definition render (l : list string) : string :=
  match l with [] => "/" | _ => "/" +:+ join_slash l end.

Lemma canonical_plain l : canonical l → Forall plain l.
Proof. intros H. eapply Forall_impl; [exact H|]. by intros ? []. Qed.

Lemma filter_nonempty_id l : Forall plain l → filter nonempty l = l.
Proof.
  induction 1 as [|p l [Hp _] Hl IH]; [done|]. rewrite filter_cons.
  destruct (decide (nonempty p)); [by rewrite IH|done].
Qed.

Lemma split_render l : canonical l → filter nonempty (split_slash (render l)) = l.
Proof.
  intros Hl%canonical_plain. destruct l as [|p l]; [done|].
  change (split_slash (render (p :: l))) with ("" :: split_slash (join_slash (p :: l))).
  rewrite filter_cons_False by by intros [].
  rewrite split_join by done. by apply filter_nonempty_id.
Qed.

Lemma trim_render l : canonical l → l ≠ [] → trim_end (render l) = render l.
Proof.
  intros Hl%canonical_plain Hne. unfold render. destruct l as [|p l _] using rev_ind; [done|].
  apply Forall_app in Hl as [_ [Hc _]%Forall_cons]. destruct Hc as [Hc Hs].
  destruct (join_slash_last l p) as [s Hj]. rewrite Hj.
  destruct (l ++ [p]) eqn:Hlp; [by destruct l|].
  rewrite string_app_assoc. by apply trim_end_id.
Qed.

Lemma normalize_render l : canonical l → normalize_path (render l) = render l.
Proof.
  intros Hl. destruct (decide (l = [])) as [->|Hne]; [done|].
  unfold normalize_path. rewrite trim_render by done.
  assert (Hr : ∃ s, render l = String slash s ∧ s ≠ "").
  { unfold render. destruct l as [|p l]; [done|]. eexists. split; [done|].
    apply canonical_plain, Forall_cons in Hl as [[Hp _] _].
    destruct l; simpl; [done|]. by destruct p. }
  destruct Hr as (s & Hr & Hs). rewrite split_render, resolve_dots_id by done.
  assert (H1 : String.eqb (render l) "" = false) by by rewrite Hr.
  assert (H2 : starts_with (render l) "/" = true) by by rewrite Hr; destruct s.
  rewrite H1, H2. by destruct l.
Qed.

Lemma split_path_render l : canonical l → split_path (render l) = l.
Proof.
  intros Hl. unfold split_path. rewrite normalize_render by done.
  destruct l as [|p l]; [done|].
  rewrite split_render by done. destruct (String.eqb_spec (render (p :: l)) "/") as [Hr|]; [|done].
  unfold render in Hr. apply canonical_plain, Forall_cons in Hl as [[Hp _] _].
  simpl in Hr. injection Hr as Hr. destruct l, p; done.
Qed.

(** An absolute path is normalised to the rendering of canonical components. *)
Lemma normalize_canonical path :
  starts_with path "/" = true →
  ∃ l, canonical l ∧ normalize_path path = render l.
Proof.
  intros Hp. unfold normalize_path.
  destruct (String.eqb_spec (trim_end path) "") as [_|Hne];
    [exists []; split; [by apply Forall_nil|done]|].
  assert (Ht : starts_with (trim_end path) "/" = true).
  { destruct path as [|a path]; [done|]. cbn [starts_with] in Hp.
    fold slash in Hp.
    destruct (Ascii.eqb_spec slash a) as [<-|]; [|done].
    cbn in Hne |- *. destruct (trim_end path) as [|b [|c t]]; done. }
  rewrite Ht. exists (resolve_dots (filter nonempty (split_slash (trim_end path)))).
  split; [by apply resolve_dots_canonical, filter_split_plain|].
  by destruct (resolve_dots _).
Qed.

(** * Properties *)

(** Normalising an absolute path is idempotent, and its result is ["/"]
    followed by components without [.], [..], empty names or separators, which
    [split_path] gives back. *)
Theorem normalize_absolute path :
  starts_with path "/" = true →
  normalize_path (normalize_path path) = normalize_path path ∧
  canonical (split_path path) ∧
  normalize_path path = render (split_path path).
Proof.
  intros (l & Hl & Hn)%normalize_canonical. rewrite Hn, normalize_render by done.
  assert (Hs : split_path path = l).
  { rewrite <-(split_path_render l Hl). unfold split_path.
    by rewrite Hn, normalize_render. }
  by rewrite Hs.
Qed.

(** A relative path with dots is not normalised: its [..] stays. *)
Theorem normalize_relative_dots :
  normalize_path "a/../b" = "/a/../b" ∧
  normalize_path (normalize_path "a/../b") = "/b".
Proof. done. Qed.
