(* ===== verification/Init.v ===== *)
(** * Init: creating and opening the tables

    [initialize_schema] and [read_chunk_size] of
    [sdk/rust/src/filesystem/agentfs.rs].  [CREATE TABLE IF NOT EXISTS] does
    nothing on tables that exist, and the model's tables always do: those
    statements only can fail. *)
From S2P Require Import Prelude Types Engine Lru Schema FileIO FileIOSpec AgentFS.
From S2P Require Import AgentFSInv.

(** ** Parsing the chunk size *)

(** [char::to_digit(10)]. *)
Definition digit (a : Ascii.ascii) : option Z :=
  let n := Z.of_N (Ascii.N_of_ascii a) in
  if (48 <=? n) && (n <=? 57) then Some (n - 48) else None.

Fixpoint parse_digits (acc : Z) (s : string) : option Z :=
  match s with
  | EmptyString => Some acc
  | String a s =>
      match digit a with
      | Some k =>
          let acc' := acc * 10 + k in
          if acc' <? 2 ^ 64 then parse_digits acc' s else None
      | None => None
      end
  end.

(** ['+'] *)
Definition plus_sign : Ascii.ascii := Ascii.Ascii true true false true false true false false.

(** [str::parse::<usize>]: a [+] sign may precede the digits. *)
Definition parse_usize (s : string) : option Z :=
  match s with
  | EmptyString => None
  | String a s' =>
      if Ascii.eqb a plus_sign then
        match s' with EmptyString => None | _ => parse_digits 0 s' end
      else parse_digits 0 s
  end.

(** ** The two functions *)
Section Init.
Context {C : Type}.

(** [SELECT value FROM fs_config WHERE key = ?] *)
Definition sel_config (key : string) (d : Db) : option string := fs_config d !! key.

(** [INSERT INTO fs_config (key, value) VALUES (?, ?)] *)
Definition ins_config (key value : string) (d : Db) : option Db :=
  match fs_config d !! key with
  | Some _ => None
  | None => Some (set_config (<[key := value]> (fs_config d)) d)
  end.

(** [INSERT OR REPLACE INTO fs_config (key, value) VALUES (?, ?)] *)
Definition rep_config (key value : string) (d : Db) : Db :=
  set_config (<[key := value]> (fs_config d)) d.

(** [INSERT INTO fs_inode (ino, ...) VALUES (?, ...)] with a given rowid. *)
Definition ins_inode_at (ino : Z) (row : Inode) (d : Db) : option Db :=
  match fs_inode d !! ino with
  | Some _ => None
  | None => Some (set_seq (Z.max (inode_seq d) ino)
                    (set_inodes (<[ino := row]> (fs_inode d)) d))
  end.

(** A statement whose failure is ignored ([.ok()]). *)
Definition lenient : M Db C unit := try (engine_call (D:=Db)) ;; mret tt.

Definition initialize_schema (uid gid : Z) : M Db C unit :=
  statements 2 ;;
  lenient ;; lenient ;; lenient ;;
  statements 4 ;;
  value ← query (sel_config "chunk_size");
  (match value with
   | None => execute (ins_config "chunk_size" "4096")
   | Some _ => mret tt
   end) ;;
  update (rep_config "schema_version" "0.4") ;;
  root ← query (sel_inode ROOT_INO);
  match root with
  | None =>
      t ← now;
      execute (ins_inode_at ROOT_INO (new_row DEFAULT_DIR_MODE 2 uid gid 0 0 t))
  | Some _ => update (upd_inode ROOT_INO (set_gid gid ∘ set_uid uid))
  end.

Definition read_chunk_size : M Db C Z :=
  value ← query (sel_config "chunk_size");
  mret (match value with
        | Some v => default DEFAULT_CHUNK_SIZE (parse_usize v)
        | None => DEFAULT_CHUNK_SIZE
        end).

(** [AgentFS::from_pool]: the chunk size and the empty dentry cache. *)
Definition from_pool {Lru : LruCache (Z * string) Z} (uid gid : Z) :
    M Db C (Z * lru (Z * string) Z) :=
  get_connection ;;
  initialize_schema uid gid ;;
  statements 2 ;;
  chunk_size ← read_chunk_size;
  mret (chunk_size, lru_new DENTRY_CACHE_MAX_SIZE).
End Init.
#[global] Typeclasses Opaque initialize_schema read_chunk_size from_pool.

(** ** Effect on well-formed tables *)
Section Facts.
Context {C : Type} (cs : Z).

Lemma core_config delta d m : core cs delta d → core cs delta (set_config m d).
Proof. intros [?????? ? [? ?]]. by split; [..|split]. Qed.

Lemma wf_config d m : fs_wf cs d → fs_wf cs (set_config m d).
Proof. intros [H Hs]. split; [by apply core_config|done]. Qed.

(** The freshly created tables. *)
Definition initial_db (uid gid : Z) (t : Z * Z) : Db :=
  mkDb (<["schema_version" := "0.4"]> (<["chunk_size" := "4096"]> ∅)) ROOT_INO
    {[ROOT_INO := new_row DEFAULT_DIR_MODE 2 uid gid 0 0 t]} ∅ ∅ ∅.

Lemma initial_wf uid gid t : fs_wf cs (initial_db uid gid t).
Proof.
  assert (Hrow : ∀ ino r, fs_inode (initial_db uid gid t) !! ino = Some r →
    ino = ROOT_INO ∧ r = new_row DEFAULT_DIR_MODE 2 uid gid 0 0 t).
  { intros ino r Hr. cbn [fs_inode initial_db] in Hr.
    by apply lookup_singleton_Some in Hr as [<- <-]. }
  split.
  - split.
    + eexists. split; [apply lookup_singleton_eq|done].
    + intros ino [r [-> _]%Hrow]. done.
    + done.
    + intros ino r [-> ->]%Hrow Hd. done.
    + intros ino _. done.
    + done.
    + done.
    + split; [|done]. intros ino r [_ ->]%Hrow. done.
  - intros ino r _ [_ ->]%Hrow Hd. done.
Qed.

Lemma initialize_empty uid gid (c : C) clk t :
  initialize_schema uid gid (mkWorld empty_db c [] (ticks clk) t) =
    (Ok tt, mkWorld (initial_db uid gid (clk t)) c [] (ticks clk) (S t)).
Proof. done. Qed.

(** On existing tables only the owner of the root and the two configuration
    rows are written. *)
Definition reopened_db (uid gid : Z) (d : Db) : Db :=
  let cfg := match fs_config d !! "chunk_size" with
             | Some _ => fs_config d
             | None => <["chunk_size" := "4096"]> (fs_config d)
             end in
  upd_inode ROOT_INO (set_gid gid ∘ set_uid uid)
    (set_config (<["schema_version" := "0.4"]> cfg) d).

Lemma initialize_existing uid gid d (c : C) clk t :
  is_Some (fs_inode d !! ROOT_INO) →
  initialize_schema uid gid (mkWorld d c [] clk t) =
    (Ok tt, mkWorld (reopened_db uid gid d) c [] clk t).
Proof.
  intros [r Hr]. unfold initialize_schema, reopened_db, ins_config, sel_config, lenient.
  cbn [statements]. run.
  destruct (fs_config d !! "chunk_size") eqn:Hcfg; run; rewrite ?Hcfg; run;
    unfold sel_inode; change (fs_inode (rep_config _ _ ?d')) with (fs_inode d').
  - by rewrite Hr.
  - change (fs_inode (set_config _ d)) with (fs_inode d). by rewrite Hr.
Qed.

Lemma reopened_wf uid gid d : fs_wf cs d → fs_wf cs (reopened_db uid gid d).
Proof.
  intros H%(wf_config d (<["schema_version" := "0.4"]>
    (match fs_config d !! "chunk_size" with Some _ => fs_config d
     | None => <["chunk_size" := "4096"]> (fs_config d) end))).
  unfold reopened_db. destruct H as [H Hset].
  assert (Hf : ∀ r, adjusts 0 r ((set_gid gid ∘ set_uid uid) r))
    by (intros; simpl; auto with adjusts).
  split; [|eapply settled_upd; [done|by intros|right; lia]].
  eapply core_ext; [by apply (core_upd _ (λ _, 0) _ _ 0)|].
  intros j r _ _. unfold bump. case_decide; lia.
Qed.

(** What opening leaves alone: everything but the configuration and the root
    row. *)
Record kept (d d' : Db) : Prop := {
  kept_dentry : fs_dentry d' = fs_dentry d;
  kept_data : fs_data d' = fs_data d;
  kept_symlink : fs_symlink d' = fs_symlink d;
  kept_inode ino : ino ≠ ROOT_INO → fs_inode d' !! ino = fs_inode d !! ino
}.

Lemma initial_kept uid gid t : kept empty_db (initial_db uid gid t).
Proof.
  split; [done..|]. intros ino Hino. cbn [fs_inode initial_db].
  by rewrite lookup_singleton_ne.
Qed.

Lemma reopened_kept uid gid d : kept d (reopened_db uid gid d).
Proof.
  split; [done..|]. intros ino Hino. unfold reopened_db. rewrite lookup_upd_inode.
  by rewrite decide_False.
Qed.

(** The chunk size that the configuration of the tables asks for. *)
Definition configured (d : Db) : Z :=
  match fs_config d !! "chunk_size" with
  | Some v => default DEFAULT_CHUNK_SIZE (parse_usize v)
  | None => DEFAULT_CHUNK_SIZE
  end.

Lemma read_reopened uid gid d (c : C) clk t :
  read_chunk_size (mkWorld (reopened_db uid gid d) c [] clk t) =
    (Ok (configured d), mkWorld (reopened_db uid gid d) c [] clk t).
Proof.
  unfold read_chunk_size, sel_config, configured. run.
  change (fs_config (reopened_db uid gid d)) with
    (<["schema_version" := "0.4"]> (match fs_config d !! "chunk_size" with
       | Some _ => fs_config d | None => <["chunk_size" := "4096"]> (fs_config d) end)).
  rewrite lookup_insert_ne by done.
  destruct (fs_config d !! "chunk_size") as [v|] eqn:Hv; [by rewrite Hv|].
  by rewrite lookup_insert_eq.
Qed.

(** C7: opening a filesystem.  On an empty database it creates well-formed
    tables with a root directory; on well-formed tables it keeps them
    well-formed and touches neither entries nor contents nor any inode but the
    owner of the root.  The handle gets the configured chunk size (4096 unless
    the tables say otherwise) and an empty dentry cache. *)
Theorem open_filesystem {Lru : LruCache (Z * string) Z} uid gid (w : World Db C) :
  healthy w → w_db w = empty_db ∨ fs_wf cs (w_db w) →
  ∃ w', from_pool uid gid w =
      (Ok (configured (w_db w), lru_new DENTRY_CACHE_MAX_SIZE), w') ∧
    fs_wf cs (w_db w') ∧ kept (w_db w) (w_db w').
Proof.
  intros Hh Hd. healthy_world w. cbn [w_db] in *. unfold from_pool.
  destruct Hd as [->|Hwf].
  - eexists. split; [by run|]. split; [apply initial_wf|apply initial_kept].
  - exists (mkWorld (reopened_db uid gid d) mem [] (ticks clk) t).
    split; [|split; [by apply reopened_wf|apply reopened_kept]].
    assert (Hroot : is_Some (fs_inode d !! ROOT_INO)).
    { destruct Hwf as [Hcore _]. destruct (co_root _ _ _ Hcore) as (r & Hr & _).
      by exists r. }
    run. rewrite initialize_existing by done. cbn [statements]. run.
    by rewrite read_reopened.
Qed.
End Facts.
