(* ===== verification/AgentFSProps.v ===== *)
(** * AgentFSProps: what is proved of the filesystem

    Refinement of the specification by each operation under every schedule of
    engine failures, the invariant of the reachable states, the coherence of
    the dentry cache, atomicity, and the cases the source gets wrong. *)
From S2P Require Import Prelude Types Engine Lru Schema FileIO FileIOSpec AgentFS.
From S2P Require Import AgentFSInv AgentFSSpec AgentFSOps AgentFSCoherent Init.

(** ** Operations as steps *)

Inductive op :=
| OLookup (p : Z) (n : string)
| OMkdir (p : Z) (n : string) (mode uid gid : Z)
| OCreate (p : Z) (n : string) (mode uid gid : Z)
| OMknod (p : Z) (n : string) (mode rdev uid gid : Z)
| OSymlink (p : Z) (n target : string) (uid gid : Z)
| OLink (ino p : Z) (n : string)
| OUnlink (p : Z) (n : string)
| ORmdir (p : Z) (n : string)
| ORename (p : Z) (n : string) (p' : Z) (n' : string)
| OChmod (ino mode : Z)
| OChown (ino : Z) (uid gid : option Z)
| OUtimens (ino : Z) (a m : TimeChange)
| OWrite (ino off : Z) (data : bytes)
| OTruncate (ino n : Z).

(** Arguments a client may pass: parents are directories, only regular files
    are written, and an entry is not renamed to itself. *)
Definition regular (d : Db) (ino : Z) : Prop :=
  ∃ r, fs_inode d !! ino = Some r ∧ dir_row r = false ∧ lnk_row r = false.

Definition op_ok (o : op) (d : Db) : Prop :=
  match o with
  | OMkdir p _ _ _ _ | OCreate p _ _ _ _ | OLink _ p _ | ORmdir p _ => is_dir d p
  | OMknod p _ mode _ _ _ =>
      is_dir d p ∧ has_type mode S_IFDIR = false ∧ has_type mode S_IFLNK = false
  | OSymlink p _ target _ _ => is_dir d p ∧ strlen target < 2 ^ 63
  | OUnlink p _ => small d
  | ORename p n p' n' => small d ∧ is_dir d p ∧ is_dir d p' ∧ (p, n) ≠ (p', n')
  | OWrite ino off data => regular d ino ∧ 0 <= off ∧ off + len data < 2 ^ 63
  | OTruncate ino n => regular d ino ∧ 0 <= n < 2 ^ 63
  | OLookup _ _ | OChmod _ _ | OChown _ _ _ | OUtimens _ _ _ => True
  end.

Section Props.
Context {E : SqlEngine} {Lru : LruCache (Z * string) Z} (cs : Z).
Abbreviation W := (World Db (lru (Z * string) Z)).
Abbreviation Fs := (M Db (lru (Z * string) Z)).

Definition run_op (o : op) : Fs unit :=
  match o with
  | OLookup p n => lookup p n ;; mret tt
  | OMkdir p n mode uid gid => mkdir p n mode uid gid ;; mret tt
  | OCreate p n mode uid gid => create_file cs p n mode uid gid ;; mret tt
  | OMknod p n mode rdev uid gid => mknod p n mode rdev uid gid ;; mret tt
  | OSymlink p n target uid gid => symlink p n target uid gid ;; mret tt
  | OLink ino p n => link ino p n ;; mret tt
  | OUnlink p n => unlink p n
  | ORmdir p n => rmdir p n
  | ORename p n p' n' => rename p n p' n'
  | OChmod ino mode => chmod ino mode
  | OChown ino uid gid => chown ino uid gid
  | OUtimens ino a m => utimens ino a m
  | OWrite ino off data => pwrite (mkFile ino cs) off data
  | OTruncate ino n => truncate (mkFile ino cs) n
  end.

(** A step: one operation, whatever its outcome. *)
Inductive step (w w' : W) : Prop :=
| Step o : healthy w → op_ok o (w_db w) → w' = (run_op o w).2 → step w w'.

(** A step under an arbitrary schedule of failures, and of arbitrary arguments
    but for renaming an entry to itself. *)
Inductive faulty_step (w w' : W) : Prop :=
| FaultyStep o fs :
    (∀ p n p' n', o = ORename p n p' n' → (p, n) ≠ (p', n')) →
    w' = (run_op o (set_faults fs w)).2 → faulty_step w w'.

(** ** Lemmas *)

Lemma refines_wf {A} (m : Fs A) spec w :
  refines cs m spec w → faultless w → fs_wf cs (w_db w) → fs_wf cs (w_db (m w).2).
Proof.
  unfold refines, faultless. intros H Hf Hwf. destruct (m w) as [[a|e|] w']; [apply H| |done].
  destruct H as [(fe & _ & _ & Hd)|He]; [simpl; by rewrite Hd|].
  rewrite Hf in He. by apply elem_of_nil in He.
Qed.

Lemma discard_world {A} (m : Fs A) (w : W) : ((m ;; mret tt) w).2 = (m w).2.
Proof. unfold mbind, M_bind. by destruct (m w) as [[a|e|] w']. Qed.

Lemma step_wf o (w : W) :
  0 < cs → healthy w → op_ok o (w_db w) → fs_wf cs (w_db w) →
  fs_wf cs (w_db (run_op o w).2).
Proof.
  intros Hcs Hh Hok Hwf. healthy_world w. cbn [w_db] in *.
  destruct o; cbn [run_op op_ok] in *; rewrite ?discard_world.
  - pose proof (readonly (m := lookup p n : Fs _) (mkWorld d mem [] (ticks clk) t)) as Hr.
    by rewrite Hr.
  - by eapply refines_wf; [apply mkdir_healthy|..].
  - by eapply refines_wf; [apply create_file_healthy|..].
  - destruct Hok as (? & ? & ?). by eapply refines_wf; [apply mknod_healthy|..].
  - destruct Hok. by eapply refines_wf; [apply symlink_healthy|..].
  - by eapply refines_wf; [apply link_healthy|..].
  - by eapply refines_wf; [apply unlink_healthy|..].
  - by eapply refines_wf; [apply rmdir_healthy|..].
  - destruct Hok as (? & ? & ? & ?). by eapply refines_wf; [apply rename_healthy|..].
  - by eapply refines_wf; [apply chmod_healthy|..].
  - by eapply refines_wf; [apply chown_healthy|..].
  - by eapply refines_wf; [apply utimens_healthy|..].
  - destruct Hok as ((r & ? & ? & ?) & ? & ?).
    by eapply refines_wf; [eapply pwrite_healthy|..].
  - destruct Hok as ((r & ? & ? & ?) & ?).
    by eapply refines_wf; [eapply truncate_healthy|..].
Qed.

Lemma step_coherent o (w : W) :
  (∀ p n p' n', o = ORename p n p' n' → (p, n) ≠ (p', n')) →
  coherent w → coherent (run_op o w).2.
Proof.
  intros Hne. revert w. change (Coh (run_op o)).
  destruct o; cbn [run_op]; try apply _; try (intros w Hw; rewrite discard_world).
  - by apply lookup_coh.
  - by apply mkdir_coh.
  - by apply create_file_coh.
  - by apply mknod_coh.
  - by apply symlink_coh.
  - by apply link_coh.
  - by apply rename_coh, (Hne p n p' n').
Qed.

(** In a faulty world whose clock works, it is enough to look at the world
    without faults. *)
Lemma refines_healthy {A} (m : Fs A) `{!Stops m} spec (w : W) :
  clock_ok w →
  (∀ clk, w_clock w = ticks clk →
     refines cs m spec (mkWorld (w_db w) (w_mem w) [] (ticks clk) (w_tick w))) →
  refines cs m spec w.
Proof.
  intros [clk Hclk] H. apply refines_stops; [done|]. specialize (H clk Hclk).
  unfold set_faults. by rewrite Hclk.
Qed.

(** An operation that refines its specification and is atomic leaves the
    tables unchanged unless it succeeds. *)
Lemma atomic_unchanged {A} (m : Fs A) `{!Atomic m} (w w' : W) r :
  m w = (r, w') → (∀ a, r ≠ Ok a) → w_db w' = w_db w.
Proof. intros Hm Hr. pose proof (atomic (m := m) w) as Ha. rewrite Hm in Ha. by apply Ha. Qed.

#[local] Instance utimens_stops ino a m : Stops (utimens ino a m : Fs unit).
Proof. unfold utimens, time_update, resolve_time, apply_times. destruct a, m; apply _. Qed.
#[local] Instance utimens_atomic ino a m : Atomic (utimens ino a m : Fs unit).
Proof. unfold utimens, time_update, resolve_time, apply_times. destruct a, m; apply _. Qed.

(** * Properties *)

(** C1: the invariant of the tables.  Start from well-formed tables and a
    coherent cache (those of a new filesystem, say) and run any sequence of
    operations with admissible arguments, each to its end, errors included:
    every entry leads from a directory to an existing inode, the link count of
    every file is the number of entries that lead to it and is positive, no
    directory has two parents and the root has none, symlinks have targets,
    chunks lie within their files, and the dentry cache holds entries of the
    table only. *)
Theorem reachable_wf (w0 w : W) :
  0 < cs → fs_wf cs (w_db w0) → coherent w0 → rtc step w0 w →
  fs_wf cs (w_db w) ∧ coherent w.
Proof.
  intros Hcs Hwf Hcoh Hsteps. induction Hsteps as [w|w w1 w2 [o Hh Hok ->] _ IH]; [done|].
  apply IH; [by apply step_wf|]. apply step_coherent; [|done].
  intros p n p' n' ->. by destruct Hok as (_ & _ & _ & ?).
Qed.

(** C2: the dentry cache never lies.  Under every schedule of engine and
    clock failures, whatever the operations and their arguments, and without
    any assumption on the tables, the entries the cache holds are rows of
    [fs_dentry]; the one exception is renaming an entry to itself. *)
Theorem cache_coherent (w0 w : W) :
  coherent w0 → rtc faulty_step w0 w → coherent w.
Proof.
  intros Hcoh Hsteps. induction Hsteps as [w|w w1 w2 [o fs Hne ->] _ IH]; [done|].
  by apply IH, step_coherent.
Qed.

(** [unlink] implements its specification: on a well-formed filesystem,
    and unless the engine fails, it reports exactly the error of the
    specification and changes nothing, or removes the entry and, with the last
    link, the file, and nothing else; the result is well-formed. *)
Lemma unlink_refines p n (w : W) :
  fs_wf cs (w_db w) → small (w_db w) → clock_ok w →
  refines cs (unlink p n) (Spec.unlink p n) w.
Proof.
  intros Hwf Hs Hc. apply refines_healthy; [apply _|done|]. intros clk _.
  by apply unlink_healthy.
Qed.

(** [rename] implements its specification and is atomic: unless the engine
    fails, it reports the error of the specification, or moves the entry after
    removing what it replaces; and whatever fails, unless it succeeds the tables
    are unchanged. *)
Lemma rename_refines p n p' n' (w : W) :
  fs_wf cs (w_db w) → small (w_db w) → is_dir (w_db w) p → is_dir (w_db w) p' →
  (p, n) ≠ (p', n') → clock_ok w →
  refines cs (rename p n p' n') (Spec.rename p n p' n' (dir_gone p' n' (w_db w))) w ∧
  ∀ r w', rename p n p' n' w = (r, w') → (∀ a, r ≠ Ok a) → w_db w' = w_db w.
Proof.
  intros Hwf Hs Hp Hp' Hne Hc. split; [|by intros r w'; apply atomic_unchanged; apply _].
  apply refines_healthy; [apply _|done|]. intros clk _. by apply rename_healthy.
Qed.

(** [create_file] implements its specification and is atomic. *)
Lemma create_file_refines p n mode uid gid (w : W) :
  fs_wf cs (w_db w) → is_dir (w_db w) p → clock_ok w →
  refines cs (create_file cs p n mode uid gid)
    (Spec.create p n (next_rowid (inode_seq (w_db w)))
       (Spec.mkNode (Z.lor S_IFREG (Z.land mode 0xfff)) uid gid 0 (Spec.Data []))) w ∧
  ∀ r w', create_file cs p n mode uid gid w = (r, w') → (∀ a, r ≠ Ok a) → w_db w' = w_db w.
Proof.
  intros Hwf Hp Hc. split; [|by intros r w'; apply atomic_unchanged; apply _].
  apply refines_healthy; [apply _|done|]. intros clk _. by apply create_file_healthy.
Qed.

(** [mkdir] implements its specification. *)
Lemma mkdir_refines p n mode uid gid (w : W) :
  fs_wf cs (w_db w) → is_dir (w_db w) p → clock_ok w →
  refines cs (mkdir p n mode uid gid)
    (Spec.create p n (next_rowid (inode_seq (w_db w)))
       (Spec.mkNode (Z.lor S_IFDIR (Z.land mode 0xfff)) uid gid 0 Spec.Directory)) w.
Proof.
  intros Hwf Hp Hc. apply refines_healthy; [apply _|done|]. intros clk _.
  by apply mkdir_healthy.
Qed.

(** [mknod] of a node that is neither a directory nor a symlink implements
    its specification: the mode and the device number are stored as given. *)
Lemma mknod_refines p n mode rdev uid gid (w : W) :
  fs_wf cs (w_db w) → is_dir (w_db w) p → has_type mode S_IFDIR = false →
  has_type mode S_IFLNK = false → clock_ok w →
  refines cs (mknod p n mode rdev uid gid)
    (Spec.create p n (next_rowid (inode_seq (w_db w)))
       (Spec.mkNode mode uid gid (as_i64 rdev) (Spec.Data []))) w.
Proof.
  intros Hwf Hp Hd Hl Hc. apply refines_healthy; [apply _|done|]. intros clk _.
  by apply mknod_healthy.
Qed.

(** [symlink] implements its specification: the new node keeps the target
    byte for byte. *)
Lemma symlink_refines p n target uid gid (w : W) :
  fs_wf cs (w_db w) → is_dir (w_db w) p → strlen target < 2 ^ 63 → clock_ok w →
  refines cs (symlink p n target uid gid)
    (Spec.create p n (next_rowid (inode_seq (w_db w)))
       (Spec.mkNode (Z.lor S_IFLNK 0x1ff) uid gid 0 (Spec.Link target))) w.
Proof.
  intros Hwf Hp Hl Hc. apply refines_healthy; [apply _|done|]. intros clk _.
  by apply symlink_healthy.
Qed.

(** [link] implements its specification: directories are refused, otherwise
    one more entry leads to the node, which is unchanged. *)
Lemma link_refines ino p n (w : W) :
  fs_wf cs (w_db w) → is_dir (w_db w) p → clock_ok w →
  refines cs (link ino p n) (Spec.link ino p n) w.
Proof.
  intros Hwf Hp Hc. apply refines_healthy; [apply _|done|]. intros clk _.
  by apply link_healthy.
Qed.

(** [rmdir] implements its specification: files and directories that are
    not empty are refused, otherwise the entry goes; the node goes with it only
    if its link count drops to 0. *)
Lemma rmdir_refines p n (w : W) :
  fs_wf cs (w_db w) → is_dir (w_db w) p → clock_ok w →
  refines cs (rmdir p n) (Spec.rmdir p n (dir_gone p n (w_db w))) w.
Proof.
  intros Hwf Hp Hc. apply refines_healthy; [apply _|done|]. intros clk _.
  by apply rmdir_healthy.
Qed.

(** [chmod] keeps the type of a node and sets its permission bits;
    [chown] sets the ids that are given.  Both report a missing inode, and both
    are atomic. *)
Lemma attributes_refine ino mode uid gid (w : W) :
  fs_wf cs (w_db w) → clock_ok w →
  (refines cs (chmod ino mode) (Spec.chmod ino mode) w ∧
   refines cs (chown ino uid gid) (Spec.chown ino uid gid) w) ∧
  (∀ r w', chmod ino mode w = (r, w') → (∀ a, r ≠ Ok a) → w_db w' = w_db w) ∧
  (∀ r w', chown ino uid gid w = (r, w') → (∀ a, r ≠ Ok a) → w_db w' = w_db w).
Proof.
  intros Hwf Hc. split_and!; try (by intros r w'; apply atomic_unchanged; apply _);
    (apply refines_healthy; [apply _|done|]; intros clk _).
  - by apply chmod_healthy.
  - by apply chown_healthy.
Qed.

(** What each operation does, as its specification. *)
Definition spec_op (o : op) (d : Db) : Spec.t → FsError.t + Spec.t :=
  let ino := next_rowid (inode_seq d) in
  match o with
  | OLookup _ n => λ a, Spec.check_name n (inr a)
  | OMkdir p n mode uid gid =>
      Spec.create p n ino (Spec.mkNode (Z.lor S_IFDIR (Z.land mode 0xfff)) uid gid 0 Spec.Directory)
  | OCreate p n mode uid gid =>
      Spec.create p n ino (Spec.mkNode (Z.lor S_IFREG (Z.land mode 0xfff)) uid gid 0 (Spec.Data []))
  | OMknod p n mode rdev uid gid =>
      Spec.create p n ino (Spec.mkNode mode uid gid (as_i64 rdev) (Spec.Data []))
  | OSymlink p n target uid gid =>
      Spec.create p n ino (Spec.mkNode (Z.lor S_IFLNK 0x1ff) uid gid 0 (Spec.Link target))
  | OLink ino p n => Spec.link ino p n
  | OUnlink p n => Spec.unlink p n
  | ORmdir p n => Spec.rmdir p n (dir_gone p n d)
  | ORename p n p' n' => Spec.rename p n p' n' (dir_gone p' n' d)
  | OChmod ino mode => Spec.chmod ino mode
  | OChown ino uid gid => Spec.chown ino uid gid
  | OUtimens ino _ _ => spec_utimens ino
  | OWrite ino off data =>
      Spec.edit ino (λ b, match data with [] => b | _ => FileSpec.write b off data end)
  | OTruncate ino n => Spec.edit ino (λ b, FileSpec.truncate b n)
  end.

(** The operations that have no effect unless they succeed. *)
Definition atomic_op (o : op) : bool :=
  match o with
  | OLookup _ _ | OCreate _ _ _ _ _ | ORename _ _ _ _ | OChmod _ _ | OChown _ _ _
  | OUtimens _ _ _ | OWrite _ _ _ | OTruncate _ _ => true
  | _ => false
  end.

Lemma refines_discard {A} (m : Fs A) spec (w : W) :
  refines cs m spec w → refines cs (m ;; mret tt) spec w.
Proof. unfold refines, mbind, M_bind. by destruct (m w) as [[a|e|] w']. Qed.

Lemma lookup_refines p n (w : W) :
  fs_wf cs (w_db w) → clock_ok w →
  refines cs (lookup p n) (λ a, Spec.check_name n (inr a)) w.
Proof.
  intros Hwf Hc. apply refines_healthy; [apply _|done|]. intros clk _.
  destruct w as [d mem fs clk0 t]. cbn [w_db w_mem w_tick] in *.
  unfold refines, lookup, Spec.check_name. destruct (MAX_NAME_LEN <? strlen n).
  { left. by eexists. }
  run. destruct (String.eqb n "..").
  - destruct (p =? ROOT_INO); by run_fs.
  - rewrite lookup_child_run. run. destruct (fs_dentry d !! (p, n)) as [c|]; [|done].
    run_fs. by destruct (fs_inode d !! c).
Qed.


(** ** Cases the source gets wrong *)

(** Moving an entry that is not there only sets times. *)
Lemma move_missing p n c d mem clk t :
  fs_dentry d !! (p, n) = None →
  move_entry p n p n c false (mkWorld d mem [] (ticks clk) t) =
    (Ok tt, mkWorld (upd_inode p (touch (clk t)) (upd_inode c (set_ctime (clk t)) d))
              mem [] (ticks clk) (S t)).
Proof.
  intros Hn. unfold move_entry, upd_dentry. run_fs. rewrite Hn, Z.eqb_refl. by run_fs.
Qed.

(** Renaming a file with one link to itself destroys it: the operation
    succeeds, the entry is gone, the inode is gone, and the dentry cache now
    holds an entry that the table does not have. *)
Theorem rename_to_itself_destroys p n c r (w : W) :
  fs_wf cs (w_db w) → small (w_db w) → healthy w →
  strlen n <= MAX_NAME_LEN → fs_dentry (w_db w) !! (p, n) = Some c →
  fs_inode (w_db w) !! c = Some r → dir_row r = false → i_nlink r = 1 →
  let '(o, w') := rename p n p n w in
  o = Ok tt ∧ fs_dentry (w_db w') !! (p, n) = None ∧ fs_inode (w_db w') !! c = None ∧
  w_mem w' = lru_put (p, n) c (lru_pop (p, n) (lru_pop (p, n) (w_mem w))).
Proof.
  intros Hwf Hs Hh Hlen Hc Hr Hd Hn. healthy_world w. cbn [w_db w_mem] in *.
  unfold rename. destruct (Z.ltb_spec MAX_NAME_LEN (strlen n)); [lia|].
  run. rewrite lookup_child_run. run. rewrite Hc.
  pose proof (entry_not_root _ _ _ _ _ (wf_core _ _ Hwf) Hc) as Hroot.
  destruct (Z.eqb_spec c ROOT_INO); [done|]. run_fs. rewrite Hr, is_directory_stats, Hd.
  rewrite lookup_child_run, Hc.
  pose proof (replace_run cs p n (build_stats_from_row c r) c r d mem clk t Hwf Hs Hc Hr)
    as Hrep. cbv zeta in Hrep. rewrite is_directory_stats, Hd in Hrep.
  cbn [andb negb] in Hrep. destruct Hrep as (d1 & -> & Hwf1 & Ha & _).
  assert (Hl : links d c = 1).
  { pose proof (co_files _ _ _ (wf_core _ _ Hwf) _ _ Hr Hd) as Hx. cbv beta in Hx. lia. }
  assert (Hrefs : Spec.refs c
    (Spec.mkFs (delete (p, n) (Spec.entries (abs cs d))) (Spec.nodes (abs cs d))) = 0%nat).
  { apply Nat2Z.inj. change (links (del_dentry p n d) c = 0). unfold del_dentry.
    rewrite (links_delete _ _ _ _ _ Hc), decide_True by done. lia. }
  assert (Hent : fs_dentry d1 !! (p, n) = None ∧ fs_inode d1 !! c = None).
  { unfold Spec.detach in Ha. rewrite Hrefs in Ha. simpl in Ha. split.
    - change (Spec.entries (abs cs d1) !! (p, n) = None). rewrite Ha. apply lookup_delete_eq.
    - pose proof (abs_node cs d1 c) as Hnode. rewrite Ha in Hnode. simpl in Hnode.
      rewrite lookup_delete_eq in Hnode. by destruct (fs_inode d1 !! c). }
  destruct Hent as [He1 Hi1]. rewrite move_missing by done.
  split_and!; [done|exact He1| |done].
  rewrite !lookup_upd_inode. repeat case_decide; by rewrite ?Hi1.
Qed.

(** [rmdir] leaks the inode: removing a directory as [mkdir] made it
    (link count 2) succeeds and removes its entry, but its row stays for ever,
    with link count 1 and no entry that leads to it. *)
Theorem rmdir_leaks_inode p n c r (w : W) :
  fs_wf cs (w_db w) → healthy w → is_dir (w_db w) p →
  strlen n <= MAX_NAME_LEN → fs_dentry (w_db w) !! (p, n) = Some c →
  fs_inode (w_db w) !! c = Some r → dir_row r = true → i_nlink r = 2 →
  (∀ m, fs_dentry (w_db w) !! (c, m) = None) →
  let '(o, w') := rmdir p n w in
  o = Ok tt ∧ links (w_db w') c = 0 ∧
  ∃ r', fs_inode (w_db w') !! c = Some r' ∧ i_nlink r' = 1.
Proof.
  intros Hwf Hh Hp Hlen Hc Hr Hd Hn Hno. healthy_world w. cbn [w_db] in *.
  pose proof (entry_not_root _ _ _ _ _ (wf_core _ _ Hwf) Hc) as Hroot.
  assert (Hpc : p ≠ c) by (intros ->; by rewrite Hno in Hc).
  unfold rmdir. destruct (Z.ltb_spec MAX_NAME_LEN (strlen n)); [lia|].
  run. rewrite lookup_child_run. run. rewrite Hc.
  destruct (Z.eqb_spec c ROOT_INO); [done|]. run_fs. rewrite Hr, has_type_as_u32.
  change (has_type (i_mode r) S_IFDIR) with (dir_row r). rewrite Hd. cbn [negb]. run_fs.
  rewrite (count_children_abs cs), (proj2 (childless_abs cs d c) Hno). cbn [negb]. run_fs.
  rewrite !lookup_upd_inode, decide_False, decide_True by done.
  change (fs_inode (del_dentry p n d)) with (fs_inode d). rewrite Hr.
  cbn [fmap option_fmap option_map set_nlink i_nlink]. rewrite Hn.
  change (as_u32 (2 - 1) =? 0) with false. cbv beta iota. split_and!; [done|..].
  - apply (dir_unlinked cs d p n c (set_nlink (λ k, k - 1)) (wf_core _ _ Hwf) Hc). by exists r.
  - rewrite !lookup_upd_inode, decide_False, decide_True by done.
    change (fs_inode (del_dentry p n d)) with (fs_inode d). rewrite Hr.
    eexists. split; [done|]. cbn. by rewrite Hn.
Qed.

(** [mkdir] is not atomic: when the engine fails between its first two
    writes, it reports the failure and leaves behind a directory inode that no
    entry leads to.  ([create_file] and [rename] use a transaction, [mkdir],
    [mknod], [symlink], [link], [unlink] and [rmdir] do not.) *)
Theorem mkdir_not_atomic p n mode uid gid e (w : W) :
  fs_wf cs (w_db w) → clock_ok w → strlen n <= MAX_NAME_LEN →
  fs_dentry (w_db w) !! (p, n) = None → w_faults w = [None; None; None; Some e] →
  let '(o, w') := mkdir p n mode uid gid w in
  let ino := next_rowid (inode_seq (w_db w)) in
  o = Err e ∧ fs_inode (w_db w) !! ino = None ∧
  is_Some (fs_inode (w_db w') !! ino) ∧ links (w_db w') ino = 0.
Proof.
  intros Hwf [clk Hclk] Hlen Hn Hf. destruct w as [d mem fs clk0 t].
  cbn [w_db w_faults w_clock] in *. subst fs clk0.
  unfold mkdir. destruct (Z.ltb_spec MAX_NAME_LEN (strlen n)); [lia|].
  unfold lookup_child, sel_dentry, one_row. run. rewrite Hn.
  change (1 <? len (A:=Z) []) with false. cbn [last]. run.
  set (row := new_row _ _ _ _ _ _ (clk t)). pose proof (ins_inode_run row d) as Hins.
  destruct (ins_inode_fresh _ _ _ _ _ _ (wf_core _ _ Hwf) Hins) as (Hnew & _ & _ & Hl & _).
  rewrite Hins. run. split_and!; [done|done| |exact Hl].
  cbn [fs_inode set_seq set_inodes]. rewrite lookup_insert_eq. by eexists.
Qed.

(** ** Reading back *)

Lemma spec_read_write l off data :
  0 <= off → FileSpec.read (FileSpec.write l off data) off (len data) = data.
Proof.
  intros Hoff. unfold FileSpec.read, FileSpec.write, FileSpec.truncate.
  set (l' := vec_resize l _ _). pose proof (len_nonneg data).
  assert (Hl : length (take (Z.to_nat off) l') = Z.to_nat off).
  { rewrite length_take. unfold l', vec_resize. rewrite length_resize. lia. }
  rewrite <-Hl at 1. rewrite drop_app_length.
  unfold len. rewrite Nat2Z.id. apply take_app_length.
Qed.

(** What is written is read back.  Writing through a handle to a regular
    file succeeds, a read of the same range through the handle returns the
    bytes written, and no other file changes. *)
Theorem write_then_read ino off data (w : W) :
  0 < cs → fs_wf cs (w_db w) → healthy w → regular (w_db w) ino →
  0 <= off → off + len data < 2 ^ 63 → data ≠ [] →
  ∃ w', pwrite (mkFile ino cs) off data w = (Ok tt, w') ∧
    pread (mkFile ino cs) off (len data) w' = (Ok data, w') ∧
    ∀ ino', ino' ≠ ino → contents cs (w_db w') ino' = contents cs (w_db w) ino'.
Proof.
  intros Hcs Hwf Hh (r & Hr & _) Hoff Hmax Hne.
  destruct (pwrite_run cs ino off data r w) as (w' & Hrun & Hh' & Hof & Hok & _ & _ & Hc);
    [done|by apply (wf_core _ _ Hwf)|done..|].
  exists w'. split_and!; [done| |by intros; eapply only_file_contents].
  rewrite pread_run; [|done|done|apply Hh'|done|apply len_nonneg].
  rewrite Hc. destruct data; [done|]. by rewrite spec_read_write.
Qed.

Lemma as_u32_mode ty mode :
  Z.land ty 0xffffffff = ty → as_u32 (Z.lor ty (Z.land mode 0xfff)) = Z.lor ty (Z.land mode 0xfff).
Proof.
  intros Hty. unfold as_u32. change (2 ^ 32) with (2 ^ 32)%Z.
  rewrite <-(Z.land_ones _ 32) by lia. rewrite Z.land_lor_distr_l.
  change (Z.ones 32) with 0xffffffff. rewrite Hty, <-Z.land_assoc. done.
Qed.

(** What [create_file] returns is what is there.  After a successful
    [create_file] of an admissible name, [lookup] of the name finds the very
    [Stats] it returned, [getattr] of their inode agrees, and the handle it
    returned is a handle on that inode, which is empty. *)
Theorem create_then_lookup p n mode uid gid s f (w w1 : W) :
  fs_wf cs (w_db w) → is_dir (w_db w) p → healthy w → n ≠ ".." →
  in_u32 uid → in_u32 gid →
  create_file cs p n mode uid gid w = (Ok (s, f), w1) →
  (lookup p n w1).1 = Ok (Some s) ∧ (getattr (st_ino s) w1).1 = Ok (Some s) ∧
  f = mkFile (st_ino s) cs ∧ contents cs (w_db w1) (st_ino s) = [].
Proof.
  intros Hwf Hp Hh Hdots Hu Hg. healthy_world w. cbn [w_db] in *.
  unfold create_file, lookup. destruct (Z.ltb_spec MAX_NAME_LEN (strlen n)); [done|].
  destruct (String.eqb_spec n ".."); [done|].
  run. rewrite lookup_child_run. run.
  destruct (fs_dentry d !! (p, n)) as [c|] eqn:Hc; [done|].
  set (row := new_row _ _ _ _ _ _ (clk t)).
  pose proof (ins_inode_run row d) as Hins. rewrite Hins.
  destruct (ins_inode_fresh _ _ _ _ _ _ (wf_core _ _ Hwf) Hins) as (Hnew & _).
  set (ino := next_rowid (inode_seq d)) in *. set (d1 := set_seq ino _) in *.
  run. rewrite (ins_dentry_some p n ino d1) by exact Hc. run_fs.
  intros [= <- <- <-]. rewrite lookup_child_run.
  change (fs_dentry (upd_inode p (touch (clk t)) ?x)) with (fs_dentry x).
  cbn [fs_dentry set_dentries]. rewrite lookup_insert_eq. run_fs.
  assert (Hpi : ino ≠ p) by (destruct Hp as (rp & Hrp & _); congruence).
  set (d2 := upd_inode p _ _).
  assert (Hrow : fs_inode d2 !! ino = Some row).
  { unfold d2. rewrite lookup_upd_inode, decide_False by done. apply lookup_insert_eq. }
  assert (Hstats : build_stats_from_row ino row =
    new_stats ino (Z.lor S_IFREG (Z.land mode 0xfff)) 1 uid gid 0 0 (clk t)).
  { unfold build_stats_from_row, new_stats, row, new_row.
    cbn [i_mode i_nlink i_uid i_gid i_size i_atime i_mtime i_ctime i_rdev i_atime_nsec
         i_mtime_nsec i_ctime_nsec].
    by rewrite as_u32_mode, (as_u32_id uid), (as_u32_id gid) by done. }
  rewrite Hrow, Hstats. unfold getattr. run_fs. cbn [st_ino new_stats]. rewrite Hrow, Hstats.
  split_and!; [done..|]. apply contents_empty. unfold fsize. by rewrite Hrow.
Qed.

(** The join drops no entry whose inode exists. *)
Lemma join_names d l :
  (∀ e : string * Z, e ∈ l → is_Some (fs_inode d !! e.2)) →
  de_name <$> filter (λ e, de_name e ≠ "")
    (omap (λ e, (λ r, mkDirEntry e.1 (build_stats_from_row e.2 r)) <$> fs_inode d !! e.2) l)
  = filter (λ name, name ≠ "") l.*1.
Proof.
  induction l as [|e l IH]; [done|]. intros Hl. destruct (Hl e) as [r Hr]; [left|].
  specialize (IH (λ e' He', Hl e' (list_elem_of_further _ _ _ He'))).
  simpl. rewrite Hr. simpl. rewrite !filter_cons. simpl.
  case_decide; [exact (f_equal (cons e.1) IH)|exact IH].
Qed.

(** [readdir] lists a directory: exactly the names of its entries (but
    for an empty name), each once, in byte order; [readdir_plus] lists the same
    names with the [Stats] that [getattr] of each entry reports. *)
Theorem readdir_lists ino (w : W) :
  fs_wf cs (w_db w) → faultless w → is_dir (w_db w) ino →
  ∃ names es,
    readdir ino w = (Ok (Some names), w) ∧ readdir_plus ino w = (Ok (Some es), w) ∧
    NoDup names ∧ Sorted String.le names ∧
    (∀ n, n ∈ names ↔ n ≠ "" ∧ is_Some (fs_dentry (w_db w) !! (ino, n))) ∧
    (de_name <$> es) = names ∧
    ∀ e, e ∈ es → ∃ c, fs_dentry (w_db w) !! (ino, de_name e) = Some c ∧
      (getattr c w).1 = Ok (Some (de_stats e)).
Proof.
  intros Hwf Hf (r & Hr & Hd). destruct w as [d mem fs clk t]. unfold faultless in Hf.
  cbn [w_db w_faults] in *. subst fs. set (l := sel_children ino d).
  assert (Hl : ∀ e, e ∈ l → is_Some (fs_inode d !! e.2)).
  { intros [n c] He%sel_children_elem.
    destruct (co_dentry _ _ _ (wf_core _ _ Hwf) _ _ _ He) as [_ Hsome]. exact Hsome. }
  exists (filter (λ name, name ≠ "") l.*1), (filter (λ e, de_name e ≠ "") (sel_children_plus ino d)).
  assert (Hty : has_type (as_u32 (i_mode r)) S_IFDIR = true) by by rewrite has_type_as_u32.
  split_and!.
  - unfold readdir. run_fs. by rewrite Hr, Hty.
  - unfold readdir_plus. run_fs. by rewrite Hr, Hty.
  - apply NoDup_filter, NoDup_sel_children.
  - apply StronglySorted_Sorted, sorted_names. unfold l, sel_children.
    apply StronglySorted_merge_sort; apply _.
  - intros n. rewrite list_elem_of_filter. split.
    + intros [Hn ([n' c] & -> & Hin)%list_elem_of_fmap]. split; [done|].
      apply sel_children_elem in Hin. by eexists.
    + intros [Hn [c Hc]]. split; [done|]. apply list_elem_of_fmap. exists (n, c).
      split; [done|]. by apply sel_children_elem.
  - by apply join_names.
  - intros e [_ ([n c] & Hin & He)%list_elem_of_omap]%list_elem_of_filter.
    apply sel_children_elem in Hin as Hc. simpl in He.
    destruct (fs_inode d !! c) as [rc|] eqn:Hrc; simplify_eq/=. exists c. split; [done|].
    unfold getattr. run_fs. by rewrite Hrc.
Qed.
End Props.
