(* ===== verification/AgentFSPath.v ===== *)
(** * AgentFSPath: the path-based interface

    The inherent methods of [AgentFS] in
    [sdk/rust/src/filesystem/agentfs.rs]: the same tables and the same dentry
    cache, addressed by paths.  They resolve every component through the cache
    ([resolve_path_with_conn]) and then run statements of their own. *)
From S2P Require Import Prelude Types Engine Lru Schema FileIO Path.
From S2P Require AgentFS.
Import AgentFS (ROOT_INO, DEFAULT_CHUNK_SIZE, strlen, new_row, new_stats, touch,
  cache_get, cache_insert, cache_remove, one_row, lookup_child, get_link_count,
  purge_inode, set_owner, sum_sizes, sel_children_plus).

Module PathApi.
Section PathApi.
Context {E : SqlEngine} {Lru : LruCache (Z * string) Z}.
Context (chunk_size : Z).
Abbreviation Fs := (M Db (lru (Z * string) Z)).

(** ** Resolving paths *)

(** The loop over the components. *)
Fixpoint resolve_components (current_ino : Z) (components : list string) :
    Fs (option Z) :=
  match components with
  | [] => mret (Some current_ino)
  | component :: components =>
      cached ← cache_get current_ino component;
      match cached with
      | Some cached_ino => resolve_components cached_ino components
      | None =>
          rows ← query (sel_dentry current_ino component);
          found ← one_row rows;
          match found with
          | Some child_ino =>
              cache_insert current_ino component child_ino ;;
              resolve_components child_ino components
          | None => mret None
          end
      end
  end.

Definition resolve_path_with_conn (path : string) : Fs (option Z) :=
  resolve_components ROOT_INO (split_path path).

Definition resolve_path (path : string) : Fs (option Z) :=
  get_connection ;; resolve_path_with_conn path.

(** [...].ok_or(FsError::NotFound)?] on a resolved path. *)
Definition resolve_existing (path : string) : Fs Z :=
  ino ← resolve_path_with_conn path;
  ok_or (Error.Fs FsError.NotFound) ino.

Definition lstat (path : string) : Fs (option Stats) :=
  get_connection ;;
  ino ← resolve_path_with_conn (normalize_path path);
  match ino with
  | None => mret None
  | Some ino =>
      row ← query (sel_inode ino);
      mret (build_stats_from_row ino <$> row)
  end.

Definition readlink_with_conn (path : string) : Fs (option string) :=
  ino ← resolve_path_with_conn (normalize_path path);
  match ino with
  | None => mret None
  | Some ino =>
      row ← query (sel_inode ino);
      match row with
      | None => mret None
      | Some r =>
          if negb (has_type (as_u32 (i_mode r)) S_IFLNK) then fs_err FsError.NotASymlink
          else query (sel_symlink ino)
      end
  end.

Definition readlink (path : string) : Fs (option string) :=
  get_connection ;; readlink_with_conn path.

(** The loop of [stat] and [stat_with_conn]: [missing] is the error of a
    symlink without a target. *)
Fixpoint stat_loop (missing : FsError.t) (max_symlink_depth : nat)
    (current_path : string) : Fs (option Stats) :=
  match max_symlink_depth with
  | O => fs_err FsError.SymlinkLoop
  | S depth =>
      ino ← resolve_path_with_conn current_path;
      match ino with
      | None => mret None
      | Some ino =>
          row ← query (sel_inode ino);
          match row with
          | None => mret None
          | Some r =>
              if has_type (as_u32 (i_mode r)) S_IFLNK then
                found ← readlink_with_conn current_path;
                target ← ok_or (Error.Fs missing) found;
                stat_loop missing depth (follow_target current_path target)
              else mret (Some (build_stats_from_row ino r))
          end
      end
  end.

Definition stat (path : string) : Fs (option Stats) :=
  get_connection ;; stat_loop FsError.NotFound 40 (normalize_path path).

Definition stat_with_conn (path : string) : Fs (option Stats) :=
  stat_loop FsError.InvalidPath 40 (normalize_path path).

(** The parent inode and the name of a new or removed entry. *)
Definition resolve_parent (components : list string) : Fs (Z * string) :=
  parent_ino ← resolve_existing (parent_path components);
  name ← or_panic (last components);
  mret (parent_ino, name).

(** ** Creating entries *)

Definition mkdir (path : string) (uid gid : Z) : Fs unit :=
  get_connection ;;
  let components := split_path (normalize_path path) in
  match components with
  | [] => fs_err FsError.RootOperation
  | _ =>
      '(parent_ino, name) ← resolve_parent components;
      existing ← lookup_child parent_ino name;
      match existing with
      | Some _ => fs_err FsError.AlreadyExists
      | None =>
          t ← now;
          ino ← query_row (ins_inode (new_row DEFAULT_DIR_MODE 0 uid gid 0 0 t));
          execute (ins_dentry name parent_ino ino) ;;
          update (upd_inode ino (set_nlink (λ _, 2))) ;;
          update (upd_inode parent_ino (touch t ∘ set_nlink (λ n, n + 1))) ;;
          cache_insert parent_ino name ino
      end
  end.

Definition mknod (path : string) (mode rdev uid gid : Z) : Fs unit :=
  get_connection ;;
  let components := split_path (normalize_path path) in
  match components with
  | [] => fs_err FsError.RootOperation
  | _ =>
      '(parent_ino, name) ← resolve_parent components;
      existing ← lookup_child parent_ino name;
      match existing with
      | Some _ => fs_err FsError.AlreadyExists
      | None =>
          t ← now;
          ino ← query_row (ins_inode (new_row mode 0 uid gid 0 (as_i64 rdev) t));
          execute (ins_dentry name parent_ino ino) ;;
          update (upd_inode ino (set_nlink (λ n, n + 1))) ;;
          cache_insert parent_ino name ino
      end
  end.

Definition create_file (path : string) (mode uid gid : Z) : Fs (Stats * AgentFSFile) :=
  get_connection ;;
  let components := split_path (normalize_path path) in
  match components with
  | [] => fs_err FsError.RootOperation
  | _ =>
      '(parent_ino, name) ← resolve_parent components;
      existing ← lookup_child parent_ino name;
      match existing with
      | Some _ => fs_err FsError.AlreadyExists
      | None =>
          let file_mode := Z.lor S_IFREG (Z.land mode 0xfff) in
          r ← transaction (
            t ← now;
            ino ← query_row (ins_inode (new_row file_mode 1 uid gid 0 0 t));
            execute (ins_dentry name parent_ino ino) ;;
            mret (ino, t));
          cache_insert parent_ino name r.1 ;;
          mret (new_stats r.1 file_mode 1 uid gid 0 0 r.2, mkFile r.1 chunk_size)
      end
  end.

(** [duration_since(UNIX_EPOCH).unwrap()]: the clock is not checked here. *)
Definition symlink (target linkpath : string) (uid gid : Z) : Fs unit :=
  get_connection ;;
  let components := split_path (normalize_path linkpath) in
  match components with
  | [] => fs_err FsError.RootOperation
  | _ =>
      '(parent_ino, name) ← resolve_parent components;
      existing ← lookup_child parent_ino name;
      match existing with
      | Some _ => fs_err FsError.AlreadyExists
      | None =>
          t ← now_unwrap;
          let mode := Z.lor S_IFLNK 0x1ff in
          let size := as_i64 (strlen target) in
          ino ← query_row (ins_inode (new_row mode 0 uid gid size 0 t));
          execute (ins_symlink ino target) ;;
          execute (ins_dentry name parent_ino ino) ;;
          update (upd_inode ino (set_nlink (λ n, n + 1))) ;;
          cache_insert parent_ino name ino
      end
  end.

Definition link (oldpath newpath : string) : Fs unit :=
  get_connection ;;
  let components := split_path (normalize_path newpath) in
  match components with
  | [] => fs_err FsError.RootOperation
  | _ =>
      ino ← resolve_existing (normalize_path oldpath);
      row ← query (sel_inode ino);
      match row with
      | None => fs_err FsError.NotFound
      | Some r =>
          if has_type (as_u32 (i_mode r)) S_IFDIR then fs_err FsError.IsADirectory
          else
            '(parent_ino, name) ← resolve_parent components;
            existing ← lookup_child parent_ino name;
            match existing with
            | Some _ => fs_err FsError.AlreadyExists
            | None =>
                execute (ins_dentry name parent_ino ino) ;;
                update (upd_inode ino (set_nlink (λ n, n + 1))) ;;
                cache_insert parent_ino name ino
            end
      end
  end.

(** ** Reading *)

Definition read_file (path : string) : Fs (option bytes) :=
  get_connection ;;
  ino ← resolve_path_with_conn path;
  match ino with
  | None => mret None
  | Some ino =>
      rows ← query (sel_all_chunks ino);
      mret (Some (concat rows.*2))
  end.

(** The loop over the rows: [result] is what was read so far. *)
Fixpoint pread_rows (size start_offset_in_chunk : Z) (rows : list (Z * bytes))
    (result : bytes) : bytes :=
  match rows with
  | [] => result
  | (_, chunk_data) :: rows =>
      let skip := if len result =? 0 then start_offset_in_chunk else 0 in
      if len chunk_data <=? skip then pread_rows size start_offset_in_chunk rows result
      else
        let remaining := size - len result in
        let take_n := Z.min (len chunk_data - skip) remaining in
        pread_rows size start_offset_in_chunk rows
          (result ++ take (Z.to_nat take_n) (drop (Z.to_nat skip) chunk_data))
  end.

Definition pread (path : string) (offset size : Z) : Fs (option bytes) :=
  get_connection ;;
  ino ← resolve_path_with_conn path;
  match ino with
  | None => mret None
  | Some ino =>
      start_chunk ← udiv offset chunk_size;
      end_chunk ← udiv (saturating_sub (u64_add offset size) 1) chunk_size;
      rows ← query (sel_chunks ino (as_i64 start_chunk) (as_i64 end_chunk));
      or_panic (vec_with_capacity size) ;;
      start_offset_in_chunk ← urem offset chunk_size;
      mret (Some (pread_rows size start_offset_in_chunk rows []))
  end.

Definition readdir (ino : Z) : Fs (option (list string)) :=
  get_connection ;;
  rows ← query (sel_children ino);
  mret (Some (filter (λ name, name ≠ "") rows.*1)).

Definition readdir_plus (ino : Z) : Fs (option (list DirEntry)) :=
  get_connection ;;
  rows ← query (sel_children_plus ino);
  mret (Some (filter (λ e, de_name e ≠ "") rows)).

(** ** Writing *)

(** The chunk that is written: the existing chunk padded to [chunk_size]
    when part of it stays, zeros otherwise. *)
Definition load_chunk (ino chunk_idx : Z) (needs_read : bool) : Fs bytes :=
  if needs_read then
    row ← query (sel_chunk ino (as_i64 chunk_idx));
    mret (match row with
          | Some data => vec_resize data chunk_size zero_byte
          | None => zeros chunk_size
          end)
  else mret (zeros chunk_size).

(** [chunk_data[a..b].copy_from_slice(src)]: the lengths must agree. *)
Definition copy_range (chunk_data : bytes) (a b : Z) (src : bytes) : option bytes :=
  if (a <=? b) && (b - a =? len src) then copy_at chunk_data a src else None.

(** One iteration of the loop over the chunks. *)
Definition write_chunk (ino offset : Z) (data : bytes) (current_size write_end end_chunk
    chunk_idx : Z) : Fs unit :=
  let chunk_start := chunk_idx * chunk_size in
  let data_start := if chunk_start <? offset then offset - chunk_start else 0 in
  let data_end := Z.min chunk_size (write_end - chunk_start) in
  let src_start := if offset <? chunk_start then chunk_start - offset else 0 in
  let src_end := Z.min (len data) (src_start + (data_end - data_start)) in
  let needs_read := (0 <? data_start) || (data_end <? chunk_size) in
  chunk_data ← load_chunk ino chunk_idx needs_read;
  src ← or_panic (slice data src_start src_end);
  chunk_data ← or_panic (copy_range chunk_data data_start data_end src);
  let actual_len :=
    if chunk_idx =? end_chunk then
      let file_end_in_chunk := write_end - chunk_start in
      let old_end_in_chunk :=
        if chunk_start <? current_size then Z.min (current_size - chunk_start) chunk_size
        else 0 in
      Z.max file_end_in_chunk old_end_in_chunk
    else chunk_size in
  stored ← or_panic (slice chunk_data 0 actual_len);
  update (del_chunk ino (as_i64 chunk_idx)) ;;
  execute (ins_chunk ino (as_i64 chunk_idx) stored).

(** [for chunk_idx in start_chunk..=end_chunk]. *)
Fixpoint write_chunks (fuel : nat) (ino offset : Z) (data : bytes)
    (current_size write_end end_chunk chunk_idx : Z) : Fs unit :=
  match fuel with
  | O => mret tt
  | S fuel =>
      if chunk_idx <=? end_chunk then
        write_chunk ino offset data current_size write_end end_chunk chunk_idx ;;
        write_chunks fuel ino offset data current_size write_end end_chunk (chunk_idx + 1)
      else mret tt
  end.

(** The inode behind the path: its number, its size, and whether it was just
    created. *)
Definition get_or_create (path : string) (parent_ino : Z) (name : string)
    (write_end : Z) : Fs (Z * Z * bool) :=
  existing ← resolve_path_with_conn path;
  match existing with
  | Some ino =>
      row ← query (sel_inode ino);
      mret (ino, row_size row, false)
  | None =>
      t ← now;
      ino ← query_row (ins_inode (new_row DEFAULT_FILE_MODE 1 0 0 (as_i64 write_end) 0 t));
      execute (ins_dentry name parent_ino ino) ;;
      mret (ino, 0, true)
  end.

Definition pwrite (path : string) (offset : Z) (data : bytes) : Fs unit :=
  get_connection ;;
  let path := normalize_path path in
  let components := split_path path in
  match components with
  | [] => fs_err FsError.RootOperation
  | _ =>
      '(parent_ino, name) ← resolve_parent components;
      transaction (
        let write_end := u64_add offset (len data) in
        '(ino, current_size, is_new) ← get_or_create path parent_ino name write_end;
        match data with
        | [] => t ← now; update (upd_inode ino (set_mtime t))
        | _ =>
            start_chunk ← udiv offset chunk_size;
            end_chunk ← udiv (write_end - 1) chunk_size;
            write_chunks (Z.to_nat (end_chunk - start_chunk + 1)) ino offset data
              current_size write_end end_chunk start_chunk ;;
            if negb is_new then
              let new_size := Z.max current_size write_end in
              t ← now;
              update (upd_inode ino (set_mtime t ∘ set_size (as_i64 new_size)))
            else mret tt
        end)
  end.

(** ** Truncating *)

(** The shrinking branch. *)
Definition shrink (ino new_size : Z) : Fs unit :=
  last_chunk_idx ← udiv (new_size - 1) chunk_size;
  update (del_chunks_after ino (as_i64 last_chunk_idx)) ;;
  last_offset ← urem (new_size - 1) chunk_size;
  let end_in_last_chunk := last_offset + 1 in
  if end_in_last_chunk <? chunk_size then
    row ← query (sel_chunk ino (as_i64 last_chunk_idx));
    match row with
    | Some chunk_data =>
        if end_in_last_chunk <? len chunk_data then
          update (upd_chunk ino (as_i64 last_chunk_idx)
                    (take (Z.to_nat end_in_last_chunk) chunk_data))
        else mret tt
    | None => mret tt
    end
  else mret tt.

(** The last existing chunk, padded when it is short. *)
Definition pad_chunk (ino last_idx needed_len : Z) : Fs unit :=
  row ← query (sel_chunk ino (as_i64 last_idx));
  match row with
  | Some chunk_data =>
      if len chunk_data <? needed_len then
        update (upd_chunk ino (as_i64 last_idx) (vec_resize chunk_data needed_len zero_byte))
      else mret tt
  | None => mret tt
  end.

(** [for chunk_idx in start_new_chunk..=last_new_chunk]: chunks of zeros. *)
Fixpoint zero_chunks (fuel : nat) (ino last_len last_new_chunk chunk_idx : Z) : Fs unit :=
  match fuel with
  | O => mret tt
  | S fuel =>
      if chunk_idx <=? last_new_chunk then
        let chunk_len := if chunk_idx =? last_new_chunk then last_len else chunk_size in
        execute (ins_chunk ino (as_i64 chunk_idx) (zeros chunk_len)) ;;
        zero_chunks fuel ino last_len last_new_chunk (chunk_idx + 1)
      else mret tt
  end.

(** The extending branch. *)
Definition extend (ino current_size new_size : Z) : Fs unit :=
  last_existing_chunk ←
    (if current_size =? 0 then mret None
     else q ← udiv (current_size - 1) chunk_size; mret (Some q) : Fs (option Z));
  last_new_chunk ← udiv (new_size - 1) chunk_size;
  last_offset ← urem (new_size - 1) chunk_size;
  (match last_existing_chunk with
   | Some last_idx =>
       pad_chunk ino last_idx
         (if last_idx =? last_new_chunk then last_offset + 1 else chunk_size)
   | None => mret tt
   end) ;;
  let start_new_chunk := match last_existing_chunk with Some i => i + 1 | None => 0 end in
  zero_chunks (Z.to_nat (last_new_chunk - start_new_chunk + 1)) ino (last_offset + 1)
    last_new_chunk start_new_chunk.

Definition truncate (path : string) (new_size : Z) : Fs unit :=
  get_connection ;;
  ino ← resolve_existing (normalize_path path);
  row ← query (sel_inode ino);
  let current_size := row_size row in
  transaction (
    (if new_size =? 0 then update (del_data ino)
     else if new_size <? current_size then shrink ino new_size
     else if current_size <? new_size then extend ino current_size new_size
     else mret tt) ;;
    t ← now;
    update (upd_inode ino (set_mtime t ∘ set_size (as_i64 new_size)))).

(** ** Removing and renaming *)

Definition remove (path : string) : Fs unit :=
  get_connection ;;
  let path := normalize_path path in
  let components := split_path path in
  match components with
  | [] => fs_err FsError.RootOperation
  | _ =>
      ino ← resolve_existing path;
      if ino =? ROOT_INO then fs_err FsError.RootOperation
      else
        found ← stat_with_conn path;
        stats ← ok_or (Error.Fs FsError.NotFound) found;
        count ← query (count_children ino);
        if 0 <? count then fs_err FsError.NotEmpty
        else
          '(parent_ino, name) ← resolve_parent components;
          update (del_dentry parent_ino name) ;;
          cache_remove parent_ino name ;;
          update (upd_inode ino (set_nlink (λ n, n - 1))) ;;
          (if is_directory stats then
             t ← now;
             update (upd_inode parent_ino (touch t ∘ set_nlink (λ n, n - 1)))
           else mret tt) ;;
          link_count ← get_link_count ino;
          if link_count =? 0 then purge_inode ino else mret tt
  end.

(** The part of [rename] that replaces an existing destination. *)
Definition replace_destination (to_path : string) (dst_parent_ino : Z) (dst_name : string)
    (src_stats : Stats) (dst_ino : Z) : Fs unit :=
  found ← stat_with_conn to_path;
  dst_stats ← ok_or (Error.Fs FsError.NotFound) found;
  if is_directory dst_stats && negb (is_directory src_stats)
  then fs_err FsError.IsADirectory
  else if negb (is_directory dst_stats) && is_directory src_stats
  then fs_err FsError.NotADirectory
  else
    (if is_directory dst_stats then
       count ← query (count_children dst_ino);
       if 0 <? count then fs_err FsError.NotEmpty else mret tt
     else mret tt) ;;
    update (del_dentry dst_parent_ino dst_name) ;;
    update (upd_inode dst_ino (set_nlink (λ n, n - 1))) ;;
    link_count ← get_link_count dst_ino;
    if link_count =? 0 then purge_inode dst_ino else mret tt.

Definition rename (from to : string) : Fs unit :=
  get_connection ;;
  let from_path := normalize_path from in
  let to_path := normalize_path to in
  if String.eqb from_path "/" then fs_err FsError.RootOperation
  else
    src_ino ← resolve_existing from_path;
    found ← stat_with_conn from_path;
    src_stats ← ok_or (Error.Fs FsError.NotFound) found;
    if is_directory src_stats &&
       (starts_with to_path (from_path +:+ "/") || String.eqb to_path from_path)
    then fs_err FsError.InvalidRename
    else
      let from_components := split_path from_path in
      src_name ← ok_or (Error.Fs FsError.InvalidPath) (last from_components);
      src_parent_ino ← resolve_existing (parent_path from_components);
      let to_components := split_path to_path in
      match to_components with
      | [] => fs_err FsError.RootOperation
      | _ =>
          '(dst_parent_ino, dst_name) ← resolve_parent to_components;
          transaction (
            dst ← resolve_path_with_conn to_path;
            (match dst with
             | Some dst_ino =>
                 replace_destination to_path dst_parent_ino dst_name src_stats dst_ino
             | None => mret tt
             end) ;;
            AgentFS.move_entry src_parent_ino src_name dst_parent_ino dst_name src_ino
              (is_directory src_stats)) ;;
          cache_remove src_parent_ino src_name ;;
          cache_remove dst_parent_ino dst_name ;;
          cache_insert dst_parent_ino dst_name src_ino
      end.

(** ** The rest *)

(** No timestamp is written here. *)
Definition chown (ino : Z) (uid gid : option Z) : Fs unit :=
  match uid, gid with
  | None, None => mret tt
  | _, _ => get_connection ;; update (upd_inode ino (set_owner uid gid))
  end.

Definition statfs : Fs FilesystemStats :=
  get_connection ;;
  n ← query (λ d, Z.of_nat (size (fs_inode d)));
  sum ← query sum_sizes;
  if bool_decide (in_i64 sum) then mret (mkFsStats (as_u64 n) (as_u64 sum))
  else throw (Error.Database EngineFailure).

Definition fsync (path : string) : Fs unit :=
  get_connection ;; engine_call ;; engine_call ;; engine_call ;; engine_call.

Definition open (path : string) : Fs AgentFSFile :=
  found ← resolve_path (normalize_path path);
  ino ← ok_or (Error.Fs FsError.NotFound) found;
  mret (mkFile ino chunk_size).
End PathApi.
#[global] Typeclasses Opaque resolve_components resolve_path_with_conn resolve_path
  resolve_existing lstat readlink_with_conn readlink stat_loop stat stat_with_conn
  resolve_parent mkdir mknod create_file symlink link read_file pread readdir readdir_plus
  load_chunk write_chunk write_chunks get_or_create pwrite shrink pad_chunk zero_chunks
  extend truncate remove replace_destination rename chown statfs fsync open.
End PathApi.
