(* ===== verification/AgentFSPathProps.v ===== *)
(** * AgentFSPathProps: what is proved of the path-based interface

    Resolving a path through the dentry cache is walking the table;
    [read_file] returns the contents of files without holes; creating by path
    implements the same specification as creating by inode. *)
From S2P Require Import Prelude Types Engine Lru Schema FileIO FileIOSpec Path AgentFS.
From S2P Require Import AgentFSInv AgentFSSpec AgentFSOps AgentFSCoherent AgentFSPath.
Import PathApi (resolve_components, resolve_path_with_conn, resolve_path, read_file).

Section PathProps.
Context {E : SqlEngine} {Lru : LruCache (Z * string) Z} (cs : Z).
Abbreviation W := (World Db (lru (Z * string) Z)).
Abbreviation Fs := (M Db (lru (Z * string) Z)).

(** ** Walking the table *)

Fixpoint walk (entries : gmap (Z * string) Z) (ino : Z) (components : list string) :
    option Z :=
  match components with
  | [] => Some ino
  | c :: components =>
      match entries !! (ino, c) with
      | Some child => walk entries child components
      | None => None
      end
  end.

(** [w'] is [w] but for the cache and the failures that were consumed. *)
Definition same_tables (w w' : W) : Prop :=
  w_db w' = w_db w ∧ w_clock w' = w_clock w ∧ w_tick w' = w_tick w ∧
  w_faults w' `suffix_of` w_faults w.

(** The outcome [r] of a lookup that should yield [a]: the tables are as
    before, the cache is coherent, and only the engine's failures intervene. *)
Definition looks_up {A} (w : W) (a : A) (r : Outcome A * W) : Prop :=
  same_tables w r.2 ∧ coherent r.2 ∧
  match r.1 with
  | Ok a' => a' = a
  | Err e => Some e ∈ w_faults w
  | Panic => False
  end.

Lemma same_tables_trans (w1 w2 w3 : W) :
  same_tables w1 w2 → same_tables w2 w3 → same_tables w1 w3.
Proof.
  intros (H1 & H2 & H3 & H4) (H1' & H2' & H3' & H4').
  split_and!; [congruence..|by trans (w_faults w2)].
Qed.

Lemma looks_up_now {A} (w w2 : W) (a : A) :
  same_tables w w2 → coherent w2 → looks_up w a (Ok a, w2).
Proof. intros. by refine (conj _ (conj _ _)). Qed.

Lemma same_tables_refl (w : W) : same_tables w w.
Proof. by split_and!. Qed.

Lemma looks_up_step {A} (w w1 : W) (a : A) r :
  same_tables w w1 → looks_up w1 a r → looks_up w a r.
Proof.
  intros Hw (H1 & H2 & H3). split_and!; [by eapply same_tables_trans|done|].
  destruct Hw as (_ & _ & _ & l & Hl). rewrite Hl. destruct r.1; try done.
  apply elem_of_app. by right.
Qed.

Lemma cached_entry p n c (w : W) :
  coherent w → (lru_get (p, n) (w_mem w)).1 = Some c → fs_dentry (w_db w) !! (p, n) = Some c.
Proof.
  intros Hw. rewrite lru_get_result. intros Hc. exact (lookup_weaken _ _ _ _ Hc Hw).
Qed.

Lemma insert_coherent p n c (w : W) :
  coherent w → fs_dentry (w_db w) !! (p, n) = Some c →
  coherent (set_mem (lru_put (p, n) c (w_mem w)) w).
Proof.
  intros Hw Hc. unfold coherent in *. cbn [w_mem w_db set_mem].
  etrans; [apply lru_put_view|]. by apply insert_subseteq_l.
Qed.

Lemma resolve_components_walk components ino (w : W) :
  coherent w →
  looks_up w (walk (fs_dentry (w_db w)) ino components) (resolve_components ino components w).
Proof.
  revert ino w. induction components as [|c components IH]; intros ino w Hw.
  { by apply looks_up_now; [apply same_tables_refl|]. }
  cbn [resolve_components walk]. unfold mbind at 1, M_bind at 1, cache_get, with_mem.
  destruct (lru_get (ino, c) (w_mem w)) as [cached mem] eqn:Hget.
  pose proof (cached_entry ino c) as Hcached.
  set (w1 := set_mem mem w).
  assert (Hw1 : coherent w1).
  { unfold coherent in *. pose proof (lru_get_view (ino, c) (w_mem w)) as Hv.
    rewrite Hget in Hv. simpl in *. by rewrite Hv. }
  destruct cached as [child|].
  { rewrite (Hcached child w Hw) by by rewrite Hget.
    eapply looks_up_step; [|apply (IH child w1 Hw1)]. done. }
  assert (Hstep : ∀ w2 : W, same_tables w w2 → w_mem w2 = mem →
    looks_up w (match fs_dentry (w_db w) !! (ino, c) with
                | Some child => walk (fs_dentry (w_db w)) child components | None => None end)
      ((found ← one_row (sel_dentry ino c (w_db w2));
        match found with
        | Some child_ino =>
            cache_insert ino c child_ino ;; resolve_components child_ino components
        | None => mret None
        end) w2)).
  { intros w2 Hst Hm. pose proof Hst as (Hd & _). unfold sel_dentry, one_row. rewrite Hd.
    assert (Hw2 : coherent w2) by by eapply coherent_same; [..|exact Hw1]; simpl; congruence.
    destruct (fs_dentry (w_db w) !! (ino, c)) as [child|] eqn:Hc;
      [|by apply (looks_up_now w w2)].
    unfold mbind, M_bind, mret, M_ret, cache_insert, with_mem. simpl.
    set (w3 := set_mem _ w2).
    assert (Hw3 : coherent w3) by (apply insert_coherent; [done|congruence]).
    rewrite <-Hd. change (w_db w2) with (w_db w3).
    eapply looks_up_step; [|apply (IH child w3 Hw3)]. done. }
  subst w1. destruct w as [d mem0 [|[e|] fs] clk t].
  - by apply (Hstep (mkWorld d mem [] clk t)).
  - run. refine (conj _ (conj _ _)); [split_and!; [done..|by exists [Some e]]|done|left].
  - apply (Hstep (mkWorld d mem fs clk t)); [|done]. split_and!; [done..|by exists [None]].
Qed.

(** C6: the dentry cache is invisible.  Whatever is cached and evicted, and
    whatever fails, resolving a path either reports an engine failure or
    returns what walking the table of entries from the root along the path's
    components returns; it changes no table and leaves the cache coherent. *)
Theorem resolve_path_walks path (w : W) :
  coherent w →
  looks_up w (walk (fs_dentry (w_db w)) ROOT_INO (split_path path)) (resolve_path path w).
Proof.
  intros Hw. unfold resolve_path, get_connection, mbind, M_bind, engine_call.
  destruct w as [d mem [|[e|] fs] clk t]; cbn [w_faults set_faults].
  - by apply resolve_components_walk.
  - refine (conj _ (conj _ _)); [split_and!; [done..|by exists [Some e]]|done|left].
  - eapply looks_up_step; [|by apply (resolve_components_walk _ _ (mkWorld d mem fs clk t))].
    split_and!; [done..|by exists [None]].
Qed.

(** ** Files without holes *)

(** Every chunk but the last is full, the last ends with the file, and there
    are [k] of them. *)
Definition dense (d : Db) (ino k : Z) : Prop :=
  0 <= k ∧
  (∀ idx, is_Some (fs_data d !! (ino, idx)) ↔ 0 <= idx < k) ∧
  (∀ idx c, fs_data d !! (ino, idx) = Some c →
     len c = Z.min cs (fsize d ino - idx * cs)).

(** The chunks below [k], in order. *)
Definition chunk_list (d : Db) (ino : Z) (k : nat) : list (Z * bytes) :=
  (λ i, (Z.of_nat i, default [] (fs_data d !! (ino, Z.of_nat i)))) <$> seq 0 k.

Lemma strict_NoDup (l : list (Z * bytes)) :
  StronglySorted (λ a b, a.1 < b.1) l → NoDup l.
Proof.
  induction 1 as [|a l Hs IH Ha]; constructor; [|done].
  intros Hin. rewrite Forall_forall in Ha. specialize (Ha _ Hin). lia.
Qed.

Lemma strict_unique (l1 l2 : list (Z * bytes)) :
  StronglySorted (λ a b, a.1 < b.1) l1 → StronglySorted (λ a b, a.1 < b.1) l2 →
  (∀ x, x ∈ l1 ↔ x ∈ l2) → l1 = l2.
Proof.
  intros H1 H2 Hin.
  assert (AntiSymm eq (λ a b : Z * bytes, a.1 < b.1)) by (intros a b; lia).
  apply (StronglySorted_unique (λ a b : Z * bytes, a.1 < b.1)); [done..|].
  apply NoDup_Permutation; [by apply strict_NoDup..|done].
Qed.

Lemma chunk_list_sorted d ino k a :
  StronglySorted (λ a b : Z * bytes, a.1 < b.1)
    ((λ i, (Z.of_nat i, default [] (fs_data d !! (ino, Z.of_nat i)))) <$> seq a k).
Proof.
  revert a. induction k as [|k IH]; intros a; simpl; constructor; [done|].
  apply Forall_forall. intros x (i & -> & Hi%elem_of_seq)%list_elem_of_fmap. simpl. lia.
Qed.

Lemma dense_rows d ino k :
  dense d ino k → sel_all_chunks ino d = chunk_list d ino (Z.to_nat k).
Proof.
  intros (Hk & Hsome & _). apply strict_unique; [apply sel_all_chunks_sorted|
                                                 apply chunk_list_sorted|].
  intros [idx c]. rewrite sel_all_chunks_elem. unfold chunk_list.
  rewrite list_elem_of_fmap. split.
  - intros Hc. destruct (proj1 (Hsome idx)) as [H0 H1]; [by eexists|].
    exists (Z.to_nat idx). rewrite Z2Nat.id by lia. rewrite Hc.
    split; [done|]. apply elem_of_seq. lia.
  - intros (i & [= -> ->] & Hi%elem_of_seq).
    destruct (proj2 (Hsome (Z.of_nat i))) as [c Hc]; [lia|]. by rewrite Hc.
Qed.

(** The first [k] chunks are the first [k * cs] bytes. *)
Lemma concat_chunks d ino n (k : nat) :
  0 < cs → dense d ino n → Z.of_nat k <= n → 0 <= fsize d ino →
  (n - 1) * cs < fsize d ino →
  concat (chunk_list d ino k).*2 = fbytes cs d ino 0 (Z.min (Z.of_nat k * cs) (fsize d ino)).
Proof.
  intros Hcs (Hn & Hsome & Hlen) Hk Hs Hlast. unfold chunk_list.
  induction k as [|k IH]; [by rewrite Z.min_l by lia|].
  rewrite seq_S, !fmap_app, concat_app, IH by lia. simpl. rewrite app_nil_r.
  destruct (proj2 (Hsome (Z.of_nat k))) as [c Hc]; [lia|]. rewrite Hc. simpl.
  pose proof (Hlen _ _ Hc) as Hl.
  assert (Hkn : Z.of_nat k * cs < fsize d ino) by nia.
  rewrite (Z.min_l (Z.of_nat k * cs)) by lia.
  replace (Z.min (Z.of_nat (S k) * cs) (fsize d ino)) with (Z.of_nat k * cs + len c) by nia.
  rewrite fbytes_app by (try apply len_nonneg; nia). f_equal. rewrite Z.add_0_l.
  replace (Z.of_nat k * cs) with (Z.of_nat k * cs + 0) by lia.
  rewrite fbytes_chunk by (try apply len_nonneg; nia). rewrite Hc. simpl. rewrite drop_0.
  rewrite vec_resize_take by lia. unfold len. rewrite Nat2Z.id. symmetry.
  by apply take_ge.
Qed.

(** [read_file] returns the contents of a file without holes, byte for
    byte: when every chunk but the last is full and the last one ends with the
    file.  (For a file with holes it does not: they are left out.) *)
Theorem read_file_contents path ino k (w : W) :
  0 < cs → chunks_ok cs (w_db w) → coherent w → faultless w →
  walk (fs_dentry (w_db w)) ROOT_INO (split_path path) = Some ino →
  dense (w_db w) ino k → k = (fsize (w_db w) ino + cs - 1) / cs →
  (read_file path w).1 = Ok (Some (contents cs (w_db w) ino)).
Proof.
  intros Hcs Hok Hcoh Hf Hwalk Hdense Hk.
  pose proof (resolve_components_walk (split_path path) ROOT_INO w Hcoh) as Hres.
  rewrite Hwalk in Hres. destruct Hres as ((Hdb & _ & _ & Hsuf) & _ & Hr).
  unfold faultless in Hf. destruct w as [d mem fs clk t]. cbn [w_db w_faults] in *.
  subst fs. unfold read_file, resolve_path_with_conn. run.
  destruct (resolve_components ROOT_INO (split_path path) _) as [[a|e|] w1]; simpl in *;
    [|by apply elem_of_nil in Hr|done].
  subst a. apply suffix_nil_inv in Hsuf. destruct w1 as [d1 m1 fs1 clk1 t1]. simpl in *.
  subst fs1 d1. run. do 2 f_equal. pose proof (fsize_range _ _ ino Hok) as Hs.
  rewrite (dense_rows _ _ _ Hdense).
  pose proof (Z.div_mod (fsize d ino + cs - 1) cs).
  pose proof (Z.mod_pos_bound (fsize d ino + cs - 1) cs Hcs).
  pose proof Hdense as (Hk0 & _ & _).
  rewrite (concat_chunks _ _ k) by (done || nia).
  rewrite Z2Nat.id by lia. unfold contents. f_equal. nia.
Qed.

(** ** Creating by path *)

#[export] Instance resolve_components_stops ino components :
  Stops (resolve_components ino components : Fs _).
Proof.
  revert ino. induction components as [|c components IH]; intros ino;
    cbn [resolve_components]; unfold cache_get, one_row; apply _.
Qed.
#[export] Instance resolve_path_with_conn_stops path :
  Stops (resolve_path_with_conn path : Fs _).
Proof. unfold resolve_path_with_conn. apply _. Qed.
#[export] Instance resolve_parent_stops components :
  Stops (PathApi.resolve_parent components : Fs _).
Proof. unfold PathApi.resolve_parent, PathApi.resolve_existing. apply _. Qed.
#[export] Instance path_create_file_stops path mode uid gid :
  Stops (PathApi.create_file cs path mode uid gid : Fs _).
Proof.
  unfold PathApi.create_file. apply bind_stops; [apply _|intros _].
  destruct (split_path (normalize_path path)); [apply _|].
  apply bind_stops; [apply _|intros [p n]]. apply _.
Qed.

(** The specification of creating a node at a path. *)
Definition spec_create_at (path : string) (ino : Z) (nd : Spec.node) (a : Spec.t) :
    FsError.t + Spec.t :=
  let components := split_path (normalize_path path) in
  match components, last components with
  | [], _ | _, None => inl FsError.RootOperation
  | _, Some n =>
      match walk (Spec.entries a) ROOT_INO (split_path (parent_path components)) with
      | None => inl FsError.NotFound
      | Some p =>
          match Spec.entries a !! (p, n) with
          | Some _ => inl FsError.AlreadyExists
          | None =>
              inr (Spec.attach p n ino
                     (Spec.mkFs (Spec.entries a) (<[ino := nd]> (Spec.nodes a))))
          end
      end
  end.

Lemma resolve_healthy components ino d mem clk t :
  coherent (mkWorld d mem [] clk t) →
  ∃ mem', resolve_components ino components (mkWorld d mem [] clk t) =
    (Ok (walk (fs_dentry d) ino components), mkWorld d mem' [] clk t).
Proof.
  intros Hcoh. pose proof (resolve_components_walk components ino _ Hcoh) as Hres.
  destruct (resolve_components _ _ _) as [r [d' mem' fs' clk' t']].
  destruct Hres as ((H1 & H2 & H3 & H4) & _ & Hr). simpl in *. subst.
  apply suffix_nil_inv in H4. subst fs'. exists mem'.
  destruct r as [a|e|]; [by subst|by apply elem_of_nil in Hr|done].
Qed.

(** The coherence of the cache survives a resolution. *)
Lemma resolve_run components ino d mem clk t :
  coherent (mkWorld d mem [] clk t) →
  ∃ mem', resolve_components ino components (mkWorld d mem [] clk t) =
    (Ok (walk (fs_dentry d) ino components), mkWorld d mem' [] clk t) ∧
    coherent (mkWorld d mem' [] clk t).
Proof.
  intros Hcoh. destruct (resolve_healthy components ino d mem clk t Hcoh) as [mem' Hres].
  exists mem'. split; [done|].
  pose proof (resolve_components_walk components ino _ Hcoh) as (_ & Hc & _).
  by rewrite Hres in Hc.
Qed.

(** Creating a file where the parent is a directory and the name is free. *)
Lemma path_create_run path p n mode uid gid d mem clk t :
  fs_wf cs d → coherent (mkWorld d mem [] (ticks clk) t) →
  let components := split_path (normalize_path path) in
  walk (fs_dentry d) ROOT_INO (split_path (parent_path components)) = Some p →
  last components = Some n → is_dir d p → fs_dentry d !! (p, n) = None →
  let ino := next_rowid (inode_seq d) in
  let file_mode := Z.lor S_IFREG (Z.land mode 0xfff) in
  let row := new_row file_mode 1 uid gid 0 0 (clk t) in
  ∃ mem' d', PathApi.create_file cs path mode uid gid (mkWorld d mem [] (ticks clk) t) =
      (Ok (AgentFS.new_stats ino file_mode 1 uid gid 0 0 (clk t), mkFile ino cs),
       mkWorld d' mem' [] (ticks clk) (S t)) ∧
    coherent (mkWorld d' mem' [] (ticks clk) (S t)) ∧
    fs_wf cs d' ∧ fs_inode d' = <[ino := row]> (fs_inode d) ∧ fs_data d' = fs_data d ∧
    abs cs d' = Spec.attach p n ino (Spec.mkFs (fs_dentry d)
      (<[ino := Spec.mkNode file_mode uid gid 0 (Spec.Data [])]> (Spec.nodes (abs cs d)))).
Proof.
  intros H Hcoh comps Hwalk Hlast Hp Hc ino file_mode row.
  unfold PathApi.create_file, PathApi.resolve_parent, PathApi.resolve_existing,
    resolve_path_with_conn. fold comps.
  destruct comps as [|c0 comps'] eqn:Hcomps; [done|].
  destruct (resolve_run (split_path (parent_path (c0 :: comps'))) ROOT_INO d mem
              (ticks clk) t Hcoh) as (mem1 & Hres & Hcoh1).
  run. rewrite Hres, Hwalk, Hlast. run. rewrite lookup_child_run, Hc. run.
  pose proof (ins_inode_run row d) as Hins. fold ino in Hins.
  fold file_mode. fold row. rewrite Hins. set (d1 := set_seq ino _) in *.
  assert (Hty : has_type (i_mode row) S_IFREG = true) by by apply has_type_lor.
  run_fs. rewrite (ins_dentry_some p n ino d1) by exact Hc. run_fs.
  edestruct (create_ok cs d p n row ino d1 d1 id id (fs_symlink d1) H Hp Hc Hins)
    as [Hwf Habs]; try done; [by intros; exists 0; auto with adjusts..|
      left; split; [done|by eapply other_type]|].
  rewrite !upd_inode_id in Hwf, Habs.
  change (fs_dentry d1) with (fs_dentry d). set (d' := set_dentries _ d1) in *.
  eexists (lru_put (p, n) ino mem1), d'.
  split_and!; [done| |done|done|done|].
  - unfold coherent in *. cbn [w_mem w_db] in *. etrans; [apply lru_put_view|].
    change (fs_dentry d') with (<[(p, n) := ino]> (fs_dentry d)). by apply insert_mono.
  - rewrite Habs. do 3 f_equal.
    unfold node_of, payload_of, dir_row, lnk_row.
    rewrite !(other_type _ _ _ Hty), contents_empty; [done| |done..].
    unfold fsize. replace (fs_inode d1 !! ino) with (Some row); [done|].
    symmetry. apply lookup_insert_eq.
Qed.

(** Creating a file by path implements its specification: the parent is
    found by walking the table, whatever the cache holds; a missing parent, an
    existing entry and the root are refused; otherwise an empty file appears at
    the path and nothing else changes. *)
Theorem path_create_file_refines path mode uid gid (w : W) :
  fs_wf cs (w_db w) → coherent w → clock_ok w →
  (∀ p, walk (fs_dentry (w_db w)) ROOT_INO
          (split_path (parent_path (split_path (normalize_path path)))) = Some p →
        is_dir (w_db w) p) →
  refines cs (PathApi.create_file cs path mode uid gid)
    (spec_create_at path (next_rowid (inode_seq (w_db w)))
       (Spec.mkNode (Z.lor S_IFREG (Z.land mode 0xfff)) uid gid 0 (Spec.Data []))) w.
Proof.
  intros H Hcoh [clk Hclk] Hp. apply refines_stops; [apply _|].
  assert (Hcoh0 : coherent (set_faults [] w)) by done.
  destruct w as [d mem fs clk0 t]. cbn [set_faults w_db w_clock w_mem w_tick] in *.
  subst clk0. clear Hcoh.
  change (set_faults [] _) with (mkWorld d mem [] (ticks clk) t) in *.
  unfold refines, spec_create_at. cbn [w_db]. change (Spec.entries (abs cs d)) with (fs_dentry d).
  pose proof (resolve_healthy (split_path (parent_path (split_path (normalize_path path)))) ROOT_INO d
    mem (ticks clk) t Hcoh0) as [mem' Hres].
  pose proof (λ p n, path_create_run path p n mode uid gid d mem clk t H Hcoh0) as Hcreate.
  cbv zeta in Hcreate. revert Hp Hres Hcreate.
  destruct (split_path (normalize_path path)) as [|c0 comps'] eqn:Hcomps; intros Hp Hres Hcreate.
  { unfold PathApi.create_file. rewrite Hcomps. run. by left; eexists. }
  destruct (last (c0 :: comps')) as [n|] eqn:Hlast; [|by apply last_None in Hlast].
  destruct (walk _ ROOT_INO (split_path (parent_path _))) as [p|] eqn:Hwalk;
    [destruct (fs_dentry d !! (p, n)) as [c|] eqn:Hc|].
  2: { destruct (Hcreate p n) as (m' & d' & -> & _ & Hwf & _ & _ & Habs); [by auto..|].
       cbn [w_db]. by rewrite Habs. }
  all: unfold PathApi.create_file, PathApi.resolve_parent, PathApi.resolve_existing,
    resolve_path_with_conn; rewrite Hcomps; run; rewrite Hres, ?Hlast; run;
    rewrite ?lookup_child_run, ?Hc; run; by left; eexists.
Qed.
End PathProps.
