(* ===== verification/AgentFSPathRuns.v ===== *)
(** * AgentFSPathRuns: the path-based interface, step by step

    What the operations by path compute where the engine does not fail, as a client that chains
    them needs it: [stat], [remove] of a file, and [read_file] of a file written from the start. *)
From S2P Require Import Prelude Types Engine Lru Schema FileIO FileIOSpec Path AgentFS.
From S2P Require Import AgentFSInv AgentFSSpec AgentFSOps AgentFSCoherent AgentFSPath AgentFSPathProps.
Import PathApi (resolve_components, resolve_path_with_conn, resolve_path, read_file).

(** ** Walks *)
Section Walks.
Implicit Types m : gmap (Z * string) Z.

Lemma walk_append m ino l1 l2 :
  walk m ino (l1 ++ l2) = i ← walk m ino l1; walk m i l2.
Proof.
  revert ino. induction l1 as [|c l1 IH]; intros ino; [done|]. simpl.
  by destruct (m !! (ino, c)).
Qed.

Lemma walk_insert m ino l i k v :
  m !! k = None → walk m ino l = Some i → walk (<[k := v]> m) ino l = Some i.
Proof.
  intros Hk. revert ino. induction l as [|c l IH]; intros ino; [done|]. simpl.
  destruct (m !! (ino, c)) eqn:Hc; [|done].
  rewrite lookup_insert_ne by congruence. rewrite Hc. apply IH.
Qed.

(** Removing an entry that leads to a childless node is noticed only by the walks that end at
    that node. *)
Lemma walk_delete m ino l i k c :
  m !! k = Some c → (∀ n, m !! (c, n) = None) → i ≠ c →
  walk m ino l = Some i → walk (base.delete k m) ino l = Some i.
Proof.
  intros Hk Hc Hi. revert ino. induction l as [|x l IH]; intros ino; [done|]. simpl.
  destruct (m !! (ino, x)) as [j|] eqn:Hj; [|done]. intros Hw.
  destruct (decide (k = (ino, x))) as [->|Hne].
  - rewrite Hk in Hj. injection Hj as <-. destruct l as [|y l]; simpl in Hw; [congruence|].
    by rewrite Hc in Hw.
  - rewrite lookup_delete_ne, Hj by done. by apply IH.
Qed.

Lemma parent_path_render l : parent_path l = render (removelast l).
Proof. destruct l as [|a [|b l]]; [done..|]. simpl. by destruct l. Qed.

(** A canonical path leads where its parent and its last component do. *)
Lemma walk_parent m l n :
  canonical l → last l = Some n →
  walk m ROOT_INO l =
    p ← walk m ROOT_INO (split_path (parent_path l)); m !! (p, n).
Proof.
  intros Hl Hlast. apply last_Some in Hlast as [l' ->].
  unfold canonical in Hl. apply Forall_app in Hl as [Hl' _].
  rewrite parent_path_render, removelast_last, split_path_render by done.
  rewrite walk_append. destruct (walk m ROOT_INO l') as [p|]; [|done]. simpl.
  by destruct (m !! (p, n)).
Qed.
End Walks.

Section Runs.
Context {E : SqlEngine} {Lru : LruCache (Z * string) Z} (cs : Z).
Abbreviation W := (World Db (lru (Z * string) Z)).

(** ** [stat] *)

Lemma path_stat_run path d mem clk t :
  coherent (mkWorld d mem [] clk t) →
  let found := walk (fs_dentry d) ROOT_INO (split_path (normalize_path path)) in
  (∀ c r, found = Some c → fs_inode d !! c = Some r → lnk_row r = false) →
  ∃ mem', PathApi.stat path (mkWorld d mem [] clk t) =
      (Ok (c ← found; build_stats_from_row c <$> fs_inode d !! c), mkWorld d mem' [] clk t) ∧
    coherent (mkWorld d mem' [] clk t).
Proof.
  intros Hcoh found Hlnk.
  destruct (resolve_run (split_path (normalize_path path)) ROOT_INO d mem clk t Hcoh)
    as (mem' & Hres & Hcoh'). fold found in Hres.
  exists mem'. split; [|done]. unfold PathApi.stat. cbn [PathApi.stat_loop].
  unfold resolve_path_with_conn. run. rewrite Hres. run.
  destruct found as [c|]; [|done]. cbn [mbind option_bind]. unfold sel_inode.
  destruct (fs_inode d !! c) as [r|] eqn:Hr; [|done]. rewrite has_type_as_u32.
  specialize (Hlnk c r eq_refl Hr). unfold lnk_row in Hlnk. by rewrite Hlnk.
Qed.

(** ** [remove] of a file *)

Lemma split_absolute path :
  starts_with path "/" = true →
  canonical (split_path path) ∧ split_path (normalize_path path) = split_path path ∧
  normalize_path (normalize_path path) = normalize_path path.
Proof.
  intros (Hn & Hc & _)%normalize_absolute. split_and!; [done| |done].
  unfold split_path. by rewrite Hn.
Qed.

Lemma path_remove_run path p n c r d mem clk t :
  starts_with path "/" = true →
  fs_wf cs d → small d → coherent (mkWorld d mem [] clk t) →
  let components := split_path path in
  walk (fs_dentry d) ROOT_INO (split_path (parent_path components)) = Some p →
  last components = Some n → fs_dentry d !! (p, n) = Some c →
  fs_inode d !! c = Some r → dir_row r = false → lnk_row r = false →
  ∃ mem' d', PathApi.remove path (mkWorld d mem [] clk t) =
      (Ok tt, mkWorld d' mem' [] clk t) ∧
    coherent (mkWorld d' mem' [] clk t) ∧ fs_wf cs d' ∧
    abs cs d' = Spec.detach p n c (abs cs d) ∧ inode_seq d' = inode_seq d ∧
    fs_dentry d' = base.delete (p, n) (fs_dentry d) ∧
    (∀ i, is_dir d i → is_dir d' i).
Proof.
  intros Habs H Hs Hcoh comps Hparent Hlast Hc Hr Hd Hl.
  destruct (split_absolute path Habs) as (Hcanon & Hsplit & Hnorm). fold comps in Hcanon, Hsplit.
  assert (Hwalk : walk (fs_dentry d) ROOT_INO comps = Some c)
    by by rewrite (walk_parent _ _ n Hcanon Hlast), Hparent.
  pose proof (entry_not_root cs d p n c (wf_core cs _ H) Hc) as Hroot.
  assert (Hno : Spec.childless c (abs cs d) = true).
  { apply childless_abs. intros m. by eapply file_childless; [apply (wf_core cs _ H)|..]. }
  set (f := set_nlink (λ k, k - 1)).
  destruct (drop_link_ok cs f p n c id d r H Hs Hc Hr Hd) as [Hwf Ha];
    [intros; apply adjusts_decr|done|intros; apply adjusts_refl|done|].
  destruct (resolve_run comps ROOT_INO d mem clk t Hcoh) as (mem1 & Hres1 & Hcoh1).
  destruct (resolve_run comps ROOT_INO d mem1 clk t Hcoh1) as (mem2 & Hres2 & Hcoh2).
  destruct (resolve_run (split_path (parent_path comps)) ROOT_INO d mem2 clk t Hcoh2)
    as (mem3 & Hres3 & Hcoh3).
  rewrite Hwalk in Hres1, Hres2. rewrite Hparent in Hres3.
  unfold drop_link in Hwf, Ha. rewrite upd_inode_id in Hwf, Ha.
  set (d1 := upd_inode c f (del_dentry p n d)) in *.
  assert (Hrow : fs_inode d1 !! c = Some (f r)).
  { unfold d1. rewrite lookup_upd_inode, decide_True by done.
    change (fs_inode (del_dentry p n d)) with (fs_inode d). by rewrite Hr. }
  rewrite Hrow in Hwf, Ha.
  set (d' := if as_u32 (i_nlink (f r)) =? 0 then purge_db c d1 else d1) in *.
  exists (lru_pop (p, n) mem3), d'. split_and!; [| |done|done| | |].
  - unfold PathApi.remove, PathApi.stat_with_conn. cbn [PathApi.stat_loop].
    unfold PathApi.resolve_existing, PathApi.resolve_parent, PathApi.resolve_existing,
      resolve_path_with_conn.
    rewrite Hnorm, Hsplit. destruct comps as [|c0 comps'] eqn:Hcomps; [done|].
    run. rewrite Hres1. run. destruct (Z.eqb_spec c ROOT_INO); [done|].
    rewrite Hres2. run. unfold sel_inode. rewrite Hr, has_type_as_u32.
    unfold lnk_row in Hl. rewrite Hl. run. rewrite (count_children_abs cs), Hno. cbn [negb].
    rewrite Hres3. run. rewrite Hlast. run. rewrite is_directory_stats, Hd.
    unfold get_link_count. run_fs. fold f d1. rewrite Hrow. unfold d'.
    by destruct (as_u32 _ =? 0).
  - unfold coherent in *. cbn [w_mem w_db] in *. rewrite lru_pop_view.
    replace (fs_dentry d') with (base.delete (p, n) (fs_dentry d)); [by apply delete_mono|].
    unfold d'. by destruct (as_u32 _ =? 0).
  - unfold d'. by destruct (as_u32 _ =? 0).
  - unfold d'. by destruct (as_u32 _ =? 0).
  - intros i Hi. assert (Hne : i ≠ c).
    { intros ->. apply (is_dir_row _ _ _ Hr) in Hi. congruence. }
    assert (Hi1 : is_dir d1 i).
    { apply is_dir_upd; [|done]. intros r'. exists (-1). apply adjusts_decr. }
    unfold d'. destruct (as_u32 _ =? 0); [|done]. destruct Hi1 as (ri & Hri & Hdi).
    exists ri. split; [|done]. by apply lookup_delete_Some.
Qed.

(** ** A file written from its start has no holes *)

(** The chunks of the first [n] bytes, and no other. *)
Definition filled (d : Db) (ino n : Z) : Prop :=
  (∀ idx, is_Some (fs_data d !! (ino, idx)) ↔ 0 <= idx ∧ idx * cs < n) ∧
  (∀ idx c, fs_data d !! (ino, idx) = Some c → len c = Z.min cs (n - idx * cs)).

Lemma filled_step d ino j n c :
  0 < cs → 0 <= j → filled d ino (j * cs) → j * cs < n <= j * cs + cs →
  len c = n - j * cs → filled (rep_chunk ino j c d) ino n.
Proof.
  intros Hcs Hj [Hs Hl] Hn Hc.
  assert (Hlook : ∀ idx, fs_data (rep_chunk ino j c d) !! (ino, idx) =
    if decide (idx = j) then Some c else fs_data d !! (ino, idx)).
  { intros idx. unfold rep_chunk. cbn [fs_data set_data]. case_decide as Hi.
    - by rewrite Hi, lookup_insert_eq.
    - by rewrite lookup_insert_ne by congruence. }
  split; intros idx.
  - rewrite Hlook. case_decide as Hi; [subst; split; [lia|by eexists]|].
    rewrite Hs. split; intros [? ?]; split; [done|lia|done|]. assert (idx < j + 1) by nia. nia.
  - intros c'. rewrite Hlook. case_decide as Hi; [intros [= <-]; subst; lia|].
    intros Hc'. rewrite (Hl _ _ Hc'). destruct (proj1 (Hs idx)); [by eexists|].
    assert (idx < j) by nia. nia.
Qed.

Lemma write_loop_filled {C} ino data fuel k (w : World Db C) :
  0 < cs → len data < 2 ^ 63 → faultless w → 0 <= k →
  (∃ j, k = j * cs) ∨ len data <= k → len data - k <= Z.of_nat fuel →
  filled (w_db w) ino (Z.min k (len data)) →
  filled (w_db (write_loop fuel (mkFile ino cs) 0 data k w).2) ino (len data).
Proof.
  intros Hcs Hmax. revert k w. induction fuel as [|fuel IH];
    intros k [d c fs clk t] Hw Hk Hj Hfuel Hfill; unfold faultless in Hw; simpl in Hw; subst fs;
    cbn [w_db] in Hfill.
  { simpl. by rewrite Z.min_r in Hfill by lia. }
  cbn [write_loop f_chunk_size f_ino]. destruct (Z.ltb_spec k (len data)) as [Hlt|Hge].
  2: { simpl. by rewrite Z.min_r in Hfill by lia. }
  destruct Hj as [[j ->]|?]; [|lia]. rewrite Z.min_l in Hfill by lia.
  unfold u64_add. rewrite Z.add_0_l, as_u64_id by (unfold in_u64; lia).
  run. destruct (Z.eqb_spec cs 0); [lia|]. run.
  assert (0 <= j) by nia. assert (j <= j * cs) by nia.
  rewrite Z.div_mul, Z.mod_mul by lia. rewrite as_i64_id by (unfold in_i64; lia).
  rewrite Z.sub_0_r. set (tw := Z.min cs (len data - j * cs)).
  set (src := take (Z.to_nat tw) (drop (Z.to_nat (j * cs)) data)).
  assert (Hsl : slice data (j * cs) (j * cs + tw) = Some src).
  { rewrite slice_spec by lia. unfold src. by replace (j * cs + tw - j * cs) with tw by lia. }
  assert (Hsrc : len src = tw) by (unfold src; rewrite len_take, len_drop; lia).
  rewrite Hsl.
  assert (Hgo : ∀ c', len c' = tw → filled
    (w_db (write_loop fuel (mkFile ino cs) 0 data (j * cs + tw)
       (mkWorld (rep_chunk ino j c' d) c [] clk t)).2) ino (len data)).
  { intros c' Hc'. apply IH; [done|lia| |lia|].
    - destruct (decide (tw = cs)) as [->|]; [left; exists (j + 1); lia|right; lia].
    - cbn [w_db]. apply filled_step; [done|done|done|lia|lia]. }
  destruct (Z.eqb_spec tw cs) as [Hfull|Hpart]; cbn [negb]; run; [by apply Hgo|].
  unfold sel_chunk. destruct Hfill as [Hs Hl].
  assert (Hnone : fs_data d !! (ino, j) = None).
  { apply eq_None_not_Some. intros Hsome. apply Hs in Hsome. lia. }
  rewrite Hnone. cbn [default]. rewrite len_nil. destruct (Z.ltb_spec 0 (0 + tw)); [|lia].
  rewrite copy_at_spec by (rewrite ?len_vec_resize; lia). run. apply Hgo.
  rewrite !len_app, len_take, len_drop, len_vec_resize; rewrite ?len_vec_resize; lia.
Qed.

Lemma filled_dense d ino :
  0 < cs → 0 <= fsize d ino → filled d ino (fsize d ino) →
  dense cs d ino ((fsize d ino + cs - 1) / cs).
Proof.
  intros Hcs Hn [Hs Hl]. set (n := fsize d ino) in *.
  pose proof (Z.div_mod (n + cs - 1) cs ltac:(lia)). pose proof (Z.mod_pos_bound (n + cs - 1) cs Hcs).
  set (k := (n + cs - 1) / cs) in *. split_and!; [nia| |done].
  intros idx. rewrite Hs. split; intros [? ?]; split; nia.
Qed.

(** The data of a write are the chunks its loop leaves. *)
Lemma pwrite_data {C} ino data d (c : C) clk t w' :
  0 < cs → chunks_ok cs d → len data < 2 ^ 63 →
  pwrite (mkFile ino cs) 0 data (mkWorld d c [] (ticks clk) t) = (Ok tt, w') →
  fs_data (w_db w') =
    fs_data (w_db (write_loop (length data) (mkFile ino cs) 0 data 0
                     (mkWorld d c [] (ticks clk) t)).2).
Proof.
  intros Hcs Hok Hmax. destruct data as [|b data']; [by intros [= <-]|].
  destruct (write_loop_run cs d ino 0 (b :: data') (length (b :: data')) 0 (mkWorld d c [] (ticks clk) t))
    as (d1 & Hrun & _); [done|lia|lia|done|lia|unfold len; lia|by apply written_0|].
  rewrite Hrun. unfold pwrite, write_data_at_offset_with_conn.
  unfold transaction. run. rewrite Hrun. run. by intros [= <-].
Qed.

(** Writing to a fresh file makes the written bytes its contents, without holes. *)
Lemma pwrite_fresh {C} ino data row d (c : C) clk t :
  0 < cs → chunks_ok cs d → fs_inode d !! ino = Some row → i_size row = 0 →
  (∀ idx, fs_data d !! (ino, idx) = None) → len data < 2 ^ 63 →
  ∃ d' t', pwrite (mkFile ino cs) 0 data (mkWorld d c [] (ticks clk) t) =
      (Ok tt, mkWorld d' c [] (ticks clk) t') ∧
    only_file ino d d' ∧ chunks_ok cs d' ∧ same_links row (fs_inode d' !! ino) ∧
    contents cs d' ino = data ∧ dense cs d' ino ((fsize d' ino + cs - 1) / cs).
Proof.
  intros Hcs Hok Hrow Hsize Hno Hmax.
  assert (Hempty : contents cs d ino = []).
  { apply contents_empty. unfold fsize. by rewrite Hrow. }
  destruct (pwrite_run cs ino 0 data row (mkWorld d c [] (ticks clk) t))
    as (w' & Hrun & [Hh _] & Hof & Hok' & Hmem & Hlinks & Hc);
    [done|done|by split; [|exists clk]|done|lia|lia|].
  pose proof (pwrite_data _ _ _ _ _ _ _ Hcs Hok Hmax Hrun) as Hdata.
  assert (Hdata' : contents cs (w_db w') ino = data).
  { rewrite Hc. cbn [w_db]. rewrite Hempty, spec_write_new. by destruct data. }
  pose proof (fsize_range _ _ ino Hok') as Hrange.
  assert (Hfsize : fsize (w_db w') ino = len data).
  { rewrite <-Hdata'. unfold contents. by rewrite len_fbytes by lia. }
  assert (Hfill : filled (w_db w') ino (len data)).
  { unfold filled. rewrite Hdata. apply write_loop_filled; [done|done|done|lia| |unfold len; lia|].
    - left. by exists 0.
    - rewrite Z.min_l by lia. cbn [w_db]. split; intros idx; rewrite Hno; [|done].
      split; [by intros []|nia]. }
  assert (Hclk : w_clock w' = ticks clk ∧ w_faults w' = []).
  { pose proof (keeps_clock (m := pwrite (mkFile ino cs) 0 data) (mkWorld d c [] (ticks clk) t)) as Hk.
    rewrite Hrun in Hk. by split. }
  destruct w' as [d' c' fs' clk' t']. cbn [w_db w_mem w_clock w_faults] in *.
  destruct Hclk as [-> ->]. subst c'. exists d', t'. split_and!; try done.
  rewrite Hfsize. rewrite <-Hfsize. apply filled_dense; [done|lia|by rewrite Hfsize].
Qed.

End Runs.
