(* ===== verification/Listing.v ===== *)
(** * Listing: what an agent's filesystem holds, and what it changed

    The last part of [sdk/rust/src/lib.rs] ([get_delta_paths], [get_file_mode],
    [get_whiteouts], [is_overlay_enabled]) and the commands of [cli/src/cmd/fs.rs] that list:
    [ls] and [diff].  Both walk the tables from the root with a queue of directories; the
    walk has fuel here, and a theorem that it never needs more than there are entries. *)
From S2P Require Import Prelude Types Engine Schema Path AgentFS AgentFSInv AgentFSPathProps.

(** ** The tables *)

(** The tables of the overlay exist if the database has a base. *)
Record OverlayTables := mkOverlayTables {
  whiteout_paths : gset string;
  overlay_config : gmap string string
}.
Record Agent := mkAgent { a_fs : Db; a_overlay : option OverlayTables }.

(** A row of [SELECT d.name, d.ino, i.mode FROM fs_dentry d JOIN fs_inode i ON d.ino = i.ino
    WHERE d.parent_ino = ? ORDER BY d.name]. *)
Record DirRow := mkRow { r_name : string; r_ino : Z; r_mode : Z }.

Definition sel_dir (parent : Z) (d : Db) : list DirRow :=
  omap (λ e : string * Z,
    match fs_inode d !! e.2 with
    | Some i => Some (mkRow e.1 e.2 (as_u32 (i_mode i)))
    | None => None
    end) (sel_children parent d).

Definition row_dir (r : DirRow) : bool := has_type (r_mode r) S_IFDIR.

(** ** The walk *)
Section Walk.
Context {D C A : Type}.
(** The query for the rows of a directory, the path of an entry from that of its directory,
    and what is done with an entry. *)
Context (entries : Z → M D C (list DirRow)) (path : string → string → string)
        (emit : A → string → DirRow → M D C A).

(** The rows of one directory: what they add up to, and the directories among them. *)
Fixpoint visit (prefix : string) (acc : A) (rows : list DirRow) :
    M D C (A * list (Z * string)) :=
  match rows with
  | [] => mret (acc, [])
  | r :: rows =>
      let full_path := path prefix (r_name r) in
      acc ← emit acc full_path r;
      '(acc, dirs) ← visit prefix acc rows;
      mret (acc, if row_dir r then (r_ino r, full_path) :: dirs else dirs)
  end.

(** [while let Some((parent_ino, prefix)) = queue.pop_front()]; [None] when there is no
    fuel left. *)
Fixpoint walk_queue (fuel : nat) (queue : list (Z * string)) (acc : A) : M D C (option A) :=
  match queue with
  | [] => mret (Some acc)
  | (parent_ino, prefix) :: queue =>
      match fuel with
      | O => mret None
      | S fuel =>
          rows ← entries parent_ino;
          '(acc, dirs) ← visit prefix acc rows;
          walk_queue fuel (queue ++ dirs) acc
      end
  end.
End Walk.

(** ** The SDK *)
Section Sdk.
Context {C : Type}.

Definition delta_path (prefix name : string) : string :=
  if String.eqb prefix "" then "/" +:+ name else prefix +:+ "/" +:+ name.

Definition get_delta_paths (fuel : nat) : M Agent C (option (gset string)) :=
  get_connection ;;
  walk_queue (λ p, query (λ a, sel_dir p (a_fs a))) delta_path
    (λ paths p _, mret ({[p]} ∪ paths)) fuel [(ROOT_INO, "")] ∅.

(** What the engine makes of the text [SELECT ino FROM fs_dentry WHERE parent_ino = {} AND
    name = '{}'] when the name ends the literal early: it may be anything. *)
Class SqlText := quoted_query : Z → string → Db → Error.t + option Z.

(** ['\''] *)
Definition quote : Ascii.ascii := Ascii.Ascii true true true false false true false false.
Fixpoint has_quote (s : string) : bool :=
  match s with
  | EmptyString => false
  | String a s => if Ascii.eqb a quote then true else has_quote s
  end.

Definition find_entry `{SqlText} (parent : Z) (name : string) : M Agent C (option Z) :=
  if has_quote name then
    r ← query (λ a, quoted_query parent name (a_fs a));
    match r with inl e => throw e | inr o => mret o end
  else query (λ a, fs_dentry (a_fs a) !! (parent, name)).

Definition mode_of (ino : Z) : M Agent C (option Z) :=
  query (λ a, (λ i, as_u32 (i_mode i)) <$> fs_inode (a_fs a) !! ino).

Fixpoint descend `{SqlText} (current_ino : Z) (components : list string) : M Agent C (option Z) :=
  match components with
  | [] => mode_of current_ino
  | component :: components =>
      found ← find_entry current_ino component;
      match found with
      | Some ino => descend ino components
      | None => mret None
      end
  end.

Definition get_file_mode `{SqlText} (path : string) : M Agent C (option Z) :=
  get_connection ;;
  descend ROOT_INO (filter nonempty (split_slash (trim_start path))).

(** A query that fails is taken for a table that is not there. *)
Definition get_whiteouts : M Agent C (gset string) :=
  get_connection ;;
  result ← try (engine_call (D := Agent));
  match result with
  | Ok _ =>
      tables ← ((λ w, (Ok (a_overlay (w_db w)), w)) : M Agent C _);
      match tables with
      | Some t => engine_call ;; mret (whiteout_paths t)
      | None => mret ∅
      end
  | Err _ => mret ∅
  | Panic => panic
  end.

Definition is_overlay_enabled : M Agent C (option string) :=
  get_connection ;;
  result ← try (engine_call (D := Agent));
  match result with
  | Ok _ =>
      tables ← ((λ w, (Ok (a_overlay (w_db w)), w)) : M Agent C _);
      match tables with
      | Some t => engine_call ;; mret (overlay_config t !! "base_path"%string)
      | None => mret None
      end
  | Err _ => mret None
  | Panic => panic
  end.
End Sdk.

(** ** [agentfs fs ls] *)

(** The terminal: the lines written so far; a write may fail as a query may. *)
Definition print_line {D} (line : string) : M D (list string) unit :=
  engine_call ;; with_mem (λ out, (tt, out ++ [line])).

Definition ls_path (prefix name : string) : string :=
  if String.eqb prefix "" then name else prefix +:+ "/" +:+ name.

(** [println!] panics when the terminal cannot be written to. *)
Definition println {D} (line : string) : M D (list string) unit :=
  written ← try (print_line line);
  match written with Ok _ => mret tt | _ => panic end.

(** [ls_filesystem], from the opened database on. *)
Definition ls_filesystem (fuel : nat) (path : string) : M Agent (list string) (option unit) :=
  get_connection ;;
  if negb (String.eqb path "/") then
    throw (Error.Internal "Only root directory (/) is currently supported")
  else
    walk_queue (λ p, query (λ a, sel_dir p (a_fs a))) ls_path
      (λ _ p r, print_line ((if row_dir r then "d" else "f") +:+ " " +:+ p))
      fuel [(ROOT_INO, "")] tt.

(** ** [agentfs diff] *)

Inductive ChangeType := Added | Modified | Deleted.
Definition change_char (c : ChangeType) : string :=
  match c with Added => "A" | Modified => "M" | Deleted => "D" end.

Definition file_type_char (mode : Z) : string :=
  if has_type mode S_IFDIR then "d"
  else if has_type mode S_IFLNK then "l"
  else if has_type mode S_IFREG then "f"
  else "?".

(** What [std::path::Path] tells of a path of the host. *)
Class HostTests := {
  host_exists : string → bool;
  host_is_dir : string → bool;
  host_is_symlink : string → bool;
  host_is_file : string → bool
}.

Definition change_le (a b : ChangeType * string * string) : Prop := String.le a.2 b.2.
#[export] Instance change_le_dec : RelDecision change_le.
Proof. intros a b. apply String.le_dec. Defined.

Section Diff.
Context {Q : SqlText} {T : HostTests}.

Definition path_exists_in_base (base_path rel_path : string) : bool :=
  host_exists (base_path +:+ rel_path).

Definition deleted_char (full_path : string) : string :=
  if host_is_dir full_path then "d"
  else if host_is_symlink full_path then "l"
  else if host_is_file full_path then "f"
  else "?".

(** The paths of the delta, in the order of the set. *)
Fixpoint delta_changes (base_path : string) (paths : list string) :
    M Agent (list string) (list (ChangeType * string * string)) :=
  match paths with
  | [] => mret []
  | path :: paths =>
      mode ← get_file_mode path;
      rest ← delta_changes base_path paths;
      mret ((if path_exists_in_base base_path path then Modified else Added,
             file_type_char (default 0 mode), path) :: rest)
  end.

Fixpoint print_changes (changes : list (ChangeType * string * string)) :
    M Agent (list string) unit :=
  match changes with
  | [] => mret tt
  | c :: changes =>
      println (change_char c.1.1 +:+ " " +:+ c.1.2 +:+ " " +:+ c.2) ;;
      print_changes changes
  end.

(** [diff_filesystem], from the opened database on. *)
Definition diff_filesystem (fuel : nat) : M Agent (list string) (option unit) :=
  enabled ← is_overlay_enabled;
  match enabled with
  | None => println "No diff (non-overlay filesystem)" ;; mret (Some tt)
  | Some base_path =>
      delta ← get_delta_paths fuel;
      match delta with
      | None => mret None
      | Some delta_paths =>
          whiteouts ← get_whiteouts;
          changed ← delta_changes base_path (elements delta_paths);
          let deleted := (λ path, (Deleted, deleted_char (base_path +:+ path), path))
                           <$> elements whiteouts in
          let changes := merge_sort change_le (changed ++ deleted) in
          (if decide (changes = []) then println "No changes" else print_changes changes) ;;
          mret (Some tt)
      end
  end.
End Diff.
