(* ===== verification/ListingProps.v ===== *)
(** * ListingProps: what the listings show

    The walk of [Listing] visits every path of well-formed tables once and ends; [ls] prints
    them, [get_delta_paths] collects them, and [diff] compares them with the base. *)
From S2P Require Import Prelude Types Engine Schema Path AgentFS AgentFSInv AgentFSPathProps.
From S2P Require Import AgentFSPathRuns Listing.

(** ** The walk on the tables

    What the loops visit, in order, with the components of every path. *)
Definition Node : Type := Z * list string.

Definition below (d : Db) (n : Node) : list (list string * DirRow) :=
  (λ r, (n.2 ++ [r_name r], r)) <$> sel_dir n.1 d.
Definition dirs_below (d : Db) (n : Node) : list Node :=
  omap (λ r, if row_dir r then Some (r_ino r, n.2 ++ [r_name r]) else None) (sel_dir n.1 d).

Fixpoint visited (fuel : nat) (d : Db) (queue : list Node) :
    option (list (list string * DirRow)) :=
  match queue with
  | [] => Some []
  | n :: queue =>
      match fuel with
      | O => None
      | S fuel => app (below d n) <$> visited fuel d (queue ++ dirs_below d n)
      end
  end.

(** The loop does on [visited] what it does on one row after the other. *)
Section Loop.
Context {D C A : Type} (entries : Z → M D C (list DirRow)) (path : string → string → string)
        (emit : A → string → DirRow → M D C A) (d : Db) (show : list string → string).
Context (P : World D C → Prop) (out : A → list string → DirRow → World D C → A * World D C).
Context (Hentries : ∀ p w, P w → entries p w = (Ok (sel_dir p d), w))
        (Hpath : ∀ l n, path (show l) n = show (l ++ [n]))
        (Hemit : ∀ acc l r w, P w → emit acc (show l) r w =
           (Ok (out acc l r w).1, (out acc l r w).2) ∧ P (out acc l r w).2).

Fixpoint outs (rows : list (list string * DirRow)) (s : A * World D C) : A * World D C :=
  match rows with
  | [] => s
  | e :: rows => outs rows (out s.1 e.1 e.2 s.2)
  end.

Lemma outs_app l k s : outs (l ++ k) s = outs k (outs l s).
Proof. revert s. induction l as [|e l IH]; intros s; [done|]. apply IH. Qed.

Lemma outs_P rows s : P s.2 → P (outs rows s).2.
Proof.
  revert s. induction rows as [|[l r] rows IH]; intros s Hs; [done|].
  apply IH. by apply (Hemit s.1 l r s.2).
Qed.

Definition shown (n : Node) : Z * string := (n.1, show n.2).

Lemma visit_outs l acc rows w : P w →
  let es := (λ r, (l ++ [r_name r], r)) <$> rows in
  visit path emit (show l) acc rows w =
    (Ok ((outs es (acc, w)).1,
         shown <$> omap (λ r, if row_dir r then Some (r_ino r, l ++ [r_name r]) else None) rows),
     (outs es (acc, w)).2).
Proof.
  revert acc w. induction rows as [|r rows IH]; intros acc w Hw; [done|].
  cbv zeta. rewrite fmap_cons. cbn [visit outs]. cbv zeta. rewrite Hpath.
  destruct (Hemit acc (l ++ [r_name r]) r w Hw) as [He Hw'].
  unfold mbind at 1, M_bind at 1. rewrite He.
  unfold mbind at 1, M_bind at 1. rewrite IH by done. cbn [fst snd].
  destruct (out acc (l ++ [r_name r]) r w) as [acc' w']. cbn [fst snd].
  simpl. by destruct (row_dir r).
Qed.

Lemma walk_visited fuel queue acc w : P w →
  walk_queue entries path emit fuel (shown <$> queue) acc w =
    match visited fuel d queue with
    | Some rows => (Ok (Some (outs rows (acc, w)).1), (outs rows (acc, w)).2)
    | None => walk_queue entries path emit fuel (shown <$> queue) acc w
    end.
Proof.
  revert fuel queue acc w. induction fuel as [|fuel IH]; intros [|[p l] queue] acc w Hw;
    [done..|].
  cbn [visited]. destruct (visited fuel d (queue ++ dirs_below d (p, l))) as [rows|] eqn:Hv;
    [|done].
  rewrite fmap_cons. unfold shown at 1. cbn [walk_queue fst snd].
  unfold mbind at 1, M_bind at 1. rewrite Hentries by done.
  unfold mbind at 1, M_bind at 1. rewrite visit_outs by done.
  change (shown <$> omap _ _) with (shown <$> dirs_below d (p, l)).
  rewrite <-fmap_app. rewrite IH by by apply outs_P. rewrite Hv.
  change (app ?x <$> Some ?y) with (Some (x ++ y)). cbv beta iota.
  rewrite outs_app. change ((λ r, (l ++ [r_name r], r)) <$> sel_dir p d) with (below d (p, l)).
  by destruct (outs (below d (p, l)) (acc, w)).
Qed.
End Loop.

(** ** The walk ends

    In well-formed tables a directory has at most one entry and the root none: the
    directories below the root form a tree, and each is visited once. *)
Section Tree.
Context (cs : Z) (d : Db) (Hwf : fs_wf cs d).
Abbreviation es := (fs_dentry d).

Lemma sel_dir_elem p r : r ∈ sel_dir p d ↔
  es !! (p, r_name r) = Some (r_ino r) ∧
  ∃ i, fs_inode d !! r_ino r = Some i ∧ r_mode r = as_u32 (i_mode i).
Proof.
  unfold sel_dir. rewrite list_elem_of_omap. split.
  - intros ([n c] & Hin & Hr). cbn [fst snd] in Hr. apply sel_children_elem in Hin.
    destruct (fs_inode d !! c) as [i|] eqn:Hi; [|done]. injection Hr as <-. naive_solver.
  - intros (He & i & Hi & Hm). exists (r_name r, r_ino r). split; [by apply sel_children_elem|].
    cbn [fst snd]. rewrite Hi, <-Hm. by destruct r.
Qed.

Lemma row_dir_is_dir p r : r ∈ sel_dir p d → (row_dir r = true ↔ is_dir d (r_ino r)).
Proof.
  intros (_ & i & Hi & Hm)%sel_dir_elem. unfold row_dir. rewrite Hm, has_type_as_u32. split.
  - intros Ht. by exists i.
  - intros (i' & Hi' & Ht). rewrite Hi in Hi'. by injection Hi' as <-.
Qed.

(** The rows of a directory are its entries. *)
Lemma sel_dir_entry p n c : es !! (p, n) = Some c →
  ∃ r, r ∈ sel_dir p d ∧ r_name r = n ∧ r_ino r = c.
Proof.
  intros He. destruct Hwf as [Hcore _]. destruct (co_dentry _ _ _ Hcore _ _ _ He) as [_ [i Hi]].
  exists (mkRow n c (as_u32 (i_mode i))). split_and!; [|done..]. apply sel_dir_elem. naive_solver.
Qed.

Lemma one_entry k1 k2 c : is_dir d c → es !! k1 = Some c → es !! k2 = Some c → k1 = k2.
Proof.
  intros Hc H1 H2. destruct (decide (k1 = k2)) as [|Hne]; [done|]. destruct Hwf as [Hcore _].
  destruct (co_dirs _ _ _ Hcore c Hc) as [Hl _]. unfold links in Hl.
  assert ({[k1 := c; k2 := c]} ⊆ filter (λ e : (Z * string) * Z, e.2 = c) es) as Hs%map_subseteq_size.
  { apply insert_subseteq_l; [by apply map_lookup_filter_Some|].
    apply map_singleton_subseteq_l. by apply map_lookup_filter_Some. }
  rewrite map_size_insert_None, map_size_singleton in Hs by by rewrite lookup_singleton_ne.
  lia.
Qed.

Lemma root_no_entry k : es !! k ≠ Some ROOT_INO.
Proof.
  destruct k as [p n], Hwf as [Hcore _]. apply links_0.
  apply (co_dirs _ _ _ Hcore ROOT_INO); [|done]. apply Hcore.
Qed.

(** The directories visited or in the queue, [nodes]; those visited, [seen]. *)
Record walking (seen nodes : list Node) : Prop := {
  wk_nodes n : n ∈ nodes → walk es ROOT_INO n.2 = Some n.1 ∧ is_dir d n.1;
  wk_root : (ROOT_INO, []) ∈ nodes;
  wk_closed n : n ∈ seen → dirs_below d n ⊆ nodes;
  wk_entered n : n ∈ nodes → n.1 = ROOT_INO ∨
    ∃ m name, m ∈ seen ∧ es !! (m.1, name) = Some n.1;
  wk_nodup : NoDup nodes.*1
}.

Lemma walking_root : walking [] [(ROOT_INO, [])].
Proof.
  destruct Hwf as [Hcore _]. split.
  - intros n ->%list_elem_of_singleton. split; [done|]. apply Hcore.
  - by left.
  - by intros n ?%elem_of_nil.
  - intros n ->%list_elem_of_singleton. by left.
  - apply NoDup_singleton.
Qed.

Lemma dirs_below_elem n m : m ∈ dirs_below d n ↔
  ∃ name, es !! (n.1, name) = Some m.1 ∧ is_dir d m.1 ∧ m.2 = n.2 ++ [name].
Proof.
  unfold dirs_below. rewrite list_elem_of_omap. split.
  - intros (r & Hr & Hm). destruct (row_dir r) eqn:Hd; [|done]. injection Hm as <-.
    exists (r_name r). split_and!; [by apply sel_dir_elem in Hr as [? _]|
      by apply (row_dir_is_dir n.1)|done].
  - intros (name & He & Hd & Hl). destruct (sel_dir_entry _ _ _ He) as (r & Hr & <- & Hi).
    exists r. split; [done|]. rewrite <-Hi in Hd. apply (row_dir_is_dir n.1 r Hr) in Hd as ->.
    rewrite Hi, <-Hl. by destruct m.
Qed.

Lemma NoDup_names p : NoDup (r_name <$> sel_dir p d).
Proof.
  pose proof (NoDup_sel_children p d) as Hn. unfold sel_dir. revert Hn.
  induction (sel_children p d) as [|[a c] l IH]; [constructor|]. rewrite fmap_cons.
  intros [Ha Hn]%NoDup_cons. simpl. destruct (fs_inode d !! c) as [i|]; [|auto]. rewrite fmap_cons.
  constructor; [|auto]. intros (r & Har & Hin)%list_elem_of_fmap. apply Ha.
  apply list_elem_of_omap in Hin as ([a' c'] & Hin & Hs). simpl in *.
  destruct (fs_inode d !! c'); [|done]. injection Hs as <-. simpl in Har. subst a'.
  apply list_elem_of_fmap. by exists (a, c').
Qed.

Lemma NoDup_dirs_below n : NoDup (dirs_below d n).*1.
Proof.
  unfold dirs_below. assert (Hr : ∀ r, r ∈ sel_dir n.1 d → es !! (n.1, r_name r) = Some (r_ino r))
    by (intros r (? & _)%sel_dir_elem; done).
  assert (Hd : ∀ r, r ∈ sel_dir n.1 d → row_dir r = true → is_dir d (r_ino r))
    by (intros r ??; by apply (row_dir_is_dir n.1)).
  pose proof (NoDup_names n.1) as Hn.
  revert Hr Hd Hn. induction (sel_dir n.1 d) as [|r l IH]; intros Hr Hd Hn; [constructor|].
  rewrite fmap_cons in Hn. apply NoDup_cons in Hn as [Hrn Hn].
  specialize (IH (λ r' H, Hr r' (list_elem_of_further _ _ _ H)) (λ r' H, Hd r' (list_elem_of_further _ _ _ H)) Hn).
  simpl. destruct (row_dir r) eqn:Hrd; [|done]. rewrite fmap_cons. constructor; [|done].
  intros ([c k] & Heq & Hin)%list_elem_of_fmap. simpl in Heq. subst c.
  apply list_elem_of_omap in Hin as (r' & Hin & Hs). destruct (row_dir r'); [|done].
  injection Hs as Hi _. apply Hrn, list_elem_of_fmap. exists r'. split; [|done].
  assert ((n.1, r_name r) = (n.1, r_name r')) as [= ->]; [|done].
  apply (one_entry _ _ (r_ino r)); [by apply Hd; [left|]|by apply Hr; left|].
  rewrite <-Hi. apply Hr. by right.
Qed.

Lemma walking_step seen n queue : walking seen (seen ++ n :: queue) →
  walking (seen ++ [n]) (seen ++ n :: queue ++ dirs_below d n).
Proof.
  intros [Hn Hr Hc He Hd]. assert (Hnn : n ∈ seen ++ n :: queue) by set_solver.
  destruct (Hn n Hnn) as [Hwalk Hdir].
  replace (seen ++ n :: queue ++ dirs_below d n) with ((seen ++ n :: queue) ++ dirs_below d n)
    by by rewrite <-app_assoc.
  split.
  - intros m [Hm|Hm]%elem_of_app; [by apply Hn|].
    apply dirs_below_elem in Hm as (name & Hen & Hdm & ->). split; [|done].
    rewrite walk_append, Hwalk. simpl. by rewrite Hen.
  - apply elem_of_app. by left.
  - intros m [Hm| ->%list_elem_of_singleton]%elem_of_app x Hx; apply elem_of_app; [left|by right].
    by apply (Hc m).
  - intros m [Hm|Hm]%elem_of_app.
    + destruct (He m Hm) as [|(m' & name & Hm' & Hen)]; [by left|right].
      exists m', name. split; [apply elem_of_app; by left|done].
    + apply dirs_below_elem in Hm as (name & Hen & _). right. exists n, name.
      split; [apply elem_of_app; right; by left|done].
  - rewrite fmap_app. apply NoDup_app. split; [done|]. split; [|apply NoDup_dirs_below].
    intros i Hi Hib. apply list_elem_of_fmap in Hi as (x & -> & Hx).
    apply list_elem_of_fmap in Hib as (m & Hxm & Hm).
    apply dirs_below_elem in Hm as (name & Hen & Hdm & _). rewrite <-Hxm in *.
    destruct (He x Hx) as [Hroot|(m' & name' & Hm' & Hen')].
    { rewrite Hroot in Hen. by apply root_no_entry in Hen. }
    assert ((n.1, name) = (m'.1, name')) as [= Heq _] by by eapply one_entry.
    rewrite fmap_app, fmap_cons in Hd. apply NoDup_app in Hd as (_ & Hsep & _).
    apply (Hsep m'.1); [by apply list_elem_of_fmap; exists m'|]. rewrite <-Heq. left.
Qed.

(** There are no more directories than entries, and the root. *)
Lemma walking_bound seen nodes : walking seen nodes → (length nodes <= S (size es))%nat.
Proof.
  intros [_ _ _ He Hd].
  assert (nodes.*1 ⊆ ROOT_INO :: (map_to_list es).*2) as Hsub.
  { intros i (n & -> & Hn)%list_elem_of_fmap.
    destruct (He n Hn) as [->|(m & name & _ & Hen)]; [left|right].
    apply list_elem_of_fmap. exists ((m.1, name), n.1). split; [done|]. by apply elem_of_map_to_list. }
  apply NoDup_submseteq in Hsub; [|done]. apply submseteq_length in Hsub. simpl in Hsub.
  rewrite !length_fmap, length_map_to_list in Hsub. done.
Qed.

(** The walk ends, having seen all that is closed under going down. *)
Lemma visited_ends fuel seen queue : walking seen (seen ++ queue) →
  (S (size es) <= fuel + length seen)%nat →
  ∃ more, visited fuel d queue = Some (more ≫= below d) ∧ walking (seen ++ more) (seen ++ more).
Proof.
  revert seen queue. induction fuel as [|fuel IH]; intros seen [|n queue] Hw Hf.
  - exists []. rewrite app_nil_r in *. done.
  - apply walking_bound in Hw. rewrite length_app in Hw. simpl in Hw. lia.
  - exists []. rewrite app_nil_r in *. done.
  - destruct (IH (seen ++ [n]) (queue ++ dirs_below d n)) as (more & Hv & Hm).
    { rewrite <-app_assoc. by apply walking_step. }
    { rewrite length_app. simpl. lia. }
    exists (n :: more). cbn [visited]. rewrite Hv. split; [done|]. by rewrite <-app_assoc in Hm.
Qed.

Lemma NoDup_below nodes : NoDup nodes.*1 →
  (∀ n, n ∈ nodes → walk es ROOT_INO n.2 = Some n.1) → NoDup (nodes ≫= below d).*1.
Proof.
  induction nodes as [|n nodes IH]; intros Hnd Hw; [constructor|].
  rewrite fmap_cons in Hnd. apply NoDup_cons in Hnd as [Hn Hnd].
  rewrite bind_cons, fmap_app. apply NoDup_app. split_and!.
  - unfold below. rewrite <-list_fmap_compose.
    change (NoDup ((λ r, n.2 ++ [r_name r]) <$> sel_dir n.1 d)).
    rewrite (list_fmap_compose r_name (λ a, n.2 ++ [a])).
    apply NoDup_fmap; [|apply NoDup_names]. intros a b [_ [= ->]]%app_inj_tail_iff. done.
  - intros l (x & -> & Hx)%list_elem_of_fmap (y & Hxy & Hy)%list_elem_of_fmap.
    apply list_elem_of_fmap in Hx as (r & -> & _).
    apply list_elem_of_bind in Hy as (m & Hy & Hm).
    apply list_elem_of_fmap in Hy as (r' & -> & _). cbn [fst] in Hxy.
    apply app_inj_tail_iff in Hxy as [Hl _]. apply Hn, list_elem_of_fmap. exists m. split; [|done].
    apply (f_equal (walk es ROOT_INO)) in Hl. rewrite (Hw n), (Hw m) in Hl by set_solver.
    by injection Hl.
  - apply IH; [done|]. intros m Hm. apply Hw. by right.
Qed.

(** It visits every path, and every path once. *)
Lemma visited_root fuel : (S (size es) <= fuel)%nat →
  ∃ rows, visited fuel d [(ROOT_INO, [])] = Some rows ∧ NoDup rows.*1 ∧
    ∀ l r, (l, r) ∈ rows ↔
      ∃ p l', l = l' ++ [r_name r] ∧ walk es ROOT_INO l' = Some p ∧ r ∈ sel_dir p d.
Proof.
  intros Hf. destruct (visited_ends fuel [] [(ROOT_INO, [])]) as (more & Hv & Hm);
    [apply walking_root|simpl; lia|]. simpl in Hm. exists (more ≫= below d). split; [done|].
  assert (Hin : ∀ l p, walk es ROOT_INO l = Some p → is_dir d p → (p, l) ∈ more).
  { induction l as [|n l IH] using rev_ind; intros p Hw Hd.
    - injection Hw as <-. apply (wk_root _ _ Hm).
    - rewrite walk_append in Hw. destruct (walk es ROOT_INO l) as [q|] eqn:Hq; [|done]. simpl in Hw.
      destruct (es !! (q, n)) as [c|] eqn:He; [|done]. injection Hw as ->.
      destruct Hwf as [Hcore _]. destruct (co_dentry _ _ _ Hcore _ _ _ He) as [Hqd _].
      apply (wk_closed _ _ Hm (q, l)); [by apply IH|]. apply dirs_below_elem. by exists n. }
  split.
  - apply NoDup_below; [by eapply wk_nodup|]. intros n Hn. by apply (wk_nodes _ _ Hm).
  - intros l r. rewrite list_elem_of_bind. split.
    + intros ([p l'] & Hr & Hn). apply list_elem_of_fmap in Hr as (r' & [= -> ->] & Hr).
      exists p, l'. split; [done|]. split; [|done]. by apply (wk_nodes _ _ Hm (p, l')).
    + intros (p & l' & -> & Hw & Hr). exists (p, l'). split.
      * apply list_elem_of_fmap. by exists r.
      * apply Hin; [done|]. apply sel_dir_elem in Hr as [He _]. destruct Hwf as [Hcore _].
        by apply (co_dentry _ _ _ Hcore _ _ _ He).
Qed.
End Tree.

(** * Properties *)

Lemma join_slash_snoc l n : l ≠ [] → join_slash (l ++ [n]) = join_slash l +:+ "/" +:+ n.
Proof.
  intros Hl. destruct l as [|a l]; [done|]. clear Hl. revert a.
  induction l as [|b l IH]; intros a; [done|]. cbn [app].
  rewrite !join_slash_cons. specialize (IH b). cbn [app] in IH. rewrite IH.
  by rewrite !string_app_assoc.
Qed.

Lemma foldl_delta_path l : l ≠ [] → foldl delta_path "" l = render l.
Proof.
  induction l as [|n l IH] using rev_ind; [done|]. intros _. rewrite foldl_app. simpl.
  destruct (decide (l = [])) as [->|Hl]; [done|]. rewrite IH by done.
  assert (render (l ++ [n]) = render l +:+ "/" +:+ n) as ->.
  { unfold render. destruct l as [|a l]; [done|]. cbn [app].
    change (a :: l ++ [n]) with ((a :: l) ++ [n]). rewrite join_slash_snoc by done.
    by rewrite !string_app_assoc. }
  by destruct l.
Qed.

Lemma foldl_ls_path l : Forall plain l → foldl ls_path "" l = join_slash l.
Proof.
  induction l as [|n l IH] using rev_ind; [done|]. intros [Hl _]%Forall_app.
  rewrite foldl_app. simpl. rewrite IH by done.
  destruct (decide (l = [])) as [->|Hne]; [done|]. rewrite join_slash_snoc by done.
  unfold ls_path. destruct l as [|a l]; [done|]. apply Forall_cons in Hl as [[Ha _] _].
  destruct l; simpl; by destruct a.
Qed.

Section Properties.
Context (cs : Z) {C : Type}.

(** The paths that the tables hold, but for the root. *)
Definition holds (d : Db) (l : list string) (ino : Z) : Prop :=
  l ≠ [] ∧ walk (fs_dentry d) ROOT_INO l = Some ino.

Lemma holds_row d l ino : fs_wf cs d → holds d l ino ↔
  ∃ r p l', l = l' ++ [r_name r] ∧ walk (fs_dentry d) ROOT_INO l' = Some p ∧
    r ∈ sel_dir p d ∧ r_ino r = ino.
Proof.
  intros Hwf. split.
  - intros [Hne Hw]. destruct l as [|n l _] using rev_ind; [done|].
    rewrite walk_append in Hw. destruct (walk _ ROOT_INO l) as [p|] eqn:Hp; [|done]. simpl in Hw.
    destruct (fs_dentry d !! (p, n)) as [c|] eqn:He; [|done]. injection Hw as ->.
    destruct (sel_dir_entry cs d Hwf p n ino He) as (r & Hr & <- & Hi). by exists r, p, l.
  - intros (r & p & l' & -> & Hw & Hr & <-). split; [by destruct l'|].
    rewrite walk_append, Hw. simpl. apply (sel_dir_elem d) in Hr as [-> _]. done.
Qed.

Definition fuel_of (d : Db) : nat := S (size (fs_dentry d)).

Lemma get_delta_paths_runs (w : World Agent C) fuel :
  faultless w → fs_wf cs (a_fs (w_db w)) → (fuel_of (a_fs (w_db w)) <= fuel)%nat →
  ∃ paths, get_delta_paths fuel w = (Ok (Some paths), w) ∧
    ∀ p, p ∈ paths ↔ ∃ l ino, holds (a_fs (w_db w)) l ino ∧ p = render l.
Proof.
  intros Hf Hwf Hfuel. set (d := a_fs (w_db w)) in *.
  destruct (visited_root cs d Hwf fuel Hfuel) as (rows & Hv & _ & Hrows).
  set (out := λ (acc : gset string) (l : list string) (r : DirRow) (w : World Agent C),
    (({[foldl delta_path "" l]} ∪ acc), w)).
  exists (outs out rows (∅, w)).1. split.
  - destruct w as [a m fs clk t]. unfold faultless in Hf. cbn in Hf. subst fs.
    unfold get_delta_paths, get_connection. unfold mbind at 1, M_bind at 1, engine_call. cbn [w_faults].
    change [(ROOT_INO, "")] with (shown (foldl delta_path "") <$> [(ROOT_INO, @nil string)]).
    rewrite (walk_visited _ _ _ d (foldl delta_path "") (λ w, w = mkWorld a m [] clk t) out).
    + rewrite Hv. f_equal. assert (∀ l s, (outs out l s).2 = s.2) as ->; [|done].
      induction l as [|e l IH]; intros s; [done|]. simpl. by rewrite IH.
    + by intros p w ->.
    + intros l n. by rewrite foldl_app.
    + intros acc l r w Hw. done.
    + done.
  - intros p. assert (∀ l s, p ∈ (outs out l s).1 ↔ p ∈ s.1 ∨ ∃ e, e ∈ l ∧ p = foldl delta_path "" e.1) as ->.
    { induction l as [|e l IH]; intros s; simpl; [set_solver|]. rewrite IH. unfold out. simpl. set_solver. }
    split.
    + intros [?%elem_of_empty|([l r] & Hin & ->)]; [done|]. apply Hrows in Hin as (q & l' & -> & Hw & Hr).
      exists (l' ++ [r_name r]), (r_ino r). split; [|by apply foldl_delta_path; destruct l'].
      apply holds_row; [done|]. naive_solver.
    + intros (l & ino & Hh & ->). right. pose proof Hh as [Hne _].
      apply holds_row in Hh as (r & q & l' & -> & Hw & Hr & <-); [|done].
      exists (l' ++ [r_name r], r). split; [apply Hrows; naive_solver|].
      simpl. by rewrite foldl_delta_path.
Qed.

(** Listing the delta ends and is complete.  On well-formed tables the queue empties
    after at most as many rounds as there are entries, and one for the root; the result is
    exactly the set of the paths that the tables lead to. *)
Theorem delta_paths_complete (w : World Agent C) fuel :
  faultless w → fs_wf cs (a_fs (w_db w)) → (fuel_of (a_fs (w_db w)) <= fuel)%nat →
  ∃ paths, get_delta_paths fuel w = (Ok (Some paths), w) ∧
    ∀ p, p ∈ paths ↔ ∃ l ino, holds (a_fs (w_db w)) l ino ∧ p = render l.
Proof. apply get_delta_paths_runs. Qed.

(** [ls] prints the tree.  The walk ends; the terminal gets one line per path, with its
    type, no path twice, and nothing in the tables changes. *)
Theorem ls_lists (w : World Agent (list string)) fuel :
  faultless w → fs_wf cs (a_fs (w_db w)) → (fuel_of (a_fs (w_db w)) <= fuel)%nat →
  (∀ p n c, fs_dentry (a_fs (w_db w)) !! (p, n) = Some c → plain n) →
  ∃ listing, ls_filesystem fuel "/" w =
      (Ok (Some tt), set_mem (w_mem w ++ ((λ e : list string * bool,
         (if e.2 then "d" else "f") +:+ " " +:+ join_slash e.1) <$> listing)) w) ∧
    NoDup listing.*1 ∧
    ∀ l dir, (l, dir) ∈ listing ↔ ∃ ino, holds (a_fs (w_db w)) l ino ∧
      (dir = true ↔ is_dir (a_fs (w_db w)) ino).
Proof.
  intros Hf Hwf Hfuel Hplain. set (d := a_fs (w_db w)) in *.
  destruct (visited_root cs d Hwf fuel Hfuel) as (rows & Hv & Hnd & Hrows).
  exists ((λ e : list string * DirRow, (e.1, row_dir e.2)) <$> rows). split; [|split].
  - set (line := λ (l : list string) (r : DirRow),
      (if row_dir r then "d" else "f") +:+ " " +:+ foldl ls_path "" l).
    set (out := λ (_ : unit) (l : list string) (r : DirRow) (w : World Agent (list string)),
      (tt, set_mem (w_mem w ++ [line l r]) w)).
    destruct w as [a m fs clk t]. unfold faultless in Hf. cbn in Hf. subst fs.
    unfold ls_filesystem, get_connection. unfold mbind at 1, M_bind at 1, engine_call. cbn [w_faults].
    change (negb (String.eqb "/" "/")) with false. cbv iota.
    change [(ROOT_INO, "")] with (shown (foldl ls_path "") <$> [(ROOT_INO, @nil string)]).
    rewrite (walk_visited _ _ _ d (foldl ls_path "")
      (λ w, ∃ m', w = mkWorld a m' [] clk t) out); last by exists m.
    + rewrite Hv.
      assert (Hplains : Forall (λ e : list string * DirRow, Forall plain e.1) rows).
      { apply Forall_forall. intros [l r] Hin. apply Hrows in Hin as (q & l' & -> & Hw & Hr).
        cbn [fst]. apply Forall_app. split.
        - clear Hr. revert Hw. generalize ROOT_INO. induction l' as [|n l' IH]; intros i Hw; [done|].
          cbn [walk] in Hw. destruct (fs_dentry d !! (i, n)) as [c|] eqn:He; [|done].
          constructor; [by eapply Hplain|]. by eapply IH.
        - constructor; [|done]. apply (sel_dir_elem d) in Hr as [He _]. by eapply Hplain. }
      assert (∀ m', outs out rows (tt, mkWorld a m' [] clk t) =
        (tt, mkWorld a (m' ++ ((λ e : list string * bool,
         (if e.2 then "d" else "f") +:+ " " +:+ join_slash e.1) <$>
         ((λ e : list string * DirRow, (e.1, row_dir e.2)) <$> rows))) [] clk t)) as Hout.
      { clear Hrows Hnd Hv. induction Hplains as [|[l r] rows Hl _ IH]; intros m'.
        - simpl. by rewrite app_nil_r.
        - cbn [outs]. unfold out at 2. unfold set_mem. cbn [w_db w_mem w_faults w_clock w_tick fst snd].
          rewrite IH. simpl. unfold line. cbn [fst snd] in Hl. rewrite foldl_ls_path by done.
          by rewrite <-app_assoc. }
      by rewrite Hout.
    + by intros p w [m' ->].
    + intros l n. by rewrite foldl_app.
    + intros acc l r w [m' ->]. split; [by destruct acc|]. by eexists.
  - rewrite <-list_fmap_compose. exact Hnd.
  - intros l dir. rewrite list_elem_of_fmap. split.
    + intros ([l' r] & [= -> ->] & Hin). apply Hrows in Hin as (q & l & -> & Hw & Hr).
      exists (r_ino r). split; [apply holds_row; naive_solver|]. by apply (row_dir_is_dir d q).
    + intros (ino & Hh & Hd). apply holds_row in Hh as (r & q & l' & -> & Hw & Hr & <-); [|done].
      exists (l' ++ [r_name r], r). split; [|apply Hrows; naive_solver].
      cbn [fst snd]. f_equal. pose proof (row_dir_is_dir d q r Hr) as Hrd.
      rewrite <-Hrd in Hd. destruct dir, (row_dir r); naive_solver.
Qed.

(** [get_file_mode] finds what [get_delta_paths] lists. *)
Lemma plain_head p s : plain p → trim_start (p +:+ s) = p +:+ s.
Proof.
  intros [Hne Hs]. destruct p as [|a p]; [done|]. cbn [split_slash] in Hs.
  change (String a p +:+ s) with (String a (p +:+ s)). cbn [trim_start].
  by destruct (Ascii.eqb a slash).
Qed.

Lemma components_render l : l ≠ [] → Forall plain l →
  filter nonempty (split_slash (trim_start (render l))) = l.
Proof.
  intros Hne Hl. destruct l as [|p l]; [done|]. pose proof Hl as [Hp _]%Forall_cons.
  change (trim_start (render (p :: l))) with (trim_start (join_slash (p :: l))).
  assert (trim_start (join_slash (p :: l)) = join_slash (p :: l)) as ->.
  { destruct l as [|q l].
    - destruct Hp as [Hp Hs]. destruct p as [|a p]; [done|]. cbn [split_slash] in Hs.
      cbn [join_slash trim_start]. by destruct (Ascii.eqb a slash).
    - by apply plain_head. }
  rewrite split_join by done. by apply filter_nonempty_id.
Qed.

Definition names_ok (d : Db) : Prop :=
  ∀ p n c, fs_dentry d !! (p, n) = Some c → plain n ∧ has_quote n = false.

Lemma walk_names d l i ino : names_ok d → walk (fs_dentry d) i l = Some ino →
  Forall (λ n, plain n ∧ has_quote n = false) l.
Proof.
  intros Hn. revert i. induction l as [|n l IH]; intros i Hw; [done|]. cbn [walk] in Hw.
  destruct (fs_dentry d !! (i, n)) as [c|] eqn:He; [|done].
  constructor; [by eapply Hn|by eapply IH].
Qed.

Lemma get_file_mode_runs {Q : SqlText} (w : World Agent C) l ino i :
  faultless w → names_ok (a_fs (w_db w)) → holds (a_fs (w_db w)) l ino →
  fs_inode (a_fs (w_db w)) !! ino = Some i →
  get_file_mode (render l) w = (Ok (Some (as_u32 (i_mode i))), w).
Proof.
  intros Hf Hn [Hne Hw] Hi. destruct w as [a m fs clk t]. unfold faultless in Hf. cbn in *. subst fs.
  pose proof (walk_names _ _ _ _ Hn Hw) as Hl. unfold get_file_mode, get_connection.
  unfold mbind at 1, M_bind at 1, engine_call. cbn [w_faults].
  rewrite components_render by (done || (eapply Forall_impl; [exact Hl|]; naive_solver)).
  clear Hne. revert Hw Hl. generalize ROOT_INO.
  induction l as [|n l IH]; intros p Hw Hl; cbn [walk descend] in *.
  - injection Hw as ->. unfold mode_of. run. by rewrite Hi.
  - apply Forall_cons in Hl as [[_ Hq] Hl]. unfold find_entry. rewrite Hq.
    destruct (fs_dentry (a_fs a) !! (p, n)) as [c|] eqn:He; [|done].
    unfold mbind at 1, M_bind at 1, query at 1. run. rewrite He. by apply IH.
Qed.
End Properties.

(** ** The report of [diff] *)
Section Report.
Context (cs : Z) {Q : SqlText} {T : HostTests}.
Abbreviation W := (World Agent (list string)).

Definition change_line (c : ChangeType * string * string) : string :=
  change_char c.1.1 +:+ " " +:+ c.1.2 +:+ " " +:+ c.2.

(** The change that [diff] should report. *)
Definition reported (base_path : string) (d : Db) (t : OverlayTables)
    (c : ChangeType * string * string) : Prop :=
  (∃ l ino i, holds d l ino ∧ fs_inode d !! ino = Some i ∧
     c = (if path_exists_in_base base_path (render l) then Modified else Added,
          file_type_char (as_u32 (i_mode i)), render l)) ∨
  (∃ path, path ∈ whiteout_paths t ∧ c = (Deleted, deleted_char (base_path +:+ path), path)).

#[local] Instance change_le_total : Total change_le.
Proof. intros a b. apply String.le_total. Qed.
#[local] Instance change_le_trans : Transitive change_le.
Proof. intros a b c. unfold change_le. apply String.le_po. Qed.

Lemma delta_changes_runs base_path (w : W) paths :
  faultless w → fs_wf cs (a_fs (w_db w)) → names_ok (a_fs (w_db w)) →
  (∀ p, p ∈ paths → ∃ l ino, holds (a_fs (w_db w)) l ino ∧ p = render l) →
  ∃ changed, delta_changes base_path paths w = (Ok changed, w) ∧
    changed.*2 = paths ∧
    ∀ c, c ∈ changed → ∃ l ino i, holds (a_fs (w_db w)) l ino ∧
      fs_inode (a_fs (w_db w)) !! ino = Some i ∧
      c = (if path_exists_in_base base_path (render l) then Modified else Added,
          file_type_char (as_u32 (i_mode i)), render l).
Proof.
  intros Hf Hwf Hn. induction paths as [|p paths IH]; intros Hp.
  { exists []. split; [done|]. split; [done|]. by intros c ?%elem_of_nil. }
  destruct IH as (changed & Hrun & Hpaths & Hc); [intros; apply Hp; by right|].
  destruct (Hp p) as (l & ino & Hh & ->); [by left|].
  assert (∃ i, fs_inode (a_fs (w_db w)) !! ino = Some i) as [i Hi].
  { apply (holds_row cs) in Hh as (r & q & l' & _ & _ & Hr & <-); [|done].
    apply sel_dir_elem in Hr as (_ & i & Hi & _). by exists i. }
  cbn [delta_changes]. unfold mbind at 1, M_bind at 1.
  rewrite (get_file_mode_runs w l ino i) by done.
  unfold mbind at 1, M_bind at 1. rewrite Hrun.
  eexists. split; [done|]. split; [by rewrite fmap_cons, Hpaths|].
  intros c [->|Hin]%elem_of_cons; [|by apply Hc]. by exists l, ino, i.
Qed.

Lemma print_changes_runs changes (w : W) : faultless w →
  print_changes changes w = (Ok tt, set_mem (w_mem w ++ (change_line <$> changes)) w).
Proof.
  destruct w as [a m fs clk t]. unfold faultless. cbn [w_faults]. intros ->. revert m.
  induction changes as [|c changes IH]; intros m.
  { cbn [print_changes fmap list_fmap]. unfold set_mem. cbn. by rewrite app_nil_r. }
  cbn [print_changes]. unfold mbind at 1, M_bind at 1, println, print_line. run.
  rewrite IH. unfold set_mem. cbn. by rewrite <-app_assoc.
Qed.

(** [diff] reports the changes.  The command ends and prints one line per path of the
    delta, marked by whether the base has the path, and one per whiteout, sorted by path;
    when there is neither it says so. *)
Theorem diff_reports (w : W) fuel t base_path :
  faultless w → fs_wf cs (a_fs (w_db w)) → names_ok (a_fs (w_db w)) →
  (fuel_of (a_fs (w_db w)) <= fuel)%nat →
  a_overlay (w_db w) = Some t → overlay_config t !! "base_path" = Some base_path →
  ∃ changes, diff_filesystem fuel w =
      (Ok (Some tt), set_mem (w_mem w ++
         match changes with [] => ["No changes"] | _ => change_line <$> changes end) w) ∧
    StronglySorted change_le changes ∧ NoDup changes ∧
    ∀ c, c ∈ changes ↔ reported base_path (a_fs (w_db w)) t c.
Proof.
  intros Hf Hwf Hn Hfuel Ht Hb.
  destruct (get_delta_paths_runs cs w fuel Hf Hwf Hfuel) as (paths & Hpaths & Hin).
  destruct (delta_changes_runs base_path w (elements paths) Hf Hwf Hn) as (changed & Hch & Hcp & Hcc).
  { intros p Hp%elem_of_elements. by apply Hin. }
  set (deleted := (λ path, (Deleted, deleted_char (base_path +:+ path), path))
                    <$> elements (whiteout_paths t)).
  set (changes := merge_sort change_le (changed ++ deleted)). exists changes.
  split; [|split; [|split]].
  - unfold diff_filesystem. unfold mbind at 1, M_bind at 1.
    assert (is_overlay_enabled w = (Ok (Some base_path), w)) as ->.
    { destruct w as [a m fs clk n]. unfold faultless in Hf. cbn in *. subst fs.
      unfold is_overlay_enabled. run. rewrite Ht. by rewrite Hb. }
    unfold mbind at 1, M_bind at 1. rewrite Hpaths.
    unfold mbind at 1, M_bind at 1.
    assert (get_whiteouts w = (Ok (whiteout_paths t), w)) as ->.
    { destruct w as [a m fs clk n]. unfold faultless in Hf. cbn in *. subst fs.
      unfold get_whiteouts. run. by rewrite Ht. }
    unfold mbind at 1, M_bind at 1. rewrite Hch. cbv zeta. fold deleted. fold changes.
    unfold mbind, M_bind. destruct (decide (changes = [])) as [->|Hne].
    + destruct w as [a m fs clk n]. unfold faultless in Hf. cbn in Hf. subst fs. done.
    + rewrite print_changes_runs by done. by destruct changes.
  - apply StronglySorted_merge_sort; apply _.
  - unfold changes. rewrite merge_sort_Permutation. apply NoDup_app. split_and!.
    + apply (NoDup_fmap_1 snd). rewrite Hcp. apply NoDup_elements.
    + intros c (l & ino & i & _ & _ & ->)%Hcc (p & Hp & _)%list_elem_of_fmap.
      by destruct (path_exists_in_base base_path (render l)).
    + apply NoDup_fmap; [by intros ?? [=]|apply NoDup_elements].
  - intros c. unfold changes, reported. rewrite merge_sort_Permutation, elem_of_app.
    unfold deleted. rewrite list_elem_of_fmap. split.
    + intros [Hc|(p & -> & Hp%elem_of_elements)]; [left; by apply Hcc|right; by exists p].
    + intros [(l & ino & i & Hh & Hi & ->)|(p & Hp & ->)]; [left|right; exists p; set_solver].
      assert (render l ∈ changed.*2) as (c & Hl & Hc)%list_elem_of_fmap.
      { rewrite Hcp. apply elem_of_elements, Hin. by exists l, ino. }
      pose proof (Hcc c Hc) as (l' & ino' & i' & Hh' & Hi' & ->). simpl in Hl.
      assert (l = l') as <-.
      { destruct Hh as [Hne Hw], Hh' as [Hne' Hw'].
        pose proof (walk_names _ _ _ _ Hn Hw) as Hl1. pose proof (walk_names _ _ _ _ Hn Hw') as Hl2.
        rewrite <-(components_render l), <-(components_render l'), Hl; [done|..];
          done || (eapply Forall_impl; [eassumption|]; naive_solver). }
      destruct Hh as [_ Hw], Hh' as [_ Hw']. rewrite Hw in Hw'. injection Hw' as <-.
      rewrite Hi in Hi'. by injection Hi' as <-.
Qed.
End Report.
