(* ===== verification/Overlay.v ===== *)
(** * Overlay: the copy-on-write filesystem

    [OverlayFS] of [sdk/rust/src/filesystem/overlayfs.rs]: a read-only base
    filesystem (any implementation of the [FileSystem] trait) below a writable
    delta ([AgentFS]).  The handle keeps its own inode numbers in three maps,
    the set of deleted paths (whiteouts) and the origins of copied files; the
    last two are kept in tables as well.  Where the source calls a method that
    [AgentFS] defines both in its own [impl] and in the trait, the method of the
    [impl] is meant: [readdir], [readdir_plus] and [chown] of the delta are those of
    the path-based interface. *)
From S2P Require Import Prelude Types Engine Lru Schema FileIO Path AgentFS AgentFSPath.

(** ** The base layer *)

(** The operations of the [FileSystem] trait that the overlay calls on its base.
    The base does not change while it is mounted; [engine_call] in front of each
    call lets it fail at any time. *)
Class BaseFS := {
  base_handle : Type;
  base_lookup : Z → string → Error.t + option Stats;
  base_getattr : Z → Error.t + option Stats;
  base_readlink : Z → Error.t + option string;
  base_readdir : Z → Error.t + option (list string);
  base_readdir_plus : Z → Error.t + option (list DirEntry);
  base_open : Z → Z → Error.t + base_handle;
  base_pread : base_handle → Z → Z → Error.t + bytes
}.

(** ** State *)

Inductive Layer := Delta | Base.
#[export] Instance layer_eq_dec : EqDecision Layer.
Proof. solve_decision. Defined.
#[export] Instance layer_countable : Countable Layer.
Proof.
  refine (inj_countable' (λ l, match l with Delta => true | Base => false end)
            (λ b : bool, if b then Delta else Base) _). by intros [].
Defined.

Record InodeInfo := mkInfo { in_layer : Layer; in_underlying : Z; in_path : string }.

(** The tables of the delta and those of the overlay. *)
Record ODb := mkODb {
  o_fs : Db;
  t_whiteout : gmap string Z;
  t_origin : gmap Z Z;
  t_config : gmap string string
}.

Section Overlay.
Context {E : SqlEngine} {Lru : LruCache (Z * string) Z} {B : BaseFS}.
Context (chunk_size : Z).
(** [libc::O_RDONLY] *)
Context (O_RDONLY : Z).

(** The memory of the handle: the dentry cache of the delta, and the maps. *)
Record OMem := mkOMem {
  o_cache : lru (Z * string) Z;
  inode_map : gmap Z InodeInfo;
  reverse_map : gmap (Layer * Z) Z;
  path_map : gmap string Z;
  next_ino : Z;
  whiteouts : gset string;
  origin_map : gmap Z Z
}.

Abbreviation Fs := (M Db (lru (Z * string) Z)).
Abbreviation Ov := (M ODb OMem).

(** An operation of the delta, as an operation of the overlay. *)
Definition set_fs (d : Db) (o : ODb) : ODb :=
  mkODb d (t_whiteout o) (t_origin o) (t_config o).
Definition set_cache (c : lru (Z * string) Z) (m : OMem) : OMem :=
  mkOMem c (inode_map m) (reverse_map m) (path_map m) (next_ino m) (whiteouts m)
    (origin_map m).
Definition delta {A} (op : Fs A) : Ov A := λ w,
  let '(r, w') := op (mkWorld (o_fs (w_db w)) (o_cache (w_mem w)) (w_faults w)
                        (w_clock w) (w_tick w)) in
  (r, mkWorld (set_fs (w_db w') (w_db w)) (set_cache (w_mem w') (w_mem w)) (w_faults w')
        (w_clock w') (w_tick w')).

(** A call into the base. *)
Definition base {A} (r : Error.t + A) : Ov A :=
  engine_call ;; match r with inr a => mret a | inl e => throw e end.

(** Reading and changing the maps. *)
Definition reads {A} (f : OMem → A) : Ov A := with_mem (λ m, (f m, m)).
Definition writes (f : OMem → OMem) : Ov unit := with_mem (λ m, (tt, f m)).

Definition set_inode_map (x : gmap Z InodeInfo) (m : OMem) : OMem :=
  mkOMem (o_cache m) x (reverse_map m) (path_map m) (next_ino m) (whiteouts m)
    (origin_map m).
Definition set_reverse_map (x : gmap (Layer * Z) Z) (m : OMem) : OMem :=
  mkOMem (o_cache m) (inode_map m) x (path_map m) (next_ino m) (whiteouts m)
    (origin_map m).
Definition set_path_map (x : gmap string Z) (m : OMem) : OMem :=
  mkOMem (o_cache m) (inode_map m) (reverse_map m) x (next_ino m) (whiteouts m)
    (origin_map m).
Definition set_next_ino (x : Z) (m : OMem) : OMem :=
  mkOMem (o_cache m) (inode_map m) (reverse_map m) (path_map m) x (whiteouts m)
    (origin_map m).
Definition set_whiteouts (x : gset string) (m : OMem) : OMem :=
  mkOMem (o_cache m) (inode_map m) (reverse_map m) (path_map m) (next_ino m) x
    (origin_map m).
Definition set_origin_map (x : gmap Z Z) (m : OMem) : OMem :=
  mkOMem (o_cache m) (inode_map m) (reverse_map m) (path_map m) (next_ino m) (whiteouts m)
    x.

(** [OverlayFS::new], over the cache of the delta. *)
Definition new (cache : lru (Z * string) Z) : OMem :=
  mkOMem cache {[ROOT_INO := mkInfo Delta 1 "/"]} {[(Delta, 1) := ROOT_INO]}
    {["/"%string := ROOT_INO]} 2 ∅ ∅.

(** ** Tables *)

Definition set_whiteout_table (x : gmap string Z) (o : ODb) : ODb :=
  mkODb (o_fs o) x (t_origin o) (t_config o).
Definition set_origin_table (x : gmap Z Z) (o : ODb) : ODb :=
  mkODb (o_fs o) (t_whiteout o) x (t_config o).
Definition set_config_table (x : gmap string string) (o : ODb) : ODb :=
  mkODb (o_fs o) (t_whiteout o) (t_origin o) x.

Definition init_schema (base_path : string) : Ov unit :=
  statements 2 ;;
  update (λ o, set_config_table (<["base_path"%string := base_path]> (t_config o)) o) ;;
  statements 1.

Definition load_whiteouts : Ov unit :=
  paths ← query (λ o, dom (t_whiteout o));
  writes (λ m, set_whiteouts (whiteouts m ∪ paths) m).

(** A failing query means that the table does not exist, and is ignored. *)
Definition load_origins : Ov unit :=
  result ← try (engine_call : Ov unit);
  match result with
  | Ok _ =>
      mappings ← query t_origin;
      writes (λ m, set_origin_map (mappings ∪ origin_map m) m)
  | Err _ => mret tt
  | Panic => panic
  end.

Definition load : Ov unit := get_connection ;; load_whiteouts ;; load_origins.

Definition init (base_path : string) : Ov unit :=
  get_connection ;; init_schema base_path ;; load_whiteouts ;; load_origins.

(** ** Whiteouts and origins *)

(** [path.split('/').filter(|s| !s.is_empty())] *)
Definition components (path : string) : list string :=
  filter nonempty (split_slash path).

(** [format!("{}/{}", dir, name)] *)
Definition slash_join (dir name : string) : string := dir +:+ "/" +:+ name.

Fixpoint any_whiteout (set : gset string) (current : string) (comps : list string) : bool :=
  match comps with
  | [] => false
  | c :: comps =>
      let current := slash_join current c in
      if bool_decide (current ∈ set) then true else any_whiteout set current comps
  end.

Definition is_whiteout (path : string) : Ov bool :=
  reads (λ m, any_whiteout (whiteouts m) "" (components path)).

Definition create_whiteout (path : string) : Ov unit :=
  get_connection ;;
  t ← now;
  update (λ o, set_whiteout_table (<[path := as_i64 t.1]> (t_whiteout o)) o) ;;
  writes (λ m, set_whiteouts ({[path]} ∪ whiteouts m) m).

Definition remove_whiteout (path : string) : Ov unit :=
  present ← reads (λ m, bool_decide (path ∈ whiteouts m));
  if negb present then mret tt
  else
    get_connection ;;
    update (λ o, set_whiteout_table (base.delete path (t_whiteout o)) o) ;;
    writes (λ m, set_whiteouts (whiteouts m ∖ {[path]}) m).

Definition child_of (dir_path p : string) : option string :=
  if String.eqb dir_path "/" then
    let trimmed := trim_start p in
    if negb (has_slash trimmed) then Some trimmed else None
  else
    match strip_prefix p (slash_join dir_path "") with
    | Some rest => if negb (has_slash rest) then Some rest else None
    | None => None
    end.

Definition get_child_whiteouts (dir_path : string) : Ov (gset string) :=
  reads (λ m, list_to_set (omap (child_of dir_path) (elements (whiteouts m)))).

Definition add_origin_mapping (delta_ino base_ino : Z) : Ov unit :=
  get_connection ;;
  update (λ o, set_origin_table (<[delta_ino := base_ino]> (t_origin o)) o) ;;
  writes (λ m, set_origin_map (<[delta_ino := base_ino]> (origin_map m)) m).

Definition get_origin_ino (delta_ino : Z) : Ov (option Z) :=
  reads (λ m, origin_map m !! delta_ino).

(** ** Inode numbers *)

Definition alloc_ino : Ov Z := with_mem (λ m, (next_ino m, set_next_ino (next_ino m + 1) m)).

Definition get_or_create_overlay_ino (layer : Layer) (underlying_ino : Z) (path : string) :
    Ov Z :=
  known ← reads (λ m, reverse_map m !! (layer, underlying_ino));
  match known with
  | Some ino => mret ino
  | None =>
      ino ← alloc_ino;
      writes (λ m, set_inode_map (<[ino := mkInfo layer underlying_ino path]> (inode_map m)) m) ;;
      writes (λ m, set_reverse_map (<[(layer, underlying_ino) := ino]> (reverse_map m)) m) ;;
      writes (λ m, set_path_map (<[path := ino]> (path_map m)) m) ;;
      mret ino
  end.

Definition get_inode_info (ino : Z) : Ov (option InodeInfo) :=
  reads (λ m, inode_map m !! ino).

Definition refresh_overlay_mapping (overlay_ino : Z) (new_layer : Layer)
    (new_underlying_ino : Z) (new_path : string) : Ov unit :=
  info ← get_inode_info overlay_ino;
  match info with
  | None => mret tt
  | Some info =>
      let old_path := in_path info in
      writes (λ m, set_inode_map
        (<[overlay_ino := mkInfo new_layer new_underlying_ino new_path]> (inode_map m)) m) ;;
      writes (λ m, set_reverse_map
        (<[(new_layer, new_underlying_ino) := overlay_ino]> (reverse_map m)) m) ;;
      writes (λ m,
        let cleaned := if bool_decide (path_map m !! old_path = Some overlay_ino)
                       then base.delete old_path (path_map m) else path_map m in
        set_path_map (<[new_path := overlay_ino]> cleaned) m)
  end.

Definition join_path (dir name : string) : string :=
  if String.eqb dir "/" then slash_join "" name else slash_join dir name.

Definition require_info (ino : Z) : Ov InodeInfo :=
  info ← get_inode_info ino; ok_or (Error.Fs FsError.NotFound) info.

Definition build_path (parent_ino : Z) (name : string) : Ov string :=
  info ← require_info parent_ino; mret (join_path (in_path info) name).

Definition promote_to_delta (path : string) (delta_ino : Z) : Ov unit :=
  overlay_ino ← reads (λ m, path_map m !! path);
  match overlay_ino with
  | None => mret tt
  | Some overlay_ino =>
      info ← get_inode_info overlay_ino;
      match info with
      | Some info =>
          match in_layer info with
          | Base =>
              writes (λ m, set_inode_map
                (<[overlay_ino := mkInfo Delta delta_ino (in_path info)]> (inode_map m)) m) ;;
              writes (λ m, set_reverse_map
                (<[(Delta, delta_ino) := overlay_ino]>
                   (base.delete (Base, in_underlying info) (reverse_map m))) m)
          | Delta => mret tt
          end
      | None => mret tt
      end
  end.

(** ** Walking and copying *)

Fixpoint walk_delta (ino : Z) (comps : list string) : Ov (option Z) :=
  match comps with
  | [] => mret (Some ino)
  | c :: comps =>
      found ← delta (AgentFS.lookup ino c);
      match found with
      | Some s => if is_directory s then walk_delta (st_ino s) comps else mret None
      | None => mret None
      end
  end.

Definition resolve_delta_parent (info : InodeInfo) : Ov (option Z) :=
  match in_layer info with
  | Delta => mret (Some (in_underlying info))
  | Base => walk_delta 1 (components (in_path info))
  end.

Fixpoint walk_base (ino : Z) (comps : list string) : Ov (option Z) :=
  match comps with
  | [] => mret (Some ino)
  | c :: comps =>
      found ← base (base_lookup ino c);
      match found with
      | Some s => walk_base (st_ino s) comps
      | None => mret None
      end
  end.

(** The loop of [ensure_parent_dirs]: the path so far, and where the two
    walks are. *)
Fixpoint ensure_dirs (comps : list string) (uid gid : Z) (current_path : string)
    (current_delta_ino current_base_ino : Z) : Ov unit :=
  match comps with
  | [] => mret tt
  | c :: comps =>
      let current_path := slash_join current_path c in
      remove_whiteout current_path ;;
      found ← delta (AgentFS.lookup current_delta_ino c);
      match found with
      | Some stats =>
          if is_directory stats then
            bs ← base (base_lookup current_base_ino c);
            ensure_dirs comps uid gid current_path (st_ino stats)
              (match bs with Some s => st_ino s | None => current_base_ino end)
          else fs_err FsError.NotADirectory
      | None =>
          base_stats ← base (base_lookup current_base_ino c);
          let '(dir_uid, dir_gid, origin) :=
            match base_stats with
            | Some s => (st_uid s, st_gid s, Some (st_ino s))
            | None => (uid, gid, None)
            end in
          new_stats ← delta (AgentFS.mkdir current_delta_ino c 0x1ed dir_uid dir_gid);
          (match origin with
           | Some base_ino =>
               add_origin_mapping (st_ino new_stats) base_ino ;;
               promote_to_delta current_path (st_ino new_stats)
           | None => mret tt
           end) ;;
          ensure_dirs comps uid gid current_path (st_ino new_stats)
            (default current_base_ino origin)
      end
  end.

Definition ensure_parent_dirs (path : string) (uid gid : Z) : Ov unit :=
  let comps := components path in
  ensure_dirs (take (length comps - 1) comps) uid gid "" 1 1.

(** The first walk of [copy_up] ends where a component is missing. *)
Fixpoint walk_parents (ino : Z) (comps : list string) : Ov (option Z) :=
  match comps with
  | [] => mret (Some ino)
  | c :: comps =>
      found ← delta (AgentFS.lookup ino c);
      match found with
      | Some s => walk_parents (st_ino s) comps
      | None => mret None
      end
  end.

(** The copy of one node, by its type. *)
Definition copy_node (parent_ino : Z) (name : string) (base_ino : Z) (base_stats : Stats) :
    Ov Z :=
  if is_symlink base_stats then
    found ← base (base_readlink base_ino);
    target ← ok_or (Error.Fs FsError.NotFound) found;
    stats ← delta (AgentFS.symlink parent_ino name target (st_uid base_stats)
                     (st_gid base_stats));
    mret (st_ino stats)
  else if is_directory base_stats then
    stats ← delta (AgentFS.mkdir parent_ino name (Z.land (st_mode base_stats) 0xfff)
                     (st_uid base_stats) (st_gid base_stats));
    mret (st_ino stats)
  else
    base_file ← base (base_open base_ino O_RDONLY);
    content ← base (base_pread base_file 0 (as_u64 (st_size base_stats)));
    created ← delta (AgentFS.create_file chunk_size parent_ino name (st_mode base_stats)
                       (st_uid base_stats) (st_gid base_stats));
    delta (FileIO.pwrite created.2 0 content) ;;
    mret (st_ino created.1).

Definition copy_up (path : string) (base_ino : Z) : Ov Z :=
  let comps := components path in
  match last comps with
  | None => fs_err FsError.RootOperation
  | Some name =>
      let parents := take (length comps - 1) comps in
      found_parent ← walk_parents 1 parents;
      existing ←
        (match found_parent with
         | Some parent_ino => delta (AgentFS.lookup parent_ino name)
         | None => mret None
         end);
      match existing with
      | Some stats => mret (st_ino stats)
      | None =>
          found ← base (base_getattr base_ino);
          base_stats ← ok_or (Error.Fs FsError.NotFound) found;
          ensure_parent_dirs path (st_uid base_stats) (st_gid base_stats) ;;
          found ← walk_parents 1 parents;
          parent_ino ← ok_or (Error.Fs FsError.NotFound) found;
          delta_ino ← copy_node parent_ino name base_ino base_stats;
          add_origin_mapping delta_ino base_ino ;;
          mret delta_ino
      end
  end.

Definition copy_up_and_update_mapping (overlay_ino : Z) (info : InodeInfo) : Ov Z :=
  delta_ino ← copy_up (in_path info) (in_underlying info);
  writes (λ m, set_inode_map
    (<[overlay_ino := mkInfo Delta delta_ino (in_path info)]> (inode_map m)) m) ;;
  writes (λ m, set_reverse_map (<[(Delta, delta_ino) := overlay_ino]> (reverse_map m)) m) ;;
  mret delta_ino.

(** ** Reading *)

Definition with_ino (ino : Z) (s : Stats) : Stats :=
  mkStats ino (st_mode s) (st_nlink s) (st_uid s) (st_gid s) (st_size s) (st_atime s)
    (st_mtime s) (st_ctime s) (st_atime_nsec s) (st_mtime_nsec s) (st_ctime_nsec s)
    (st_rdev s).

(** The overlay inode of a node found in the delta: the one its origin in the
    base already has, if there is one. *)
Definition delta_found (path : string) (s : Stats) : Ov Stats :=
  let delta_ino := st_ino s in
  ino ← get_or_create_overlay_ino Delta delta_ino path;
  origin ← get_origin_ino delta_ino;
  match origin with
  | Some base_ino =>
      existing ← reads (λ m, reverse_map m !! (Base, base_ino));
      match existing with
      | Some existing_ino =>
          refresh_overlay_mapping existing_ino Delta delta_ino path ;;
          mret (with_ino existing_ino s)
      | None => mret (with_ino ino s)
      end
  | None => mret (with_ino ino s)
  end.

(** The directory of the base that corresponds to an overlay directory. *)
Definition base_dir (info : InodeInfo) : Ov (option Z) :=
  match in_layer info with
  | Base => mret (Some (in_underlying info))
  | Delta => walk_base 1 (components (in_path info))
  end.

(** [lookup] spells the walk out with a case for the root; its components are
    none, and the walk is the same. *)
Definition lookup (parent_ino : Z) (name : string) : Ov (option Stats) :=
  parent_info ← require_info parent_ino;
  path ← build_path parent_ino name;
  hidden ← is_whiteout path;
  if (hidden : bool) then mret None
  else
    delta_parent_ino ← resolve_delta_parent parent_info;
    in_delta ←
      (match delta_parent_ino with
       | Some ino => delta (AgentFS.lookup ino name)
       | None => mret None
       end);
    match in_delta with
    | Some s => found ← delta_found path s; mret (Some found)
    | None =>
        base_parent_ino ←
          (match in_layer parent_info with
           | Base => mret (Some (in_underlying parent_info))
           | Delta =>
               if String.eqb (in_path parent_info) "/" then mret (Some 1)
               else walk_base 1 (components (in_path parent_info))
           end);
        match base_parent_ino with
        | None => mret None
        | Some base_parent_ino =>
            in_base ← base (base_lookup base_parent_ino name);
            match in_base with
            | Some s =>
                ino ← get_or_create_overlay_ino Base (st_ino s) path;
                mret (Some (with_ino ino s))
            | None => mret None
            end
        end
    end.

Definition getattr (ino : Z) : Ov (option Stats) :=
  info ← get_inode_info ino;
  match info with
  | None => mret None
  | Some info =>
      hidden ← is_whiteout (in_path info);
      if (hidden : bool) then mret None
      else
        stats ←
          (match in_layer info with
           | Delta => delta (AgentFS.getattr (in_underlying info))
           | Base => base (base_getattr (in_underlying info))
           end);
        mret (with_ino ino <$> stats)
  end.

Definition readlink (ino : Z) : Ov (option string) :=
  info ← require_info ino;
  hidden ← is_whiteout (in_path info);
  if (hidden : bool) then mret None
  else
    match in_layer info with
    | Delta => delta (AgentFS.readlink (in_underlying info))
    | Base => base (base_readlink (in_underlying info))
    end.

(** The names that no whiteout hides. *)
Definition visible (set child_whiteouts : gset string) (dir name : string) : bool :=
  negb (any_whiteout set "" (components (join_path dir name))) &&
  negb (bool_decide (name ∈ child_whiteouts)).

Definition readdir (ino : Z) : Ov (option (list string)) :=
  info ← require_info ino;
  child_whiteouts ← get_child_whiteouts (in_path info);
  set ← reads whiteouts;
  let shown (l : list string) : list string :=
    filter (λ n, visible set child_whiteouts (in_path info) n = true) l in
  delta_entries ←
    (match in_layer info with
     | Delta => delta (PathApi.readdir (in_underlying info))
     | Base => mret None
     end);
  base_ino ← base_dir info;
  base_entries ←
    (match base_ino with
     | Some base_ino => base (base_readdir base_ino)
     | None => mret None
     end);
  let entries : gset string :=
    list_to_set (shown (default [] delta_entries)) ∪
    list_to_set (shown (default [] base_entries)) in
  mret (Some (merge_sort String.le (elements entries))).

(** The overlay inode of an entry of the base, and of the delta, in
    [readdir_plus]. *)
Fixpoint number_entries (number : string → Stats → Ov Z) (dir : string)
    (set child_whiteouts : gset string) (entries : list DirEntry)
    (acc : gmap string DirEntry) : Ov (gmap string DirEntry) :=
  match entries with
  | [] => mret acc
  | e :: entries =>
      if visible set child_whiteouts dir (de_name e) then
        ino ← number (join_path dir (de_name e)) (de_stats e);
        number_entries number dir set child_whiteouts entries
          (<[de_name e := mkDirEntry (de_name e) (with_ino ino (de_stats e))]> acc)
      else number_entries number dir set child_whiteouts entries acc
  end.

Definition number_base (path : string) (s : Stats) : Ov Z :=
  get_or_create_overlay_ino Base (st_ino s) path.

Definition number_delta (path : string) (s : Stats) : Ov Z :=
  origin ← get_origin_ino (st_ino s);
  match origin with
  | Some base_ino => get_or_create_overlay_ino Base base_ino path
  | None => get_or_create_overlay_ino Delta (st_ino s) path
  end.

Definition entry_le (a b : string * DirEntry) : Prop := String.le a.1 b.1.
#[export] Instance entry_le_dec : RelDecision entry_le.
Proof. intros a b. apply String.le_dec. Defined.

Definition readdir_plus (ino : Z) : Ov (option (list DirEntry)) :=
  info ← require_info ino;
  child_whiteouts ← get_child_whiteouts (in_path info);
  set ← reads whiteouts;
  base_ino ← base_dir info;
  base_entries ←
    (match base_ino with
     | Some base_ino => base (base_readdir_plus base_ino)
     | None => mret None
     end);
  entries_map ← number_entries number_base (in_path info) set child_whiteouts
                  (default [] base_entries) ∅;
  delta_entries ←
    (match in_layer info with
     | Delta => delta (PathApi.readdir_plus (in_underlying info))
     | Base => mret None
     end);
  entries_map ← number_entries number_delta (in_path info) set child_whiteouts
                  (default [] delta_entries) entries_map;
  mret (Some (merge_sort entry_le (map_to_list entries_map)).*2).

(** ** Writing *)

(** What [chmod], [chown], [utimens] and [open] begin with: the inode in the delta,
    after a copy if need be. *)
Definition writable (ino : Z) : Ov Z :=
  info ← require_info ino;
  hidden ← is_whiteout (in_path info);
  if (hidden : bool) then fs_err FsError.NotFound
  else
    match in_layer info with
    | Delta => mret (in_underlying info)
    | Base => copy_up_and_update_mapping ino info
    end.

Definition chmod (ino mode : Z) : Ov unit :=
  delta_ino ← writable ino; delta (AgentFS.chmod delta_ino mode).

Definition chown (ino : Z) (uid gid : option Z) : Ov unit :=
  delta_ino ← writable ino; delta (PathApi.chown delta_ino uid gid).

Definition utimens (ino : Z) (atime mtime : TimeChange) : Ov unit :=
  delta_ino ← writable ino; delta (AgentFS.utimens delta_ino atime mtime).

Definition open (ino flags : Z) : Ov AgentFSFile :=
  delta_ino ← writable ino; delta (AgentFS.open chunk_size delta_ino flags).

(** The directory of the delta in which an entry is made. *)
Definition delta_parent (parent_info : InodeInfo) : Ov Z :=
  found ← resolve_delta_parent parent_info;
  ok_or (Error.Fs FsError.NotFound) found.

Definition mkdir (parent_ino : Z) (name : string) (mode uid gid : Z) : Ov Stats :=
  parent_info ← require_info parent_ino;
  path ← build_path parent_ino name;
  existing ← lookup parent_ino name;
  match existing with
  | Some _ => fs_err FsError.AlreadyExists
  | None =>
      remove_whiteout path ;;
      ensure_parent_dirs path uid gid ;;
      delta_parent_ino ← delta_parent parent_info;
      stats ← delta (AgentFS.mkdir delta_parent_ino name mode uid gid);
      overlay_ino ← get_or_create_overlay_ino Delta (st_ino stats) path;
      mret (with_ino overlay_ino stats)
  end.

(** [create_file], [mknod] and [symlink] do not look whether the name exists. *)
Definition create_file (parent_ino : Z) (name : string) (mode uid gid : Z) :
    Ov (Stats * AgentFSFile) :=
  parent_info ← require_info parent_ino;
  path ← build_path parent_ino name;
  remove_whiteout path ;;
  ensure_parent_dirs path uid gid ;;
  delta_parent_ino ← delta_parent parent_info;
  created ← delta (AgentFS.create_file chunk_size delta_parent_ino name mode uid gid);
  overlay_ino ← get_or_create_overlay_ino Delta (st_ino created.1) path;
  mret (with_ino overlay_ino created.1, created.2).

Definition mknod (parent_ino : Z) (name : string) (mode rdev uid gid : Z) : Ov Stats :=
  parent_info ← require_info parent_ino;
  path ← build_path parent_ino name;
  remove_whiteout path ;;
  ensure_parent_dirs path uid gid ;;
  delta_parent_ino ← delta_parent parent_info;
  stats ← delta (AgentFS.mknod delta_parent_ino name mode rdev uid gid);
  overlay_ino ← get_or_create_overlay_ino Delta (st_ino stats) path;
  mret (with_ino overlay_ino stats).

Definition symlink (parent_ino : Z) (name target : string) (uid gid : Z) : Ov Stats :=
  parent_info ← require_info parent_ino;
  path ← build_path parent_ino name;
  remove_whiteout path ;;
  ensure_parent_dirs path uid gid ;;
  delta_parent_ino ← delta_parent parent_info;
  stats ← delta (AgentFS.symlink delta_parent_ino name target uid gid);
  overlay_ino ← get_or_create_overlay_ino Delta (st_ino stats) path;
  mret (with_ino overlay_ino stats).

(** Removing from the delta, where the entry may be missing. *)
Definition ignore_not_found (m : Ov unit) : Ov unit :=
  result ← try m;
  match result with
  | Ok _ => mret tt
  | Err (Error.Fs FsError.NotFound) => mret tt
  | Err e => throw e
  | Panic => panic
  end.

Definition remove_from_delta (parent_info : InodeInfo) (remove : Z → Fs unit) : Ov unit :=
  delta_parent_ino ← resolve_delta_parent parent_info;
  match delta_parent_ino with
  | Some dpi => ignore_not_found (delta (remove dpi))
  | None => mret tt
  end.

(** What is still visible comes from the base: it gets a whiteout. *)
Definition hide (parent_ino : Z) (name path : string) : Ov unit :=
  still ← lookup parent_ino name;
  match still with Some _ => create_whiteout path | None => mret tt end.

Definition unlink (parent_ino : Z) (name : string) : Ov unit :=
  parent_info ← require_info parent_ino;
  path ← build_path parent_ino name;
  found ← lookup parent_ino name;
  stats ← ok_or (Error.Fs FsError.NotFound) found;
  if is_directory stats then fs_err FsError.IsADirectory
  else
    remove_from_delta parent_info (λ dpi, AgentFS.unlink dpi name) ;;
    hide parent_ino name path.

Definition rmdir (parent_ino : Z) (name : string) : Ov unit :=
  parent_info ← require_info parent_ino;
  path ← build_path parent_ino name;
  found ← lookup parent_ino name;
  stats ← ok_or (Error.Fs FsError.NotFound) found;
  if negb (is_directory stats) then fs_err FsError.NotADirectory
  else
    dir_entries ← readdir (st_ino stats);
    match default [] dir_entries with
    | _ :: _ => fs_err FsError.NotEmpty
    | [] =>
        remove_from_delta parent_info (λ dpi, AgentFS.rmdir dpi name) ;;
        hide parent_ino name path
    end.

Definition link (ino newparent_ino : Z) (newname : string) : Ov Stats :=
  info ← require_info ino;
  parent_info ← require_info newparent_ino;
  new_path ← build_path newparent_ino newname;
  delta_ino ←
    (match in_layer info with
     | Delta => mret (in_underlying info)
     | Base => copy_up (in_path info) (in_underlying info)
     end);
  remove_whiteout new_path ;;
  ensure_parent_dirs new_path 0 0 ;;
  delta_parent_ino ← delta_parent parent_info;
  stats ← delta (AgentFS.link delta_ino delta_parent_ino newname);
  mret (with_ino ino stats).

Definition rename (oldparent_ino : Z) (oldname : string) (newparent_ino : Z)
    (newname : string) : Ov unit :=
  old_parent_info ← require_info oldparent_ino;
  new_parent_info ← require_info newparent_ino;
  old_path ← build_path oldparent_ino oldname;
  new_path ← build_path newparent_ino newname;
  found ← lookup oldparent_ino oldname;
  src_stats ← ok_or (Error.Fs FsError.NotFound) found;
  src_info ← require_info (st_ino src_stats);
  (match in_layer src_info with
   | Base => copy_up old_path (in_underlying src_info) ;; mret tt
   | Delta => mret tt
   end) ;;
  remove_whiteout new_path ;;
  ensure_parent_dirs new_path 0 0 ;;
  delta_src_parent_ino ← delta_parent old_parent_info;
  delta_dst_parent_ino ← delta_parent new_parent_info;
  delta (AgentFS.rename delta_src_parent_ino oldname delta_dst_parent_ino newname) ;;
  hide oldparent_ino oldname old_path.

Definition statfs : Ov FilesystemStats := delta AgentFS.statfs.

(** [forget] passes the call on: the delta ignores it, and the base only drops
    a descriptor. *)
Definition forget (ino nlookup : Z) : Ov unit := mret tt.
End Overlay.
