(* ===== verification/OverlayProps.v ===== *)
(** * OverlayProps: what is proved of the overlay

    The invariant of the overlay's maps and their agreement with the tables,
    under any failures of the engine, the clock and the base; what a whiteout
    hides; and the copy of a file from the base to the delta. *)
From S2P Require Import Prelude Types Engine Lru Schema FileIO FileIOSpec Path AgentFS.
From S2P Require Import AgentFSInv AgentFSSpec AgentFSOps AgentFSPath Overlay.

Section OverlayProps.
Context {E : SqlEngine} {Lru : LruCache (Z * string) Z} {B : BaseFS}.
Context (cs : Z) (O_RDONLY : Z).
Abbreviation W := (World ODb OMem).
Abbreviation Ov := (M ODb OMem).

(** ** The invariant *)

(** Inode numbers that were given out stay below [next_ino] and are mapped; the
    root is the root of the delta. *)
Record maps_ok (m : OMem) : Prop := {
  mo_root : inode_map m !! ROOT_INO = Some (mkInfo Delta 1 "/");
  mo_next : 1 < next_ino m;
  mo_fresh ino : is_Some (inode_map m !! ino) → ino < next_ino m;
  mo_reverse layer u ino : reverse_map m !! (layer, u) = Some ino →
    is_Some (inode_map m !! ino) ∧ (layer = Base → ino ≠ ROOT_INO);
  mo_path path ino : path_map m !! path = Some ino →
    is_Some (inode_map m !! ino)
}.

(** What is kept in memory is what is stored. *)
Definition stored (w : W) : Prop :=
  whiteouts (w_mem w) = dom (t_whiteout (w_db w)) ∧
  origin_map (w_mem w) = t_origin (w_db w).

Definition ov_inv (w : W) : Prop := maps_ok (w_mem w) ∧ stored w.

(** Inode numbers stay valid. *)
Definition handles_stay (w w' : W) : Prop :=
  ∀ ino, is_Some (inode_map (w_mem w) !! ino) → is_Some (inode_map (w_mem w') !! ino).

(** An operation that keeps the invariant and the inode numbers, whatever
    fails. *)
Class Sound {A} (m : Ov A) :=
  sound w : ov_inv w → ov_inv (m w).2 ∧ handles_stay w (m w).2.
#[global] Hint Mode Sound + ! : typeclass_instances.

(** Operations that touch neither the maps nor the overlay's tables. *)
Definition same_overlay (w w' : W) : Prop :=
  (∃ c, w_mem w' = set_cache c (w_mem w)) ∧ ∃ d, w_db w' = set_fs d (w_db w).

Lemma same_overlay_sound w w' : same_overlay w w' → ov_inv w → ov_inv w' ∧ handles_stay w w'.
Proof.
  intros [[c Hm] [d Hd]] [[?????] [? ?]]. unfold ov_inv, stored, handles_stay.
  rewrite Hm, Hd. by split_and!.
Qed.

Lemma same_overlay_refl w : same_overlay w w.
Proof. split; [exists (o_cache (w_mem w))|exists (o_fs (w_db w))]; by destruct w as [[] [] ? ? ?]. Qed.

Lemma unchanged_sound {A} (m : Ov A) : (∀ w, same_overlay w (m w).2) → Sound m.
Proof. intros Hm w. by apply same_overlay_sound. Qed.

Ltac unchanged := apply unchanged_sound; intros w; apply same_overlay_refl.

#[export] Instance ret_sound {A} (a : A) : Sound (mret a : Ov A).
Proof. unchanged. Qed.
#[export] Instance throw_sound {A} e : Sound (throw e : Ov A).
Proof. unchanged. Qed.
#[export] Instance fs_err_sound {A} e : Sound (fs_err e : Ov A).
Proof. unchanged. Qed.
#[export] Instance panic_sound {A} : Sound (panic : Ov A).
Proof. unchanged. Qed.
#[export] Instance ok_or_sound {A} e (o : option A) : Sound (ok_or e o : Ov A).
Proof. destruct o; apply _. Qed.
#[export] Instance reads_sound {A} (f : OMem → A) : Sound (reads f : Ov A).
Proof.
  apply unchanged_sound. intros w. destruct w as [? [] ? ? ?].
  split; [by eexists|]. exists (o_fs w_db). by destruct w_db.
Qed.
#[export] Instance engine_call_sound : Sound (engine_call : Ov unit).
Proof.
  apply unchanged_sound. intros [[] [] [|[e|] fs] clk t]; split; by eexists.
Qed.
#[export] Instance get_connection_sound : Sound (get_connection : Ov unit).
Proof. apply _. Qed.
#[export] Instance now_sound : Sound (now : Ov (Z * Z)).
Proof.
  apply unchanged_sound. intros w. unfold now.
  destruct (w_clock w (w_tick w)); destruct w as [[] [] ? ? ?]; split; by eexists.
Qed.

#[export] Instance bind_sound {A A'} (m : Ov A) (f : A → Ov A') :
  Sound m → (∀ a, Sound (f a)) → Sound (m ≫= f).
Proof.
  intros Hm Hf w Hw. unfold mbind, M_bind. destruct (Hm w Hw) as [Hw1 Hh1].
  destruct (m w) as [[a|e|] w1]; [|done..]. destruct (Hf a w1 Hw1) as [Hw2 Hh2].
  split; [done|]. intros ino Hino. by apply Hh2, Hh1.
Qed.
#[export] Instance try_sound {A} (m : Ov A) : Sound m → Sound (try m).
Proof. intros Hm w Hw. unfold try. specialize (Hm w Hw). by destruct (m w). Qed.
#[export] Instance delta_sound {A} (op : M Db (lru (Z * string) Z) A) :
  Sound (Overlay.delta op).
Proof.
  apply unchanged_sound. intros w. unfold Overlay.delta. destruct (op _) as [r w'].
  split; by eexists.
Qed.
#[export] Instance query_sound {A} (f : ODb → A) : Sound (query f : Ov A).
Proof. unfold query. apply bind_sound; [apply _|intros _]. unchanged. Qed.
#[export] Instance base_sound {A} (r : Error.t + A) : Sound (base r : Ov A).
Proof. unfold base. apply bind_sound; [apply _|intros _; destruct r; apply _]. Qed.

#[local] Hint Extern 0 (Sound (match ?x with _ => _ end)) =>
  destruct x : typeclass_instances.

(** ** The state the overlay adds *)

(** A statement followed by the same change in memory. *)
Lemma store_sound (f : ODb → ODb) (g : OMem → OMem) :
  (∀ w, ov_inv w →
     ov_inv (set_mem (g (w_mem w)) (set_db (f (w_db w)) w)) ∧
     ∀ ino, is_Some (inode_map (w_mem w) !! ino) → is_Some (inode_map (g (w_mem w)) !! ino)) →
  Sound (update f ;; writes g : Ov unit).
Proof.
  intros Hfg w Hw. pose proof (Hfg w Hw) as [H1 H2].
  destruct w as [d m [|[e|] fs] clk t]; [done| |done].
  apply (sound (m := engine_call : Ov unit) (mkWorld d m (Some e :: fs) clk t)). done.
Qed.

#[export] Instance create_whiteout_sound path : Sound (create_whiteout path).
Proof.
  unfold create_whiteout. apply bind_sound; [apply _|intros _].
  apply bind_sound; [apply _|intros t]. apply store_sound.
  intros w [[] [Hw Ho]]. split; [|done]. split; [done|]. split; [|done]. cbn.
  rewrite dom_insert_L. by rewrite Hw.
Qed.

#[export] Instance remove_whiteout_sound path : Sound (remove_whiteout path).
Proof.
  unfold remove_whiteout. apply bind_sound; [apply _|intros b].
  destruct b; cbn [negb]; [|apply _]. apply bind_sound; [apply _|intros _].
  apply store_sound. intros w [[] [Hw Ho]]. split; [|done]. split; [done|]. split; [|done].
  cbn. rewrite dom_delete_L. by rewrite Hw.
Qed.

#[export] Instance add_origin_mapping_sound d b : Sound (add_origin_mapping d b).
Proof.
  unfold add_origin_mapping. apply bind_sound; [apply _|intros _]. apply store_sound.
  intros w [[] [Hw Ho]]. split; [|done]. split; [done|]. split; [done|]. cbn. by rewrite Ho.
Qed.

(** ** The maps *)

(** An inode that keeps its number gets a new mapping. *)
Lemma remap_ok m ino layer u path r :
  maps_ok m → ino ≠ ROOT_INO → is_Some (inode_map m !! ino) →
  (∀ l u' i, r !! (l, u') = Some i → reverse_map m !! (l, u') = Some i ∨ i = ino) →
  maps_ok (set_reverse_map r (set_inode_map (<[ino := mkInfo layer u path]> (inode_map m)) m)).
Proof.
  intros [Hroot Hnext Hfresh Hrev Hpath] Hne Hino Hr.
  assert (Hkeep : ∀ i, is_Some (inode_map m !! i) →
    is_Some (<[ino := mkInfo layer u path]> (inode_map m) !! i)).
  { intros i Hi. apply lookup_insert_is_Some'. by right. }
  split; cbn.
  - by rewrite lookup_insert_ne.
  - done.
  - intros i Hi. apply lookup_insert_is_Some' in Hi as [ -> |Hi]; by apply Hfresh.
  - intros l u' i Hi. destruct (Hr l u' i Hi) as [Hold| ->].
    + destruct (Hrev _ _ _ Hold). by split; [apply Hkeep|].
    + split; [by apply Hkeep|done].
  - intros p i Hi. apply Hkeep. by eapply Hpath.
Qed.

Lemma path_ok m x :
  maps_ok m → (∀ p i, x !! p = Some i → path_map m !! p = Some i ∨ is_Some (inode_map m !! i)) →
  maps_ok (set_path_map x m).
Proof.
  intros [???? Hpath] Hx. split; try done. cbn. intros p i [Hi|Hi]%Hx; [by eapply Hpath|done].
Qed.

(** Changing the maps alone. *)
Lemma writes_sound (f : OMem → OMem) (m m' : OMem) d fs clk t :
  m' = f m → maps_ok m' → whiteouts m' = whiteouts m → origin_map m' = origin_map m →
  stored (mkWorld d m fs clk t) → ov_inv (mkWorld d m' fs clk t).
Proof. intros _ Hok Hw Ho [H1 H2]. split; [done|]. split; cbn in *; congruence. Qed.

#[export] Instance get_or_create_sound layer u path :
  Sound (get_or_create_overlay_ino layer u path).
Proof.
  intros w [Hok Hst]. destruct w as [d m fs clk t].
  unfold get_or_create_overlay_ino, alloc_ino, reads, writes. run.
  destruct (reverse_map m !! (layer, u)) as [ino|] eqn:Hr.
  { destruct m. split; [by split|by intros ?]. }
  cbn [w_mem] in *. destruct Hok as [Hroot Hnext Hfresh Hrev Hpath].
  set (ino := next_ino m) in *.
  assert (Hnew : inode_map m !! ino = None).
  { apply eq_None_not_Some. intros Hi%Hfresh. lia. }
  assert (Hkeep : ∀ i, is_Some (inode_map m !! i) →
    is_Some (<[ino := mkInfo layer u path]> (inode_map m) !! i)).
  { intros i Hi. apply lookup_insert_is_Some'. by right. }
  assert (Hself : is_Some (<[ino := mkInfo layer u path]> (inode_map m) !! ino))
    by (rewrite lookup_insert_eq; by eexists).
  split; [|done]. split; [|done]. split; cbn.
  - rewrite lookup_insert_ne; [done|]. unfold ino, ROOT_INO. lia.
  - unfold ino. lia.
  - intros i Hi. apply lookup_insert_is_Some' in Hi as [<-|Hi]; [unfold ino; lia|]. apply Hfresh in Hi. unfold ino. lia.
  - intros l u' i Hi. apply lookup_insert_Some in Hi as [[_ <-]|[_ Hi]].
    + split; [done|]. unfold ino, ROOT_INO. lia.
    + destruct (Hrev _ _ _ Hi). by split; [apply Hkeep|].
  - intros p i Hi. apply lookup_insert_Some in Hi as [[_ <-]|[_ Hi]]; [done|].
    apply Hkeep. by eapply Hpath.
Qed.

(** The inode that is refreshed is never the root. *)
Lemma refresh_sound ino layer u path w :
  ov_inv w → ino ≠ ROOT_INO →
  let w' := (refresh_overlay_mapping ino layer u path w).2 in
  ov_inv w' ∧ handles_stay w w'.
Proof.
  intros [Hok Hst] Hne. destruct w as [d m fs clk t]. cbn zeta.
  unfold refresh_overlay_mapping, get_inode_info, reads, writes. run.
  destruct (inode_map m !! ino) as [info|] eqn:Hino.
  2:{ destruct m. split; [by split|by intros ?]. }
  cbn [w_mem] in *. split.
  - split; [|done]. cbn [w_mem]. apply path_ok.
    + apply (remap_ok m ino layer u path); [done..|by eexists|].
      intros l u' i Hi. apply lookup_insert_Some in Hi as [[_ <-]|[_ Hi]]; [by right|by left].
    + intros p i Hi. apply lookup_insert_Some in Hi as [[_ <-]|[_ Hi]].
      * right. cbn. rewrite lookup_insert_eq. by eexists.
      * left. cbn in *. case_bool_decide; [|done]. by apply lookup_delete_Some in Hi as [_ ?].
  - intros i Hi. cbn in *. apply lookup_insert_is_Some'. by right.
Qed.

(** Reading the maps, with what was read. *)
Lemma reads_bind {A A'} (f : OMem → A) (k : A → Ov A') w :
  (reads f ≫= k) w = k (f (w_mem w)) w.
Proof. by destruct w as [? [] ? ? ?]. Qed.

Lemma handles_trans w1 w2 w3 : handles_stay w1 w2 → handles_stay w2 w3 → handles_stay w1 w3.
Proof. intros H1 H2 ino Hino. by apply H2, H1. Qed.

#[export] Instance delta_found_sound path s : Sound (delta_found path s).
Proof.
  unfold delta_found. apply bind_sound; [apply _|intros ino].
  apply bind_sound; [apply _|intros [b|]]; [|apply _].
  intros w Hw. rewrite reads_bind.
  destruct (reverse_map (w_mem w) !! (Base, b)) as [e|] eqn:He; [|by apply ret_sound].
  assert (Hne : e ≠ ROOT_INO) by by apply (mo_reverse _ (proj1 Hw) _ _ _ He).
  destruct (refresh_sound e Delta (st_ino s) path w Hw Hne) as [Hw1 Hh1].
  unfold mbind, M_bind. destruct (refresh_overlay_mapping _ _ _ _ w) as [[a|e'|] w1]; done.
Qed.

#[export] Instance promote_sound path d : Sound (promote_to_delta path d).
Proof.
  intros w Hw. unfold promote_to_delta. rewrite reads_bind.
  destruct (path_map (w_mem w) !! path) as [ino|]; [|by apply ret_sound].
  unfold get_inode_info. rewrite reads_bind.
  destruct (inode_map (w_mem w) !! ino) as [[[|] u p]|] eqn:Hino; [by apply ret_sound| |
    by apply ret_sound].
  destruct w as [db m fs clk t], Hw as [Hok Hst]. cbn [w_mem in_layer] in *.
  unfold writes. run. assert (Hne : ino ≠ ROOT_INO).
  { intros ->. rewrite (mo_root _ Hok) in Hino. done. }
  split; [split; [|done]; cbn [w_mem]|].
  - apply (remap_ok m ino Delta d p); [done..|by eexists|].
    intros l u' i Hi. apply lookup_insert_Some in Hi as [[_ <-]|[_ Hi]]; [by right|left].
    by apply lookup_delete_Some in Hi as [_ ?].
  - intros i Hi. cbn in *. apply lookup_insert_is_Some'. by right.
Qed.

(** ** Walking and copying *)

#[export] Instance walk_delta_sound ino comps : Sound (walk_delta ino comps).
Proof. revert ino. induction comps; intros ino; cbn [walk_delta]; apply _. Qed.
#[export] Instance walk_base_sound ino comps : Sound (walk_base ino comps).
Proof. revert ino. induction comps; intros ino; cbn [walk_base]; apply _. Qed.
#[export] Instance walk_parents_sound ino comps : Sound (walk_parents ino comps).
Proof. revert ino. induction comps; intros ino; cbn [walk_parents]; apply _. Qed.
#[export] Instance ensure_dirs_sound comps uid gid path d b :
  Sound (ensure_dirs comps uid gid path d b).
Proof.
  revert path d b. induction comps as [|c comps IH]; intros path d b; cbn [ensure_dirs];
    [apply _|]. apply bind_sound; [apply _|intros _].
  apply bind_sound; [apply _|intros [s|]].
  - destruct (is_directory s); apply _.
  - apply bind_sound; [apply _|intros base_stats].
    destruct base_stats as [s|]; cbn beta iota zeta; apply _.
Qed.
#[export] Instance ensure_parent_dirs_sound path uid gid :
  Sound (ensure_parent_dirs path uid gid).
Proof. apply ensure_dirs_sound. Qed.
#[export] Instance copy_node_sound p n b s : Sound (copy_node cs O_RDONLY p n b s).
Proof.
  unfold copy_node. destruct (is_symlink s); [apply _|]. destruct (is_directory s); apply _.
Qed.
#[export] Instance copy_up_sound path b : Sound (copy_up cs O_RDONLY path b).
Proof. unfold copy_up. cbv zeta. apply _. Qed.
#[export] Instance require_info_sound ino : Sound (require_info ino).
Proof. unfold require_info, get_inode_info. apply _. Qed.
#[export] Instance build_path_sound p n : Sound (build_path p n).
Proof. unfold build_path. apply _. Qed.
#[export] Instance is_whiteout_sound path : Sound (is_whiteout path).
Proof. unfold is_whiteout. apply _. Qed.
#[export] Instance resolve_delta_parent_sound info : Sound (resolve_delta_parent info).
Proof. unfold resolve_delta_parent. apply _. Qed.
#[export] Instance base_dir_sound info : Sound (base_dir info).
Proof. unfold base_dir. apply _. Qed.

(** Copying up an inode that is mapped to the base. *)
Lemma copy_mapping_sound ino info w :
  ov_inv w → inode_map (w_mem w) !! ino = Some info → in_layer info = Base →
  let w' := (copy_up_and_update_mapping cs O_RDONLY ino info w).2 in
  ov_inv w' ∧ handles_stay w w'.
Proof.
  intros Hw Hino Hb. cbn zeta. unfold copy_up_and_update_mapping.
  pose proof (sound (m := copy_up cs O_RDONLY (in_path info) (in_underlying info)) w Hw)
    as [Hw1 Hh1].
  unfold mbind, M_bind.
  destruct (copy_up _ _ _ _ w) as [[d|e|] w1]; [|done..]. cbn [snd] in *.
  assert (Hne : ino ≠ ROOT_INO).
  { intros ->. rewrite (mo_root _ (proj1 Hw)) in Hino. injection Hino as <-. done. }
  destruct w1 as [db m fs clk t], Hw1 as [Hok Hst]. cbn [w_mem] in *. unfold writes. run.
  assert (Hs : is_Some (inode_map m !! ino)) by (apply Hh1; by eexists).
  split; [split; [|done]; cbn [w_mem]|].
  - apply (remap_ok m ino Delta d (in_path info)); [done..|].
    intros l u' i Hi. apply lookup_insert_Some in Hi as [[_ <-]|[_ Hi]]; [by right|by left].
  - intros i Hi%Hh1. cbn in *. apply lookup_insert_is_Some'. by right.
Qed.

#[export] Instance writable_sound ino : Sound (writable cs O_RDONLY ino).
Proof.
  intros w Hw. unfold writable, require_info, get_inode_info.
  assert (Hstep : ∀ k : InodeInfo → Ov Z,
    ((info ← (info ← reads (λ m, inode_map m !! ino); ok_or (Error.Fs FsError.NotFound) info);
      k info) w) = match inode_map (w_mem w) !! ino with
                   | Some info => k info w
                   | None => (Err (Error.Fs FsError.NotFound), w) end).
  { intros k. destruct w as [? m ? ? ?]. unfold reads. run.
    destruct m as [? im ? ? ? ? ?]. cbn. by destruct (im !! ino). }
  rewrite Hstep. destruct (inode_map (w_mem w) !! ino) as [info|] eqn:Hino.
  2:{ split; [done|by intros ?]. }
  unfold is_whiteout. rewrite reads_bind. destruct (any_whiteout _ _ _);
    [by apply fs_err_sound|].
  destruct (in_layer info) eqn:Hl; [by apply ret_sound|].
  by apply copy_mapping_sound.
Qed.

(** ** The operations *)

#[export] Instance lookup_sound p n : Sound (lookup p n).
Proof.
  unfold lookup. apply bind_sound; [apply _|intros info].
  apply bind_sound; [apply _|intros path]. apply bind_sound; [apply _|intros []]; [apply _|].
  apply bind_sound; [apply _|intros dp]. apply bind_sound; [apply _|intros [s|]]; [apply _|].
  apply bind_sound; [|intros [b|]]; [|apply _..].
  destruct (in_layer info); [|apply _]. destruct (String.eqb _ _); apply _.
Qed.
#[export] Instance getattr_sound ino : Sound (getattr ino).
Proof.
  unfold getattr, get_inode_info. apply bind_sound; [apply _|intros [info|]]; [|apply _].
  apply bind_sound; [apply _|intros []]; apply _.
Qed.
#[export] Instance readlink_sound ino : Sound (readlink ino).
Proof.
  unfold readlink. apply bind_sound; [apply _|intros info].
  apply bind_sound; [apply _|intros []]; apply _.
Qed.
#[export] Instance readdir_sound ino : Sound (readdir ino).
Proof. unfold readdir, get_child_whiteouts. cbv zeta. apply _. Qed.
#[export] Instance number_entries_sound number dir set cw entries acc :
  (∀ path s, Sound (number path s)) →
  Sound (number_entries number dir set cw entries acc).
Proof.
  intros Hn. revert acc. induction entries as [|e entries IH]; intros acc;
    cbn [number_entries]; [apply _|]. destruct (visible _ _ _ _); apply _.
Qed.
#[export] Instance number_base_sound path s : Sound (number_base path s).
Proof. unfold number_base. apply _. Qed.
#[export] Instance number_delta_sound path s : Sound (number_delta path s).
Proof. unfold number_delta, get_origin_ino. apply _. Qed.
#[export] Instance readdir_plus_sound ino : Sound (readdir_plus ino).
Proof. unfold readdir_plus, get_child_whiteouts. apply _. Qed.
#[export] Instance delta_parent_sound info : Sound (delta_parent info).
Proof. unfold delta_parent. apply _. Qed.
#[export] Instance ignore_not_found_sound m : Sound m → Sound (ignore_not_found m).
Proof.
  intros Hm. unfold ignore_not_found. apply bind_sound; [apply _|intros [u|e|]]; [apply _| |
    apply _]. destruct e; apply _.
Qed.
#[export] Instance remove_from_delta_sound info remove : Sound (remove_from_delta info remove).
Proof. unfold remove_from_delta. apply _. Qed.
#[export] Instance hide_sound p n path : Sound (hide p n path).
Proof. unfold hide. apply _. Qed.
#[export] Instance mkdir_sound p n mode uid gid : Sound (Overlay.mkdir p n mode uid gid).
Proof. unfold Overlay.mkdir. apply _. Qed.
#[export] Instance create_file_sound p n mode uid gid :
  Sound (Overlay.create_file cs p n mode uid gid).
Proof. unfold Overlay.create_file. apply _. Qed.
#[export] Instance mknod_sound p n mode rdev uid gid :
  Sound (Overlay.mknod p n mode rdev uid gid).
Proof. unfold Overlay.mknod. apply _. Qed.
#[export] Instance symlink_sound p n target uid gid : Sound (Overlay.symlink p n target uid gid).
Proof. unfold Overlay.symlink. apply _. Qed.
#[export] Instance unlink_sound p n : Sound (Overlay.unlink p n).
Proof.
  unfold Overlay.unlink. do 4 (apply bind_sound; [apply _|intros ?]).
  destruct (is_directory _); apply _.
Qed.
#[export] Instance rmdir_sound p n : Sound (Overlay.rmdir p n).
Proof.
  unfold Overlay.rmdir. do 4 (apply bind_sound; [apply _|intros ?]).
  destruct (is_directory _); cbn [negb]; [|apply _]. apply bind_sound; [apply _|intros l].
  destruct (default [] l); apply _.
Qed.
#[export] Instance link_sound ino p n : Sound (Overlay.link cs O_RDONLY ino p n).
Proof. unfold Overlay.link. apply _. Qed.
#[export] Instance rename_sound p n p' n' : Sound (Overlay.rename cs O_RDONLY p n p' n').
Proof. unfold Overlay.rename. apply _. Qed.
#[export] Instance chmod_sound ino mode : Sound (Overlay.chmod cs O_RDONLY ino mode).
Proof. unfold Overlay.chmod. apply _. Qed.
#[export] Instance chown_sound ino uid gid : Sound (Overlay.chown cs O_RDONLY ino uid gid).
Proof. unfold Overlay.chown. apply _. Qed.
#[export] Instance utimens_sound ino a m : Sound (Overlay.utimens cs O_RDONLY ino a m).
Proof. unfold Overlay.utimens. apply _. Qed.
#[export] Instance open_sound ino flags : Sound (Overlay.open cs O_RDONLY ino flags).
Proof. unfold Overlay.open. apply _. Qed.

(** A call of a client. *)
Inductive ov_op :=
| VLookup (p : Z) (n : string) | VGetattr (ino : Z) | VReadlink (ino : Z)
| VReaddir (ino : Z) | VReaddirPlus (ino : Z) | VChmod (ino mode : Z)
| VChown (ino : Z) (uid gid : option Z) | VUtimens (ino : Z) (a m : TimeChange)
| VOpen (ino flags : Z) | VMkdir (p : Z) (n : string) (mode uid gid : Z)
| VCreate (p : Z) (n : string) (mode uid gid : Z)
| VMknod (p : Z) (n : string) (mode rdev uid gid : Z)
| VSymlink (p : Z) (n target : string) (uid gid : Z)
| VUnlink (p : Z) (n : string) | VRmdir (p : Z) (n : string)
| VLink (ino p : Z) (n : string) | VRename (p : Z) (n : string) (p' : Z) (n' : string).

Definition call (o : ov_op) (w : W) : W :=
  match o with
  | VLookup p n => (lookup p n w).2
  | VGetattr ino => (getattr ino w).2
  | VReadlink ino => (readlink ino w).2
  | VReaddir ino => (readdir ino w).2
  | VReaddirPlus ino => (readdir_plus ino w).2
  | VChmod ino mode => (Overlay.chmod cs O_RDONLY ino mode w).2
  | VChown ino uid gid => (Overlay.chown cs O_RDONLY ino uid gid w).2
  | VUtimens ino a m => (Overlay.utimens cs O_RDONLY ino a m w).2
  | VOpen ino flags => (Overlay.open cs O_RDONLY ino flags w).2
  | VMkdir p n mode uid gid => (Overlay.mkdir p n mode uid gid w).2
  | VCreate p n mode uid gid => (Overlay.create_file cs p n mode uid gid w).2
  | VMknod p n mode rdev uid gid => (Overlay.mknod p n mode rdev uid gid w).2
  | VSymlink p n target uid gid => (Overlay.symlink p n target uid gid w).2
  | VUnlink p n => (Overlay.unlink p n w).2
  | VRmdir p n => (Overlay.rmdir p n w).2
  | VLink ino p n => (Overlay.link cs O_RDONLY ino p n w).2
  | VRename p n p' n' => (Overlay.rename cs O_RDONLY p n p' n' w).2
  end.

Lemma call_sound o w : ov_inv w → ov_inv (call o w) ∧ handles_stay w (call o w).
Proof. intros Hw. destruct o; cbn [call]; by apply sound. Qed.

Definition calls (ops : list ov_op) (w : W) : W := foldl (λ w o, call o w) w ops.

Lemma calls_sound ops w : ov_inv w → ov_inv (calls ops w) ∧ handles_stay w (calls ops w).
Proof.
  revert w. induction ops as [|o ops IH]; intros w Hw; [split; [done|by intros ?]|].
  destruct (call_sound o w Hw) as [Hw1 Hh1]. destruct (IH _ Hw1) as [Hw2 Hh2].
  split; [done|by eapply handles_trans].
Qed.

Lemma new_maps c : maps_ok (new c).
Proof.
  split; unfold new; cbn [inode_map reverse_map path_map next_ino].
  - apply lookup_singleton_eq.
  - done.
  - intros ino [x [<- _]%lookup_singleton_Some]. done.
  - intros l u ino [[= <- <-] <-]%lookup_singleton_Some. split; [|done].
    rewrite lookup_singleton_eq. by eexists.
  - intros p ino [<- <-]%lookup_singleton_Some. rewrite lookup_singleton_eq. by eexists.
Qed.

Lemma load_run o c clk t :
  load (mkWorld o (new c) [] clk t) =
    (Ok tt, mkWorld o (set_origin_map (t_origin o) (set_whiteouts (dom (t_whiteout o)) (new c)))
              [] clk t).
Proof.
  unfold load, load_whiteouts, load_origins, writes. run.
  do 2 f_equal. unfold set_whiteouts, set_origin_map, new. cbn.
  by rewrite union_empty_l_L, map_union_empty.
Qed.

(** C13: the overlay's own state survives.  Under any sequence of operations and
    any failures of the engine, the clock and the base: every inode number that
    was handed out stays mapped and below the next one, the root stays the
    root; and the deleted paths and copy origins in memory are those
    in the tables, so that a new handle that loads the tables continues with
    the same ones. *)
Theorem overlay_state ops (w : W) cache :
  ov_inv w →
  let w' := calls ops w in
  ov_inv w' ∧ handles_stay w w' ∧
  ∃ w'', load (set_mem (new cache) (set_faults [] w')) = (Ok tt, w'') ∧
    ov_inv w'' ∧ whiteouts (w_mem w'') = whiteouts (w_mem w') ∧
    origin_map (w_mem w'') = origin_map (w_mem w').
Proof.
  intros Hw w'. destruct (calls_sound ops w Hw) as [Hw' Hh']. fold w' in Hw', Hh'.
  split; [done|]. split; [done|]. destruct w' as [d m fs clk t], Hw' as [_ [Hst1 Hst2]].
  cbn [w_db w_mem] in *. eexists. split; [apply load_run|]. split; [|by cbn].
  split; [|done]. destruct (new_maps cache). by split.
Qed.

(** ** Lookups that change nothing but the dentry cache *)

Definition recache (c : lru (Z * string) Z) (w : W) : W :=
  set_mem (set_cache c (w_mem w)) w.

(** Without failures, [m] has one outcome whatever is cached, and leaves all but
    the cache as it is. *)
Class Peeks {A} (m : Ov A) :=
  peeks w : faultless w → ∃ r, ∀ c, ∃ c', m (recache c w) = (r, recache c' w).
#[local] Hint Mode Peeks + ! : typeclass_instances.

Lemma recache_self (w : W) : recache (o_cache (w_mem w)) w = w.
Proof. by destruct w as [? [] ? ? ?]. Qed.

Ltac peeking := intros w Hf; destruct w as [? [] ? ? ?]; unfold faultless in Hf;
  cbn [w_faults] in Hf; subst; eexists; intros c; by exists c.

#[local] Instance ret_peeks {A} (a : A) : Peeks (mret a : Ov A).
Proof. peeking. Qed.
#[local] Instance throw_peeks {A} e : Peeks (throw e : Ov A).
Proof. peeking. Qed.
#[local] Instance ok_or_peeks {A} e (o : option A) : Peeks (ok_or e o : Ov A).
Proof. destruct o; apply _. Qed.
#[local] Instance engine_call_peeks : Peeks (engine_call : Ov unit).
Proof. peeking. Qed.
Lemma reads_peeks {A} (f : OMem → A) : (∀ m c, f (set_cache c m) = f m) → Peeks (reads f : Ov A).
Proof.
  intros Hf w _. destruct w as [d m fs clk t]. exists (Ok (f m)). intros c. exists c.
  unfold reads, with_mem, recache. cbn. by rewrite Hf.
Qed.
#[local] Instance bind_peeks {A A'} (m : Ov A) (f : A → Ov A') :
  Peeks m → (∀ a, Peeks (f a)) → Peeks (m ≫= f).
Proof.
  intros Hm Hf w Hw. destruct (Hm w Hw) as [r Hr].
  destruct r as [a|e|].
  - destruct (Hf a w Hw) as [r' Hr']. exists r'. intros c. destruct (Hr c) as [c1 H1].
    destruct (Hr' c1) as [c2 H2]. exists c2. unfold mbind, M_bind. by rewrite H1.
  - exists (Err e). intros c. destruct (Hr c) as [c1 H1]. exists c1.
    unfold mbind, M_bind. by rewrite H1.
  - exists Panic. intros c. destruct (Hr c) as [c1 H1]. exists c1.
    unfold mbind, M_bind. by rewrite H1.
Qed.
#[local] Instance base_peeks {A} (r : Error.t + A) : Peeks (base r : Ov A).
Proof. unfold base. destruct r; apply _. Qed.
#[local] Hint Extern 0 (Peeks (match ?x with _ => _ end)) =>
  destruct x : typeclass_instances.
#[local] Hint Extern 0 (Peeks (reads _)) =>
  apply reads_peeks; by intros [] : typeclass_instances.

Lemma delta_peeks {A} (op : M Db (lru (Z * string) Z) A) :
  (∀ d clk t, ∃ r, ∀ c, ∃ c', op (mkWorld d c [] clk t) = (r, mkWorld d c' [] clk t)) →
  Peeks (Overlay.delta op).
Proof.
  intros Hop w Hf. destruct w as [o m fs clk t]. unfold faultless in Hf.
  cbn [w_faults] in Hf. subst fs. destruct (Hop (o_fs o) clk t) as [r Hr]. exists r.
  intros c. destruct (Hr c) as [c' Hc]. exists c'.
  unfold Overlay.delta, recache. cbn. rewrite Hc. destruct o, m. done.
Qed.

#[local] Instance lookup_peeks ino n : Peeks (Overlay.delta (AgentFS.lookup ino n)).
Proof.
  apply delta_peeks. intros d clk t. unfold AgentFS.lookup.
  destruct (_ <? _); [eexists; intros c; by exists c|].
  unfold lookup_child, one_row, getattr_with_conn, cache_insert.
  destruct (String.eqb n ".."); run.
  - destruct (ino =? ROOT_INO); eexists; intros c; by exists c.
  - destruct (1 <? len (sel_dentry ino n d)); [eexists; intros c; by exists c|].
    destruct (last (sel_dentry ino n d)) as [child|]; [|eexists; intros c; by exists c].
    destruct (sel_inode child d); eexists; intros c; eexists; done.
Qed.
#[local] Instance walk_delta_peeks ino comps : Peeks (walk_delta ino comps).
Proof. revert ino. induction comps; intros ino; cbn [walk_delta]; apply _. Qed.
#[local] Instance walk_base_peeks ino comps : Peeks (walk_base ino comps).
Proof. revert ino. induction comps; intros ino; cbn [walk_base]; apply _. Qed.
#[local] Instance resolve_delta_parent_peeks info : Peeks (resolve_delta_parent info).
Proof. unfold resolve_delta_parent. apply _. Qed.
#[local] Instance require_info_peeks ino : Peeks (require_info ino).
Proof. unfold require_info, get_inode_info. apply _. Qed.
#[local] Instance build_path_peeks p n : Peeks (build_path p n).
Proof. unfold build_path. apply _. Qed.
#[local] Instance is_whiteout_peeks path : Peeks (is_whiteout path).
Proof. unfold is_whiteout. apply _. Qed.

(** An operation that finds nothing finds nothing again. *)
Definition repeats {A} (m : Ov (option A)) : Prop :=
  ∀ w c0 w', faultless w → m (recache c0 w) = (Ok None, w') →
    (∃ c', w' = recache c' w) ∧ ∀ c, ∃ c', m (recache c w) = (Ok None, recache c' w).

Lemma peeks_repeats {A} (m : Ov (option A)) : Peeks m → repeats m.
Proof.
  intros Hm w c0 w' Hw Hrun. destruct (Hm w Hw) as [r Hr].
  destruct (Hr c0) as [c1 H1]. rewrite H1 in Hrun. injection Hrun as -> <-.
  split; [by eexists|done].
Qed.

Lemma bind_repeats {A A'} (m : Ov A) (f : A → Ov (option A')) :
  Peeks m → (∀ a, repeats (f a)) → repeats (m ≫= f).
Proof.
  intros Hm Hf w c0 w' Hw Hrun. destruct (Hm w Hw) as [r Hr].
  unfold mbind, M_bind in *. destruct (Hr c0) as [c1 H1]. rewrite H1 in Hrun.
  destruct r as [a|e|]; [|done..]. destruct (Hf a w c1 w' Hw Hrun) as [Hw' Hagain].
  split; [done|]. intros c. destruct (Hr c) as [c2 H2]. destruct (Hagain c2) as [c3 H3].
  exists c3. by rewrite H2.
Qed.

(** What ends in [Some] does not matter here. *)
Lemma some_repeats {A A'} (m : Ov A) (g : A → A') : repeats (a ← m; mret (Some (g a))).
Proof.
  intros w c0 w' _. unfold mbind, M_bind. by destruct (m _) as [[a|e|] w1].
Qed.

Lemma lookup_repeats p n : repeats (lookup p n).
Proof.
  unfold lookup. apply bind_repeats; [apply _|intros info].
  apply bind_repeats; [apply _|intros path]. apply bind_repeats; [apply _|intros []];
    [apply peeks_repeats; apply _|].
  apply bind_repeats; [apply _|intros dp]. apply bind_repeats; [apply _|intros [s|]].
  { apply (some_repeats (delta_found path s) id). }
  apply bind_repeats.
  { destruct (in_layer info); [|apply _]. destruct (String.eqb _ _); apply _. }
  intros [b|]; [|apply peeks_repeats; apply _].
  apply bind_repeats; [apply _|intros [s|]]; [|apply peeks_repeats; apply _].
  apply (some_repeats (get_or_create_overlay_ino Base (st_ino s) path) (λ i, with_ino i s)).
Qed.

(** ** Whiteouts *)

(** The absolute path of a list of components. *)
Definition abs_path (comps : list string) : string := foldl slash_join "" comps.

Lemma any_whiteout_spec set comps cur :
  any_whiteout set cur comps = true ↔
  ∃ pre, pre ≠ [] ∧ pre `prefix_of` comps ∧ foldl slash_join cur pre ∈ set.
Proof.
  revert cur. induction comps as [|c comps IH]; intros cur; cbn [any_whiteout].
  { split; [done|]. intros (pre & Hne & Hp & _). apply prefix_nil_inv in Hp. by subst pre. }
  case_bool_decide as Hin.
  { split; [|done]. intros _. exists [c]. split_and!; [done| |done].
    apply prefix_cons, prefix_nil. }
  rewrite IH. split.
  - intros (pre & Hne & Hp & Hs). exists (c :: pre). split_and!; [done| |done].
    by apply prefix_cons.
  - intros ([|c' pre] & Hne & Hp & Hs); [done|].
    pose proof (prefix_cons_inv_1 _ _ _ _ Hp) as ->. apply prefix_cons_inv_2 in Hp.
    exists pre. split_and!; [|done|done]. intros ->. by apply Hin.
Qed.

(** A path is hidden exactly when it or one of its ancestors was deleted. *)
Theorem is_whiteout_spec path (w : W) :
  (is_whiteout path w).1 = Ok true ↔
  ∃ pre, pre ≠ [] ∧ pre `prefix_of` components path ∧
    abs_path pre ∈ whiteouts (w_mem w).
Proof.
  unfold abs_path. rewrite <-any_whiteout_spec. destruct w as [d m fs clk t].
  unfold is_whiteout, reads. run. split; [by intros [= ->]|by intros ->].
Qed.

(** A path in normal form is made of its components. *)
Definition normal_path (path : string) : Prop :=
  components path ≠ [] ∧ abs_path (components path) = path.

Lemma components_slash_join dir n : plain n → components (slash_join dir n) = components dir ++ [n].
Proof.
  intros [Hn Hs]. unfold components, slash_join. change ("/" +:+ n) with (String slash n).
  rewrite split_slash_join, filter_app, Hs. by rewrite filter_cons, decide_True.
Qed.

Lemma components_join dir n : plain n → components (join_path dir n) = components dir ++ [n].
Proof.
  intros Hn. unfold join_path. destruct (String.eqb_spec dir "/") as [->|]; by rewrite components_slash_join.
Qed.

(** The paths the overlay keeps: the root's, or an absolute path. *)
Definition dir_path (dir : string) : Prop := dir = "/"%string ∨ abs_path (components dir) = dir.

Lemma normal_join dir n : plain n → dir_path dir → normal_path (join_path dir n).
Proof.
  intros Hn Hd. unfold normal_path. rewrite components_join by done.
  split; [by destruct (components dir)|]. unfold dir_path, abs_path in *. rewrite foldl_app. cbn [foldl].
  unfold join_path. destruct (String.eqb_spec dir "/") as [->|]; [done|].
  destruct Hd as [->|Hd]; [done|]. by rewrite Hd.
Qed.

Lemma hidden_lookup p n info (w : W) :
  faultless w → inode_map (w_mem w) !! p = Some info →
  normal_path (join_path (in_path info) n) → join_path (in_path info) n ∈ whiteouts (w_mem w) →
  (lookup p n w).1 = Ok None.
Proof.
  intros Hf Hp [Hne Hnorm] Hin. destruct w as [d m fs clk t]. cbn [w_mem] in *.
  unfold lookup, require_info, build_path, require_info, get_inode_info, is_whiteout, reads.
  run. destruct m as [c im rm pm ni ws om]. cbn in *. rewrite Hp. cbn. rewrite Hp. cbn.
  destruct (any_whiteout ws "" (components (join_path (in_path info) n))) eqn:Hw; [done|].
  exfalso. assert (Htrue : any_whiteout ws "" (components (join_path (in_path info) n)) = true).
  { apply any_whiteout_spec. exists (components (join_path (in_path info) n)).
    split_and!; [done..|]. unfold abs_path in Hnorm. by rewrite Hnorm. }
  congruence.
Qed.

(** ** Failures only stop an operation *)

#[local] Hint Extern 0 (Stops (match ?x with _ => _ end)) =>
  destruct x : typeclass_instances.
#[local] Instance reads_stops {A} (f : OMem → A) : Stops (reads f : Ov A).
Proof. unfold reads. apply _. Qed.
#[local] Instance writes_stops (f : OMem → OMem) : Stops (writes f : Ov unit).
Proof. unfold writes. apply _. Qed.
#[local] Instance base_stops {A} (r : Error.t + A) : Stops (base r : Ov A).
Proof. unfold base. destruct r; apply _. Qed.
#[local] Instance delta_stops {A} (op : M Db (lru (Z * string) Z) A) :
  Stops op → Stops (Overlay.delta op).
Proof.
  intros Hop w. destruct w as [o m fs clk t].
  pose proof (Hop (mkWorld (o_fs o) (o_cache m) fs clk t)) as H.
  unfold Overlay.delta. cbn [w_db w_mem w_faults w_clock w_tick set_faults] in *.
  unfold set_faults in H at 1 3. cbn [w_db w_mem w_faults w_clock w_tick] in H.
  destruct (op (mkWorld (o_fs o) (o_cache m) fs clk t)) as [r w1].
  destruct (op (mkWorld (o_fs o) (o_cache m) [] clk t)) as [r' w1'].
  cbn [fst snd] in H. destruct H as [(e & He & ->)|(-> & <- & Hs)]; [|by right].
  left. by exists e.
Qed.
#[local] Instance get_or_create_stops layer u path :
  Stops (get_or_create_overlay_ino layer u path).
Proof. unfold get_or_create_overlay_ino, alloc_ino. apply _. Qed.
#[local] Instance refresh_stops ino layer u path :
  Stops (refresh_overlay_mapping ino layer u path).
Proof. unfold refresh_overlay_mapping, get_inode_info. apply _. Qed.
#[local] Instance delta_found_stops path s : Stops (delta_found path s).
Proof. unfold delta_found, get_origin_ino. apply _. Qed.
#[local] Instance walk_delta_stops ino comps : Stops (walk_delta ino comps).
Proof. revert ino. induction comps; intros ino; cbn [walk_delta]; apply _. Qed.
#[local] Instance walk_base_stops ino comps : Stops (walk_base ino comps).
Proof. revert ino. induction comps; intros ino; cbn [walk_base]; apply _. Qed.
#[local] Instance lookup_stops p n : Stops (lookup p n).
Proof.
  unfold lookup, build_path, require_info, get_inode_info, is_whiteout, resolve_delta_parent.
  apply _.
Qed.
#[local] Instance create_whiteout_stops path : Stops (create_whiteout path).
Proof. unfold create_whiteout. apply _. Qed.
#[local] Instance hide_stops p n path : Stops (hide p n path).
Proof. unfold hide. apply _. Qed.

(** ** What is removed is gone *)

(** The operations that take the name [n] away from [p]. *)
Inductive removal (p : Z) (n : string) : Ov unit → Prop :=
| RUnlink : removal p n (Overlay.unlink p n)
| RRmdir : removal p n (Overlay.rmdir p n)
| RRename p' n' : removal p n (Overlay.rename cs O_RDONLY p n p' n').

Lemma require_info_ok ino info (w w' : W) :
  require_info ino w = (Ok info, w') → w' = w ∧ inode_map (w_mem w) !! ino = Some info.
Proof.
  unfold require_info, get_inode_info. rewrite reads_bind. unfold ok_or.
  by destruct (inode_map (w_mem w) !! ino); intros [= <- <-].
Qed.

Lemma build_path_ok p n path (w w' : W) :
  build_path p n w = (Ok path, w') →
  w' = w ∧ ∃ info, inode_map (w_mem w) !! p = Some info ∧ path = join_path (in_path info) n.
Proof.
  unfold build_path. intros (info & w1 & [-> Hp]%require_info_ok & [= <- <-])%bind_ok.
  by split; [|exists info].
Qed.

(** Each of them ends with hiding what is still visible. *)
Lemma removal_hides p n m (w w' : W) :
  removal p n m → m w = (Ok tt, w') →
  ∃ info w1, inode_map (w_mem w) !! p = Some info ∧
    hide p n (join_path (in_path info) n) w1 = (Ok tt, w').
Proof.
  intros [| |p' n'] Hrun; unfold Overlay.unlink, Overlay.rmdir, Overlay.rename in Hrun.
  - apply bind_ok in Hrun as (? & w1 & [-> _]%require_info_ok & Hrun).
    apply bind_ok in Hrun as (path & w1 & [-> (info & Hp & ->)]%build_path_ok & Hrun).
    do 2 (apply bind_ok in Hrun as (? & ? & _ & Hrun)). case_match; [done|].
    apply bind_ok in Hrun as (? & w2 & _ & Hrun). by exists info, w2.
  - apply bind_ok in Hrun as (? & w1 & [-> _]%require_info_ok & Hrun).
    apply bind_ok in Hrun as (path & w1 & [-> (info & Hp & ->)]%build_path_ok & Hrun).
    do 2 (apply bind_ok in Hrun as (? & ? & _ & Hrun)). case_match; [done|].
    apply bind_ok in Hrun as (l & ? & _ & Hrun). case_match; [|done].
    apply bind_ok in Hrun as (? & w2 & _ & Hrun). by exists info, w2.
  - apply bind_ok in Hrun as (? & w1 & [-> _]%require_info_ok & Hrun).
    apply bind_ok in Hrun as (? & w1 & [-> _]%require_info_ok & Hrun).
    apply bind_ok in Hrun as (path & w1 & [-> (info & Hp & ->)]%build_path_ok & Hrun).
    do 9 (apply bind_ok in Hrun as (? & ? & _ & Hrun)).
    apply bind_ok in Hrun as (? & w2 & _ & Hrun). by exists info, w2.
Qed.

Lemma create_whiteout_hides path (w w' : W) :
  create_whiteout path w = (Ok tt, w') → path ∈ whiteouts (w_mem w').
Proof.
  unfold create_whiteout. intros ([] & w1 & _ & Hrun)%bind_ok.
  apply bind_ok in Hrun as (t & w2 & _ & Hrun). apply bind_ok in Hrun as ([] & w3 & _ & Hrun).
  revert Hrun. destruct w3 as [d [] fs clk k]. unfold writes. run. intros [= <-]. cbn. set_solver.
Qed.

(** C12: what was removed is gone.  When [unlink], [rmdir] or [rename] of a name
    succeeds, in whatever layers the name was found and whatever may fail, a
    later lookup does not find it, as long as the directory keeps its path: an
    entry of the base does not shine through. *)
Theorem removed_names_vanish p n m (w w' : W) info info' :
  removal p n m → m w = (Ok tt, w') →
  inode_map (w_mem w) !! p = Some info → inode_map (w_mem w') !! p = Some info' →
  in_path info' = in_path info → plain n → dir_path (in_path info) →
  (lookup p n (set_faults [] w')).1 = Ok None.
Proof.
  intros Hm Hrun Hp Hp' Hsame Hplain Hdir.
  pose proof (normal_join _ _ Hplain Hdir) as Hnorm.
  destruct (removal_hides _ _ _ _ _ Hm Hrun) as (i & w1 & Hi & Hhide).
  rewrite Hp in Hi. injection Hi as <-. clear Hrun Hp.
  destruct (stops (m := hide p n (join_path (in_path info) n)) w1)
    as [(e & _ & He)|(Hr & Hw & _)]; rewrite Hhide in *; [done|]. cbn [fst snd] in *.
  destruct (hide p n (join_path (in_path info) n) (set_faults [] w1)) as [r w2] eqn:Hhide1.
  cbn [fst snd] in *. subst r w2. clear Hhide.
  assert (Hf1 : faultless (set_faults [] w1)) by done.
  set (v := set_faults [] w1) in *. set (v' := set_faults [] w') in *.
  assert (Hinfo : inode_map (w_mem v') !! p = Some info') by done.
  unfold hide in Hhide1. apply bind_ok in Hhide1 as ([s|] & v1 & Hl & Hend).
  - apply (hidden_lookup p n info'); [done|done|by rewrite Hsame|rewrite Hsame].
    by apply (create_whiteout_hides _ v1).
  - injection Hend as ->. rewrite <-(recache_self v) in Hl.
    destruct (lookup_repeats p n v _ _ Hf1 Hl) as [[c ->] Hagain].
    destruct (Hagain c) as [c' ->]. done.
Qed.
End OverlayProps.
