(* ===== verification/OverlayCopy.v ===== *)
(** * OverlayCopy: copying from the base to the delta

    [copy_up] puts a node of the base into the delta, below copies of its
    parent directories: what it leaves in the delta, whatever may fail. *)
From S2P Require Import Prelude Types Engine Lru Schema FileIO FileIOSpec Path AgentFS.
From S2P Require Import AgentFSInv AgentFSSpec AgentFSOps AgentFSPath Overlay OverlayProps.

(** ** The delta's operations as the overlay calls them *)

(** Names from the root down, in the abstract filesystem. *)
Fixpoint walk (a : Spec.t) (ino : Z) (comps : list string) : option Z :=
  match comps with
  | [] => Some ino
  | c :: comps => match Spec.entries a !! (ino, c) with
                  | Some next => walk a next comps
                  | None => None
                  end
  end.

(** Nothing that was there is changed or gone. *)
Definition grows (a a' : Spec.t) : Prop :=
  Spec.entries a ⊆ Spec.entries a' ∧ Spec.nodes a ⊆ Spec.nodes a'.
#[export] Instance grows_preorder : PreOrder grows.
Proof.
  split; [by intros a|]. intros a b c [H1 H2] [H3 H4]. by split; etrans.
Qed.

Lemma walk_grows a a' ino comps j : grows a a' → walk a ino comps = Some j → walk a' ino comps = Some j.
Proof.
  intros [He _]. revert ino. induction comps as [|c comps IH]; intros ino; [done|]. cbn [walk].
  destruct (Spec.entries a !! (ino, c)) as [next|] eqn:Hn; [|done].
  rewrite (lookup_weaken _ _ _ _ Hn He). apply IH.
Qed.

Lemma walk_app a ino xs c :
  walk a ino (xs ++ [c]) = walk a ino xs ≫= λ j, Spec.entries a !! (j, c).
Proof.
  revert ino. induction xs as [|x xs IH]; intros ino; cbn [walk app].
  - simpl. by destruct (Spec.entries a !! (ino, c)).
  - destruct (Spec.entries a !! (ino, x)); [apply IH|done].
Qed.

(** A vector or string of the base fits the address space. *)
Class BaseBounds (B : BaseFS) := {
  base_pread_len h off n l : base_pread h off n = inr l → len l < 2 ^ 63;
  base_readlink_len ino target : base_readlink ino = inr (Some target) → strlen target < 2 ^ 63
}.

Section OverlayCopy.
Context {E : SqlEngine} {Lru : LruCache (Z * string) Z} {B : BaseFS}.
Context {BB : BaseBounds B}.
Context (cs : Z) (O_RDONLY : Z).
Abbreviation W := (World ODb OMem).
Abbreviation Ov := (M ODb OMem).
Abbreviation Fs := (M Db (lru (Z * string) Z)).
Abbreviation fs w := (o_fs (w_db w)).
Abbreviation Abs w := (abs cs (o_fs (w_db w))).

#[export] Instance lookup_clock p n : KeepsClock (AgentFS.lookup p n : Fs _).
Proof. unfold AgentFS.lookup, lookup_child, getattr_with_conn, one_row, cache_insert. apply _. Qed.
#[export] Instance mkdir_clock p n mode uid gid : KeepsClock (AgentFS.mkdir p n mode uid gid : Fs _).
Proof. unfold AgentFS.mkdir, lookup_child, one_row, cache_insert. apply _. Qed.
#[export] Instance symlink_clock p n target uid gid :
  KeepsClock (AgentFS.symlink p n target uid gid : Fs _).
Proof. unfold AgentFS.symlink, lookup_child, one_row, cache_insert. apply _. Qed.
#[export] Instance create_file_clock p n mode uid gid :
  KeepsClock (AgentFS.create_file cs p n mode uid gid : Fs _).
Proof. unfold AgentFS.create_file, lookup_child, one_row, cache_insert. apply _. Qed.

(** ** One call *)

(** What a call into the delta that ends with [Ok] leaves, from the same call
    in a world without failures. *)
Lemma delta_ok {A} (op : Fs A) `{!Stops op} `{!KeepsClock op} (w w' : W) a :
  Overlay.delta op w = (Ok a, w') → clock_ok w →
  ∃ clk w1, op (mkWorld (fs w) (o_cache (w_mem w)) [] (ticks clk) (w_tick w)) = (Ok a, w1) ∧
    fs w' = w_db w1 ∧ clock_ok w' ∧ ∃ c, w_mem w' = set_cache c (w_mem w).
Proof.
  intros Hrun [clk Hclk]. destruct w as [o m fl clk0 t]. cbn [w_clock] in Hclk. subst clk0.
  unfold Overlay.delta in Hrun. cbn [w_db w_mem w_faults w_clock w_tick] in *.
  pose proof (stops (m := op) (mkWorld (o_fs o) (o_cache m) fl (ticks clk) t)) as Hs.
  pose proof (keeps_clock (m := op) (mkWorld (o_fs o) (o_cache m) fl (ticks clk) t)) as Hc.
  cbn [w_clock] in Hc. unfold set_faults in Hs at 1 3. cbn [w_db w_mem w_faults w_clock w_tick] in Hs.
  destruct (op (mkWorld (o_fs o) (o_cache m) fl (ticks clk) t)) as [r w1].
  injection Hrun as -> <-. cbn [fst snd] in *.
  destruct Hs as [(e & _ & He)|(Hr & Hw & _)]; [done|].
  exists clk, (set_faults [] w1). destruct (op (mkWorld (o_fs o) (o_cache m) [] (ticks clk) t)).
  cbn in *. subst. split_and!; [done..| |by eexists]. exists clk. done.
Qed.

(** ... and from its refinement. *)
Lemma delta_refines {A} (op : Fs A) `{!Stops op} `{!KeepsClock op} spec (w w' : W) a :
  Overlay.delta op w = (Ok a, w') → clock_ok w →
  (∀ mem clk t, refines cs op spec (mkWorld (fs w) mem [] (ticks clk) t)) →
  spec (Abs w) = inr (Abs w') ∧ fs_wf cs (fs w') ∧ clock_ok w' ∧
  ∃ c, w_mem w' = set_cache c (w_mem w).
Proof.
  intros Hrun Hclk Href. destruct (delta_ok op w w' a Hrun Hclk) as (clk & w1 & H1 & -> & Hc & Hm).
  specialize (Href (o_cache (w_mem w)) clk (w_tick w)). unfold refines in Href.
  rewrite H1 in Href. by destruct Href.
Qed.

(** [lookup] reads the table. *)
Lemma lookup_table p n r d mem clk t w1 :
  AgentFS.lookup p n (mkWorld d mem [] (ticks clk) t : World _ _) = (Ok r, w1) →
  fs_wf cs d → n ≠ ".." →
  match r with
  | Some s => fs_dentry d !! (p, n) = Some (st_ino s) ∧
              ∃ row, fs_inode d !! st_ino s = Some row ∧ s = build_stats_from_row (st_ino s) row
  | None => fs_dentry d !! (p, n) = None
  end.
Proof.
  intros Hrun Hwf Hn. revert Hrun. unfold AgentFS.lookup. destruct (_ <? _); [done|].
  destruct (String.eqb_spec n ".."); [done|]. run. rewrite lookup_child_run.
  destruct (fs_dentry d !! (p, n)) as [c|] eqn:Hc; [|by intros [= <- _]]. run_fs.
  destruct (co_dentry _ _ _ (wf_core _ _ Hwf) _ _ _ Hc) as [_ [row Hrow]].
  rewrite Hrow. intros [= <- _]. split; [done|]. by exists row.
Qed.

Lemma stats_is_dir d s row :
  fs_inode d !! st_ino s = Some row → s = build_stats_from_row (st_ino s) row →
  is_directory s = true ↔ is_dir d (st_ino s).
Proof.
  intros Hrow Hs. rewrite Hs at 1. rewrite is_directory_stats. symmetry. by apply is_dir_row.
Qed.

Lemma delta_lookup_ok p n r (w w' : W) :
  Overlay.delta (AgentFS.lookup p n) w = (Ok r, w') → clock_ok w → fs_wf cs (fs w) → n ≠ ".." →
  fs w' = fs w ∧ clock_ok w' ∧ (∃ c, w_mem w' = set_cache c (w_mem w)) ∧
  match r with
  | Some s => fs_dentry (fs w) !! (p, n) = Some (st_ino s) ∧
              ∃ row, fs_inode (fs w) !! st_ino s = Some row ∧
                s = build_stats_from_row (st_ino s) row
  | None => fs_dentry (fs w) !! (p, n) = None
  end.
Proof.
  intros Hrun Hclk Hwf Hn. destruct (delta_ok _ w w' r Hrun Hclk) as (clk & w1 & H1 & -> & Hc & Hm).
  pose proof (readonly (m := AgentFS.lookup p n : Fs _)
    (mkWorld (fs w) (o_cache (w_mem w)) [] (ticks clk) (w_tick w))) as Hro.
  rewrite H1 in Hro. split_and!; [done..|]. by eapply lookup_table.
Qed.

(** The operations that make a node. *)
Lemma spec_create_ok p n ino nd a a' :
  Spec.create p n ino nd a = inr a' →
  Spec.entries a !! (p, n) = None ∧ Spec.entries a' = <[(p, n) := ino]> (Spec.entries a) ∧
  Spec.nodes a' = <[ino := nd]> (Spec.nodes a).
Proof.
  unfold Spec.create, Spec.check_name. destruct (_ <? _); [done|].
  destruct (Spec.entries a !! (p, n)); [done|]. by intros [= <-].
Qed.

Lemma fresh_node d : fs_wf cs d → Spec.nodes (abs cs d) !! next_rowid (inode_seq d) = None.
Proof.
  intros Hwf. rewrite abs_node.
  pose proof (ins_inode_run (new_row 0 0 0 0 0 0 (0, 0)) d) as Hins.
  destruct (ins_inode_fresh _ _ _ _ _ _ (wf_core _ _ Hwf) Hins) as (-> & _). done.
Qed.

Lemma create_grows p n nd a a' ino :
  Spec.create p n ino nd a = inr a' → Spec.nodes a !! ino = None →
  grows a a' ∧ Spec.entries a' !! (p, n) = Some ino ∧ Spec.nodes a' !! ino = Some nd.
Proof.
  intros (Hn & He & Hd)%spec_create_ok Hnew. unfold grows. rewrite He, Hd.
  split_and!; [by apply insert_subseteq..|apply lookup_insert_eq|apply lookup_insert_eq].
Qed.

(** A node [nd] was made under the name [(p, n)], and nothing else changed. *)
Definition made (w w' : W) (p : Z) (n : string) (ino : Z) (nd : Spec.node) : Prop :=
  fs_wf cs (fs w') ∧ clock_ok w' ∧ (∃ c, w_mem w' = set_cache c (w_mem w)) ∧
  grows (Abs w) (Abs w') ∧
  Spec.entries (Abs w') !! (p, n) = Some ino ∧ Spec.nodes (Abs w') !! ino = Some nd.

Lemma delta_made {A} (op : Fs A) `{!Stops op} `{!KeepsClock op} (ino : A → Z) p n nd a
    (w w' : W) :
  Overlay.delta op w = (Ok a, w') → clock_ok w → fs_wf cs (fs w) →
  (∀ mem clk t, refines cs op (Spec.create p n (next_rowid (inode_seq (fs w))) nd)
     (mkWorld (fs w) mem [] (ticks clk) t)) →
  (∀ d mem clk t w1, op (mkWorld d mem [] (ticks clk) t) = (Ok a, w1) →
     ino a = next_rowid (inode_seq d)) →
  made w w' p n (ino a) nd.
Proof.
  intros Hrun Hclk Hwf Href Hino.
  destruct (delta_refines op _ w w' a Hrun Hclk Href) as (Hspec & Hwf' & Hclk' & Hm).
  destruct (delta_ok op w w' a Hrun Hclk) as (clk & w1 & H1 & _). apply Hino in H1. rewrite H1.
  destruct (create_grows _ _ _ _ _ _ Hspec (fresh_node _ Hwf)) as (? & ? & ?).
  by split_and!.
Qed.

(** Runs up to the insertions, whatever the constraints say. *)
Ltac run_create d :=
  match goal with |- context [MAX_NAME_LEN <? ?n] => destruct (MAX_NAME_LEN <? n); [done|] end;
  run; rewrite lookup_child_run;
  match goal with |- context [fs_dentry d !! ?k] => destruct (fs_dentry d !! k); [done|] end;
  run; rewrite ins_inode_run; run;
  repeat (match goal with
          | |- context [ins_symlink ?i ?x ?db] => destruct (ins_symlink i x db)
          | |- context [ins_dentry ?n ?q ?c ?db] => destruct (ins_dentry n q c db)
          end; run_fs; [|done]).

Lemma mkdir_ino p n mode uid gid s d mem clk t w1 :
  AgentFS.mkdir p n mode uid gid (mkWorld d mem [] (ticks clk) t : World _ _) = (Ok s, w1) →
  st_ino s = next_rowid (inode_seq d).
Proof.
  unfold AgentFS.mkdir. run_create d. by intros [= <- _].
Qed.

Lemma symlink_ino p n target uid gid s d mem clk t w1 :
  AgentFS.symlink p n target uid gid (mkWorld d mem [] (ticks clk) t : World _ _) = (Ok s, w1) →
  st_ino s = next_rowid (inode_seq d).
Proof.
  unfold AgentFS.symlink. run_create d. by intros [= <- _].
Qed.

Lemma create_file_ino p n mode uid gid s f d mem clk t w1 :
  AgentFS.create_file cs p n mode uid gid (mkWorld d mem [] (ticks clk) t : World _ _) =
    (Ok (s, f), w1) →
  st_ino s = next_rowid (inode_seq d) ∧ f = mkFile (st_ino s) cs.
Proof.
  unfold AgentFS.create_file. run_create d. by intros [= <- <- _].
Qed.

Lemma delta_mkdir p n mode uid gid s (w w' : W) :
  Overlay.delta (AgentFS.mkdir p n mode uid gid) w = (Ok s, w') →
  clock_ok w → fs_wf cs (fs w) → is_dir (fs w) p →
  made w w' p n (st_ino s)
    (Spec.mkNode (Z.lor S_IFDIR (Z.land mode 0xfff)) uid gid 0 Spec.Directory).
Proof.
  intros Hrun Hclk Hwf Hp. apply (delta_made _ _ _ _ _ _ _ _ Hrun Hclk Hwf).
  - intros. by apply mkdir_healthy.
  - intros d mem clk t w1. apply mkdir_ino.
Qed.

Lemma delta_symlink p n target uid gid s (w w' : W) :
  Overlay.delta (AgentFS.symlink p n target uid gid) w = (Ok s, w') →
  clock_ok w → fs_wf cs (fs w) → is_dir (fs w) p → strlen target < 2 ^ 63 →
  made w w' p n (st_ino s)
    (Spec.mkNode (Z.lor S_IFLNK 0x1ff) uid gid 0 (Spec.Link target)).
Proof.
  intros Hrun Hclk Hwf Hp Ht. apply (delta_made _ _ _ _ _ _ _ _ Hrun Hclk Hwf).
  - intros. by apply symlink_healthy.
  - intros d mem clk t w1. apply symlink_ino.
Qed.

Lemma delta_create_file p n mode uid gid s f (w w' : W) :
  Overlay.delta (AgentFS.create_file cs p n mode uid gid) w = (Ok (s, f), w') →
  clock_ok w → fs_wf cs (fs w) → is_dir (fs w) p →
  made w w' p n (st_ino s)
    (Spec.mkNode (Z.lor S_IFREG (Z.land mode 0xfff)) uid gid 0 (Spec.Data [])) ∧
  f = mkFile (st_ino s) cs ∧ Spec.nodes (Abs w) !! st_ino s = None.
Proof.
  intros Hrun Hclk Hwf Hp. split.
  - apply (delta_made _ (λ r : Stats * AgentFSFile, st_ino r.1) _ _ _ _ _ _ Hrun Hclk Hwf).
    + intros. by apply create_file_healthy.
    + intros d mem clk t w1 H1. by apply create_file_ino in H1 as [? _].
  - destruct (delta_ok _ w w' _ Hrun Hclk) as (clk & w1 & H1 & _).
    apply create_file_ino in H1 as [Hino ->]. split; [done|]. rewrite Hino.
    by apply fresh_node.
Qed.

(** ** Steps that leave the delta alone *)

Class KeepsDelta {A} (m : Ov A) :=
  keeps_delta w : fs (m w).2 = fs w ∧ w_clock (m w).2 = w_clock w.
#[local] Hint Mode KeepsDelta + ! : typeclass_instances.

#[local] Instance bind_delta {A A'} (m : Ov A) (f : A → Ov A') :
  KeepsDelta m → (∀ a, KeepsDelta (f a)) → KeepsDelta (m ≫= f).
Proof.
  intros Hm Hf w. destruct (Hm w) as [Hd Hc]. unfold mbind, M_bind.
  destruct (m w) as [[a|e|] w']; simpl in *; [|done..].
  destruct (Hf a w'). split; by etrans.
Qed.
#[local] Instance ret_delta {A} (a : A) : KeepsDelta (mret a : Ov A).
Proof. done. Qed.
#[local] Instance throw_delta {A} e : KeepsDelta (throw e : Ov A).
Proof. done. Qed.
#[local] Instance ok_or_delta {A} e (o : option A) : KeepsDelta (ok_or e o : Ov A).
Proof. by destruct o. Qed.
#[local] Instance engine_call_delta : KeepsDelta (engine_call : Ov unit).
Proof. by intros [d c [|[e|] ?] clk t]. Qed.
#[local] Instance get_connection_delta : KeepsDelta (get_connection : Ov unit).
Proof. apply _. Qed.
#[local] Instance reads_delta {A} (f : OMem → A) : KeepsDelta (reads f : Ov A).
Proof. by intros []. Qed.
#[local] Instance writes_delta (f : OMem → OMem) : KeepsDelta (writes f : Ov unit).
Proof. done. Qed.
#[local] Instance base_delta {A} (r : Error.t + A) : KeepsDelta (base r : Ov A).
Proof. unfold base. destruct r; apply _. Qed.
#[local] Hint Extern 0 (KeepsDelta (match ?x with _ => _ end)) =>
  destruct x : typeclass_instances.

Lemma update_delta (f : ODb → ODb) : (∀ o, o_fs (f o) = o_fs o) → KeepsDelta (update f : Ov unit).
Proof.
  intros Hf [d c [|[e|] l] clk t]; run; by rewrite ?Hf.
Qed.
#[local] Hint Extern 0 (KeepsDelta (update _)) => by apply update_delta : typeclass_instances.

#[local] Instance remove_whiteout_delta path : KeepsDelta (remove_whiteout path).
Proof. unfold remove_whiteout. apply _. Qed.
#[local] Instance add_origin_delta d b : KeepsDelta (add_origin_mapping d b).
Proof. unfold add_origin_mapping. apply _. Qed.
#[local] Instance promote_delta path d : KeepsDelta (promote_to_delta path d).
Proof. unfold promote_to_delta, get_inode_info. apply _. Qed.

Lemma keeps_delta_ok {A} (m : Ov A) `{!KeepsDelta m} (w w' : W) r :
  m w = (r, w') → clock_ok w → fs w' = fs w ∧ clock_ok w'.
Proof.
  intros Hm [clk Hclk]. pose proof (keeps_delta (m := m) w) as [Hd Hc]. rewrite Hm in *.
  split; [done|]. exists clk. simpl in Hc. by rewrite Hc.
Qed.

Lemma base_ok {A} (r : Error.t + A) a (w w' : W) :
  base r w = (Ok a, w') → r = inr a.
Proof.
  unfold base. intros (u & w1 & _ & H)%bind_ok. destruct r as [e|x]; [by inversion H|].
  by injection H as ->.
Qed.

(** ** Parent directories *)

Lemma is_dir_abs d ino :
  is_dir d ino ↔ ∃ nd, Spec.nodes (abs cs d) !! ino = Some nd ∧ Spec.is_directory nd = true.
Proof.
  rewrite abs_node. split.
  - intros (r & Hr & Hdir). exists (node_of cs d ino r). by rewrite Hr, is_directory_node.
  - intros (nd & Hnd & Hdir). destruct (fs_inode d !! ino) as [r|] eqn:Hr; [|done].
    injection Hnd as <-. rewrite is_directory_node in Hdir. by exists r.
Qed.

Lemma is_dir_grows d d' ino : grows (abs cs d) (abs cs d') → is_dir d ino → is_dir d' ino.
Proof.
  rewrite !is_dir_abs. intros [_ Hn] (nd & Hnd & Hdir). exists nd. split; [|done].
  by eapply lookup_weaken.
Qed.

(** One component further down. *)
Lemma walk_step (w v w' : W) dino c comps next :
  grows (Abs w) (Abs v) → Spec.entries (Abs v) !! (dino, c) = Some next →
  fs_wf cs (fs w') ∧ clock_ok w' ∧ grows (Abs v) (Abs w') ∧
    (∃ j, walk (Abs w') next comps = Some j ∧ is_dir (fs w') j) →
  fs_wf cs (fs w') ∧ clock_ok w' ∧ grows (Abs w) (Abs w') ∧
    ∃ j, walk (Abs w') dino (c :: comps) = Some j ∧ is_dir (fs w') j.
Proof.
  intros Hg He (Hwf & Hc & Hg' & j & Hj & Hd). split_and!; [done..|by etrans|].
  exists j. split; [|done]. cbn [walk]. destruct Hg' as [He' _].
  by rewrite (lookup_weaken _ _ _ _ He He').
Qed.

Lemma ensure_dirs_grows comps uid gid path dino bino (w w' : W) :
  ensure_dirs comps uid gid path dino bino w = (Ok tt, w') →
  clock_ok w → fs_wf cs (fs w) → is_dir (fs w) dino → Forall (.≠ "..") comps →
  fs_wf cs (fs w') ∧ clock_ok w' ∧ grows (Abs w) (Abs w') ∧
  ∃ j, walk (Abs w') dino comps = Some j ∧ is_dir (fs w') j.
Proof.
  revert path dino bino w.
  induction comps as [|c comps IH]; intros path dino bino w Hrun Hclk Hwf Hd Hn.
  { injection Hrun as <-. split_and!; [done..|]. by exists dino. }
  cbn [ensure_dirs] in Hrun. apply Forall_cons in Hn as [Hc Hn].
  apply bind_ok in Hrun as (u & w1 & H1 & Hrun).
  apply keeps_delta_ok in H1 as [Hd1 Hc1]; [|apply _|done].
  apply bind_ok in Hrun as (r & w2 & H2 & Hrun).
  apply delta_lookup_ok in H2 as (Hd2 & Hc2 & _ & H2); [|done|by rewrite Hd1|done].
  rewrite Hd1 in *. destruct r as [s|].
  - destruct H2 as (He & row & Hrow & Hs). destruct (is_directory s) eqn:Hdir; [|done].
    eapply stats_is_dir in Hdir; [|done..].
    apply bind_ok in Hrun as (bs & w3 & H3 & Hrun).
    apply keeps_delta_ok in H3 as [Hd3 Hc3]; [|apply _|done]. rewrite Hd2 in Hd3.
    apply (walk_step w w3 _ _ _ _ (st_ino s)); [by rewrite Hd3|by rewrite Hd3|].
    apply (IH _ _ _ _ Hrun); rewrite ?Hd3; by auto.
  - apply bind_ok in Hrun as (bs & w3 & H3 & Hrun).
    apply keeps_delta_ok in H3 as [Hd3 Hc3]; [|apply _|done]. rewrite Hd2 in Hd3.
    assert (Hnew : ∃ du dg origin,
      (match bs with
       | Some s => (st_uid s, st_gid s, Some (st_ino s))
       | None => (uid, gid, None)
       end) = (du, dg, origin)) by (destruct bs; eauto).
    destruct Hnew as (du & dg & origin & Hnew). rewrite Hnew in Hrun. clear Hnew.
    apply bind_ok in Hrun as (s & w4 & H4 & Hrun).
    apply delta_mkdir in H4 as (Hwf4 & Hc4 & _ & Hg4 & He4 & Hn4); [|done|by rewrite Hd3..].
    rewrite Hd3 in Hg4. apply bind_ok in Hrun as (u' & w5 & H5 & Hrun).
    apply keeps_delta_ok in H5 as [Hd5 Hc5]; [|apply _|done].
    apply (walk_step w w5 _ _ _ _ (st_ino s)); [by rewrite Hd5|by rewrite Hd5|].
    apply (IH _ _ _ _ Hrun); [done|by rewrite Hd5| |done].
    rewrite Hd5, is_dir_abs. by eexists.
Qed.

(** ** The copy of a node *)

(** The node that a copy should be: the target of a symlink, a directory
    without entries, or all bytes of anything else, as a regular file; the
    owner and the permission bits are kept (but for a symlink, which has none). *)
Definition copy_of (s : Stats) (base_ino : Z) : option Spec.node :=
  if is_symlink s then
    match base_readlink base_ino with
    | inr (Some target) =>
        Some (Spec.mkNode (Z.lor S_IFLNK 0x1ff) (st_uid s) (st_gid s) 0 (Spec.Link target))
    | _ => None
    end
  else if is_directory s then
    Some (Spec.mkNode (Z.lor S_IFDIR (Z.land (st_mode s) 0xfff)) (st_uid s) (st_gid s) 0
            Spec.Directory)
  else
    match base_open base_ino O_RDONLY with
    | inr h =>
        match base_pread h 0 (as_u64 (st_size s)) with
        | inr content =>
            Some (Spec.mkNode (Z.lor S_IFREG (Z.land (st_mode s) 0xfff)) (st_uid s) (st_gid s) 0
                    (Spec.Data content))
        | inl _ => None
        end
    | inl _ => None
    end.

Lemma data_row d ino nd b :
  Spec.nodes (abs cs d) !! ino = Some nd → Spec.n_payload nd = Spec.Data b →
  ∃ row, fs_inode d !! ino = Some row ∧ dir_row row = false ∧ lnk_row row = false.
Proof.
  rewrite abs_node. destruct (fs_inode d !! ino) as [row|]; [|done]. intros [= <-].
  unfold node_of, payload_of. cbn [Spec.n_payload]. intros Hp. exists row.
  by destruct (dir_row row), (lnk_row row).
Qed.

Lemma delta_fill ino nd data (w w' : W) :
  Overlay.delta (FileIO.pwrite (mkFile ino cs) 0 data) w = (Ok tt, w') →
  0 < cs → clock_ok w → fs_wf cs (fs w) → len data < 2 ^ 63 →
  Spec.nodes (Abs w) !! ino = Some nd → Spec.n_payload nd = Spec.Data [] →
  fs_wf cs (fs w') ∧ clock_ok w' ∧ (∃ c, w_mem w' = set_cache c (w_mem w)) ∧
  Spec.entries (Abs w') = Spec.entries (Abs w) ∧
  Spec.nodes (Abs w') =
    <[ino := Spec.mkNode (Spec.n_mode nd) (Spec.n_uid nd) (Spec.n_gid nd) (Spec.n_rdev nd)
               (Spec.Data data)]> (Spec.nodes (Abs w)).
Proof.
  intros Hrun Hcs Hclk Hwf Hlen Hnd Hp.
  destruct (data_row _ _ _ _ Hnd Hp) as (row & Hrow & Hdir & Hlnk).
  eapply (delta_refines _ _ _ _ _ Hrun) in Hclk as (Hspec & Hwf' & Hc' & Hm).
  2:{ intros mem clk t. by apply (pwrite_healthy cs ino 0 data row). }
  split_and!; [done..| |]; revert Hspec; unfold Spec.edit, Spec.change; rewrite Hnd;
    intros <-%(inj inr); [done|]. cbn [Spec.nodes]. apply map_eq. intros j.
  rewrite lookup_alter, lookup_insert. case_decide; [|done]. subst j. rewrite Hnd. cbn.
  rewrite Hp. do 3 f_equal. destruct data; [done|apply spec_write_new].
Qed.

(** [copy_node] makes that node, under a new number. *)
Lemma copy_node_made p n base_ino s ino (w w' : W) :
  copy_node cs O_RDONLY p n base_ino s w = (Ok ino, w') →
  0 < cs → clock_ok w → fs_wf cs (fs w) → is_dir (fs w) p →
  ∃ nd, copy_of s base_ino = Some nd ∧
    fs_wf cs (fs w') ∧ clock_ok w' ∧ grows (Abs w) (Abs w') ∧
    Spec.entries (Abs w') !! (p, n) = Some ino ∧ Spec.nodes (Abs w') !! ino = Some nd.
Proof.
  unfold copy_node, copy_of. intros Hrun Hcs Hclk Hwf Hp.
  destruct (is_symlink s); [|destruct (is_directory s)].
  - apply bind_ok in Hrun as (found & w1 & H1 & Hrun). apply base_ok in H1 as Hl.
    apply keeps_delta_ok in H1 as [Hd1 Hc1]; [|apply _|done].
    apply bind_ok in Hrun as (target & w2 & H2 & Hrun).
    destruct found as [x|]; [|by inversion H2]. injection H2 as -> <-. rewrite Hl.
    apply bind_ok in Hrun as (st & w3 & H3 & [= <- <-]).
    apply delta_symlink in H3 as (? & ? & _ & Hg & ? & ?);
      [|done|by rewrite Hd1..|by eapply base_readlink_len].
    rewrite Hd1 in Hg. eexists. by split_and!.
  - apply bind_ok in Hrun as (st & w3 & H3 & [= <- <-]).
    apply delta_mkdir in H3 as (? & ? & _ & Hg & ? & ?); [|done..].
    rewrite <-Z.land_assoc in *. eexists. by split_and!.
  - apply bind_ok in Hrun as (h & w1 & H1 & Hrun). apply base_ok in H1 as Ho.
    apply keeps_delta_ok in H1 as [Hd1 Hc1]; [|apply _|done].
    apply bind_ok in Hrun as (content & w2 & H2 & Hrun). apply base_ok in H2 as Hr.
    apply keeps_delta_ok in H2 as [Hd2 Hc2]; [|apply _|done]. rewrite Hd1 in Hd2.
    rewrite Ho, Hr. apply bind_ok in Hrun as ([st f] & w3 & H3 & Hrun).
    apply delta_create_file in H3 as ((Hwf3 & Hc3 & _ & Hg3 & He3 & Hn3) & -> & Hnew);
      [|done|by rewrite Hd2..]. rewrite Hd2 in Hg3, Hnew.
    apply bind_ok in Hrun as ([] & w4 & H4 & [= <- <-]).
    eapply delta_fill in H4 as (? & ? & _ & He4 & Hn4);
      [|done..|by eapply base_pread_len|exact Hn3|done].
    eexists. split; [done|]. split_and!; [done..| | |].
    + destruct Hg3 as [Hge Hgn]. split; [by rewrite He4|]. rewrite Hn4.
      apply map_subseteq_spec. intros j x Hj. rewrite lookup_insert_ne; [by eapply lookup_weaken|].
      intros <-. by rewrite Hnew in Hj.
    + by rewrite He4.
    + rewrite Hn4. apply lookup_insert_eq.
Qed.

(** ** The whole copy *)

Lemma walk_parents_ok ino comps r (w w' : W) :
  walk_parents ino comps w = (Ok r, w') → clock_ok w → fs_wf cs (fs w) → Forall (.≠ "..") comps →
  r = walk (Abs w) ino comps ∧ fs w' = fs w ∧ clock_ok w'.
Proof.
  revert ino w. induction comps as [|c comps IH]; intros ino w Hrun Hclk Hwf Hn.
  { by injection Hrun as <- <-. }
  cbn [walk_parents] in Hrun. apply Forall_cons in Hn as [Hc Hn].
  apply bind_ok in Hrun as (found & w1 & H1 & Hrun).
  apply delta_lookup_ok in H1 as (Hd1 & Hc1 & _ & H1); [|done..].
  cbn [walk]. change (Spec.entries (Abs w)) with (fs_dentry (fs w)). destruct found as [s|].
  - destruct H1 as [-> _]. apply IH in Hrun as (-> & Hd & ?); [|done|by rewrite Hd1|done].
    by rewrite Hd, Hd1.
  - injection Hrun as <- <-. by rewrite H1.
Qed.

Lemma components_split path name :
  last (components path) = Some name →
  components path = take (length (components path) - 1) (components path) ++ [name].
Proof.
  intros (xs & ->)%last_Some. rewrite length_app, Nat.add_sub. by rewrite take_app_length.
Qed.

Lemma add_origin_ok d b (w w' : W) :
  add_origin_mapping d b w = (Ok tt, w') → origin_map (w_mem w') !! d = Some b.
Proof.
  unfold add_origin_mapping. intros (u & w1 & _ & Hrun)%bind_ok.
  apply bind_ok in Hrun as (u' & w2 & _ & Hrun). injection Hrun as <-.
  apply lookup_insert_eq.
Qed.

(** C11: copying up.  When [copy_up] of a path succeeds, the path leads in the delta
    to the inode it returns; everything that was in the delta before is there
    unchanged; and either the path was in the delta already, which is left as it
    was, or the inode is the copy of the base's node, all of its bytes included, and the
    base's inode is remembered as its origin. *)
Theorem copy_up_copies path base_ino ino (w w' : W) :
  0 < cs → fs_wf cs (fs w) → clock_ok w → Forall (.≠ "..") (components path) →
  copy_up cs O_RDONLY path base_ino w = (Ok ino, w') →
  fs_wf cs (fs w') ∧ grows (Abs w) (Abs w') ∧
  walk (Abs w') ROOT_INO (components path) = Some ino ∧
  (walk (Abs w) ROOT_INO (components path) = Some ino ∧ Abs w' = Abs w ∨
   walk (Abs w) ROOT_INO (components path) = None ∧
   ∃ s nd, base_getattr base_ino = inr (Some s) ∧ copy_of s base_ino = Some nd ∧
     Spec.nodes (Abs w') !! ino = Some nd ∧ origin_map (w_mem w') !! ino = Some base_ino).
Proof.
  intros Hcs Hwf Hclk Hdots Hrun. change ROOT_INO with 1. unfold copy_up in Hrun.
  destruct (last (components path)) as [name|] eqn:Hlast; [|done].
  apply components_split in Hlast. set (parents := take _ _) in *. rewrite Hlast in *.
  apply Forall_app in Hdots as [Hpar Hname]. apply Forall_cons in Hname as [Hname _].
  rewrite !walk_app.
  apply bind_ok in Hrun as (fp & w1 & H1 & Hrun).
  apply walk_parents_ok in H1 as (-> & Hd1 & Hc1); [|done..].
  apply bind_ok in Hrun as (existing & w2 & H2 & Hrun).
  assert (Hex : fs w2 = fs w ∧ clock_ok w2 ∧
    walk (Abs w) 1 parents ≫= (λ j, Spec.entries (Abs w) !! (j, name)) =
    st_ino <$> existing).
  { destruct (walk (Abs w) 1 parents) as [pino|] eqn:Hw; simpl.
    - apply delta_lookup_ok in H2 as (Hd2 & Hc2 & _ & H2); [|done|by rewrite Hd1|done].
      rewrite Hd1 in *. split_and!; [done..|].
      change (Spec.entries (Abs w)) with (fs_dentry (fs w)).
      by destruct existing; [destruct H2|].
    - by injection H2 as <- <-. }
  destruct Hex as (Hd2 & Hc2 & Hex). rewrite Hex. destruct existing as [s|].
  { injection Hrun as <- <-. rewrite Hd2, Hex. by split_and!; [..|left]. }
  apply bind_ok in Hrun as (found & w3 & H3 & Hrun). apply base_ok in H3 as Hga.
  apply keeps_delta_ok in H3 as [Hd3 Hc3]; [|apply _|done]. rewrite Hd2 in Hd3.
  apply bind_ok in Hrun as (s & w4 & H4 & Hrun).
  destruct found as [x|]; [|by inversion H4]. injection H4 as -> <-.
  apply bind_ok in Hrun as ([] & w5 & H5 & Hrun). unfold ensure_parent_dirs in H5.
  rewrite Hlast in H5. rewrite length_app, Nat.add_sub, take_app_length in H5.
  apply ensure_dirs_grows in H5 as (Hwf5 & Hc5 & Hg5 & j & Hj & Hjd);
    [|done|by rewrite Hd3|rewrite Hd3; apply (co_root _ _ _ (wf_core _ _ Hwf))|done].
  rewrite Hd3 in Hg5. apply bind_ok in Hrun as (fp' & w6 & H6 & Hrun).
  apply walk_parents_ok in H6 as (-> & Hd6 & Hc6); [|done..]. rewrite Hj in Hrun.
  apply bind_ok in Hrun as (j' & w7 & [= <- <-] & Hrun).
  apply bind_ok in Hrun as (dino & w8 & H8 & Hrun).
  apply copy_node_made in H8 as (nd & Hcopy & Hwf8 & Hc8 & Hg8 & He8 & Hn8);
    [|done..|by rewrite Hd6|by rewrite Hd6]. rewrite Hd6 in Hg8.
  apply bind_ok in Hrun as ([] & w9 & H9 & Hrun). injection Hrun as <- <-.
  apply add_origin_ok in H9 as Horig.
  apply keeps_delta_ok in H9 as [Hd9 _]; [|apply _|done]. rewrite Hd9.
  split_and!; [done|by etrans| |].
  - rewrite (walk_grows _ _ _ _ _ Hg8 Hj). exact He8.
  - right. split; [done|]. by exists s, nd.
Qed.
End OverlayCopy.
