(* ===== verification/OverlayLookup.v ===== *)
(** * OverlayLookup: two trees seen as one

    What a lookup in the overlay finds, in terms of the path: nothing if the
    path is hidden, else what the delta has there, else what the base has. *)
From S2P Require Import Prelude Types Engine Lru Schema FileIO FileIOSpec Path AgentFS.
From S2P Require Import AgentFSInv AgentFSSpec AgentFSOps AgentFSPath Overlay OverlayProps.
From S2P Require Import OverlayCopy.

Section OverlayLookup.
Context {E : SqlEngine} {Lru : LruCache (Z * string) Z} {B : BaseFS}.
Context (cs : Z).
Abbreviation W := (World ODb OMem).
Abbreviation Ov := (M ODb OMem).
Abbreviation fs w := (o_fs (w_db w)).
Abbreviation Abs w := (abs cs (o_fs (w_db w))).

(** ** The merged tree *)

(** Names from the root of the base down. *)
Fixpoint bwalk (ino : Z) (comps : list string) : option Z :=
  match comps with
  | [] => Some ino
  | c :: comps => match base_lookup ino c with
                  | inr (Some s) => bwalk (st_ino s) comps
                  | _ => None
                  end
  end.

(** A prefix of the path was deleted. *)
Definition hidden (w : W) (comps : list string) : bool :=
  bool_decide (Exists (λ k, abs_path (take (S k) comps) ∈ whiteouts (w_mem w))
                 (seq 0 (length comps))).

Lemma hidden_spec (w : W) comps :
  any_whiteout (whiteouts (w_mem w)) "" comps = hidden w comps.
Proof.
  apply eq_bool_prop_intro. rewrite !Is_true_true, any_whiteout_spec. unfold hidden, abs_path.
  rewrite bool_decide_eq_true, Exists_exists. split.
  - intros (pre & Hne & [rest ->] & Hin). destruct pre as [|c pre]; [done|].
    exists (length pre). split; [apply elem_of_seq; rewrite length_app; cbn [length]; lia|].
    cbn [app take]. by rewrite take_app_length.
  - intros (k & Hk%elem_of_seq & Hin). exists (take (S k) comps).
    split_and!; [by destruct comps; cbn [length] in *; [lia|]|apply prefix_take|done].
Qed.

Definition merged (w : W) (comps : list string) : option (Layer * Z) :=
  if hidden w comps then None
  else match walk (Abs w) ROOT_INO comps with
       | Some c => Some (Delta, c)
       | None => pair Base <$> bwalk ROOT_INO comps
       end.

(** An overlay inode whose path leads to the node it stands for. *)
Definition tracks (w : W) (info : InodeInfo) : Prop :=
  match in_layer info with
  | Delta => walk (Abs w) ROOT_INO (components (in_path info)) = Some (in_underlying info)
  | Base => bwalk ROOT_INO (components (in_path info)) = Some (in_underlying info)
  end.

(** [s] are the attributes of a node, under the overlay's inode number. *)
Definition shows (w : W) (node : Layer * Z) (s : Stats) : Prop :=
  match node with
  | (Delta, c) => ∃ row, fs_inode (fs w) !! c = Some row ∧
                   s = with_ino (st_ino s) (build_stats_from_row c row)
  | (Base, b) => ∃ d n s0, base_lookup d n = inr (Some s0) ∧ st_ino s0 = b ∧
                   s = with_ino (st_ino s) s0
  end.

Lemma bwalk_app ino xs c :
  bwalk ino (xs ++ [c]) = bwalk ino xs ≫= λ j, match base_lookup j c with
                                               | inr (Some s) => Some (st_ino s)
                                               | _ => None
                                               end.
Proof.
  revert ino. induction xs as [|x xs IH]; intros ino; cbn [bwalk app].
  - simpl. by destruct (base_lookup ino c) as [|[s|]].
  - destruct (base_lookup ino x) as [|[s|]]; [done|apply IH|done].
Qed.

Definition same_state (w w' : W) : Prop :=
  w_db w' = w_db w ∧ w_mem w' = w_mem w ∧ w_clock w' = w_clock w.

Lemma base_same {A} (r : Error.t + A) (w : W) : same_state w (base r w).2.
Proof. unfold base. destruct w as [d m [|[e|] l] clk t], r; done. Qed.

Lemma walk_base_ok ino comps r (w w' : W) :
  walk_base ino comps w = (Ok r, w') → r = bwalk ino comps ∧ same_state w w'.
Proof.
  revert ino w. induction comps as [|c comps IH]; intros ino w Hrun.
  { by injection Hrun as <- <-. }
  cbn [walk_base] in Hrun. apply bind_ok in Hrun as (found & w1 & H1 & Hrun).
  pose proof (base_same (base_lookup ino c) w) as Hs. rewrite H1 in Hs. cbn [snd] in Hs.
  apply base_ok in H1. cbn [bwalk]. rewrite H1. destruct found as [s|].
  - apply IH in Hrun as (-> & ? & ? & ?). destruct Hs as (? & ? & ?).
    split; [done|]. unfold same_state. split_and!; by etrans.
  - by injection Hrun as <- <-.
Qed.

(** A path of the delta leads through directories. *)
Lemma walk_delta_ok ino comps r (w w' : W) :
  walk_delta ino comps w = (Ok r, w') → clock_ok w → fs_wf cs (fs w) → Forall (.≠ "..") comps →
  fs w' = fs w ∧ clock_ok w' ∧ (∃ c, w_mem w' = set_cache c (w_mem w)) ∧
  ∀ n, (r ≫= λ j, fs_dentry (fs w) !! (j, n)) = walk (Abs w) ino (comps ++ [n]).
Proof.
  revert ino w. induction comps as [|c comps IH]; intros ino w Hrun Hclk Hwf Hn.
  { injection Hrun as <- <-. split_and!; [done..|exists (o_cache (w_mem w)); by destruct (w_mem w)|].
    intros n. simpl. by destruct (fs_dentry (fs w) !! (ino, n)). }
  cbn [walk_delta] in Hrun. apply Forall_cons in Hn as [Hc Hn].
  apply bind_ok in Hrun as (found & w1 & H1 & Hrun).
  apply (delta_lookup_ok cs) in H1 as (Hd1 & Hc1 & Hm1 & H1); [|done..].
  cbn [walk app]. change (Spec.entries (Abs w)) with (fs_dentry (fs w)). destruct found as [s|].
  2:{ injection Hrun as <- <-. rewrite H1. by split_and!. }
  destruct H1 as (He & row & Hrow & Hs). rewrite He. destruct (is_directory s) eqn:Hdir.
  - apply IH in Hrun as (Hd & ? & [c' Hm] & Hres); [|done|by rewrite Hd1|done].
    rewrite Hd1 in *. split_and!; [done..| |done]. exists c'. destruct Hm1 as [c1 Hm1].
    by rewrite Hm, Hm1.
  - injection Hrun as <- <-. split_and!; [done..|]. intros n. simpl. symmetry.
    assert (Hno : ∀ x, fs_dentry (fs w) !! (st_ino s, x) = None).
    { intros x. apply eq_None_not_Some. intros [y Hx].
      apply (co_dentry _ _ _ (wf_core _ _ Hwf)) in Hx as [Hd _].
      eapply stats_is_dir in Hd; [congruence|done..]. }
    by destruct comps; cbn [walk app]; change (Spec.entries (Abs w)) with (fs_dentry (fs w));
      rewrite Hno.
Qed.

(** ** Numbering what was found *)

Lemma get_or_create_ok layer u path ino (w w' : W) :
  get_or_create_overlay_ino layer u path w = (Ok ino, w') → ov_inv w →
  w_db w' = w_db w ∧ ov_inv w' ∧ is_Some (inode_map (w_mem w') !! ino).
Proof.
  intros Hrun Hinv.
  pose proof (proj1 (sound (m := get_or_create_overlay_ino layer u path) w Hinv)) as Hinv'.
  rewrite Hrun in Hinv'. cbn [snd] in Hinv'. destruct w as [d m fl clk t].
  revert Hrun. unfold get_or_create_overlay_ino, alloc_ino, reads, writes. run.
  destruct (reverse_map m !! (layer, u)) as [i|] eqn:Hr; intros [= <- <-].
  - split_and!; [done..|]. cbn. eapply (mo_reverse _ (proj1 Hinv)). exact Hr.
  - split_and!; [done..|]. cbn. rewrite lookup_insert_eq. by eexists.
Qed.

Lemma refresh_db ino layer u path r (w w' : W) :
  refresh_overlay_mapping ino layer u path w = (r, w') → w_db w' = w_db w.
Proof.
  destruct w as [d m fl clk t]. unfold refresh_overlay_mapping, get_inode_info, reads, writes.
  run. destruct (inode_map m !! ino); by intros [= _ <-].
Qed.

Lemma delta_found_ok path s s' (w w' : W) :
  delta_found path s w = (Ok s', w') → ov_inv w →
  w_db w' = w_db w ∧ s' = with_ino (st_ino s') s ∧
  is_Some (inode_map (w_mem w') !! st_ino s').
Proof.
  unfold delta_found. intros Hrun Hinv. apply bind_ok in Hrun as (ino & w1 & H1 & Hrun).
  apply get_or_create_ok in H1 as (Hd1 & Hinv1 & Hi1); [|done]. unfold get_origin_ino in Hrun.
  rewrite reads_bind in Hrun.
  destruct (origin_map (w_mem w1) !! st_ino s) as [b|]; [|by injection Hrun as <- <-].
  rewrite reads_bind in Hrun.
  destruct (reverse_map (w_mem w1) !! (Base, b)) as [e|] eqn:He; [|by injection Hrun as <- <-].
  destruct (mo_reverse _ (proj1 Hinv1) _ _ _ He) as [Hmapped Hne].
  destruct (refresh_sound e Delta (st_ino s) path w1 Hinv1 (Hne eq_refl)) as [_ Hstay].
  apply bind_ok in Hrun as (u & w2 & H2 & Hrun). rewrite H2 in Hstay.
  injection Hrun as <- <-. split_and!; [|done|by apply Hstay].
  by rewrite (refresh_db _ _ _ _ _ _ _ H2).
Qed.

(** ** The merged lookup *)

(** The two ways to the delta's side. *)
Lemma delta_side info n (w w1 w2 : W) dp r :
  clock_ok w → fs_wf cs (fs w) → tracks w info → n ≠ ".." →
  Forall (.≠ "..") (components (in_path info)) →
  resolve_delta_parent info w = (Ok dp, w1) →
  (match dp with
   | Some ino => Overlay.delta (AgentFS.lookup ino n)
   | None => mret None
   end) w1 = (Ok r, w2) →
  fs w2 = fs w ∧ clock_ok w2 ∧ (∃ c, w_mem w2 = set_cache c (w_mem w)) ∧
  match r with
  | Some s => walk (Abs w) ROOT_INO (components (in_path info) ++ [n]) = Some (st_ino s) ∧
              ∃ row, fs_inode (fs w) !! st_ino s = Some row ∧
                s = build_stats_from_row (st_ino s) row
  | None => walk (Abs w) ROOT_INO (components (in_path info) ++ [n]) = None
  end.
Proof.
  intros Hclk Hwf Htr Hn Hp H1 H2.
  assert (Hdp : fs w1 = fs w ∧ clock_ok w1 ∧ (∃ c, w_mem w1 = set_cache c (w_mem w)) ∧
    (dp ≫= λ j, fs_dentry (fs w) !! (j, n)) =
      walk (Abs w) ROOT_INO (components (in_path info) ++ [n])).
  { unfold resolve_delta_parent, tracks in *. destruct (in_layer info).
    - injection H1 as <- <-. split_and!; [done..| |].
      + exists (o_cache (w_mem w)). by destruct (w_mem w).
      + by rewrite walk_app, Htr.
    - apply walk_delta_ok in H1 as (? & ? & ? & Hw); [|done..]. by split_and!. }
  destruct Hdp as (Hd1 & Hc1 & [c1 Hm1] & <-). destruct dp as [j|]; simpl.
  - apply (delta_lookup_ok cs) in H2 as (Hd2 & Hc2 & [c2 Hm2] & H2); [|done|by rewrite Hd1|done].
    rewrite Hd1 in *. split_and!; [done..| |done]. exists c2. by rewrite Hm2, Hm1.
  - injection H2 as <- <-. split_and!; [done..|by exists c1|done].
Qed.

Lemma base_side info (w w1 w2 : W) bp n :
  tracks w info →
  (match in_layer info with
   | Base => mret (Some (in_underlying info))
   | Delta => if String.eqb (in_path info) "/" then mret (Some 1)
              else walk_base 1 (components (in_path info))
   end) w1 = (Ok bp, w2) →
  same_state w1 w2 ∧
  bwalk ROOT_INO (components (in_path info) ++ [n]) =
    bp ≫= λ j, match base_lookup j n with inr (Some s) => Some (st_ino s) | _ => None end.
Proof.
  unfold tracks. rewrite bwalk_app. intros Htr Hrun. destruct (in_layer info).
  - destruct (String.eqb_spec (in_path info) "/") as [->|].
    + by injection Hrun as <- <-.
    + by apply walk_base_ok in Hrun as [-> ?].
  - injection Hrun as <- <-. by rewrite Htr.
Qed.

Lemma is_whiteout_ok path b (w w' : W) :
  is_whiteout path w = (Ok b, w') →
  w' = w ∧ b = any_whiteout (whiteouts (w_mem w)) "" (components path).
Proof. destruct w as [d [] fl clk t]. unfold is_whiteout, reads. run. by intros [= <- <-]. Qed.

Lemma sound_ok {A} (m : Ov A) `{!Sound m} (w w' : W) r : m w = (r, w') → ov_inv w → ov_inv w'.
Proof. intros Hm Hw. pose proof (proj1 (sound (m := m) w Hw)) as H. by rewrite Hm in H. Qed.

(** C10: a lookup sees the two trees as one.  For a directory whose path leads to
    the node it stands for: when the lookup succeeds, it finds nothing if the path is
    hidden by a whiteout, the delta's node if the delta has the path, else the
    base's node if the base has it; the attributes are those of that node, under an
    inode number of the overlay that is mapped. *)
Theorem lookup_merges p n info r (w w' : W) :
  ov_inv w → fs_wf cs (fs w) → clock_ok w →
  inode_map (w_mem w) !! p = Some info → tracks w info →
  plain n → n ≠ ".." → Forall (.≠ "..") (components (in_path info)) →
  lookup p n w = (Ok r, w') →
  match merged w (components (in_path info) ++ [n]) with
  | Some node => ∃ s, r = Some s ∧ shows w node s ∧
                   is_Some (inode_map (w_mem w') !! st_ino s)
  | None => r = None
  end.
Proof.
  intros Hinv Hwf Hclk Hp Htr Hplain Hn Hdots Hrun. unfold lookup in Hrun.
  apply bind_ok in Hrun as (info' & w0 & [-> Hi]%require_info_ok & Hrun).
  rewrite Hp in Hi. injection Hi as <-.
  apply bind_ok in Hrun as (path & w0 & [-> (info' & Hi & ->)]%build_path_ok & Hrun).
  rewrite Hp in Hi. injection Hi as <-.
  apply bind_ok in Hrun as (hidden & w0 & [-> Hhid]%is_whiteout_ok & Hrun).
  rewrite components_join, hidden_spec in Hhid by done. unfold merged. rewrite <-Hhid. clear Hhid.
  destruct hidden; [by injection Hrun as <- _|].
  apply bind_ok in Hrun as (dp & w1 & H1 & Hrun).
  apply bind_ok in Hrun as (found & w2 & H2 & Hrun).
  assert (Hinv1 : ov_inv w1) by by eapply sound_ok in H1; [|apply _|].
  assert (Hinv2 : ov_inv w2).
  { revert H2 Hinv1. by destruct dp; apply sound_ok; apply _. }
  edestruct delta_side as (Hd2 & Hc2 & Hm2 & Hfound); [..|exact H1|exact H2|]; try done.
  destruct found as [s|].
  - destruct Hfound as (-> & row & Hrow & Hs).
    apply bind_ok in Hrun as (s' & w3 & H3 & Hrun). injection Hrun as <- <-.
    apply delta_found_ok in H3 as (_ & Hs' & Hmapped); [|done].
    exists s'. split_and!; [done| |done]. exists row. split; [done|]. by rewrite <-Hs.
  - rewrite Hfound. apply bind_ok in Hrun as (bp & w3 & H3 & Hrun).
    eapply base_side in H3 as [(Hd3 & Hm3 & _) ->]; [|exact Htr].
    destruct bp as [j|]; [|by injection Hrun as <- _]. simpl.
    apply bind_ok in Hrun as (in_base & w4 & H4 & Hrun).
    assert (Hinv4 : ov_inv w4).
    { pose proof (base_same (base_lookup j n) w3) as (Hd4 & Hm4 & _). rewrite H4 in Hd4, Hm4.
      destruct Hinv2. cbn [snd] in *. unfold ov_inv, stored. by rewrite Hd4, Hm4, Hd3, Hm3. }
    apply base_ok in H4. rewrite H4. destruct in_base as [s|]; [|by injection Hrun as <- _].
    apply bind_ok in Hrun as (ino & w5 & H5 & Hrun). injection Hrun as <- <-.
    apply get_or_create_ok in H5 as (_ & _ & Hmapped); [|done].
    exists (with_ino ino s). split_and!; [done| |done]. by exists j, n, s.
Qed.
End OverlayLookup.
