(* ===== verification/FdTable.v ===== *)
(** * FdTable: the descriptor table of a sandboxed process

    [sandbox/src/vfs/fdtable.rs]: virtual descriptors, mapped to descriptors of
    the kernel or to open files of a virtual filesystem.  The table keeps the
    entries, the next number never given out, and a heap of the numbers given
    back.  A heap of [Reverse] is modelled by the ascending list of its
    elements: [pop] takes the least. *)
From S2P Require Import Prelude.

Definition i32_MAX : Z := 2 ^ 31 - 1.
Definition FIRST_USER_FD : Z := 3.

(** ** Heaps *)

Fixpoint heap_push (fd : Z) (h : list Z) : list Z :=
  match h with
  | [] => [fd]
  | x :: h' => if fd <=? x then fd :: h else x :: heap_push fd h'
  end.

(** ** The table *)

Section FdTable.
(** The open files of virtual filesystems. *)
Context {F : Type}.

Inductive FdEntry :=
| Passthrough (kernel_fd flags : Z) (path : option string)
| Virtual (file_ops : F) (flags : Z) (path : option string).

Definition kernel_fd_of (e : FdEntry) : option Z :=
  match e with Passthrough kernel_fd _ _ => Some kernel_fd | Virtual _ _ _ => None end.
Definition flags_of (e : FdEntry) : Z :=
  match e with Passthrough _ flags _ | Virtual _ flags _ => flags end.
Definition path_of (e : FdEntry) : option string :=
  match e with Passthrough _ _ path | Virtual _ _ path => path end.
Definition file_ops_of (e : FdEntry) : option F :=
  match e with Passthrough _ _ _ => None | Virtual file_ops _ _ => Some file_ops end.

Record FdTable := mkTable {
  entries : gmap Z FdEntry;
  next_vfd : Z;
  free_fds : list Z
}.

Definition new : FdTable :=
  mkTable (list_to_map ((λ fd, (fd, Passthrough fd 0 None)) <$> [0; 1; 2]))
    FIRST_USER_FD [].

(** The copy for a forked process is independent of the original: tables are
    values here. *)
Definition deep_clone (t : FdTable) : FdTable :=
  mkTable (entries t) (next_vfd t) (free_fds t).

(** [(min..i32::MAX).find(|fd| !entries.contains_key(fd))]: one more number than
    there are entries has to be tried. *)
Fixpoint find_unused (fuel : nat) (m : gmap Z FdEntry) (fd : Z) : option Z :=
  match fuel with
  | O => None
  | S fuel =>
      if fd <? i32_MAX then
        match m !! fd with
        | None => Some fd
        | Some _ => find_unused fuel m (fd + 1)
        end
      else None
  end.
Definition first_unused (m : gmap Z FdEntry) (min_vfd : Z) : option Z :=
  find_unused (S (size m)) m min_vfd.

(** [None] is a panic. *)
Definition allocate (e : FdEntry) (t : FdTable) : option (Z * FdTable) :=
  match free_fds t with
  | fd :: rest => Some (fd, mkTable (<[fd := e]> (entries t)) (next_vfd t) rest)
  | [] =>
      let vfd := next_vfd t in
      if vfd =? i32_MAX then
        match first_unused (entries t) FIRST_USER_FD with
        | Some fd => Some (fd, mkTable (<[fd := e]> (entries t)) (next_vfd t) [])
        | None => None
        end
      else Some (vfd, mkTable (<[vfd := e]> (entries t)) (vfd + 1) [])
  end.

(** The loop that frees the numbers between [next_vfd] and [vfd]. *)
Definition skipped (t : FdTable) (vfd : Z) : list Z :=
  filter (λ fd, FIRST_USER_FD <= fd ∧ entries t !! fd = None)
    (seqZ (next_vfd t) (vfd - next_vfd t)).

Definition without (fd : Z) (h : list Z) : list Z := filter (λ x, x ≠ fd) h.

Definition allocate_min (min_vfd : Z) (e : FdEntry) (t : FdTable) : option (Z * FdTable) :=
  match first_unused (entries t) min_vfd with
  | None => None
  | Some vfd =>
      let '(next, free) :=
        if next_vfd t <=? vfd
        then (vfd + 1, foldl (λ h fd, heap_push fd h) (free_fds t) (skipped t vfd))
        else (next_vfd t, free_fds t) in
      Some (vfd, mkTable (<[vfd := e]> (entries t)) next (without vfd free))
  end.

(** [vfd + 1] overflows at [i32::MAX]. *)
Definition allocate_at (vfd : Z) (e : FdEntry) (t : FdTable) :
    option (option FdEntry * FdTable) :=
  let free := without vfd (free_fds t) in
  let old := entries t !! vfd in
  if next_vfd t <=? vfd then
    if vfd =? i32_MAX then None
    else Some (old, mkTable (<[vfd := e]> (entries t)) (vfd + 1)
                      (foldl (λ h fd, heap_push fd h) free (skipped t vfd)))
  else Some (old, mkTable (<[vfd := e]> (entries t)) (next_vfd t) free).

Definition get (vfd : Z) (t : FdTable) : option FdEntry := entries t !! vfd.

Definition translate (vfd : Z) (t : FdTable) : option Z :=
  entries t !! vfd ≫= kernel_fd_of.

Definition deallocate (vfd : Z) (t : FdTable) : option FdEntry * FdTable :=
  match entries t !! vfd with
  | None => (None, t)
  | Some e =>
      (Some e, mkTable (base.delete vfd (entries t)) (next_vfd t)
                 (if FIRST_USER_FD <=? vfd then heap_push vfd (free_fds t) else free_fds t))
  end.

(** [duplicate] and [duplicate_at] do nothing for a number that is not in use. *)
Definition duplicate (old_vfd : Z) (t : FdTable) : option (option Z * FdTable) :=
  match get old_vfd t with
  | None => Some (None, t)
  | Some e => '(fd, t') ← allocate e t; Some (Some fd, t')
  end.

Definition duplicate_at (old_vfd new_vfd : Z) (t : FdTable) :
    option (option FdEntry * FdTable) :=
  match get old_vfd t with
  | None => Some (None, t)
  | Some e => allocate_at new_vfd e t
  end.
End FdTable.
Arguments FdEntry : clear implicits.
Arguments FdTable : clear implicits.

(** ** Requests *)

Inductive fd_op F :=
| Allocate (e : FdEntry F)
| AllocateMin (min_vfd : Z) (e : FdEntry F)
| AllocateAt (vfd : Z) (e : FdEntry F)
| Deallocate (vfd : Z)
| Duplicate (old_vfd : Z)
| DuplicateAt (old_vfd new_vfd : Z)
| DeepClone.
Arguments Allocate {_} _.
Arguments AllocateMin {_} _ _.
Arguments AllocateAt {_} _ _.
Arguments Deallocate {_} _.
Arguments Duplicate {_} _.
Arguments DuplicateAt {_} _ _.
Arguments DeepClone {_}.

(** A number ([None]: the number to duplicate is not in use), or the entry that
    was replaced or removed. *)
Inductive fd_result F := RFd (fd : option Z) | ROld (e : option (FdEntry F)).
Arguments RFd {_} _.
Arguments ROld {_} _.

Section Requests.
Context {F : Type}.

Definition fd_step (o : fd_op F) (t : FdTable F) : option (fd_result F * FdTable F) :=
  match o with
  | Allocate e => '(fd, t') ← allocate e t; Some (RFd (Some fd), t')
  | AllocateMin min_vfd e => '(fd, t') ← allocate_min min_vfd e t; Some (RFd (Some fd), t')
  | AllocateAt vfd e => '(old, t') ← allocate_at vfd e t; Some (ROld old, t')
  | Deallocate vfd => let '(old, t') := deallocate vfd t in Some (ROld old, t')
  | Duplicate old_vfd => '(fd, t') ← duplicate old_vfd t; Some (RFd fd, t')
  | DuplicateAt old_vfd new_vfd =>
      '(old, t') ← duplicate_at old_vfd new_vfd t; Some (ROld old, t')
  | DeepClone => Some (RFd None, deep_clone t)
  end.

(** Arguments are of type [i32]. *)
Definition op_i32 (o : fd_op F) : Prop :=
  match o with
  | AllocateAt vfd _ | DuplicateAt _ vfd => vfd <= i32_MAX
  | _ => True
  end.

Fixpoint fd_run (ops : list (fd_op F)) (t : FdTable F) :
    option (list (fd_result F) * FdTable F) :=
  match ops with
  | [] => Some ([], t)
  | o :: ops =>
      '(r, t1) ← fd_step o t; '(rs, t2) ← fd_run ops t1; Some (r :: rs, t2)
  end.
End Requests.

(** ** What the table promises

    Entries by number, and for every request the lowest number that POSIX
    allows. *)
Module FdSpec.
Section FdSpec.
Context {F : Type}.

Definition lowest (m : gmap Z (FdEntry F)) (min fd : Z) : Prop :=
  min <= fd < i32_MAX ∧ m !! fd = None ∧ ∀ x, min <= x < fd → is_Some (m !! x).
Definition full (m : gmap Z (FdEntry F)) (min : Z) : Prop :=
  ∀ x, min <= x < i32_MAX → is_Some (m !! x).

(** The answer and the effect of a request. *)
Definition step (o : fd_op F) (m : gmap Z (FdEntry F)) (r : fd_result F)
    (m' : gmap Z (FdEntry F)) : Prop :=
  match o with
  | Allocate e => ∃ fd, r = RFd (Some fd) ∧ lowest m FIRST_USER_FD fd ∧ m' = <[fd := e]> m
  | AllocateMin min e => ∃ fd, r = RFd (Some fd) ∧ lowest m min fd ∧ m' = <[fd := e]> m
  | AllocateAt vfd e => r = ROld (m !! vfd) ∧ m' = <[vfd := e]> m
  | Deallocate vfd => r = ROld (m !! vfd) ∧ m' = base.delete vfd m
  | Duplicate old =>
      match m !! old with
      | None => r = RFd None ∧ m' = m
      | Some e => ∃ fd, r = RFd (Some fd) ∧ lowest m FIRST_USER_FD fd ∧ m' = <[fd := e]> m
      end
  | DuplicateAt old vfd =>
      match m !! old with
      | None => r = ROld None ∧ m' = m
      | Some e => r = ROld (m !! vfd) ∧ m' = <[vfd := e]> m
      end
  | DeepClone => m' = m
  end.

(** The requests that cannot be answered. *)
Definition stuck (o : fd_op F) (m : gmap Z (FdEntry F)) : Prop :=
  match o with
  | Allocate _ => full m FIRST_USER_FD
  | AllocateMin min _ => full m min
  | AllocateAt vfd _ => vfd = i32_MAX
  | Duplicate old => is_Some (m !! old) ∧ full m FIRST_USER_FD
  | DuplicateAt old vfd => is_Some (m !! old) ∧ vfd = i32_MAX
  | Deallocate _ | DeepClone => False
  end.

Inductive run : list (fd_op F) → gmap Z (FdEntry F) → list (fd_result F) →
    gmap Z (FdEntry F) → Prop :=
| RunNil m : run [] m [] m
| RunCons o ops m m1 m2 r rs :
    step o m r m1 → run ops m1 rs m2 → run (o :: ops) m (r :: rs) m2.
End FdSpec.
End FdSpec.

(** ** Proofs *)
Section Props.
Context {F : Type}.
Implicit Types (t : FdTable F) (m : gmap Z (FdEntry F)).

(** Unused numbers below [next_vfd] are exactly those in the heap, each once. *)
Record table_ok t : Prop := {
  to_sorted : StronglySorted Z.lt (free_fds t);
  to_free fd : fd ∈ free_fds t ↔ FIRST_USER_FD <= fd < next_vfd t ∧ entries t !! fd = None;
  to_entries fd : is_Some (entries t !! fd) → fd < next_vfd t;
  to_next : FIRST_USER_FD <= next_vfd t <= i32_MAX
}.

(** *** Searching *)

(** More consecutive numbers in use than there are entries: impossible. *)
Lemma run_length m fd (k : nat) :
  (∀ x, fd <= x < fd + Z.of_nat k → is_Some (m !! x)) → (k <= size m)%nat.
Proof.
  intros Hx.
  assert (Hsub : list_to_set (C := gset Z) (seqZ fd (Z.of_nat k)) ⊆ dom m).
  { intros x. rewrite elem_of_list_to_set, elem_of_seqZ, elem_of_dom. apply Hx. }
  apply subseteq_size in Hsub. rewrite size_dom, size_list_to_set in Hsub by apply NoDup_seqZ.
  rewrite length_seqZ in *. lia.
Qed.

Lemma find_unused_spec fuel m min fd :
  min <= fd → (∀ x, min <= x < fd → is_Some (m !! x)) →
  (size m < Z.to_nat (fd - min) + fuel)%nat →
  match find_unused fuel m fd with
  | Some r => FdSpec.lowest m min r
  | None => FdSpec.full m min
  end.
Proof.
  revert fd. induction fuel as [|fuel IH]; intros fd Hmin Hused Hfuel.
  - enough (Z.to_nat (fd - min) <= size m)%nat by lia.
    apply (run_length m min). intros x Hx. apply Hused. lia.
  - cbn [find_unused]. destruct (Z.ltb_spec fd i32_MAX) as [Hlt|Hge].
    2:{ intros x Hx. apply Hused. lia. }
    destruct (m !! fd) as [e|] eqn:Hfd.
    + apply IH; [lia| |lia]. intros x Hx. destruct (decide (x = fd)) as [->|]; [by eexists|].
      apply Hused. lia.
    + split_and!; [lia..|done|done].
Qed.

Lemma first_unused_spec m min :
  match first_unused m min with
  | Some r => FdSpec.lowest m min r
  | None => FdSpec.full m min
  end.
Proof. apply find_unused_spec; [lia|intros; lia|lia]. Qed.

(** *** The heap *)

Lemma elem_of_push fd h x : x ∈ heap_push fd h ↔ x = fd ∨ x ∈ h.
Proof.
  induction h as [|y h IH]; cbn [heap_push]; [set_solver|].
  destruct (fd <=? y); [set_solver|]. rewrite !elem_of_cons, IH. naive_solver.
Qed.

Lemma push_sorted fd h : fd ∉ h → StronglySorted Z.lt h → StronglySorted Z.lt (heap_push fd h).
Proof.
  intros Hn Hs. induction Hs as [|y h Hs IH Hy]; cbn [heap_push].
  { repeat constructor. }
  apply not_elem_of_cons in Hn as [Hne Hn]. destruct (Z.leb_spec fd y).
  - constructor; [by constructor|]. constructor; [lia|].
    eapply Forall_impl; [exact Hy|]. intros z. cbv beta. lia.
  - constructor; [by apply IH|]. apply Forall_forall. intros z [->|Hz]%elem_of_push; [lia|].
    rewrite Forall_forall in Hy. by apply Hy.
Qed.

Lemma elem_of_pushes l h x : x ∈ foldl (λ h fd, heap_push fd h) h l ↔ x ∈ l ∨ x ∈ h.
Proof.
  revert h. induction l as [|y l IH]; intros h; cbn [foldl]; [set_solver|].
  rewrite IH, elem_of_push, elem_of_cons. naive_solver.
Qed.

Lemma pushes_sorted l h :
  NoDup l → (∀ x, x ∈ l → x ∉ h) → StronglySorted Z.lt h →
  StronglySorted Z.lt (foldl (λ h fd, heap_push fd h) h l).
Proof.
  revert h. induction l as [|y l IH]; intros h Hl Hd Hs; [done|]. cbn [foldl].
  apply NoDup_cons in Hl as [Hy Hl]. apply IH; [done| |].
  - intros x Hx. rewrite elem_of_push. intros [->|Hh]; [done|]. apply (Hd x); [by right|done].
  - apply push_sorted; [|done]. apply Hd. by left.
Qed.

Lemma without_sorted fd h : StronglySorted Z.lt h → StronglySorted Z.lt (without fd h).
Proof.
  induction 1 as [|y h Hs IH Hy]; [constructor|]. unfold without in *. rewrite filter_cons.
  case_decide; [|done]. constructor; [done|]. rewrite Forall_forall in *.
  intros z [_ Hz]%list_elem_of_filter. by apply Hy.
Qed.

Lemma elem_of_without fd h x : x ∈ without fd h ↔ x ≠ fd ∧ x ∈ h.
Proof. unfold without. by rewrite list_elem_of_filter. Qed.

Lemma elem_of_skipped t vfd x :
  x ∈ skipped t vfd ↔
  (FIRST_USER_FD <= x ∧ entries t !! x = None) ∧ next_vfd t <= x < vfd.
Proof.
  unfold skipped. rewrite list_elem_of_filter, elem_of_seqZ.
  split; intros [? ?]; (split; [done|lia]).
Qed.

(** *** The operations *)

Lemma new_ok : table_ok (new : FdTable F).
Proof.
  split; [constructor| | |done].
  - intros fd. cbn [free_fds next_vfd new]. split; [by intros ?%elem_of_nil|]. unfold FIRST_USER_FD. lia.
  - intros fd [e He]. apply elem_of_list_to_map_2 in He. change (fd < 3). cbn in He.
    repeat (apply elem_of_cons in He as [[= -> _]|He]; [lia|]). by apply elem_of_nil in He.
Qed.

(** Taking the least unused number at or above [min]. *)
Lemma allocate_spec t e :
  table_ok t →
  match allocate e t with
  | Some (fd, t') => FdSpec.lowest (entries t) FIRST_USER_FD fd ∧
      entries t' = <[fd := e]> (entries t) ∧ table_ok t'
  | None => FdSpec.full (entries t) FIRST_USER_FD
  end.
Proof.
  intros [Hs Hf He Hn]. unfold allocate. destruct (free_fds t) as [|fd rest] eqn:Hfree.
  - assert (Hused : ∀ x, FIRST_USER_FD <= x < next_vfd t → is_Some (entries t !! x)).
    { intros x Hx. apply not_eq_None_Some. intros Hnone.
      apply (elem_of_nil (A:=Z) x). rewrite Hf. by split. }
    destruct (Z.eqb_spec (next_vfd t) i32_MAX) as [Heq|Hne].
    + pose proof (first_unused_spec (entries t) FIRST_USER_FD) as Hfirst.
      destruct (first_unused (entries t) FIRST_USER_FD) as [fd|]; [|done].
      destruct Hfirst as ((? & ?) & Hnone & _). rewrite Heq in Hused.
      destruct (Hused fd) as [? Hx]; [lia|]. by rewrite Hnone in Hx.
    + assert (Hnone : entries t !! next_vfd t = None).
      { apply eq_None_not_Some. intros Hx%He. lia. }
      split_and!; [by split_and!; [lia..|done|]|done|].
      split; cbn [free_fds entries next_vfd]; [constructor| | |lia].
      * intros x. split; [by intros ?%elem_of_nil|]. intros [Hx Hnx].
        apply lookup_insert_None in Hnx as [Hnx Hne']. destruct (Hused x) as [? Hy]; [lia|]. congruence.
      * intros x [<-|Hx]%lookup_insert_is_Some'; [lia|]. apply He in Hx. lia.
  - apply StronglySorted_inv in Hs as [Hs Hfd]. rewrite Forall_forall in Hfd.
    assert (Hin : fd ∈ fd :: rest) by by left. apply Hf in Hin as [Hr Hnone].
    split_and!; [split_and!; [lia..|done|]|done|].
    + intros x Hx. apply not_eq_None_Some. intros Hnx.
      assert (Hxin : x ∈ fd :: rest) by (apply Hf; split; [lia|done]).
      apply elem_of_cons in Hxin as [->|Hxin]; [lia|]. apply Hfd in Hxin. lia.
    + split; cbn [free_fds entries next_vfd]; [done| | |done].
      * intros x. rewrite lookup_insert_None. split.
        -- intros Hx. pose proof (Hfd x Hx). assert (Hx' : x ∈ fd :: rest) by by right.
           apply Hf in Hx' as [? ?]. split_and!; [lia..|done|lia].
        -- intros (Hx & Hnx & Hne). assert (Hx' : x ∈ fd :: rest) by by apply Hf.
           by apply elem_of_cons in Hx' as [->|?].
      * intros x [<-|Hx]%lookup_insert_is_Some'; [lia|]. by apply He.
Qed.

(** Entering a number at or above [next_vfd] frees those that were skipped. *)
Lemma far_ok t vfd e :
  table_ok t → next_vfd t <= vfd < i32_MAX →
  table_ok (mkTable (<[vfd := e]> (entries t)) (vfd + 1)
    (foldl (λ h fd, heap_push fd h) (without vfd (free_fds t)) (skipped t vfd))).
Proof.
  intros [Hs Hf He Hn] Hv. split; cbn [free_fds entries next_vfd].
  - apply pushes_sorted; [apply NoDup_filter, NoDup_seqZ| |by apply without_sorted].
    intros x [_ Hx]%elem_of_skipped [_ [Hx' _]%Hf]%elem_of_without. lia.
  - intros x. rewrite elem_of_pushes, elem_of_skipped, elem_of_without, Hf, lookup_insert_None.
    split.
    + intros [[[? ?] ?]|(? & ? & ?)]; (split_and!; [lia..|done|lia]).
    + intros (? & ? & ?). destruct (decide (x < next_vfd t)); [right|left]; split_and!; (done || lia).
  - intros x [<-|Hx]%lookup_insert_is_Some'; [lia|]. apply He in Hx. lia.
  - lia.
Qed.

(** Entering a number below it takes it from the heap. *)
Lemma near_ok t vfd e :
  table_ok t → vfd < next_vfd t →
  table_ok (mkTable (<[vfd := e]> (entries t)) (next_vfd t) (without vfd (free_fds t))).
Proof.
  intros [Hs Hf He Hn] Hv. split; cbn [free_fds entries next_vfd]; [by apply without_sorted| | |done].
  - intros x. rewrite elem_of_without, Hf, lookup_insert_None. naive_solver.
  - intros x [<-|Hx]%lookup_insert_is_Some'; [lia|]. by apply He.
Qed.

Lemma without_far t vfd l :
  table_ok t → next_vfd t <= vfd →
  l = skipped t vfd →
  without vfd (foldl (λ h fd, heap_push fd h) (free_fds t) l) =
  foldl (λ h fd, heap_push fd h) (without vfd (free_fds t)) l.
Proof.
  intros Hok Hv ->.
  assert (Hout : ∀ x, x ∈ foldl (λ h fd, heap_push fd h) (free_fds t) (skipped t vfd) → x ≠ vfd).
  { intros x [Hx|Hx]%elem_of_pushes ->; [apply elem_of_skipped in Hx; lia|].
    apply (to_free _ Hok) in Hx. lia. }
  assert (Hid : ∀ h, (∀ x, x ∈ h → x ≠ vfd) → without vfd h = h).
  { intros h Hh. unfold without. induction h as [|y h IH]; [done|]. rewrite filter_cons, decide_True.
    - f_equal. apply IH. intros x Hx. apply Hh. by right.
    - apply Hh. by left. }
  rewrite (Hid _ Hout), (Hid (free_fds t)); [done|]. intros x Hx ->.
  apply (to_free _ Hok) in Hx. lia.
Qed.

Lemma allocate_min_spec t min e :
  table_ok t →
  match allocate_min min e t with
  | Some (fd, t') => FdSpec.lowest (entries t) min fd ∧
      entries t' = <[fd := e]> (entries t) ∧ table_ok t'
  | None => FdSpec.full (entries t) min
  end.
Proof.
  intros Hok. unfold allocate_min. pose proof (first_unused_spec (entries t) min) as Hfirst.
  destruct (first_unused (entries t) min) as [fd|]; [|done].
  destruct (Z.leb_spec (next_vfd t) fd); (split_and!; [done|done|]).
  - rewrite without_far by done. apply far_ok; [done|]. split; [done|]. by destruct Hfirst as [[??] _].
  - by apply near_ok.
Qed.

Lemma allocate_at_spec t vfd e :
  table_ok t →
  match allocate_at vfd e t with
  | Some (old, t') => vfd ≠ i32_MAX ∧ old = entries t !! vfd ∧
      entries t' = <[vfd := e]> (entries t) ∧ (vfd <= i32_MAX → table_ok t')
  | None => vfd = i32_MAX
  end.
Proof.
  intros Hok. unfold allocate_at. pose proof (to_next _ Hok).
  destruct (Z.leb_spec (next_vfd t) vfd).
  - destruct (Z.eqb_spec vfd i32_MAX); [done|]. split_and!; [done..|]. intros ?.
    apply far_ok; [done|lia].
  - split_and!; [lia|done..|]. intros _. by apply near_ok.
Qed.

Lemma deallocate_spec t vfd :
  table_ok t →
  let '(old, t') := deallocate vfd t in
  old = entries t !! vfd ∧ entries t' = base.delete vfd (entries t) ∧ table_ok t'.
Proof.
  intros Hok. unfold deallocate. destruct (entries t !! vfd) as [e|] eqn:Hv.
  2:{ split_and!; [done| |done]. by rewrite delete_id. }
  split_and!; [done..|]. destruct Hok as [Hs Hf He Hn].
  assert (Hlt : vfd < next_vfd t) by (apply He; by eexists).
  assert (Hout : vfd ∉ free_fds t) by (rewrite Hf; intros [_ Hx]; congruence).
  split; cbn [free_fds entries next_vfd]; [| | |done].
  - destruct (FIRST_USER_FD <=? vfd); [by apply push_sorted|done].
  - intros x. rewrite lookup_delete_None. destruct (Z.leb_spec FIRST_USER_FD vfd).
    + rewrite elem_of_push, Hf. destruct (decide (x = vfd)) as [->|]; [naive_solver|naive_solver].
    + rewrite Hf. split; [naive_solver|]. intros [? [->|?]]; [lia|done].
  - intros x [_ Hx]%lookup_delete_is_Some. by apply He.
Qed.

Lemma fd_step_spec o t :
  table_ok t → op_i32 o →
  match fd_step o t with
  | Some (r, t') => FdSpec.step o (entries t) r (entries t') ∧ table_ok t'
  | None => FdSpec.stuck o (entries t)
  end.
Proof.
  intros Hok Hi. destruct o as [e|min e|vfd e|vfd|old|old vfd|]; cbn [fd_step op_i32] in *.
  - pose proof (allocate_spec t e Hok) as H. destruct (allocate e t) as [[fd t']|]; [|done].
    destruct H as (? & ? & ?). split; [by exists fd|done].
  - pose proof (allocate_min_spec t min e Hok) as H.
    destruct (allocate_min min e t) as [[fd t']|]; [|done].
    destruct H as (? & ? & ?). split; [by exists fd|done].
  - pose proof (allocate_at_spec t vfd e Hok) as H.
    destruct (allocate_at vfd e t) as [[old t']|]; [|done].
    destruct H as (? & -> & ? & ?). by split; [|auto].
  - pose proof (deallocate_spec t vfd Hok) as H. destruct (deallocate vfd t) as [old t'].
    by destruct H as (-> & ? & ?).
  - cbn [FdSpec.step FdSpec.stuck]. unfold duplicate, get.
    destruct (entries t !! old) as [e|]; [|done]. cbn [mbind option_bind].
    pose proof (allocate_spec t e Hok) as H. destruct (allocate e t) as [[fd t']|]; cbn.
    + destruct H as (? & ? & ?). split; [by exists fd|done].
    + by split; [eexists|].
  - cbn [FdSpec.step FdSpec.stuck]. unfold duplicate_at, get.
    destruct (entries t !! old) as [e|]; [|done].
    pose proof (allocate_at_spec t vfd e Hok) as H.
    destruct (allocate_at vfd e t) as [[o t']|]; cbn.
    + destruct H as (? & -> & ? & ?). by split; [|auto].
    + by split; [eexists|].
  - split; [done|]. by destruct t.
Qed.

Lemma fd_run_spec ops t :
  table_ok t → Forall op_i32 ops →
  match fd_run ops t with
  | Some (rs, t') => FdSpec.run ops (entries t) rs (entries t') ∧ table_ok t'
  | None => ∃ done o rest rs t', ops = done ++ o :: rest ∧ fd_run done t = Some (rs, t') ∧
              FdSpec.stuck o (entries t')
  end.
Proof.
  revert t. induction ops as [|o ops IH]; intros t Hok Hops; [by split; [constructor|]|].
  apply Forall_cons in Hops as [Ho Hops]. cbn [fd_run].
  pose proof (fd_step_spec o t Hok Ho) as H. destruct (fd_step o t) as [[r t1]|] eqn:Hstep; cbn.
  2:{ by exists [], o, ops, [], t. }
  destruct H as [Hs Hok1]. specialize (IH t1 Hok1 Hops).
  destruct (fd_run ops t1) as [[rs t2]|]; cbn.
  - destruct IH as [Hr Hok2]. split; [by econstructor|done].
  - destruct IH as (pre & o' & rest & rs & t' & -> & Hr & Hst).
    exists (o :: pre), o', rest, (r :: rs), t'. split_and!; [done| |done].
    cbn [fd_run]. rewrite Hstep. cbn. by rewrite Hr.
Qed.


(** What is in the table comes from the requests: no entry appears by itself. *)
Lemma translate_allocated t fd e t' :
  table_ok t → allocate e t = Some (fd, t') → translate fd t' = kernel_fd_of e.
Proof.
  intros Hok Ha. pose proof (allocate_spec t e Hok) as H. rewrite Ha in H.
  destruct H as (_ & He & _). unfold translate. rewrite He, lookup_insert_eq. done.
Qed.
End Props.

(** *** Where the table is not POSIX *)

(** Closing a standard descriptor does not make it available: after
    [deallocate 0] the next allocation gets 3 although 0 is unused (a shell's
    redirection that closes 0 and opens a file expects to get 0); and a negative
    minimum is accepted and returned as a descriptor. *)
Theorem standard_fds_not_reused (e : FdEntry unit) :
  (∃ t, deallocate 0 new = (Some (Passthrough 0 0 None), t) ∧
        entries t !! 0 = None ∧ fst <$> allocate e t = Some 3) ∧
  fst <$> allocate_min (-5) e new = Some (-5).
Proof. split; [eexists; split_and!; done|done]. Qed.

