(* ===== verification/Mounts.v ===== *)
(** * Mounts: where the paths of a sandboxed process lead

    [sandbox/src/vfs/mod.rs], [bind.rs], [mount.rs] and the path translation of
    [sqlite.rs]: mount points, the table that picks the deepest one, and the
    parser of mount specifications.  Paths are strings; those that are not
    valid UTF-8, which every translation refuses, are left out. *)
From S2P Require Import Prelude Path.

(** [VfsError]; the text of an I/O error is not kept. *)
Module VfsError.
Inductive t :=
| NotFound | PermissionDenied | AlreadyExists
| InvalidInput (msg : string) | IoError | Other (msg : string).
#[export] Instance eq_dec : EqDecision t.
Proof. solve_decision. Defined.
End VfsError.

(** ** [std::path] *)

(** [PathBuf::join]. *)
Definition ends_with_slash (s : string) : bool := negb (String.eqb (trim_end s) s).
Definition path_push (base target : string) : string :=
  if starts_with target "/" then target
  else if String.eqb base "" || ends_with_slash base then base +:+ target
  else base +:+ "/" +:+ target.

(** [Path::components().count()]: the root, and the pieces that are neither empty
    nor a dot, but for a dot at the very beginning. *)
Definition component_count (path : string) : nat :=
  (if starts_with path "/" || bool_decide (head (split_slash path) = Some "."%string)
   then 1 else 0) +
  length (filter (λ c, c ≠ "" ∧ c ≠ ".") (split_slash path)).

(** ** Bind mounts *)

Record BindVfs := mkBind { host_root : string; sandbox_root : string }.

Definition bind_translate (v : BindVfs) (path : string) : VfsError.t + string :=
  let sandbox_str := sandbox_root v in
  if String.eqb path sandbox_str || starts_with path (sandbox_str +:+ "/") then
    let relative := trim_start (default "" (strip_prefix path sandbox_str)) in
    inr (if String.eqb relative "" then host_root v else path_push (host_root v) relative)
  else inl VfsError.NotFound.

(** ** SQLite mounts *)

(** [SqliteVfs::translate_path] only looks at the characters. *)
Definition sqlite_translate (mount_point path : string) : VfsError.t + string :=
  if starts_with path mount_point then inr path else inl VfsError.NotFound.

(** The path within the filesystem. *)
Definition translate_to_relative (mount_point path : string) : VfsError.t + string :=
  if String.eqb path mount_point then inr "/"%string
  else match strip_prefix path (mount_point +:+ "/") with
       | Some rel => inr ("/" +:+ rel)
       | None => inl VfsError.NotFound
       end.

(** ** The mount table *)

Inductive Vfs := Bind (v : BindVfs) | Sqlite (mount_point : string).

Definition translate_path (v : Vfs) (path : string) : VfsError.t + string :=
  match v with
  | Bind v => bind_translate v path
  | Sqlite mount_point => sqlite_translate mount_point path
  end.
Definition is_virtual (v : Vfs) : bool :=
  match v with Bind _ => false | Sqlite _ => true end.

Record MountPoint := mkMount { sandbox_path : string; vfs : Vfs }.
Definition MountTable : Type := list MountPoint.

(** [sort_by_key] is stable: an element goes behind those that are as deep. *)
Fixpoint insert_mount (m : MountPoint) (l : MountTable) : MountTable :=
  match l with
  | [] => [m]
  | x :: l' =>
      if Nat.leb (component_count (sandbox_path m)) (component_count (sandbox_path x))
      then x :: insert_mount m l' else m :: l
  end.
Definition sort_by_depth (l : MountTable) : MountTable :=
  foldl (λ sorted m, insert_mount m sorted) [] l.

Definition add_mount (m : MountPoint) (t : MountTable) : MountTable :=
  sort_by_depth (t ++ [m]).

Fixpoint resolve (t : MountTable) (path : string) : option (Vfs * string) :=
  match t with
  | [] => None
  | m :: t =>
      match translate_path (vfs m) path with
      | inr translated => Some (vfs m, translated)
      | inl _ => resolve t path
      end
  end.

(** ** Mount specifications *)

Inductive MountType := BindType (src : string) | SqliteType (src : string).
Record MountConfig := mkConfig { mount_type : MountType; dst : string }.

(** The messages of [from_str], by what they report. *)
Inductive ConfigError :=
| InvalidOption (part : string)
| DuplicateKey (key : string)
| MissingType
| MissingSrc (kind : string)
| MissingDst (kind : string)
| NotAbsolute (dst : string)
| Canonicalize (src err : string)
| UnsupportedType (kind : string).

(** [str::split] at a character, and [splitn(2, _)] into two parts. *)
Fixpoint split_on (c : Ascii.ascii) (s : string) : list string :=
  match s with
  | EmptyString => [""]
  | String a s =>
      if Ascii.eqb a c then "" :: split_on c s
      else match split_on c s with
           | [] => [String a ""]
           | p :: ps => String a p :: ps
           end
  end.
Fixpoint split_once (c : Ascii.ascii) (s : string) : option (string * string) :=
  match s with
  | EmptyString => None
  | String a s =>
      if Ascii.eqb a c then Some ("", s)
      else '(k, v) ← split_once c s; Some (String a k, v)
  end.

Definition comma : Ascii.ascii := Ascii.Ascii false false true true false true false false.
Definition equals : Ascii.ascii := Ascii.Ascii true false true true true true false false.

Fixpoint parse_parts (parts : list string) (options : gmap string string) :
    ConfigError + gmap string string :=
  match parts with
  | [] => inr options
  | part :: parts =>
      match split_once equals part with
      | None => inl (InvalidOption part)
      | Some (k, v) =>
          match options !! k with
          | Some _ => inl (DuplicateKey k)
          | None => parse_parts parts (<[k := v]> options)
          end
      end
  end.

(** [get(key).or_else(|| get(alias))] *)
Definition option_or_alias (options : gmap string string) (key alias : string) :
    option string :=
  match options !! key with Some v => Some v | None => options !! alias end.

(** [std::fs::canonicalize], which looks at the host's filesystem. *)
Class Host := { canonicalize : string → string + string }.

Section Config.
Context {H : Host}.

Definition from_options (options : gmap string string) : ConfigError + MountConfig :=
  match options !! "type"%string with
  | None => inl MissingType
  | Some kind =>
      if String.eqb kind "bind" then
        match option_or_alias options "src" "source" with
        | None => inl (MissingSrc kind)
        | Some src =>
            match option_or_alias options "dst" "target" with
            | None => inl (MissingDst kind)
            | Some dst =>
                if starts_with dst "/" then
                  match canonicalize src with
                  | inl err => inl (Canonicalize src err)
                  | inr src => inr (mkConfig (BindType src) dst)
                  end
                else inl (NotAbsolute dst)
            end
        end
      else if String.eqb kind "sqlite" then
        match option_or_alias options "src" "source" with
        | None => inl (MissingSrc kind)
        | Some src =>
            match option_or_alias options "dst" "target" with
            | None => inl (MissingDst kind)
            | Some dst =>
                if starts_with dst "/" then inr (mkConfig (SqliteType src) dst)
                else inl (NotAbsolute dst)
            end
        end
      else inl (UnsupportedType kind)
  end.

Definition from_str (s : string) : ConfigError + MountConfig :=
  match parse_parts (split_on comma s) ∅ with
  | inl e => inl e
  | inr options => from_options options
  end.
End Config.

(** ** Prefixes *)

(** A mount covers the paths whose pieces start with the pieces of its root. *)
Definition covers (root path : string) : Prop := split_slash root `prefix_of` split_slash path.

#[export] Instance covers_dec root path : Decision (covers root path).
Proof. unfold covers. apply _. Defined.

Lemma starts_with_spec s p : starts_with s p = true ↔ ∃ t, s = p +:+ t.
Proof.
  revert s. induction p as [|a p IH]; intros s; cbn [starts_with].
  - split; [by exists s|by destruct s].
  - destruct s as [|b s]; [split; [done|by intros [t Ht]]|].
    cbn [starts_with]. rewrite andb_true_iff, IH. split.
    + intros [Hab%Ascii.eqb_eq [t ->]]. exists t. by subst.
    + intros [t [= -> ->]]. split; [apply Ascii.eqb_refl|by exists t].
Qed.

Lemma strip_prefix_app p t : strip_prefix (p +:+ t) p = Some t.
Proof. induction p as [|a p IH]; [by destruct t|]. simpl. by rewrite Ascii.eqb_refl. Qed.

Lemma string_app_nil (s : string) : s +:+ "" = s.
Proof. induction s as [|a s IH]; [done|]. exact (f_equal (String a) IH). Qed.

Lemma split_slash_inj s t : split_slash s = split_slash t → s = t.
Proof.
  revert t. induction s as [|a s IH]; intros t.
  - destruct t as [|b t]; [done|]. cbn [split_slash].
    destruct (split_slash_cons t) as (p & ps & Ht). rewrite Ht.
    destruct (Ascii.eqb b slash); intros Heq; simplify_eq.
  - destruct t as [|b t]; cbn [split_slash].
    + destruct (split_slash_cons s) as (p & ps & Hs). rewrite Hs. destruct (Ascii.eqb a slash); intros Heq; simplify_eq.
    + destruct (split_slash_cons s) as (p & ps & Hs), (split_slash_cons t) as (q & qs & Ht).
      rewrite Hs, Ht. destruct (Ascii.eqb_spec a slash), (Ascii.eqb_spec b slash); intros Heq;
        simplify_eq; f_equal; apply IH; congruence.
Qed.

Lemma split_slash_join_inv (l : list string) : l ≠ [] → Forall (λ p, split_slash p = [p]) l →
  split_slash (join_slash l) = l.
Proof.
  intros Hne Hl. induction Hl as [|p l Hs Hl IH]; [done|]. destruct l as [|q l]; [done|].
  change (join_slash (p :: q :: l)) with (p +:+ String slash (join_slash (q :: l))).
  by rewrite split_slash_app, IH.
Qed.

(** The test of [translate_path] is the prefix of pieces. *)
Lemma covers_spec root path :
  covers root path ↔ path = root ∨ ∃ rest, path = root +:+ String slash rest.
Proof.
  unfold covers. split.
  - intros [[|q qs] Hk].
    + left. apply split_slash_inj. by rewrite Hk, app_nil_r.
    + right. exists (join_slash (q :: qs)). apply split_slash_inj.
      rewrite Hk, split_slash_join. f_equal. symmetry. apply split_slash_join_inv; [done|].
      pose proof (split_slash_pieces path) as Hp. rewrite Hk in Hp. by apply Forall_app in Hp as [_ ?].
  - intros [->|[rest ->]]; [done|]. rewrite split_slash_join. by eexists.
Qed.

Lemma bind_covers v path :
  (String.eqb path (sandbox_root v) || starts_with path (sandbox_root v +:+ "/") = true) ↔
  covers (sandbox_root v) path.
Proof.
  rewrite covers_spec, orb_true_iff, starts_with_spec. split.
  - intros [->%String.eqb_eq|[t ->]]; [by left|right]. exists t. by rewrite <-string_app_assoc.
  - intros [->|[t ->]]; [left; apply String.eqb_refl|right]. exists t.
    by rewrite <-string_app_assoc.
Qed.

(** What a bind mount does with a path it covers. *)
Definition host_path (v : BindVfs) (rest : string) : string :=
  if String.eqb (trim_start rest) "" then host_root v
  else path_push (host_root v) (trim_start rest).

Lemma bind_translate_spec v path :
  (∀ rest, path = sandbox_root v +:+ rest → covers (sandbox_root v) path →
     bind_translate v path = inr (host_path v rest)) ∧
  (¬ covers (sandbox_root v) path → bind_translate v path = inl VfsError.NotFound).
Proof.
  unfold bind_translate. split.
  - intros rest Hp Hc%bind_covers. rewrite Hc, Hp, strip_prefix_app. done.
  - intros Hn. rewrite <-bind_covers in Hn. by destruct (_ || _).
Qed.

Lemma covers_rest root path : covers root path → ∃ rest, path = root +:+ rest.
Proof.
  intros [->|[rest ->]]%covers_spec; [exists ""; by rewrite string_app_nil|by eexists].
Qed.

(** ** The order of the table *)

Definition deeper (a b : MountPoint) : Prop :=
  (component_count (sandbox_path b) <= component_count (sandbox_path a))%nat.

Lemma insert_mount_perm m l : insert_mount m l ≡ₚ m :: l.
Proof.
  induction l as [|x l IH]; [done|]. cbn [insert_mount]. destruct (Nat.leb _ _); [|done].
  rewrite IH. apply Permutation_swap.
Qed.

Lemma insert_mount_sorted m l :
  StronglySorted deeper l → StronglySorted deeper (insert_mount m l).
Proof.
  induction 1 as [|x l Hs IH Hx]; cbn [insert_mount]; [by repeat constructor|].
  destruct (Nat.leb_spec (component_count (sandbox_path m)) (component_count (sandbox_path x))).
  - constructor; [done|]. apply Forall_forall. intros y Hy.
    rewrite insert_mount_perm in Hy. apply elem_of_cons in Hy as [->|Hy]; [done|].
    rewrite Forall_forall in Hx. by apply Hx.
  - constructor; [by constructor|]. constructor; [unfold deeper; lia|].
    eapply Forall_impl; [exact Hx|]. intros y. unfold deeper. lia.
Qed.

Lemma sort_by_depth_spec l :
  sort_by_depth l ≡ₚ l ∧ StronglySorted deeper (sort_by_depth l).
Proof.
  unfold sort_by_depth. assert (H : ∀ acc, StronglySorted deeper acc →
    foldl (λ sorted m, insert_mount m sorted) acc l ≡ₚ l ++ acc ∧
    StronglySorted deeper (foldl (λ sorted m, insert_mount m sorted) acc l)).
  { induction l as [|m l IH]; intros acc Hacc; [done|]. cbn [foldl].
    destruct (IH (insert_mount m acc)) as [Hp Hs]; [by apply insert_mount_sorted|].
    split; [|done]. rewrite Hp, insert_mount_perm. cbn. by rewrite Permutation_middle. }
  destruct (H []) as [Hp Hs]; [constructor|]. by rewrite app_nil_r in Hp.
Qed.

Lemma add_mounts_spec ms :
  let t := foldl (λ t m, add_mount m t) [] ms in
  t ≡ₚ ms ∧ StronglySorted deeper t.
Proof.
  cbn zeta. assert (H : ∀ acc, StronglySorted deeper acc →
    foldl (λ t m, add_mount m t) acc ms ≡ₚ acc ++ ms ∧
    StronglySorted deeper (foldl (λ t m, add_mount m t) acc ms)).
  { induction ms as [|m ms IH]; intros acc Hacc; cbn [foldl]; [by rewrite app_nil_r|].
    destruct (sort_by_depth_spec (acc ++ [m])) as [Hp Hs].
    destruct (IH (add_mount m acc) Hs) as [Hp' Hs']. split; [|done].
    rewrite Hp'. unfold add_mount. rewrite Hp. by rewrite <-app_assoc. }
  apply (H []). constructor.
Qed.

(** The first match in a sorted table is a deepest one. *)
Lemma resolve_first t path :
  StronglySorted deeper t →
  match resolve t path with
  | Some (v, translated) => ∃ m, m ∈ t ∧ vfs m = v ∧ translate_path v path = inr translated ∧
      ∀ m' tr, m' ∈ t → translate_path (vfs m') path = inr tr → deeper m m'
  | None => ∀ m, m ∈ t → ∀ tr, translate_path (vfs m) path ≠ inr tr
  end.
Proof.
  induction 1 as [|m t Hs IH Hm]; cbn [resolve]; [by intros m ?%elem_of_nil|].
  destruct (translate_path (vfs m) path) as [e|tr] eqn:Htr.
  - destruct (resolve t path) as [[v translated]|].
    + destruct IH as (m' & Hin & Hv & Htr' & Hbest). exists m'. split_and!; [by right|done..|].
      intros m'' tr [->|Hin'']%elem_of_cons Htr''; [congruence|]. by eapply Hbest.
    + intros m' [->|Hin]%elem_of_cons tr; [by rewrite Htr|]. by apply IH.
  - exists m. split_and!; [by left|done..|]. intros m' tr' [->|Hin]%elem_of_cons _; [by unfold deeper|].
    rewrite Forall_forall in Hm. by apply Hm.
Qed.

(** A mount made as the sandbox makes it: under the path it translates. *)
Definition bind_mount (v : BindVfs) : MountPoint := mkMount (sandbox_root v) (Bind v).


(** Where a path does not lead where it should.  A SQLite mount takes the paths
    of every sibling whose name starts like its own (and then cannot open
    them); a bind mount on the root covers nothing but the root; and [..] in a
    path is not resolved, so that it leads out of the host's directory. *)
Theorem mounts_astray :
  let agent := mkMount "/agent" (Sqlite "/agent") in
  let data := bind_mount (mkBind "/srv/data" "/agent-data") in
  resolve (add_mount data (add_mount agent [])) "/agent-data/f" =
    Some (Sqlite "/agent", "/agent-data/f"%string) ∧
  translate_to_relative "/agent" "/agent-data/f" = inl VfsError.NotFound ∧
  resolve (add_mount (bind_mount (mkBind "/srv/root" "/")) []) "/etc/passwd" = None ∧
  resolve (add_mount data []) "/agent-data/../../etc/passwd" =
    Some (Bind (mkBind "/srv/data" "/agent-data"), "/srv/data/../../etc/passwd"%string).
Proof. by vm_compute. Qed.

(** ** Specifications *)

(** A specification as a client writes it. *)
Definition render_option (kv : string * string) : string :=
  kv.1 +:+ String equals kv.2.
Fixpoint join_comma (l : list string) : string :=
  match l with
  | [] => ""
  | [p] => p
  | p :: ps => p +:+ String comma (join_comma ps)
  end.
Definition render_options (kvs : list (string * string)) : string :=
  join_comma (render_option <$> kvs).

(** Keys have no [=], and neither keys nor values a comma. *)
Definition lacks (c : Ascii.ascii) (s : string) : Prop := split_on c s = [s].
Definition option_ok (kv : string * string) : Prop :=
  lacks equals kv.1 ∧ lacks comma kv.1 ∧ lacks comma kv.2.

Lemma split_on_cons c s : ∃ p ps, split_on c s = p :: ps.
Proof.
  induction s as [|a s (p & ps & IH)]; simpl; [eauto|].
  destruct (Ascii.eqb a c); [eauto|]. rewrite IH. eauto.
Qed.

Lemma lacks_cons c a s : lacks c (String a s) ↔ Ascii.eqb a c = false ∧ lacks c s.
Proof.
  unfold lacks. cbn [split_on]. destruct (split_on_cons c s) as (p & ps & Hs). rewrite Hs.
  destruct (Ascii.eqb a c); split.
  - intros [=].
  - by intros [? ?].
  - intros [= -> ->]. done.
  - by intros [_ [= -> ->]].
Qed.

Lemma lacks_app c s t : lacks c s → lacks c t → lacks c (s +:+ t).
Proof.
  induction s as [|a s IH]; [done|]. intros [Ha Hs]%lacks_cons Ht.
  change (String a s +:+ t) with (String a (s +:+ t)). apply lacks_cons. auto.
Qed.

Lemma split_on_app c s t : lacks c s → split_on c (s +:+ String c t) = s :: split_on c t.
Proof.
  induction s as [|a s IH].
  - intros _. change ("" +:+ ?x) with x. cbn [split_on]. by rewrite Ascii.eqb_refl.
  - intros [Ha Hs]%lacks_cons. change (String a s +:+ ?x) with (String a (s +:+ x)).
    cbn [split_on]. by rewrite Ha, IH.
Qed.

Lemma split_once_app c k v : lacks c k → split_once c (k +:+ String c v) = Some (k, v).
Proof.
  induction k as [|a k IH].
  - intros _. change ("" +:+ ?x) with x. cbn [split_once]. by rewrite Ascii.eqb_refl.
  - intros [Ha Hk]%lacks_cons. change (String a k +:+ ?x) with (String a (k +:+ x)).
    cbn [split_once]. by rewrite Ha, IH.
Qed.

Lemma split_render_options kvs :
  kvs ≠ [] → Forall option_ok kvs →
  split_on comma (render_options kvs) = render_option <$> kvs.
Proof.
  intros Hne Hok. assert (Hparts : Forall (lacks comma) (render_option <$> kvs)).
  { apply Forall_fmap. eapply Forall_impl; [exact Hok|]. intros [k v] (_ & Hk & Hv).
    apply lacks_app; [done|]. by apply lacks_cons. }
  unfold render_options. assert (Hne' : render_option <$> kvs ≠ []) by by destruct kvs.
  clear Hok Hne. induction Hparts as [|p l Hp Hl IH]; [done|]. destruct l as [|q l]; [exact Hp|].
  change (join_comma (p :: q :: l)) with (p +:+ String comma (join_comma (q :: l))).
  rewrite split_on_app by done. by rewrite IH.
Qed.

Lemma parse_parts_render kvs options :
  Forall option_ok kvs → NoDup kvs.*1 → (∀ k, k ∈ kvs.*1 → options !! k = None) →
  parse_parts (render_option <$> kvs) options = inr (list_to_map kvs ∪ options).
Proof.
  revert options. induction kvs as [|[k v] kvs IH]; intros options Hok Hnd Hnew.
  { cbn. by rewrite map_empty_union. }
  apply Forall_cons in Hok as [(Hk & _ & _) Hok]. cbn [fmap list_fmap] in *.
  apply NoDup_cons in Hnd as [Hkn Hnd]. cbn [parse_parts].
  unfold render_option at 1. cbn [fst snd]. rewrite split_once_app by done.
  rewrite Hnew by by left. rewrite IH; [|done..|].
  - f_equal. cbn [list_to_map foldr curry]. rewrite <-insert_union_r, insert_union_l; [done|].
    by apply not_elem_of_list_to_map_1.
  - intros k' Hk'. rewrite lookup_insert_ne; [apply Hnew; by right|]. by intros ->.
Qed.

(** A specification says what its options say, in any order.  A mount
    specification made of [key=value] options with different keys is parsed into
    exactly those options (values may contain [=]); so two that list the same options
    in another order mean the same. *)
Theorem config_options {H : Host} (kvs kvs' : list (string * string)) :
  kvs ≠ [] → Forall option_ok kvs → NoDup kvs.*1 → kvs' ≡ₚ kvs →
  from_str (render_options kvs) = from_options (list_to_map kvs) ∧
  from_str (render_options kvs') = from_str (render_options kvs).
Proof.
  intros Hne Hok Hnd Hp.
  assert (Hall : ∀ l, l ≠ [] → Forall option_ok l → NoDup l.*1 →
    from_str (render_options l) = from_options (list_to_map l)).
  { intros l Hl Hlok Hlnd. unfold from_str. rewrite split_render_options by done.
    rewrite parse_parts_render by done. by rewrite map_union_empty. }
  split; [by apply Hall|]. rewrite !Hall; [|done..| | |].
  - f_equal. apply list_to_map_proper; [by rewrite Hp|done].
  - intros ->. by apply Permutation_nil_l in Hp.
  - by rewrite Hp.
  - by rewrite Hp.
Qed.

#[local] Instance plain_host : Host := {| canonicalize s := inr s |}.

Lemma config_options_witness :
  from_str "type=bind,src=/a=b,dst=/data" = inr (mkConfig (BindType "/a=b") "/data") ∧
  from_str "dst=/data,type=bind,src=/a=b" = from_str "type=bind,src=/a=b,dst=/data".
Proof.
  refine (config_options [("type", "bind"); ("src", "/a=b"); ("dst", "/data")]%string
            [("dst", "/data"); ("type", "bind"); ("src", "/a=b")]%string _ _ _ _).
  - done.
  - by repeat constructor.
  - by apply (bool_decide_unpack _).
  - by apply (bool_decide_unpack _).
Defined.
