(* ===== verification/SqliteVfs.v ===== *)
(** * SqliteVfs: an AgentFS filesystem inside the sandbox

    [sandbox/src/vfs/sqlite.rs]: paths below a mount point are operations on the
    inodes of an [AgentFS].  An open file is a private buffer ([SqliteFileOps]) that
    [fsync] and [close] write back; an open directory keeps the entries it has read
    ([SqliteDirectoryOps]).  [HandleSpec] is the reference for an open file. *)
From stdpp Require Import pretty.
From S2P Require Import Prelude Types Engine Lru Schema FileIO Path AgentFS Mounts.

(** The constants of the [libc] crate that are used here. *)
Class LibcIo := {
  O_CREAT : Z; O_TRUNC : Z; O_APPEND : Z; O_RDONLY : Z; O_RDWR : Z;
  SEEK_SET : Z; SEEK_CUR : Z; SEEK_END : Z; F_GETFL : Z; F_SETFL : Z;
  DT_DIR : Z; DT_LNK : Z; DT_REG : Z;
  seek_distinct : NoDup [SEEK_SET; SEEK_CUR; SEEK_END]
}.

(** The Linux values. *)
#[export] Program Instance libc_io_linux : LibcIo := {|
  O_CREAT := 0x40; O_TRUNC := 0x200; O_APPEND := 0x400; O_RDONLY := 0; O_RDWR := 2;
  SEEK_SET := 0; SEEK_CUR := 1; SEEK_END := 2; F_GETFL := 3; F_SETFL := 4;
  DT_DIR := 4; DT_LNK := 10; DT_REG := 8 |}.
Next Obligation. apply (bool_decide_unpack _). by vm_compute. Qed.

(** [flags & bit != 0]. *)
Definition has_flag (flags bit : Z) : bool := negb (Z.land flags bit =? 0).

(** [str::contains]. *)
Fixpoint contains (s needle : string) : bool :=
  starts_with s needle ||
  match s with EmptyString => false | String _ s => contains s needle end.

(** The pieces of [Path::new(path).parent()]: a path ends before the last piece
    that is neither empty nor a dot. *)
Definition drop_trailing (l : list string) : list string :=
  foldr (λ c rest,
    match rest with
    | [] => if String.eqb c "" || String.eqb c "." then [] else [c]
    | _ => c :: rest
    end) [] l.
Definition parent_components (path : string) : list string :=
  filter nonempty (drop_trailing (removelast (drop_trailing (split_slash path)))).

(** ** Results of the sandbox *)

Inductive VResult (A : Type) :=
| VOk (a : A)
| VErr (e : VfsError.t)
| VPanic.
Arguments VOk {_} _.
Arguments VErr {_} _.
Arguments VPanic {_}.

Definition VM (S A : Type) : Type := S → VResult A * S.
#[export] Instance VM_ret S : MRet (VM S) := λ A a s, (VOk a, s).
#[export] Instance VM_bind S : MBind (VM S) := λ A B f m s,
  match m s with
  | (VOk a, s') => f a s'
  | (VErr e, s') => (VErr e, s')
  | (VPanic, s') => (VPanic, s')
  end.

(** [struct stat], as far as it is filled in; [st_dev], [st_rdev] and the
    nanoseconds are set to zero, [st_blksize] to 4096. *)
Record LibcStat := mkLibcStat {
  ls_ino : Z; ls_nlink : Z; ls_mode : Z; ls_uid : Z; ls_gid : Z; ls_size : Z;
  ls_blocks : Z; ls_atime : Z; ls_mtime : Z; ls_ctime : Z
}.

(** An open file, and an open directory; an entry is inode, name and type. *)
Record SqliteFileOps := mkFileOps {
  fo_ino : Z; fo_path : string; fo_data : bytes; fo_offset : Z; fo_flags : Z; fo_dirty : bool
}.
Record SqliteDirectoryOps := mkDirOps {
  do_ino : Z; do_path : string; do_flags : Z;
  do_entries : option (list (Z * string * Z)); do_position : nat
}.
Inductive BoxedFileOps := FileOps (f : SqliteFileOps) | DirectoryOps (f : SqliteDirectoryOps).

(** [SqliteVfs::split_path]: the part before the last slash, and the name. *)
Definition split_parent (path : string) : VfsError.t + (string * string) :=
  if String.eqb path "/" then inl (VfsError.InvalidInput "Cannot split root path")
  else
    let pieces := split_slash (trim_end path) in
    match removelast pieces with
    | [] => inr ("/"%string, trim_end path)
    | [first] => inr (if String.eqb first "" then "/"%string else first, List.last pieces ""%string)
    | init => inr (join_slash init, List.last pieces ""%string)
    end.

Section SqliteVfs.
Context {E : SqlEngine} {Lru : LruCache (Z * string) Z} {IO : LibcIo} {Txt : ErrorTexts}.
(** The chunk size of the filesystem, the mount point, and whether the build
    checks integer overflow. *)
Context (chunk_size : Z) (mount_point : string) (overflow_checks : bool).

Abbreviation W := (World Db (lru (Z * string) Z)).
Abbreviation Fs := (M Db (lru (Z * string) Z)).

(** An operation on the state [F] of an open file, and on the filesystem. *)
Section Ops.
Context {F : Type}.
Abbreviation Op := (VM (F * W)).

Definition vthrow {A} (e : VfsError.t) : Op A := λ s, (VErr e, s).
Definition vfs_ok {A} (r : VfsError.t + A) : Op A :=
  match r with inl e => vthrow e | inr a => mret a end.
Definition found {A} (o : option A) : Op A :=
  match o with Some a => mret a | None => vthrow VfsError.NotFound end.
Definition get_file : Op F := λ s, (VOk s.1, s).
Definition put_file (f : F) : Op unit := λ s, (VOk tt, (f, s.2)).

(** A call of the filesystem, with [map_err]. *)
Definition call_or {A} (convert : Error.t → VfsError.t) (m : Fs A) : Op A := λ s,
  match m s.2 with
  | (Ok a, w) => (VOk a, (s.1, w))
  | (Err e, w) => (VErr (convert e), (s.1, w))
  | (Panic, w) => (VPanic, (s.1, w))
  end.
Definition failed (what : string) (e : Error.t) : VfsError.t :=
  VfsError.Other ("Failed to " +:+ what +:+ ": " +:+ Error.fmt e).
Definition call {A} (what : string) (m : Fs A) : Op A := call_or (failed what) m.

Definition vi64 (z : Z) : Op Z :=
  if (- 2 ^ 63 <=? z) && (z <? 2 ^ 63) then mret z
  else if overflow_checks then (λ s, (VPanic, s)) else mret (as_i64 z).

(** [(size + 4095) / 4096]; division truncates. *)
Definition to_stat (s : Stats) (size : Z) : Op LibcStat :=
  rounded ← vi64 (size + 4095);
  mret (mkLibcStat (as_u64 (st_ino s)) (st_nlink s) (st_mode s) (st_uid s) (st_gid s) size
          (Z.quot rounded 4096) (st_atime s) (st_mtime s) (st_ctime s)).

(** ** Paths *)

Fixpoint walk_path (ino : Z) (comps : list string) : Op Z :=
  match comps with
  | [] => mret ino
  | c :: comps =>
      found_stats ← call "lookup" (lookup ino c);
      stats ← found found_stats;
      walk_path (st_ino stats) comps
  end.

Definition components (path : string) : list string := filter nonempty (split_slash path).

Definition resolve_path (path : string) : Op Z :=
  if String.eqb path "/" then mret ROOT_INO else walk_path ROOT_INO (components path).

Definition to_relative (path : string) : Op string :=
  vfs_ok (translate_to_relative mount_point path).

(** The attributes of the last component, found in its parent. *)
Definition lookup_last (what : string) (relative_path : string) : Op (option Stats) :=
  pn ← vfs_ok (split_parent relative_path);
  parent_ino ← resolve_path pn.1;
  call what (lookup parent_ino pn.2).

(** ** [impl Vfs for SqliteVfs] *)

Definition open (path : string) (flags : Z) : Op BoxedFileOps :=
  relative_path ← to_relative path;
  stats ← (if String.eqb relative_path "/" then call "stat" (getattr ROOT_INO)
           else lookup_last "stat" relative_path);
  match stats with
  | Some s =>
      if is_directory s then
        mret (DirectoryOps (mkDirOps (st_ino s) relative_path flags None 0))
      else
        data ← (if has_flag flags O_TRUNC then mret []
                else
                  file ← call "open file" (AgentFS.open chunk_size (st_ino s) O_RDONLY);
                  call "read file" (pread file 0 (as_u64 (st_size s))));
        mret (FileOps (mkFileOps (st_ino s) relative_path data 0 flags (has_flag flags O_TRUNC)))
  | None =>
      if has_flag flags O_CREAT then mret (FileOps (mkFileOps 0 relative_path [] 0 flags true))
      else vthrow VfsError.NotFound
  end.

Definition stat (path : string) : Op LibcStat :=
  relative_path ← to_relative path;
  ino ← resolve_path relative_path;
  found_stats ← call "getattr" (getattr ino);
  stats ← found found_stats;
  to_stat stats (st_size stats).

Definition lstat (path : string) : Op LibcStat :=
  relative_path ← to_relative path;
  found_stats ← (if String.eqb relative_path "/" then call "getattr" (getattr ROOT_INO)
                 else lookup_last "lookup" relative_path);
  stats ← found found_stats;
  to_stat stats (st_size stats).

Definition symlink_error (e : Error.t) : VfsError.t :=
  if contains (Error.fmt e) "already exists" then VfsError.AlreadyExists
  else failed "create symlink" e.
Definition symlink (target linkpath : string) : Op unit :=
  linkpath_rel ← to_relative linkpath;
  pn ← vfs_ok (split_parent linkpath_rel);
  parent_ino ← resolve_path pn.1;
  call_or symlink_error (AgentFS.symlink parent_ino pn.2 target 0 0) ;;
  mret tt.

Definition readlink (path : string) : Op string :=
  relative_path ← to_relative path;
  ino ← resolve_path relative_path;
  target ← call "read symlink" (AgentFS.readlink ino);
  found target.

Definition link_error (e : Error.t) : VfsError.t :=
  let err_msg := Error.fmt e in
  if contains err_msg "does not exist" then VfsError.NotFound
  else if contains err_msg "already exists" then VfsError.AlreadyExists
  else if contains err_msg "directory" then VfsError.PermissionDenied
  else failed "create hard link" e.
Definition link (oldpath newpath : string) : Op unit :=
  oldpath_rel ← to_relative oldpath;
  newpath_rel ← to_relative newpath;
  old_ino ← resolve_path oldpath_rel;
  pn ← vfs_ok (split_parent newpath_rel);
  new_parent_ino ← resolve_path pn.1;
  call_or link_error (AgentFS.link old_ino new_parent_ino pn.2) ;;
  mret tt.
End Ops.

(** ** [impl FileOps for SqliteFileOps] *)

Abbreviation FileOp := (VM (SqliteFileOps * W)).

(** The inode of the file, created now if it has none yet. *)
Definition get_or_create_ino : FileOp Z :=
  f ← get_file;
  if negb (fo_ino f =? 0) then mret (fo_ino f)
  else
    pn ← vfs_ok (split_parent (fo_path f));
    parent_ino ← walk_path ROOT_INO (components pn.1);
    created ← call "create file" (create_file chunk_size parent_ino pn.2 0x1a4 0 0);
    mret (st_ino created.1).

(** At most [n] bytes; the length of the result is the number of bytes read. *)
Definition read (n : Z) : FileOp bytes :=
  f ← get_file;
  let start := as_u64 (fo_offset f) in
  if len (fo_data f) <=? start then mret []
  else
    let end_ := Z.min (start + n) (len (fo_data f)) in
    let bytes_read := end_ - start in
    match slice (fo_data f) start end_ with
    | Some part =>
        offset ← vi64 (fo_offset f + bytes_read);
        put_file (mkFileOps (fo_ino f) (fo_path f) (fo_data f) offset (fo_flags f) (fo_dirty f)) ;;
        mret part
    | None => λ s, (VPanic, s)
    end.

Definition write (buf : bytes) : FileOp Z :=
  f ← get_file;
  let start :=
    if has_flag (fo_flags f) O_APPEND then len (fo_data f) else as_u64 (fo_offset f) in
  let end_ := start + len buf in
  let grown := len (fo_data f) <? end_ in
  match (if grown then vec_with_capacity end_ else Some tt) with
  | None => λ s, (VPanic, s)
  | Some _ =>
      let data := if grown then vec_resize (fo_data f) end_ zero_byte else fo_data f in
      match copy_at data start buf with
      | None => λ s, (VPanic, s)
      | Some data =>
          put_file (mkFileOps (fo_ino f) (fo_path f) data (as_i64 end_) (fo_flags f) true) ;;
          mret (len buf)
      end
  end.

Definition seek (offset whence : Z) : FileOp Z :=
  f ← get_file;
  new_offset ← (if whence =? SEEK_SET then mret offset
                else if whence =? SEEK_CUR then vi64 (fo_offset f + offset)
                else if whence =? SEEK_END then vi64 (len (fo_data f) + offset)
                else vthrow (VfsError.Other "Invalid whence"));
  if new_offset <? 0 then vthrow (VfsError.Other "Invalid offset")
  else
    put_file (mkFileOps (fo_ino f) (fo_path f) (fo_data f) new_offset (fo_flags f) (fo_dirty f)) ;;
    mret new_offset.

Definition fstat : FileOp LibcStat :=
  ino ← get_or_create_ino;
  found_stats ← call "getattr" (getattr ino);
  stats ← found found_stats;
  f ← get_file;
  to_stat stats (len (fo_data f)).

Definition fsync : FileOp unit :=
  f ← get_file;
  if negb (fo_dirty f) then mret tt
  else
    ino ← get_or_create_ino;
    file ← call "open file" (AgentFS.open chunk_size ino O_RDWR);
    call "write file" (pwrite file 0 (fo_data f)) ;;
    call "truncate file" (truncate file (len (fo_data f))) ;;
    f ← get_file;
    put_file (mkFileOps (fo_ino f) (fo_path f) (fo_data f) (fo_offset f) (fo_flags f) false).

Definition fdatasync : FileOp unit := fsync.
Definition close : FileOp unit := fsync.

Definition set_flags (flags : Z) : FileOp unit :=
  f ← get_file;
  put_file (mkFileOps (fo_ino f) (fo_path f) (fo_data f) (fo_offset f) flags (fo_dirty f)).

Definition fcntl (cmd arg : Z) : FileOp Z :=
  f ← get_file;
  if cmd =? F_GETFL then mret (fo_flags f)
  else if cmd =? F_SETFL then set_flags arg ;; mret 0
  else vthrow (VfsError.Other ("Unsupported fcntl command: " +:+ pretty cmd)).

(** [ioctl] of files and directories. *)
Definition ioctl {F} (request arg : Z) : VM (F * W) Z :=
  vthrow (VfsError.Other "ioctl not supported").

(** ** [impl FileOps for SqliteDirectoryOps] *)

Abbreviation DirOp := (VM (SqliteDirectoryOps * W)).

(** [read], [write] and [seek]. *)
Definition is_a_directory {A} : DirOp A := vthrow (VfsError.Other "Is a directory").

Definition dir_fstat : DirOp LibcStat :=
  f ← get_file;
  found_stats ← call "getattr" (getattr (do_ino f));
  stats ← found found_stats;
  to_stat stats (st_size stats).

(** The parent's inode, by the path; components that are not found are passed
    over. *)
Fixpoint walk_parent (ino : Z) (comps : list string) : DirOp Z :=
  match comps with
  | [] => mret ino
  | c :: comps =>
      stats ← call "lookup" (lookup ino c);
      walk_parent (match stats with Some s => st_ino s | None => ino end) comps
  end.

Definition dirent_type (s : Stats) : Z :=
  if is_directory s then DT_DIR else if is_symlink s then DT_LNK else DT_REG.

Definition read_entries : DirOp (list (Z * string * Z)) :=
  f ← get_file;
  found_entries ← call "read directory" (readdir_plus (do_ino f));
  dir_entries ← found found_entries;
  found_stats ← call "getattr current dir" (getattr (do_ino f));
  current_stats ← found found_stats;
  parent_ino ← (if String.eqb (do_path f) "/" then mret ROOT_INO
                else walk_parent ROOT_INO
                       (parent_components (do_path f)));
  mret ((as_u64 (st_ino current_stats), ".", DT_DIR) ::
        (as_u64 parent_ino, "..", DT_DIR) ::
        ((λ e, (as_u64 (st_ino (de_stats e)), de_name e, dirent_type (de_stats e)))
           <$> dir_entries))%string.

Definition getdents : DirOp (list (Z * string * Z)) :=
  f ← get_file;
  (match do_entries f with
   | Some _ => mret tt
   | None =>
       result ← read_entries;
       put_file (mkDirOps (do_ino f) (do_path f) (do_flags f) (Some result) (do_position f))
   end) ;;
  f ← get_file;
  match do_entries f with
  | None => λ s, (VPanic, s)
  | Some all_entries =>
      if bool_decide (length all_entries <= do_position f)%nat then mret []
      else
        put_file (mkDirOps (do_ino f) (do_path f) (do_flags f) (do_entries f)
                    (length all_entries)) ;;
        mret (drop (do_position f) all_entries)
  end.
End SqliteVfs.
