(* ===== verification/SqliteVfsProps.v ===== *)
(** * SqliteVfsProps: what is proved of files inside the sandbox

    An open file behaves as a byte string with an offset ([HandleSpec]); closing it
    writes the string to the filesystem; [stat] and [lstat] agree; a directory is
    listed once.  A file created through a handle is written only by the first
    [fsync]. *)
From stdpp Require Import pretty.
From S2P Require Import Prelude Types Engine Lru Schema FileIO FileIOSpec Path AgentFS.
From S2P Require Import AgentFSInv AgentFSSpec AgentFSOps AgentFSCoherent AgentFSProps.
From S2P Require Import AgentFSPath AgentFSPathProps Mounts SqliteVfs.

(** ** The reference of an open file *)

Inductive handle_op :=
| HRead (n : Z)
| HWrite (buf : bytes)
| HSeek (offset whence : Z).
Inductive handle_result := RBytes (b : bytes) | RNumber (z : Z).

Module HandleSpec.
Section HandleSpec.
Context {IO : LibcIo} (overflow_checks append : bool).

(** Contents and offset. *)
Definition state : Type := bytes * Z.

(** The base of a seek. *)
Definition base (whence : Z) (s : state) : option Z :=
  if whence =? SEEK_SET then Some 0
  else if whence =? SEEK_CUR then Some s.2
  else if whence =? SEEK_END then Some (len s.1)
  else None.

(** Writing past [isize::MAX] panics; an offset past [i64::MAX] panics in a build
    that checks overflow and is invalid in another. *)
Definition step (o : handle_op) (s : state) : VResult handle_result * state :=
  match o with
  | HRead n =>
      let part := FileSpec.read s.1 s.2 n in
      (VOk (RBytes part), (s.1, s.2 + len part))
  | HWrite buf =>
      let start := if append then len s.1 else s.2 in
      if 2 ^ 63 <=? start + len buf then (VPanic, s)
      else (VOk (RNumber (len buf)), (FileSpec.write s.1 start buf, start + len buf))
  | HSeek offset whence =>
      match base whence s with
      | None => (VErr (VfsError.Other "Invalid whence"), s)
      | Some b =>
          if 2 ^ 63 <=? b + offset then
            (if overflow_checks then VPanic else VErr (VfsError.Other "Invalid offset"), s)
          else if b + offset <? 0 then (VErr (VfsError.Other "Invalid offset"), s)
          else (VOk (RNumber (b + offset)), (s.1, b + offset))
      end
  end.

(** The results of a sequence of requests, up to a panic. *)
Fixpoint run (ops : list handle_op) (s : state) : list (VResult handle_result) * state :=
  match ops with
  | [] => ([], s)
  | o :: ops =>
      let '(r, s1) := step o s in
      match r with
      | VPanic => ([r], s1)
      | _ => let '(rs, s2) := run ops s1 in (r :: rs, s2)
      end
  end.
End HandleSpec.
End HandleSpec.

(** Arguments of the types they have: lengths and [i64] offsets. *)
Definition handle_op_ok (o : handle_op) : Prop :=
  match o with
  | HRead n => 0 <= n
  | HWrite buf => len buf < 2 ^ 63
  | HSeek offset _ => in_i64 offset
  end.

Section Props.
Context {E : SqlEngine} {Lru : LruCache (Z * string) Z} {IO : LibcIo} {Txt : ErrorTexts}.
Context (cs : Z) (mount_point : string) (overflow_checks : bool).
Abbreviation W := (World Db (lru (Z * string) Z)).
Abbreviation FileOp := (VM (SqliteFileOps * W)).
Implicit Types (f : SqliteFileOps) (w : W).

Definition handle_step (o : handle_op) : FileOp handle_result :=
  match o with
  | HRead n => b ← read overflow_checks n; mret (RBytes b)
  | HWrite buf => n ← write buf; mret (RNumber n)
  | HSeek offset whence => n ← seek overflow_checks offset whence; mret (RNumber n)
  end.

Fixpoint handle_run (ops : list handle_op) (s : SqliteFileOps * W) :
    list (VResult handle_result) * (SqliteFileOps * W) :=
  match ops with
  | [] => ([], s)
  | o :: ops =>
      let '(r, s1) := handle_step o s in
      match r with
      | VPanic => ([r], s1)
      | _ => let '(rs, s2) := handle_run ops s1 in (r :: rs, s2)
      end
  end.

(** What a handle keeps: the offset and the length of its buffer are [i64]. *)
Definition handle_ok f : Prop := 0 <= fo_offset f < 2 ^ 63 ∧ len (fo_data f) < 2 ^ 63.

Definition appends f : bool := has_flag (fo_flags f) O_APPEND.
Definition view f : HandleSpec.state := (fo_data f, fo_offset f).

(** [f'] is a handle on the same file. *)
Definition same_file f f' : Prop :=
  fo_ino f' = fo_ino f ∧ fo_path f' = fo_path f ∧ fo_flags f' = fo_flags f ∧
  (fo_dirty f' = false → fo_dirty f = false ∧ fo_data f' = fo_data f).

Lemma same_file_refl f : same_file f f.
Proof. done. Qed.
Lemma same_file_trans f g h : same_file f g → same_file g h → same_file f h.
Proof. unfold same_file. intuition congruence. Qed.

Lemma read_slice (l : bytes) off n :
  0 <= off < len l → 0 <= n →
  slice l off (Z.min (off + n) (len l)) = Some (FileSpec.read l off n) ∧
  len (FileSpec.read l off n) = Z.min (off + n) (len l) - off.
Proof.
  intros Ho Hn. unfold slice, FileSpec.read. split.
  - replace (_ && _ && _) with true.
    2:{ symmetry. rewrite !andb_true_iff, !Z.leb_le. lia. }
    f_equal. destruct (Z.le_gt_cases n (len l - off)).
    + f_equal. lia.
    + rewrite !take_ge; [done|..]; rewrite length_drop; unfold len in *; lia.
  - unfold len in *. rewrite length_take, length_drop. lia.
Qed.

Lemma read_past (l : bytes) off n : len l <= off → FileSpec.read l off n = [].
Proof.
  intros Ho. unfold FileSpec.read. rewrite drop_ge by (unfold len in *; lia). by rewrite take_nil.
Qed.

Lemma write_copy (l buf : bytes) start :
  0 <= start →
  copy_at (if len l <? start + len buf then vec_resize l (start + len buf) zero_byte else l)
    start buf = Some (FileSpec.write l start buf) ∧
  len (FileSpec.write l start buf) = Z.max (len l) (start + len buf).
Proof.
  intros Hs. pose proof (len_nonneg buf). unfold FileSpec.write, FileSpec.truncate, copy_at.
  assert (Hl : vec_resize l (Z.max (len l) (start + len buf)) zero_byte =
    if len l <? start + len buf then vec_resize l (start + len buf) zero_byte else l).
  { destruct (Z.ltb_spec (len l) (start + len buf)); [by rewrite Z.max_r by lia|].
    rewrite Z.max_l by lia. unfold vec_resize, len. rewrite Nat2Z.id. apply resize_all. }
  rewrite Hl. set (l' := if len l <? start + len buf then vec_resize l (start + len buf) zero_byte else l) in *.
  assert (Hlen : len l' = Z.max (len l) (start + len buf)).
  { rewrite <-Hl. apply len_vec_resize. pose proof (len_nonneg l). lia. }
  replace (_ && _) with true by (symmetry; rewrite andb_true_iff, !Z.leb_le; lia).
  split; [done|]. rewrite !len_app, len_take, len_drop by lia. lia.
Qed.

Lemma vi64_in {F} z (s : F * W) : in_i64 z → vi64 overflow_checks z s = (VOk z, s).
Proof.
  intros [Hlo Hhi]. unfold vi64. replace (_ && _) with true; [done|].
  symmetry. rewrite andb_true_iff, Z.leb_le, Z.ltb_lt. lia.
Qed.

Lemma vi64_over {F} z (s : F * W) :
  2 ^ 63 <= z < 2 ^ 64 →
  vi64 overflow_checks z s = if overflow_checks then (VPanic, s) else (VOk (z - 2 ^ 64), s).
Proof.
  intros Hz. unfold vi64. replace (_ && _) with false.
  2:{ symmetry. rewrite andb_false_iff, Z.leb_gt, Z.ltb_ge. lia. }
  destruct overflow_checks; [done|]. unfold mret, VM_ret, as_i64. rewrite Z.mod_small by lia.
  do 2 f_equal. case_bool; lia.
Qed.

Definition with_offset z f : SqliteFileOps :=
  mkFileOps (fo_ino f) (fo_path f) (fo_data f) z (fo_flags f) (fo_dirty f).

Lemma seek_run offset whence f w :
  in_i64 offset →
  seek overflow_checks offset whence (f, w) =
    match HandleSpec.base whence (view f) with
    | None => (VErr (VfsError.Other "Invalid whence"), (f, w))
    | Some b =>
        match vi64 overflow_checks (b + offset) (f, w) with
        | (VOk z, s) =>
            if z <? 0 then (VErr (VfsError.Other "Invalid offset"), s)
            else (VOk z, (with_offset z f, w))
        | (VErr e, s) => (VErr e, s)
        | (VPanic, s) => (VPanic, s)
        end
    end.
Proof.
  intros Ho. unfold seek, HandleSpec.base, mbind, VM_bind, get_file, view. cbn [fst snd].
  destruct (whence =? SEEK_SET); [|destruct (whence =? SEEK_CUR); [|destruct (whence =? SEEK_END); [|done]]].
  - rewrite Z.add_0_l, vi64_in by done. unfold mret, VM_ret. by destruct (offset <? 0).
  - assert (H : (vi64 overflow_checks (fo_offset f + offset) (f, w)).2 = (f, w)).
    { unfold vi64. by destruct (_ && _), overflow_checks. }
    destruct (vi64 _ _ _) as [[z| |] s]; cbn in H; subst s; [|done..]. by destruct (z <? 0).
  - assert (H : (vi64 overflow_checks (len (fo_data f) + offset) (f, w)).2 = (f, w)).
    { unfold vi64. by destruct (_ && _), overflow_checks. }
    destruct (vi64 _ _ _) as [[z| |] s]; cbn in H; subst s; [|done..]. by destruct (z <? 0).
Qed.

Lemma handle_step_spec o f w :
  handle_ok f → handle_op_ok o →
  ∃ f', handle_step o (f, w) =
      ((HandleSpec.step overflow_checks (appends f) o (view f)).1, (f', w)) ∧
    view f' = (HandleSpec.step overflow_checks (appends f) o (view f)).2 ∧
    handle_ok f' ∧ same_file f f'.
Proof.
  intros [Ho Hl] Hop. destruct f as [ino path data off flags dirty].
  unfold view, appends. cbn [fo_offset fo_data fo_flags] in *. destruct o as [n|buf|offset whence];
    cbn [handle_step HandleSpec.step handle_op_ok fst snd] in *.
  - unfold read, mbind, VM_bind, get_file. cbn [fst snd fo_offset fo_data].
    rewrite as_u64_id by (unfold in_u64; lia).
    destruct (Z.leb_spec (len data) off).
    + exists (mkFileOps ino path data off flags dirty). rewrite read_past by done.
      split_and!; [done| |done|done]. unfold len. cbn. by rewrite Z.add_0_r.
    + destruct (read_slice data off n) as [-> Hpart]; [lia|done|].
      rewrite <-Hpart. pose proof (len_nonneg (FileSpec.read data off n)).
      rewrite vi64_in by (unfold in_i64; lia). eexists. split; [done|].
      cbn [fo_data fo_offset]. split_and!; [done| |done]. split; cbn; lia.
  - unfold write, mbind, VM_bind, get_file. cbn [fst snd fo_offset fo_data fo_flags].
    rewrite as_u64_id by (unfold in_u64; lia). set (start := if has_flag flags O_APPEND then len data else off).
    assert (0 <= start < 2 ^ 63) by (subst start; pose proof (len_nonneg data); destruct (has_flag _ _); lia).
    destruct (write_copy data buf start) as [Hcopy Hlen]; [lia|]. rewrite Hcopy.
    pose proof (len_nonneg buf). destruct (Z.leb_spec (2 ^ 63) (start + len buf)).
    + replace (len data <? start + len buf) with true by (symmetry; apply Z.ltb_lt; lia).
      unfold vec_with_capacity. destruct (Z.ltb_spec (start + len buf) (2 ^ 63)); [lia|].
      by eexists.
    + replace (if len data <? start + len buf then vec_with_capacity (start + len buf) else Some tt)
        with (Some tt).
      2:{ unfold vec_with_capacity. case_bool; (done || lia). }
      eexists. split; [done|]. cbn [fo_data fo_offset].
      rewrite as_i64_id by (unfold in_i64; lia). split_and!; [done| |done].
      split; cbn [fo_offset fo_data]; lia.
  - unfold mbind at 1, VM_bind at 1. rewrite seek_run by done. cbn [fst snd view].
    destruct (HandleSpec.base whence _) as [b|] eqn:Hb; [|by eexists].
    assert (0 <= b < 2 ^ 63).
    { unfold HandleSpec.base, view in Hb. cbn [fst snd fo_data fo_offset] in Hb.
      pose proof (len_nonneg data).
      repeat case_match; simplify_eq; lia. }
    destruct Hop. destruct (Z.leb_spec (2 ^ 63) (b + offset)).
    + rewrite vi64_over by lia. destruct overflow_checks; [by eexists|].
      destruct (Z.ltb_spec (b + offset - 2 ^ 64) 0); [by eexists|lia].
    + rewrite vi64_in by (unfold in_i64; lia).
      destruct (Z.ltb_spec (b + offset) 0); [by eexists|]. eexists. split; [done|].
      cbn [fo_data fo_offset with_offset]. split_and!; [done| |done]. split; cbn; lia.
Qed.

Lemma handle_run_spec ops f w :
  handle_ok f → Forall handle_op_ok ops →
  ∃ f', handle_run ops (f, w) =
      ((HandleSpec.run overflow_checks (appends f) ops (view f)).1, (f', w)) ∧
    view f' = (HandleSpec.run overflow_checks (appends f) ops (view f)).2 ∧
    handle_ok f' ∧ same_file f f'.
Proof.
  intros Hok Hops. revert f Hok. induction Hops as [|o ops Ho Hops IH]; intros f Hok.
  { by exists f. }
  destruct (handle_step_spec o f w Hok Ho) as (f1 & Hstep & Hview & Hok1 & Hsame).
  destruct (IH f1 Hok1) as (f2 & Hrun & Hview2 & Hok2 & Hsame2).
  cbn [handle_run HandleSpec.run]. rewrite Hstep.
  destruct (HandleSpec.step _ _ o (view f)) as [r s1]. cbn [fst snd] in *. subst s1.
  assert (Ha : appends f1 = appends f).
  { unfold appends. by destruct Hsame as (_ & _ & -> & _). }
  rewrite Ha in *. rewrite Hrun. destruct (HandleSpec.run _ _ ops (view f1)) as [rs s2].
  cbn [fst snd] in *. pose proof (same_file_trans _ _ _ Hsame Hsame2).
  destruct r; [by exists f2..|by exists f1].
Qed.
(** ** Walking *)

(** A name that [lookup] looks up in the table. *)
Definition ordinary (n : string) : Prop := n ≠ ".." ∧ strlen n <= MAX_NAME_LEN.

(** The attributes behind an entry. *)
Definition sees (d : Db) (p : Z) (n : string) : option Stats :=
  c ← fs_dentry d !! (p, n); build_stats_from_row c <$> fs_inode d !! c.

(** [rel] is the name [n] in the directory [p]. *)
Definition located (rel : string) (d : Db) (p : Z) (n : string) : Prop :=
  ∃ parent, split_parent rel = inr (parent, n) ∧ ordinary n ∧
    Forall ordinary (components parent) ∧
    walk (fs_dentry d) ROOT_INO (components parent) = Some p.

Lemma located_not_root rel d p n : located rel d p n → String.eqb rel "/" = false.
Proof.
  intros (parent & Hs & _). unfold split_parent in Hs. by destruct (String.eqb rel "/").
Qed.

Lemma located_mono rel d d' p n :
  fs_dentry d ⊆ fs_dentry d' → located rel d p n → located rel d' p n.
Proof.
  intros Hsub (parent & Hs & Hn & Hc & Hw). exists parent. split_and!; [done..|].
  revert Hw. generalize ROOT_INO as i. induction (components parent) as [|c l IH]; intros i; [done|].
  apply Forall_cons in Hc as [_ Hc]. cbn [walk].
  destruct (fs_dentry d !! (i, c)) as [child|] eqn:He; [|done].
  rewrite (lookup_weaken _ _ _ _ He Hsub). by apply IH.
Qed.

Section Runs.
Context (d : Db) (clk : nat → Z * Z) (t : nat).
Abbreviation at_ mem := (mkWorld d mem [] (ticks clk) t).

Lemma lookup_run p n mem :
  ordinary n → ∃ mem', lookup p n (at_ mem) = (Ok (sees d p n), at_ mem').
Proof.
  intros [Hd Hl]. unfold lookup, sees. destruct (Z.ltb_spec MAX_NAME_LEN (strlen n)); [lia|].
  destruct (String.eqb_spec n ".."); [done|]. run. rewrite lookup_child_run. run.
  destruct (fs_dentry d !! (p, n)) as [c|]; [|by exists mem]. run_fs. cbn.
  destruct (fs_inode d !! c) as [r|]; [by eexists|by exists mem].
Qed.

Lemma walk_path_run {F} comps ino ino' (f : F) mem :
  fs_wf cs d → Forall ordinary comps → walk (fs_dentry d) ino comps = Some ino' →
  ∃ mem', walk_path ino comps (f, at_ mem) = (VOk ino', (f, at_ mem')).
Proof.
  intros Hwf Hc. revert ino mem. induction Hc as [|c comps Hc Hcs IH]; intros ino mem; cbn [walk].
  { intros [= ->]. by exists mem. }
  destruct (fs_dentry d !! (ino, c)) as [child|] eqn:He; [|done]. intros Hw.
  destruct (lookup_run ino c mem Hc) as [mem1 Hrun].
  destruct (entry_row _ _ _ _ _ _ (wf_core _ _ Hwf) He) as [r Hr].
  cbn [walk_path]. unfold mbind at 1, VM_bind at 1, call, call_or. cbn [fst snd]. rewrite Hrun.
  unfold sees. rewrite He. cbn. rewrite Hr. cbn. by apply IH.
Qed.

Lemma resolve_path_run {F} path p (f : F) mem :
  fs_wf cs d → Forall ordinary (components path) →
  walk (fs_dentry d) ROOT_INO (components path) = Some p →
  ∃ mem', resolve_path path (f, at_ mem) = (VOk p, (f, at_ mem')).
Proof.
  intros Hwf Hc Hw. unfold resolve_path. destruct (String.eqb_spec path "/") as [->|].
  - injection Hw as <-. by exists mem.
  - by apply walk_path_run.
Qed.

Lemma lookup_last_run {F} what rel p n (f : F) mem :
  fs_wf cs d → located rel d p n →
  ∃ mem', lookup_last what rel (f, at_ mem) = (VOk (sees d p n), (f, at_ mem')).
Proof.
  intros Hwf (parent & Hs & Hn & Hc & Hw). unfold lookup_last. rewrite Hs.
  destruct (resolve_path_run parent p f mem Hwf Hc Hw) as [mem1 H1].
  destruct (lookup_run p n mem1 Hn) as [mem2 H2]. exists mem2.
  unfold vfs_ok, mbind, VM_bind, mret, VM_ret. cbn [fst snd]. rewrite H1.
  unfold call, call_or. cbn [fst snd]. by rewrite H2.
Qed.
End Runs.

(** ** Writing back *)

Lemma agentfs_open_run ino r flags w :
  healthy w → fs_inode (w_db w) !! ino = Some r →
  AgentFS.open cs ino flags w = (Ok (mkFile ino cs), w).
Proof. intros Hh Hr. healthy_world w. cbn in Hr. unfold AgentFS.open. run_fs. by rewrite Hr. Qed.

Definition cleaned f : SqliteFileOps :=
  mkFileOps (fo_ino f) (fo_path f) (fo_data f) (fo_offset f) (fo_flags f) false.

Lemma spec_write_truncate (l data : bytes) :
  FileSpec.truncate (match data with [] => l | _ => FileSpec.write l 0 data end) (len data) = data.
Proof.
  unfold FileSpec.write, FileSpec.truncate, vec_resize. destruct data as [|b data]; [by destruct l|].
  set (l' := resize _ _ l). cbn [Z.to_nat take app Z.add].
  change (take 0 l') with (@nil byte). rewrite app_nil_l. unfold len. rewrite Nat2Z.id.
  rewrite app_comm_cons, resize_le by (rewrite length_app; lia). by rewrite take_app_length.
Qed.

(** Writing the buffer to an inode that is known. *)
Lemma write_back ino r f w :
  0 < cs → chunks_ok cs (w_db w) → healthy w → fs_inode (w_db w) !! ino = Some r →
  len (fo_data f) < 2 ^ 63 →
  ∃ w', (file ← call "open file" (AgentFS.open cs ino O_RDWR);
         call "write file" (pwrite file 0 (fo_data f)) ;;
         call "truncate file" (truncate file (len (fo_data f))) ;;
         f ← get_file; put_file (cleaned f)) (f, w) = (VOk tt, (cleaned f, w')) ∧
    healthy w' ∧ only_file ino (w_db w) (w_db w') ∧ chunks_ok cs (w_db w') ∧
    same_links r (fs_inode (w_db w') !! ino) ∧
    contents cs (w_db w') ino = fo_data f.
Proof.
  intros Hcs Hok Hh Hr Hl. pose proof (len_nonneg (fo_data f)).
  destruct (pwrite_run cs ino 0 (fo_data f) r w) as (w1 & H1 & Hh1 & Hof1 & Hok1 & _ & Hs1 & Hc1);
    [done..|lia|].
  destruct Hs1 as (r1 & Hr1 & Hs1).
  destruct (truncate_run cs ino (len (fo_data f)) r1 w1) as (w2 & H2 & Hh2 & Hof2 & Hok2 & _ & Hs2 & Hc2);
    [done..|].
  exists w2. split_and!.
  - unfold mbind, VM_bind, call, call_or. cbn [fst snd]. rewrite (agentfs_open_run ino r) by done.
    cbn [fst snd]. rewrite H1. cbn [fst snd]. by rewrite H2.
  - done.
  - by eapply only_file_trans.
  - done.
  - destruct Hs2 as (r2 & Hr2 & Hs2). exists r2. split; [done|]. intuition congruence.
  - rewrite Hc2, Hc1. apply spec_write_truncate.
Qed.

Lemma fsync_run r f w :
  0 < cs → chunks_ok cs (w_db w) → healthy w → fs_inode (w_db w) !! fo_ino f = Some r →
  fo_ino f ≠ 0 → fo_dirty f = true → len (fo_data f) < 2 ^ 63 →
  ∃ w', fsync cs (f, w) = (VOk tt, (cleaned f, w')) ∧
    healthy w' ∧ only_file (fo_ino f) (w_db w) (w_db w') ∧ chunks_ok cs (w_db w') ∧
    same_links r (fs_inode (w_db w') !! fo_ino f) ∧
    contents cs (w_db w') (fo_ino f) = fo_data f.
Proof.
  intros Hcs Hok Hh Hr Hino Hd Hl.
  destruct (write_back (fo_ino f) r f w) as (w' & Hrun & Hrest); [done..|].
  exists w'. split; [|done]. unfold fsync.
  rewrite <-Hrun. unfold mbind at 1, VM_bind at 1, get_file at 1. cbn [fst snd].
  rewrite Hd. cbn [negb]. unfold get_or_create_ino, mbind at 1, VM_bind at 1.
  unfold mbind at 1, VM_bind at 1, get_file at 1. cbn [fst snd].
  by destruct (Z.eqb_spec (fo_ino f) 0).
Qed.
(** ** Opening a file that is there *)

Definition opened (flags ino : Z) (rel : string) (l : bytes) : SqliteFileOps :=
  let start := if has_flag flags O_TRUNC then [] else l in
  mkFileOps ino rel start 0 flags (has_flag flags O_TRUNC).

Lemma sees_row d p n ino r :
  fs_dentry d !! (p, n) = Some ino → fs_inode d !! ino = Some r →
  sees d p n = Some (build_stats_from_row ino r).
Proof. intros He Hr. unfold sees. rewrite He. cbn. by rewrite Hr. Qed.

Lemma whole_file d ino r :
  chunks_ok cs d → fs_inode d !! ino = Some r →
  FileSpec.read (contents cs d ino) 0 (as_u64 (i_size r)) = contents cs d ino.
Proof.
  intros Hok Hr. destruct (sizes_ok _ _ Hok _ _ Hr). unfold FileSpec.read.
  rewrite as_u64_id by (unfold in_u64; lia). rewrite drop_0.
  apply take_ge. unfold contents. rewrite length_fbytes, (fsize_row _ _ _ Hr). lia.
Qed.

Lemma open_run path rel flags p n ino r w :
  0 < cs → fs_wf cs (w_db w) → healthy w →
  translate_to_relative mount_point path = inr rel → located rel (w_db w) p n →
  fs_dentry (w_db w) !! (p, n) = Some ino → fs_inode (w_db w) !! ino = Some r →
  dir_row r = false →
  ∃ mem', open cs mount_point path flags (tt, w) =
    (VOk (FileOps (opened flags ino rel (contents cs (w_db w) ino))), (tt, set_mem mem' w)).
Proof.
  intros Hcs Hwf Hh Hrel Hloc He Hr Hdir. healthy_world w. cbn [w_db] in *.
  unfold open, to_relative. rewrite Hrel.
  unfold vfs_ok, mbind, VM_bind, mret, VM_ret. cbn [fst snd].
  rewrite (located_not_root _ _ _ _ Hloc).
  destruct (lookup_last_run d clk t "stat" rel p n tt mem Hwf Hloc) as [mem' Hrun].
  rewrite Hrun, (sees_row _ _ _ _ _ He Hr). cbn [fst snd].
  rewrite is_directory_stats, Hdir. exists mem'. unfold opened.
  destruct (has_flag flags O_TRUNC); [done|].
  unfold call, call_or. cbn [fst snd build_stats_from_row st_ino st_size].
  rewrite (agentfs_open_run ino r) by (done || by split; [|exists clk]). cbn [fst snd].
  rewrite pread_run; [|done|by apply wf_core|done..|apply as_u64_range].
  cbn [fst snd w_db]. by rewrite whole_file by (done || by apply wf_core).
Qed.

Lemma opened_ok flags ino rel d : chunks_ok cs d → handle_ok (opened flags ino rel (contents cs d ino)).
Proof.
  intros Hok. split; [done|]. unfold opened. cbn [fo_data]. destruct (has_flag _ _); [done|].
  unfold contents. rewrite len_fbytes; by apply (fsize_range cs).
Qed.

(** Closing a handle on a file that was there. *)
Lemma close_opened flags ino rel r f w :
  0 < cs → fs_wf cs (w_db w) → healthy w → fs_inode (w_db w) !! ino = Some r →
  same_file (opened flags ino rel (contents cs (w_db w) ino)) f → len (fo_data f) < 2 ^ 63 →
  ∃ f' w', close cs (f, w) = (VOk tt, (f', w')) ∧
    contents cs (w_db w') ino = fo_data f ∧ only_file ino (w_db w) (w_db w') ∧
    fo_dirty f' = false.
Proof.
  intros Hcs Hwf Hh Hr (Hino & _ & _ & Hclean) Hlen. pose proof (wf_core _ _ Hwf) as Hcore.
  assert (Hch : chunks_ok cs (w_db w)) by apply Hcore.
  assert (Hino0 : fo_ino f ≠ 0).
  { rewrite Hino. change (ino ≠ 0). destruct (co_seq _ _ _ Hcore ino); [by eexists|lia]. }
  destruct (fo_dirty f) eqn:Hdirty.
  - destruct (fsync_run r f w) as (w2 & Hsync & _ & Hof & _ & _ & Hc); try done; [by rewrite Hino|].
    rewrite Hino in *. by exists (cleaned f), w2.
  - exists f, w. destruct (Hclean eq_refl) as [Hfd Hdata]. split_and!; try done.
    + unfold close, fsync, mbind, VM_bind, get_file. cbn [fst snd]. by rewrite Hdirty.
    + rewrite Hdata. unfold opened in Hfd |- *. cbn [fo_dirty fo_data] in *.
      by rewrite Hfd.
Qed.

(** An open file of the sandbox is a file.  Opening a path of a SQLite mount
    that leads to a file, reading, writing and seeking through the handle in any order,
    and closing it: every request answers as on a byte string with an offset
    ([HandleSpec]), nothing is written before the file is closed, and afterwards the
    file holds exactly that byte string, and every other file what it held. *)
Theorem file_session path rel flags p n ino r ops w :
  0 < cs → fs_wf cs (w_db w) → healthy w →
  translate_to_relative mount_point path = inr rel → located rel (w_db w) p n →
  fs_dentry (w_db w) !! (p, n) = Some ino → fs_inode (w_db w) !! ino = Some r →
  dir_row r = false → Forall handle_op_ok ops →
  let start := if has_flag flags O_TRUNC then [] else contents cs (w_db w) ino in
  let '(rs, final) :=
    HandleSpec.run overflow_checks (has_flag flags O_APPEND) ops (start, 0) in
  VPanic ∉ rs →
  ∃ f w1 f1 f2 w2,
    open cs mount_point path flags (tt, w) = (VOk (FileOps f), (tt, w1)) ∧
    w_db w1 = w_db w ∧
    handle_run ops (f, w1) = (rs, (f1, w1)) ∧
    close cs (f1, w1) = (VOk tt, (f2, w2)) ∧
    contents cs (w_db w2) ino = final.1 ∧ only_file ino (w_db w) (w_db w2).
Proof.
  intros Hcs Hwf Hh Hrel Hloc He Hr Hdir Hops start.
  destruct (open_run path rel flags p n ino r w) as [mem' Hopen]; [done..|].
  set (f := opened flags ino rel (contents cs (w_db w) ino)) in *. set (w1 := set_mem mem' w) in *.
  pose proof (wf_core _ _ Hwf) as Hcore. assert (Hch : chunks_ok cs (w_db w)) by apply Hcore.
  assert (Hfok : handle_ok f) by by apply opened_ok.
  destruct (handle_run_spec ops f w1 Hfok Hops) as (f1 & Hrun & Hview & [_ Hlen] & Hsame).
  change (appends f) with (has_flag flags O_APPEND) in *. change (view f) with (start, 0) in *.
  destruct (HandleSpec.run _ _ ops (start, 0)) as [rs final] eqn:Hspec. cbn [fst snd] in *.
  intros _. exists f, w1, f1. subst final.
  destruct (close_opened flags ino rel r f1 w1) as (f2 & w2 & Hclose & Hc & Hof & _); [done..|].
  by exists f2, w2.
Qed.
(** ** Files that the handle creates *)

Section Create.
Context (d : Db) (clk : nat → Z * Z) (t : nat) (p : Z) (n : string).
Abbreviation at_ mem := (mkWorld d mem [] (ticks clk) t).

Lemma create_exists c mode uid gid mem :
  strlen n <= MAX_NAME_LEN → fs_dentry d !! (p, n) = Some c →
  create_file cs p n mode uid gid (at_ mem) =
    (Err (Error.Fs FsError.AlreadyExists), at_ mem).
Proof.
  intros Hl He. unfold create_file. destruct (Z.ltb_spec MAX_NAME_LEN (strlen n)); [lia|].
  run. rewrite lookup_child_run. run. by rewrite He.
Qed.

Lemma create_run mode uid gid mem :
  strlen n <= MAX_NAME_LEN → fs_wf cs d → is_dir d p → fs_dentry d !! (p, n) = None →
  ∃ s file d' mem' t', create_file cs p n mode uid gid (at_ mem) =
      (Ok (s, file), mkWorld d' mem' [] (ticks clk) t') ∧
    fs_wf cs d' ∧ fs_dentry d' = <[(p, n) := st_ino s]> (fs_dentry d) ∧
    contents cs d' (st_ino s) = [] ∧ fs_inode d !! st_ino s = None ∧
    (∃ r, fs_inode d' !! st_ino s = Some r ∧ dir_row r = false ∧ lnk_row r = false).
Proof.
  intros Hl Hwf Hp Hnew. pose proof (create_file_healthy cs p n mode uid gid mem d clk t Hwf Hp) as Href.
  unfold refines in Href. revert Href. unfold create_file.
  destruct (Z.ltb_spec MAX_NAME_LEN (strlen n)); [lia|].
  run. rewrite lookup_child_run. run. rewrite Hnew.
  set (row := new_row _ _ _ _ _ _ (clk t)).
  pose proof (ins_inode_run row d) as Hins. rewrite Hins.
  destruct (ins_inode_fresh _ _ _ _ _ _ (wf_core _ _ Hwf) Hins) as (Hfresh & _).
  set (ino := next_rowid (inode_seq d)) in *. set (d1 := set_seq ino _) in *.
  run. rewrite (ins_dentry_some p n ino d1) by exact Hnew. run_fs. set (d2 := upd_inode p _ _).
  unfold Spec.create, Spec.check_name. destruct (Z.ltb_spec MAX_NAME_LEN (strlen n)); [lia|].
  change (Spec.entries (abs cs d)) with (fs_dentry d). rewrite Hnew. intros [Habs Hwf2].
  eexists _, _, _, _, _. split; [done|]. cbn [st_ino new_stats].
  apply (f_equal (λ x, match x with inr a => Spec.nodes a !! ino | inl _ => None end)) in Habs.
  rename Habs into Hnodes. cbn [Spec.attach Spec.nodes] in Hnodes. rewrite lookup_insert_eq in Hnodes.
  rewrite abs_node in Hnodes. destruct (fs_inode d2 !! ino) as [r|] eqn:Hr; [|done].
  injection Hnodes as _ _ _ _ Hpl. unfold payload_of in Hpl.
  destruct (dir_row r) eqn:Hd; [done|]. destruct (lnk_row r) eqn:Hk; [done|].
  split_and!; [done|done|by injection Hpl|done|by exists r].
Qed.
End Create.
(** The parent of a path is found, and what becomes of the file. *)
Lemma get_or_create_step f p n w :
  fs_wf cs (w_db w) → healthy w → fo_ino f = 0 → located (fo_path f) (w_db w) p n →
  ∃ mem', let w1 := set_mem mem' w in
    get_or_create_ino cs (f, w) =
      match create_file cs p n 0x1a4 0 0 w1 with
      | (Ok created, w2) => (VOk (st_ino created.1), (f, w2))
      | (Err e, w2) => (VErr (failed "create file" e), (f, w2))
      | (Panic, w2) => (VPanic, (f, w2))
      end.
Proof.
  intros Hwf Hh Hino (parent & Hs & Hn & Hc & Hw). healthy_world w. cbn [w_db] in *.
  destruct (walk_path_run d clk t _ _ _ f mem Hwf Hc Hw) as [mem' Hrun]. exists mem'. cbv zeta.
  unfold get_or_create_ino, mbind, VM_bind, get_file, mret, VM_ret. cbn [fst snd].
  rewrite Hino. cbn [negb Z.eqb]. unfold vfs_ok. rewrite Hs. unfold mret, VM_ret. cbn [fst snd].
  rewrite Hrun. unfold call, call_or. cbn [fst snd set_mem w_db w_faults w_clock w_tick].
  by destruct (create_file _ _ _ _ _ _ _) as [[a|e|] w2].
Qed.

Lemma get_or_create_new f p n w :
  fs_wf cs (w_db w) → healthy w → fo_ino f = 0 → located (fo_path f) (w_db w) p n →
  is_dir (w_db w) p → fs_dentry (w_db w) !! (p, n) = None →
  ∃ ino w1, get_or_create_ino cs (f, w) = (VOk ino, (f, w1)) ∧ healthy w1 ∧
    fs_wf cs (w_db w1) ∧ fs_dentry (w_db w1) = <[(p, n) := ino]> (fs_dentry (w_db w)) ∧
    contents cs (w_db w1) ino = [] ∧
    ∃ r, fs_inode (w_db w1) !! ino = Some r ∧ dir_row r = false ∧ lnk_row r = false.
Proof.
  intros Hwf Hh Hino Hloc Hp Hnew.
  destruct (get_or_create_step f p n w Hwf Hh Hino Hloc) as [mem' Hrun]. cbv zeta in Hrun.
  destruct Hloc as (_ & _ & [_ Hl] & _). healthy_world w. unfold set_mem in Hrun.
  cbn [w_db w_faults w_clock w_tick] in *.
  destruct (create_run d clk t p n 0x1a4 0 0 mem' Hl Hwf Hp Hnew)
    as (s & file & d' & mem'' & t' & Hcreate & Hwf' & He & Hc & _ & Hr).
  rewrite Hcreate in Hrun. eexists _, _. split; [exact Hrun|]. by split; [split; [|exists clk]|].
Qed.

Definition already_exists : VfsError.t := VfsError.Other "Failed to create file: Path already exists".

Lemma get_or_create_taken f p n c w :
  fs_wf cs (w_db w) → healthy w → fo_ino f = 0 → located (fo_path f) (w_db w) p n →
  fs_dentry (w_db w) !! (p, n) = Some c →
  ∃ w1, get_or_create_ino cs (f, w) = (VErr already_exists, (f, w1)) ∧ w_db w1 = w_db w.
Proof.
  intros Hwf Hh Hino Hloc He.
  destruct (get_or_create_step f p n w Hwf Hh Hino Hloc) as [mem' Hrun]. cbv zeta in Hrun.
  destruct Hloc as (_ & _ & [_ Hl] & _). healthy_world w. unfold set_mem in Hrun.
  cbn [w_db w_faults w_clock w_tick] in *.
  rewrite (create_exists d clk t p n c) in Hrun by done. by eexists.
Qed.

Lemma close_taken f p n c w :
  fs_wf cs (w_db w) → healthy w → fo_ino f = 0 → fo_dirty f = true →
  located (fo_path f) (w_db w) p n → fs_dentry (w_db w) !! (p, n) = Some c →
  ∃ w1, close cs (f, w) = (VErr already_exists, (f, w1)) ∧ w_db w1 = w_db w.
Proof.
  intros Hwf Hh Hino Hd Hloc He.
  destruct (get_or_create_taken f p n c w Hwf Hh Hino Hloc He) as (w1 & Hrun & Hdb).
  exists w1. split; [|done]. unfold close, fsync, mbind, VM_bind, get_file. cbn [fst snd].
  rewrite Hd. cbn [negb]. by rewrite Hrun.
Qed.

Lemma getattr_found ino r w :
  healthy w → fs_inode (w_db w) !! ino = Some r →
  getattr ino w = (Ok (Some (build_stats_from_row ino r)), w).
Proof. intros Hh Hr. healthy_world w. cbn in Hr. unfold getattr. run_fs. by rewrite Hr. Qed.

(** A new file is written once, or never.  A handle that creates its file does
    not remember the inode.  Its first [fsync] creates the file with the contents
    of the buffer; whatever is written afterwards, closing the handle fails, and the
    file keeps the contents of the first [fsync].  And when [fstat] is called
    before, it creates an empty file, which stays empty: closing the handle fails. *)
Theorem new_file_written_once f p n w :
  0 < cs → fs_wf cs (w_db w) → healthy w →
  fo_ino f = 0 → fo_dirty f = true → handle_ok f → len (fo_data f) + 4095 < 2 ^ 63 →
  located (fo_path f) (w_db w) p n → is_dir (w_db w) p →
  fs_dentry (w_db w) !! (p, n) = None →
  (∃ ino f1 w1, fsync cs (f, w) = (VOk tt, (f1, w1)) ∧
     fs_dentry (w_db w1) !! (p, n) = Some ino ∧ contents cs (w_db w1) ino = fo_data f ∧
     ∀ ops rs f2 w2, Forall handle_op_ok ops → handle_run ops (f1, w1) = (rs, (f2, w2)) →
       fo_dirty f2 = true →
       ∃ w3, close cs (f2, w2) = (VErr already_exists, (f2, w3)) ∧ w_db w3 = w_db w1) ∧
  (∃ ino st w1 w2, fstat cs overflow_checks (f, w) = (VOk st, (f, w1)) ∧
     fs_dentry (w_db w1) !! (p, n) = Some ino ∧ contents cs (w_db w1) ino = [] ∧
     close cs (f, w1) = (VErr already_exists, (f, w2)) ∧ w_db w2 = w_db w1).
Proof.
  intros Hcs Hwf Hh Hino Hd Hok Hsz Hloc Hp Hnew.
  destruct (get_or_create_new f p n w) as (ino & w0 & Hrun & Hh0 & Hwf0 & He0 & Hc0 & r & Hr & Hdir & Hlnk); [done..|].
  assert (He : fs_dentry (w_db w0) !! (p, n) = Some ino) by (by rewrite He0, lookup_insert_eq).
  assert (Hloc0 : located (fo_path f) (w_db w0) p n).
  { eapply located_mono; [|exact Hloc]. rewrite He0. by apply insert_subseteq. }
  pose proof (wf_core _ _ Hwf0) as Hcore. split.
  - destruct (write_back ino r f w0) as (w1 & Hback & Hh1 & Hof & Hch & Hlinks & Hc1);
      [done|apply Hcore|done|done|apply Hok|].
    exists ino, (cleaned f), w1. split_and!; [|by rewrite (of_dentry _ _ _ Hof)|done|].
    + rewrite <-Hback. unfold fsync. unfold mbind at 1, VM_bind at 1, get_file at 1. cbn [fst snd].
      rewrite Hd. cbn [negb]. unfold mbind at 1, VM_bind at 1. by rewrite Hrun.
    + intros ops rs f2 w2 Hops Hrun2 Hd2.
      destruct (handle_run_spec ops (cleaned f) w1) as (f2' & Hrun2' & _ & _ & Hsame); [done..|].
      rewrite Hrun2' in Hrun2. injection Hrun2 as _ -> <-.
      destruct Hsame as (Hino2 & Hpath & _). assert (Hwf1 : fs_wf cs (w_db w1)).
      { by destruct (edit_run cs (w_db w0) (w_db w1) ino r) as [? _]. }
      apply (close_taken f2 p n ino w1); [done|done|by rewrite Hino2|done| |].
      * rewrite Hpath. eapply located_mono; [|exact Hloc0]. by rewrite (of_dentry _ _ _ Hof).
      * by rewrite (of_dentry _ _ _ Hof).
  - pose proof (len_nonneg (fo_data f)).
    destruct (close_taken f p n ino w0) as (w2 & Hclose & Hdb); [done..|].
    eexists ino, _, w0, w2. split_and!; [|done..].
    unfold fstat, mbind, VM_bind. rewrite Hrun. unfold call, call_or. cbn [fst snd].
    rewrite (getattr_found ino r) by done. unfold found, mret, VM_ret, get_file. cbn [fst snd].
    unfold to_stat, mbind, VM_bind. rewrite vi64_in by (unfold in_i64; lia). reflexivity.
Qed.
(** ** The components of a path and of its parent *)

Lemma split_trim_end s p ps :
  split_slash s = p :: ps →
  ∃ ps', split_slash (trim_end s) = p :: ps' ∧ filter nonempty ps' = filter nonempty ps.
Proof.
  revert p ps. induction s as [|a s IH]; intros p ps; [intros [= <- <-]; by exists []|].
  destruct (split_slash_cons s) as (q & qs & Hs). destruct (IH q qs Hs) as (qs' & Ht & Hf).
  cbn [split_slash trim_end]. rewrite Hs. destruct (trim_end s) as [|b t] eqn:Htrim.
  - cbn in Ht. injection Ht as <- <-. cbn in Hf.
    destruct (Ascii.eqb a slash) eqn:Ha; intros [= <- <-].
    + exists []. split; [done|]. rewrite filter_cons, decide_False by (by intros []). done.
    + exists []. cbn [split_slash]. by rewrite Ha.
  - change (split_slash (String a (String b t))) with
      (if Ascii.eqb a slash then ""%string :: split_slash (String b t)
       else match split_slash (String b t) with
            | [] => [String a ""] | p :: ps => String a p :: ps end).
    rewrite Ht. destruct (Ascii.eqb a slash); intros [= <- <-]; eexists; (split; [done|]); [|done].
    rewrite !filter_cons. by destruct (decide (nonempty q)); rewrite Hf.
Qed.

Lemma components_trim s : components (trim_end s) = components s.
Proof.
  unfold components. destruct (split_slash_cons s) as (p & ps & Hs).
  destruct (split_trim_end s p ps Hs) as (ps' & Ht & Hf). rewrite Hs, Ht, !filter_cons.
  by destruct (decide (nonempty p)); rewrite Hf.
Qed.

Lemma components_parent rel parent n :
  split_parent rel = inr (parent, n) → n ≠ "" → components rel = components parent ++ [n].
Proof.
  unfold split_parent. destruct (String.eqb rel "/"); [done|]. intros Hs Hn.
  rewrite <-components_trim. set (s := trim_end rel) in *.
  pose proof (split_slash_pieces s) as Hp. unfold components.
  destruct (exists_last (l := split_slash s)) as (init & x & Hx).
  { destruct (split_slash_cons s) as (? & ? & ->). done. }
  rewrite Hx in Hs, Hp |- *. rewrite removelast_last, last_last in Hs.
  apply Forall_app in Hp as [Hinit Hlast]. apply Forall_cons in Hlast as [Hlast _].
  assert (Hfx : filter nonempty [n] = [n]) by by rewrite filter_cons, decide_True.
  destruct init as [|first [|second init]]; injection Hs as <- Hn'.
  - assert (x = n) as ->; [|exact Hfx]. apply split_slash_inj. by rewrite <-Hn', Hx.
  - subst x. rewrite filter_app, Hfx. f_equal. apply Forall_cons in Hinit as [Hfirst _].
    destruct (String.eqb_spec first "") as [->|]; [done|]. by rewrite Hfirst.
  - subst x. rewrite filter_app, Hfx. f_equal.
    assert (Hne : first :: second :: init ≠ []) by done.
    exact (f_equal (filter nonempty) (eq_sym (split_slash_join_inv _ Hne Hinit))).
Qed.
(** ** Attributes *)

Lemma walk_path_app {F} xs ys ino (s : F * W) :
  walk_path ino (xs ++ ys) s = (i ← walk_path ino xs; walk_path i ys) s.
Proof.
  revert ino s. induction xs as [|x xs IH]; intros ino s; [done|].
  cbn [app walk_path]. unfold mbind, VM_bind.
  destruct (call _ _ s) as [[st| |] s1]; [|done..].
  destruct (found st s1) as [[st'| |] s2]; [|done..]. apply IH.
Qed.

(** [stat] does not follow symlinks.  Whatever a path of the mount leads to, [stat]
    reports exactly what [lstat] does. *)
Theorem stat_is_lstat path rel p n w :
  fs_wf cs (w_db w) → healthy w →
  translate_to_relative mount_point path = inr rel → located rel (w_db w) p n → n ≠ "" →
  (stat mount_point overflow_checks path (tt, w)).1 =
  (lstat mount_point overflow_checks path (tt, w)).1.
Proof.
  intros Hwf Hh Hrel Hloc Hn. healthy_world w. cbn [w_db] in *.
  pose proof Hloc as (parent & Hs & Hord & Hc & Hw).
  unfold stat, lstat, to_relative. rewrite Hrel. unfold vfs_ok, mbind, VM_bind, mret, VM_ret. cbv beta iota.
  rewrite (located_not_root _ _ _ _ Hloc).
  destruct (lookup_last_run d clk t "lookup" rel p n tt mem Hwf Hloc) as [mem1 H1].
  rewrite H1. clear H1.
  assert (Hres : ∃ mem2, resolve_path rel (tt, mkWorld d mem [] (ticks clk) t) =
    match sees d p n with
    | Some s => (VOk (st_ino s), (tt, mkWorld d mem2 [] (ticks clk) t))
    | None => (VErr VfsError.NotFound, (tt, mkWorld d mem2 [] (ticks clk) t))
    end).
  { unfold resolve_path. rewrite (located_not_root _ _ _ _ Hloc).
    rewrite (components_parent rel parent n), walk_path_app by done.
    destruct (walk_path_run d clk t _ _ _ tt mem Hwf Hc Hw) as [mem2 H2].
    destruct (lookup_run d clk t p n mem2 Hord) as [mem3 H3]. exists mem3.
    unfold mbind, VM_bind. rewrite H2. cbn [walk_path]. unfold mbind, VM_bind, call, call_or.
    cbn [fst snd]. rewrite H3. by destruct (sees d p n). }
  destruct Hres as [mem2 Hres]. rewrite Hres.
  unfold sees. destruct (fs_dentry d !! (p, n)) as [c|] eqn:He; [|done].
  destruct (entry_row _ _ _ _ _ _ (wf_core _ _ Hwf) He) as [r Hr]. cbn. rewrite Hr. cbn.
  unfold call, call_or, mbind, VM_bind. cbn [fst snd].
  rewrite (getattr_found c r) by (done || by split; [|exists clk]).
  unfold found, mret, VM_ret, to_stat, vi64, mbind, VM_bind, mret, VM_ret. cbn.
  by destruct (_ && _), overflow_checks.
Qed.
(** ** Directories *)

Definition no_dots (path : string) : Prop := "."%string ∉ split_slash path.

Lemma drop_trailing_app l :
  "."%string ∉ l →
  ∃ tail, l = drop_trailing l ++ tail ∧ Forall (λ c, c = ""%string) tail ∧
    (drop_trailing l = [] ∨ ∃ init c, drop_trailing l = init ++ [c] ∧ c ≠ ""%string).
Proof.
  induction l as [|c l IH]; [by exists []; auto|]. intros [Hc Hl]%not_elem_of_cons.
  destruct (IH Hl) as (tail & Ht & Hempty & Hlast). cbn [drop_trailing foldr].
  change (foldr _ [] l) with (drop_trailing l). destruct (drop_trailing l) as [|x xs] eqn:Hd.
  - cbn [app] in Ht. subst tail. destruct (String.eqb_spec c "") as [->|Hne]; cbn [orb].
    + exists (""%string :: l). split_and!; [done|by constructor|by left].
    + destruct (String.eqb_spec c "."); [congruence|]. exists l.
      split_and!; [done|done|right; by exists [], c].
  - exists tail. split_and!; [by rewrite Ht at 1|done|right].
    destruct Hlast as [?|(init & y & -> & Hy)]; [done|]. by exists (c :: init), y.
Qed.

Lemma filter_empties l : Forall (λ c, c = ""%string) l → filter nonempty l = [].
Proof.
  induction 1 as [|c l -> _ IH]; [done|]. rewrite filter_cons, decide_False; [done|by intros []].
Qed.

Lemma parent_components_spec rel parent n :
  split_parent rel = inr (parent, n) → n ≠ "" → no_dots rel →
  parent_components rel = components parent.
Proof.
  intros Hs Hn Hdots. pose proof (components_parent rel parent n Hs Hn) as Hc.
  unfold components at 1 in Hc. unfold parent_components.
  destruct (drop_trailing_app _ Hdots) as (tail & Ht & Hempty & Hlast).
  rewrite Ht, filter_app, (filter_empties tail), app_nil_r in Hc by done.
  destruct Hlast as [Hnil|(init & c & Hd & Hne)].
  { rewrite Hnil in Hc. by destruct (components parent). }
  rewrite Hd in Hc |- *. rewrite removelast_last. rewrite filter_app in Hc.
  rewrite filter_cons, decide_True in Hc by done.
  apply app_inj_tail in Hc as [Hc _].
  assert (Hdots' : "."%string ∉ init).
  { intros Hin. apply Hdots. rewrite Ht, Hd. set_solver. }
  destruct (drop_trailing_app _ Hdots') as (tail' & Ht' & Hempty' & _).
  rewrite <-Hc. rewrite Ht' at 2. by rewrite filter_app, (filter_empties tail'), app_nil_r.
Qed.
Lemma walk_parent_run comps ino ino' (f : SqliteDirectoryOps) d mem clk t :
  fs_wf cs d → Forall ordinary comps → walk (fs_dentry d) ino comps = Some ino' →
  ∃ mem', walk_parent ino comps (f, mkWorld d mem [] (ticks clk) t) =
    (VOk ino', (f, mkWorld d mem' [] (ticks clk) t)).
Proof.
  intros Hwf Hc. revert ino mem. induction Hc as [|c comps Hc Hcs IH]; intros ino mem; cbn [walk].
  { intros [= ->]. by exists mem. }
  destruct (fs_dentry d !! (ino, c)) as [child|] eqn:He; [|done]. intros Hw.
  destruct (lookup_run d clk t ino c mem Hc) as [mem1 Hrun].
  destruct (entry_row _ _ _ _ _ _ (wf_core _ _ Hwf) He) as [r Hr].
  cbn [walk_parent]. unfold mbind at 1, VM_bind at 1, call, call_or. cbn [fst snd]. rewrite Hrun.
  unfold sees. rewrite He. cbn. rewrite Hr. cbn. by apply IH.
Qed.

(** The entry of a listing for a child. *)
Definition dirent (d : Db) (ino : Z) (e : Z * string * Z) : Prop :=
  ∃ c r, fs_dentry d !! (ino, e.1.2) = Some c ∧ fs_inode d !! c = Some r ∧
    e = (as_u64 c, e.1.2, dirent_type (build_stats_from_row c r)).

Definition listing (d : Db) (ino : Z) : list (Z * string * Z) :=
  (λ e, (as_u64 (st_ino (de_stats e)), de_name e, dirent_type (de_stats e))) <$>
    filter (λ e, de_name e ≠ ""%string) (sel_children_plus ino d).

Lemma listing_spec d ino :
  fs_wf cs d →
  (listing d ino).*1.*2 = filter (λ n, n ≠ ""%string) (sel_children ino d).*1 ∧
  ∀ e, e ∈ listing d ino → dirent d ino e.
Proof.
  intros Hwf. assert (Hl : ∀ e, e ∈ sel_children ino d → is_Some (fs_inode d !! e.2)).
  { intros [n c] He%sel_children_elem.
    destruct (co_dentry _ _ _ (wf_core _ _ Hwf) _ _ _ He) as [_ Hsome]. exact Hsome. }
  split.
  - rewrite <-(join_names d) by done. unfold listing. by rewrite <-!list_fmap_compose.
  - intros e ([n s] & -> & [_ Hin]%list_elem_of_filter)%list_elem_of_fmap.
    apply list_elem_of_omap in Hin as ([n' c] & Hin & He).
    apply sel_children_elem in Hin. cbn in He.
    destruct (fs_inode d !! c) as [r|] eqn:Hr; [|done]. injection He as <- <-. by exists c, r.
Qed.

(** A directory is listed once, completely.  The first [getdents] of an open directory
    returns the directory, its parent, and each of its entries once, in byte order
    of the names, with inode and type; the second returns nothing. *)
Theorem getdents_lists_once rel p n ino r flags w :
  fs_wf cs (w_db w) → healthy w → located rel (w_db w) p n → n ≠ "" → no_dots rel →
  fs_dentry (w_db w) !! (p, n) = Some ino → fs_inode (w_db w) !! ino = Some r →
  dir_row r = true →
  ∃ (f1 : SqliteDirectoryOps) w1 es,
    getdents (mkDirOps ino rel flags None 0, w) =
      (VOk ((as_u64 ino, ".", DT_DIR) :: (as_u64 p, "..", DT_DIR) :: es)%string, (f1, w1)) ∧
    getdents (f1, w1) = (VOk [], (f1, w1)) ∧ w_db w1 = w_db w ∧
    NoDup es.*1.*2 ∧ Sorted String.le es.*1.*2 ∧
    (∀ nm, nm ∈ es.*1.*2 ↔ nm ≠ "" ∧ is_Some (fs_dentry (w_db w) !! (ino, nm))) ∧
    ∀ e, e ∈ es → dirent (w_db w) ino e.
Proof.
  intros Hwf Hh Hloc Hn Hdots He Hr Hdir. healthy_world w. cbn [w_db] in *.
  pose proof Hloc as (parent & Hs & Hord & Hc & Hw).
  set (f := mkDirOps ino rel flags None 0).
  destruct (walk_parent_run _ _ _ f d mem clk t Hwf Hc Hw) as [mem1 Hrun].
  destruct (listing_spec d ino Hwf) as [Hnames Hes].
  set (es := listing d ino) in *.
  assert (Hread : read_entries (f, mkWorld d mem [] (ticks clk) t) =
    (VOk ((as_u64 ino, ".", DT_DIR) :: (as_u64 p, "..", DT_DIR) :: es)%string,
     (f, mkWorld d mem1 [] (ticks clk) t))).
  { unfold read_entries, mbind, VM_bind, get_file, call, call_or. cbn [fst snd do_ino do_path f].
    replace (readdir_plus ino (mkWorld d mem [] (ticks clk) t)) with
      (Ok (Some (filter (λ e, de_name e ≠ ""%string) (sel_children_plus ino d))),
       mkWorld d mem [] (ticks clk) t).
    2:{ unfold readdir_plus. run_fs. rewrite Hr, has_type_as_u32. unfold dir_row in Hdir. by rewrite Hdir. }
    unfold found, mret, VM_ret. cbn [fst snd].
    rewrite (getattr_found ino r) by (done || by split; [|exists clk]). cbn [fst snd].
    rewrite (located_not_root _ _ _ _ Hloc), (parent_components_spec rel parent n) by done.
    by rewrite Hrun. }
  set (all := _ :: _ :: es) in *.
  exists (mkDirOps ino rel flags (Some all) (length all)), (mkWorld d mem1 [] (ticks clk) t), es.
  rewrite Hnames. split_and!; [|..|done].
  - unfold getdents, mbind at 1, VM_bind at 1, get_file at 1. cbn [fst snd do_entries f].
    unfold mbind at 1, VM_bind at 1, mbind at 1, VM_bind at 1. rewrite Hread. reflexivity.
  - unfold getdents, mbind, VM_bind, get_file, mret, VM_ret. cbn [fst snd do_entries do_position].
    by rewrite bool_decide_true by lia.
  - done.
  - apply NoDup_filter, NoDup_sel_children.
  - apply StronglySorted_Sorted, sorted_names. unfold sel_children.
    apply StronglySorted_merge_sort; apply _.
  - intros nm. rewrite list_elem_of_filter. split.
    + intros [Hnm ([n' c] & -> & Hin)%list_elem_of_fmap]. split; [done|].
      apply sel_children_elem in Hin. by eexists.
    + intros [Hnm [c Hc']]. split; [done|]. apply list_elem_of_fmap. exists (nm, c).
      split; [done|]. by apply sel_children_elem.
Qed.
(** ** Writing back when the engine fails *)

#[local] Instance open_clock ino flags :
  KeepsClock (AgentFS.open cs ino flags : M Db (lru (Z * string) Z) _).
Proof. unfold AgentFS.open. apply _. Qed.
#[local] Instance open_stops ino flags :
  Stops (AgentFS.open cs ino flags : M Db (lru (Z * string) Z) _).
Proof. unfold AgentFS.open. apply _. Qed.
#[local] Instance open_atomic ino flags :
  Atomic (AgentFS.open cs ino flags : M Db (lru (Z * string) Z) _).
Proof. unfold AgentFS.open. apply _. Qed.

(** A part of the old contents may survive behind the new. *)
Definition overwritten (old data : bytes) : bytes :=
  match data with [] => old | _ => FileSpec.write old 0 data end.

(** C40: [fsync] under failures.  Wherever the engine fails, [fsync] of a handle on a file
    that is there either writes exactly the buffer and marks it clean; or it reports
    an error, the handle stays as it was, dirty, and the file holds its old contents
    or the buffer written over them (the cut to the new length is a second
    transaction); no other file is touched, and it never panics. *)
Theorem fsync_under_failures r f w :
  0 < cs → chunks_ok cs (w_db w) → clock_ok w → fs_inode (w_db w) !! fo_ino f = Some r →
  fo_ino f ≠ 0 → fo_dirty f = true → len (fo_data f) < 2 ^ 63 →
  let old := contents cs (w_db w) (fo_ino f) in
  match fsync cs (f, w) with
  | (VOk _, (f', w')) =>
      f' = cleaned f ∧ contents cs (w_db w') (fo_ino f) = fo_data f ∧
      only_file (fo_ino f) (w_db w) (w_db w')
  | (VErr _, (f', w')) =>
      f' = f ∧ (contents cs (w_db w') (fo_ino f) = old ∨
                contents cs (w_db w') (fo_ino f) = overwritten old (fo_data f)) ∧
      only_file (fo_ino f) (w_db w) (w_db w')
  | (VPanic, _) => False
  end.
Proof.
  intros Hcs Hok [clk Hclk] Hr Hino Hd Hl old. pose proof (len_nonneg (fo_data f)).
  unfold fsync, get_or_create_ino, mbind, VM_bind, get_file, call, call_or. cbn [fst snd].
  rewrite Hd. cbn [negb fst snd]. destruct (Z.eqb_spec (fo_ino f) 0); [done|]. cbn [negb].
  unfold mret, VM_ret. cbn [fst snd]. set (ino := fo_ino f) in *.
  pose proof (agentfs_open_run ino r O_RDWR (set_faults [] w)) as Hopen.
  apply stops_atomic in Hopen; [|apply _..|by split; [|exists clk]|done].
  pose proof (keeps_clock (m := AgentFS.open cs ino O_RDWR) w) as Hclk0.
  destruct (AgentFS.open cs ino O_RDWR w) as [[file|e|] w0]; cbn [fst snd] in *; [| |done].
  2:{ destruct Hopen as (_ & ->). split_and!; [done|by left|apply only_file_refl]. }
  destruct Hopen as (-> & Hdb & _). cbn [w_db set_faults] in Hdb.
  destruct (pwrite_run cs ino 0 (fo_data f) r (set_faults [] w0))
    as (w1 & H1 & Hh1 & Hof1 & Hok1 & _ & (r1 & Hr1 & _) & Hc1); try done.
  { cbn [w_db set_faults]. by rewrite Hdb. }
  { split; [done|]. exists clk. cbn [w_clock set_faults]. congruence. }
  { cbn [w_db set_faults]. by rewrite Hdb. }
  cbn [w_db set_faults] in Hof1, Hc1. rewrite Hdb in Hof1, Hc1. fold old in Hc1.
  apply stops_atomic in H1; [|apply _..].
  pose proof (keeps_clock (m := pwrite (mkFile ino cs) 0 (fo_data f)) w0) as Hclk1.
  destruct (pwrite (mkFile ino cs) 0 (fo_data f) w0) as [[u|e|] w2]; cbn [fst snd] in *; [| |done].
  2:{ destruct H1 as (_ & ->). rewrite Hdb. split_and!; [done|by left|apply only_file_refl]. }
  destruct H1 as (_ & Hdb1 & _). rewrite <-Hdb1 in *.
  destruct (truncate_run cs ino (len (fo_data f)) r1 (set_faults [] w2))
    as (w3 & H3 & _ & Hof3 & _ & _ & _ & Hc3); try done.
  { split; [done|]. exists clk. cbn [w_clock set_faults]. congruence. }
  cbn [w_db set_faults] in Hof3, Hc3. apply stops_atomic in H3; [|apply _..].
  destruct (truncate (mkFile ino cs) (len (fo_data f)) w2) as [[u'|e|] w4]; cbn [fst snd] in *; [| |done].
  - cbv [put_file]. cbn [fst snd]. destruct H3 as (_ & -> & _).
    split_and!; [done| |by eapply only_file_trans].
    rewrite Hc3, Hc1. apply spec_write_truncate.
  - destruct H3 as (_ & ->). split_and!; [done|right; exact Hc1|done].
Qed.
End Props.
