(* ===== verification/Xdr.v ===== *)
(** * Xdr: the external data representation of the NFS server

    [cli/src/nfsserve/xdr.rs]: the trait [XDR], its instances for the basic types, and
    the macros [XDRStruct], [XDRBoolUnion] and [XDREnumSerde].  A value is written to a
    vector, which fails only where the source asserts ([None] is the panic); it is read
    from a slice, over the value that was there before.  [XdrCodec] are the laws of a
    codec; every instance of [XDR] of the server has an instance of it. *)
From S2P Require Import Prelude.

(** ** Reading *)

(** [std::io::Error], as far as reading from a slice produces it; the messages, which
    only go to the log, are left out. *)
Inductive IoError := UnexpectedEof | InvalidData.

(** A reader takes the rest of the input and leaves a shorter one. *)
Definition Reader (A : Type) : Type := bytes → IoError + A * bytes.
#[export] Instance reader_ret : MRet Reader := λ A a bs, inr (a, bs).
#[export] Instance reader_bind : MBind Reader := λ A B f m bs,
  match m bs with
  | inr (a, bs') => f a bs'
  | inl e => inl e
  end.
Definition read_err {A} (e : IoError) : Reader A := λ _, inl e.

(** [Read::read_exact] into a buffer of [n] bytes. *)
Definition read_exact (n : nat) : Reader bytes := λ bs,
  if decide (n <= length bs)%nat then inr (take n bs, drop n bs) else inl UnexpectedEof.

(** ** Bytes of an integer *)

Definition byte_val (b : byte) : Z := Z.of_N (Byte.to_N b).
Definition val_byte (z : Z) : byte := default zero_byte (Byte.of_N (Z.to_N (z mod 256))).

(** [to_le_bytes] and [from_le_bytes] for [n] bytes; [to_be_bytes] reverses them. *)
Fixpoint le_bytes (n : nat) (z : Z) : bytes :=
  match n with O => [] | S n => val_byte z :: le_bytes n (z / 256) end.
Fixpoint le_val (bs : bytes) : Z :=
  match bs with [] => 0 | b :: bs => byte_val b + 256 * le_val bs end.
Definition be_bytes (n : nat) (z : Z) : bytes := reverse (le_bytes n z).
Definition be_val (bs : bytes) : Z := le_val (reverse bs).

(** [write_u32], [write_u64] and their readers, big-endian. *)
Definition write_uint (n : nat) (z : Z) : option bytes := Some (be_bytes n z).
Definition read_uint (n : nat) : Reader Z := bs ← read_exact n; mret (be_val bs).

(** The signed value of [w] bits. *)
Definition to_signed (w z : Z) : Z :=
  let m := z mod 2 ^ w in if m <? 2 ^ (w - 1) then m else m - 2 ^ w.

(** ** The trait *)

Class XDR (T : Type) := {
  serialize : T → option bytes;
  deserialize : T → Reader T
}.

(** [Default::default()]. *)
Class Default (T : Type) := default_value : T.

(** [a.serialize(dest)?; b.serialize(dest)?]. *)
Definition wapp (a b : option bytes) : option bytes :=
  match a, b with Some x, Some y => Some (x ++ y) | _, _ => None end.
Definition wconcat (l : list (option bytes)) : option bytes := foldr wapp (Some []) l.

(** The integers of the source are [Z]; the instances are for wrappers that say which
    type is meant. *)
Inductive u32 := U32 (z : Z).
Inductive u64 := U64 (z : Z).
Inductive i32 := I32 (z : Z).
Inductive i64 := I64 (z : Z).
Definition of_u32 (x : u32) : Z := let 'U32 z := x in z.
Definition of_u64 (x : u64) : Z := let 'U64 z := x in z.

#[export] Instance u32_default : Default u32 := U32 0.
#[export] Instance u64_default : Default u64 := U64 0.
#[export] Instance bool_default : Default bool := false.
#[export] Instance bytes_default : Default bytes := [].

#[export] Instance u32_xdr : XDR u32 := {|
  serialize x := let 'U32 z := x in write_uint 4 z;
  deserialize _ := z ← read_uint 4; mret (U32 z) |}.
#[export] Instance u64_xdr : XDR u64 := {|
  serialize x := let 'U64 z := x in write_uint 8 z;
  deserialize _ := z ← read_uint 8; mret (U64 z) |}.
#[export] Instance i32_xdr : XDR i32 := {|
  serialize x := let 'I32 z := x in write_uint 4 (as_u32 z);
  deserialize _ := z ← read_uint 4; mret (I32 (to_signed 32 z)) |}.
#[export] Instance i64_xdr : XDR i64 := {|
  serialize x := let 'I64 z := x in write_uint 8 (as_u64 z);
  deserialize _ := z ← read_uint 8; mret (I64 (to_signed 64 z)) |}.

(** A [bool] is read from any number: [val > 0]. *)
#[export] Instance bool_xdr : XDR bool := {|
  serialize (b : bool) := write_uint 4 (if b then 1 else 0);
  deserialize _ := z ← read_uint 4; mret (0 <? z) |}.

(** [[u8; N]]: the length is that of the array. *)
Inductive array (N : nat) := Array (bs : bytes).
Arguments Array {N} bs.
Definition array_bytes {N} (a : array N) : bytes := let 'Array bs := a in bs.
#[export] Instance array_default N : Default (array N) := Array (N:=N) (replicate N zero_byte).
#[export] Instance array_xdr N : XDR (array N) := {|
  serialize (a : array N) := Some (array_bytes a);
  deserialize _ := bs ← read_exact N; mret (Array (N:=N) bs) |}.

(** [u32::MAX], and the padding of a length. *)
Definition U32_MAX : Z := 2 ^ 32 - 1.
Definition pad (length : Z) : Z := (4 - length mod 4) mod 4.

#[export] Instance bytes_xdr : XDR bytes := {|
  serialize (self : bytes) :=
    if len self <? U32_MAX then
      wconcat [write_uint 4 (len self); Some self; Some (zeros (pad (len self)))]
    else None;
  deserialize _ :=
    length ← read_uint 4;
    self ← read_exact (Z.to_nat length);
    read_exact (Z.to_nat (pad length)) ;;
    mret self |}.

(** [for i in self { i.deserialize(src)?; }]. *)
Fixpoint read_each {A} `{XDR A} (l : list A) : Reader (list A) :=
  match l with
  | [] => mret []
  | x :: l => y ← deserialize x; k ← read_each l; mret (y :: k)
  end.

#[export] Instance vec_u32_xdr : XDR (list u32) := {|
  serialize (self : list u32) :=
    if len self <? U32_MAX then
      wconcat (write_uint 4 (len self) :: (serialize <$> self))
    else None;
  deserialize (self : list u32) :=
    length ← read_uint 4;
    read_each (vec_resize self length (U32 0)) |}.
#[export] Instance vec_u32_default : Default (list u32) := [].

(** ** The macros *)

#[export] Instance prod_xdr {A B} `{XDR A, XDR B} : XDR (A * B) := {|
  serialize (p : A * B) := wapp (serialize p.1) (serialize p.2);
  deserialize (p : A * B) := a ← deserialize p.1; b ← deserialize p.2; mret (a, b) |}.

(** [XDRStruct!(T, f1, ..., fn)]: the fields one after the other, in the order given. *)
Definition xdr_struct {T F} `{XDR F} (fields : T → F) (build : F → T) : XDR T := {|
  serialize (self : T) := serialize (fields self);
  deserialize (self : T) := f ← deserialize (fields self); mret (build f) |}.

(** [XDREnumSerde!(T)]: [self as u32] and [FromPrimitive::from_u32]. *)
Definition xdr_enum {T} (as_num : T → Z) (from_u32 : Z → option T) : XDR T := {|
  serialize (self : T) := write_uint 4 (as_num self);
  deserialize _ :=
    r ← read_uint 4;
    match from_u32 r with
    | Some p => mret p
    | None => read_err InvalidData
    end |}.

(** [XDRBoolUnion!(T, case, A)] is [option A], with [None] for [Void]. *)
#[export] Instance option_xdr {A} `{XDR A, Default A} : XDR (option A) := {|
  serialize (self : option A) :=
    match self with
    | None => serialize false
    | Some v => wapp (serialize true) (serialize v)
    end;
  deserialize _ :=
    c ← deserialize false;
    match c with
    | false => mret None
    | true => r ← deserialize default_value; mret (Some r)
    end |}.
#[export] Instance option_default {A} : Default (option A) := None.

(** ** The laws of a codec *)

(** [fits v]: the integers of [v] are within their types, and its vectors are short
    enough for the assertion of [serialize].  Such a value is written, in a multiple of
    four bytes, and read back whatever follows and whatever was there before; and what is
    read from a message of less than 4 GiB fits. *)
Class XdrCodec (T : Type) `{XDR T} := {
  fits : T → Prop;
  round_trip v : fits v → ∃ bs, serialize v = Some bs ∧ (4 | len bs) ∧
    ∀ old rest, deserialize old (bs ++ rest) = inr (v, rest);
  read_fits old bs v rest : fits old → len bs < U32_MAX →
    deserialize old bs = inr (v, rest) → fits v ∧ rest `suffix_of` bs
}.
Arguments fits {_ _ _} _ : simpl never.

Class DefaultFits (T : Type) `{XdrCodec T, Default T} := default_fits : fits (default_value (T := T)).

(** ** Lemmas on bytes *)

Lemma byte_val_range b : 0 <= byte_val b < 256.
Proof. unfold byte_val. pose proof (Byte.to_N_bounded b). lia. Qed.

Lemma byte_val_val_byte z : byte_val (val_byte z) = z mod 256.
Proof.
  unfold byte_val, val_byte. pose proof (Z.mod_pos_bound z 256 ltac:(lia)) as Hz.
  destruct (Byte.of_N _) as [b|] eqn:Hb; simpl.
  - apply Byte.to_of_N in Hb. lia.
  - apply Byte.of_N_None_iff in Hb. lia.
Qed.

Lemma val_byte_byte_val b z : val_byte (byte_val b + 256 * z) = b.
Proof.
  unfold val_byte, byte_val. pose proof (Byte.to_N_bounded b).
  replace ((Z.of_N (Byte.to_N b) + 256 * z) mod 256) with (Z.of_N (Byte.to_N b)).
  - by rewrite N2Z.id, Byte.of_to_N.
  - rewrite (Z.mul_comm 256), Z_mod_plus_full, Z.mod_small; lia.
Qed.

Lemma length_le_bytes n z : length (le_bytes n z) = n.
Proof. revert z. induction n as [|n IH]; intros z; simpl; [done|by rewrite IH]. Qed.
Lemma length_be_bytes n z : length (be_bytes n z) = n.
Proof. unfold be_bytes. by rewrite length_reverse, length_le_bytes. Qed.
#[export] Hint Rewrite length_le_bytes length_be_bytes @length_reverse : len.

Lemma le_val_bytes n z : le_val (le_bytes n z) = z mod 256 ^ Z.of_nat n.
Proof.
  revert z. induction n as [|n IH]; intros z.
  { simpl. by rewrite Z.mod_1_r. }
  simpl. rewrite IH, byte_val_val_byte, Nat2Z.inj_succ, Z.pow_succ_r by lia.
  pose proof (Z.pow_pos_nonneg 256 (Z.of_nat n) ltac:(lia) ltac:(lia)).
  rewrite Z.rem_mul_r by lia. lia.
Qed.

Lemma le_val_range bs : 0 <= le_val bs < 256 ^ len bs.
Proof.
  induction bs as [|b bs IH]; [done|]. rewrite len_cons, Z.pow_add_r by (done || lia).
  change (256 ^ 1) with 256. cbn [le_val]. pose proof (byte_val_range b). lia.
Qed.

Lemma be_val_bytes n z : 0 <= z < 256 ^ Z.of_nat n → be_val (be_bytes n z) = z.
Proof.
  intros Hz. unfold be_val, be_bytes. rewrite reverse_involutive, le_val_bytes.
  by apply Z.mod_small.
Qed.

Lemma be_val_range bs : 0 <= be_val bs < 256 ^ len bs.
Proof.
  unfold be_val. replace (len bs) with (len (reverse bs)); [apply le_val_range|].
  unfold len. by rewrite length_reverse.
Qed.

(** ** Lemmas on readers *)

Lemma reader_bind_inr {A B} (m : Reader A) (f : A → Reader B) bs b rest :
  (m ≫= f) bs = inr (b, rest) ↔ ∃ a bs', m bs = inr (a, bs') ∧ f a bs' = inr (b, rest).
Proof.
  unfold mbind, reader_bind. destruct (m bs) as [e|[a bs']]; split; try naive_solver.
Qed.

Lemma reader_step {A B} (m : Reader A) (f : A → Reader B) bs a bs' :
  m bs = inr (a, bs') → (m ≫= f) bs = f a bs'.
Proof. unfold mbind, reader_bind. by intros ->. Qed.

Lemma read_exact_app n bs rest : length bs = n → read_exact n (bs ++ rest) = inr (bs, rest).
Proof.
  intros <-. unfold read_exact. rewrite decide_True by (rewrite length_app; lia).
  by rewrite take_app_length, drop_app_length.
Qed.

Lemma read_exact_inr n bs a rest :
  read_exact n bs = inr (a, rest) → length a = n ∧ bs = a ++ rest.
Proof.
  unfold read_exact. case_decide; intros [= <- <-].
  split; [rewrite length_take; lia|by rewrite take_drop].
Qed.

Lemma read_uint_bytes n z rest :
  0 <= z < 256 ^ Z.of_nat n → read_uint n (be_bytes n z ++ rest) = inr (z, rest).
Proof.
  intros Hz. unfold read_uint. erewrite reader_step by (apply read_exact_app; len).
  by rewrite be_val_bytes.
Qed.

Lemma read_uint_inr n bs z rest :
  read_uint n bs = inr (z, rest) → 0 <= z < 256 ^ Z.of_nat n ∧ ∃ a, bs = a ++ rest ∧ length a = n.
Proof.
  unfold read_uint. intros (a & bs' & Ha & [= <- <-])%reader_bind_inr.
  apply read_exact_inr in Ha as [Hl ->]. split; [|by eauto].
  pose proof (be_val_range a) as H. unfold len in H. by rewrite Hl in H.
Qed.

Lemma suffix_len (rest bs : bytes) n : rest `suffix_of` bs → len bs < n → len rest < n.
Proof. intros [a ->]. rewrite len_app. pose proof (len_nonneg a). lia. Qed.

Lemma reader_map {A B} (m : Reader A) (f : A → B) bs b rest :
  (a ← m; mret (f a)) bs = inr (b, rest) → ∃ a, m bs = inr (a, rest) ∧ b = f a.
Proof. intros (a & bs' & Ha & [= <- <-])%reader_bind_inr. by exists a. Qed.

(** ** The codecs *)

(** Types that are written as one integer of [n] bytes. *)
Section UintCodec.
Context {T : Type} (n : nat) (as_num : T → Z) (of_num : Z → T).
Hypotheses (Hn : (4 | Z.of_nat n)).

Lemma uint_round_trip v :
  0 <= as_num v < 256 ^ Z.of_nat n → of_num (as_num v) = v →
  ∃ bs, write_uint n (as_num v) = Some bs ∧ (4 | len bs) ∧
    ∀ (old : T) rest, (z ← read_uint n; mret (of_num z)) (bs ++ rest) = inr (v, rest).
Proof using Hn.
  intros Hz Hv. exists (be_bytes n (as_num v)). split_and!; [done|unfold len; by len|].
  intros _ rest. erewrite reader_step by by apply read_uint_bytes. by rewrite Hv.
Qed.

Lemma uint_read bs v rest :
  (z ← read_uint n; mret (of_num z)) bs = inr (v, rest) →
  ∃ z, 0 <= z < 256 ^ Z.of_nat n ∧ v = of_num z ∧ rest `suffix_of` bs.
Proof.
  intros (z & (Hz & a & -> & Ha)%read_uint_inr & ->)%reader_map.
  exists z. split; [done|]. split; [done|by exists a].
Qed.
End UintCodec.

#[export] Program Instance u32_codec : XdrCodec u32 := {| fits x := in_u32 (of_u32 x) |}.
Next Obligation.
  intros [z] Hz. by apply (uint_round_trip 4 of_u32 U32 ltac:(by exists 1) (U32 z)).
Qed.
Next Obligation. intros old bs v rest _ _ (z & ? & -> & ?)%uint_read. by split. Qed.

#[export] Program Instance u64_codec : XdrCodec u64 := {| fits x := in_u64 (of_u64 x) |}.
Next Obligation.
  intros [z] Hz. by apply (uint_round_trip 8 of_u64 U64 ltac:(by exists 2) (U64 z)).
Qed.
Next Obligation. intros old bs v rest _ _ (z & ? & -> & ?)%uint_read. by split. Qed.

#[export] Program Instance bool_codec : XdrCodec bool := {| fits _ := True |}.
Next Obligation.
  intros b _. by apply (uint_round_trip 4 (λ b : bool, if b then 1 else 0) (λ z, 0 <? z)
                          ltac:(by exists 1) b); destruct b.
Qed.
Next Obligation. intros old bs v rest _ _ (z & ? & -> & ?)%uint_read. by split. Qed.

Lemma bool_round_trip (b : bool) : ∃ bs, serialize b = Some bs ∧ (4 | len bs) ∧
  ∀ (old : bool) rest, deserialize old (bs ++ rest) = inr (b, rest).
Proof. by apply round_trip. Qed.

(** Enumerations: [from_u32] knows the numbers of the variants. *)
Definition enum_codec {T} (as_num : T → Z) from_u32 :
  (∀ v, in_u32 (as_num v) ∧ from_u32 (as_num v) = Some v) →
  @XdrCodec T (xdr_enum as_num from_u32).
Proof.
  intros Hv. refine {| fits := λ _ : T, True |}.
  - intros v _. destruct (Hv v) as [Hz Hf]. exists (be_bytes 4 (as_num v)).
    split_and!; [done|unfold len; len; by exists 1|]. intros old rest.
    cbn [deserialize xdr_enum]. erewrite reader_step by by apply read_uint_bytes.
    by rewrite Hf.
  - intros old bs v rest _ _ (z & bs' & (Hz & a & -> & Ha)%read_uint_inr & H)%reader_bind_inr.
    split; [done|]. destruct (from_u32 z) as [p|]; [|done]. injection H as <- <-. by exists a.
Defined.

#[export] Program Instance array8_codec : XdrCodec (array 8) :=
  {| fits a := length (array_bytes a) = 8%nat |}.
Next Obligation.
  intros [bs] Hl. exists bs. split_and!; [done|unfold len; cbn in Hl; rewrite Hl; by exists 2|].
  intros old rest. cbn [deserialize array_xdr]. by erewrite reader_step by by apply read_exact_app.
Qed.
Next Obligation.
  intros old bs v rest _ _ (a & [Hl ->]%read_exact_inr & ->)%reader_map. split; [done|by exists a].
Qed.
#[export] Instance array8_default_fits : DefaultFits (array 8).
Proof. done. Qed.
#[export] Instance u32_default_fits : DefaultFits u32.
Proof. done. Qed.
#[export] Instance u64_default_fits : DefaultFits u64.
Proof. done. Qed.

Lemma pad_length l : (4 | 4 + (l + pad l)) ∧ 0 <= pad l.
Proof.
  unfold pad. split; [|by apply Z.mod_pos_bound].
  pose proof (Z.mod_pos_bound l 4 ltac:(lia)) as Hr.
  apply Z.mod_divide; [done|]. rewrite (Z.div_mod l 4) at 1 by done.
  set (r := l mod 4) in *. assert (r = 0 ∨ r = 1 ∨ r = 2 ∨ r = 3) as Hcases by lia.
  rewrite <-Z.add_assoc, (Z.add_comm 4), <-Z.add_assoc, (Z.mul_comm 4), Z.add_comm, Z_mod_plus_full.
  by destruct Hcases as [->|[->|[->| ->]]].
Qed.

#[export] Program Instance bytes_codec : XdrCodec bytes := {| fits bs := len bs < U32_MAX |}.
Next Obligation.
  intros self Hl. destruct (pad_length (len self)) as [Hpad Hpos].
  exists (be_bytes 4 (len self) ++ self ++ zeros (pad (len self)) ++ []). split_and!.
  - cbn [serialize bytes_xdr]. by rewrite (proj2 (Z.ltb_lt _ _) Hl).
  - rewrite !len_app, len_zeros, len_nil, Z.add_0_r by done.
    unfold len at 1. by rewrite length_be_bytes.
  - intros old rest. rewrite <-!app_assoc. cbn [deserialize bytes_xdr app].
    erewrite reader_step; [|apply read_uint_bytes; unfold U32_MAX in Hl; pose proof (len_nonneg self);
      change (256 ^ Z.of_nat 4) with (2 ^ 32); lia].
    erewrite reader_step by (apply read_exact_app; unfold len; lia).
    erewrite reader_step; [done|]. apply read_exact_app.
    unfold zeros. by rewrite length_replicate.
Qed.
Next Obligation.
  intros old bs v rest _ Hb (z & bs1 & (Hz & a & -> & Ha)%read_uint_inr & H)%reader_bind_inr.
  apply reader_bind_inr in H as (self & bs2 & [Hl ->]%read_exact_inr & H).
  apply reader_bind_inr in H as (p & bs3 & [Hp ->]%read_exact_inr & [= <- <-]).
  split; [revert Hb; unfold len; rewrite !length_app; lia|].
  exists (a ++ self ++ p). by rewrite <-!app_assoc.
Qed.
#[export] Instance bytes_default_fits : DefaultFits bytes.
Proof. done. Qed.

(** Elements one after the other. *)
Section Each.
Context {T : Type} `{XdrCodec T}.

Lemma each_round_trip (l : list T) : Forall fits l →
  ∃ bs, wconcat (serialize <$> l) = Some bs ∧ (4 | len bs) ∧
    ∀ old rest, length old = length l → read_each old (bs ++ rest) = inr (l, rest).
Proof.
  induction 1 as [|x l Hx _ (bs & Hbs & Hd & Hr)].
  { exists []. split_and!; [done|by exists 0|]. by intros [|]. }
  destruct (round_trip x Hx) as (b & Hb & Hdb & Hrb). exists (b ++ bs). split_and!.
  - cbn [fmap list_fmap wconcat foldr]. unfold wconcat in Hbs. by rewrite Hb, Hbs.
  - rewrite len_app. by apply Z.divide_add_r.
  - intros [|o old] rest [=]; cbn [read_each]. rewrite <-app_assoc.
    erewrite reader_step by apply Hrb. by erewrite reader_step by by apply Hr.
Qed.

Lemma each_read_fits (old : list T) bs l rest :
  Forall fits old → len bs < U32_MAX → read_each old bs = inr (l, rest) →
  Forall fits l ∧ length l = length old ∧ rest `suffix_of` bs.
Proof.
  revert bs l rest. induction old as [|o old IH]; intros bs l rest Ho Hb Hr; cbn [read_each] in Hr.
  { by injection Hr as <- <-. }
  apply Forall_cons in Ho as [Ho1 Ho2].
  apply reader_bind_inr in Hr as (y & bs1 & [Hy Hs]%read_fits & Hr); [|done..].
  apply reader_bind_inr in Hr as (k & bs2 & Hk & [= <- <-]).
  apply IH in Hk as (Hf & Hlen & Hs2); [|done|].
  - split_and!; [by constructor|by simpl; rewrite Hlen|by trans bs1].
  - by eapply suffix_len.
Qed.
End Each.

(** A vector of [u32] is written element by element: its length counts elements. *)
Lemma read_each_u32_length old bs l rest :
  read_each (A := u32) old bs = inr (l, rest) → 4 * len old <= len bs.
Proof.
  revert bs l. induction old as [|o old IH]; intros bs l Hr; [apply len_nonneg|].
  cbn [read_each] in Hr.
  apply reader_bind_inr in Hr as (y & bs1 & Hy & Hr).
  apply reader_bind_inr in Hr as (k & bs2 & Hk & [= <- <-]).
  apply reader_map in Hy as (z & (_ & a & -> & Ha)%read_uint_inr & _).
  apply IH in Hk. assert (len a = 4) by (unfold len; lia). rewrite len_cons, len_app. lia.
Qed.

#[export] Program Instance vec_u32_codec : XdrCodec (list u32) :=
  {| fits l := len l < U32_MAX ∧ Forall fits l |}.
Next Obligation.
  intros self [Hl Hf]. destruct (each_round_trip self Hf) as (bs & Hbs & Hd & Hr).
  exists (be_bytes 4 (len self) ++ bs). split_and!.
  - cbn [serialize vec_u32_xdr]. rewrite (proj2 (Z.ltb_lt _ _) Hl).
    unfold wconcat in *. cbn [foldr]. by rewrite Hbs.
  - rewrite len_app. apply Z.divide_add_r; [|done].
    unfold len at 1. rewrite length_be_bytes. by exists 1.
  - intros old rest. rewrite <-app_assoc. cbn [deserialize vec_u32_xdr].
    pose proof (len_nonneg self). unfold U32_MAX in Hl.
    erewrite reader_step; [|apply read_uint_bytes; change (256 ^ Z.of_nat 4) with (2 ^ 32); lia].
    apply Hr. unfold vec_resize. rewrite length_resize. unfold len. lia.
Qed.
Next Obligation.
  intros old bs v rest [_ Ho] Hb (z & bs1 & (Hz & a & -> & Ha)%read_uint_inr & H)%reader_bind_inr.
  pose proof (read_each_u32_length _ _ _ _ H) as Hlen.
  rewrite len_app in Hb. pose proof (len_nonneg a).
  apply each_read_fits in H as (Hf & Hl & Hs); [| |lia].
  - split; [|by apply suffix_app_r]. split; [|done].
    rewrite (f_equal Z.of_nat Hl : len v = len _). pose proof (len_nonneg (vec_resize old z (U32 0))). lia.
  - unfold vec_resize. apply Forall_resize; [by apply (u32_default_fits)|done].
Qed.
#[export] Instance vec_u32_default_fits : DefaultFits (list u32).
Proof. by split. Qed.

#[export] Program Instance prod_codec {A B} `{XdrCodec A, XdrCodec B} : XdrCodec (A * B) :=
  {| fits p := fits p.1 ∧ fits p.2 |}.
Next Obligation.
  intros A B ???? [a b] [Ha Hb]. destruct (round_trip a Ha) as (x & Hx & Hdx & Hrx).
  destruct (round_trip b Hb) as (y & Hy & Hdy & Hry). exists (x ++ y). split_and!.
  - cbn [serialize prod_xdr fst snd]. by rewrite Hx, Hy.
  - rewrite len_app. by apply Z.divide_add_r.
  - intros old rest. rewrite <-app_assoc. cbn [deserialize prod_xdr].
    erewrite reader_step by apply Hrx. by erewrite reader_step by apply Hry.
Qed.
Next Obligation.
  intros A B ???? [a b] bs v rest [Ha Hb] Hlen (x & bs1 & [Hx Hs]%read_fits & H3)%reader_bind_inr; [|done..].
  apply reader_map in H3 as (y & [Hy Hs2]%read_fits & ->); [|done|].
  - split; [done|by trans bs1].
  - by eapply suffix_len.
Qed.

(** A structure has the codec of its fields. *)
Definition struct_codec {T F} `{XdrCodec F} (fields : T → F) (build : F → T)
    (Hbf : ∀ v, build (fields v) = v) (Hfb : ∀ f, fields (build f) = f) :
  @XdrCodec T (xdr_struct fields build).
Proof.
  refine {| fits := λ v : T, fits (fields v) |}.
  - intros v Hv. destruct (round_trip _ Hv) as (bs & Hbs & Hd & Hr). exists bs.
    split_and!; [done..|]. intros old rest. cbn [deserialize xdr_struct].
    erewrite reader_step by apply Hr. by rewrite Hbf.
  - intros old bs v rest Ho Hb (f & [Hf Hs]%read_fits & ->)%reader_map; [|done..].
    by rewrite Hfb.
Defined.

#[export] Program Instance option_codec {A} `{DefaultFits A} : XdrCodec (option A) :=
  {| fits o := from_option fits True o |}.
Next Obligation.
  intros A ???? [v|] Hv.
  - destruct (round_trip v Hv) as (x & Hx & Hd & Hr), (bool_round_trip true) as (y & Hy & Hdy & Hry).
    exists (y ++ x). split_and!.
    + cbn [serialize option_xdr]. by rewrite Hx, Hy.
    + rewrite len_app. by apply Z.divide_add_r.
    + intros old rest. rewrite <-app_assoc. cbn [deserialize option_xdr].
      erewrite reader_step by apply Hry. cbv beta iota. by erewrite reader_step by apply Hr.
  - destruct (bool_round_trip false) as (y & Hy & Hdy & Hry). exists y.
    split_and!; [done..|]. intros old rest. cbn [deserialize option_xdr].
    by erewrite reader_step by apply Hry.
Qed.
Next Obligation.
  intros A ???? old bs v rest _ Hlen (c & bs1 & [_ Hs]%read_fits & Hc)%reader_bind_inr; [|done..].
  destruct c.
  - apply reader_map in Hc as (x & [Hx Hs2]%read_fits & ->); [|apply default_fits|].
    + split; [done|by trans bs1].
    + by eapply suffix_len.
  - injection Hc as <- <-. by split.
Qed.
#[export] Instance option_default_fits {A} `{DefaultFits A} : DefaultFits (option A).
Proof. done. Qed.

(** [FromPrimitive::from_u32], as derived: the first variant with the number. *)
Definition from_primitive {T} (as_num : T → Z) (variants : list T) (z : Z) : option T :=
  head (filter (λ v, as_num v = z) variants).

Lemma u32_round_trip k : in_u32 k →
  ∃ bs, serialize (U32 k) = Some bs ∧ (4 | len bs) ∧
    ∀ (old : u32) rest, deserialize old (bs ++ rest) = inr (U32 k, rest).
Proof. intros Hk. by apply round_trip. Qed.

(** A discriminant followed by a payload. *)
Lemma tag_round_trip {P} `{XdrCodec P} k (v : P) : in_u32 k → fits v →
  ∃ bs, wapp (serialize (U32 k)) (serialize v) = Some bs ∧ (4 | len bs) ∧
    ∀ rest, ∃ mid, (∀ old : u32, deserialize old (bs ++ rest) = inr (U32 k, mid)) ∧
      ∀ old, deserialize old mid = inr (v, rest).
Proof.
  intros Hk Hv. destruct (u32_round_trip k Hk) as (x & Hx & Hdx & Hrx).
  destruct (round_trip v Hv) as (y & Hy & Hdy & Hry). exists (x ++ y).
  rewrite Hx, Hy, len_app. split_and!; [done|by apply Z.divide_add_r|].
  intros rest. exists (y ++ rest). rewrite <-app_assoc. by split; intros.
Qed.

(** Laws of a union, one variant at a time. *)
Ltac open_union :=
  match goal with |- @deserialize _ ?i _ _ = _ => unfold i; cbn [deserialize] end.
Ltac union_variant k :=
  match goal with
  | |- ∃ bs, wapp (serialize (U32 _)) (serialize ?v) = _ ∧ _ =>
      destruct (tag_round_trip k v) as (bs & Hbs & Hd & Hr); [done|done|];
      exists bs; split_and!; [done..|];
      intros old rest; destruct (Hr rest) as (mid & Hm & Hp);
      open_union; erewrite reader_step by apply Hm; cbn -[deserialize];
      by erewrite reader_step by apply Hp
  | |- _ =>
      destruct (u32_round_trip k) as (bs & Hbs & Hd & Hr); [done|];
      exists bs; split_and!; [done..|];
      intros old rest; open_union; by erewrite reader_step by apply Hr
  end.

(** The payload that was read fits. *)
Ltac union_payload Hc Hs :=
  let x := fresh "x" in let Hx := fresh "Hx" in let Hs2 := fresh "Hs2" in
  apply reader_map in Hc as (x & [Hx Hs2]%read_fits & ->);
  [split; [exact Hx|etrans; [exact Hs2|exact Hs]] | apply default_fits | by eapply suffix_len].
