(* ===== verification/NfsTypes.v ===== *)
(** * NfsTypes: the messages of the NFS server

    The data of [cli/src/nfsserve/nfs.rs], [rpc.rs], [mount.rs] and [portmap.rs] with
    their wire formats.  A field keeps its name behind a prefix for its structure; the
    order on the wire is that of the macro call, given by the tuple of fields.  The last
    section shows that every format is a codec. *)
From S2P Require Import Prelude Xdr.

(** ** [nfs.rs] *)

Abbreviation nfsstring := bytes.
Abbreviation filename3 := bytes.
Abbreviation nfspath3 := bytes.

Inductive nfsstat3 :=
| NFS3_OK | NFS3ERR_PERM | NFS3ERR_NOENT | NFS3ERR_IO | NFS3ERR_NXIO | NFS3ERR_ACCES
| NFS3ERR_EXIST | NFS3ERR_XDEV | NFS3ERR_NODEV | NFS3ERR_NOTDIR | NFS3ERR_ISDIR
| NFS3ERR_INVAL | NFS3ERR_FBIG | NFS3ERR_NOSPC | NFS3ERR_ROFS | NFS3ERR_MLINK
| NFS3ERR_NAMETOOLONG | NFS3ERR_NOTEMPTY | NFS3ERR_DQUOT | NFS3ERR_STALE | NFS3ERR_REMOTE
| NFS3ERR_BADHANDLE | NFS3ERR_NOT_SYNC | NFS3ERR_BAD_COOKIE | NFS3ERR_NOTSUPP
| NFS3ERR_TOOSMALL | NFS3ERR_SERVERFAULT | NFS3ERR_BADTYPE | NFS3ERR_JUKEBOX.
#[export] Instance nfsstat3_eq_dec : EqDecision nfsstat3.
Proof. solve_decision. Defined.

Definition nfsstat3_num (s : nfsstat3) : Z :=
  match s with
  | NFS3_OK => 0 | NFS3ERR_PERM => 1 | NFS3ERR_NOENT => 2 | NFS3ERR_IO => 5
  | NFS3ERR_NXIO => 6 | NFS3ERR_ACCES => 13 | NFS3ERR_EXIST => 17 | NFS3ERR_XDEV => 18
  | NFS3ERR_NODEV => 19 | NFS3ERR_NOTDIR => 20 | NFS3ERR_ISDIR => 21 | NFS3ERR_INVAL => 22
  | NFS3ERR_FBIG => 27 | NFS3ERR_NOSPC => 28 | NFS3ERR_ROFS => 30 | NFS3ERR_MLINK => 31
  | NFS3ERR_NAMETOOLONG => 63 | NFS3ERR_NOTEMPTY => 66 | NFS3ERR_DQUOT => 69
  | NFS3ERR_STALE => 70 | NFS3ERR_REMOTE => 71 | NFS3ERR_BADHANDLE => 10001
  | NFS3ERR_NOT_SYNC => 10002 | NFS3ERR_BAD_COOKIE => 10003 | NFS3ERR_NOTSUPP => 10004
  | NFS3ERR_TOOSMALL => 10005 | NFS3ERR_SERVERFAULT => 10006 | NFS3ERR_BADTYPE => 10007
  | NFS3ERR_JUKEBOX => 10008
  end.
Definition nfsstat3_all : list nfsstat3 :=
  [NFS3_OK; NFS3ERR_PERM; NFS3ERR_NOENT; NFS3ERR_IO; NFS3ERR_NXIO; NFS3ERR_ACCES;
   NFS3ERR_EXIST; NFS3ERR_XDEV; NFS3ERR_NODEV; NFS3ERR_NOTDIR; NFS3ERR_ISDIR;
   NFS3ERR_INVAL; NFS3ERR_FBIG; NFS3ERR_NOSPC; NFS3ERR_ROFS; NFS3ERR_MLINK;
   NFS3ERR_NAMETOOLONG; NFS3ERR_NOTEMPTY; NFS3ERR_DQUOT; NFS3ERR_STALE; NFS3ERR_REMOTE;
   NFS3ERR_BADHANDLE; NFS3ERR_NOT_SYNC; NFS3ERR_BAD_COOKIE; NFS3ERR_NOTSUPP;
   NFS3ERR_TOOSMALL; NFS3ERR_SERVERFAULT; NFS3ERR_BADTYPE; NFS3ERR_JUKEBOX].
#[export] Instance nfsstat3_xdr : XDR nfsstat3 :=
  xdr_enum nfsstat3_num (from_primitive nfsstat3_num nfsstat3_all).

Inductive ftype3 := NF3REG | NF3DIR | NF3BLK | NF3CHR | NF3LNK | NF3SOCK | NF3FIFO.
#[export] Instance ftype3_eq_dec : EqDecision ftype3.
Proof. solve_decision. Defined.
Definition ftype3_num (t : ftype3) : Z :=
  match t with
  | NF3REG => 1 | NF3DIR => 2 | NF3BLK => 3 | NF3CHR => 4 | NF3LNK => 5 | NF3SOCK => 6
  | NF3FIFO => 7
  end.
Definition ftype3_from_u32 : Z → option ftype3 :=
  from_primitive ftype3_num [NF3REG; NF3DIR; NF3BLK; NF3CHR; NF3LNK; NF3SOCK; NF3FIFO].
#[export] Instance ftype3_xdr : XDR ftype3 := xdr_enum ftype3_num ftype3_from_u32.
#[export] Instance ftype3_default : Default ftype3 := NF3REG.

Record specdata3 := mk_specdata3 { specdata1 : Z; specdata2 : Z }.
#[export] Instance specdata3_xdr : XDR specdata3 :=
  xdr_struct (λ s, (U32 (specdata1 s), U32 (specdata2 s)))
             (λ '(U32 a, U32 b), mk_specdata3 a b).
#[export] Instance specdata3_default : Default specdata3 := mk_specdata3 0 0.

Record nfs_fh3 := mk_nfs_fh3 { fh_data : bytes }.
#[export] Instance nfs_fh3_xdr : XDR nfs_fh3 := xdr_struct fh_data mk_nfs_fh3.
#[export] Instance nfs_fh3_default : Default nfs_fh3 := mk_nfs_fh3 [].

Record nfstime3 := mk_nfstime3 { seconds : Z; nseconds : Z }.
#[export] Instance nfstime3_eq_dec : EqDecision nfstime3.
Proof. solve_decision. Defined.
#[export] Instance nfstime3_xdr : XDR nfstime3 :=
  xdr_struct (λ t, (U32 (seconds t), U32 (nseconds t)))
             (λ '(U32 a, U32 b), mk_nfstime3 a b).
#[export] Instance nfstime3_default : Default nfstime3 := mk_nfstime3 0 0.

Record fattr3 := mk_fattr3 {
  fa_ftype : ftype3; fa_mode : Z; fa_nlink : Z; fa_uid : Z; fa_gid : Z; fa_size : Z;
  fa_used : Z; fa_rdev : specdata3; fa_fsid : Z; fa_fileid : Z;
  fa_atime : nfstime3; fa_mtime : nfstime3; fa_ctime : nfstime3
}.
#[export] Instance fattr3_xdr : XDR fattr3 :=
  xdr_struct
    (λ a, (fa_ftype a, U32 (fa_mode a), U32 (fa_nlink a), U32 (fa_uid a), U32 (fa_gid a),
           U64 (fa_size a), U64 (fa_used a), fa_rdev a, U64 (fa_fsid a), U64 (fa_fileid a),
           fa_atime a, fa_mtime a, fa_ctime a))
    (λ '(ftype, U32 mode, U32 nlink, U32 uid, U32 gid, U64 size, U64 used, rdev, U64 fsid,
         U64 fileid, atime, mtime, ctime),
       mk_fattr3 ftype mode nlink uid gid size used rdev fsid fileid atime mtime ctime).
#[export] Instance fattr3_default : Default fattr3 :=
  mk_fattr3 default_value 0 0 0 0 0 0 default_value 0 0 default_value default_value default_value.

Definition FSF_LINK : Z := 0x0001.
Definition FSF_SYMLINK : Z := 0x0002.
Definition FSF_HOMOGENEOUS : Z := 0x0008.
Definition FSF_CANSETTIME : Z := 0x0010.

Record wcc_attr := mk_wcc_attr { wa_size : Z; wa_mtime : nfstime3; wa_ctime : nfstime3 }.
#[export] Instance wcc_attr_xdr : XDR wcc_attr :=
  xdr_struct (λ w, (U64 (wa_size w), wa_mtime w, wa_ctime w))
             (λ '(U64 size, mtime, ctime), mk_wcc_attr size mtime ctime).
#[export] Instance wcc_attr_default : Default wcc_attr := mk_wcc_attr 0 default_value default_value.

(** The unions of [XDRBoolUnion]. *)
Abbreviation pre_op_attr := (option wcc_attr).
Abbreviation post_op_attr := (option fattr3).
Abbreviation post_op_fh3 := (option nfs_fh3).
Abbreviation set_mode3 := (option u32).
Abbreviation set_uid3 := (option u32).
Abbreviation set_gid3 := (option u32).
Abbreviation set_size3 := (option u64).

Record fsinfo3 := mk_fsinfo3 {
  fi_obj_attributes : post_op_attr; fi_rtmax : Z; fi_rtpref : Z; fi_rtmult : Z; fi_wtmax : Z;
  fi_wtpref : Z; fi_wtmult : Z; fi_dtpref : Z; fi_maxfilesize : Z; fi_time_delta : nfstime3;
  fi_properties : Z
}.
#[export] Instance fsinfo3_xdr : XDR fsinfo3 :=
  xdr_struct
    (λ f, (fi_obj_attributes f, U32 (fi_rtmax f), U32 (fi_rtpref f), U32 (fi_rtmult f),
           U32 (fi_wtmax f), U32 (fi_wtpref f), U32 (fi_wtmult f), U32 (fi_dtpref f),
           U64 (fi_maxfilesize f), fi_time_delta f, U32 (fi_properties f)))
    (λ '(obj, U32 rtmax, U32 rtpref, U32 rtmult, U32 wtmax, U32 wtpref, U32 wtmult,
         U32 dtpref, U64 maxfilesize, delta, U32 properties),
       mk_fsinfo3 obj rtmax rtpref rtmult wtmax wtpref wtmult dtpref maxfilesize delta properties).

Record wcc_data := mk_wcc_data { before : pre_op_attr; after : post_op_attr }.
#[export] Instance wcc_data_xdr : XDR wcc_data :=
  xdr_struct (λ w, (before w, after w)) (λ '(b, a), mk_wcc_data b a).
#[export] Instance wcc_data_default : Default wcc_data := mk_wcc_data None None.

(** [set_atime] and [set_mtime] have the same variants and the same code. *)
Inductive set_time := DONT_CHANGE | SET_TO_SERVER_TIME | SET_TO_CLIENT_TIME (t : nfstime3).
#[export] Instance set_time_xdr : XDR set_time := {|
  serialize self :=
    match self with
    | DONT_CHANGE => serialize (U32 0)
    | SET_TO_SERVER_TIME => serialize (U32 1)
    | SET_TO_CLIENT_TIME v => wapp (serialize (U32 2)) (serialize v)
    end;
  deserialize _ :=
    c ← deserialize (U32 0);
    let c := of_u32 c in
    if c =? 0 then mret DONT_CHANGE
    else if c =? 1 then mret SET_TO_SERVER_TIME
    else if c =? 2 then
      r ← deserialize default_value; mret (SET_TO_CLIENT_TIME r)
    else read_err InvalidData |}.

Record sattr3 := mk_sattr3 {
  sa_mode : set_mode3; sa_uid : set_uid3; sa_gid : set_gid3; sa_size : set_size3;
  sa_atime : set_time; sa_mtime : set_time
}.
#[export] Instance sattr3_xdr : XDR sattr3 :=
  xdr_struct (λ s, (sa_mode s, sa_uid s, sa_gid s, sa_size s, sa_atime s, sa_mtime s))
             (λ '(mode, uid, gid, size, atime, mtime), mk_sattr3 mode uid gid size atime mtime).
#[export] Instance sattr3_default : Default sattr3 :=
  mk_sattr3 None None None None DONT_CHANGE DONT_CHANGE.

Record diropargs3 := mk_diropargs3 { do_dir : nfs_fh3; do_name : filename3 }.
#[export] Instance diropargs3_xdr : XDR diropargs3 :=
  xdr_struct (λ d, (do_dir d, do_name d)) (λ '(dir, name), mk_diropargs3 dir name).
#[export] Instance diropargs3_default : Default diropargs3 := mk_diropargs3 default_value [].

Record symlinkdata3 := mk_symlinkdata3 { symlink_attributes : sattr3; symlink_data : nfspath3 }.
#[export] Instance symlinkdata3_xdr : XDR symlinkdata3 :=
  xdr_struct (λ s, (symlink_attributes s, symlink_data s))
             (λ '(a, d), mk_symlinkdata3 a d).
#[export] Instance symlinkdata3_default : Default symlinkdata3 := mk_symlinkdata3 default_value [].

Definition get_root_mount_handle : bytes := [zero_byte].

(** ** [rpc.rs] *)

Inductive auth_stat :=
| AUTH_BADCRED | AUTH_REJECTEDCRED | AUTH_BADVERF | AUTH_REJECTEDVERF | AUTH_TOOWEAK.
Definition auth_stat_num (s : auth_stat) : Z :=
  match s with
  | AUTH_BADCRED => 1 | AUTH_REJECTEDCRED => 2 | AUTH_BADVERF => 3 | AUTH_REJECTEDVERF => 4
  | AUTH_TOOWEAK => 5
  end.
#[export] Instance auth_stat_xdr : XDR auth_stat :=
  xdr_enum auth_stat_num
    (from_primitive auth_stat_num
       [AUTH_BADCRED; AUTH_REJECTEDCRED; AUTH_BADVERF; AUTH_REJECTEDVERF; AUTH_TOOWEAK]).
#[export] Instance auth_stat_default : Default auth_stat := AUTH_BADCRED.

Inductive auth_flavor := AUTH_NULL | AUTH_UNIX | AUTH_SHORT | AUTH_DES.
Definition auth_flavor_num (f : auth_flavor) : Z :=
  match f with AUTH_NULL => 0 | AUTH_UNIX => 1 | AUTH_SHORT => 2 | AUTH_DES => 3 end.
#[export] Instance auth_flavor_xdr : XDR auth_flavor :=
  xdr_enum auth_flavor_num
    (from_primitive auth_flavor_num [AUTH_NULL; AUTH_UNIX; AUTH_SHORT; AUTH_DES]).

Record auth_unix := mk_auth_unix {
  au_stamp : Z; au_machinename : bytes; au_uid : Z; au_gid : Z; au_gids : list Z
}.
#[export] Instance auth_unix_xdr : XDR auth_unix :=
  xdr_struct
    (λ a, (U32 (au_stamp a), au_machinename a, U32 (au_uid a), U32 (au_gid a),
           U32 <$> au_gids a))
    (λ '(U32 stamp, machinename, U32 uid, U32 gid, gids),
       mk_auth_unix stamp machinename uid gid (of_u32 <$> gids)).
#[export] Instance auth_unix_default : Default auth_unix := mk_auth_unix 0 [] 0 0 [].

Record opaque_auth := mk_opaque_auth { oa_flavor : auth_flavor; oa_body : bytes }.
#[export] Instance opaque_auth_xdr : XDR opaque_auth :=
  xdr_struct (λ a, (oa_flavor a, oa_body a)) (λ '(f, b), mk_opaque_auth f b).
#[export] Instance opaque_auth_default : Default opaque_auth := mk_opaque_auth AUTH_NULL [].

Record call_body := mk_call_body {
  cb_rpcvers : Z; cb_prog : Z; cb_vers : Z; cb_proc : Z; cb_cred : opaque_auth;
  cb_verf : opaque_auth
}.
#[export] Instance call_body_xdr : XDR call_body :=
  xdr_struct
    (λ c, (U32 (cb_rpcvers c), U32 (cb_prog c), U32 (cb_vers c), U32 (cb_proc c), cb_cred c,
           cb_verf c))
    (λ '(U32 rpcvers, U32 prog, U32 vers, U32 proc, cred, verf),
       mk_call_body rpcvers prog vers proc cred verf).
#[export] Instance call_body_default : Default call_body :=
  mk_call_body 0 0 0 0 default_value default_value.

Record mismatch_info := mk_mismatch_info { low : Z; high : Z }.
#[export] Instance mismatch_info_xdr : XDR mismatch_info :=
  xdr_struct (λ m, (U32 (low m), U32 (high m))) (λ '(U32 a, U32 b), mk_mismatch_info a b).
#[export] Instance mismatch_info_default : Default mismatch_info := mk_mismatch_info 0 0.

Inductive accept_body :=
| SUCCESS | PROG_UNAVAIL | PROG_MISMATCH (v : mismatch_info) | PROC_UNAVAIL | GARBAGE_ARGS.
#[export] Instance accept_body_xdr : XDR accept_body := {|
  serialize self :=
    match self with
    | SUCCESS => serialize (U32 0)
    | PROG_UNAVAIL => serialize (U32 1)
    | PROG_MISMATCH v => wapp (serialize (U32 2)) (serialize v)
    | PROC_UNAVAIL => serialize (U32 3)
    | GARBAGE_ARGS => serialize (U32 4)
    end;
  deserialize _ :=
    c ← deserialize (U32 0);
    let c := of_u32 c in
    if c =? 0 then mret SUCCESS
    else if c =? 1 then mret PROG_UNAVAIL
    else if c =? 2 then r ← deserialize default_value; mret (PROG_MISMATCH r)
    else if c =? 3 then mret PROC_UNAVAIL
    else mret GARBAGE_ARGS |}.
#[export] Instance accept_body_default : Default accept_body := SUCCESS.

Record accepted_reply := mk_accepted_reply { ar_verf : opaque_auth; reply_data : accept_body }.
#[export] Instance accepted_reply_xdr : XDR accepted_reply :=
  xdr_struct (λ a, (ar_verf a, reply_data a)) (λ '(v, d), mk_accepted_reply v d).
#[export] Instance accepted_reply_default : Default accepted_reply :=
  mk_accepted_reply default_value default_value.

(** The unions below keep the value they had when the discriminant is unknown. *)
Inductive rejected_reply := RPC_MISMATCH (v : mismatch_info) | AUTH_ERROR (v : auth_stat).
#[export] Instance rejected_reply_xdr : XDR rejected_reply := {|
  serialize self :=
    match self with
    | RPC_MISMATCH v => wapp (serialize (U32 0)) (serialize v)
    | AUTH_ERROR v => wapp (serialize (U32 1)) (serialize v)
    end;
  deserialize self :=
    c ← deserialize (U32 0);
    let c := of_u32 c in
    if c =? 0 then r ← deserialize default_value; mret (RPC_MISMATCH r)
    else if c =? 1 then r ← deserialize default_value; mret (AUTH_ERROR r)
    else mret self |}.
#[export] Instance rejected_reply_default : Default rejected_reply := RPC_MISMATCH default_value.

Inductive reply_body := MSG_ACCEPTED (v : accepted_reply) | MSG_DENIED (v : rejected_reply).
#[export] Instance reply_body_xdr : XDR reply_body := {|
  serialize self :=
    match self with
    | MSG_ACCEPTED v => wapp (serialize (U32 0)) (serialize v)
    | MSG_DENIED v => wapp (serialize (U32 1)) (serialize v)
    end;
  deserialize self :=
    c ← deserialize (U32 0);
    let c := of_u32 c in
    if c =? 0 then r ← deserialize default_value; mret (MSG_ACCEPTED r)
    else if c =? 1 then r ← deserialize default_value; mret (MSG_DENIED r)
    else mret self |}.
#[export] Instance reply_body_default : Default reply_body := MSG_ACCEPTED default_value.

Inductive rpc_body := CALL (v : call_body) | REPLY (v : reply_body).
#[export] Instance rpc_body_xdr : XDR rpc_body := {|
  serialize self :=
    match self with
    | CALL v => wapp (serialize (U32 0)) (serialize v)
    | REPLY v => wapp (serialize (U32 1)) (serialize v)
    end;
  deserialize self :=
    c ← deserialize (U32 0);
    let c := of_u32 c in
    if c =? 0 then r ← deserialize default_value; mret (CALL r)
    else if c =? 1 then r ← deserialize default_value; mret (REPLY r)
    else mret self |}.
#[export] Instance rpc_body_default : Default rpc_body := CALL default_value.

Record rpc_msg := mk_rpc_msg { xid : Z; body : rpc_body }.
#[export] Instance rpc_msg_xdr : XDR rpc_msg :=
  xdr_struct (λ m, (U32 (xid m), body m)) (λ '(U32 x, b), mk_rpc_msg x b).
#[export] Instance rpc_msg_default : Default rpc_msg := mk_rpc_msg 0 default_value.

(** The replies. *)
Definition accepted (xid : Z) (data : accept_body) : rpc_msg :=
  mk_rpc_msg xid (REPLY (MSG_ACCEPTED (mk_accepted_reply default_value data))).
Definition proc_unavail_reply_message (xid : Z) : rpc_msg := accepted xid PROC_UNAVAIL.
Definition prog_unavail_reply_message (xid : Z) : rpc_msg := accepted xid PROG_UNAVAIL.
Definition prog_mismatch_reply_message (xid accepted_ver : Z) : rpc_msg :=
  accepted xid (PROG_MISMATCH (mk_mismatch_info accepted_ver accepted_ver)).
Definition garbage_args_reply_message (xid : Z) : rpc_msg := accepted xid GARBAGE_ARGS.
Definition rpc_vers_mismatch (xid : Z) : rpc_msg :=
  mk_rpc_msg xid (REPLY (MSG_DENIED (RPC_MISMATCH default_value))).
Definition make_success_reply (xid : Z) : rpc_msg := accepted xid SUCCESS.

(** ** [mount.rs] and [portmap.rs] *)

Inductive mountstat3 :=
| MNT3_OK | MNT3ERR_PERM | MNT3ERR_NOENT | MNT3ERR_IO | MNT3ERR_ACCES | MNT3ERR_NOTDIR
| MNT3ERR_INVAL | MNT3ERR_NAMETOOLONG | MNT3ERR_NOTSUPP | MNT3ERR_SERVERFAULT.
Definition mountstat3_num (s : mountstat3) : Z :=
  match s with
  | MNT3_OK => 0 | MNT3ERR_PERM => 1 | MNT3ERR_NOENT => 2 | MNT3ERR_IO => 5
  | MNT3ERR_ACCES => 13 | MNT3ERR_NOTDIR => 20 | MNT3ERR_INVAL => 22
  | MNT3ERR_NAMETOOLONG => 63 | MNT3ERR_NOTSUPP => 10004 | MNT3ERR_SERVERFAULT => 10006
  end.
#[export] Instance mountstat3_xdr : XDR mountstat3 :=
  xdr_enum mountstat3_num
    (from_primitive mountstat3_num
       [MNT3_OK; MNT3ERR_PERM; MNT3ERR_NOENT; MNT3ERR_IO; MNT3ERR_ACCES; MNT3ERR_NOTDIR;
        MNT3ERR_INVAL; MNT3ERR_NAMETOOLONG; MNT3ERR_NOTSUPP; MNT3ERR_SERVERFAULT]).

Record mapping := mk_mapping { map_prog : Z; map_vers : Z; map_prot : Z; map_port : Z }.
#[export] Instance mapping_xdr : XDR mapping :=
  xdr_struct (λ m, (U32 (map_prog m), U32 (map_vers m), U32 (map_prot m), U32 (map_port m)))
             (λ '(U32 a, U32 b, U32 c, U32 d), mk_mapping a b c d).
#[export] Instance mapping_default : Default mapping := mk_mapping 0 0 0 0.

(** ** The codecs *)

Ltac struct_codec :=
  refine (struct_codec _ _ _ _);
  [ by intros []
  | intros ?; repeat match goal with
      | x : _ * _ |- _ => destruct x
      | x : u32 |- _ => destruct x
      | x : u64 |- _ => destruct x
      end; reflexivity ].
Ltac enum_codec := apply enum_codec; intros []; vm_compute; by split_and!.

#[export] Instance nfsstat3_codec : XdrCodec nfsstat3.
Proof. enum_codec. Defined.
#[export] Instance ftype3_codec : XdrCodec ftype3.
Proof. enum_codec. Defined.
#[export] Instance ftype3_default_fits : DefaultFits ftype3.
Proof. done. Qed.
#[export] Instance specdata3_codec : XdrCodec specdata3.
Proof. struct_codec. Defined.
#[export] Instance specdata3_default_fits : DefaultFits specdata3.
Proof. done. Qed.
#[export] Instance nfs_fh3_codec : XdrCodec nfs_fh3.
Proof. struct_codec. Defined.
#[export] Instance nfs_fh3_default_fits : DefaultFits nfs_fh3.
Proof. done. Qed.
#[export] Instance nfstime3_codec : XdrCodec nfstime3.
Proof. struct_codec. Defined.
#[export] Instance nfstime3_default_fits : DefaultFits nfstime3.
Proof. done. Qed.
#[export] Instance fattr3_codec : XdrCodec fattr3.
Proof. struct_codec. Defined.
#[export] Instance fattr3_default_fits : DefaultFits fattr3.
Proof. done. Qed.

Definition set_time_fits (s : set_time) : Prop :=
  match s with SET_TO_CLIENT_TIME t => fits t | _ => True end.
#[export] Program Instance set_time_codec : XdrCodec set_time := {| fits := set_time_fits |}.
Next Obligation.
  intros [| |t] Hv; cbn [serialize set_time_xdr].
  - union_variant 0.
  - union_variant 1.
  - union_variant 2.
Qed.
Next Obligation.
  intros old bs v rest _ Hb (c & bs1 & [_ Hs]%read_fits & Hc)%reader_bind_inr; [|done..].
  cbv zeta in Hc. destruct (of_u32 c =? 0); [by injection Hc as <- <-|].
  destruct (of_u32 c =? 1); [by injection Hc as <- <-|]. destruct (of_u32 c =? 2); [|done].
  by union_payload Hc Hs.
Qed.
#[export] Instance sattr3_codec : XdrCodec sattr3.
Proof. struct_codec. Defined.
#[export] Instance sattr3_default_fits : DefaultFits sattr3.
Proof. done. Qed.
#[export] Instance diropargs3_codec : XdrCodec diropargs3.
Proof. struct_codec. Defined.
#[export] Instance diropargs3_default_fits : DefaultFits diropargs3.
Proof. done. Qed.
#[export] Instance symlinkdata3_codec : XdrCodec symlinkdata3.
Proof. struct_codec. Defined.
#[export] Instance symlinkdata3_default_fits : DefaultFits symlinkdata3.
Proof. done. Qed.
#[export] Instance wcc_attr_codec : XdrCodec wcc_attr.
Proof. struct_codec. Defined.
#[export] Instance wcc_attr_default_fits : DefaultFits wcc_attr.
Proof. done. Qed.
#[export] Instance wcc_data_codec : XdrCodec wcc_data.
Proof. struct_codec. Defined.
#[export] Instance wcc_data_default_fits : DefaultFits wcc_data.
Proof. done. Qed.
#[export] Instance fsinfo3_codec : XdrCodec fsinfo3.
Proof. struct_codec. Defined.
#[export] Instance auth_stat_codec : XdrCodec auth_stat.
Proof. enum_codec. Defined.
#[export] Instance auth_stat_default_fits : DefaultFits auth_stat.
Proof. done. Qed.
#[export] Instance auth_flavor_codec : XdrCodec auth_flavor.
Proof. enum_codec. Defined.
#[export] Instance mountstat3_codec : XdrCodec mountstat3.
Proof. enum_codec. Defined.
#[export] Instance auth_unix_codec : XdrCodec auth_unix.
Proof.
  refine (struct_codec _ _ _ _).
  - intros [stamp name uid gid gids]. cbn. f_equal. rewrite <-list_fmap_compose. apply list_fmap_id.
  - intros [[[[[?] ?] [?]] [?]] gids]. cbn. f_equal. rewrite <-list_fmap_compose.
    rewrite <-(list_fmap_id gids) at 2. by apply list_fmap_ext; intros ? [].
Defined.
#[export] Instance auth_unix_default_fits : DefaultFits auth_unix.
Proof. by split_and!. Qed.
#[export] Instance opaque_auth_codec : XdrCodec opaque_auth.
Proof. struct_codec. Defined.
#[export] Instance opaque_auth_default_fits : DefaultFits opaque_auth.
Proof. done. Qed.
#[export] Instance call_body_codec : XdrCodec call_body.
Proof. struct_codec. Defined.
#[export] Instance call_body_default_fits : DefaultFits call_body.
Proof. done. Qed.
#[export] Instance mismatch_info_codec : XdrCodec mismatch_info.
Proof. struct_codec. Defined.
#[export] Instance mismatch_info_default_fits : DefaultFits mismatch_info.
Proof. done. Qed.

Definition accept_body_fits (b : accept_body) : Prop :=
  match b with PROG_MISMATCH v => fits v | _ => True end.
#[export] Program Instance accept_body_codec : XdrCodec accept_body := {| fits := accept_body_fits |}.
Next Obligation.
  intros [| |m| |] Hv; cbn [serialize accept_body_xdr].
  - union_variant 0.
  - union_variant 1.
  - union_variant 2.
  - union_variant 3.
  - union_variant 4.
Qed.
Next Obligation.
  intros old bs v rest _ Hb (c & bs1 & [_ Hs]%read_fits & Hc)%reader_bind_inr; [|done..].
  cbv zeta in Hc. destruct (of_u32 c =? 0); [by injection Hc as <- <-|].
  destruct (of_u32 c =? 1); [by injection Hc as <- <-|].
  destruct (of_u32 c =? 2); [by union_payload Hc Hs|].
  destruct (of_u32 c =? 3); by injection Hc as <- <-.
Qed.
#[export] Instance accept_body_default_fits : DefaultFits accept_body.
Proof. done. Qed.
#[export] Instance accepted_reply_codec : XdrCodec accepted_reply.
Proof. struct_codec. Defined.
#[export] Instance accepted_reply_default_fits : DefaultFits accepted_reply.
Proof. done. Qed.

Definition rejected_reply_fits (b : rejected_reply) : Prop :=
  match b with RPC_MISMATCH v => fits v | AUTH_ERROR v => fits v end.
#[export] Program Instance rejected_reply_codec : XdrCodec rejected_reply := {| fits := rejected_reply_fits |}.
Next Obligation.
  intros [v|v] Hv; cbn [serialize rejected_reply_xdr]; [union_variant 0|union_variant 1].
Qed.
Next Obligation.
  intros old bs v rest Ho Hb (c & bs1 & [_ Hs]%read_fits & Hc)%reader_bind_inr; [|done..].
  cbv zeta in Hc. destruct (of_u32 c =? 0); [by union_payload Hc Hs|].
  destruct (of_u32 c =? 1); [by union_payload Hc Hs|by injection Hc as <- <-].
Qed.
#[export] Instance rejected_reply_default_fits : DefaultFits rejected_reply.
Proof. by split_and!. Qed.

Definition reply_body_fits (b : reply_body) : Prop :=
  match b with MSG_ACCEPTED v => fits v | MSG_DENIED v => fits v end.
#[export] Program Instance reply_body_codec : XdrCodec reply_body := {| fits := reply_body_fits |}.
Next Obligation.
  intros [v|v] Hv; cbn [serialize reply_body_xdr]; [union_variant 0|union_variant 1].
Qed.
Next Obligation.
  intros old bs v rest Ho Hb (c & bs1 & [_ Hs]%read_fits & Hc)%reader_bind_inr; [|done..].
  cbv zeta in Hc. destruct (of_u32 c =? 0); [by union_payload Hc Hs|].
  destruct (of_u32 c =? 1); [by union_payload Hc Hs|by injection Hc as <- <-].
Qed.
#[export] Instance reply_body_default_fits : DefaultFits reply_body.
Proof. by split_and!. Qed.

Definition rpc_body_fits (b : rpc_body) : Prop :=
  match b with CALL v => fits v | REPLY v => fits v end.
#[export] Program Instance rpc_body_codec : XdrCodec rpc_body := {| fits := rpc_body_fits |}.
Next Obligation.
  intros [v|v] Hv; cbn [serialize rpc_body_xdr]; [union_variant 0|union_variant 1].
Qed.
Next Obligation.
  intros old bs v rest Ho Hb (c & bs1 & [_ Hs]%read_fits & Hc)%reader_bind_inr; [|done..].
  cbv zeta in Hc. destruct (of_u32 c =? 0); [by union_payload Hc Hs|].
  destruct (of_u32 c =? 1); [by union_payload Hc Hs|by injection Hc as <- <-].
Qed.
#[export] Instance rpc_body_default_fits : DefaultFits rpc_body.
Proof. by split_and!. Qed.
#[export] Instance rpc_msg_codec : XdrCodec rpc_msg.
Proof. struct_codec. Defined.
#[export] Instance rpc_msg_default_fits : DefaultFits rpc_msg.
Proof. by split_and!. Qed.
#[export] Instance mapping_codec : XdrCodec mapping.
Proof. struct_codec. Defined.
#[export] Instance mapping_default_fits : DefaultFits mapping.
Proof. done. Qed.
