(* ===== verification/Utf8.v ===== *)
(** * Utf8: the strings of Rust

    [str] is UTF-8.  The development keeps a [&str] as a [string] of its bytes; here is
    [std::str::from_utf8], which tells whether bytes form one. *)
From S2P Require Import Prelude Xdr.

Definition between (lo hi z : Z) : bool := (lo <=? z) && (z <=? hi).
Definition continuation (z : Z) : bool := between 0x80 0xbf z.

(** The second byte of a sequence of three or four: no overlong forms, no surrogates,
    nothing beyond U+10FFFF. *)
Definition second_of_three (a b : Z) : bool :=
  if a =? 0xe0 then between 0xa0 0xbf b
  else if a =? 0xed then between 0x80 0x9f b
  else continuation b.
Definition second_of_four (a b : Z) : bool :=
  if a =? 0xf0 then between 0x90 0xbf b
  else if a =? 0xf4 then between 0x80 0x8f b
  else continuation b.

Fixpoint utf8_valid (l : list Z) : bool :=
  match l with
  | [] => true
  | a :: l1 =>
      if a <? 0x80 then utf8_valid l1
      else match l1 with
      | [] => false
      | b :: l2 =>
          if between 0xc2 0xdf a then continuation b && utf8_valid l2
          else match l2 with
          | [] => false
          | c :: l3 =>
              if between 0xe0 0xef a then second_of_three a b && continuation c && utf8_valid l3
              else match l3 with
              | [] => false
              | d :: l4 =>
                  between 0xf0 0xf4 a && second_of_four a b && continuation c &&
                  continuation d && utf8_valid l4
              end
          end
      end
  end.

Definition as_bytes (s : string) : bytes := String.list_byte_of_string s.

Definition from_utf8 (bs : bytes) : option string :=
  if utf8_valid (byte_val <$> bs) then Some (String.string_of_list_byte bs) else None.

(** A valid string is its bytes. *)
Lemma from_utf8_bytes bs s : from_utf8 bs = Some s → as_bytes s = bs.
Proof.
  unfold from_utf8. case_match; [|done]. intros [= <-].
  apply String.list_byte_of_string_of_list_byte.
Qed.

Lemma utf8_valid_ascii l : Forall (λ z, z < 0x80) l → utf8_valid l = true.
Proof.
  induction 1 as [|z l Hz _ IH]; [done|]. cbn [utf8_valid].
  by rewrite (proj2 (Z.ltb_lt _ _) Hz).
Qed.

Example utf8_examples :
  from_utf8 (as_bytes "caf") = Some "caf"%string ∧
  utf8_valid [0xc3; 0xa9] = true ∧ utf8_valid [0xc0; 0x80] = false ∧
  utf8_valid [0xed; 0xa0; 0x80] = false ∧ utf8_valid [0xf4; 0x90; 0x80; 0x80] = false ∧
  utf8_valid [0xe2; 0x82; 0xac] = true ∧ utf8_valid [0xe2; 0x82] = false.
Proof. by vm_compute. Qed.

(** ** [str::trim]

    The characters of the Unicode property White_Space, as UTF-8. *)
Definition white_space : list (list Z) :=
  [[0x09]; [0x0a]; [0x0b]; [0x0c]; [0x0d]; [0x20]; [0xc2; 0x85]; [0xc2; 0xa0];
   [0xe1; 0x9a; 0x80]] ++
  ((λ z, [0xe2; 0x80; z]) <$>
     [0x80; 0x81; 0x82; 0x83; 0x84; 0x85; 0x86; 0x87; 0x88; 0x89; 0x8a; 0xa8; 0xa9; 0xaf]) ++
  [[0xe2; 0x81; 0x9f]; [0xe3; 0x80; 0x80]].

Fixpoint strip_seq (p l : list Z) : option (list Z) :=
  match p, l with
  | [], _ => Some l
  | a :: p, b :: l => if a =? b then strip_seq p l else None
  | _ :: _, [] => None
  end.

(** Drops sequences of [ps] from the front; every one is a byte at least, so that the
    length of the list is fuel enough. *)
Fixpoint drop_any (fuel : nat) (ps : list (list Z)) (l : list Z) : list Z :=
  match fuel with
  | O => l
  | S fuel =>
      match head (omap (λ p, strip_seq p l) ps) with
      | Some rest => drop_any fuel ps rest
      | None => l
      end
  end.
Definition trim (s : string) : string :=
  let l := byte_val <$> as_bytes s in
  let l := drop_any (length l) white_space l in
  let l := reverse (drop_any (length l) (reverse <$> white_space) (reverse l)) in
  String.string_of_list_byte (val_byte <$> l).

Example trim_examples :
  trim "  a b  " = "a b"%string ∧ trim "" = ""%string ∧ trim "   " = ""%string.
Proof. by vm_compute. Qed.
