(* ===== verification/Syscalls.v ===== *)
(** * Syscalls: the system calls of a sandboxed process

    [sandbox/src/syscall/] and [sandbox/src/sandbox/mod.rs]: every call of a process is
    answered by a virtual filesystem, or handed to the kernel with the descriptors and paths
    that the kernel knows.  The kernel is a parameter; what it reads and writes in the memory
    of the process is part of its state.  Arguments are by value: paths and buffers are their
    contents, an address is kept where only its being null matters. *)
From S2P Require Import Prelude Utf8 Path FdTable Mounts SqliteVfs.

(** ** Calls *)

Inductive FcntlCmd := F_DUPFD (arg : Z) | F_DUPFD_CLOEXEC (arg : Z) | F_OTHER (cmd arg : Z).
Record PollFd := mkPollFd { pf_fd : Z; pf_events : Z; pf_revents : Z }.

(** A path that is [None] is a null pointer; a set of descriptors is the list of its members.
    [Other]: calls that are handed on as they are; [Unsupported]: calls that are refused. *)
Inductive Call :=
| Openat (dirfd : Z) (path : option string) (flags : Z) (mode : option Z)
| Read (fd buf len : Z)
| Write (fd buf : Z) (data : bytes)
| Close (fd : Z)
| Dup (oldfd : Z)
| Dup2 (oldfd newfd : Z)
| Dup3 (oldfd newfd flags : Z)
| Ioctl (fd request : Z)
| Fcntl (fd : Z) (cmd : FcntlCmd)
| Pselect6 (nfds : Z) (readfds writefds exceptfds : option (list Z)) (timeout sigmask : Z)
| Poll (fds : option (list PollFd)) (timeout : Z)
| Getdents64 (fd dirent count : Z)
| Fstat (fd stat : Z)
| Pread64 (fd buf len offset : Z)
| Pwrite64 (fd buf len offset : Z)
| Lseek (fd offset whence : Z)
| Mmap (addr len prot flags fd offset : Z)
| Readv (fd iov iovcnt : Z)
| Writev (fd iov iovcnt : Z)
| Pipe2 (pipefd flags : Z)
| Socket (domain ty protocol : Z)
| Sendto (fd buf len flags addr addrlen : Z)
| Connect (fd addr addrlen : Z)
| Getpeername (fd addr addrlen : Z)
| Access (path : option string) (mode : Z)
| Faccessat (dirfd : Z) (path : option string) (mode : Z)
| Faccessat2 (dirfd : Z) (path : string) (mode flags : Z)
| Rename (oldpath newpath : option string)
| Unlink (path : option string)
| Rmdir (path : option string)
| Chdir (path : option string)
| Fchmodat (dirfd : Z) (path : option string) (mode flags : Z)
| Fchownat (dirfd : Z) (path : option string) (owner group flags : Z)
| Statx (dirfd : Z) (path : option string) (flags mask statx : Z)
| Newfstatat (dirfd : Z) (path : option string) (stat flags : Z)
| Statfs (path : option string) (buf : Z)
| Readlink (path : option string) (buf bufsize : Z)
| Readlinkat (dirfd : Z) (path : option string) (buf bufsize : Z)
| Symlink (target linkpath : option string)
| Symlinkat (target : option string) (newdirfd : Z) (linkpath : option string)
| Linkat (olddirfd : Z) (oldpath : option string) (newdirfd : Z) (newpath : option string) (flags : Z)
| Llistxattr (path : option string) (list size : Z)
| Lgetxattr (path : option string) (name value size : Z)
| Fork | Vfork | Clone (flags : Z) | Clone3
| Other (nr : Z) (args : list Z)
| Unsupported (nr : Z) (args : list Z).

(** What the kernel returns, and what it wrote where the sandbox looks: the two descriptors of
    a pipe, the [revents] of a poll, the three sets of a select. *)
Record KReply := mkReply { ret : Z; words : list Z; sets : list (list Z) }.

(** What a handler leaves: a value, with what it wrote into the memory of the process, or the
    call to be executed in place of the original one. *)
Inductive Out :=
| NoOut
| OutBytes (data : bytes)
| OutStat (stat : LibcStat)
| OutFds (fds : list Z)
| OutSets (readfds writefds exceptfds : option (list Z))
| OutPoll (fds : list PollFd).
Inductive SyscallResult :=
| Value (value : Z) (out : Out)
| Syscall (call : Call).

(** The [errno] codes and flags of the [libc] crate that are used here. *)
Class LibcSys := {
  ENOENT : Z; EACCES : Z; EIO : Z; EFAULT : Z; EBADF : Z; EINVAL : Z; ENOTDIR : Z; ENOSYS : Z;
  EEXIST : Z; EPERM : Z;
  AT_FDCWD : Z; AT_SYMLINK_NOFOLLOW : Z; SEEK_HOLE : Z; FD_SETSIZE : Z;
  (** [execve], [execveat], [exit] and [exit_group]. *)
  process_calls : list Z;
  errno_pos : Forall (λ e, 0 < e) [ENOENT; EACCES; EIO; EFAULT; EBADF; EINVAL; ENOTDIR; ENOSYS; EEXIST; EPERM]
}.
#[export] Program Instance libc_sys_linux : LibcSys := {|
  ENOENT := 2; EACCES := 13; EIO := 5; EFAULT := 14; EBADF := 9; EINVAL := 22; ENOTDIR := 20;
  ENOSYS := 38; EEXIST := 17; EPERM := 1; AT_FDCWD := -100; AT_SYMLINK_NOFOLLOW := 0x100;
  SEEK_HOLE := 4; FD_SETSIZE := 1024;
  process_calls := [59; 322; 60; 231] |}.
Next Obligation. by repeat constructor. Qed.

(** ** The traits [Vfs], of a virtual filesystem, and [FileOps]

    [FileRef] is a shared reference to an open file, whose state is in [S]. *)
Module VirtualFs.
Class t (S : Type) := {
  FileRef : Type;
  open : Vfs → string → Z → Z → VM S FileRef;
  stat : Vfs → string → VM S LibcStat;
  lstat : Vfs → string → VM S LibcStat;
  symlink : Vfs → string → string → VM S unit;
  readlink : Vfs → string → VM S string;
  link : Vfs → string → string → VM S unit;
  read : FileRef → Z → VM S bytes;
  write : FileRef → bytes → VM S Z;
  seek : FileRef → Z → Z → VM S Z;
  fstat : FileRef → VM S LibcStat;
  getdents : FileRef → VM S (list (Z * string * Z));
  close : FileRef → VM S unit
}.
End VirtualFs.

(** ** Directory entries of the kernel *)

(** [to_ne_bytes] of an integer of [n] bytes, on a little-endian machine. *)
Fixpoint ne_bytes (n : nat) (z : Z) : bytes :=
  match n with
  | O => []
  | S n => default Byte.x00 (Byte.of_nat (Z.to_nat (z mod 256))) :: ne_bytes n (z / 256)
  end.

Definition record_length (name : string) : Z :=
  (19 + (Z.of_nat (String.length name) + 1) + 7) / 8 * 8.
Definition dirent64 (ino offset : Z) (name : string) (d_type : Z) : bytes :=
  let reclen := record_length name in
  let entry := ne_bytes 8 ino ++ ne_bytes 8 offset ++ ne_bytes 2 reclen ++ ne_bytes 1 d_type ++
                 as_bytes name ++ [Byte.x00] in
  entry ++ zeros (reclen - len entry).

(** The entries that fit; the rest is dropped. *)
Fixpoint dirents (count used offset : Z) (entries : list (Z * string * Z)) : bytes :=
  match entries with
  | [] => []
  | (ino, name, d_type) :: entries =>
      if count <? used + record_length name then []
      else dirent64 ino offset name d_type ++
             dirents count (used + record_length name) (offset + 1) entries
  end.

(** ** Handlers *)

Inductive SResult (A : Type) :=
| SOk (a : A)
| SErr (errno : Z)
| SPanic.
Arguments SOk {_} _.
Arguments SErr {_} _.
Arguments SPanic {_}.

Definition SM (P A : Type) : Type := P → SResult A * P.
#[export] Instance SM_ret P : MRet (SM P) := λ A a s, (SOk a, s).
#[export] Instance SM_bind P : MBind (SM P) := λ A B f m s,
  match m s with
  | (SOk a, s') => f a s'
  | (SErr e, s') => (SErr e, s')
  | (SPanic, s') => (SPanic, s')
  end.

Section Syscalls.
Context {S K : Type} {V : VirtualFs.t S} {Sys : LibcSys} {IO : LibcIo}.
(** The kernel; the mount table, which never changes; the value that an argument of a call has
    when the builder of the call was not given it. *)
Context (kernel : Call → K → KReply * K) (mount_table : MountTable) (unset : Z).

Abbreviation Ref := VirtualFs.FileRef.
Abbreviation Entry := (FdEntry Ref).

(** The process as a handler sees it: its descriptors, the virtual filesystems, the kernel. *)
Record Proc := mkProc { fd_table : FdTable Ref; vfs_state : S; kernel_state : K }.
Abbreviation H := (SM Proc).

Definition value (v : Z) : H SyscallResult := mret (Value v NoOut).
Definition syscall (c : Call) : H SyscallResult := mret (Syscall c).

(** [guest.inject(...).await?] and [guest.tail_inject(...)]: a negative result of the kernel is
    an error, which [?] returns at once. *)
Definition inject (c : Call) : H KReply := λ p,
  let '(r, k) := kernel c (kernel_state p) in
  (if ret r <? 0 then SErr (- ret r) else SOk r, mkProc (fd_table p) (vfs_state p) k).

(** An operation of a virtual filesystem. *)
Definition virtual {A} (m : VM S A) : H (VfsError.t + A) := λ p,
  let '(r, s) := m (vfs_state p) in
  (match r with VOk a => SOk (inr a) | VErr e => SOk (inl e) | VPanic => SPanic end,
   mkProc (fd_table p) s (kernel_state p)).

(** Operations of the descriptor table; [None] is a panic. *)
Definition table_get (fd : Z) : H (option Entry) := λ p, (SOk (get fd (fd_table p)), p).
Definition table_translate (fd : Z) : H (option Z) := λ p, (SOk (translate fd (fd_table p)), p).
Definition table_op {A} (f : FdTable Ref → option (A * FdTable Ref)) : H A := λ p,
  match f (fd_table p) with
  | Some (a, t) => (SOk a, mkProc t (vfs_state p) (kernel_state p))
  | None => (SPanic, p)
  end.
Definition table_allocate (e : Entry) : H Z := table_op (allocate e).

(** The errno of an error of a virtual filesystem, [other] where none fits. *)
Definition vfs_errno (other : Z) (e : VfsError.t) : Z :=
  match e with VfsError.NotFound => - ENOENT | VfsError.PermissionDenied => - EACCES | _ => - other end.
Definition served {A} (r : VfsError.t + A) (other : Z) (k : A → H SyscallResult) : H SyscallResult :=
  match r with inr a => k a | inl e => value (vfs_errno other e) end.

(** ** Paths *)

(** [syscall::translate_path]. *)
Definition translate_path (path : string) : option string := snd <$> resolve mount_table path.

(** [mount_table.resolve(&path)] where it leads to a virtual filesystem. *)
Definition virtual_mount (path : string) : option Vfs :=
  match resolve mount_table path with
  | Some (v, _) => if is_virtual v then Some v else None
  | None => None
  end.

Definition is_relative (path : string) : bool := negb (starts_with path "/").

(** The descriptor and the path to resolve; [None] is [EBADF]. *)
Definition at_dirfd (dirfd : Z) (path : string) (t : FdTable Ref) : option (Z * string) :=
  if dirfd =? AT_FDCWD then Some (dirfd, path)
  else if is_relative path then
    match get dirfd t with
    | Some entry =>
        match kernel_fd_of entry, path_of entry with
        | Some kfd, _ => Some (kfd, path)
        | None, Some dir_path => Some (AT_FDCWD, path_push dir_path path)
        | None, None => None
        end
    | None => Some (dirfd, path)
    end
  else Some (AT_FDCWD, path).

(** [fd_table.translate(dirfd).unwrap_or(dirfd)]. *)
Definition kernel_dirfd (dirfd : Z) (t : FdTable Ref) : Z :=
  if dirfd =? AT_FDCWD then dirfd else default dirfd (translate dirfd t).

(** The open call of the kernel, and the descriptor for what it opened. *)
Definition kernel_open (c : Call) (flags : Z) (path : string) : H SyscallResult :=
  r ← inject c;
  if 0 <=? ret r then
    virtual_fd ← table_allocate (Passthrough (ret r) flags (Some path));
    value virtual_fd
  else value (ret r).

Definition handle_openat (dirfd : Z) (path : option string) (flags : Z) (mode : option Z) :
    H SyscallResult :=
  match path with
  | None => syscall (Openat dirfd path flags mode)
  | Some original =>
      p ← (λ p, (SOk (at_dirfd dirfd original (fd_table p)), p) : SResult _ * Proc);
      match p with
      | None => value (- EBADF)
      | Some (kernel_dirfd, path) =>
          match resolve mount_table path with
          | Some (v, _) =>
              if is_virtual v then
                r ← virtual (VirtualFs.open v path flags (default 0x1a4 mode));
                served r EIO (λ file_ops,
                  virtual_fd ← table_allocate (Virtual file_ops flags (Some path));
                  value virtual_fd)
              else
                kernel_open
                  (Openat kernel_dirfd (Some (default original (translate_path original))) flags mode)
                  flags path
          | None => kernel_open (Openat kernel_dirfd (Some original) flags mode) flags path
          end
      end
  end.

(** ** Reading, writing and closing *)

(** A call on a descriptor: [on_kernel] with the kernel's descriptor, [on_virtual] with the open
    file, the call as it is where the descriptor is unknown. *)
Definition on_fd (fd : Z) (original : Call) (on_kernel : Z → Call)
    (on_virtual : Ref → H SyscallResult) : H SyscallResult :=
  entry ← table_get fd;
  match entry with
  | Some (Passthrough kernel_fd _ _) => syscall (on_kernel kernel_fd)
  | Some (Virtual file_ops _ _) => on_virtual file_ops
  | None => syscall original
  end.

Definition handle_read (fd buf len : Z) : H SyscallResult :=
  on_fd fd (Read fd buf len) (λ kfd, Read kfd buf len) (λ file_ops,
    if buf =? 0 then value (- EFAULT)
    else
      r ← virtual (VirtualFs.read file_ops len);
      served r EIO (λ data, mret (Value (Prelude.len data) (OutBytes data)))).

Definition handle_write (fd buf : Z) (data : bytes) : H SyscallResult :=
  on_fd fd (Write fd buf data) (λ kfd, Write kfd buf data) (λ file_ops,
    if buf =? 0 then value (- EFAULT)
    else
      r ← virtual (VirtualFs.write file_ops data);
      served r EIO value).

Definition handle_close (fd : Z) : H SyscallResult :=
  entry ← table_op (λ t, Some (deallocate fd t));
  match entry with
  | Some (Passthrough kernel_fd _ _) => syscall (Close kernel_fd)
  | Some (Virtual file_ops _ _) => virtual (VirtualFs.close file_ops) ;; value 0
  | None => syscall (Close fd)
  end.

Definition handle_lseek (fd offset whence : Z) : H SyscallResult :=
  on_fd fd (Lseek fd offset whence) (λ kfd, Lseek kfd offset whence) (λ file_ops,
    if (0 <=? whence) && (whence <=? SEEK_HOLE) then
      r ← virtual (VirtualFs.seek file_ops offset whence);
      served r EIO value
    else value (- EINVAL)).

Definition handle_fstat (fd stat : Z) : H SyscallResult :=
  on_fd fd (Fstat fd stat) (λ kfd, Fstat kfd stat) (λ file_ops,
    r ← virtual (VirtualFs.fstat file_ops);
    served r EIO (λ st, mret (Value 0 (if stat =? 0 then NoOut else OutStat st)))).

Definition handle_getdents64 (fd dirent count : Z) : H SyscallResult :=
  on_fd fd (Getdents64 fd dirent count) (λ kfd, Getdents64 kfd dirent count) (λ file_ops,
    r ← virtual (VirtualFs.getdents file_ops);
    match r with
    | inl _ => value (- ENOTDIR)
    | inr entries =>
        if dirent =? 0 then value (- EFAULT)
        else
          let buf := dirents count 0 1 entries in
          mret (Value (len buf) (OutBytes buf))
    end).

(** ** Duplicating *)

Definition handle_dup (oldfd : Z) : H SyscallResult :=
  old_entry ← table_get oldfd;
  match old_entry with
  | Some (Passthrough kernel_fd flags path) =>
      r ← inject (Dup kernel_fd);
      if ret r <? 0 then value (ret r)
      else
        new_vfd ← table_allocate (Passthrough (ret r) flags path);
        value new_vfd
  | Some (Virtual _ _ _) =>
      new_vfd ← table_op (duplicate oldfd);
      match new_vfd with
      | Some new_vfd => value new_vfd
      | None => syscall (Dup oldfd)
      end
  | None => syscall (Dup oldfd)
  end.

(** The descriptor that is replaced. *)
Definition close_entry (entry : option Entry) : H unit :=
  match entry with
  | Some (Passthrough kernel_fd _ _) => inject (Close kernel_fd) ;; mret tt
  | Some (Virtual file_ops _ _) => virtual (VirtualFs.close file_ops) ;; mret tt
  | None => mret tt
  end.

(** [dup2] and [dup3]; [entry_flags]: the flags of the new entry of a virtual file. *)
Definition dup_onto (original : Call) (oldfd newfd flags : Z) (entry_flags : Z → Z) :
    H SyscallResult :=
  old_entry ← table_get oldfd;
  match old_entry with
  | None => syscall original
  | Some old_entry =>
      old_new_entry ← table_get newfd;
      match old_entry with
      | Passthrough old_kernel_fd _ path =>
          r ← inject (Dup old_kernel_fd);
          if ret r <? 0 then value (ret r)
          else
            close_entry old_new_entry ;;
            table_op (allocate_at newfd (Passthrough (ret r) flags path)) ;;
            value newfd
      | Virtual file_ops old_flags path =>
          close_entry old_new_entry ;;
          table_op (allocate_at newfd (Virtual file_ops (entry_flags old_flags) path)) ;;
          value newfd
      end
  end.
Definition handle_dup2 (oldfd newfd : Z) : H SyscallResult :=
  dup_onto (Dup2 oldfd newfd) oldfd newfd 0 (λ flags, flags).
Definition handle_dup3 (oldfd newfd flags : Z) : H SyscallResult :=
  dup_onto (Dup3 oldfd newfd flags) oldfd newfd flags (λ _, flags).

Definition O_CLOEXEC : Z := 0x80000.

Definition handle_fcntl (fd : Z) (cmd : FcntlCmd) : H SyscallResult :=
  kernel_fd ← table_translate fd;
  match kernel_fd with
  | None => syscall (Fcntl fd cmd)
  | Some kernel_fd =>
      let dup new_cmd arg flags :=
        r ← inject (Fcntl kernel_fd new_cmd);
        if 0 <=? ret r then
          old_entry ← table_get fd;
          new_vfd ← table_op (allocate_min arg
            (Passthrough (ret r) flags (old_entry ≫= path_of)));
          value new_vfd
        else value (ret r) in
      match cmd with
      | F_DUPFD arg => dup (F_DUPFD 0) arg 0
      | F_DUPFD_CLOEXEC arg => dup (F_DUPFD_CLOEXEC 0) arg O_CLOEXEC
      | F_OTHER _ _ => r ← inject (Fcntl kernel_fd cmd); value (ret r)
      end
  end.

(** ** Calls that only the kernel answers *)

(** A call on a descriptor that the kernel has, executed and answered; the call as it is for
    any other. *)
Definition on_kernel_fd (fd : Z) (original : Call) (on_kernel : Z → Call) : H SyscallResult :=
  kernel_fd ← table_translate fd;
  match kernel_fd with
  | Some kernel_fd => r ← inject (on_kernel kernel_fd); value (ret r)
  | None => syscall original
  end.

Definition handle_ioctl (fd request : Z) : H SyscallResult :=
  kernel_fd ← table_translate fd;
  match kernel_fd with
  | Some kernel_fd =>
      if fd =? kernel_fd then syscall (Ioctl fd request)
      else r ← inject (Ioctl kernel_fd request); value (ret r)
  | None => syscall (Ioctl fd request)
  end.

Definition handle_pread64 (fd buf len offset : Z) : H SyscallResult :=
  on_kernel_fd fd (Pread64 fd buf len offset) (λ kfd, Pread64 kfd buf len offset).
Definition handle_pwrite64 (fd buf len offset : Z) : H SyscallResult :=
  on_kernel_fd fd (Pwrite64 fd buf len offset) (λ kfd, Pwrite64 kfd buf len offset).
Definition handle_mmap (addr len prot flags fd offset : Z) : H SyscallResult :=
  if fd =? -1 then syscall (Mmap addr len prot flags fd offset)
  else on_kernel_fd fd (Mmap addr len prot flags fd offset)
         (λ kfd, Mmap addr len prot flags kfd offset).

(** The builders of these calls are not given every argument. *)
Definition handle_readv (fd iov iovcnt : Z) : H SyscallResult :=
  on_kernel_fd fd (Readv fd iov iovcnt) (λ kfd, Readv kfd iov unset).
Definition handle_writev (fd iov iovcnt : Z) : H SyscallResult :=
  on_kernel_fd fd (Writev fd iov iovcnt) (λ kfd, Writev kfd iov unset).
Definition handle_sendto (fd buf len flags addr addrlen : Z) : H SyscallResult :=
  on_kernel_fd fd (Sendto fd buf len flags addr addrlen)
    (λ kfd, Sendto kfd buf unset flags addr unset).
Definition handle_connect (fd addr addrlen : Z) : H SyscallResult :=
  on_kernel_fd fd (Connect fd addr addrlen) (λ kfd, Connect kfd unset addrlen).
Definition handle_getpeername (fd addr addrlen : Z) : H SyscallResult :=
  on_kernel_fd fd (Getpeername fd addr addrlen) (λ kfd, Getpeername kfd addr addrlen).

Definition handle_pipe2 (pipefd flags : Z) : H SyscallResult :=
  r ← inject (Pipe2 pipefd flags);
  if (ret r =? 0) && negb (pipefd =? 0) then
    match words r with
    | read_fd :: write_fd :: _ =>
        virtual_read_fd ← table_allocate (Passthrough read_fd flags None);
        virtual_write_fd ← table_allocate (Passthrough write_fd flags None);
        mret (Value (ret r) (OutFds [virtual_read_fd; virtual_write_fd]))
    | _ => value (ret r)
    end
  else value (ret r).

Definition handle_socket (domain ty protocol : Z) : H SyscallResult :=
  r ← inject (Socket domain ty protocol);
  if 0 <=? ret r then
    virtual_fd ← table_allocate (Passthrough (ret r) 0 None);
    value virtual_fd
  else value (ret r).

(** ** Waiting *)

(** The members below [virt_nfds] that the kernel has, and the number of descriptors that the
    kernel has to look at.  [None]: a number that no set can have is looked up or put in, which
    is a panic of [FD_ISSET] and [FD_SET]. *)
Definition translate_to_kernel (virt_set : list Z) (virt_nfds : Z) (t : FdTable Ref) :
    option (list Z * Z) :=
  let kernel_set :=
    omap (λ vfd, if bool_decide (vfd ∈ virt_set) then translate vfd t else None)
      (seqZ 0 virt_nfds) in
  if (virt_nfds <=? FD_SETSIZE) && forallb (λ kfd, kfd <? FD_SETSIZE) kernel_set
  then Some (kernel_set, foldr Z.max 0 kernel_set + 1)
  else None.

Definition translate_to_virtual (kernel_set : list Z) (kernel_nfds virt_nfds : Z)
    (t : FdTable Ref) : list Z :=
  filter (λ vfd,
    match translate vfd t with
    | Some kfd => (kfd <? kernel_nfds) && bool_decide (kfd ∈ kernel_set)
    | None => false
    end = true) (seqZ 0 virt_nfds).

Definition kernel_set (virt_set : option (list Z)) (virt_nfds : Z) (t : FdTable Ref) :
    H (option (list Z) * Z) := λ p,
  match virt_set with
  | Some l =>
      match translate_to_kernel l virt_nfds t with
      | Some (kset, max) => (SOk (Some kset, max), p)
      | None => (SPanic, p)
      end
  | None => (SOk (None, 0), p)
  end.

(** The sets that the kernel wrote back, where the process gave one. *)
Definition virtual_set (given : option (list Z)) (written : option (list Z))
    (kernel_nfds virt_nfds : Z) (t : FdTable Ref) : option (list Z) :=
  match given with
  | Some _ => Some (translate_to_virtual (default [] written) kernel_nfds virt_nfds t)
  | None => None
  end.

Definition handle_pselect6 (virt_nfds : Z) (readfds writefds exceptfds : option (list Z))
    (timeout sigmask : Z) : H SyscallResult :=
  t ← (λ p, (SOk (fd_table p), p) : SResult _ * Proc);
  '(kernel_readfds, max_read) ← kernel_set readfds virt_nfds t;
  '(kernel_writefds, max_write) ← kernel_set writefds virt_nfds t;
  '(kernel_exceptfds, max_except) ← kernel_set exceptfds virt_nfds t;
  let kernel_nfds := Z.max (Z.max max_read max_write) max_except in
  if kernel_nfds =? 0 then syscall (Pselect6 virt_nfds readfds writefds exceptfds timeout sigmask)
  else
    r ← inject (Pselect6 kernel_nfds kernel_readfds kernel_writefds kernel_exceptfds timeout sigmask);
    if ret r <=? 0 then value (ret r)
    else
      mret (Value (ret r) (OutSets
        (virtual_set readfds (sets r !! 0%nat) kernel_nfds virt_nfds t)
        (virtual_set writefds (sets r !! 1%nat) kernel_nfds virt_nfds t)
        (virtual_set exceptfds (sets r !! 2%nat) kernel_nfds virt_nfds t))).

Definition handle_poll (fds : option (list PollFd)) (timeout : Z) : H SyscallResult :=
  match fds with
  | None | Some [] => syscall (Poll fds timeout)
  | Some pollfds =>
      t ← (λ p, (SOk (fd_table p), p) : SResult _ * Proc);
      let kernel_fds :=
        (λ f, mkPollFd (default (pf_fd f) (translate (pf_fd f) t)) (pf_events f) 0) <$> pollfds in
      r ← inject (Poll (Some kernel_fds) timeout);
      if ret r <=? 0 then value (ret r)
      else
        mret (Value (ret r) (OutPoll
          (zip_with (λ f revents, mkPollFd (pf_fd f) (pf_events f) revents) pollfds (words r))))
  end.

(** ** Calls on paths *)

(** The call with the path translated, or as it is. *)
Definition with_path (path : option string) (original : Call) (with_new : string → Call) :
    H SyscallResult :=
  match path ≫= translate_path with
  | Some new_path => syscall (with_new new_path)
  | None => syscall original
  end.
(** The same, executed and answered. *)
Definition with_path_now (path : string) (original : Call) (with_new : string → Call) :
    H SyscallResult :=
  match translate_path path with
  | Some new_path => r ← inject (with_new new_path); value (ret r)
  | None => syscall original
  end.

Definition handle_access (path : option string) (mode : Z) : H SyscallResult :=
  with_path path (Access path mode) (λ p, Access (Some p) mode).
Definition handle_unlink (path : option string) : H SyscallResult :=
  with_path path (Unlink path) (λ p, Unlink (Some p)).
Definition handle_rmdir (path : option string) : H SyscallResult :=
  with_path path (Rmdir path) (λ p, Rmdir (Some p)).
Definition handle_chdir (path : option string) : H SyscallResult :=
  with_path path (Chdir path) (λ p, Chdir (Some p)).
Definition handle_statfs (path : option string) (buf : Z) : H SyscallResult :=
  with_path path (Statfs path buf) (λ p, Statfs (Some p) buf).
Definition handle_llistxattr (path : option string) (list size : Z) : H SyscallResult :=
  with_path path (Llistxattr path list size) (λ p, Llistxattr (Some p) list size).
Definition handle_lgetxattr (path : option string) (name value size : Z) : H SyscallResult :=
  with_path path (Lgetxattr path name value size) (λ p, Lgetxattr (Some p) name value size).

Definition handle_rename (oldpath newpath : option string) : H SyscallResult :=
  let new_old := oldpath ≫= translate_path in
  let new_new := newpath ≫= translate_path in
  match new_old, new_new with
  | None, None => syscall (Rename oldpath newpath)
  | _, _ =>
      syscall (Rename (match new_old with Some p => Some p | None => oldpath end)
                 (match new_new with Some p => Some p | None => newpath end))
  end.

(** [faccessat], [faccessat2] and [fchownat]: the call with descriptor and path translated,
    unless neither needs to be. *)
Definition at_call (dirfd : Z) (path : string) (original : Call) (translated : Z → string → Call) :
    H SyscallResult :=
  t ← (λ p, (SOk (fd_table p), p) : SResult _ * Proc);
  let dirfd_needs_translation :=
    negb (dirfd =? AT_FDCWD) && bool_decide (is_Some (translate dirfd t)) in
  let translated_path := translate_path path in
  if negb dirfd_needs_translation && negb (bool_decide (is_Some translated_path))
  then syscall original
  else
    r ← inject (translated (kernel_dirfd dirfd t) (default path translated_path));
    value (ret r).

Definition handle_faccessat2 (dirfd : Z) (path : string) (mode flags : Z) : H SyscallResult :=
  at_call dirfd path (Faccessat2 dirfd path mode flags) (λ d p, Faccessat2 d p mode flags).
Definition handle_faccessat (dirfd : Z) (path : option string) (mode : Z) : H SyscallResult :=
  match path with
  | None => syscall (Faccessat dirfd path mode)
  | Some p => at_call dirfd p (Faccessat dirfd path mode) (λ d p, Faccessat d (Some p) mode)
  end.
Definition handle_fchownat (dirfd : Z) (path : option string) (owner group flags : Z) :
    H SyscallResult :=
  match path with
  | None => syscall (Fchownat dirfd path owner group flags)
  | Some p =>
      at_call dirfd p (Fchownat dirfd path owner group flags)
        (λ d p, Fchownat d (Some p) owner group flags)
  end.

Definition handle_chmod (dirfd : Z) (path : option string) (mode flags : Z) : H SyscallResult :=
  match path with
  | None => syscall (Fchmodat dirfd path mode flags)
  | Some p =>
      if negb (dirfd =? AT_FDCWD) then syscall (Fchmodat dirfd path mode flags)
      else with_path_now p (Fchmodat dirfd path mode flags)
             (λ p, Fchmodat AT_FDCWD (Some p) mode flags)
  end.

Definition table_dirfd (dirfd : Z) : H Z := λ p, (SOk (kernel_dirfd dirfd (fd_table p)), p).

Definition handle_statx (dirfd : Z) (path : option string) (flags mask statx : Z) :
    H SyscallResult :=
  kdirfd ← table_dirfd dirfd;
  match path with
  | None => syscall (Statx dirfd path flags mask statx)
  | Some p =>
      match virtual_mount p with
      | Some _ => value (- ENOSYS)
      | None =>
          with_path_now p (Statx dirfd path flags mask statx)
            (λ p, Statx kdirfd (Some p) flags mask statx)
      end
  end.

Definition handle_newfstatat (dirfd : Z) (path : option string) (stat flags : Z) :
    H SyscallResult :=
  kdirfd ← table_dirfd dirfd;
  match path with
  | None => syscall (Newfstatat dirfd path stat flags)
  | Some p =>
      match virtual_mount p with
      | Some v =>
          r ← virtual (if has_flag flags AT_SYMLINK_NOFOLLOW then VirtualFs.lstat v p
                       else VirtualFs.stat v p);
          served r EIO (λ st, mret (Value 0 (if stat =? 0 then NoOut else OutStat st)))
      | None =>
          with_path_now p (Newfstatat dirfd path stat flags)
            (λ p, Newfstatat kdirfd (Some p) stat flags)
      end
  end.

(** The target of a symlink in a virtual filesystem, cut to the buffer. *)
Definition virtual_readlink (v : Vfs) (path : string) (buf bufsize : Z) : H SyscallResult :=
  r ← virtual (VirtualFs.readlink v path);
  served r EINVAL (λ target,
    if buf =? 0 then value 0
    else
      let bytes_to_write := Z.min (len (as_bytes target)) bufsize in
      mret (Value bytes_to_write (OutBytes (take (Z.to_nat bytes_to_write) (as_bytes target))))).

Definition handle_readlink (path : option string) (buf bufsize : Z) : H SyscallResult :=
  match path with
  | None => syscall (Readlink path buf bufsize)
  | Some p =>
      match virtual_mount p with
      | Some v => virtual_readlink v p buf bufsize
      | None => with_path_now p (Readlink path buf bufsize) (λ p, Readlink (Some p) buf bufsize)
      end
  end.
Definition handle_readlinkat (dirfd : Z) (path : option string) (buf bufsize : Z) :
    H SyscallResult :=
  kdirfd ← table_dirfd dirfd;
  match path with
  | None => syscall (Readlinkat dirfd path buf bufsize)
  | Some p =>
      match virtual_mount p with
      | Some v => virtual_readlink v p buf bufsize
      | None =>
          with_path_now p (Readlinkat dirfd path buf bufsize)
            (λ p, Readlinkat kdirfd (Some p) buf bufsize)
      end
  end.

(** The errno of [symlink] and [link]; [denied] where permission is. *)
Definition create_errno (denied : Z) (e : VfsError.t) : Z :=
  match e with
  | VfsError.NotFound => - ENOENT
  | VfsError.PermissionDenied => - denied
  | VfsError.AlreadyExists => - EEXIST
  | _ => - EIO
  end.
Definition created (denied : Z) (r : VfsError.t + unit) : H SyscallResult :=
  match r with inr _ => value 0 | inl e => value (create_errno denied e) end.

Definition handle_symlink (target linkpath : option string) : H SyscallResult :=
  match linkpath, target with
  | Some l, Some tg =>
      match virtual_mount l with
      | Some v => r ← virtual (VirtualFs.symlink v tg l); created EACCES r
      | None => with_path_now l (Symlink target linkpath) (λ p, Symlink target (Some p))
      end
  | _, _ => syscall (Symlink target linkpath)
  end.
Definition handle_symlinkat (target : option string) (newdirfd : Z) (linkpath : option string) :
    H SyscallResult :=
  kdirfd ← table_dirfd newdirfd;
  match linkpath, target with
  | Some l, Some tg =>
      match virtual_mount l with
      | Some v => r ← virtual (VirtualFs.symlink v tg l); created EACCES r
      | None =>
          with_path_now l (Symlinkat target newdirfd linkpath)
            (λ p, Symlinkat target kdirfd (Some p))
      end
  | _, _ => syscall (Symlinkat target newdirfd linkpath)
  end.

Definition handle_linkat (olddirfd : Z) (oldpath : option string) (newdirfd : Z)
    (newpath : option string) (flags : Z) : H SyscallResult :=
  kold ← table_dirfd olddirfd;
  knew ← table_dirfd newdirfd;
  match oldpath, newpath with
  | Some o, Some n =>
      match virtual_mount n with
      | Some v => r ← virtual (VirtualFs.link v o n); created EPERM r
      | None =>
          match translate_path o, translate_path n with
          | None, None => syscall (Linkat olddirfd oldpath newdirfd newpath flags)
          | o', n' =>
              r ← inject (Linkat kold (Some (default o o')) knew (Some (default n n')) flags);
              value (ret r)
          end
      end
  | _, _ => syscall (Linkat olddirfd oldpath newdirfd newpath flags)
  end.

(** ** Dispatch *)

(** [dispatch_syscall], but for the calls that start a process. *)
Definition dispatch_syscall (c : Call) : H SyscallResult :=
  match c with
  | Openat dirfd path flags mode => handle_openat dirfd path flags mode
  | Read fd buf len => handle_read fd buf len
  | Write fd buf data => handle_write fd buf data
  | Close fd => handle_close fd
  | Dup oldfd => handle_dup oldfd
  | Dup2 oldfd newfd => handle_dup2 oldfd newfd
  | Dup3 oldfd newfd flags => handle_dup3 oldfd newfd flags
  | Ioctl fd request => handle_ioctl fd request
  | Fcntl fd cmd => handle_fcntl fd cmd
  | Pselect6 nfds r w e timeout sigmask => handle_pselect6 nfds r w e timeout sigmask
  | Poll fds timeout => handle_poll fds timeout
  | Getdents64 fd dirent count => handle_getdents64 fd dirent count
  | Fstat fd stat => handle_fstat fd stat
  | Pread64 fd buf len offset => handle_pread64 fd buf len offset
  | Pwrite64 fd buf len offset => handle_pwrite64 fd buf len offset
  | Lseek fd offset whence => handle_lseek fd offset whence
  | Mmap addr len prot flags fd offset => handle_mmap addr len prot flags fd offset
  | Readv fd iov iovcnt => handle_readv fd iov iovcnt
  | Writev fd iov iovcnt => handle_writev fd iov iovcnt
  | Pipe2 pipefd flags => handle_pipe2 pipefd flags
  | Socket domain ty protocol => handle_socket domain ty protocol
  | Sendto fd buf len flags addr addrlen => handle_sendto fd buf len flags addr addrlen
  | Connect fd addr addrlen => handle_connect fd addr addrlen
  | Getpeername fd addr addrlen => handle_getpeername fd addr addrlen
  | Access path mode => handle_access path mode
  | Faccessat dirfd path mode => handle_faccessat dirfd path mode
  | Faccessat2 dirfd path mode flags => handle_faccessat2 dirfd path mode flags
  | Rename oldpath newpath => handle_rename oldpath newpath
  | Unlink path => handle_unlink path
  | Rmdir path => handle_rmdir path
  | Chdir path => handle_chdir path
  | Fchmodat dirfd path mode flags => handle_chmod dirfd path mode flags
  | Fchownat dirfd path owner group flags => handle_fchownat dirfd path owner group flags
  | Statx dirfd path flags mask statx => handle_statx dirfd path flags mask statx
  | Newfstatat dirfd path stat flags => handle_newfstatat dirfd path stat flags
  | Statfs path buf => handle_statfs path buf
  | Readlink path buf bufsize => handle_readlink path buf bufsize
  | Readlinkat dirfd path buf bufsize => handle_readlinkat dirfd path buf bufsize
  | Symlink target linkpath => handle_symlink target linkpath
  | Symlinkat target newdirfd linkpath => handle_symlinkat target newdirfd linkpath
  | Linkat olddirfd oldpath newdirfd newpath flags =>
      handle_linkat olddirfd oldpath newdirfd newpath flags
  | Llistxattr path list size => handle_llistxattr path list size
  | Lgetxattr path name value size => handle_lgetxattr path name value size
  | Fork | Vfork | Clone _ | Clone3 | Other _ _ => syscall c
  | Unsupported _ _ => λ p, (SErr ENOSYS, p)
  end.

(** [tail_inject], for a handler that left a call. *)
Definition finish (r : SyscallResult) : H (Z * Out) :=
  match r with
  | Value v out => mret (v, out)
  | Syscall c => reply ← inject c; mret (ret reply, NoOut)
  end.

(** An error is returned to the process as its negated number. *)
Definition answered (m : H (Z * Out)) : H (Z * Out) := λ p,
  match m p with
  | (SErr e, p') => (SOk (- e, NoOut), p')
  | r => r
  end.

(** A call of one process: what it returns, and what was written. *)
Definition step (c : Call) : H (Z * Out) := answered (r ← dispatch_syscall c; finish r).
End Syscalls.

(** ** Processes *)

Section Processes.
Context {S K : Type} {V : VirtualFs.t S} {Sys : LibcSys} {IO : LibcIo}.
(** The kernel, for each process. *)
Context (kernels : Z → Call → K → KReply * K) (mount_table : MountTable) (unset : Z).
Abbreviation Ref := VirtualFs.FileRef.

(** The tables of all processes: a reference to a table, which processes may share, for each
    of them ([FD_TABLES] in [sandbox/mod.rs]). *)
Record Sandbox := mkSandbox {
  FD_TABLES : gmap Z nat;
  heap : list (FdTable Ref);
  sb_vfs : S;
  sb_kernel : K
}.

(** [get_fd_table]: a new table for a process that has none. *)
Definition get_fd_table (pid : Z) (sb : Sandbox) : nat * Sandbox :=
  match FD_TABLES sb !! pid with
  | Some r => (r, sb)
  | None =>
      let r := length (heap sb) in
      (r, mkSandbox (<[pid := r]> (FD_TABLES sb)) (heap sb ++ [FdTable.new]) (sb_vfs sb)
            (sb_kernel sb))
  end.
Definition insert_fd_table (pid : Z) (r : nat) (sb : Sandbox) : Sandbox :=
  mkSandbox (<[pid := r]> (FD_TABLES sb)) (heap sb) (sb_vfs sb) (sb_kernel sb).

(** A copy of the table [r], for a process that does not share it. *)
Definition deep_copy (r : nat) (sb : Sandbox) : nat * Sandbox :=
  (length (heap sb),
   mkSandbox (FD_TABLES sb) (heap sb ++ [deep_clone (default FdTable.new (heap sb !! r))])
     (sb_vfs sb) (sb_kernel sb)).

(** A call that starts a process; [shared]: it gets the table of its parent. *)
Definition handle_new_process (pid : Z) (c : Call) (shared : bool) (r : nat) (sb : Sandbox) :
    SResult (Z * Out) * Sandbox :=
  let '(reply, k) := kernels pid c (sb_kernel sb) in
  let sb := mkSandbox (FD_TABLES sb) (heap sb) (sb_vfs sb) k in
  (SOk (ret reply, NoOut),
   if 0 <? ret reply then
     if shared then insert_fd_table (ret reply) r sb
     else let '(child, sb) := deep_copy r sb in insert_fd_table (ret reply) child sb
   else sb).
Definition handle_fork (pid : Z) := handle_new_process pid Fork false.
Definition handle_vfork (pid : Z) := handle_new_process pid Vfork false.
Definition CLONE_FILES : Z := 0x400.
Definition handle_clone (pid flags : Z) :=
  handle_new_process pid (Clone flags) (has_flag flags CLONE_FILES).
Definition handle_clone3 (pid : Z) := handle_new_process pid Clone3 false.

(** A call on the table [r]. *)
Definition on_table (r : nat) (m : SM Proc (Z * Out)) (sb : Sandbox) :
    SResult (Z * Out) * Sandbox :=
  let p := mkProc (default FdTable.new (heap sb !! r)) (sb_vfs sb) (sb_kernel sb) in
  let '(res, p') := m p in
  (res, mkSandbox (FD_TABLES sb) (<[r := fd_table p']> (heap sb)) (vfs_state p') (kernel_state p')).

(** [handle_syscall_event]. *)
Definition handle_syscall_event (pid : Z) (c : Call) (sb : Sandbox) :
    SResult (Z * Out) * Sandbox :=
  let '(r, sb) := get_fd_table pid sb in
  match c with
  | Fork => handle_fork pid r sb
  | Vfork => handle_vfork pid r sb
  | Clone flags => handle_clone pid flags r sb
  | Clone3 => handle_clone3 pid r sb
  | _ => on_table r (step (kernels pid) mount_table unset c) sb
  end.

(** The calls of the processes, in the order they arrive; a panic ends the run. *)
Fixpoint run (calls : list (Z * Call)) (sb : Sandbox) : list (SResult (Z * Out)) * Sandbox :=
  match calls with
  | [] => ([], sb)
  | (pid, c) :: calls =>
      let '(r, sb) := handle_syscall_event pid c sb in
      match r with
      | SPanic => ([r], sb)
      | _ => let '(rs, sb) := run calls sb in (r :: rs, sb)
      end
  end.
End Processes.
