(* ===== verification/SyscallsProps.v ===== *)
(** * SyscallsProps: the descriptors of a sandboxed process

    What the calls of a process do to its descriptors, over any kernel whose calls do to the
    kernel's descriptors what their documentation says: the process sees the table that POSIX
    promises, and no descriptor of the kernel leaks. *)
From S2P Require Import Prelude FdTable Mounts SqliteVfs Syscalls.

(** ** Entries and descriptors of the kernel *)

Section Maps.
Context {F O : Type}.
Implicit Types (m : gmap Z (FdEntry F)) (ks : gmap Z O).

(** What a descriptor of the process denotes: an open file of the kernel, or of a virtual
    filesystem. *)
Inductive Desc := KernelFile (o : O) | VirtualFile (f : F).

Definition desc ks (e : FdEntry F) : option Desc :=
  match e with
  | Passthrough kfd _ _ => KernelFile <$> ks !! kfd
  | Virtual f _ _ => Some (VirtualFile f)
  end.
Definition view m ks : gmap Z Desc := omap (desc ks) m.

(** The entries and the open descriptors of the kernel correspond, one to one. *)
Record matched m ks : Prop := {
  mt_open v kfd fl pa : m !! v = Some (Passthrough kfd fl pa) → is_Some (ks !! kfd);
  mt_inj v1 v2 kfd fl1 pa1 fl2 pa2 :
    m !! v1 = Some (Passthrough kfd fl1 pa1) → m !! v2 = Some (Passthrough kfd fl2 pa2) → v1 = v2;
  mt_all kfd : is_Some (ks !! kfd) → ∃ v fl pa, m !! v = Some (Passthrough kfd fl pa)
}.

Lemma view_lookup m ks v : view m ks !! v = m !! v ≫= desc ks.
Proof. apply lookup_omap. Qed.

Lemma view_some m ks v e : matched m ks → m !! v = Some e → ∃ d, view m ks !! v = Some d.
Proof.
  intros Hm He. rewrite view_lookup, He. destruct e as [kfd fl pa|f fl pa]; cbn; [|by eexists].
  destruct (mt_open _ _ Hm _ _ _ _ He) as [o Ho]. rewrite Ho. by eexists.
Qed.

Lemma view_none m ks v : matched m ks → view m ks !! v = None ↔ m !! v = None.
Proof.
  intros Hm. destruct (m !! v) as [e|] eqn:He.
  - destruct (view_some _ _ _ _ Hm He) as [d ->]. split; congruence.
  - rewrite view_lookup, He. done.
Qed.

Lemma matched_new_kernel m ks v kfd fl pa o :
  matched m ks → m !! v = None → ks !! kfd = None →
  matched (<[v := Passthrough kfd fl pa]> m) (<[kfd := o]> ks) ∧
  view (<[v := Passthrough kfd fl pa]> m) (<[kfd := o]> ks) = <[v := KernelFile o]> (view m ks).
Proof.
  intros Hm Hv Hk.
  assert (Hne : ∀ v' kfd' fl' pa', m !! v' = Some (Passthrough kfd' fl' pa') → kfd' ≠ kfd).
  { intros v' kfd' fl' pa' He ->. destruct (mt_open _ _ Hm _ _ _ _ He). congruence. }
  split; [split|].
  - intros v' kfd' fl' pa' [[_ [= <- _ _]]|[_ He]]%lookup_insert_Some; [by rewrite lookup_insert_eq|].
    rewrite lookup_insert_ne; [by eapply mt_open|]. intros <-. by apply Hne in He.
  - intros v1 v2 kfd' fl1 pa1 fl2 pa2.
    intros [[<- [= <- _ _]]|[_ H1]]%lookup_insert_Some [[<- Heq]|[_ H2]]%lookup_insert_Some; [done|..].
    + by apply Hne in H2.
    + injection Heq as <- _ _. by apply Hne in H1.
    + by eapply mt_inj.
  - intros kfd' Hs. destruct (decide (kfd' = kfd)) as [->|Hd].
    { exists v, fl, pa. by rewrite lookup_insert_eq. }
    rewrite lookup_insert_ne in Hs by done. destruct (mt_all _ _ Hm _ Hs) as (v' & fl' & pa' & He).
    exists v', fl', pa'. rewrite lookup_insert_ne; [done|congruence].
  - apply map_eq. intros v'. rewrite view_lookup. destruct (decide (v' = v)) as [->|Hd].
    { rewrite !lookup_insert_eq. cbn. by rewrite lookup_insert_eq. }
    rewrite !lookup_insert_ne, view_lookup by done. destruct (m !! v') as [[kfd' fl' pa'|]|] eqn:He; [|done..].
    cbn. rewrite lookup_insert_ne; [done|]. intros <-. by apply Hne in He.
Qed.

Lemma matched_new_virtual m ks v f fl pa :
  matched m ks → m !! v = None →
  matched (<[v := Virtual f fl pa]> m) ks ∧
  view (<[v := Virtual f fl pa]> m) ks = <[v := VirtualFile f]> (view m ks).
Proof.
  intros Hm Hv. split; [split|].
  - intros v' kfd' fl' pa' [[_ ?]|[_ He]]%lookup_insert_Some; [done|]. by eapply mt_open.
  - intros v1 v2 kfd' fl1 pa1 fl2 pa2 [[_ ?]|[_ H1]]%lookup_insert_Some; [done|].
    intros [[_ ?]|[_ H2]]%lookup_insert_Some; [done|]. by eapply mt_inj.
  - intros kfd' Hs. destruct (mt_all _ _ Hm _ Hs) as (v' & fl' & pa' & He).
    exists v', fl', pa'. rewrite lookup_insert_ne; [done|congruence].
  - apply map_eq. intros v'. rewrite view_lookup. destruct (decide (v' = v)) as [->|Hd].
    { by rewrite !lookup_insert_eq. }
    by rewrite !lookup_insert_ne, view_lookup by done.
Qed.

Lemma matched_remove_kernel m ks v kfd fl pa :
  matched m ks → m !! v = Some (Passthrough kfd fl pa) →
  matched (base.delete v m) (base.delete kfd ks) ∧
  view (base.delete v m) (base.delete kfd ks) = base.delete v (view m ks).
Proof.
  intros Hm Hv.
  assert (Hne : ∀ v' kfd' fl' pa', v' ≠ v → m !! v' = Some (Passthrough kfd' fl' pa') → kfd' ≠ kfd).
  { intros v' kfd' fl' pa' Hd He ->. by apply Hd, (mt_inj _ _ Hm _ _ _ _ _ _ _ He Hv). }
  split; [split|].
  - intros v' kfd' fl' pa' [Hd He]%lookup_delete_Some. rewrite lookup_delete_ne; [by eapply mt_open|].
    intros <-. by apply (Hne _ _ _ _ (not_eq_sym Hd)) in He.
  - intros v1 v2 kfd' fl1 pa1 fl2 pa2 [_ H1]%lookup_delete_Some [_ H2]%lookup_delete_Some.
    by eapply mt_inj.
  - intros kfd' [Hd Hs]%lookup_delete_is_Some. destruct (mt_all _ _ Hm _ Hs) as (v' & fl' & pa' & He).
    exists v', fl', pa'. rewrite lookup_delete_ne; [done|]. intros <-. congruence.
  - apply map_eq. intros v'. rewrite view_lookup. destruct (decide (v' = v)) as [->|Hd].
    { by rewrite !lookup_delete_eq. }
    rewrite !lookup_delete_ne, view_lookup by done. destruct (m !! v') as [[kfd' fl' pa'|]|] eqn:He; [|done..].
    cbn. rewrite lookup_delete_ne; [done|]. intros <-. by apply Hne in He.
Qed.

Lemma matched_remove_virtual m ks v f fl pa :
  matched m ks → m !! v = Some (Virtual f fl pa) →
  matched (base.delete v m) ks ∧ view (base.delete v m) ks = base.delete v (view m ks).
Proof.
  intros Hm Hv. split; [split|].
  - intros v' kfd' fl' pa' [_ He]%lookup_delete_Some. by eapply mt_open.
  - intros v1 v2 kfd' fl1 pa1 fl2 pa2 [_ H1]%lookup_delete_Some [_ H2]%lookup_delete_Some.
    by eapply mt_inj.
  - intros kfd' Hs. destruct (mt_all _ _ Hm _ Hs) as (v' & fl' & pa' & He).
    exists v', fl', pa'. rewrite lookup_delete_ne; [done|]. intros <-. congruence.
  - apply map_eq. intros v'. rewrite view_lookup. destruct (decide (v' = v)) as [->|Hd].
    { by rewrite !lookup_delete_eq. }
    by rewrite !lookup_delete_ne, view_lookup by done.
Qed.
End Maps.
Arguments Desc : clear implicits.

(** ** What the kernel promises *)

Definition lowest {A} (m : gmap Z A) (min fd : Z) : Prop :=
  min <= fd < i32_MAX ∧ m !! fd = None ∧ ∀ x, min <= x < fd → is_Some (m !! x).

(** Calls that neither open nor close a descriptor of the kernel. *)
Definition keeps_fds `{LibcSys} (c : Call) : bool :=
  match c with
  | Other nr _ => negb (existsb (Z.eqb nr) process_calls)
  | Openat _ _ _ _ | Close _ | Dup _ | Dup2 _ _ | Dup3 _ _ _ | Pipe2 _ _ | Socket _ _ _
  | Fcntl _ (F_DUPFD _) | Fcntl _ (F_DUPFD_CLOEXEC _)
  | Fork | Vfork | Clone _ | Clone3 | Unsupported _ _ => false
  | _ => true
  end.

Section Descriptors.
Context {S K O : Type} {V : VirtualFs.t S} {Sys : LibcSys} {IO : LibcIo}.
Context (kernel : Call → K → KReply * K) (mount_table : MountTable) (unset : Z).
(** The open descriptors of the process in the kernel, and what they denote. *)
Context (ofds : K → gmap Z O).
Abbreviation Ref := VirtualFs.FileRef.
Abbreviation Process := (Proc (K := K)).
Abbreviation H := (SM Process).

(** A call that opens: it fails and changes nothing, or returns a descriptor that was not open,
    for a file of which [P] holds. *)
Definition opens (r : KReply * K) (k : K) (P : O → Prop) : Prop :=
  (ret r.1 < 0 ∧ ofds r.2 = ofds k) ∨
  (0 <= ret r.1 ∧ ofds k !! ret r.1 = None ∧ ∃ o, P o ∧ ofds r.2 = <[ret r.1 := o]> (ofds k)).
Definition fails (r : KReply * K) (k : K) : Prop := ret r.1 < 0 ∧ ofds r.2 = ofds k.

Class KernelFds : Prop := {
  k_openat dirfd path flags mode k :
    opens (kernel (Openat dirfd (Some path) flags mode) k) k (λ _, True);
  k_openat_null dirfd flags mode k : fails (kernel (Openat dirfd None flags mode) k) k;
  k_socket domain ty protocol k : opens (kernel (Socket domain ty protocol) k) k (λ _, True);
  k_dup fd k : opens (kernel (Dup fd) k) k (λ o, ofds k !! fd = Some o);
  k_dupfd fd arg k : opens (kernel (Fcntl fd (F_DUPFD arg)) k) k (λ o, ofds k !! fd = Some o);
  k_dupfd_cloexec fd arg k :
    opens (kernel (Fcntl fd (F_DUPFD_CLOEXEC arg)) k) k (λ o, ofds k !! fd = Some o);
  k_dup2 fd fd' k : ofds k !! fd = None → fails (kernel (Dup2 fd fd') k) k;
  k_dup3 fd fd' flags k : ofds k !! fd = None → fails (kernel (Dup3 fd fd' flags) k) k;
  k_close fd k : ofds (kernel (Close fd) k).2 = base.delete fd (ofds k);
  k_close_ok fd k : is_Some (ofds k !! fd) → 0 <= ret (kernel (Close fd) k).1;
  k_pipe2 pipefd flags k :
    (ret (kernel (Pipe2 pipefd flags) k).1 ≠ 0 ∧
       ofds (kernel (Pipe2 pipefd flags) k).2 = ofds k) ∨
    (ret (kernel (Pipe2 pipefd flags) k).1 = 0 ∧ pipefd ≠ 0 ∧ ∃ fd1 fd2 o1 o2,
       words (kernel (Pipe2 pipefd flags) k).1 = [fd1; fd2] ∧ fd1 ≠ fd2 ∧
       ofds k !! fd1 = None ∧ ofds k !! fd2 = None ∧
       ofds (kernel (Pipe2 pipefd flags) k).2 = <[fd2 := o2]> (<[fd1 := o1]> (ofds k)));
  k_keeps c k : keeps_fds c = true → ofds (kernel c k).2 = ofds k
}.
Context {HK : KernelFds}.

(** ** What the process is promised *)

Abbreviation Table := (gmap Z (Desc Ref O)).

(** A new descriptor, the lowest at or above [min], for what [P] says; or an error. *)
Definition gets (m : Table) (min : Z) (P : Desc Ref O → Prop) (v : Z) (m' : Table) : Prop :=
  (v < 0 ∧ m' = m) ∨ (∃ d, P d ∧ lowest m min v ∧ m' = <[v := d]> m).

(** The effect of a call on the descriptors, and what it returns. *)
Definition posix (c : Call) (m : Table) (v : Z) (out : Out) (m' : Table) : Prop :=
  match c with
  | Openat _ _ _ _ | Socket _ _ _ => gets m FIRST_USER_FD (λ _, True) v m'
  | Close fd => m' = base.delete fd m
  | Dup fd => gets m FIRST_USER_FD (λ d, m !! fd = Some d) v m'
  | Fcntl fd (F_DUPFD min) | Fcntl fd (F_DUPFD_CLOEXEC min) =>
      gets m min (λ d, m !! fd = Some d) v m'
  | Dup2 fd fd' | Dup3 fd fd' _ =>
      (v < 0 ∧ m' = m) ∨ (∃ d, m !! fd = Some d ∧ v = fd' ∧ m' = <[fd' := d]> m)
  | Pipe2 _ _ =>
      (v ≠ 0 ∧ m' = m) ∨
      (v = 0 ∧ ∃ fd1 fd2 d1 d2, out = OutFds [fd1; fd2] ∧ lowest m FIRST_USER_FD fd1 ∧
         lowest (<[fd1 := d1]> m) FIRST_USER_FD fd2 ∧ m' = <[fd2 := d2]> (<[fd1 := d1]> m))
  | _ => m' = m
  end.

(** Descriptors are the process's own: those that it closes or duplicates are in its table, or
    not in the kernel's.  The start and the end of a process are not looked at. *)
Definition own (p : Process) (fd : Z) : Prop :=
  is_Some (entries (fd_table p) !! fd) ∨ ofds (kernel_state p) !! fd = None.
(** The numbers of the process, and those of the kernel, fit into a set. *)
Definition selectable (p : Process) (nfds : Z) : Prop :=
  nfds <= FD_SETSIZE ∧
  map_Forall (λ _ e, match kernel_fd_of e with Some kfd => kfd < FD_SETSIZE | None => True end)
    (entries (fd_table p)).
Definition admissible (p : Process) (c : Call) : Prop :=
  match c with
  | Pselect6 nfds _ _ _ _ _ => selectable p nfds
  | Close fd | Dup fd => own p fd
  | Dup2 fd fd' | Dup3 fd fd' _ => own p fd ∧ 0 <= fd' < i32_MAX
  | Fcntl fd (F_DUPFD _) | Fcntl fd (F_DUPFD_CLOEXEC _) =>
      is_Some (translate fd (fd_table p)) ∨ ofds (kernel_state p) !! fd = None
  | Other _ _ => keeps_fds c = true
  | Fork | Vfork | Clone _ | Clone3 => False
  | _ => True
  end.

#[export] Instance own_dec p fd : Decision (own p fd).
Proof. apply _. Defined.
#[export] Instance selectable_dec p nfds : Decision (selectable p nfds).
Proof.
  apply and_dec; [apply _|]. apply map_Forall_dec. intros _ e. destruct (kernel_fd_of e); apply _.
Defined.
#[export] Instance admissible_dec p c : Decision (admissible p c).
Proof. unfold admissible. destruct c; try apply _. destruct cmd; apply _. Defined.

Definition seen (p : Process) : Table := view (entries (fd_table p)) (ofds (kernel_state p)).
Record good (p : Process) : Prop := {
  gd_table : table_ok (fd_table p);
  gd_matched : matched (entries (fd_table p)) (ofds (kernel_state p))
}.

Lemma lowest_view (m : gmap Z (FdEntry Ref)) (ks : gmap Z O) min fd : matched m ks →
  FdSpec.lowest m min fd → lowest (view m ks) min fd.
Proof.
  intros Hm (Hr & Hn & Hb). split_and!; [apply Hr..|by apply view_none|].
  intros x Hx. destruct (Hb x Hx) as [e He]. apply (view_some _ _ _ _ Hm) in He as [d Hd]. by exists d.
Qed.

(** ** Running a handler

    Every operation of a virtual filesystem may panic, which ends the process that serves the
    calls; nothing else does. *)

Inductive vfs_op : ∀ {A}, VM S A → Prop :=
| OpOpen v path flags mode : vfs_op (VirtualFs.open v path flags mode)
| OpStat v path : vfs_op (VirtualFs.stat v path)
| OpLstat v path : vfs_op (VirtualFs.lstat v path)
| OpSymlink v target path : vfs_op (VirtualFs.symlink v target path)
| OpReadlink v path : vfs_op (VirtualFs.readlink v path)
| OpLink v old new : vfs_op (VirtualFs.link v old new)
| OpRead f n : vfs_op (VirtualFs.read f n)
| OpWrite f data : vfs_op (VirtualFs.write f data)
| OpSeek f offset whence : vfs_op (VirtualFs.seek f offset whence)
| OpFstat f : vfs_op (VirtualFs.fstat f)
| OpGetdents f : vfs_op (VirtualFs.getdents f)
| OpClose f : vfs_op (VirtualFs.close f).
#[local] Hint Constructors vfs_op : core.

Definition vfs_panics : Prop := ∃ A (m : VM S A) s, vfs_op m ∧ (m s).1 = VPanic.

(** The handler returns, with a result of which [Q] holds, or an error of which [E] does. *)
Definition wp {A} (m : H A) (E : Z → Process → Prop) (Q : A → Process → Prop) (p : Process) : Prop :=
  match m p with
  | (SOk a, p') => Q a p'
  | (SErr e, p') => E e p'
  | (SPanic, _) => vfs_panics
  end.

Lemma wp_bind {A B} (m : H A) (f : A → H B) E Q p :
  wp m E (λ a, wp (f a) E Q) p → wp (m ≫= f) E Q p.
Proof. unfold wp, mbind, SM_bind. by destruct (m p) as [[a|e|] p1]. Qed.
Lemma wp_mono {A} (m : H A) (E E' : Z → Process → Prop) (Q Q' : A → Process → Prop) p :
  wp m E Q p → (∀ e p', E e p' → E' e p') → (∀ a p', Q a p' → Q' a p') → wp m E' Q' p.
Proof. unfold wp. destruct (m p) as [[a|e|] p1]; auto. Qed.

Lemma wp_virtual {A} (m : VM S A) E Q p : vfs_op m →
  (∀ r s, Q r (mkProc (fd_table p) s (kernel_state p))) → wp (virtual m) E Q p.
Proof.
  intros Hop HQ. unfold wp, virtual. destruct (m (vfs_state p)) as [[a|e|] s] eqn:Hm; [apply HQ..|].
  exists A, m, (vfs_state p). by rewrite Hm.
Qed.

(** The process when the kernel has executed a call. *)
Definition after (c : Call) (p : Process) : Process :=
  mkProc (fd_table p) (vfs_state p) (kernel c (kernel_state p)).2.
Lemma wp_inject c E (Q : KReply → Process → Prop) p :
  let r := (kernel c (kernel_state p)).1 in
  (ret r < 0 → E (- ret r) (after c p)) → (0 <= ret r → Q r (after c p)) →
  wp (inject kernel c) E Q p.
Proof.
  unfold wp, inject, after. destruct (kernel _ _) as [r k]. cbn.
  destruct (Z.ltb_spec (ret r) 0); auto.
Qed.

(** ** Calls that leave the descriptors *)

Definition keeps (p p' : Process) : Prop :=
  fd_table p' = fd_table p ∧ ofds (kernel_state p') = ofds (kernel_state p).
Class Same {A} (m : H A) := same p : wp m (λ _, keeps p) (λ _, keeps p) p.
Class Neutral (m : H SyscallResult) :=
  neutral p : wp m (λ _, keeps p) (λ r p', keeps p p' ∧ ∀ c, r = Syscall c → keeps_fds c = true) p.
#[local] Hint Mode Same + ! : typeclass_instances.
#[local] Hint Mode Neutral ! : typeclass_instances.

Lemma keeps_trans p1 p2 p3 : keeps p1 p2 → keeps p2 p3 → keeps p1 p3.
Proof. intros [H1 H2] [H3 H4]. split; congruence. Qed.

#[local] Instance get_same fd : Same (table_get fd).
Proof. done. Qed.
#[local] Instance translate_same fd : Same (table_translate fd).
Proof. done. Qed.
#[local] Instance dirfd_same fd : Same (table_dirfd fd).
Proof. done. Qed.
Lemma virtual_same {A} (m : VM S A) : vfs_op m → Same (virtual m).
Proof. intros Hop p. by apply wp_virtual. Qed.
#[local] Hint Extern 1 (Same (virtual _)) => (apply virtual_same; repeat case_match; constructor) : typeclass_instances.
Lemma inject_same c : keeps_fds c = true → Same (inject kernel c).
Proof. intros Hc p. apply wp_inject; (split; [done|]; by apply k_keeps). Qed.
#[local] Hint Extern 1 (Same (inject kernel _)) => (apply inject_same; reflexivity) : typeclass_instances.
#[local] Instance value_neutral v : Neutral (value v).
Proof. done. Qed.
#[local] Instance ret_neutral v out : Neutral (mret (Value v out)).
Proof. done. Qed.
Lemma syscall_neutral c : keeps_fds c = true → Neutral (syscall c).
Proof. intros Hc p. split; [done|]. by intros c' [= <-]. Qed.
#[local] Hint Extern 1 (Neutral (syscall _)) => (apply syscall_neutral; reflexivity || assumption) : typeclass_instances.
#[local] Instance bind_neutral {A} (m : H A) (f : A → H SyscallResult) :
  Same m → (∀ a, Neutral (f a)) → Neutral (m ≫= f).
Proof.
  intros Hm Hf p. apply wp_bind. eapply wp_mono; [apply Hm|done|]. intros a p1 Hk.
  eapply wp_mono; [apply Hf|..].
  - intros e p2 Hk'. exact (keeps_trans _ _ _ Hk Hk').
  - intros r p2 [Hk' Hr]. split; [exact (keeps_trans _ _ _ Hk Hk')|done].
Qed.
#[local] Hint Extern 0 (Neutral (match ?x with _ => _ end)) => destruct x : typeclass_instances.
#[local] Hint Extern 0 (Same (match ?x with _ => _ end)) => destruct x : typeclass_instances.
#[local] Hint Extern 2 (Same (λ _, (SOk _, _))) => (intros ?; split; reflexivity) : typeclass_instances.

Definition selects (c : Call) : bool := match c with Pselect6 _ _ _ _ _ _ => true | _ => false end.
Lemma dispatch_neutral c : keeps_fds c = true → selects c = false →
  Neutral (dispatch_syscall kernel mount_table unset c).
Proof.
  intros Hc Hs. destruct c; try discriminate Hc; try discriminate Hs; cbn [dispatch_syscall];
    unfold handle_read, handle_write, handle_lseek, handle_fstat, handle_getdents64, handle_fcntl,
      handle_ioctl, handle_pread64, handle_pwrite64, handle_mmap, handle_readv, handle_writev,
      handle_sendto, handle_connect, handle_getpeername, handle_poll,
      handle_access, handle_unlink, handle_rmdir, handle_chdir, handle_statfs, handle_llistxattr,
      handle_lgetxattr, handle_rename, handle_faccessat2, handle_faccessat, handle_fchownat,
      handle_chmod, handle_statx, handle_newfstatat, handle_readlink, handle_readlinkat,
      handle_symlink, handle_symlinkat, handle_linkat, virtual_readlink, created, served, on_fd,
      on_kernel_fd, with_path, with_path_now, at_call; cbv zeta.
  all: try apply _.
  destruct cmd; [discriminate Hc..|]. apply _.
Qed.

(** A set that fits is translated; what follows is as it would be without a panic. *)
Lemma translate_fits p l nfds : selectable p nfds →
  ∃ kset, translate_to_kernel l nfds (fd_table p) = Some kset.
Proof.
  intros [Hn Hall]. unfold translate_to_kernel. apply Z.leb_le in Hn as ->.
  replace (forallb _ _) with true; [by eexists|]. symmetry. apply forallb_forall.
  intros kfd Hin%list_elem_of_In. apply list_elem_of_omap in Hin as (vfd & _ & Hv).
  case_bool_decide; [|done]. apply bind_Some in Hv as (e & He & Hk).
  specialize (Hall vfd e He). cbn in Hall. rewrite Hk in Hall. by apply Z.ltb_lt.
Qed.

Lemma wp_kernel_set E Q p l nfds : selectable p nfds → (∀ r, Q r p) →
  wp (kernel_set l nfds (fd_table p)) E Q p.
Proof.
  intros Hfit HQ. unfold wp, kernel_set. destruct l as [l|]; [|apply HQ].
  destruct (translate_fits p l nfds Hfit) as [[kset max] ->]. apply HQ.
Qed.

Lemma pselect_neutral nfds r w x timeout sigmask p : selectable p nfds →
  wp (handle_pselect6 kernel nfds r w x timeout sigmask) (λ _, keeps p)
    (λ r p', keeps p p' ∧ ∀ c, r = Syscall c → keeps_fds c = true) p.
Proof.
  intros Hfit. unfold handle_pselect6. apply wp_bind. unfold wp at 1.
  apply wp_bind, wp_kernel_set; [done|]. intros [kr mr].
  apply wp_bind, wp_kernel_set; [done|]. intros [kw mw].
  apply wp_bind, wp_kernel_set; [done|]. intros [kx mx].
  cbv zeta. match goal with |- wp ?m _ _ _ => cut (Neutral m) end; [by intros H|apply _].
Qed.

Lemma neutral_at c p : keeps_fds c = true → admissible p c →
  wp (dispatch_syscall kernel mount_table unset c) (λ _, keeps p)
    (λ r p', keeps p p' ∧ ∀ c, r = Syscall c → keeps_fds c = true) p.
Proof.
  intros Hc Ha. destruct (selects c) eqn:Hs; [|by apply dispatch_neutral].
  destruct c; try discriminate Hs. by apply pselect_neutral.
Qed.

(** ** Taking a new number *)

(** There is room in the table for the entries that a call makes. *)
Definition room (p : Process) (c : Call) : Prop :=
  let used := Z.of_nat (size (entries (fd_table p))) in
  used + 2 <= i32_MAX - FIRST_USER_FD ∧
  match c with
  | Fcntl _ (F_DUPFD min) | Fcntl _ (F_DUPFD_CLOEXEC min) => used + 1 <= i32_MAX - min
  | _ => True
  end.

#[export] Instance room_dec p c : Decision (room p c).
Proof.
  unfold room. cbv zeta. apply and_dec; [apply _|]. destruct c; try apply _. destruct cmd; apply _.
Defined.

Definition takes_lowest (alloc : FdEntry Ref → FdTable Ref → option (Z * FdTable Ref)) (min : Z) : Prop :=
  ∀ t e, table_ok t → Z.of_nat (size (entries t)) + 1 <= i32_MAX - min →
    ∃ fd t', alloc e t = Some (fd, t') ∧
      FdSpec.lowest (entries t) min fd ∧ entries t' = <[fd := e]> (entries t) ∧ table_ok t'.

Lemma not_full (m : gmap Z (FdEntry Ref)) min :
  Z.of_nat (size m) + 1 <= i32_MAX - min → ¬ FdSpec.full m min.
Proof.
  intros Hsize Hfull. pose proof (run_length m min (Z.to_nat (i32_MAX - min))) as Hrun.
  enough (Z.to_nat (i32_MAX - min) <= size m)%nat by lia. apply Hrun. intros x Hx. apply Hfull. lia.
Qed.

Lemma allocate_takes : takes_lowest allocate FIRST_USER_FD.
Proof.
  intros t e Hok Hroom. pose proof (allocate_spec t e Hok) as Hs.
  destruct (allocate e t) as [[fd t']|]; [by eauto|]. by apply not_full in Hs.
Qed.
Lemma allocate_min_takes min : takes_lowest (allocate_min min) min.
Proof.
  intros t e Hok Hroom. pose proof (allocate_min_spec t min e Hok) as Hs.
  destruct (allocate_min min e t) as [[fd t']|]; [by eauto|]. by apply not_full in Hs.
Qed.

(** A file of a virtual filesystem. *)
Lemma new_virtual_fd alloc min E (p : Process) f flags path :
  takes_lowest alloc min → good p →
  Z.of_nat (size (entries (fd_table p))) + 1 <= i32_MAX - min →
  wp (table_op (alloc (Virtual f flags path))) E
    (λ v p', good p' ∧ lowest (seen p) min v ∧ seen p' = <[v := VirtualFile f]> (seen p)) p.
Proof.
  intros Htakes Hg Hroom. unfold wp, table_op.
  destruct (Htakes _ (Virtual f flags path) (gd_table _ Hg) Hroom) as (v & t & -> & Hlow & He & Hok).
  destruct (matched_new_virtual _ _ v f flags path (gd_matched _ Hg) (proj1 (proj2 Hlow))) as [Hm Hv].
  split_and!; [|by apply lowest_view; [apply gd_matched|]..|]; [split; [done|]|]; unfold seen;
    cbn [fd_table kernel_state]; by rewrite He.
Qed.

(** A descriptor that the kernel has opened. *)
Lemma allocate_kernel alloc min (t : FdTable Ref) (ks : gmap Z O) kfd o flags path :
  takes_lowest alloc min → table_ok t → matched (entries t) ks →
  Z.of_nat (size (entries t)) + 1 <= i32_MAX - min → ks !! kfd = None →
  ∃ v t', alloc (Passthrough kfd flags path) t = Some (v, t') ∧
    lowest (view (entries t) ks) min v ∧ table_ok t' ∧
    matched (entries t') (<[kfd := o]> ks) ∧
    view (entries t') (<[kfd := o]> ks) = <[v := KernelFile o]> (view (entries t) ks) ∧
    size (entries t') = (1 + size (entries t))%nat.
Proof.
  intros Htakes Hok Hm Hroom Hnew.
  destruct (Htakes _ (Passthrough kfd flags path) Hok Hroom) as (v & t' & Ha & Hlow & He & Hok').
  destruct (matched_new_kernel _ _ v kfd flags path o Hm (proj1 (proj2 Hlow)) Hnew) as [Hm' Hv].
  exists v, t'. rewrite He. split_and!; [done|by apply lowest_view..|done|done|done|].
  by apply map_size_insert_None, Hlow.
Qed.

Lemma new_kernel_fd alloc min E (p p1 : Process) kfd o flags path :
  takes_lowest alloc min → good p →
  Z.of_nat (size (entries (fd_table p))) + 1 <= i32_MAX - min →
  fd_table p1 = fd_table p → ofds (kernel_state p) !! kfd = None →
  ofds (kernel_state p1) = <[kfd := o]> (ofds (kernel_state p)) →
  wp (table_op (alloc (Passthrough kfd flags path))) E
    (λ v p', good p' ∧ lowest (seen p) min v ∧ seen p' = <[v := KernelFile o]> (seen p)) p1.
Proof.
  intros Htakes [Hok Hm] Hroom Ht Hnew Ho. unfold wp, table_op. rewrite Ht.
  destruct (allocate_kernel _ _ _ _ kfd o flags path Htakes Hok Hm Hroom Hnew)
    as (v & t & -> & Hlow & Hok' & Hm' & Hv & _).
  split_and!; [|done|]; [split; [done|]|]; unfold seen; cbn [fd_table kernel_state]; by rewrite Ho.
Qed.

(** ** Calls that open *)

(** The call ends well, and [R] holds of what it returns and of the descriptors it leaves. *)
Definition failed (R : Z → Out → Table → Prop) (e : Z) (p : Process) : Prop :=
  good p ∧ R (- e) NoOut (seen p).
Definition ends (R : Z → Out → Table → Prop) (r : SyscallResult) : Process → Prop :=
  wp (finish kernel r) (failed R) (λ vo p', good p' ∧ R vo.1 vo.2 (seen p')).

(** A kernel call that fails, or changes no descriptor, changes nothing. *)
Lemma good_same p p' : good p → fd_table p' = fd_table p →
  ofds (kernel_state p') = ofds (kernel_state p) → good p' ∧ seen p' = seen p.
Proof. intros [Hok Hm] Ht Hk. unfold seen. rewrite Ht, Hk. split; [|done]. by split; rewrite ?Ht, ?Hk. Qed.

Lemma ends_fails (R : Z → Out → Table → Prop) c p :
  good p → fails (kernel c (kernel_state p)) (kernel_state p) →
  (∀ v, v < 0 → R v NoOut (seen p)) → ends R (Syscall c) p.
Proof.
  intros Hg [Hr Ho] HR. apply wp_bind, wp_inject; [intros _|lia].
  destruct (good_same p (after c p) Hg) as [Hg' Hs]; [done..|]. split; [done|].
  rewrite Z.opp_involutive, Hs. by apply HR.
Qed.

(** [opens] of a file that is not there fails. *)
Lemma opens_nothing r k P : (∀ o, ¬ P o) → opens r k P → fails r k.
Proof. intros HP [?|(_ & _ & o & Ho & _)]; [done|]. by destruct (HP o). Qed.

(** The handlers that open: the call, and a new number. *)
Lemma wp_open alloc min c P (R : Z → Out → Table → Prop) (p : Process)
    (f : KReply → H SyscallResult) flags path :
  takes_lowest alloc min → good p →
  Z.of_nat (size (entries (fd_table p))) + 1 <= i32_MAX - min →
  opens (kernel c (kernel_state p)) (kernel_state p) P →
  (∀ r s k, 0 <= ret r → f r (mkProc (fd_table p) s k) =
     (v ← table_op (alloc (Passthrough (ret r) flags path)); value v) (mkProc (fd_table p) s k)) →
  (∀ v m', gets (seen p) min (λ d, ∃ o, d = KernelFile o ∧ P o) v m' → R v NoOut m') →
  wp (r ← inject kernel c; f r) (failed R) (ends R) p.
Proof.
  intros Htakes Hg Hroom Hopens Hpos HR.
  apply wp_bind, wp_inject; intros Hr; destruct Hopens as [[Hr' Ho]|(Hr' & Hnew & o & HP & Ho)]; [|lia..|].
  - destruct (good_same p (after c p) Hg) as [Hg' Hs]; [done..|]. split; [done|]. apply HR.
    left. rewrite Z.opp_involutive, Hs. done.
  - unfold wp at 1, after. rewrite Hpos by done. apply wp_bind.
    eapply wp_mono; [by eapply (new_kernel_fd _ _ (λ _ _, False))|done|]. intros v p' (Hg' & Hl & Hs).
    split; [done|]. apply HR. right. exists (KernelFile o). split_and!; [by exists o|done..].
Qed.

(** ** The calls *)

Abbreviation Answers c p :=
  (wp (dispatch_syscall kernel mount_table unset c) (failed (posix c (seen p)))
     (ends (posix c (seen p))) p).

Lemma wp_reads {A} (g : Process → A) E Q p : Q (g p) p → wp (λ p, (SOk (g p), p)) E Q p.
Proof. done. Qed.
Lemma gets_weaken m min (P Q : Desc Ref O → Prop) v m' : (∀ d, P d → Q d) → gets m min P v m' →
  gets m min Q v m'.
Proof. intros HPQ [|(d & HP & Hl & Hm)]; [by left|right]. exists d. auto. Qed.


Lemma errno_neg : - ENOENT < 0 ∧ - EACCES < 0 ∧ - EIO < 0 ∧ - EBADF < 0.
Proof. pose proof errno_pos as Hpos. rewrite !Forall_cons in Hpos. lia. Qed.
Lemma vfs_errno_neg e : vfs_errno EIO e < 0.
Proof. pose proof errno_neg. destruct e; cbn; lia. Qed.
Lemma ends_error (R : Z → Out → Table → Prop) v p :
  good p → v < 0 → (∀ v, v < 0 → R v NoOut (seen p)) → wp (value v) (failed R) (ends R) p.
Proof. intros Hg Hv HR. split; [done|]. by apply HR. Qed.

Lemma seen_passthrough p fd kfd flags path o :
  entries (fd_table p) !! fd = Some (Passthrough kfd flags path) →
  ofds (kernel_state p) !! kfd = Some o → seen p !! fd = Some (KernelFile o).
Proof. intros He Ho. unfold seen. rewrite view_lookup, He. cbn. by rewrite Ho. Qed.
Lemma seen_virtual p fd f flags path :
  entries (fd_table p) !! fd = Some (Virtual f flags path) → seen p !! fd = Some (VirtualFile f).
Proof. intros He. unfold seen. by rewrite view_lookup, He. Qed.

#[local] Ltac by_sign :=
  intros r s k Hr; cbv beta;
  match goal with
  | |- context [0 <=? _] => destruct (Z.leb_spec 0 (ret r))
  | |- context [_ <? 0] => destruct (Z.ltb_spec (ret r) 0)
  end; done || lia.

Lemma openat_posix dirfd path flags mode p :
  good p → room p (Openat dirfd path flags mode) → Answers (Openat dirfd path flags mode) p.
Proof.
  intros Hg [Hroom _]. cbn [dispatch_syscall]. unfold handle_openat.
  destruct path as [original|].
  2:{ apply ends_fails; [done|apply k_openat_null|]. intros v Hv. by left. }
  apply wp_bind, wp_reads. destruct (at_dirfd dirfd original (fd_table p)) as [[kdirfd path]|].
  2:{ apply ends_error; [done|pose proof errno_neg; lia|]. intros v Hv. by left. }
  assert (Hopen : ∀ path', wp (kernel_open kernel (Openat kdirfd (Some path') flags mode) flags path)
    (failed (posix (Openat dirfd (Some original) flags mode) (seen p)))
    (ends (posix (Openat dirfd (Some original) flags mode) (seen p))) p).
  { intros path'. apply (wp_open allocate FIRST_USER_FD _ (λ _, True) _ _ _ flags (Some path));
      [apply allocate_takes|done|lia|apply k_openat|by_sign|].
    intros v m'. by apply gets_weaken. }
  destruct (resolve mount_table path) as [[v ?]|]; [|apply Hopen].
  destruct (is_virtual v); [|apply Hopen].
  apply wp_bind, wp_virtual; [done|]. intros [e|f] vs.
  - apply ends_error; [by apply (good_same p)|apply vfs_errno_neg|].
    intros v' Hv. by left.
  - eapply wp_bind, wp_mono; [apply (new_virtual_fd allocate FIRST_USER_FD (λ _ _, False));
      [apply allocate_takes|by apply (good_same p)|cbn; lia]|done|].
    intros v' p' (Hg' & Hl & Hs). split; [done|]. right. by exists (VirtualFile f).
Qed.

Lemma socket_posix domain ty protocol p :
  good p → room p (Socket domain ty protocol) → Answers (Socket domain ty protocol) p.
Proof.
  intros Hg [Hroom _]. cbn [dispatch_syscall]. unfold handle_socket.
  apply (wp_open allocate FIRST_USER_FD _ (λ _, True) _ _ _ 0 None);
    [apply allocate_takes|done|lia|apply k_socket|by_sign|].
  intros v m'. by apply gets_weaken.
Qed.

(** A descriptor that is its own, but not in the table, is not open. *)
Lemma own_unknown p fd : own p fd → entries (fd_table p) !! fd = None →
  ofds (kernel_state p) !! fd = None.
Proof. intros [[e He]|Hk] Hn; [congruence|done]. Qed.

Lemma dup_gets p fd kfd flags path d :
  entries (fd_table p) !! fd = Some (Passthrough kfd flags path) →
  (∃ o, d = KernelFile o ∧ ofds (kernel_state p) !! kfd = Some o) → seen p !! fd = Some d.
Proof. intros He (o & -> & Ho). by eapply seen_passthrough. Qed.

Lemma dup_posix fd p : good p → own p fd → room p (Dup fd) → Answers (Dup fd) p.
Proof.
  intros Hg Hown [Hroom _]. cbn [dispatch_syscall]. unfold handle_dup.
  apply wp_bind, wp_reads. unfold get at 1.
  destruct (entries (fd_table p) !! fd) as [[kfd flags path|f flags path]|] eqn:He.
  - apply (wp_open allocate FIRST_USER_FD _ (λ o, ofds (kernel_state p) !! kfd = Some o) _ _ _ flags path);
      [apply allocate_takes|done|lia|apply k_dup|by_sign|].
    intros v m'. apply gets_weaken. intros d Hd. by eapply dup_gets.
  - apply wp_bind. unfold wp, table_op, duplicate, get. rewrite He. cbn [mbind option_bind].
    pose proof (new_virtual_fd allocate FIRST_USER_FD (λ _ _, False) p f flags path allocate_takes Hg
      ltac:(lia)) as Hwp.
    unfold wp, table_op in Hwp. destruct (allocate _ _) as [[v t]|]; [|apply Hwp].
    destruct Hwp as (Hg' & Hl & Hs). split; [done|]. right. exists (VirtualFile f).
    split_and!; [by eapply seen_virtual|done..].
  - apply ends_fails; [done|eapply opens_nothing; [|apply k_dup]|].
    + rewrite (own_unknown _ _ Hown He). by intros o.
    + intros v Hv. by left.
Qed.

Lemma fcntl_posix fd cmd p :
  good p → admissible p (Fcntl fd cmd) → room p (Fcntl fd cmd) → keeps_fds (Fcntl fd cmd) = false →
  Answers (Fcntl fd cmd) p.
Proof.
  intros Hg Hown [_ Hroom] Hcmd. cbn [dispatch_syscall]. unfold handle_fcntl.
  apply wp_bind, wp_reads. destruct (translate fd (fd_table p)) as [kfd|] eqn:Htr.
  - apply bind_Some in Htr as ([kfd' fl pa|] & He & [= ->]). unfold translate.
    destruct cmd as [min|min|]; [..|discriminate Hcmd]; cbv zeta.
    + apply (wp_open (allocate_min min) min _ (λ o, ofds (kernel_state p) !! kfd = Some o) _ _ _ 0
        (get fd (fd_table p) ≫= path_of)); [apply allocate_min_takes|done|lia|apply k_dupfd|by_sign|].
      intros v m'. apply gets_weaken. intros d Hd. by eapply dup_gets.
    + apply (wp_open (allocate_min min) min _ (λ o, ofds (kernel_state p) !! kfd = Some o) _ _ _ O_CLOEXEC
        (get fd (fd_table p) ≫= path_of)); [apply allocate_min_takes|done|lia|apply k_dupfd_cloexec|by_sign|].
      intros v m'. apply gets_weaken. intros d Hd. by eapply dup_gets.
  - destruct cmd as [min|min|]; [..|discriminate Hcmd]; (destruct Hown as [[? ?]|Hn]; [congruence|]);
      (apply ends_fails; [done|eapply opens_nothing; [|apply k_dupfd || apply k_dupfd_cloexec]|]);
      try (intros v Hv; by left); rewrite Hn; by intros o.
Qed.

Lemma pipe2_posix pipefd flags p :
  good p → room p (Pipe2 pipefd flags) → Answers (Pipe2 pipefd flags) p.
Proof.
  intros Hg [Hroom _]. cbn [dispatch_syscall]. unfold handle_pipe2.
  destruct (k_pipe2 pipefd flags (kernel_state p)) as
    [[Hr Ho]|(Hr & Hp & fd1 & fd2 & o1 & o2 & Hw & Hne & Hn1 & Hn2 & Ho)].
  { apply wp_bind, wp_inject; intros Hneg.
    - split; [by apply (good_same p)|]. left. split; [lia|]. by apply (good_same p).
    - apply Z.eqb_neq in Hr as Hr'. rewrite Hr'. cbn [andb]. split; [by apply (good_same p)|]. left.
      split; [done|]. by apply (good_same p). }
  apply wp_bind, wp_inject; [lia|intros _]. unfold after.
  apply Z.eqb_neq in Hp as ->. rewrite Hr, Hw. cbn [Z.eqb andb negb].
  destruct Hg as [Hok Hm].
  destruct (allocate_kernel allocate FIRST_USER_FD _ _ fd1 o1 flags None allocate_takes Hok Hm)
    as (v1 & t1 & Ha1 & Hl1 & Hok1 & Hm1 & Hv1 & Hsz); [lia|done|].
  destruct (allocate_kernel allocate FIRST_USER_FD _ _ fd2 o2 flags None allocate_takes Hok1 Hm1)
    as (v2 & t2 & Ha2 & Hl2 & Hok2 & Hm2 & Hv2 & _); [lia|by rewrite lookup_insert_ne|].
  unfold wp, table_allocate, table_op, mbind, SM_bind. cbn [fd_table]. rewrite Ha1. cbn [fd_table].
  rewrite Ha2. cbn. split; [by split; cbn; rewrite ?Ho|]. right. split; [done|].
  exists v1, v2, (KernelFile o1), (KernelFile o2). unfold seen. cbn [fd_table kernel_state].
  rewrite Ho, Hv2, <-Hv1. by split_and!.
Qed.

(** ** Closing and replacing *)

(** The descriptors of the kernel without that of an entry. *)
Definition closed (e : option (FdEntry Ref)) (ks : gmap Z O) : gmap Z O :=
  match e with Some (Passthrough kfd _ _) => base.delete kfd ks | _ => ks end.

Lemma matched_closed m ks v : matched m ks →
  matched (base.delete v m) (closed (m !! v) ks) ∧
  view (base.delete v m) (closed (m !! v) ks) = base.delete v (view m ks).
Proof.
  intros Hm. destruct (m !! v) as [[kfd fl pa|f fl pa]|] eqn:He; cbn [closed].
  - by eapply matched_remove_kernel.
  - by eapply matched_remove_virtual.
  - rewrite !delete_id; [done|by apply view_none|done].
Qed.

Lemma wp_close_entry e E Q p :
  (∀ kfd fl pa, e = Some (Passthrough kfd fl pa) → is_Some (ofds (kernel_state p) !! kfd)) →
  (∀ p', fd_table p' = fd_table p →
     ofds (kernel_state p') = closed e (ofds (kernel_state p)) → Q tt p') →
  wp (close_entry kernel e) E Q p.
Proof.
  intros Hopen HQ. destruct e as [[kfd fl pa|f fl pa]|]; cbn [close_entry].
  - pose proof (k_close_ok _ _ (Hopen _ _ _ eq_refl)).
    apply wp_bind, wp_inject; [lia|]. intros _. apply HQ; [done|]. apply k_close.
  - apply wp_bind, wp_virtual; [done|]. intros r vs. by apply HQ.
  - by apply HQ.
Qed.

Lemma good_closed (p p' : Process) fd : good p → table_ok (fd_table p') →
  entries (fd_table p') = base.delete fd (entries (fd_table p)) →
  ofds (kernel_state p') = closed (entries (fd_table p) !! fd) (ofds (kernel_state p)) →
  good p' ∧ seen p' = base.delete fd (seen p).
Proof.
  intros [_ Hm] Hok He Ho. destruct (matched_closed _ _ fd Hm) as [Hm' Hv].
  unfold seen. rewrite He, Ho. split; [|done]. by split; rewrite ?He, ?Ho.
Qed.

Lemma close_posix fd p : good p → own p fd → Answers (Close fd) p.
Proof.
  intros Hg Hown. cbn [dispatch_syscall]. unfold handle_close.
  pose proof (deallocate_spec (fd_table p) fd (gd_table _ Hg)) as Hd.
  apply wp_bind. unfold wp at 1, table_op. destruct (deallocate fd (fd_table p)) as [old t'].
  destruct Hd as (-> & He & Hok). destruct (entries (fd_table p) !! fd) as [[kfd fl pa|f fl pa]|] eqn:Hfd.
  - apply wp_bind, wp_inject; intros _; (apply (good_closed p); [done..|]; rewrite Hfd; apply k_close).
  - apply wp_bind, wp_virtual; [done|]. intros r vs. apply (good_closed p); [done..|]. by rewrite Hfd.
  - apply wp_bind, wp_inject; intros _; (apply (good_closed p); [done..|]); rewrite Hfd;
      cbn [after kernel_state closed]; rewrite k_close; by apply delete_id, own_unknown.
Qed.

(** A number that takes a file in place of what it had. *)
Lemma good_replaced_kernel (p p' : Process) fd kfd fl pa o : good p → table_ok (fd_table p') →
  ofds (kernel_state p) !! kfd = None →
  entries (fd_table p') = <[fd := Passthrough kfd fl pa]> (entries (fd_table p)) →
  ofds (kernel_state p') =
    closed (entries (fd_table p) !! fd) (<[kfd := o]> (ofds (kernel_state p))) →
  good p' ∧ seen p' = <[fd := KernelFile o]> (seen p).
Proof.
  intros [_ Hm] Hok Hnew He Ho. destruct (matched_closed _ _ fd Hm) as [Hm' Hv].
  destruct (matched_new_kernel _ (closed (entries (fd_table p) !! fd) (ofds (kernel_state p)))
    fd kfd fl pa o Hm') as [Hm2 Hv2]; [by rewrite lookup_delete_eq|..].
  { destruct (_ !! fd) as [[]|]; cbn [closed]; [|done..]. by apply lookup_delete_None; right. }
  rewrite insert_delete_eq in Hm2, Hv2. rewrite Hv, insert_delete_eq in Hv2.
  assert (Hc : closed (entries (fd_table p) !! fd) (<[kfd := o]> (ofds (kernel_state p))) =
    <[kfd := o]> (closed (entries (fd_table p) !! fd) (ofds (kernel_state p)))).
  { destruct (_ !! fd) as [[kfd' fl' pa'|]|] eqn:Hfd; cbn [closed]; [|done..].
    apply delete_insert_ne. intros ->. destruct (mt_open _ _ Hm _ _ _ _ Hfd). congruence. }
  unfold seen. rewrite He, Ho, Hc. split; [|done]. by split; rewrite ?He, ?Ho, ?Hc.
Qed.

Lemma good_replaced_virtual (p p' : Process) fd f fl pa : good p → table_ok (fd_table p') →
  entries (fd_table p') = <[fd := Virtual f fl pa]> (entries (fd_table p)) →
  ofds (kernel_state p') = closed (entries (fd_table p) !! fd) (ofds (kernel_state p)) →
  good p' ∧ seen p' = <[fd := VirtualFile f]> (seen p).
Proof.
  intros [_ Hm] Hok He Ho. destruct (matched_closed _ _ fd Hm) as [Hm' Hv].
  destruct (matched_new_virtual _ _ fd f fl pa Hm') as [Hm2 Hv2]; [by rewrite lookup_delete_eq|].
  rewrite insert_delete_eq in Hm2, Hv2. rewrite Hv, insert_delete_eq in Hv2.
  unfold seen. rewrite He, Ho. split; [|done]. by split; rewrite ?He, ?Ho.
Qed.

Lemma wp_allocate_at fd e E (Q : option (FdEntry Ref) → Process → Prop) p :
  table_ok (fd_table p) → fd < i32_MAX →
  (∀ a t, table_ok t → entries t = <[fd := e]> (entries (fd_table p)) →
     Q a (mkProc t (vfs_state p) (kernel_state p))) →
  wp (table_op (allocate_at fd e)) E Q p.
Proof.
  intros Hok Hfd HQ. pose proof (allocate_at_spec (fd_table p) fd e Hok) as Hs.
  unfold wp, table_op. destruct (allocate_at _ _ _) as [[old t]|]; [|lia].
  destruct Hs as (_ & _ & He & Hok'). apply HQ; [apply Hok'; lia|done].
Qed.

(** [dup2] and [dup3]: the call as it is fails where the old number is unknown. *)
Lemma dup_onto_posix original oldfd newfd flags entry_flags p (R : Z → Out → Table → Prop) :
  good p → own p oldfd → newfd < i32_MAX →
  (ofds (kernel_state p) !! oldfd = None → fails (kernel original (kernel_state p)) (kernel_state p)) →
  (∀ v, v < 0 → R v NoOut (seen p)) →
  (∀ d, seen p !! oldfd = Some d → R newfd NoOut (<[newfd := d]> (seen p))) →
  wp (dup_onto kernel original oldfd newfd flags entry_flags) (failed R) (ends R) p.
Proof.
  intros Hg Hown Hmax Horig Herr Hdup. unfold dup_onto.
  apply wp_bind, wp_reads. unfold get at 1.
  destruct (entries (fd_table p) !! oldfd) as [e|] eqn:He.
  2:{ apply ends_fails; [done|by eapply Horig, own_unknown|done]. }
  apply wp_bind, wp_reads.
  assert (Hopen : ∀ kfd fl pa, entries (fd_table p) !! newfd = Some (Passthrough kfd fl pa) →
    is_Some (ofds (kernel_state p) !! kfd)) by apply Hg.
  destruct e as [kfd fl pa|f fl pa].
  - apply wp_bind, wp_inject; destruct (k_dup kfd (kernel_state p)) as [[Hr Ho]|(Hr & Hnew & o & Hkfd & Ho)];
      intros Hr'; [|lia..|].
    { destruct (good_same p (after (Dup kfd) p) Hg) as [Hg' Hs]; [done..|].
      split; [done|]. rewrite Hs. apply Herr. lia. }
    rewrite (proj2 (Z.ltb_ge _ _)) by done. apply wp_bind, wp_close_entry.
    { intros kfd' fl' pa' Hfd. cbn [after kernel_state]. rewrite Ho. apply lookup_insert_is_Some'.
      right. by eapply Hopen. }
    cbn [after fd_table kernel_state]. intros p1 Ht1 Hk1. apply wp_bind.
    apply wp_allocate_at; [rewrite Ht1; apply Hg|done|]. intros _ t Hok Het. rewrite Ht1 in Het.
    destruct (good_replaced_kernel p (mkProc t (vfs_state p1) (kernel_state p1)) newfd
      (ret (kernel (Dup kfd) (kernel_state p)).1) flags pa o) as [Hg' Hs]; [done..|by rewrite <-Ho|].
    split; [done|]. rewrite Hs. by eapply Hdup, seen_passthrough.
  - apply wp_bind, wp_close_entry; [done|]. intros p1 Ht1 Hk1. apply wp_bind.
    apply wp_allocate_at; [rewrite Ht1; apply Hg|done|]. intros _ t Hok Het. rewrite Ht1 in Het.
    destruct (good_replaced_virtual p (mkProc t (vfs_state p1) (kernel_state p1)) newfd
      f (entry_flags fl) pa) as [Hg' Hs]; [done..|].
    split; [done|]. rewrite Hs. by eapply Hdup, seen_virtual.
Qed.

Lemma neutral_posix c p : good p → keeps_fds c = true → admissible p c → Answers c p.
Proof.
  intros Hg Hc Ha.
  assert (Hposix : ∀ v out p', keeps p p' → good p' ∧ posix c (seen p) v out (seen p')).
  { intros v out p' [Ht Hk]. destruct (good_same p p' Hg) as [Hg' Hs]; [done..|]. split; [done|].
    rewrite Hs. destruct c; try discriminate Hc; try done. by destruct cmd. }
  eapply wp_mono; [by apply neutral_at|intros e p'; apply Hposix|].
  intros r p' [Hk Hr]. destruct r as [v out|c']; [by apply Hposix|].
  specialize (Hr c' eq_refl).
  apply wp_bind, wp_inject; intros _; (apply Hposix, (keeps_trans _ _ _ Hk); split; [done|]);
    by apply k_keeps.
Qed.

Lemma dispatch_posix c p : good p → admissible p c → room p c → Answers c p.
Proof.
  intros Hg Ha Hroom. destruct (keeps_fds c) eqn:Hc; [by apply neutral_posix|].
  destruct c; try discriminate Hc; try done.
  - by apply openat_posix.
  - by apply close_posix.
  - by apply dup_posix.
  - destruct Ha as [Hown Hfd]. apply dup_onto_posix; [done|done|lia|apply k_dup2|..].
    + intros v Hv. by left.
    + intros d Hd. right. by exists d.
  - destruct Ha as [Hown Hfd]. apply dup_onto_posix; [done|done|lia|apply k_dup3|..].
    + intros v Hv. by left.
    + intros d Hd. right. by exists d.
  - by apply fcntl_posix.
  - by apply pipe2_posix.
  - by apply socket_posix.
  - by rewrite Ha in Hc.
Qed.

(** A call of the process: it returns, and does to the descriptors what it should. *)
Lemma step_posix c p : good p → admissible p c → room p c →
  match step kernel mount_table unset c p with
  | (SOk (v, out), p') => good p' ∧ posix c (seen p) v out (seen p')
  | (SErr _, _) => False
  | (SPanic, _) => vfs_panics
  end.
Proof.
  intros Hg Ha Hroom. assert (Hwp : wp (r ← dispatch_syscall kernel mount_table unset c; finish kernel r)
    (failed (posix c (seen p))) (λ vo p', good p' ∧ posix c (seen p) vo.1 vo.2 (seen p')) p).
  { apply wp_bind. by apply dispatch_posix. }
  unfold wp in Hwp. unfold step, answered.
  by match goal with |- context [match ?m p with _ => _ end] => destruct (m p) as [[[v out]|e|] p'] end.
Qed.
End Descriptors.
