(* ===== verification/Processes.v ===== *)
(** * Processes: the descriptors of all processes in the sandbox

    [sandbox/src/sandbox/mod.rs] and [sandbox/src/syscall/process.rs]: the processes of a
    sandbox and the kernel interleave their calls; every process sees the table that POSIX
    promises, a child gets a copy of its parent's table or shares it, and calls of one process
    leave the tables of the others. *)
From S2P Require Import Prelude FdTable Mounts SqliteVfs Syscalls SyscallsProps.

(** The calls that start a process, and whether the child shares the table of its parent. *)
Definition starts (c : Call) : option bool :=
  match c with
  | Fork | Vfork | Clone3 => Some false
  | Clone flags => Some (has_flag flags CLONE_FILES)
  | _ => None
  end.

(** ** What calls leave of the kernel's state

    A preorder that no call of the kernel leaves, is not left by a handler. *)
Section Through.
Context {S K : Type} {V : VirtualFs.t S} {Sys : LibcSys} {IO : LibcIo}.
Context (kernel : Call → K → KReply * K) (mount_table : MountTable) (unset : Z).
Context (Rel : K → K → Prop) `{HR : !PreOrder Rel}.
Context (Hrel : ∀ c k, starts c = None → Rel k (kernel c k).2).
Abbreviation H := (SM (Proc (K := K))).

Class Through {A} (m : H A) := through p : Rel (kernel_state p) (kernel_state (m p).2).
Class Passes (m : H SyscallResult) :=
  passes p : Rel (kernel_state p) (kernel_state (m p).2) ∧
    ∀ c, (m p).1 = SOk (Syscall c) → starts c = None.
#[local] Hint Mode Through + ! : typeclass_instances.
#[local] Hint Mode Passes ! : typeclass_instances.

#[local] Instance reads_through {A} (g : Proc → A) : Through (λ p, (SOk (g p), p)).
Proof. by intros p. Qed.
#[local] Instance get_through fd : Through (table_get fd).
Proof. by intros p. Qed.
#[local] Instance translate_through fd : Through (table_translate fd).
Proof. by intros p. Qed.
#[local] Instance dirfd_through fd : Through (table_dirfd fd).
Proof. by intros p. Qed.
#[local] Instance ret_through {A} (a : A) : Through (mret a).
Proof. by intros p. Qed.
#[local] Instance table_through {A} (f : FdTable _ → option (A * FdTable _)) : Through (table_op f).
Proof. intros p. unfold table_op. by destruct (f _) as [[a t]|]. Qed.
#[local] Instance virtual_through {A} (m : VM S A) : Through (virtual m).
Proof. intros p. unfold virtual. by destruct (m _). Qed.
Lemma inject_through c : starts c = None → Through (inject kernel c).
Proof.
  intros Hc p. unfold inject. pose proof (Hrel c (kernel_state p) Hc) as Hk.
  by destruct (kernel _ _).
Qed.
#[local] Hint Extern 1 (Through (inject kernel _)) => (apply inject_through; reflexivity) : typeclass_instances.
#[local] Instance bind_through {A B} (m : H A) (f : A → H B) :
  Through m → (∀ a, Through (f a)) → Through (m ≫= f).
Proof.
  intros Hm Hf p. specialize (Hm p). unfold mbind, SM_bind.
  destruct (m p) as [[a|e|] p1]; [|done..]. etrans; [exact Hm|apply Hf].
Qed.
#[local] Instance close_entry_through e : Through (close_entry kernel e).
Proof. destruct e as [[]|]; apply _. Qed.

#[local] Instance kernel_set_through l nfds t : Through (kernel_set l nfds t).
Proof. intros p. unfold kernel_set. destruct l; [|done]. by destruct (translate_to_kernel _ _ _) as [[]|]. Qed.

#[local] Instance value_passes v : Passes (value v).
Proof. by intros p. Qed.
#[local] Instance ret_passes v out : Passes (mret (Value v out)).
Proof. by intros p. Qed.
#[local] Instance fails_passes e : Passes (λ p, (SErr e, p)).
Proof. by intros p. Qed.
Lemma syscall_passes c : starts c = None → Passes (syscall c).
Proof. intros Hc p. split; [done|]. by intros c' [= <-]. Qed.
#[local] Hint Extern 1 (Passes (syscall _)) => (apply syscall_passes; reflexivity) : typeclass_instances.
#[local] Instance bind_passes {A} (m : H A) (f : A → H SyscallResult) :
  Through m → (∀ a, Passes (f a)) → Passes (m ≫= f).
Proof.
  intros Hm Hf p. specialize (Hm p). unfold mbind, SM_bind.
  destruct (m p) as [[a|e|] p1]; [|done..]. destruct (Hf a p1) as [Hk Hc].
  split; [by etrans|done].
Qed.
#[local] Hint Extern 0 (Passes (match ?x with _ => _ end)) => destruct x : typeclass_instances.
#[local] Hint Extern 0 (Through (match ?x with _ => _ end)) => destruct x : typeclass_instances.

Lemma dispatch_passes c : starts c = None → Passes (dispatch_syscall kernel mount_table unset c).
Proof.
  intros Hc. destruct c; try discriminate Hc; cbn [dispatch_syscall];
    unfold handle_openat, kernel_open, handle_close, handle_dup, handle_dup2, handle_dup3, dup_onto,
      handle_pipe2, handle_socket, table_allocate,
      handle_read, handle_write, handle_lseek, handle_fstat, handle_getdents64, handle_fcntl,
      handle_ioctl, handle_pread64, handle_pwrite64, handle_mmap, handle_readv, handle_writev,
      handle_sendto, handle_connect, handle_getpeername, handle_pselect6, handle_poll,
      handle_access, handle_unlink, handle_rmdir, handle_chdir, handle_statfs, handle_llistxattr,
      handle_lgetxattr, handle_rename, handle_faccessat2, handle_faccessat, handle_fchownat,
      handle_chmod, handle_statx, handle_newfstatat, handle_readlink, handle_readlinkat,
      handle_symlink, handle_symlinkat, handle_linkat, virtual_readlink, created, served, on_fd,
      on_kernel_fd, with_path, with_path_now, at_call; cbv zeta; apply _.
Qed.

Lemma step_through c p : starts c = None →
  Rel (kernel_state p) (kernel_state (step kernel mount_table unset c p).2).
Proof.
  intros Hc. assert (Hrun : Through (r ← dispatch_syscall kernel mount_table unset c; finish kernel r)).
  { intros q. destruct (dispatch_passes c Hc q) as [Hk Hr]. unfold mbind, SM_bind.
    destruct (dispatch_syscall _ _ _ c q) as [[[v out|c']|e|] q1]; [done| |done..].
    etrans; [exact Hk|]. unfold finish. specialize (Hr c' eq_refl).
    apply bind_through; [by apply inject_through|apply _]. }
  specialize (Hrun p). unfold step, answered.
  by match goal with |- context [match ?m p with _ => _ end] => destruct (m p) as [[]] end.
Qed.
End Through.

(** ** The kernel, for all processes *)

Section Processes.
Context {S K O : Type} {V : VirtualFs.t S} {Sys : LibcSys} {IO : LibcIo}.
Context (kernels : Z → Call → K → KReply * K) (mount_table : MountTable) (unset : Z).
(** The open descriptors of a process, the processes there are, and which of them share their
    descriptors. *)
Context (files : K → Z → gmap Z O) (alive : K → Z → Prop) (shares : K → Z → Z → Prop).
Abbreviation Ref := VirtualFs.FileRef.

(** What a call of [pid] leaves: the processes, and the files of those it does not share with. *)
Record unaffected (pid : Z) (k k' : K) : Prop := {
  un_alive q : alive k' q ↔ alive k q;
  un_shares p q : shares k' p q ↔ shares k p q;
  un_files q : ¬ shares k pid q → files k' q = files k q
}.

(** The processes there were have what they had. *)
Definition kept (k k' : K) : Prop :=
  ∀ q, alive k q → alive k' q ∧ files k' q = files k q ∧
    ∀ p, alive k p → (shares k' p q ↔ shares k p q).

Class KernelProcs : Prop := {
  kp_fds pid :: KernelFds (kernels pid) (λ k, files k pid);
  kp_equiv k :: Equivalence (shares k);
  kp_same k p q : shares k p q → files k p = files k q;
  kp_call pid c k : starts c = None → unaffected pid k (kernels pid c k).2;
  kp_start pid c k shared : starts c = Some shared → c ≠ Clone3 →
    let r := ret (kernels pid c k).1 in
    let k' := (kernels pid c k).2 in
    kept k k' ∧
    (r <= 0 ∨
     (¬ alive k r ∧ alive k' r ∧ files k' r = files k pid ∧
      ∀ q, alive k q → (shares k' r q ↔ shared = true ∧ shares k pid q)))
}.

#[export] Instance unaffected_preorder pid : PreOrder (unaffected pid).
Proof.
  split; [by split|]. intros k1 k2 k3 [Ha Hs Hf] [Ha' Hs' Hf']. split.
  - intros q. by rewrite Ha'.
  - intros p q. by rewrite Hs'.
  - intros q Hq. rewrite Hf'; [by apply Hf|]. by rewrite Hs.
Qed.

(** ** What the processes are promised

    The processes by the table they have, and the tables. *)
Abbreviation Table := (gmap Z (Desc Ref O)).
Definition Posix : Type := gmap Z nat * gmap nat Table.

Inductive posix_event (pid : Z) (c : Call) : Posix → Z → Out → Posix → Prop :=
| PosixCall procs tabs r m v out m' : starts c = None →
    procs !! pid = Some r → tabs !! r = Some m → posix c m v out m' →
    posix_event pid c (procs, tabs) v out (procs, <[r := m']> tabs)
| PosixNotStarted st v shared : starts c = Some shared → v <= 0 →
    posix_event pid c st v NoOut st
| PosixShared procs tabs r v : starts c = Some true → 0 < v →
    procs !! pid = Some r → procs !! v = None →
    posix_event pid c (procs, tabs) v NoOut (<[v := r]> procs, tabs)
| PosixCopied procs tabs r r' m v : starts c = Some false → 0 < v →
    procs !! pid = Some r → tabs !! r = Some m → procs !! v = None → tabs !! r' = None →
    posix_event pid c (procs, tabs) v NoOut (<[v := r']> procs, <[r' := m]> tabs).

Inductive posix_run : list (Z * Call) → Posix → list (Z * Out) → Posix → Prop :=
| PosixNil st : posix_run [] st [] st
| PosixCons pid c calls st v out st1 outs st2 :
    posix_event pid c st v out st1 → posix_run calls st1 outs st2 →
    posix_run ((pid, c) :: calls) st ((v, out) :: outs) st2.

(** ** The sandbox and the promise *)

Abbreviation SandboxK := (Sandbox (K := K)).

(** The process of the table [r], as a handler sees it. *)
Definition process (r : nat) (sb : SandboxK) : Proc :=
  mkProc (default FdTable.new (heap sb !! r)) (sb_vfs sb) (sb_kernel sb).
Definition files_of (pid : Z) (k : K) : gmap Z O := files k pid.

Record related (sb : SandboxK) (st : Posix) : Prop := {
  rl_procs : st.1 = FD_TABLES sb;
  rl_heap pid r : FD_TABLES sb !! pid = Some r → (r < length (heap sb))%nat;
  rl_good pid r : FD_TABLES sb !! pid = Some r → good (files_of pid) (process r sb);
  rl_seen pid r : FD_TABLES sb !! pid = Some r →
    st.2 !! r = Some (seen (files_of pid) (process r sb));
  rl_tables r : is_Some (st.2 !! r) → (r < length (heap sb))%nat;
  rl_shares p q r1 r2 : FD_TABLES sb !! p = Some r1 → FD_TABLES sb !! q = Some r2 →
    (r1 = r2 ↔ shares (sb_kernel sb) p q);
  rl_alive pid : is_Some (FD_TABLES sb !! pid) → alive (sb_kernel sb) pid
}.

(** Calls of processes that the sandbox has, each admissible where it is made. *)
Definition event_ok (pid : Z) (c : Call) (sb : SandboxK) : Prop :=
  match FD_TABLES sb !! pid with
  | None => False
  | Some r =>
      match starts c with
      | Some _ => c ≠ Clone3
      | None => admissible (files_of pid) (process r sb) c ∧ room (process r sb) c
      end
  end.
Fixpoint events_ok (calls : list (Z * Call)) (sb : SandboxK) : Prop :=
  match calls with
  | [] => True
  | (pid, c) :: calls =>
      event_ok pid c sb ∧
      match handle_syscall_event kernels mount_table unset pid c sb with
      | (SOk _, sb') => events_ok calls sb'
      | _ => True
      end
  end.

#[export] Instance event_ok_dec pid c sb : Decision (event_ok pid c sb).
Proof.
  unfold event_ok. destruct (FD_TABLES sb !! pid); [|apply _].
  destruct (starts c); [|apply _]. destruct c; (by left) || (right; by intros H; apply H).
Defined.
#[export] Instance events_ok_dec calls sb : Decision (events_ok calls sb).
Proof.
  revert sb. induction calls as [|[pid c] calls IH]; intros sb; cbn [events_ok]; [apply _|].
  apply and_dec; [apply _|].
  destruct (handle_syscall_event _ _ _ pid c sb) as [[]]; apply IH || apply _.
Defined.

Context `{HK : KernelProcs}.

Lemma good_ext p q (P P' : Proc) : fd_table P' = fd_table P →
  files_of q (kernel_state P') = files_of p (kernel_state P) →
  (good (files_of p) P → good (files_of q) P') ∧
  seen (files_of q) P' = seen (files_of p) P.
Proof.
  intros Ht Hf. unfold seen. rewrite Ht, Hf. split; [|done].
  intros [Hok Hm]. by split; rewrite ?Ht, ?Hf.
Qed.

Lemma handle_call pid c sb r : starts c = None → FD_TABLES sb !! pid = Some r →
  handle_syscall_event kernels mount_table unset pid c sb =
    on_table r (step (kernels pid) mount_table unset c) sb.
Proof.
  intros Hc Hr. unfold handle_syscall_event, get_fd_table. rewrite Hr.
  by destruct c; try discriminate Hc.
Qed.

(** The table [r] after a call of [pid]. *)
Lemma related_call pid r sb st (p' : Proc) : related sb st → FD_TABLES sb !! pid = Some r →
  good (files_of pid) p' → unaffected pid (sb_kernel sb) (kernel_state p') →
  related (mkSandbox (FD_TABLES sb) (<[r := fd_table p']> (heap sb)) (vfs_state p') (kernel_state p'))
    (st.1, <[r := seen (files_of pid) p']> st.2).
Proof.
  intros [Hp Hh Hg Hse Ht Hsh Ha] Hr Hg' Hun.
  assert (Hcase : ∀ q r2, FD_TABLES sb !! q = Some r2 →
    let P := process r2 (mkSandbox (FD_TABLES sb) (<[r := fd_table p']> (heap sb)) (vfs_state p')
      (kernel_state p')) in
    if decide (r2 = r) then good (files_of q) P ∧ seen (files_of q) P = seen (files_of pid) p'
    else good (files_of q) P ∧ seen (files_of q) P = seen (files_of q) (process r2 sb)).
  { intros q r2 Hq. cbv zeta. pose proof (Hsh pid q r r2 Hr Hq) as Hiff. destruct (decide (r2 = r)) as [->|Hne].
    - destruct (good_ext pid q p' (process r (mkSandbox (FD_TABLES sb) (<[r := fd_table p']> (heap sb))
        (vfs_state p') (kernel_state p')))) as [Hgood Hseen]; [..|by split; [apply Hgood|]].
      + unfold process. cbn. by rewrite list_lookup_insert_eq by by eapply Hh.
      + symmetry. apply kp_same, Hun, Hiff. done.
    - destruct (good_ext q q (process r2 sb) (process r2 (mkSandbox (FD_TABLES sb)
        (<[r := fd_table p']> (heap sb)) (vfs_state p') (kernel_state p')))) as [Hgood Hseen];
        [..|split; [by apply Hgood, Hg|done]].
      + unfold process. cbn. by rewrite list_lookup_insert_ne by done.
      + apply (un_files _ _ _ Hun). rewrite <-Hiff. congruence. }
  split; cbn [fst snd FD_TABLES heap sb_kernel].
  - done.
  - intros q r2 Hq. rewrite length_insert. by eapply Hh.
  - intros q r2 Hq. specialize (Hcase q r2 Hq). cbv zeta in Hcase. case_decide; apply Hcase.
  - intros q r2 Hq. specialize (Hcase q r2 Hq). cbv zeta in Hcase. case_decide as Hd.
    + subst. rewrite lookup_insert_eq. f_equal. symmetry. apply Hcase.
    + rewrite lookup_insert_ne, (Hse _ _ Hq) by done. f_equal. symmetry. apply Hcase.
  - intros r2. rewrite length_insert. intros [->|[_ Hs]]%lookup_insert_is_Some; [by eapply Hh|by apply Ht].
  - intros q1 q2 r1 r2 H1 H2. rewrite (un_shares _ _ _ Hun). by apply Hsh.
  - intros q Hq. apply Hun. by apply Ha.
Qed.

Lemma call_event pid c sb st : starts c = None → event_ok pid c sb → related sb st →
  match handle_syscall_event kernels mount_table unset pid c sb with
  | (SOk (v, out), sb') => ∃ st', posix_event pid c st v out st' ∧ related sb' st'
  | (SErr _, _) => False
  | (SPanic, _) => vfs_panics
  end.
Proof.
  intros Hc Hok Hrel. unfold event_ok in Hok.
  destruct (FD_TABLES sb !! pid) as [r|] eqn:Hpid; [|done]. rewrite Hc in Hok.
  destruct Hok as [Hadm Hroom]. rewrite (handle_call _ _ _ r) by done. unfold on_table.
  pose proof (step_posix (kernels pid) mount_table unset (files_of pid) c (process r sb)
    (rl_good _ _ Hrel _ _ Hpid) Hadm Hroom) as Hstep.
  pose proof (step_through (kernels pid) mount_table unset (unaffected pid) (kp_call pid) c
    (process r sb) Hc) as Hun.
  fold (process r sb). destruct (step _ _ _ c (process r sb)) as [[[v out]|e|] p'] eqn:Hs; [|done..].
  destruct Hstep as [Hg Hposix]. exists (st.1, <[r := seen (files_of pid) p']> st.2). split.
  - destruct st as [procs tabs]. eapply PosixCall; [done| | |done].
    + cbn. pose proof (rl_procs _ _ Hrel) as Hp. cbn in Hp. by rewrite Hp.
    + by apply (rl_seen _ _ Hrel).
  - by apply related_call.
Qed.

(** ** Calls that start a process *)

Lemma handle_start pid c sb r shared : starts c = Some shared → FD_TABLES sb !! pid = Some r →
  handle_syscall_event kernels mount_table unset pid c sb =
    handle_new_process kernels pid c shared r sb.
Proof.
  intros Hc Hr. unfold handle_syscall_event, get_fd_table. rewrite Hr.
  destruct c; try discriminate Hc; by injection Hc as <-.
Qed.

(** A new kernel state in which the processes have what they had. *)
Definition with_kernel (k : K) (sb : SandboxK) : SandboxK :=
  mkSandbox (FD_TABLES sb) (heap sb) (sb_vfs sb) k.
Lemma related_kernel sb st k : related sb st → kept (sb_kernel sb) k →
  related (with_kernel k sb) st.
Proof.
  intros [Hp Hh Hg Hse Ht Hsh Ha] Hk.
  assert (Hcase : ∀ q r, FD_TABLES sb !! q = Some r →
    good (files_of q) (process r (with_kernel k sb)) ∧
    seen (files_of q) (process r (with_kernel k sb)) = seen (files_of q) (process r sb)).
  { intros q r Hq. destruct (good_ext q q (process r sb) (process r (with_kernel k sb))) as [Hgood Hseen];
      [done|apply Hk, Ha; by eexists|]. split; [by apply Hgood, Hg|done]. }
  split; [done|done|..|done| |].
  - intros q r Hq. by apply Hcase.
  - intros q r Hq. rewrite (Hse _ _ Hq). f_equal. symmetry. by apply Hcase.
  - intros p q r1 r2 H1 H2. rewrite (Hsh _ _ _ _ H1 H2). symmetry. apply Hk; apply Ha; by eexists.
  - intros q Hq. by apply Hk, Ha.
Qed.

(** A new process with the table [r]. *)
Lemma related_child pid child r0 r sb st m :
  related sb st → FD_TABLES sb !! pid = Some r0 → FD_TABLES sb !! child = None →
  (r < length (heap sb))%nat → alive (sb_kernel sb) child →
  good (files_of child) (process r sb) → m = seen (files_of child) (process r sb) →
  (∀ q r2, FD_TABLES sb !! q = Some r2 → (r = r2 ↔ shares (sb_kernel sb) child q)) →
  (st.2 !! r = None ∨ st.2 !! r = Some m) →
  related (insert_fd_table child r sb) (<[child := r]> st.1, <[r := m]> st.2).
Proof.
  intros [Hp Hh Hg Hse Ht Hsh Ha] Hpid Hchild Hr Halive Hgood -> Hshares Hm.
  split; cbn [fst snd insert_fd_table FD_TABLES heap sb_kernel]; change (process ?x (insert_fd_table child r sb)) with (process x sb).
  - by rewrite Hp.
  - intros q r2 [[<- <-]|[_ Hq]]%lookup_insert_Some; [done|by eapply Hh].
  - intros q r2 [[<- <-]|[_ Hq]]%lookup_insert_Some; [done|by eapply Hg].
  - intros q r2 [[<- <-]|[_ Hq]]%lookup_insert_Some; [by rewrite lookup_insert_eq|].
    destruct (decide (r2 = r)) as [->|Hne]; [|by rewrite lookup_insert_ne, (Hse _ _ Hq)].
    rewrite lookup_insert_eq. rewrite (Hse _ _ Hq) in Hm. destruct Hm as [?|Hm]; [done|].
    by rewrite Hm.
  - intros r2. intros [->|[_ Hs]]%lookup_insert_is_Some; [done|by apply Ht].
  - intros p q r1 r2 [[<- <-]|[Hpc H1]]%lookup_insert_Some [[<- <-]|[_ H2]]%lookup_insert_Some.
    + split; [|done]. intros _. reflexivity.
    + by apply Hshares.
    + rewrite (symmetry_iff (shares _)). rewrite <-(Hshares _ _ H1). split; congruence.
    + by apply Hsh.
  - intros q [->|[_ Hq]]%lookup_insert_is_Some; [done|by apply Ha].
Qed.

Lemma related_grow t sb st : related sb st →
  related (mkSandbox (FD_TABLES sb) (heap sb ++ [t]) (sb_vfs sb) (sb_kernel sb)) st.
Proof.
  intros [Hp Hh Hg Hse Ht Hsh Ha].
  assert (Hcase : ∀ q r, FD_TABLES sb !! q = Some r →
    process r (mkSandbox (FD_TABLES sb) (heap sb ++ [t]) (sb_vfs sb) (sb_kernel sb)) = process r sb).
  { intros q r Hq. unfold process. cbn. by rewrite lookup_app_l by by eapply Hh. }
  split; cbn [FD_TABLES heap sb_kernel]; [done|..|done|done].
  - intros q r Hq. rewrite length_app. pose proof (Hh _ _ Hq). lia.
  - intros q r Hq. rewrite (Hcase _ _ Hq). by apply Hg.
  - intros q r Hq. rewrite (Hcase _ _ Hq). by apply Hse.
  - intros r Hr. rewrite length_app. pose proof (Ht _ Hr). lia.
Qed.

Lemma start_event pid c sb st shared : starts c = Some shared → event_ok pid c sb → related sb st →
  match handle_syscall_event kernels mount_table unset pid c sb with
  | (SOk (v, out), sb') => ∃ st', posix_event pid c st v out st' ∧ related sb' st'
  | _ => False
  end.
Proof.
  intros Hc Hok Hrel. unfold event_ok in Hok.
  destruct (FD_TABLES sb !! pid) as [r|] eqn:Hpid; [|done]. rewrite Hc in Hok.
  rewrite (handle_start _ _ _ r shared) by done. unfold handle_new_process.
  pose proof (kp_start pid c (sb_kernel sb) shared Hc Hok) as Hk. cbv zeta in Hk.
  destruct (kernels pid c (sb_kernel sb)) as [reply k]. cbn [fst snd] in Hk.
  change (mkSandbox (FD_TABLES sb) (heap sb) (sb_vfs sb) k) with (with_kernel k sb).
  destruct Hk as [Hkept Hk]. pose proof (related_kernel _ _ _ Hrel Hkept) as Hrel1.
  destruct (Z.ltb_spec 0 (ret reply)) as [Hpos|Hneg].
  2:{ exists st. split; [by eapply PosixNotStarted|done]. }
  destruct Hk as [?|(Hnew & Halive & Hf & Hshares)]; [lia|].
  assert (Hchild : FD_TABLES sb !! ret reply = None).
  { apply eq_None_not_Some. intros Hs. by apply Hnew, (rl_alive _ _ Hrel). }
  assert (Hparent : alive (sb_kernel sb) pid) by (apply (rl_alive _ _ Hrel); by eexists).
  assert (Hfiles : files_of (ret reply) k = files_of pid k).
  { unfold files_of. rewrite Hf. symmetry. by apply Hkept. }
  destruct shared.
  - destruct (good_ext pid (ret reply) (process r (with_kernel k sb)) (process r (with_kernel k sb)))
      as [Hgood Hseen]; [done..|].
    eexists. split.
    2:{ apply (related_child pid (ret reply) r r (with_kernel k sb) st (seen (files_of pid) (process r (with_kernel k sb)))); [done..|by eapply rl_heap|done|
          by apply Hgood, (rl_good _ _ Hrel1)|done| |].
        + intros q r2 Hq. rewrite (Hshares q) by (apply (rl_alive _ _ Hrel); by eexists).
          rewrite (rl_shares _ _ Hrel _ _ _ _ Hpid Hq). tauto.
        + right. by apply (rl_seen _ _ Hrel1). }
    rewrite (insert_id st.2) by by apply (rl_seen _ _ Hrel1).
    destruct st as [procs tabs]. pose proof (rl_procs _ _ Hrel) as Hp. cbn in Hp. subst procs.
    by apply (PosixShared pid c _ _ r).
  - cbn [deep_copy]. set (t := deep_clone _).
    set (sb2 := mkSandbox _ (_ ++ [t]) _ _).
    destruct (good_ext pid (ret reply) (process r (with_kernel k sb)) (process (length (heap sb)) sb2))
      as [Hgood Hseen]; [|done|].
    { unfold process, sb2. cbn. rewrite list_lookup_middle by done. cbn. by destruct (default _ _). }
    assert (Hfresh : st.2 !! length (heap sb) = None).
    { apply eq_None_not_Some. intros Hs. pose proof (rl_tables _ _ Hrel _ Hs). lia. }
    eexists. split.
    2:{ apply (related_child pid (ret reply) r (length (heap sb)) sb2 st
          (seen (files_of pid) (process r (with_kernel k sb))));
          [by apply related_grow|done..| |done|by apply Hgood, (rl_good _ _ Hrel1)|done| |by left].
        + cbn. rewrite length_app. cbn. lia.
        + intros q r2 Hq. change (sb_kernel sb2) with k.
          rewrite (Hshares q) by (apply (rl_alive _ _ Hrel); by eexists). pose proof (rl_heap _ _ Hrel _ _ Hq). split; [lia|by intros [? _]]. }
    destruct st as [procs tabs]. pose proof (rl_procs _ _ Hrel) as Hp. cbn in Hp. subst procs.
    eapply (PosixCopied pid c _ _ r (length (heap sb))); [done..| |done|done].
    by apply (rl_seen _ _ Hrel1).
Qed.

Lemma event_related pid c sb st : event_ok pid c sb → related sb st →
  match handle_syscall_event kernels mount_table unset pid c sb with
  | (SOk (v, out), sb') => ∃ st', posix_event pid c st v out st' ∧ related sb' st'
  | (SErr _, _) => False
  | (SPanic, _) => vfs_panics
  end.
Proof.
  intros Hok Hrel. destruct (starts c) as [shared|] eqn:Hc; [|by apply call_event].
  pose proof (start_event _ _ _ _ _ Hc Hok Hrel) as He.
  by destruct (handle_syscall_event _ _ _ pid c sb) as [[[v out]|e|] sb'].
Qed.

(** The calls of all processes, as they come: each answer, and all that it does to the tables,
    is the promised one, up to the first panic. *)
Definition answers (calls : list (Z * Call)) (sb : SandboxK) (st : Posix) : Prop :=
  let '(rs, sb') := run kernels mount_table unset calls sb in
  ∃ outs st', posix_run (take (length outs) calls) st outs st' ∧
    ((rs = SOk <$> outs ∧ length outs = length calls ∧ related sb' st') ∨
     (rs = (SOk <$> outs) ++ [SPanic] ∧ vfs_panics)).

Lemma run_related calls sb st : related sb st → events_ok calls sb → answers calls sb st.
Proof.
  unfold answers. revert sb st. induction calls as [|[pid c] calls IH]; intros sb st Hrel Hok.
  { exists [], st. split; [constructor|]. by left. }
  destruct Hok as [Hev Hok]. pose proof (event_related _ _ _ _ Hev Hrel) as He. cbn [run].
  destruct (handle_syscall_event _ _ _ pid c sb) as [[[v out]|e|] sb1]; [|done|].
  - destruct He as (st1 & Hposix & Hrel1). specialize (IH sb1 st1 Hrel1 Hok).
    destruct (run _ _ _ calls sb1) as [rs sb']. destruct IH as (outs & st' & Hrun & Hend).
    exists ((v, out) :: outs), st'. split; [by eapply PosixCons|].
    destruct Hend as [(-> & Hlen & Hrel')|[-> Hp]]; [left|by right].
    split_and!; [done|cbn; by rewrite Hlen|done].
  - exists [], st. split; [constructor|]. by right.
Qed.

(** The sandbox before any call, and one whose first process [pid] has called. *)
Definition initial (s : S) (k : K) : SandboxK := mkSandbox ∅ [] s k.

Lemma new_entries {F} v (e : FdEntry F) :
  entries FdTable.new !! v = Some e ↔ 0 <= v <= 2 ∧ e = Passthrough v 0 None.
Proof.
  cbn -[insert]. rewrite !lookup_insert_Some, lookup_empty. split.
  - intros [[<- <-]|[_ [[<- <-]|[_ [[<- <-]|[_ ?]]]]]]; [split; [lia|done]..|done].
  - intros [Hv ->]. assert (v = 0 ∨ v = 1 ∨ v = 2) as [->| [->| ->]] by lia; naive_solver.
Qed.

Lemma initial_good pid s k : dom (files k pid) = {[0; 1; 2]} →
  good (files_of pid) (mkProc FdTable.new s k) ∧
  seen (files_of pid) (mkProc FdTable.new s k) = KernelFile <$> files k pid.
Proof.
  intros Hdom. assert (Hin : ∀ v, is_Some (files k pid !! v) ↔ 0 <= v <= 2).
  { intros v. rewrite <-elem_of_dom, Hdom. set_unfold. lia. }
  split; [split; [apply new_ok|split]|].
  - intros v kfd fl pa [Hv [= -> _ _]]%new_entries. by apply Hin.
  - intros v1 v2 kfd fl1 pa1 fl2 pa2 [_ [= -> _ _]]%new_entries [_ [= -> _ _]]%new_entries. done.
  - intros kfd Hs%Hin. exists kfd, 0, None. by apply new_entries.
  - apply map_eq. intros v. unfold seen. rewrite view_lookup, lookup_fmap. cbn [fd_table kernel_state].
    destruct (entries FdTable.new !! v) as [e|] eqn:He.
    + by apply new_entries in He as [Hv ->].
    + cbn. replace (files k pid !! v) with (@None O); [done|]. symmetry. apply eq_None_not_Some.
      intros Hs%Hin. pose proof (proj2 (new_entries (F := Ref) v (Passthrough v 0 None)) (conj Hs eq_refl)).
      congruence.
Qed.

Definition initial_posix (pid : Z) (k : K) : Posix :=
  ({[pid := 0%nat]}, {[0%nat := KernelFile <$> files k pid]}).

Lemma initial_related pid s k : dom (files k pid) = {[0; 1; 2]} → alive k pid →
  related (get_fd_table pid (initial s k)).2 (initial_posix pid k).
Proof.
  intros Hdom Halive. destruct (initial_good pid s k Hdom) as [Hg Hs].
  assert (Hinv : ∀ q r, (<[pid := 0%nat]> ∅ : gmap Z nat) !! q = Some r → q = pid ∧ r = 0%nat).
  { by intros q r [[<- <-]|[_ ?]]%lookup_insert_Some. }
  assert (get_fd_table pid (initial s k) = (0%nat, mkSandbox (<[pid := 0%nat]> ∅) [FdTable.new] s k))
    as -> by (unfold get_fd_table; cbn; by rewrite lookup_empty).
  split; cbn [initial_posix fst snd FD_TABLES heap sb_kernel length]; [done|..].
  - intros q r [-> ->]%Hinv. lia.
  - by intros q r [-> ->]%Hinv.
  - intros q r [-> ->]%Hinv. rewrite lookup_singleton_eq, <-Hs. done.
  - intros r [m [<- _]%lookup_singleton_Some]. lia.
  - intros p q r1 r2 [-> ->]%Hinv [-> ->]%Hinv. by split.
  - intros q [r [-> _]%Hinv]. done.
Qed.

Lemma run_first pid c calls sb :
  run kernels mount_table unset ((pid, c) :: calls) sb =
  run kernels mount_table unset ((pid, c) :: calls) (get_fd_table pid sb).2.
Proof.
  cbn [run]. replace (handle_syscall_event kernels mount_table unset pid c (get_fd_table pid sb).2)
    with (handle_syscall_event kernels mount_table unset pid c sb); [done|].
  unfold handle_syscall_event, get_fd_table. destruct (FD_TABLES sb !! pid) as [r|] eqn:Hr; cbn.
  - by rewrite Hr.
  - by rewrite lookup_insert_eq.
Qed.

End Processes.
