(* ===== verification/SyscallFiles.v ===== *)
(** * SyscallFiles: files of a SQLite mount, through system calls

    The virtual filesystem that the handlers of [Syscalls] call in the program: the trait
    objects of [sandbox/src/vfs/mod.rs] and [file.rs] over [SqliteVfs], with the references to
    open files that descriptors share.  What a process gets when it opens, reads, writes and
    closes a file below a SQLite mount. *)
From S2P Require Import Prelude Types Engine Lru Schema FileIO FileIOSpec Path AgentFS.
From S2P Require Import AgentFSInv AgentFSSpec AgentFSOps AgentFSCoherent AgentFSProps.
From S2P Require Import FdTable Mounts SqliteVfs Syscalls SyscallsProps SqliteVfsProps.

(** ** Calls on a virtual file *)

Section Virtual.
Context {S K : Type} {V : VirtualFs.t S} {Sys : LibcSys} {IO : LibcIo}.
Context (kernel : Call → K → KReply * K) (mount_table : MountTable) (unset : Z).
Implicit Types p : Proc (K := K).
Abbreviation step := (step kernel mount_table unset).

(** The process after an operation of a virtual filesystem, and what it returns. *)
Definition finished {A} (r : VResult A * S) (t : FdTable VirtualFs.FileRef) (p : Proc (K := K))
    (k : A → Z * Out) : SResult (Z * Out) * Proc :=
  (match r.1 with VOk a => SOk (k a) | VErr e => SOk (vfs_errno EIO e, NoOut) | VPanic => SPanic end,
   mkProc t r.2 (kernel_state p)).

Definition denotes p (fd : Z) (f : VirtualFs.FileRef) : Prop :=
  ∃ flags path, entries (fd_table p) !! fd = Some (Virtual f flags path).

Lemma step_read p fd f buf n : denotes p fd f → buf ≠ 0 →
  step (Read fd buf n) p =
    finished (VirtualFs.read f n (vfs_state p)) (fd_table p) p (λ data, (len data, OutBytes data)).
Proof.
  intros (fl & pa & He) Hbuf%Z.eqb_neq. unfold Syscalls.step, answered, mbind, SM_bind.
  cbn [dispatch_syscall]. unfold handle_read, on_fd, mbind, SM_bind, table_get, get.
  rewrite He, Hbuf. unfold virtual, finished. by destruct (VirtualFs.read _ _ _) as [[] s].
Qed.
Lemma step_write p fd f buf data : denotes p fd f → buf ≠ 0 →
  step (Write fd buf data) p =
    finished (VirtualFs.write f data (vfs_state p)) (fd_table p) p (λ n, (n, NoOut)).
Proof.
  intros (fl & pa & He) Hbuf%Z.eqb_neq. unfold Syscalls.step, answered, mbind, SM_bind.
  cbn [dispatch_syscall]. unfold handle_write, on_fd, mbind, SM_bind, table_get, get.
  rewrite He, Hbuf. unfold virtual, finished. by destruct (VirtualFs.write _ _ _) as [[] s].
Qed.
Lemma step_lseek p fd f offset whence : denotes p fd f → 0 <= whence <= SEEK_HOLE →
  step (Lseek fd offset whence) p =
    finished (VirtualFs.seek f offset whence (vfs_state p)) (fd_table p) p (λ n, (n, NoOut)).
Proof.
  intros (fl & pa & He) Hw. unfold Syscalls.step, answered, mbind, SM_bind.
  cbn [dispatch_syscall]. unfold handle_lseek, on_fd, mbind, SM_bind, table_get, get.
  rewrite He. replace (_ && _) with true by (symmetry; rewrite andb_true_iff, !Z.leb_le; lia).
  unfold virtual, finished. by destruct (VirtualFs.seek _ _ _ _) as [[] s].
Qed.

(** [close] answers 0 whatever the filesystem does, but for a panic. *)
Lemma step_close p fd f s : denotes p fd f → VirtualFs.close f (vfs_state p) = (VOk tt, s) →
  step (Close fd) p = (SOk (0, NoOut), mkProc (deallocate fd (fd_table p)).2 s (kernel_state p)).
Proof.
  intros (fl & pa & He) Hc. unfold Syscalls.step, answered, mbind, SM_bind.
  cbn [dispatch_syscall]. unfold handle_close, mbind, SM_bind, table_op, deallocate.
  rewrite He. unfold virtual. cbn [vfs_state fst snd]. by rewrite Hc.
Qed.

Lemma step_open p path flags mode v x f s fd t :
  resolve mount_table path = Some (v, x) → is_virtual v = true →
  VirtualFs.open v path flags (default 0x1a4 mode) (vfs_state p) = (VOk f, s) →
  allocate (Virtual f flags (Some path)) (fd_table p) = Some (fd, t) →
  step (Openat AT_FDCWD (Some path) flags mode) p =
    (SOk (fd, NoOut), mkProc t s (kernel_state p)).
Proof.
  intros Hres Hv Hopen Ha. unfold Syscalls.step, answered, mbind, SM_bind.
  cbn [dispatch_syscall]. unfold handle_openat, mbind, SM_bind, at_dirfd.
  rewrite Z.eqb_refl, Hres, Hv. unfold virtual, served, table_allocate, table_op, mbind, SM_bind.
  rewrite Hopen. cbn [fd_table]. by rewrite Ha.
Qed.

Lemma step_dup p fd f fd2 t : denotes p fd f → duplicate fd (fd_table p) = Some (Some fd2, t) →
  step (Dup fd) p = (SOk (fd2, NoOut), mkProc t (vfs_state p) (kernel_state p)).
Proof.
  intros (fl & pa & He) Hd. unfold Syscalls.step, answered, mbind, SM_bind.
  cbn [dispatch_syscall]. unfold handle_dup, mbind, SM_bind, table_get, get, table_op.
  by rewrite He, Hd.
Qed.
End Virtual.

(** ** The trait objects *)

Section Objects.
Context {E : SqlEngine} {Lru : LruCache (Z * string) Z} {IO : LibcIo} {Txt : ErrorTexts}.
Context (chunk_size : Z) (overflow_checks : bool).
Abbreviation W := (World Db (lru (Z * string) Z)).

(** The open files, by reference, and the filesystem. *)
Definition Files : Type := list BoxedFileOps * W.

(** A method of [dyn Vfs]: those of a bind mount are the default ones. *)
Definition on_mount {A} (v : Vfs) (name : string) (op : string → VM (unit * W) A) : VM Files A := λ s,
  match v with
  | Bind _ => (VErr (VfsError.Other (name +:+ "() not supported by this VFS")), s)
  | Sqlite mount_point => let '(r, (_, w)) := op mount_point (tt, s.2) in (r, (s.1, w))
  end.

(** A method of [dyn FileOps] on an open file or directory. *)
Definition on_handle {A} (i : nat) (file : VM (SqliteFileOps * W) A)
    (directory : VM (SqliteDirectoryOps * W) A) : VM Files A := λ s,
  match s.1 !! i with
  | Some (FileOps f) => let '(r, (f', w)) := file (f, s.2) in (r, (<[i := FileOps f']> s.1, w))
  | Some (DirectoryOps f) =>
      let '(r, (f', w)) := directory (f, s.2) in (r, (<[i := DirectoryOps f']> s.1, w))
  | None => (VPanic, s)
  end.

Definition new_handle (b : BoxedFileOps) : VM Files nat := λ s,
  (VOk (length s.1), (s.1 ++ [b], s.2)).
Definition not_a_directory {F A} : VM (F * W) A := vthrow (VfsError.Other "Not a directory").

#[export] Instance sandbox_vfs : VirtualFs.t Files := {|
  VirtualFs.FileRef := nat;
  VirtualFs.open v path flags _ :=
    b ← on_mount v "open" (λ mp, SqliteVfs.open chunk_size mp path flags); new_handle b;
  VirtualFs.stat v path := on_mount v "stat" (λ mp, SqliteVfs.stat mp overflow_checks path);
  VirtualFs.lstat v path := on_mount v "lstat" (λ mp, SqliteVfs.lstat mp overflow_checks path);
  VirtualFs.symlink v target path := on_mount v "symlink" (λ mp, SqliteVfs.symlink mp target path);
  VirtualFs.readlink v path := on_mount v "readlink" (λ mp, SqliteVfs.readlink mp path);
  VirtualFs.link v old new := on_mount v "link" (λ mp, SqliteVfs.link mp old new);
  VirtualFs.read i n := on_handle i (SqliteVfs.read overflow_checks n) is_a_directory;
  VirtualFs.write i buf := on_handle i (SqliteVfs.write buf) is_a_directory;
  VirtualFs.seek i offset whence :=
    on_handle i (SqliteVfs.seek overflow_checks offset whence) is_a_directory;
  VirtualFs.fstat i :=
    on_handle i (SqliteVfs.fstat chunk_size overflow_checks) (dir_fstat overflow_checks);
  VirtualFs.getdents i := on_handle i not_a_directory SqliteVfs.getdents;
  VirtualFs.close i := on_handle i (SqliteVfs.close chunk_size) (mret tt)
|}.
End Objects.

(** ** Calls of a process, in a row *)

Section Files.
Context {E : SqlEngine} {Lru : LruCache (Z * string) Z} {IO : LibcIo} {Txt : ErrorTexts} {Sys : LibcSys}.
Context {K : Type}.
Context (chunk_size : Z) (overflow_checks : bool).
Context (kernel : Call → K → KReply * K) (mount_table : MountTable) (unset : Z).
Abbreviation W := (World Db (lru (Z * string) Z)).
#[local] Instance objects : VirtualFs.t Files := sandbox_vfs chunk_size overflow_checks.
Abbreviation Process := (Proc (S := Files) (K := K)).
Abbreviation step := (step kernel mount_table unset).

Fixpoint exec (calls : list Call) : SM Process (list (Z * Out)) :=
  match calls with
  | [] => mret []
  | c :: calls => r ← step c; rs ← exec calls; mret (r :: rs)
  end.

(** The call that makes a request on a descriptor, with a buffer at [buf], and what it returns. *)
Definition call_of (buf fd : Z) (o : handle_op) : Call :=
  match o with
  | HRead n => Read fd buf n
  | HWrite data => Write fd buf data
  | HSeek offset whence => Lseek fd offset whence
  end.
Definition reply_of (r : VResult handle_result) : SResult (Z * Out) :=
  match r with
  | VOk (RBytes b) => SOk (len b, OutBytes b)
  | VOk (RNumber n) => SOk (n, NoOut)
  | VErr e => SOk (vfs_errno EIO e, NoOut)
  | VPanic => SPanic
  end.
(** Requests as system calls make them: with the values of [whence] that there are. *)
Definition call_ok (o : handle_op) : Prop :=
  handle_op_ok o ∧ match o with HSeek _ whence => 0 <= whence <= SEEK_HOLE | _ => True end.

Definition with_handle (i : nat) (f : SqliteFileOps) (w : W) (p : Process) : Process :=
  mkProc (S := Files) (fd_table p) (<[i := FileOps f]> (vfs_state p).1, w) (kernel_state p).

Lemma finished_handle {A} i f w fs file directory (p : Process) k :
  vfs_state p = (fs, w) → fs !! i = Some (FileOps f) →
  finished (on_handle (A := A) i file directory (vfs_state p)) (fd_table p) p k =
    (match (file (f, w)).1 with
     | VOk a => SOk (k a) | VErr e => SOk (vfs_errno EIO e, NoOut) | VPanic => SPanic end,
     with_handle i (file (f, w)).2.1 (file (f, w)).2.2 p).
Proof.
  intros Hs Hf. unfold finished, on_handle, with_handle. rewrite Hs. cbn [fst snd]. rewrite Hf.
  by destruct (file (f, w)) as [r [f' w']].
Qed.

Lemma step_handle buf fd o i f w fs (p : Process) : buf ≠ 0 → call_ok o → denotes p fd i →
  vfs_state p = (fs, w) → fs !! i = Some (FileOps f) →
  step (call_of buf fd o) p =
    (reply_of (handle_step overflow_checks o (f, w)).1,
     with_handle i (handle_step overflow_checks o (f, w)).2.1
       (handle_step overflow_checks o (f, w)).2.2 p).
Proof.
  intros Hbuf [_ Hok] Hfd Hs Hf. destruct o as [n|data|offset whence]; cbn [call_of handle_step].
  - rewrite (step_read _ _ _ p fd i) by done. cbn [VirtualFs.read objects sandbox_vfs].
    rewrite (finished_handle i f w fs) by done. unfold mbind, VM_bind.
    by destruct (read _ n (f, w)) as [[] [f' w']].
  - rewrite (step_write _ _ _ p fd i) by done. cbn [VirtualFs.write objects sandbox_vfs].
    rewrite (finished_handle i f w fs) by done. unfold mbind, VM_bind.
    by destruct (write data (f, w)) as [[] [f' w']].
  - rewrite (step_lseek _ _ _ p fd i) by done. cbn [VirtualFs.seek objects sandbox_vfs].
    rewrite (finished_handle i f w fs) by done. unfold mbind, VM_bind.
    by destruct (seek _ offset whence (f, w)) as [[] [f' w']].
Qed.

(** Requests through two descriptors of one open file. *)
Definition calls_of (buf fd fd2 : Z) (ops : list (bool * handle_op)) : list Call :=
  (λ o : bool * handle_op, call_of buf (if o.1 then fd2 else fd) o.2) <$> ops.

Lemma exec_cons c cs (p p1 p2 : Process) r rs :
  step c p = (SOk r, p1) → exec cs p1 = (SOk rs, p2) → exec (c :: cs) p = (SOk (r :: rs), p2).
Proof. intros H1 H2. cbn [exec]. unfold mbind, SM_bind. by rewrite H1, H2. Qed.

Lemma reply_ok r : r ≠ VPanic → ∃ vo, reply_of r = SOk vo.
Proof. destruct r as [[]| |]; naive_solver. Qed.

Lemma run_cons app o ops s r s1 : HandleSpec.step overflow_checks app o s = (r, s1) → r ≠ VPanic →
  HandleSpec.run overflow_checks app (o :: ops) s =
    let '(rs, s2) := HandleSpec.run overflow_checks app ops s1 in (r :: rs, s2).
Proof. intros Hs Hr. cbn [HandleSpec.run]. rewrite Hs. by destruct r. Qed.

Lemma exec_handle buf fd fd2 (ops : list (bool * handle_op)) i f w fs (p : Process) :
  buf ≠ 0 → Forall (λ o : bool * handle_op, call_ok o.2) ops → denotes p fd i → denotes p fd2 i →
  vfs_state p = (fs, w) → fs !! i = Some (FileOps f) → handle_ok f →
  let '(rs, final) := HandleSpec.run overflow_checks (appends f) (snd <$> ops) (view f) in
  VPanic ∉ rs →
  ∃ outs f', exec (calls_of buf fd fd2 ops) p = (SOk outs, with_handle i f' w p) ∧
    SOk <$> outs = reply_of <$> rs ∧ view f' = final ∧ handle_ok f' ∧ same_file f f'.
Proof.
  intros Hbuf Hops Hfd Hfd2. revert f fs p Hfd Hfd2.
  induction Hops as [|[b o] ops Ho Hops IH]; intros f fs p Hfd Hfd2 Hs Hf Hok.
  { intros _. exists [], f. split_and!; try done. unfold with_handle. rewrite Hs. cbn.
    rewrite list_insert_id by done. rewrite <-Hs. by destruct p. }
  destruct (handle_step_spec overflow_checks o f w Hok) as (f1 & Hstep & Hview & Hok1 & Hsame); [apply Ho|].
  assert (Hfdb : denotes p (if b then fd2 else fd) i) by by destruct b.
  pose proof (step_handle buf _ o i f w fs p Hbuf Ho Hfdb Hs Hf) as Hcall.
  rewrite Hstep in Hcall. cbn [fst snd] in Hcall.
  destruct (HandleSpec.step _ _ o (view f)) as [r s1] eqn:Hspec. cbn [fst snd] in Hview, Hcall. subst s1.
  assert (Ha : appends f1 = appends f).
  { unfold appends. by destruct Hsame as (_ & _ & -> & _). }
  specialize (IH f1 (<[i := FileOps f1]> fs) (with_handle i f1 w p) Hfd Hfd2). rewrite Ha in IH.
  assert (Hp : r = VPanic ∨ r ≠ VPanic) by (destruct r; naive_solver). cbn [fmap list_fmap snd].
  destruct Hp as [->|Hr].
  { cbn [HandleSpec.run]. rewrite Hspec. set_solver. }
  rewrite (run_cons _ _ _ _ r (view f1)) by done.
  destruct (HandleSpec.run _ _ _ (view f1)) as [rs final]. intros [_ Hrs]%not_elem_of_cons.
  destruct IH as (outs & f' & Hex & Houts & Hv & Hok' & Hsame');
    [by unfold with_handle; rewrite Hs|by apply list_lookup_insert_eq; eapply lookup_lt_Some|done..|].
  destruct (reply_ok r Hr) as [vo Hvo]. rewrite Hvo in Hcall.
  exists (vo :: outs), f'. split_and!; [|by cbn; rewrite Hvo, Houts|done|done|by eapply same_file_trans].
  eapply exec_cons; [exact Hcall|]. refine (eq_trans Hex _). unfold with_handle. cbn.
  by rewrite list_insert_insert_eq.
Qed.

(** ** Closing *)

Lemma close_clean f w : fo_dirty f = false → SqliteVfs.close chunk_size (f, w) = (VOk tt, (f, w)).
Proof.
  intros Hd. unfold SqliteVfs.close, fsync, mbind, VM_bind, get_file. cbn [fst snd]. by rewrite Hd.
Qed.

(** The process without a descriptor. *)
Definition drop_fd (fd : Z) (p : Process) : Process :=
  mkProc (deallocate fd (fd_table p)).2 (vfs_state p) (kernel_state p).

Lemma exec_close fd (i : nat) f w fs f' w' (p : Process) : denotes p fd i →
  vfs_state p = (fs, w) → fs !! i = Some (FileOps f) →
  SqliteVfs.close chunk_size (f, w) = (VOk tt, (f', w')) →
  step (Close fd) p = (SOk (0, NoOut), drop_fd fd (with_handle i f' w' p)).
Proof.
  intros Hfd Hs Hf Hc. rewrite (step_close _ _ _ p fd i (<[i := FileOps f']> fs, w')); [|done|].
  - unfold drop_fd, with_handle. cbn. by rewrite Hs.
  - rewrite Hs. cbn [VirtualFs.close objects sandbox_vfs]. unfold on_handle. cbn [fst snd].
    by rewrite Hf, Hc.
Qed.

Lemma drop_entries fd (p : Process) : table_ok (fd_table p) →
  entries (fd_table (drop_fd fd p)) = base.delete fd (entries (fd_table p)) ∧
  table_ok (fd_table (drop_fd fd p)).
Proof.
  intros Hok. pose proof (deallocate_spec (fd_table p) fd Hok) as Hd. unfold drop_fd. cbn [fd_table].
  destruct (deallocate fd (fd_table p)) as [old t]. apply Hd.
Qed.

(** ** Opening twice *)

Lemma duplicate_some {F} old t (e : FdEntry F) fd t' :
  entries t !! old = Some e → allocate e t = Some (fd, t') → duplicate old t = Some (Some fd, t').
Proof. intros He Ha. unfold duplicate, get. rewrite He. cbn. by rewrite Ha. Qed.

Definition entry_of (i : nat) (flags : Z) (path : string) : FdEntry (VirtualFs.FileRef (t := objects)) :=
  Virtual i flags (Some path).

Lemma exec_open_dup path mount_point x flags mode b w1 fs w (p : Process) :
  resolve mount_table path = Some (Sqlite mount_point, x) →
  SqliteVfs.open chunk_size mount_point path flags (tt, w) = (VOk b, (tt, w1)) →
  table_ok (fd_table p) → Z.of_nat (size (entries (fd_table p))) + 2 <= i32_MAX - FIRST_USER_FD →
  vfs_state p = (fs, w) →
  ∃ fd fd2 t, fd ≠ fd2 ∧
    exec [Openat AT_FDCWD (Some path) flags mode; Dup fd] p =
      (SOk [(fd, NoOut); (fd2, NoOut)], mkProc (S := Files) t (fs ++ [b], w1) (kernel_state p)) ∧
    table_ok t ∧ entries (fd_table p) !! fd = None ∧ entries (fd_table p) !! fd2 = None ∧
    entries t = <[fd2 := entry_of (length fs) flags path]>
      (<[fd := entry_of (length fs) flags path]> (entries (fd_table p))).
Proof.
  intros Hres Hopen Hok Hroom Hs.
  set (e := entry_of (length fs) flags path).
  destruct (allocate_takes (fd_table p) e Hok) as (fd & t1 & Ha1 & (_ & Hfd & _) & He1 & Hok1); [lia|].
  assert (Hsize : size (entries t1) = (1 + size (entries (fd_table p)))%nat).
  { rewrite He1. by apply map_size_insert_None. }
  destruct (allocate_takes t1 e Hok1) as (fd2 & t2 & Ha2 & (_ & Hfd2 & _) & He2 & Hok2); [lia|].
  rewrite He1 in Hfd2. apply lookup_insert_None in Hfd2 as [Hfd2 Hne].
  assert (Hget : entries t1 !! fd = Some e) by (rewrite He1; apply lookup_insert_eq).
  exists fd, fd2, t2. split_and!; [done| |done..|by etrans; [exact He2|rewrite He1]].
  eapply exec_cons; [|eapply exec_cons; [|done]].
  - apply (step_open _ _ _ p path flags mode (Sqlite mount_point) x (length fs) (fs ++ [b], w1) fd t1);
      [done..| |done]. rewrite Hs. cbn [VirtualFs.open objects sandbox_vfs].
    unfold mbind, VM_bind, on_mount, new_handle. cbn [fst snd]. by rewrite Hopen.
  - apply (step_dup (V := objects) _ _ _ (mkProc (S := Files) t1 (fs ++ [b], w1) (kernel_state p)) fd
      (length fs) fd2 t2).
    + exists flags, (Some path). exact Hget.
    + by apply (duplicate_some _ _ e).
Qed.

Lemma exec_app cs1 cs2 (p p1 p2 : Process) rs1 rs2 :
  exec cs1 p = (SOk rs1, p1) → exec cs2 p1 = (SOk rs2, p2) → exec (cs1 ++ cs2) p = (SOk (rs1 ++ rs2), p2).
Proof.
  revert p rs1. induction cs1 as [|c cs1 IH]; intros p rs1 H1 H2; [by injection H1 as <- <-|].
  cbn [exec app] in *. unfold mbind, SM_bind in *. destruct (step c p) as [[r|e|] q]; [|done..].
  destruct (exec cs1 q) as [[rs|e|] q'] eqn:Hq; [|done..]. injection H1 as <- <-.
  by rewrite (IH _ _ Hq H2).
Qed.

(** C39: a file of a SQLite mount, as a process sees it.  A process opens a path below the
    mount that leads to a file, duplicates the descriptor, reads, writes and seeks through
    either descriptor in any order, and closes both.  Every call answers as on one byte string
    with one offset, which the two descriptors share ([HandleSpec]); nothing is written before
    the first is closed; afterwards the filesystem holds exactly that byte string in the file,
    and in every other file what it held; the descriptor table is what it was, and the kernel
    was not asked once. *)
Theorem syscall_file_session path mount_point x rel flags mode d n ino r ops buf fs w (p : Process) :
  0 < chunk_size → fs_wf chunk_size (w_db w) → healthy w →
  resolve mount_table path = Some (Sqlite mount_point, x) →
  translate_to_relative mount_point path = inr rel → located rel (w_db w) d n →
  fs_dentry (w_db w) !! (d, n) = Some ino → fs_inode (w_db w) !! ino = Some r → dir_row r = false →
  buf ≠ 0 → Forall (λ o : bool * handle_op, call_ok o.2) ops →
  table_ok (fd_table p) → Z.of_nat (size (entries (fd_table p))) + 2 <= i32_MAX - FIRST_USER_FD →
  vfs_state p = (fs, w) →
  let start := if has_flag flags O_TRUNC then [] else contents chunk_size (w_db w) ino in
  let '(rs, final) :=
    HandleSpec.run overflow_checks (has_flag flags O_APPEND) (snd <$> ops) (start, 0) in
  VPanic ∉ rs →
  ∃ fd fd2 outs p1 p2,
    exec (Openat AT_FDCWD (Some path) flags mode :: Dup fd :: calls_of buf fd fd2 ops) p =
      (SOk ((fd, NoOut) :: (fd2, NoOut) :: outs), p1) ∧
    SOk <$> outs = reply_of <$> rs ∧ w_db (vfs_state p1).2 = w_db w ∧
    exec [Close fd; Close fd2] p1 = (SOk [(0, NoOut); (0, NoOut)], p2) ∧
    contents chunk_size (w_db (vfs_state p2).2) ino = final.1 ∧
    only_file ino (w_db w) (w_db (vfs_state p2).2) ∧
    entries (fd_table p2) = entries (fd_table p) ∧ kernel_state p2 = kernel_state p.
Proof.
  intros Hcs Hwf Hh Hres Hrel Hloc He Hr Hdir Hbuf Hops Hok Hroom Hs start.
  destruct (open_run chunk_size mount_point path rel flags d n ino r w) as [mem' Hopen]; [done..|].
  set (f := opened flags ino rel (contents chunk_size (w_db w) ino)) in *.
  set (w1 := set_mem mem' w) in *.
  destruct (exec_open_dup path mount_point x flags mode (FileOps f) w1 fs w p)
    as (fd & fd2 & t & Hne & Hex & Hokt & Hfd & Hfd2 & Het); [done..|].
  set (q := mkProc t _ _) in Hex.
  assert (Hd1 : denotes q fd (length fs)).
  { exists flags, (Some path). refine (eq_trans (f_equal (base.lookup fd) Het) _).
    rewrite lookup_insert_ne by done. apply lookup_insert_eq. }
  assert (Hd2 : denotes q fd2 (length fs)).
  { exists flags, (Some path). refine (eq_trans (f_equal (base.lookup fd2) Het) _). apply lookup_insert_eq. }
  assert (Hch : chunks_ok chunk_size (w_db w)) by apply (wf_core _ _ Hwf).
  assert (Hfok : handle_ok f) by by apply opened_ok.
  pose proof (exec_handle buf fd fd2 ops (length fs) f w1 (fs ++ [FileOps f]) q Hbuf Hops Hd1 Hd2 eq_refl
    (list_lookup_middle fs [] (FileOps f) _ eq_refl) Hfok) as Hrun.
  change (appends f) with (has_flag flags O_APPEND) in Hrun. change (view f) with (start, 0) in Hrun.
  destruct (HandleSpec.run _ _ _ (start, 0)) as [rs final]. intros Hrs.
  destruct (Hrun Hrs) as (outs & f1 & Hex1 & Houts & Hview & [_ Hlen] & Hsame). clear Hrun.
  set (p1 := with_handle (length fs) f1 w1 q) in *.
  destruct (close_opened chunk_size flags ino rel r f1 w1) as (f2 & w2 & Hclose & Hc & Hof & Hclean); [done..|].
  assert (Hf1 : ((vfs_state p1).1 : list BoxedFileOps) !! length fs = Some (FileOps f1)).
  { cbn. apply list_lookup_insert_eq. rewrite length_app. cbn. lia. }
  pose proof (exec_close fd (length fs) f1 w1 (vfs_state p1).1 f2 w2 p1 Hd1 eq_refl Hf1 Hclose) as Hc1.
  set (p2 := drop_fd fd _) in Hc1.
  destruct (drop_entries fd (with_handle (length fs) f2 w2 p1) Hokt) as [He1 Hok1]. fold p2 in He1, Hok1.
  assert (Hd2' : denotes p2 fd2 (length fs)).
  { exists flags, (Some path). refine (eq_trans (f_equal (base.lookup fd2) He1) _).
    rewrite lookup_delete_ne by done.
    refine (eq_trans (f_equal (base.lookup fd2) Het) _). apply lookup_insert_eq. }
  assert (Hf2 : ((vfs_state p2).1 : list BoxedFileOps) !! length fs = Some (FileOps f2)).
  { cbn. apply list_lookup_insert_eq. rewrite length_insert, length_app. cbn. lia. }
  pose proof (exec_close fd2 (length fs) f2 w2 (vfs_state p2).1 f2 w2 p2 Hd2' eq_refl Hf2
    (close_clean f2 w2 Hclean)) as Hc2.
  set (p3 := drop_fd fd2 _) in Hc2.
  destruct (drop_entries fd2 (with_handle (length fs) f2 w2 p2) Hok1) as [He2 Hok2]. fold p3 in He2, Hok2.
  exists fd, fd2, outs, p1, p3. split_and!; [|done|done| |by subst final|done| |done].
  - by apply (exec_app [_; _] _ p q p1 [_; _] outs).
  - eapply exec_cons; [exact Hc1|]. eapply exec_cons; [exact Hc2|]. done.
  - refine (eq_trans He2 _). change (entries (fd_table (with_handle (length fs) f2 w2 p2)))
      with (entries (fd_table p2)). rewrite He1.
    change (entries (fd_table (with_handle (length fs) f2 w2 p1))) with (entries t). rewrite Het.
    rewrite delete_insert_ne by done. rewrite delete_insert_id; [by rewrite delete_insert_id|].
    by rewrite lookup_delete_ne, lookup_insert_ne by done.
Qed.
End Files.
