(* ===== verification/Permissions.v ===== *)
(** * Permissions: who may do what

    [cli/src/nfsserve/permissions.rs]: the credentials of a caller against the
    attributes of a file.  The octal literals of the source are written in
    hexadecimal.  [access_granted] gives the rule of every decision in the module. *)
From S2P Require Import Prelude Types Xdr NfsTypes.

Definition S_IRUSR : Z := 0x100.
Definition S_IWUSR : Z := 0x80.
Definition S_IXUSR : Z := 0x40.
Definition S_IRGRP : Z := 0x20.
Definition S_IWGRP : Z := 0x10.
Definition S_IXGRP : Z := 0x8.
Definition S_IROTH : Z := 0x4.
Definition S_IWOTH : Z := 0x2.
Definition S_IXOTH : Z := 0x1.
Definition S_ISVTX : Z := 0x200.

Definition ACCESS3_READ : Z := 0x0001.
Definition ACCESS3_LOOKUP : Z := 0x0002.
Definition ACCESS3_MODIFY : Z := 0x0004.
Definition ACCESS3_EXTEND : Z := 0x0008.
Definition ACCESS3_DELETE : Z := 0x0010.
Definition ACCESS3_EXECUTE : Z := 0x0020.

Inductive Permission := Read | Write | Execute.

(** [(a & b) != 0]. *)
Definition has_bit (a b : Z) : bool := negb (Z.land a b =? 0).

(** [auth.gids.contains(&gid)]. *)
Definition gids_contain (auth : auth_unix) (gid : Z) : bool := bool_decide (gid ∈ au_gids auth).

Definition is_in_group (auth : auth_unix) (gid : Z) : bool :=
  if au_gid auth =? gid then true else gids_contain auth gid.

Definition check_permission (auth : auth_unix) (attr : fattr3) (perm : Permission) : bool :=
  let mode := fa_mode attr in
  if au_uid auth =? 0 then true
  else
    let '(read_bit, write_bit, exec_bit) :=
      if au_uid auth =? fa_uid attr then (S_IRUSR, S_IWUSR, S_IXUSR)
      else if is_in_group auth (fa_gid attr) then (S_IRGRP, S_IWGRP, S_IXGRP)
      else (S_IROTH, S_IWOTH, S_IXOTH) in
    match perm with
    | Read => has_bit mode read_bit
    | Write => has_bit mode write_bit
    | Execute => has_bit mode exec_bit
    end.

Definition can_read (auth : auth_unix) (attr : fattr3) : bool := check_permission auth attr Read.
Definition can_write (auth : auth_unix) (attr : fattr3) : bool := check_permission auth attr Write.
Definition can_execute (auth : auth_unix) (attr : fattr3) : bool :=
  check_permission auth attr Execute.

Definition compute_access (auth : auth_unix) (attr : fattr3) (requested : Z) : Z :=
  let is_dir := bool_decide (fa_ftype attr = NF3DIR) in
  let grant (bit : Z) (condition : bool) (result : Z) :=
    if has_bit requested bit && condition then Z.lor result bit else result in
  let result := 0 in
  let result := grant ACCESS3_READ (can_read auth attr) result in
  let result := grant ACCESS3_LOOKUP (is_dir && can_execute auth attr) result in
  let result := grant ACCESS3_MODIFY (can_write auth attr) result in
  let result := grant ACCESS3_EXTEND (can_write auth attr) result in
  let result := grant ACCESS3_DELETE (is_dir && can_write auth attr) result in
  grant ACCESS3_EXECUTE (negb is_dir && can_execute auth attr) result.

Definition can_modify_directory (auth : auth_unix) (dir_attr : fattr3) : bool :=
  can_write auth dir_attr && can_execute auth dir_attr.

Definition can_delete_entry (auth : auth_unix) (dir_attr entry_attr : fattr3) : bool :=
  if negb (can_modify_directory auth dir_attr) then false
  else if Z.land (fa_mode dir_attr) S_ISVTX =? 0 then true
  else (au_uid auth =? 0) || (au_uid auth =? fa_uid dir_attr) || (au_uid auth =? fa_uid entry_attr).

Definition is_owner (auth : auth_unix) (attr : fattr3) : bool :=
  (au_uid auth =? 0) || (au_uid auth =? fa_uid attr).

(** ** What the rules are

    A caller is judged by one class: its own files by the bits of the owner, even where
    group or others have more; otherwise files of its groups by the bits of the group;
    otherwise by the bits of the others.  [rwx] numbers the permissions within a class. *)
Module Rules.
Inductive class := Owner | Group | Other.

Definition class_of (auth : auth_unix) (attr : fattr3) : class :=
  if decide (au_uid auth = fa_uid attr) then Owner
  else if decide (fa_gid attr ∈ au_gid auth :: au_gids auth) then Group
  else Other.

Definition shift (c : class) : Z := match c with Owner => 6 | Group => 3 | Other => 0 end.
Definition rwx (p : Permission) : Z := match p with Read => 2 | Write => 1 | Execute => 0 end.

Definition allowed (auth : auth_unix) (attr : fattr3) (p : Permission) : bool :=
  bool_decide (au_uid auth = 0) || Z.testbit (fa_mode attr) (shift (class_of auth attr) + rwx p).

(** The bits of ACCESS, from the lowest. *)
Definition access (auth : auth_unix) (attr : fattr3) (bit : Z) : bool :=
  let dir := bool_decide (fa_ftype attr = NF3DIR) in
  match bit with
  | 0 => allowed auth attr Read
  | 1 => dir && allowed auth attr Execute
  | 2 | 3 => allowed auth attr Write
  | 4 => dir && allowed auth attr Write
  | 5 => negb dir && allowed auth attr Execute
  | _ => false
  end.

(** Sticky directories protect entries from all but their owners and root. *)
Definition may_delete (auth : auth_unix) (dir entry : fattr3) : bool :=
  allowed auth dir Write && allowed auth dir Execute &&
  implb (Z.testbit (fa_mode dir) 9)
        (bool_decide (au_uid auth ∈ [0; fa_uid dir; fa_uid entry])).
End Rules.

(** ** Lemmas *)

Lemma has_bit_pow2 a n : 0 <= n → has_bit a (2 ^ n) = Z.testbit a n.
Proof.
  intros Hn. unfold has_bit. destruct (Z.testbit a n) eqn:Ht.
  - apply negb_true_iff, Z.eqb_neq. intros H0. apply (f_equal (λ z, Z.testbit z n)) in H0.
    rewrite Z.land_spec, Ht, Z.pow2_bits_true, Z.bits_0 in H0 by done. done.
  - apply negb_false_iff, Z.eqb_eq, Z.bits_inj'. intros m Hm.
    rewrite Z.land_spec, Z.bits_0. destruct (decide (m = n)) as [->|].
    + by rewrite Ht.
    + by rewrite Z.pow2_bits_false, andb_false_r.
Qed.

Lemma check_permission_allowed auth attr p :
  check_permission auth attr p = Rules.allowed auth attr p.
Proof.
  unfold check_permission, Rules.allowed, Rules.class_of, is_in_group, gids_contain.
  destruct (Z.eqb_spec (au_uid auth) 0); [by rewrite bool_decide_true|].
  rewrite (bool_decide_false (au_uid auth = 0)) by done.
  destruct (Z.eqb_spec (au_uid auth) (fa_uid attr)) as [|Hu];
    [rewrite decide_True by done|rewrite decide_False by done].
  { destruct p; by rewrite <-has_bit_pow2. }
  destruct (Z.eqb_spec (au_gid auth) (fa_gid attr)) as [->|Hg].
  { rewrite decide_True by left. destruct p; by rewrite <-has_bit_pow2. }
  case_bool_decide; [rewrite decide_True by (by right)|rewrite decide_False by (by intros [|]%elem_of_cons)];
    destruct p; by rewrite <-has_bit_pow2.
Qed.

Lemma testbit_grant (requested bit result n : Z) (c : bool) : 0 <= n →
  Z.testbit (if has_bit requested (2 ^ bit) && c then Z.lor result (2 ^ bit) else result) n =
    Z.testbit result n || ((n =? bit) && has_bit requested (2 ^ bit) && c).
Proof.
  intros Hn. destruct (has_bit requested (2 ^ bit) && c) eqn:Hc.
  - rewrite <-andb_assoc, Hc, Z.lor_spec, andb_true_r. f_equal.
    destruct (Z.eqb_spec n bit) as [->|Hne]; [by apply Z.pow2_bits_true|by apply Z.pow2_bits_false].
  - by rewrite <-andb_assoc, Hc, andb_false_r, orb_false_r.
Qed.

Lemma compute_access_bits auth attr requested n : 0 <= n →
  Z.testbit (compute_access auth attr requested) n =
    Z.testbit requested n && Rules.access auth attr n.
Proof.
  intros Hn. unfold compute_access, can_read, can_write, can_execute.
  change ACCESS3_READ with (2 ^ 0). change ACCESS3_LOOKUP with (2 ^ 1).
  change ACCESS3_MODIFY with (2 ^ 2). change ACCESS3_EXTEND with (2 ^ 3).
  change ACCESS3_DELETE with (2 ^ 4). change ACCESS3_EXECUTE with (2 ^ 5).
  cbv zeta. rewrite !testbit_grant, !check_permission_allowed, Z.bits_0 by done.
  rewrite !has_bit_pow2 by done. unfold Rules.access.
  destruct (decide (n < 6)) as [Hlt|].
  - assert (0 <= n < 6) as Hr by done. clear Hn Hlt.
    bit_cases n; cbn -[Z.testbit Rules.allowed]; by rewrite ?orb_false_r.
  - replace (n =? 0) with false by lia. replace (n =? 1) with false by lia.
    replace (n =? 2) with false by lia. replace (n =? 3) with false by lia.
    replace (n =? 4) with false by lia. replace (n =? 5) with false by lia.
    cbn [andb orb]. destruct n as [|[[|[]|]|[|[]|]|]|]; try lia; by rewrite andb_false_r.
Qed.

Lemma can_delete_entry_rules auth dir entry :
  can_delete_entry auth dir entry = Rules.may_delete auth dir entry.
Proof.
  unfold can_delete_entry, can_modify_directory, can_write, can_execute, Rules.may_delete.
  rewrite !check_permission_allowed.
  destruct (Rules.allowed auth dir Write && Rules.allowed auth dir Execute); [|done]. cbn [negb andb].
  rewrite <-has_bit_pow2 by done. unfold has_bit. change S_ISVTX with (2 ^ 9).
  destruct (Z.land (fa_mode dir) (2 ^ 9) =? 0); [done|]. cbn [negb implb].
  apply eq_bool_prop_intro. rewrite bool_decide_spec, !elem_of_cons, elem_of_nil, !orb_True, !Is_true_true.
  rewrite !Z.eqb_eq. tauto.
Qed.

(** * Properties *)

(** Every decision follows the classes of Unix permissions.  Root may do anything;
    any other caller is judged by the bits of the first class it belongs to, owner,
    group or others.  ACCESS grants exactly the requested bits that the permissions
    allow, LOOKUP and DELETE on directories only, EXECUTE on files only.  Entries of a
    sticky directory are removed only by the owners of entry or directory, or root. *)
Theorem access_granted auth attr entry requested :
  (∀ p, check_permission auth attr p = Rules.allowed auth attr p) ∧
  (∀ n, 0 <= n → Z.testbit (compute_access auth attr requested) n =
     Z.testbit requested n && Rules.access auth attr n) ∧
  can_delete_entry auth attr entry = Rules.may_delete auth attr entry ∧
  is_owner auth attr = bool_decide (au_uid auth ∈ [0; fa_uid attr]).
Proof.
  split; [apply check_permission_allowed|]. split; [intros n; apply compute_access_bits|].
  split; [apply can_delete_entry_rules|].
  unfold is_owner. apply eq_bool_prop_intro.
  rewrite bool_decide_spec, !elem_of_cons, elem_of_nil, orb_True, !Is_true_true, !Z.eqb_eq. tauto.
Qed.
