(* ===== verification/Options.v ===== *)
(** * Options: naming a database, and the mounts

    The first part of [sdk/rust/src/lib.rs]: the options of an agent, which names are
    admissible, which file a name or a path stands for, and the mounts of [/proc/mounts];
    and what [agentfs init] does before it opens a database.
    The disk of the host is foreign: operations test and change it through [HostDisk]. *)
From S2P Require Import Prelude Types Engine Path Utf8 Xdr.

(** ** Characters *)

(** [str::chars]: the code points of a string; on UTF-8 every case is exact. *)
Fixpoint chars (l : list Z) : list Z :=
  match l with
  | [] => []
  | a :: l1 =>
      if a <? 0x80 then a :: chars l1
      else match l1 with
      | [] => []
      | b :: l2 =>
          if a <? 0xe0 then ((a - 0xc0) * 64 + (b - 0x80)) :: chars l2
          else match l2 with
          | [] => []
          | c :: l3 =>
              if a <? 0xf0
              then ((a - 0xe0) * 4096 + (b - 0x80) * 64 + (c - 0x80)) :: chars l3
              else match l3 with
              | [] => []
              | d :: l4 =>
                  ((a - 0xf0) * 262144 + (b - 0x80) * 4096 + (c - 0x80) * 64 + (d - 0x80))
                    :: chars l4
              end
          end
      end
  end.

(** [char::is_alphanumeric]; the tables of Unicode are a parameter. *)
Class Unicode := unicode_alphanumeric : Z → bool.
Definition is_alphanumeric `{Unicode} (c : Z) : bool :=
  if c <? 0x80
  then between 0x30 0x39 c || between 0x41 0x5a c || between 0x61 0x7a c
  else unicode_alphanumeric c.

(** ** The options *)

(** The options of partial syncs are values of the [turso] crate. *)
Class Turso := PartialSyncOpts : Type.

Section Options.
Context {U : Unicode} {Tu : Turso}.

Record SyncOptions := mkSync {
  remote_url : option string;
  auth_token : option string;
  partial_sync : option PartialSyncOpts
}.
Definition SyncOptions_default : SyncOptions := mkSync None None None.

Record EncryptionConfig := mkEncryption { hex_key : string; cipher : string }.

Record AgentFSOptions := mkOptions {
  id : option string;
  path : option string;
  base : option string;
  sync : SyncOptions;
  encryption : option EncryptionConfig
}.

(** ['-'] and ['_']. *)
Definition id_char (c : Z) : bool := is_alphanumeric c || (c =? 0x2d) || (c =? 0x5f).

Definition validate_agent_id (id : string) : bool :=
  negb (String.eqb id "") && forallb id_char (chars (byte_val <$> as_bytes id)).

Definition with_id (id : string) : AgentFSOptions :=
  mkOptions (Some id) None None SyncOptions_default None.
Definition ephemeral : AgentFSOptions :=
  mkOptions None None None SyncOptions_default None.
Definition with_path (path : string) : AgentFSOptions :=
  mkOptions None (Some path) None SyncOptions_default None.
Definition with_sync (s : SyncOptions) (o : AgentFSOptions) : AgentFSOptions :=
  mkOptions (id o) (path o) (base o) s (encryption o).
Definition with_base (b : string) (o : AgentFSOptions) : AgentFSOptions :=
  mkOptions (id o) (path o) (Some b) (sync o) (encryption o).
Definition with_encryption (e : EncryptionConfig) (o : AgentFSOptions) : AgentFSOptions :=
  mkOptions (id o) (path o) (base o) (sync o) (Some e).
Definition with_encryption_key (key cipher : string) (o : AgentFSOptions) : AgentFSOptions :=
  with_encryption (mkEncryption key cipher) o.

Definition agentfs_dir : string := ".agentfs".
(** [format!("{}/{}.db", agentfs_dir.display(), id)]; [join] gives the same path. *)
Definition agent_db (id : string) : string := agentfs_dir +:+ "/" +:+ id +:+ ".db".
End Options.

(** ** The disk of the host *)
Class HostDisk := {
  disk : Type;
  exists_ : disk → string → bool;
  is_file : disk → string → bool;
  is_dir : disk → string → bool;
  create_dir_all : disk → string → Error.t + disk
}.

Section Resolve.
Context {U : Unicode} {Tu : Turso} {H : HostDisk} {D : Type}.

Definition test (f : disk → string → bool) (p : string) : M D disk bool :=
  with_mem (λ h, (f h p, h)).
Definition mkdirs (p : string) : M D disk unit :=
  r ← with_mem (λ h, match create_dir_all h p with
                     | inl e => (inl e, h)
                     | inr h' => (inr tt, h')
                     end);
  match r with inl e => throw e | inr _ => mret tt end.

Definition db_path (o : AgentFSOptions) : M D disk string :=
  match path o with
  | Some p => mret p
  | None =>
      match id o with
      | Some i =>
          if negb (validate_agent_id i) then throw (Error.InvalidAgentId i)
          else
            there ← test exists_ agentfs_dir;
            (if negb there then mkdirs agentfs_dir else mret tt) ;;
            mret (agent_db i)
      | None => mret ":memory:"
      end
  end.

(** The join below [.agentfs] is UTF-8, since both parts are. *)
Definition resolve (id_or_path : string) : M D disk AgentFSOptions :=
  if String.eqb id_or_path ":memory:" then mret ephemeral
  else
    known ← (if validate_agent_id id_or_path
             then test exists_ (path_join agentfs_dir (id_or_path +:+ ".db"))
             else mret false);
    if (known : bool) then mret (with_path (path_join agentfs_dir (id_or_path +:+ ".db")))
    else
      file ← test is_file id_or_path;
      if (file : bool) then mret (with_path id_or_path)
      else if validate_agent_id id_or_path then
        throw (Error.AgentNotFound id_or_path
                 (path_join agentfs_dir (id_or_path +:+ ".db")))
      else throw (Error.InvalidAgentId id_or_path).
End Resolve.

(** ** [agentfs init]

    What [init_database] ([cli/src/cmd/init.rs]) does before it opens the database. *)
Class HostDirs `{HostDisk} := {
  read_dir : disk → string → Error.t + list string;
  remove_file : disk → string → Error.t + disk
}.

Section Init.
Context {U : Unicode} {H : HostDisk} {Hd : HostDirs} {D : Type}.

(** The files of the directory whose names start with [id], one after the other. *)
Fixpoint remove_matching (id : string) (names : list string) : M D disk unit :=
  match names with
  | [] => mret tt
  | file_name :: names =>
      (if starts_with file_name id then
         r ← with_mem (λ h, match remove_file h (path_join agentfs_dir file_name) with
                            | inl e => (inl e, h)
                            | inr h' => (inr tt, h')
                            end);
         match r with inl e => throw e | inr _ => mret tt end
       else mret tt) ;;
      remove_matching id names
  end.

Definition prepare_database (id : string) (force : bool) (base : option string) : M D disk unit :=
  if negb (validate_agent_id id) then throw (Error.Internal ("Invalid agent ID '" +:+ id +:+ "'"))
  else
    (match base with
     | None => mret tt
     | Some base_path =>
         there ← test exists_ base_path;
         if negb (there : bool) then
           throw (Error.Internal ("Base directory does not exist: " +:+ base_path))
         else
           dir ← test is_dir base_path;
           if negb (dir : bool) then
             throw (Error.Internal ("Base path is not a directory: " +:+ base_path))
           else mret tt
     end) ;;
    there ← test exists_ (path_join agentfs_dir (id +:+ ".db"));
    if (there : bool) then
      if force then
        names ← with_mem (λ h, (read_dir h agentfs_dir, h));
        match names with
        | inl e => throw e
        | inr names => remove_matching id names
        end
      else throw (Error.Internal ("Agent '" +:+ id +:+ "' already exists"))
    else mret tt.
End Init.

(** ** The mounts *)

Record Mount := mkMount { m_id : string; mountpoint : string }.

(** [str::lines]: what is between line feeds, without a carriage return before them; no
    empty line at the end. *)
Fixpoint split_lines (cur : list Z) (l : list Z) : list (list Z) :=
  match l with
  | [] => match cur with [] => [] | _ => [cur] end
  | a :: l =>
      if a =? 0x0a then
        (match reverse cur with
         | 0x0d :: r => reverse r
         | _ => cur
         end) :: split_lines [] l
      else split_lines (cur ++ [a]) l
  end.

(** [str::split_whitespace]; every round takes a byte. *)
Fixpoint words (fuel : nat) (cur : list Z) (l : list Z) : list (list Z) :=
  let flush rest := match cur with [] => rest | _ => cur :: rest end in
  match fuel, l with
  | S fuel, a :: l' =>
      match head (omap (λ p, strip_seq p l) white_space) with
      | Some rest => flush (words fuel [] rest)
      | None => words fuel (cur ++ [a]) l'
      end
  | _, _ => flush []
  end.
Definition split_whitespace (l : list Z) : list (list Z) := words (length l) [] l.

Definition of_bytes (l : list Z) : string := String.string_of_list_byte (val_byte <$> l).

(** One line of the table. *)
Definition parse_mount (line : list Z) : option Mount :=
  match of_bytes <$> split_whitespace line with
  | source :: target :: _ =>
      agent_id ← strip_prefix source "agentfs:";
      if String.eqb agent_id "fuse" then None else Some (mkMount agent_id target)
  | _ => None
  end.

(** [get_mounts], on what [/proc/mounts] holds; [None]: it cannot be read. *)
Definition get_mounts (contents : option string) : list Mount :=
  match contents with
  | None => []
  | Some s => omap parse_mount (split_lines [] (byte_val <$> as_bytes s))
  end.

Example mounts_parsed :
  get_mounts (Some ("proc /proc proc rw 0 0
agentfs:a-1 /mnt/a fuse rw 0 0
agentfs:fuse /mnt/b fuse rw 0 0
agentfs:c
")) = [mkMount "a-1" "/mnt/a"].
Proof. by vm_compute. Qed.

(** ** Names stay in their directory *)
Section Facts.
Context {U : Unicode} {Tu : Turso}.

(** A character of an agent's name is not one of ASCII's separators. *)
Lemma id_char_ascii c : id_char c = true → c < 0x80 → c ≠ 0x2f ∧ c ≠ 0x2e ∧ c ≠ 0.
Proof.
  unfold id_char, is_alphanumeric, between. intros Hc Hlt.
  rewrite (proj2 (Z.ltb_lt _ _) Hlt) in Hc.
  split_and!; intros ->; by vm_compute in Hc.
Qed.

Lemma between_true lo hi z : between lo hi z = true → lo <= z <= hi.
Proof. unfold between. intros ?; to_prop. lia. Qed.

Lemma continuation_high z : continuation z = true → 0x80 <= z.
Proof. intros H%between_true. lia. Qed.
Lemma second_high a b : second_of_three a b = true ∨ second_of_four a b = true → 0x80 <= b.
Proof.
  unfold second_of_three, second_of_four.
  intros [H|H]; repeat case_match; apply between_true in H; lia.
Qed.

(** In UTF-8 a byte below [0x80] is a character. *)
Lemma low_bytes_are_chars (P : Z → Prop) l :
  utf8_valid l = true → Forall (λ c, c < 0x80 → P c) (chars l) →
  Forall (λ b, b < 0x80 → P b) l.
Proof.
  remember (length l) as n eqn:Hn. revert l Hn.
  induction (lt_wf n) as [n _ IH]. intros l ->.
  assert (Hhigh : ∀ z, 0x80 <= z → z < 0x80 → P z) by (intros; lia).
  destruct l as [|a l1]; [done|]. cbn [utf8_valid chars].
  destruct (Z.ltb_spec a 0x80) as [Ha|Ha].
  { intros Hv [Hc Hcs]%Forall_cons. constructor; [done|]. eapply IH; [|done..]. simpl. lia. }
  destruct l1 as [|b l2]; [done|].
  destruct (between 0xc2 0xdf a) eqn:H2.
  { apply between_true in H2. rewrite (proj2 (Z.ltb_lt a 0xe0)) by lia.
    intros [Hb Hv]%andb_prop [_ Hcs]%Forall_cons. apply continuation_high in Hb.
    repeat (constructor; [by apply Hhigh|]). eapply IH; [|done..]. simpl. lia. }
  destruct l2 as [|c l3]; [done|].
  destruct (between 0xe0 0xef a) eqn:H3.
  { apply between_true in H3. rewrite (proj2 (Z.ltb_ge a 0xe0)), (proj2 (Z.ltb_lt a 0xf0)) by lia.
    intros [[Hb Hc]%andb_prop Hv]%andb_prop [_ Hcs]%Forall_cons.
    pose proof (second_high a b (or_introl Hb)). apply continuation_high in Hc.
    repeat (constructor; [by apply Hhigh|]). eapply IH; [|done..]. simpl. lia. }
  destruct l3 as [|e l4]; [done|].
  intros Hv. apply andb_prop in Hv as [Hv Hl4]. apply andb_prop in Hv as [Hv He].
  apply andb_prop in Hv as [Hv Hc]. apply andb_prop in Hv as [H4 Hb].
  apply between_true in H4. rewrite (proj2 (Z.ltb_ge a 0xe0)), (proj2 (Z.ltb_ge a 0xf0)) by lia.
  intros [_ Hcs]%Forall_cons.
  pose proof (second_high a b (or_intror Hb)). apply continuation_high in Hc, He.
  repeat (constructor; [by apply Hhigh|]). eapply IH; [|done..]. simpl. lia.
Qed.

(** No byte of an admissible name is a slash, a dot or zero. *)
Lemma agent_id_bytes i :
  utf8_valid (byte_val <$> as_bytes i) = true → validate_agent_id i = true →
  Forall (λ b, b ≠ 0x2f ∧ b ≠ 0x2e ∧ b ≠ 0) (byte_val <$> as_bytes i).
Proof.
  intros Hv [_ Hall]%andb_prop.
  assert (Forall (λ b, b < 0x80 → b ≠ 0x2f ∧ b ≠ 0x2e ∧ b ≠ 0) (byte_val <$> as_bytes i)) as Hb.
  { apply low_bytes_are_chars; [done|]. apply Forall_forall. intros c Hc.
    apply id_char_ascii. rewrite forallb_forall in Hall. by apply Hall, list_elem_of_In. }
  eapply Forall_impl; [exact Hb|]. intros b Hbb. cbn beta in Hbb.
  destruct (decide (b < 0x80)) as [|Hge]; [by apply Hbb|]. lia.
Qed.

Lemma as_bytes_cons a s :
  byte_val <$> as_bytes (String a s) = byte_val (Ascii.byte_of_ascii a) :: (byte_val <$> as_bytes s).
Proof. done. Qed.

Lemma no_slash_split s :
  Forall (λ b, b ≠ 0x2f) (byte_val <$> as_bytes s) → split_slash s = [s].
Proof.
  induction s as [|a s IH]; [done|]. rewrite as_bytes_cons. intros [Ha Hs]%Forall_cons. cbn [split_slash].
  destruct (Ascii.eqb_spec a slash) as [->|]; [by vm_compute in Ha|]. by rewrite IH.
Qed.

Lemma no_slash_app s t : split_slash s = [s] → split_slash t = [t] →
  split_slash (s +:+ t) = [s +:+ t].
Proof.
  revert t. induction s as [|a s IH]; [done|]. intros t. cbn [split_slash].
  change (String a s +:+ t) with (String a (s +:+ t)). cbn [split_slash].
  destruct (Ascii.eqb a slash).
  { done. }
  destruct (split_slash_cons s) as (p & ps & Hs). rewrite Hs. intros [= -> ->] Ht.
  by rewrite IH.
Qed.

Lemma agent_db_split i :
  utf8_valid (byte_val <$> as_bytes i) = true → validate_agent_id i = true →
  split_slash (agent_db i) = [agentfs_dir; i +:+ ".db"].
Proof.
  intros Hv Hid. unfold agent_db. change ("/" +:+ ?x) with (String slash x).
  rewrite split_slash_join. f_equal. apply no_slash_app; [|done].
  apply no_slash_split. eapply Forall_impl; [by apply agent_id_bytes|]. naive_solver.
Qed.

Lemma agent_file_plain i : validate_agent_id i = true → i +:+ ".db" ≠ "." ∧ i +:+ ".db" ≠ "..".
Proof.
  intros [Hne _]%andb_prop. destruct i as [|a i]; [done|]. by split; destruct i as [|? [|]].
Qed.

(** [Path::join] and [format!] name the same file. *)
Lemma agent_db_join i : validate_agent_id i = true →
  utf8_valid (byte_val <$> as_bytes i) = true →
  path_join agentfs_dir (i +:+ ".db") = agent_db i.
Proof.
  intros Hid Hv. unfold path_join, agent_db.
  destruct (starts_with (i +:+ ".db") "/") eqn:Hs; [|done].
  pose proof (agent_id_bytes i Hv Hid) as Hb.
  destruct i as [|a i]; [done|]. cbn [starts_with String.append] in Hs.
  change (String a i +:+ ".db") with (String a (i +:+ ".db")) in Hs. cbn [starts_with] in Hs.
  apply andb_prop in Hs as [Ha%Ascii.eqb_eq _]. subst a.
  rewrite as_bytes_cons in Hb.
  apply Forall_cons in Hb as [[Hb _] _]. by vm_compute in Hb.
Qed.

(** ** The properties *)
Context {H : HostDisk} {D : Type}.

(** C34: the name of an agent cannot lead out of [.agentfs].  [db_path] either refuses the
    name and leaves the disk alone, or fails to create the directory, or returns the file
    [<name>.db] directly below [.agentfs], the directory being the only thing it makes. *)
Theorem agent_id_confined (o : AgentFSOptions) i (w : World D disk) :
  path o = None → id o = Some i → utf8_valid (byte_val <$> as_bytes i) = true →
  (db_path o w = (Err (Error.InvalidAgentId i), w) ∧ validate_agent_id i = false) ∨
  (∃ e, db_path o w = (Err e, w) ∧ create_dir_all (w_mem w) agentfs_dir = inl e) ∨
  (∃ p w', db_path o w = (Ok p, w') ∧
    split_slash p = [agentfs_dir; i +:+ ".db"] ∧ i +:+ ".db" ≠ "." ∧ i +:+ ".db" ≠ ".." ∧
    (w' = w ∨ ∃ h, create_dir_all (w_mem w) agentfs_dir = inr h ∧ w' = set_mem h w)).
Proof.
  intros Hp Hi Hv. unfold db_path. rewrite Hp, Hi.
  destruct (validate_agent_id i) eqn:Hid; cbn [negb]; [|by left].
  right. destruct w as [d h fs clk t]. unfold test, mkdirs. run.
  destruct (exists_ h agentfs_dir); cbn [negb].
  - right. do 2 eexists. split; [done|]. split; [by apply agent_db_split|].
    destruct (agent_file_plain i Hid). split_and!; [done..|by left].
  - destruct (create_dir_all h agentfs_dir) as [e|h'] eqn:Hm.
    + left. exists e. by run.
    + right. do 2 eexists. split; [done|]. split; [by apply agent_db_split|].
      destruct (agent_file_plain i Hid). split_and!; [done..|right]. by exists h'.
Qed.

(** Names and paths lead where they should.  [resolve] changes nothing; what it returns
    is the ephemeral database for [:memory:], the agent of that name if its file exists, and
    else the file at that path; an agent made with [with_id] is found by its name, at the
    same path; only what is neither is refused, by the error that fits its form. *)
Theorem resolve_opens s (w : World D disk) :
  utf8_valid (byte_val <$> as_bytes s) = true →
  resolve s w =
    (if decide (s = ":memory:") then Ok ephemeral
     else if validate_agent_id s && exists_ (w_mem w) (agent_db s) then
       Ok (with_path (agent_db s))
     else if is_file (w_mem w) s then Ok (with_path s)
     else if validate_agent_id s then Err (Error.AgentNotFound s (agent_db s))
     else Err (Error.InvalidAgentId s), w) ∧
  (validate_agent_id s = true → exists_ (w_mem w) agentfs_dir = true →
   exists_ (w_mem w) (agent_db s) = true →
   ∃ o, resolve s w = (Ok o, w) ∧ db_path o w = db_path (with_id s) w).
Proof.
  intros Hv.
  assert (resolve s w =
    (if decide (s = ":memory:") then Ok ephemeral
     else if validate_agent_id s && exists_ (w_mem w) (agent_db s) then
       Ok (with_path (agent_db s))
     else if is_file (w_mem w) s then Ok (with_path s)
     else if validate_agent_id s then Err (Error.AgentNotFound s (agent_db s))
     else Err (Error.InvalidAgentId s), w)) as Hres.
  { destruct w as [d h fs clk t]. unfold resolve, test.
    destruct (String.eqb_spec s ":memory:") as [->|Hne]; [by rewrite decide_True|].
    rewrite decide_False by done. destruct (validate_agent_id s) eqn:Hid.
    - rewrite agent_db_join by done. run. destruct (exists_ h (agent_db s)); cbn [andb]; run; [done|].
      by destruct (is_file h s).
    - run. cbn [andb]. by destruct (is_file h s). }
  split; [done|]. intros Hid Hdir Hex. exists (with_path (agent_db s)). split.
  - rewrite Hres, Hid, Hex. rewrite decide_False; [done|]. by intros ->.
  - unfold db_path. cbn [path id with_path with_id]. rewrite Hid. cbn [negb].
    destruct w as [d h fs clk t]. cbn [w_mem] in *. unfold test. run. by rewrite Hdir.
Qed.
End Facts.
