(* ===== verification/Versions.v ===== *)
(** * Versions: the schema of a database, and its migration

    [sdk/rust/src/schema.rs] recognises the version of a database by the columns of
    [fs_inode]; [cli/src/cmd/migrate.rs] adds the columns that are missing.  Here a table is
    what an [ALTER TABLE] needs it to be: its columns, and rows that give them values.
    Every statement, and every line written to the terminal, may fail. *)
From S2P Require Import Prelude Types Engine Path Utf8 Options.

(** ** Tables with columns *)

Record Table := mkTable { columns : list string; rows : gmap Z (gmap string Z) }.

(** A database file, as far as migrations read and write it, and the terminal.  Databases
    made by something else may lack the tables. *)
Record File := mkFile {
  inode_table : option Table;
  config : option (gmap string string);
  stdout : list string
}.
Definition set_table (t : Table) (f : File) : File := mkFile (Some t) (config f) (stdout f).

(** What the engine documents of [ALTER TABLE ... ADD COLUMN]: the errors for a table that
    does not exist and for a column that does, told apart by their texts. *)
Definition contains (p s : string) : bool :=
  match String.index 0 p s with Some _ => true | None => false end.
Class AlterErrors := {
  error_text : Error.t → string;
  duplicate_column : Error.t;
  no_such_table : Error.t;
  duplicate_text : contains "duplicate column" (error_text duplicate_column) = true;
  missing_text : contains "duplicate column" (error_text no_such_table) = false
}.

(** [ADD COLUMN c INTEGER NOT NULL DEFAULT 0]. *)
Definition add (c : string) (t : Table) : Table :=
  mkTable (columns t ++ [c]) (<[c := 0]> <$> rows t).
Definition add_column `{AlterErrors} (c : string) (f : File) : Error.t + File :=
  match inode_table f with
  | None => inl no_such_table
  | Some t => if decide (c ∈ columns t) then inl duplicate_column
              else inr (set_table (add c t) f)
  end.

(** ** Versions *)

Definition AGENTFS_SCHEMA_VERSION : string := "0.4".

Module SchemaVersion.
Inductive t := V0_0 | V0_2 | V0_4.
#[global] Instance t_eq_dec : EqDecision t.
Proof. solve_decision. Defined.
Definition fmt (v : t) : string :=
  match v with V0_0 => "0.0" | V0_2 => "0.2" | V0_4 => "0.4" end.
Definition as_str (v : t) : string :=
  match v with V0_0 => "0.0" | V0_2 => "0.2" | V0_4 => "0.4" end.
Definition is_current (v : t) : bool := bool_decide (v = V0_4).
End SchemaVersion.
Import SchemaVersion.

Section Schema.
Context {C : Type}.

(** [PRAGMA table_info(fs_inode)]. *)
Definition get_table_columns : M File C (list string) :=
  query (λ f, match inode_table f with Some t => columns t | None => [] end).

Definition has (c : string) (cs : list string) : bool := bool_decide (c ∈ cs).

Definition version_of (cs : list string) : SchemaVersion.t :=
  if has "atime_nsec" cs && has "mtime_nsec" cs && has "ctime_nsec" cs && has "rdev" cs
  then V0_4
  else if has "nlink" cs then V0_2
  else V0_0.

Definition detect_schema_version : M File C (option SchemaVersion.t) :=
  there ← query (λ f, bool_decide (is_Some (inode_table f)));
  if negb (there : bool) then mret None
  else
    cs ← get_table_columns;
    mret (Some (version_of cs)).

Definition check_schema_version : M File C unit :=
  detected ← detect_schema_version;
  match detected with
  | Some version =>
      if negb (is_current version)
      then throw (Error.SchemaVersionMismatch (fmt version) AGENTFS_SCHEMA_VERSION)
      else mret tt
  | None => mret tt
  end.
End Schema.

(** ** The migrations *)
Section Migrate.
Context {A : AlterErrors} {C : Type}.

(** [writeln!(stdout, ...)?] *)
Definition say (line : string) : M File C unit :=
  update (λ f, mkFile (inode_table f) (config f) (stdout f ++ [line])).

Definition alter_table (c : string) : M File C unit :=
  engine_call ;; ((λ w,
    match add_column c (w_db w) with
    | inl e => (Err e, w)
    | inr f => (Ok tt, set_db f w)
    end) : M File C unit).

Definition add_column_idempotent (column_name : string) : M File C unit :=
  result ← try (alter_table column_name);
  match result with
  | Ok _ => say ("    Added " +:+ column_name +:+ " column to fs_inode")
  | Err e =>
      if contains "duplicate column" (error_text e)
      then say ("    " +:+ column_name +:+ " column already exists (skipping)")
      else throw e
  | Panic => panic
  end.

Definition migrate_v0_0_to_v0_2 : M File C unit :=
  say "  Migrating v0.0 -> v0.2..." ;;
  result ← try (alter_table "nlink");
  (match result with
   | Ok _ => say "    Added nlink column to fs_inode"
   | Err e =>
       if contains "duplicate column" (error_text e)
       then say "    nlink column already exists (skipping)"
       else throw e
   | Panic => panic
   end) ;;
  say "  v0.0 -> v0.2 migration complete.".

Definition migrate_v0_2_to_v0_4 : M File C unit :=
  say "  Migrating v0.2 -> v0.4..." ;;
  add_column_idempotent "atime_nsec" ;;
  add_column_idempotent "mtime_nsec" ;;
  add_column_idempotent "ctime_nsec" ;;
  add_column_idempotent "rdev" ;;
  say "  v0.2 -> v0.4 migration complete.".

Definition print_pending_migrations (from_version : SchemaVersion.t) : M File C unit :=
  match from_version with
  | V0_0 =>
      say "  - v0.0 -> v0.2: Add nlink column to fs_inode" ;;
      say "  - v0.2 -> v0.4: Add atime_nsec, mtime_nsec, ctime_nsec, rdev columns to fs_inode"
  | V0_2 =>
      say "  - v0.2 -> v0.4: Add atime_nsec, mtime_nsec, ctime_nsec, rdev columns to fs_inode"
  | V0_4 => mret tt
  end.

Definition apply_migrations (from_version : SchemaVersion.t) : M File C unit :=
  match from_version with
  | V0_0 => migrate_v0_0_to_v0_2 ;; migrate_v0_2_to_v0_4
  | V0_2 => migrate_v0_2_to_v0_4
  | V0_4 => mret tt
  end.

(** [INSERT OR REPLACE INTO fs_config (key, value) VALUES ('schema_version', ?)] *)
Definition store_version : M File C unit :=
  engine_call ;; ((λ w,
    match config (w_db w) with
    | None => (Err no_such_table, w)
    | Some cfg =>
        (Ok tt, set_db (mkFile (inode_table (w_db w))
           (Some (<["schema_version" := AGENTFS_SCHEMA_VERSION]> cfg)) (stdout (w_db w))) w)
    end) : M File C unit).

(** The handler from the opened database on; [bail!] and [context] only word errors. *)
Definition migrate_open (dry_run : bool) : M File C unit :=
  detected ← detect_schema_version;
  let current_version := default V0_0 detected in
  say ("Current schema version: " +:+ fmt current_version) ;;
  say ("Target schema version: " +:+ AGENTFS_SCHEMA_VERSION) ;;
  if decide (current_version = V0_4) then
    say "Database is already at the latest schema version."
  else if dry_run then
    say "
[DRY RUN] The following migrations would be applied:" ;;
    print_pending_migrations current_version ;;
    say "
Run without --dry-run to apply migrations."
  else
    say "
Applying migrations..." ;;
    apply_migrations current_version ;;
    store_version ;;
    say "
Migration completed successfully.".
End Migrate.

Section Command.
Context {A : AlterErrors} {U : Unicode} {Tu : Turso} {H : HostDisk}.

Definition handle_migrate_command (id_or_path : string) (dry_run : bool) : M File disk unit :=
  options ← resolve id_or_path;
  path ← db_path options;
  there ← test exists_ path;
  if negb (there : bool) then throw (Error.Internal ("Database not found: " +:+ path))
  else
    say ("Database: " +:+ path) ;;
    engine_call ;;
    engine_call ;;
    migrate_open dry_run.
End Command.

(** ** What a migration adds *)

Definition add_missing (t : Table) (c : string) : Table :=
  if decide (c ∈ columns t) then t else add c t.
Definition adds (cs : list string) (t : Table) : Table := foldl add_missing t cs.

(** The columns that take a version to the current one, in order. *)
Definition pending (v : SchemaVersion.t) : list string :=
  match v with
  | V0_0 => ["nlink"; "atime_nsec"; "mtime_nsec"; "ctime_nsec"; "rdev"]
  | V0_2 => ["atime_nsec"; "mtime_nsec"; "ctime_nsec"; "rdev"]
  | V0_4 => []
  end.

Lemma adds_app cs ds t : adds (cs ++ ds) t = adds ds (adds cs t).
Proof. apply foldl_app. Qed.

Lemma columns_adds cs t c : c ∈ columns (adds cs t) ↔ c ∈ columns t ∨ c ∈ cs.
Proof.
  revert t. induction cs as [|d cs IH]; intros t; simpl; [set_solver|].
  rewrite IH. unfold add_missing. case_decide; cbn [columns add]; set_solver.
Qed.

(** Nothing is lost, and what is new is zero. *)
Lemma rows_adds cs t ino :
  (rows (adds cs t) !! ino = None ↔ rows t !! ino = None) ∧
  ∀ row row', rows t !! ino = Some row → rows (adds cs t) !! ino = Some row' →
    (∀ c, c ∈ columns t → row' !! c = row !! c) ∧
    (∀ c, c ∈ cs → c ∉ columns t → row' !! c = Some 0).
Proof.
  revert t. induction cs as [|d cs IH]; intros t.
  { split; [done|]. simpl. intros ?? -> [= <-]. split; [done|]. by intros c ?%elem_of_nil. }
  change (adds (d :: cs) t) with (adds cs (add_missing t d)).
  destruct (IH (add_missing t d)) as [Hn Hr]. unfold add_missing in *. case_decide as Hd.
  { split; [done|]. intros row row' H1 H2. destruct (Hr _ _ H1 H2) as [Hold Hnew].
    split; [done|]. intros c [->|Hc]%elem_of_cons; [done|]. by apply Hnew. }
  cbn [rows add columns] in *. rewrite lookup_fmap in Hn, Hr. split.
  { rewrite Hn. apply fmap_None. }
  intros row row' H1 H2. rewrite H1 in Hr. destruct (Hr _ _ eq_refl H2) as [Hold Hnew]. split.
  - intros c Hc. rewrite Hold by set_solver. apply lookup_insert_ne. by intros ->.
  - intros c Hc Hni. destruct (decide (c = d)) as [->|Hne].
    + rewrite Hold by set_solver. apply lookup_insert_eq.
    + apply Hnew; set_solver.
Qed.

Lemma has_adds c cs t : has c (columns (adds cs t)) = has c (columns t) || has c cs.
Proof.
  unfold has. rewrite (bool_decide_ext _ _ (columns_adds cs t c)). apply bool_decide_or.
Qed.

(** The columns of the current version but for [nlink]. *)
Abbreviation v4_columns := (pending V0_2).

Lemma version_current cs : version_of cs = V0_4 ↔ v4_columns ⊆ cs.
Proof.
  unfold version_of, has. cbn [pending].
  rewrite <-!bool_decide_and. case_bool_decide as Hall; [set_solver|].
  split; [by case_bool_decide|]. intros Hsub. destruct Hall. split_and!; apply Hsub; set_solver.
Qed.
Lemma version_old cs : version_of cs = V0_0 → "nlink" ∉ cs.
Proof. unfold version_of, has. repeat case_bool_decide; done. Qed.
Lemma version_nlink cs : "nlink" ∈ cs → version_of cs = V0_2 ∨ version_of cs = V0_4.
Proof. intros Hn. destruct (version_of cs) eqn:Hv; [|by left|by right]. by apply version_old in Hv. Qed.

Lemma pending_current t : version_of (columns (adds (pending (version_of (columns t))) t)) = V0_4.
Proof.
  apply version_current. intros c Hc. apply columns_adds.
  destruct (version_of (columns t)) eqn:Hv; [right; by right|by right|left].
  apply version_current in Hv. by apply Hv.
Qed.

Lemma adds_absorb cs ds t : cs ⊆ columns t → adds (cs ++ ds) t = adds ds t.
Proof.
  revert t. induction cs as [|c cs IH]; intros t Hc; [done|].
  change (adds (cs ++ ds) (add_missing t c) = adds ds t).
  unfold add_missing. rewrite decide_True by set_solver. apply IH. set_solver.
Qed.

(** Stopped on the way, what is left to add gives the same table. *)
Lemma resume_from t n :
  let t' := adds (take n v4_columns) t in "nlink" ∈ columns t →
  adds (pending (version_of (columns t'))) t' = adds v4_columns t.
Proof.
  intros t' Hn.
  assert (adds v4_columns t = adds (drop n v4_columns) t') as ->.
  { unfold t'. by rewrite <-adds_app, take_drop. }
  destruct (version_nlink (columns t')) as [->|Hv].
  { apply columns_adds. by left. }
  - rewrite <-(take_drop n v4_columns) at 1. apply adds_absorb.
    intros c Hc. apply columns_adds. by right.
  - rewrite Hv. simpl (adds (pending V0_4) t'). rewrite <-(app_nil_r (drop n v4_columns)).
    symmetry. rewrite adds_absorb; [done|]. intros c Hc. apply version_current in Hv. apply Hv.
    by apply (subseteq_drop n).
Qed.

Lemma pending_resumes t k :
  let t' := adds (take k (pending (version_of (columns t)))) t in
  adds (pending (version_of (columns t'))) t' = adds (pending (version_of (columns t))) t.
Proof.
  destruct (version_of (columns t)) eqn:Hv; cbv zeta.
  - destruct k as [|k]; [change (adds (pending (version_of (columns t))) t = adds (pending V0_0) t); by rewrite Hv|].
    change (pending V0_0) with ("nlink" :: v4_columns). apply (resume_from (add_missing t "nlink") k). apply (columns_adds ["nlink"] t). right. left.
  - apply resume_from. unfold version_of in Hv. repeat (case_match; try done).
    by apply bool_decide_eq_true in H0.
  - change (pending V0_4) with (@nil string). rewrite take_nil.
    change (adds (pending (version_of (columns t))) t = t). by rewrite Hv.
Qed.

(** ** Running a migration *)
(** The configuration stays as it is. *)
Abbreviation same := (λ cfg : gmap string string, cfg).

Section Runs.
Context {A : AlterErrors} {C : Type}.

(** No failure to come looks like a column that exists. *)
Definition clean (w : World File C) : Prop :=
  ∀ e, Some e ∈ w_faults w → contains "duplicate column" (error_text e) = false.

(** [m] adds the columns [cs], in their order, and applies [g] to the configuration; when
    it is stopped by a failure it has added the first of them. *)
Definition migrates_at (t : Table) (cs : list string)
    (g : gmap string string → gmap string string) (m : M File C unit) : Prop :=
  ∀ w cfg, clean w → inode_table (w_db w) = Some t → config (w_db w) = Some cfg →
    let '(r, w') := m w in
    w_mem w' = w_mem w ∧ w_faults w' `suffix_of` w_faults w ∧ is_Some (config (w_db w')) ∧
    ∃ ds, ds `prefix_of` cs ∧ inode_table (w_db w') = Some (adds ds t) ∧
      ((r = Ok tt ∧ ds = cs ∧ config (w_db w') = Some (g cfg)) ∨
       ((∃ e, r = Err e) ∧ w_faults w ≠ [])).
Definition migrates cs g m : Prop := ∀ t, migrates_at t cs g m.

Lemma clean_suffix w w' : clean w → w_faults w' `suffix_of` w_faults w → clean w'.
Proof. intros Hc [l Hl] e He. apply Hc. rewrite Hl. apply elem_of_app. by right. Qed.

Lemma migrates_at_bind t cs1 cs2 g1 g2 m1 m2 :
  migrates_at t cs1 g1 m1 → migrates_at (adds cs1 t) cs2 g2 m2 →
  migrates_at t (cs1 ++ cs2) (g2 ∘ g1) (m1 ;; m2).
Proof.
  intros H1 H2 w cfg Hc Ht Hcfg. specialize (H1 w cfg Hc Ht Hcfg).
  unfold mbind, M_bind. destruct (m1 w) as [r w1].
  destruct H1 as (Hm1 & Hf1 & Hs1 & ds1 & Hp1 & Ht1 & Hr1).
  destruct Hr1 as [(-> & -> & Hcfg1)|[[e ->] Hne]].
  - specialize (H2 w1 _ (clean_suffix _ _ Hc Hf1) Ht1 Hcfg1). destruct (m2 w1) as [r w2].
    destruct H2 as (Hm2 & Hf2 & Hs2 & ds2 & Hp2 & Ht2 & Hr2).
    split; [congruence|]. split; [by etrans|]. split; [done|].
    exists (cs1 ++ ds2). split; [by apply prefix_app|]. split; [by rewrite adds_app|].
    destruct Hr2 as [(-> & -> & Hcfg2)|[He Hne]]; [by left|right]. split; [done|].
    intros Hnil. rewrite Hnil in Hf1. by apply suffix_nil_inv in Hf1.
  - split; [done|]. split; [done|]. split; [done|]. exists ds1. split; [by apply prefix_app_r|].
    split; [done|]. right. split; [by eexists|done].
Qed.

Lemma migrates_bind cs1 cs2 g1 g2 m1 m2 :
  migrates cs1 g1 m1 → migrates cs2 g2 m2 → migrates (cs1 ++ cs2) (g2 ∘ g1) (m1 ;; m2).
Proof. intros H1 H2 t. by apply migrates_at_bind. Qed.

Lemma migrates_ret : migrates [] same (mret tt).
Proof.
  intros t w cfg Hc Ht Hcfg. split; [done|]. split; [done|]. split; [by eexists|].
  exists []. split; [done|]. split; [done|]. by left.
Qed.

(** One call of the engine, then [m0]. *)
Lemma migrates_call (m m0 : M File C unit) cs g :
  (∀ w, clean w → m w = match w_faults w with
    | [] => m0 w
    | None :: fs => m0 (set_faults fs w)
    | Some e :: fs => (Err e, set_faults fs w)
    end) →
  migrates cs g m0 → migrates cs g m.
Proof.
  intros Hm H0 t w cfg Hc Ht Hcfg. rewrite Hm by done.
  destruct (w_faults w) as [|[e|] fs] eqn:Hf.
  - specialize (H0 t w cfg Hc Ht Hcfg). by rewrite Hf in H0.
  - split; [done|]. split; [by exists [Some e]|]. split; [by eexists|].
    exists []. split; [apply prefix_nil|]. split; [done|]. right. split; [by eexists|done].
  - assert (clean (set_faults fs w)) as Hc'.
    { eapply clean_suffix; [exact Hc|]. rewrite Hf. by exists [None]. }
    specialize (H0 t _ cfg Hc' Ht Hcfg). destruct (m0 (set_faults fs w)) as [r w'].
    destruct H0 as (Hmem & Hsuf & Hs & ds & Hp & Ht' & Hr). split; [done|].
    split; [by apply suffix_cons_r|]. split; [done|]. exists ds. split; [done|]. split; [done|].
    destruct Hr as [|[He _]]; [by left|by right].
Qed.

(** What does not fail. *)
Lemma migrates_total (m : M File C unit) cs g :
  (∀ w t cfg, inode_table (w_db w) = Some t → config (w_db w) = Some cfg →
    ∃ f, m w = (Ok tt, set_db f w) ∧
      inode_table f = Some (adds cs t) ∧ config f = Some (g cfg)) →
  migrates cs g m.
Proof.
  intros Hm t w cfg Hc Ht Hcfg. destruct (Hm w t cfg Ht Hcfg) as (f & -> & Hf & Hg).
  split; [done|]. split; [done|]. split; [by eexists|].
  exists cs. split; [done|]. split; [done|]. by left.
Qed.

(** An unconditional statement, that is. *)
Ltac by_call m0 :=
  apply (migrates_call _ m0);
  [intros [? ? [|[|] ?] ? ?] _; reflexivity
  |apply migrates_total; intros w t cfg Ht Hcfg; cbn beta; rewrite ?Hcfg; by eexists].

Lemma migrates_say line : migrates [] same (say line).
Proof.
  by_call (λ w : World File C, (Ok tt, set_db (mkFile (inode_table (w_db w)) (config (w_db w))
             (stdout (w_db w) ++ [line])) w)).
Qed.

Lemma migrates_store :
  migrates [] (insert "schema_version" AGENTFS_SCHEMA_VERSION) store_version.
Proof.
  by_call (λ w : World File C, match config (w_db w) with
    | None => (Err no_such_table, w)
    | Some cfg =>
        (Ok tt, set_db (mkFile (inode_table (w_db w))
           (Some (<["schema_version" := AGENTFS_SCHEMA_VERSION]> cfg)) (stdout (w_db w))) w)
    end).
Qed.

(** Adding a column if it is not there, with either message. *)
Lemma migrates_column c ok_line dup_line :
  migrates [c] same
    (result ← try (alter_table c);
     match result with
     | Ok _ => say ok_line
     | Err e => if contains "duplicate column" (error_text e) then say dup_line else throw e
     | Panic => panic
     end).
Proof.
  apply (migrates_call _ (λ w, match add_column c (w_db w) with
    | inl e => if contains "duplicate column" (error_text e) then say dup_line w else (Err e, w)
    | inr f => say ok_line (set_db f w)
    end)).
  { intros [d m [|[e|] fs] clk t] Hc; unfold alter_table; run.
    - destruct (add_column c d); [by case_match|done].
    - rewrite (Hc e); [done|]. cbn. by left.
    - destruct (add_column c d); [by case_match|done]. }
  intros t w cfg Hc Ht Hcfg. unfold add_column. rewrite Ht. destruct (decide (c ∈ columns t)) as [Hin|Hin].
  - rewrite duplicate_text. pose proof (migrates_say dup_line t w cfg Hc Ht Hcfg) as Hs.
    destruct (say dup_line w) as [r w']. destruct Hs as (Hm & Hf & Hs & ds & Hp & Ht' & Hr).
    apply prefix_nil_inv in Hp as ->. split; [done|]. split; [done|]. split; [done|].
    exists [c]. split; [done|].
    assert (adds [c] t = t) as -> by (cbn [adds foldl]; unfold add_missing; by rewrite decide_True).
    split; [done|]. destruct Hr as [(? & _ & ?)|?]; [by left|by right].
  - pose proof (migrates_say ok_line _ (set_db (set_table (add c t) (w_db w)) w) cfg Hc eq_refl Hcfg) as Hs.
    destruct (say ok_line _) as [r w']. destruct Hs as (Hm & Hf & Hs & ds & Hp & Ht' & Hr).
    apply prefix_nil_inv in Hp as ->. split; [done|]. split; [done|]. split; [done|].
    exists [c]. split; [done|].
    assert (adds [c] t = add c t) as -> by (cbn [adds foldl]; unfold add_missing; by rewrite decide_False).
    split; [done|]. destruct Hr as [(? & _ & ?)|?]; [by left|by right].
Qed.

Create HintDb migrates.
#[local] Hint Resolve migrates_ret migrates_say migrates_store : migrates.

Lemma migrates_apply v : migrates (pending v) same (apply_migrations v).
Proof.
  assert (migrates v4_columns same migrate_v0_2_to_v0_4) as H4.
  { apply (migrates_bind [] v4_columns same same); [auto with migrates|].
    apply (migrates_bind ["atime_nsec"] ["mtime_nsec"; "ctime_nsec"; "rdev"] same same); [apply migrates_column|].
    apply (migrates_bind ["mtime_nsec"] ["ctime_nsec"; "rdev"] same same); [apply migrates_column|].
    apply (migrates_bind ["ctime_nsec"] ["rdev"] same same); [apply migrates_column|].
    apply (migrates_bind ["rdev"] [] same same); [apply migrates_column|auto with migrates]. }
  destruct v; [|done|apply migrates_ret].
  apply (migrates_bind ["nlink"] v4_columns same same); [|done].
  apply (migrates_bind [] ["nlink"] same same); [auto with migrates|].
  intros t w cfg. rewrite <-bind_assoc. revert t w cfg.
  apply (migrates_bind ["nlink"] [] same same); [apply migrates_column|auto with migrates].
Qed.

(** [m] reads [b] when the table is [t]. *)
Definition reads {B} (t : Table) (m : M File C B) (b : B) : Prop :=
  ∀ w, inode_table (w_db w) = Some t →
    let '(r, w') := m w in
    w_db w' = w_db w ∧ w_mem w' = w_mem w ∧ w_faults w' `suffix_of` w_faults w ∧
    (r = Ok b ∨ (∃ e, r = Err e) ∧ w_faults w ≠ []).

Lemma reading_bind {B B'} t (m : M File C B) (k : B → M File C B') b b' :
  reads t m b → reads t (k b) b' → reads t (m ≫= k) b'.
Proof.
  intros Hm Hk w Ht. specialize (Hm w Ht). unfold mbind, M_bind.
  destruct (m w) as [r w1]. destruct Hm as (Hd & Hm & Hf & [->|[[e ->] Hne]]).
  - specialize (Hk w1). rewrite Hd in Hk. specialize (Hk Ht). destruct (k b w1) as [r' w2].
    destruct Hk as (Hd2 & Hm2 & Hf2 & Hr). split; [congruence|]. split; [congruence|].
    split; [by etrans|]. destruct Hr as [|[He Hne]]; [by left|right]. split; [done|].
    intros Hnil. rewrite Hnil in Hf. by apply suffix_nil_inv in Hf.
  - split; [done|]. split; [done|]. split; [done|]. right. split; [by eexists|done].
Qed.

Lemma reads_query {B} t (f : File → B) b :
  (∀ d, inode_table d = Some t → f d = b) → reads t (query f) b.
Proof.
  intros Hf [d m [|[e|] fs] clk n] Ht; unfold query; run; cbn in Ht.
  - split; [done|]. split; [done|]. split; [done|]. left. by rewrite Hf.
  - split; [done|]. split; [done|]. split; [by exists [Some e]|]. right. split; [by eexists|done].
  - split; [done|]. split; [done|]. split; [by exists [None]|]. left. by rewrite Hf.
Qed.

Lemma reads_detect t : reads t detect_schema_version (Some (version_of (columns t))).
Proof.
  apply (reading_bind _ _ _ true).
  - apply reads_query. intros d ->. by apply bool_decide_eq_true.
  - cbn [negb]. apply (reading_bind _ _ _ (columns t)).
    + apply reads_query. by intros d ->.
    + intros w _. split; [done|]. split; [done|]. split; [done|]. by left.
Qed.

Lemma migrates_reads {B} t cs g (m : M File C B) b (k : B → M File C unit) :
  reads t m b → migrates_at t cs g (k b) → migrates_at t cs g (m ≫= k).
Proof.
  intros Hm Hk w cfg Hc Ht Hcfg. specialize (Hm w Ht). unfold mbind, M_bind.
  destruct (m w) as [r w1]. destruct Hm as (Hd & Hmem & Hf & Hr).
  destruct Hr as [->|[[e ->] Hne]].
  - specialize (Hk w1 cfg (clean_suffix _ _ Hc Hf)). rewrite Hd in Hk.
    specialize (Hk Ht Hcfg). destruct (k b w1) as [r w2].
    destruct Hk as (Hm2 & Hf2 & Hs2 & ds & Hp & Ht2 & Hr). split; [congruence|].
    split; [by etrans|]. split; [done|]. exists ds. split; [done|]. split; [done|].
    destruct Hr as [|[He Hne]]; [by left|right]. split; [done|].
    intros Hnil. rewrite Hnil in Hf. by apply suffix_nil_inv in Hf.
  - split; [done|]. split; [done|]. split; [by rewrite Hd; eexists|]. exists [].
    split; [apply prefix_nil|]. split; [by rewrite Hd|]. right. split; [by eexists|done].
Qed.

(** What the command writes to the configuration. *)
Definition configures (dry_run : bool) (v : SchemaVersion.t) (cfg : gmap string string) :=
  if dry_run || bool_decide (v = V0_4) then cfg
  else <["schema_version" := AGENTFS_SCHEMA_VERSION]> cfg.

Lemma migrates_open (dry_run : bool) t : let v := version_of (columns t) in
  migrates_at t (if dry_run then [] else pending v) (configures dry_run v) (migrate_open dry_run).
Proof.
  intros v. unfold migrate_open. eapply migrates_reads; [apply reads_detect|]. cbv zeta.
  change (default V0_0 (Some (version_of (columns t)))) with v.
  apply (migrates_at_bind t [] _ same (configures dry_run v)); [apply migrates_say|].
  apply (migrates_at_bind t [] _ same (configures dry_run v)); [apply migrates_say|].
  change (adds [] (adds [] t)) with t. unfold configures.
  case_decide as Hv; [rewrite (bool_decide_true _ Hv), orb_true_r|rewrite (bool_decide_false _ Hv), orb_false_r].
  { rewrite Hv. destruct dry_run; apply migrates_say. }
  destruct dry_run.
  - apply (migrates_at_bind t [] [] same same); [apply migrates_say|].
    apply (migrates_at_bind t [] [] same same); [|apply migrates_say].
    unfold print_pending_migrations. destruct v; [|apply migrates_say|apply migrates_ret].
    apply (migrates_at_bind t [] [] same same); apply migrates_say.
  - apply (migrates_at_bind t [] (pending v) same (insert "schema_version" AGENTFS_SCHEMA_VERSION)); [apply migrates_say|].
    change (adds [] t) with t. rewrite <-(app_nil_r (pending v)).
    refine (migrates_at_bind t (pending v) [] same (insert "schema_version" AGENTFS_SCHEMA_VERSION)
      (apply_migrations v) _ (migrates_apply v t) _).
    refine (migrates_at_bind _ [] [] (insert "schema_version" AGENTFS_SCHEMA_VERSION) same
      store_version _ (migrates_store _) (migrates_say _ _)).
Qed.
End Runs.

(** * Properties *)
Section Properties.
Context {A : AlterErrors} {U : Unicode} {Tu : Turso} {H : HostDisk}.

(** [s] names the database file at [p]. *)
Definition located (h : disk) (s p : string) : Prop :=
  exists_ h p = true ∧
  ∀ w : World File disk, w_mem w = h →
    ∃ o, resolve s w = (Ok o, w) ∧ db_path o w = (Ok p, w).

Lemma migrates_command s p (dry_run : bool) w t cfg : let v := version_of (columns t) in
  located (w_mem w) s p → clean w →
  inode_table (w_db w) = Some t → config (w_db w) = Some cfg →
  let '(r, w') := handle_migrate_command s dry_run w in
  w_mem w' = w_mem w ∧ w_faults w' `suffix_of` w_faults w ∧ is_Some (config (w_db w')) ∧
  ∃ ds, ds `prefix_of` (if dry_run then [] else pending v) ∧
    inode_table (w_db w') = Some (adds ds t) ∧
    ((r = Ok tt ∧ ds = (if dry_run then [] else pending v) ∧
      config (w_db w') = Some (configures dry_run v cfg)) ∨
     ((∃ e, r = Err e) ∧ w_faults w ≠ [])).
Proof.
  intros v [Hex Hloc] Hc Ht Hcfg. destruct (Hloc w eq_refl) as (o & Hres & Hdb).
  unfold handle_migrate_command. unfold mbind at 1, M_bind at 1. rewrite Hres.
  unfold mbind at 1, M_bind at 1. rewrite Hdb.
  unfold mbind at 1, M_bind at 1, test, with_mem at 1.
  assert (Hw : set_mem (w_mem w) w = w) by by destruct w.
  rewrite Hex, Hw. cbn [negb].
  assert (Hcall : ∀ cs g m, migrates_at t cs g m →
    migrates_at t cs g ((engine_call : M File disk unit) ;; m)).
  { intros cs g m Hm. apply (migrates_reads t _ _ _ tt); [|done].
    intros w1 _. unfold engine_call. destruct (w_faults w1) as [|[e|] fs] eqn:Hf.
    - split; [done|]. split; [done|]. split; [by rewrite Hf|]. by left.
    - split; [done|]. split; [done|]. split; [by exists [Some e]|]. right. split; [by eexists|done].
    - split; [done|]. split; [done|]. split; [by exists [None]|]. by left. }
  revert w cfg Hc Ht Hcfg Hloc Hex Hres Hdb Hw. intros w cfg Hc Ht Hcfg _ _ _ _ _.
  revert w cfg Hc Ht Hcfg.
  apply (migrates_at_bind t [] _ same (configures dry_run v)); [apply migrates_say|].
  change (adds [] t) with t. apply Hcall, Hcall, migrates_open.
Qed.

Lemma detected t (w : World File disk) : faultless w → inode_table (w_db w) = Some t →
  detect_schema_version w = (Ok (Some (version_of (columns t))), w).
Proof.
  intros Hf Ht. destruct w as [[it cfg out] m fs clk n]. cbn in Ht, Hf. subst it.
  unfold faultless in Hf. cbn in Hf. subst fs. unfold detect_schema_version, get_table_columns. by run.
Qed.

(** The check of a version, once it is known. *)
Lemma checked t (w : World File disk) : faultless w → inode_table (w_db w) = Some t →
  let v := version_of (columns t) in
  check_schema_version w =
    (if decide (v = V0_4) then Ok tt
     else Err (Error.SchemaVersionMismatch (fmt v) AGENTFS_SCHEMA_VERSION), w).
Proof.
  intros Hf Ht v. unfold check_schema_version, mbind at 1, M_bind at 1.
  rewrite (detected t) by done. fold v. unfold is_current. case_decide as Hv.
  - by rewrite bool_decide_true.
  - by rewrite bool_decide_false.
Qed.


(** A migration can be stopped anywhere and run again.  Whatever call fails, every row
    keeps its values, and the next run that is not stopped ends with the table that an
    undisturbed run would have made, which passes the check. *)
Theorem migration_resumes s p w t cfg :
  located (w_mem w) s p → clean w →
  inode_table (w_db w) = Some t → config (w_db w) = Some cfg →
  let target := adds (pending (version_of (columns t))) t in
  let '(r, w1) := handle_migrate_command s false w in
  (r = Ok tt ∧ inode_table (w_db w1) = Some target ∨ (∃ e, r = Err e) ∧ w_faults w ≠ []) ∧
  (∃ t1, inode_table (w_db w1) = Some t1 ∧
     (∀ ino row, rows t !! ino = Some row →
        ∃ row', rows t1 !! ino = Some row' ∧ ∀ c, c ∈ columns t → row' !! c = row !! c)) ∧
  (let '(r2, w2) := handle_migrate_command s false (set_faults [] w1) in
   r2 = Ok tt ∧ inode_table (w_db w2) = Some target ∧
   check_schema_version w2 = (Ok tt, w2)).
Proof.
  intros Hloc Hc Ht Hcfg target. set (v := version_of (columns t)) in *.
  pose proof (migrates_command s p false w t cfg Hloc Hc Ht Hcfg) as Hrun. fold v in Hrun.
  destruct (handle_migrate_command s false w) as [r w1].
  destruct Hrun as (Hmem & Hsuf & [cfg1 Hcfg1] & ds & [ds' Hds] & Ht1 & Hr). split; [|split].
  - destruct Hr as [(-> & -> & _)|[He Hne]]; [by left|by right].
  - exists (adds ds t). split; [done|]. intros ino row Hrow.
    destruct (rows_adds ds t ino) as [Hn Hk].
    destruct (rows (adds ds t) !! ino) as [row'|] eqn:Hrow'; [|naive_solver].
    exists row'. split; [done|]. by apply (Hk row row').
  - assert (ds = take (length ds) (pending v)) as Htake by by rewrite Hds, take_app_length.
    pose proof (migrates_command s p false (set_faults [] w1) (adds ds t) cfg1) as Hrun.
    cbn [w_mem w_db w_faults set_faults] in Hrun. rewrite Hmem in Hrun.
    specialize (Hrun Hloc ltac:(by intros e ?%elem_of_nil) Ht1 Hcfg1).
    destruct (handle_migrate_command s false (set_faults [] w1)) as [r2 w2].
    destruct Hrun as (_ & Hsuf2 & _ & ds2 & _ & Ht2 & [(-> & -> & _)|[_ Hne]]); [|done].
    assert (inode_table (w_db w2) = Some target) as Ht2'.
    { rewrite Ht2, Htake. unfold target, v. by rewrite pending_resumes. }
    do 2 (split; [done|]).
    rewrite (checked target); [|by apply suffix_nil_inv in Hsuf2|done].
    by rewrite decide_True by apply pending_current.
Qed.
End Properties.
