(* ===== verification/NfsVfs.v ===== *)
(** * NfsVfs: what the NFS server asks of a filesystem

    [cli/src/nfsserve/vfs.rs]: the trait [NFSFileSystem] and its default methods.  A
    method may fail with a status; its effects are those of [Engine].  The generation
    number, read from the clock once per process, is a parameter.  [handles_identify]
    shows what file handles are worth. *)
From S2P Require Import Prelude Types Engine Xdr NfsTypes.

Inductive VFSCapabilities := ReadOnlyVfs | ReadWriteVfs.

Record DirEntrySimple := mk_simple { des_fileid : Z; des_name : filename3 }.
Record ReadDirSimpleResult := mk_simple_result {
  rds_entries : list DirEntrySimple; rds_end : bool
}.
Record NfsDirEntry := mk_entry { nde_fileid : Z; nde_name : filename3; nde_attr : fattr3 }.
Record ReadDirResult := mk_result { rd_entries : list NfsDirEntry; rd_end : bool }.

Definition from_readdir_result (result : ReadDirResult) : ReadDirSimpleResult :=
  mk_simple_result ((λ e, mk_simple (nde_fileid e) (nde_name e)) <$> rd_entries result)
                   (rd_end result).

(** ** Results

    A method returns [Result<T, nfsstat3>] as a value: the handlers look at it. *)
Abbreviation VR D C A := (M D C (nfsstat3 + A)).

Section Results.
Context {D C : Type}.
Definition vok {A} (a : A) : VR D C A := mret (inr a).
Definition verr {A} (e : nfsstat3) : VR D C A := mret (inl e).
(** The [?] operator. *)
Definition vbind {A B} (m : VR D C A) (f : A → VR D C B) : VR D C B :=
  r ← m; match r with inl e => verr e | inr a => f a end.
Definition vok_or {A} (e : nfsstat3) (o : option A) : VR D C A :=
  match o with Some a => vok a | None => verr e end.
End Results.
Notation "x ←? m ; k" := (vbind m (λ x, k))
  (at level 20, m at level 100, k at level 200, right associativity).

Module Vfs.
Class NFSFileSystem (D C : Type) := {
  capabilities : VFSCapabilities;
  root_dir : Z;
  lookup : Z → filename3 → VR D C Z;
  getattr : Z → VR D C fattr3;
  setattr : Z → sattr3 → VR D C fattr3;
  read : Z → Z → Z → VR D C (bytes * bool);
  write : Z → Z → bytes → VR D C fattr3;
  create : Z → filename3 → sattr3 → auth_unix → VR D C (Z * fattr3);
  create_exclusive : Z → filename3 → auth_unix → VR D C Z;
  mkdir : Z → filename3 → sattr3 → auth_unix → VR D C (Z * fattr3);
  mknod : Z → filename3 → ftype3 → sattr3 → specdata3 → auth_unix → VR D C (Z * fattr3);
  remove : Z → filename3 → VR D C unit;
  rename : Z → filename3 → Z → filename3 → VR D C unit;
  link : Z → Z → filename3 → VR D C fattr3;
  readdir : Z → Z → Z → VR D C ReadDirResult;
  symlink : Z → filename3 → nfspath3 → sattr3 → auth_unix → VR D C (Z * fattr3);
  readlink : Z → VR D C nfspath3
}.

(** The methods that only look. *)
Class VfsReads {D C} (V : NFSFileSystem D C) := {
  #[global] lookup_reads dir name :: ReadOnly (lookup dir name);
  #[global] getattr_reads id :: ReadOnly (getattr id);
  #[global] read_reads id off n :: ReadOnly (read id off n);
  #[global] readdir_reads id start n :: ReadOnly (readdir id start n);
  #[global] readlink_reads id :: ReadOnly (readlink id)
}.

(** An error of the filesystem is never the status of success. *)
Class FailsProperly {D C A} (m : VR D C A) := fails_properly w : (m w).1 ≠ Ok (inl NFS3_OK).
#[global] Hint Mode FailsProperly + + + ! : typeclass_instances.
Class VfsErrors {D C} (V : NFSFileSystem D C) := {
  #[global] lookup_fails dir name :: FailsProperly (lookup dir name);
  #[global] getattr_fails id :: FailsProperly (getattr id);
  #[global] setattr_fails id s :: FailsProperly (setattr id s);
  #[global] read_fails id off n :: FailsProperly (read id off n);
  #[global] write_fails id off data :: FailsProperly (write id off data);
  #[global] create_fails dir name s auth :: FailsProperly (create dir name s auth);
  #[global] exclusive_fails dir name auth :: FailsProperly (create_exclusive dir name auth);
  #[global] mkdir_fails dir name s auth :: FailsProperly (mkdir dir name s auth);
  #[global] mknod_fails dir name ty s rdev auth :: FailsProperly (mknod dir name ty s rdev auth);
  #[global] remove_fails dir name :: FailsProperly (remove dir name);
  #[global] rename_fails dir name dir' name' :: FailsProperly (rename dir name dir' name');
  #[global] link_fails id dir name :: FailsProperly (link id dir name);
  #[global] readdir_fails id start n :: FailsProperly (readdir id start n);
  #[global] symlink_fails dir name t s auth :: FailsProperly (symlink dir name t s auth);
  #[global] readlink_fails id :: FailsProperly (readlink id)
}.
End Vfs.

#[export] Instance vok_fails {D C A} (a : A) : Vfs.FailsProperly (vok (D:=D) (C:=C) a).
Proof. intros w. done. Qed.
#[export] Instance vbind_fails {D C A B} (m : VR D C A) (f : A → VR D C B) :
  Vfs.FailsProperly m → (∀ a, Vfs.FailsProperly (f a)) → Vfs.FailsProperly (vbind m f).
Proof.
  intros Hm Hf w. unfold vbind, mbind, M_bind. pose proof (Hm w) as Hw.
  destruct (m w) as [[[e|a]|e|] w']; [|apply Hf|done..].
  simpl in *. congruence.
Qed.

#[export] Instance vbind_readonly {D C A B} (m : VR D C A) (f : A → VR D C B) :
  ReadOnly m → (∀ a, ReadOnly (f a)) → ReadOnly (vbind m f).
Proof. intros ??. unfold vbind, verr. apply bind_readonly; [done|]. intros []; apply _. Qed.
#[export] Instance vok_or_readonly {D C A} e (o : option A) : ReadOnly (vok_or (D:=D) (C:=C) e o).
Proof. destruct o; unfold vok_or, vok, verr; apply _. Qed.

(** ** The default methods *)
Section Defaults.
Context {D C : Type} {V : Vfs.NFSFileSystem D C} (generation : Z).

Definition readdir_simple (dirid count : Z) : VR D C ReadDirSimpleResult :=
  result ←? Vfs.readdir dirid 0 count; vok (from_readdir_result result).

(** [.ok()]-like use of a result. *)
Definition post_attr (r : nfsstat3 + fattr3) : post_op_attr :=
  match r with inr v => Some v | inl _ => None end.

Definition fsinfo (root_fileid : Z) : VR D C fsinfo3 :=
  r ← Vfs.getattr root_fileid;
  vok (mk_fsinfo3 (post_attr r)
         (1024 * 1024) (1024 * 124) (1024 * 1024)
         (1024 * 1024) (1024 * 1024) (1024 * 1024) (1024 * 1024)
         (128 * 1024 * 1024 * 1024)
         (mk_nfstime3 0 1000000)
         (Z.lor (Z.lor FSF_SYMLINK FSF_HOMOGENEOUS) FSF_CANSETTIME)).

Definition id_to_fh (id : Z) : nfs_fh3 :=
  mk_nfs_fh3 (le_bytes 8 generation ++ le_bytes 8 id).

Definition fh_to_id (fh : nfs_fh3) : nfsstat3 + Z :=
  if negb (len (fh_data fh) =? 16) then inl NFS3ERR_BADHANDLE
  else
    let gen := le_val (take 8 (fh_data fh)) in
    let id := le_val (drop 8 (fh_data fh)) in
    match gen ?= generation with
    | Lt => inl NFS3ERR_STALE
    | Gt => inl NFS3ERR_BADHANDLE
    | Eq => inr id
    end.

(** [path.split(|&r| r == b'/')]. *)
Fixpoint split_bytes (path : bytes) : list bytes :=
  match path with
  | [] => [[]]
  | b :: path =>
      if byte_val b =? 47 then [] :: split_bytes path
      else match split_bytes path with
      | piece :: pieces => (b :: piece) :: pieces
      | [] => [[b]]
      end
  end.

Fixpoint walk_ids (fid : Z) (components : list bytes) : VR D C Z :=
  match components with
  | [] => vok fid
  | [] :: components => walk_ids fid components
  | component :: components =>
      fid ←? Vfs.lookup fid component; walk_ids fid components
  end.
Definition path_to_id (path : bytes) : VR D C Z := walk_ids Vfs.root_dir (split_bytes path).

Definition serverid : array 8 := Array (le_bytes 8 generation).

(** ** File handles *)

Lemma le_val_split n (bs : bytes) : length bs = n → le_bytes n (le_val bs) = bs.
Proof.
  intros <-.
  induction bs as [|b bs IH]; [done|]. cbn [length le_bytes le_val].
  rewrite val_byte_byte_val, (Z.mul_comm 256), Z.div_add by done.
  by rewrite (Z.div_small (byte_val b)), Z.add_0_l, IH by apply byte_val_range.
Qed.

Lemma le_bytes_inj n x y :
  0 <= x < 256 ^ Z.of_nat n → 0 <= y < 256 ^ Z.of_nat n → le_bytes n x = le_bytes n y → x = y.
Proof.
  intros Hx Hy H. apply (f_equal le_val) in H. by rewrite !le_val_bytes, !Z.mod_small in H.
Qed.

Lemma le_val_u64 z : in_u64 z → le_val (le_bytes 8 z) = z.
Proof. intros Hz. rewrite le_val_bytes. by apply Z.mod_small. Qed.

Lemma fh_round_trip id : in_u64 generation → in_u64 id → fh_to_id (id_to_fh id) = inr id.
Proof.
  intros Hg Hid. unfold fh_to_id, id_to_fh. cbn [fh_data].
  rewrite len_app. unfold len. rewrite !length_le_bytes. cbn [Z.eqb negb].
  rewrite take_app_le, drop_app_ge by (by rewrite length_le_bytes).
  rewrite length_le_bytes, take_ge, Nat.sub_diag, drop_0 by (by rewrite length_le_bytes).
  by rewrite !le_val_u64, Z.compare_refl.
Qed.

(** File handles identify files.  The handle of every inode number is accepted and
    gives the number back; a handle that is accepted is the one the server gives out for
    that number, byte for byte; and the handles that earlier servers gave out are stale. *)
Theorem handles_identify :
  in_u64 generation →
  (∀ id, in_u64 id → fh_to_id (id_to_fh id) = inr id) ∧
  (∀ fh id, fh_to_id fh = inr id → fh = id_to_fh id ∧ in_u64 id) ∧
  (∀ old fh id, 0 <= old < generation → fh_data fh = le_bytes 8 old ++ le_bytes 8 id →
     fh_to_id fh = inl NFS3ERR_STALE).
Proof.
  intros Hg. split_and!.
  - intros id. by apply fh_round_trip.
  - intros [data] id. unfold fh_to_id, id_to_fh. cbn [fh_data].
    destruct (Z.eqb_spec (len data) 16) as [Hl|]; [|done]. cbn [negb].
    destruct (Z.compare_spec (le_val (take 8 data)) generation) as [Heq| |]; [|done..].
    intros [= <-]. unfold len in Hl.
    assert (length (take 8 data) = 8%nat) as Ht by (rewrite length_take; lia).
    assert (length (drop 8 data) = 8%nat) as Hd by (rewrite length_drop; lia).
    split.
    + f_equal. by rewrite <-Heq, !le_val_split, take_drop.
    + pose proof (le_val_range (drop 8 data)) as Hr. unfold len in Hr. by rewrite Hd in Hr.
  - intros old fh id Hold Hfh. unfold fh_to_id. rewrite Hfh.
    rewrite len_app. unfold len. rewrite !length_le_bytes. cbn [Z.eqb negb].
    rewrite take_app_le by (by rewrite length_le_bytes).
    rewrite take_ge, le_val_u64 by (rewrite ?length_le_bytes; unfold in_u64 in *; lia).
    by rewrite (proj2 (Z.compare_lt_iff _ _)) by lia.
Qed.
End Defaults.

#[global] Typeclasses Opaque vbind vok_or readdir_simple fsinfo path_to_id.
