(* ===== verification/NfsAdapter.v ===== *)
(** * NfsAdapter: a filesystem of the SDK behind NFS

    [cli/src/nfs.rs]: [AgentNFS] implements [NFSFileSystem] by the trait [FileSystem] of
    the SDK; [AgentFS] is one instance of the trait.  Names and targets are checked to be
    UTF-8, errors become statuses, inode numbers cross as [u64].  The mutex around the
    filesystem makes a method one operation. *)
From S2P Require Import Prelude Types Engine Lru Schema FileIO FileIOSpec AgentFS AgentFSOps.
From S2P Require Import Xdr NfsTypes Utf8 NfsVfs.

(** ** The traits [FileSystem] and [File] of the SDK *)
Module SdkFs.
Class FileSystem (D C : Type) := {
  File : Type;
  lookup : Z → string → M D C (option Stats);
  getattr : Z → M D C (option Stats);
  readlink : Z → M D C (option string);
  readdir : Z → M D C (option (list string));
  readdir_plus : Z → M D C (option (list DirEntry));
  chmod : Z → Z → M D C unit;
  chown : Z → option Z → option Z → M D C unit;
  utimens : Z → TimeChange → TimeChange → M D C unit;
  open : Z → Z → M D C File;
  mkdir : Z → string → Z → Z → Z → M D C Stats;
  create_file : Z → string → Z → Z → Z → M D C (Stats * File);
  mknod : Z → string → Z → Z → Z → Z → M D C Stats;
  symlink : Z → string → string → Z → Z → M D C Stats;
  unlink : Z → string → M D C unit;
  rmdir : Z → string → M D C unit;
  link : Z → Z → string → M D C Stats;
  rename : Z → string → Z → string → M D C unit;
  pread : File → Z → Z → M D C bytes;
  pwrite : File → Z → bytes → M D C unit;
  truncate : File → Z → M D C unit;
  fsync : File → M D C unit;
  fstat : File → M D C Stats;
  statfs : M D C FilesystemStats;
  forget : Z → Z → M D C unit
}.

Class FsReads {D C} (F : FileSystem D C) := {
  #[global] lookup_reads p n :: ReadOnly (lookup p n);
  #[global] getattr_reads ino :: ReadOnly (getattr ino);
  #[global] readlink_reads ino :: ReadOnly (readlink ino);
  #[global] readdir_plus_reads ino :: ReadOnly (readdir_plus ino);
  #[global] open_reads ino flags :: ReadOnly (open ino flags);
  #[global] pread_reads f off n :: ReadOnly (pread f off n);
  #[global] fstat_reads f :: ReadOnly (fstat f)
}.
End SdkFs.

#[export] Instance agentfs_filesystem {E : SqlEngine} {Lru : LruCache (Z * string) Z} (cs : Z) :
  SdkFs.FileSystem Db (lru (Z * string) Z) := {|
  SdkFs.File := AgentFSFile;
  SdkFs.lookup := AgentFS.lookup;
  SdkFs.getattr := AgentFS.getattr;
  SdkFs.readlink := AgentFS.readlink;
  SdkFs.readdir := AgentFS.readdir;
  SdkFs.readdir_plus := AgentFS.readdir_plus;
  SdkFs.chmod := AgentFS.chmod;
  SdkFs.chown := AgentFS.chown;
  SdkFs.utimens := AgentFS.utimens;
  SdkFs.open := AgentFS.open cs;
  SdkFs.mkdir := AgentFS.mkdir;
  SdkFs.create_file := AgentFS.create_file cs;
  SdkFs.mknod := AgentFS.mknod;
  SdkFs.symlink := AgentFS.symlink;
  SdkFs.unlink := AgentFS.unlink;
  SdkFs.rmdir := AgentFS.rmdir;
  SdkFs.link := AgentFS.link;
  SdkFs.rename := AgentFS.rename;
  SdkFs.pread := FileIO.pread;
  SdkFs.pwrite := FileIO.pwrite;
  SdkFs.truncate := FileIO.truncate;
  SdkFs.fsync _ := FileIO.fsync;
  SdkFs.fstat := FileIO.fstat;
  SdkFs.statfs := AgentFS.statfs;
  SdkFs.forget _ _ := mret tt |}.

#[export] Instance agentfs_reads {E : SqlEngine} {Lru : LruCache (Z * string) Z} (cs : Z) :
  SdkFs.FsReads (agentfs_filesystem cs).
Proof. split; intros; cbn; apply _. Qed.

(** [OPEN_READONLY] and [OPEN_READWRITE]. *)
Definition OPEN_READONLY : Z := 0.
Definition OPEN_READWRITE : Z := 2.

Definition id_to_fs_ino (id : Z) : Z := as_i64 id.

Definition error_to_nfsstat (e : Error.t) : nfsstat3 :=
  match e with
  | Error.Fs fs_err =>
      match fs_err with
      | FsError.NotFound => NFS3ERR_NOENT
      | FsError.AlreadyExists => NFS3ERR_EXIST
      | FsError.NotEmpty => NFS3ERR_NOTEMPTY
      | FsError.NotADirectory => NFS3ERR_NOTDIR
      | FsError.IsADirectory => NFS3ERR_ISDIR
      | FsError.NameTooLong => NFS3ERR_NAMETOOLONG
      | FsError.RootOperation => NFS3ERR_ACCES
      | _ => NFS3ERR_IO
      end
  | Error.ConnectionPoolTimeout => NFS3ERR_JUKEBOX
  | _ => NFS3ERR_IO
  end.

(** The permission bits, [mode & 0o7777], on a system other than Windows. *)
Definition stats_to_fattr (stats : Stats) : fattr3 :=
  let ty := Z.land (st_mode stats) S_IFMT in
  let ftype :=
    if ty =? S_IFREG then NF3REG
    else if ty =? S_IFDIR then NF3DIR
    else if ty =? S_IFLNK then NF3LNK
    else if ty =? S_IFIFO then NF3FIFO
    else if ty =? S_IFCHR then NF3CHR
    else if ty =? S_IFBLK then NF3BLK
    else if ty =? S_IFSOCK then NF3SOCK
    else NF3REG in
  mk_fattr3 ftype (Z.land (st_mode stats) 0xfff) (st_nlink stats) (st_uid stats) (st_gid stats)
    (as_u64 (st_size stats)) (as_u64 (st_size stats))
    (mk_specdata3 (device_major (st_rdev stats)) (device_minor (st_rdev stats)))
    0 (as_u64 (st_ino stats))
    (mk_nfstime3 (as_u32 (st_atime stats)) (st_atime_nsec stats))
    (mk_nfstime3 (as_u32 (st_mtime stats)) (st_mtime_nsec stats))
    (mk_nfstime3 (as_u32 (st_ctime stats)) (st_ctime_nsec stats)).

Section AgentNFS.
Context {D C : Type} {F : SdkFs.FileSystem D C}.
Abbreviation R A := (VR D C A).

(** [m.await.map_err(f)]. *)
Definition map_err {A} (f : Error.t → nfsstat3) (m : M D C A) : R A := λ w,
  match m w with
  | (Ok a, w') => (Ok (inr a), w')
  | (Err e, w') => (Ok (inl (f e)), w')
  | (Panic, w') => (Panic, w')
  end.
Definition call {A} (m : M D C A) : R A := map_err error_to_nfsstat m.

Definition utf8 (name : bytes) : R string := vok_or NFS3ERR_INVAL (from_utf8 name).

(** [...await.map_err(error_to_nfsstat)?.ok_or(NFS3ERR_NOENT)]. *)
Definition found {A} (m : M D C (option A)) : R A :=
  o ←? call m; vok_or NFS3ERR_NOENT o.

Definition lookup (dirid : Z) (filename : filename3) : R Z :=
  name ←? utf8 filename;
  if String.eqb name "." then vok dirid
  else if String.eqb name ".." then
    stats ←? found (SdkFs.lookup (id_to_fs_ino dirid) "..");
    vok (as_u64 (st_ino stats))
  else
    dir_stats ←? found (SdkFs.getattr (id_to_fs_ino dirid));
    if negb (is_directory dir_stats) then verr NFS3ERR_NOTDIR
    else
      stats ←? found (SdkFs.lookup (id_to_fs_ino dirid) name);
      vok (as_u64 (st_ino stats)).

Definition getattr (id : Z) : R fattr3 :=
  stats ←? found (SdkFs.getattr (id_to_fs_ino id));
  vok (stats_to_fattr stats).

Definition time_change (t : set_time) : TimeChange :=
  match t with
  | SET_TO_CLIENT_TIME t => SetTime (seconds t) (nseconds t)
  | SET_TO_SERVER_TIME => Now
  | DONT_CHANGE => Omit
  end.
Definition omits (t : TimeChange) : bool := match t with Omit => true | _ => false end.

Definition setattr (id : Z) (setattr : sattr3) : R fattr3 :=
  let fs_ino := id_to_fs_ino id in
  _ ←? match sa_mode setattr with
       | Some (U32 mode) => call (SdkFs.chmod fs_ino mode)
       | None => vok tt
       end;
  let new_uid := of_u32 <$> sa_uid setattr in
  let new_gid := of_u32 <$> sa_gid setattr in
  _ ←? (if bool_decide (is_Some new_uid) || bool_decide (is_Some new_gid)
        then call (SdkFs.chown fs_ino new_uid new_gid) else vok tt);
  _ ←? match sa_size setattr with
       | Some (U64 size) =>
           file ←? call (SdkFs.open fs_ino OPEN_READWRITE);
           call (SdkFs.truncate file size)
       | None => vok tt
       end;
  let new_atime := time_change (sa_atime setattr) in
  let new_mtime := time_change (sa_mtime setattr) in
  _ ←? (if negb (omits new_atime) || negb (omits new_mtime)
        then call (SdkFs.utimens fs_ino new_atime new_mtime) else vok tt);
  stats ←? found (SdkFs.getattr fs_ino);
  vok (stats_to_fattr stats).

Definition read (id offset count : Z) : R (bytes * bool) :=
  file ←? map_err (λ _, NFS3ERR_NOENT) (SdkFs.open (id_to_fs_ino id) OPEN_READONLY);
  data ←? call (SdkFs.pread file offset count);
  stats ←? call (SdkFs.fstat file);
  vok (data, as_u64 (st_size stats) <=? u64_add offset (len data)).

Definition write (id offset : Z) (data : bytes) : R fattr3 :=
  file ←? call (SdkFs.open (id_to_fs_ino id) OPEN_READWRITE);
  _ ←? call (SdkFs.pwrite file offset data);
  stats ←? found (SdkFs.getattr (id_to_fs_ino id));
  vok (stats_to_fattr stats).

(** The mode asked for, or [def]. *)
Definition mode_or (def : Z) (attr : sattr3) : Z :=
  match sa_mode attr with Some (U32 m) => Z.land m 0xfff | None => def end.

(** What the creating methods return. *)
Definition created (stats : Stats) : Z * fattr3 := (as_u64 (st_ino stats), stats_to_fattr stats).

Definition create (dirid : Z) (filename : filename3) (attr : sattr3) (auth : auth_unix) :
    R (Z * fattr3) :=
  name ←? utf8 filename;
  let mode := mode_or 0x1a4 attr in
  r ←? call (SdkFs.create_file (id_to_fs_ino dirid) name (Z.lor S_IFREG mode)
               (au_uid auth) (au_gid auth));
  vok (created r.1).

Definition create_exclusive (dirid : Z) (filename : filename3) (auth : auth_unix) : R Z :=
  name ←? utf8 filename;
  existing ←? call (SdkFs.lookup (id_to_fs_ino dirid) name);
  match existing with
  | Some _ => verr NFS3ERR_EXIST
  | None =>
      r ←? call (SdkFs.create_file (id_to_fs_ino dirid) name (Z.lor S_IFREG 0x1a4)
                   (au_uid auth) (au_gid auth));
      vok (as_u64 (st_ino r.1))
  end.

Definition mkdir (dirid : Z) (dirname : filename3) (attr : sattr3) (auth : auth_unix) :
    R (Z * fattr3) :=
  name ←? utf8 dirname;
  let mode := mode_or 0x1ed attr in
  stats ←? call (SdkFs.mkdir (id_to_fs_ino dirid) name mode (au_uid auth) (au_gid auth));
  vok (created stats).

Definition mknod (dirid : Z) (filename : filename3) (ftype : ftype3) (attr : sattr3)
    (rdev : specdata3) (auth : auth_unix) : R (Z * fattr3) :=
  name ←? utf8 filename;
  let perm_mode := mode_or 0x1a4 attr in
  type_mode ←? match ftype with
               | NF3CHR => vok S_IFCHR
               | NF3BLK => vok S_IFBLK
               | NF3SOCK => vok S_IFSOCK
               | NF3FIFO => vok S_IFIFO
               | _ => verr NFS3ERR_BADTYPE
               end;
  let rdev_val := make_device (specdata1 rdev) (specdata2 rdev) in
  stats ←? call (SdkFs.mknod (id_to_fs_ino dirid) name (Z.lor type_mode perm_mode) rdev_val
                   (au_uid auth) (au_gid auth));
  vok (created stats).

Definition remove (dirid : Z) (filename : filename3) : R unit :=
  name ←? utf8 filename;
  stats ←? found (SdkFs.lookup (id_to_fs_ino dirid) name);
  if is_directory stats then call (SdkFs.rmdir (id_to_fs_ino dirid) name)
  else call (SdkFs.unlink (id_to_fs_ino dirid) name).

Definition rename (from_dirid : Z) (from_filename : filename3) (to_dirid : Z)
    (to_filename : filename3) : R unit :=
  from_name ←? utf8 from_filename;
  to_name ←? utf8 to_filename;
  call (SdkFs.rename (id_to_fs_ino from_dirid) from_name (id_to_fs_ino to_dirid) to_name).

Definition link (id dirid : Z) (filename : filename3) : R fattr3 :=
  name ←? utf8 filename;
  stats ←? call (SdkFs.link (id_to_fs_ino id) (id_to_fs_ino dirid) name);
  vok (stats_to_fattr stats).

(** The loop over the entries: [skip], [skipped_count] and the entries so far. *)
Fixpoint page (start_after max_entries : Z) (skip : bool) (skipped_count : Z)
    (acc : list NfsDirEntry) (entries : list DirEntry) : list NfsDirEntry * Z :=
  match entries with
  | [] => (acc, skipped_count)
  | entry :: entries =>
      let ino := as_u64 (st_ino (de_stats entry)) in
      if skip then
        page start_after max_entries (negb (ino =? start_after)) (skipped_count + 1) acc entries
      else if max_entries <=? len acc then (acc, skipped_count)
      else
        page start_after max_entries skip skipped_count
          (acc ++ [mk_entry ino (as_bytes (de_name entry)) (stats_to_fattr (de_stats entry))])
          entries
  end.

(** The part of [readdir] that follows the query. *)
Definition readdir_page (start_after max_entries : Z) (entries : list DirEntry) : ReadDirResult :=
  let '(acc, skipped_count) :=
    page start_after max_entries (0 <? start_after) 0 [] entries in
  mk_result acc (len entries <=? len acc + skipped_count).

Definition readdir (dirid start_after max_entries : Z) : R ReadDirResult :=
  entries ←? found (SdkFs.readdir_plus (id_to_fs_ino dirid));
  vok (readdir_page start_after max_entries entries).

Definition symlink (dirid : Z) (linkname : filename3) (symlink : nfspath3) (attr : sattr3)
    (auth : auth_unix) : R (Z * fattr3) :=
  name ←? utf8 linkname;
  target ←? utf8 symlink;
  stats ←? call (SdkFs.symlink (id_to_fs_ino dirid) name target (au_uid auth) (au_gid auth));
  vok (created stats).

Definition readlink (id : Z) : R nfspath3 :=
  target ←? found (SdkFs.readlink (id_to_fs_ino id));
  vok (as_bytes target).

#[export] Instance agent_nfs : Vfs.NFSFileSystem D C := {|
  Vfs.capabilities := ReadWriteVfs;
  Vfs.root_dir := ROOT_INO;
  Vfs.lookup := lookup;
  Vfs.getattr := getattr;
  Vfs.setattr := setattr;
  Vfs.read := read;
  Vfs.write := write;
  Vfs.create := create;
  Vfs.create_exclusive := create_exclusive;
  Vfs.mkdir := mkdir;
  Vfs.mknod := mknod;
  Vfs.remove := remove;
  Vfs.rename := rename;
  Vfs.link := link;
  Vfs.readdir := readdir;
  Vfs.symlink := symlink;
  Vfs.readlink := readlink |}.

(** ** The methods that only look *)

#[export] Instance map_err_readonly {A} f (m : M D C A) : ReadOnly m → ReadOnly (map_err f m).
Proof.
  intros Hm w. specialize (Hm w). unfold map_err. by destruct (m w) as [[]].
Qed.

Context {Hreads : SdkFs.FsReads F}.

#[export] Instance agent_nfs_reads : Vfs.VfsReads agent_nfs.
Proof.
  split; intros; cbn;
    unfold lookup, getattr, read, readdir, readlink, found, call, utf8;
    repeat (first [apply vbind_readonly; [|intros] | case_match | apply _ |
                   unfold vok, verr; apply _]).
Qed.

(** ** Errors are errors *)

#[export] Instance map_err_fails {A} f (m : M D C A) :
  (∀ e, f e ≠ NFS3_OK) → Vfs.FailsProperly (map_err f m).
Proof. intros Hf w. unfold map_err. destruct (m w) as [[]]; simpl; try done. by intros [= ?%Hf]. Qed.
Lemma error_not_ok e : error_to_nfsstat e ≠ NFS3_OK.
Proof. by destruct e as [| | | |[]| | | | | | | | | | | |]. Qed.
#[export] Instance call_fails {A} (m : M D C A) : Vfs.FailsProperly (call m).
Proof. apply map_err_fails, error_not_ok. Qed.
Lemma verr_fails {A} e : e ≠ NFS3_OK → Vfs.FailsProperly (verr (D:=D) (C:=C) (A:=A) e).
Proof. intros He w. unfold verr. simpl. congruence. Qed.
Lemma vok_or_fails {A} e (o : option A) : e ≠ NFS3_OK → Vfs.FailsProperly (vok_or (D:=D) (C:=C) e o).
Proof. destruct o; [intros _; apply vok_fails|apply verr_fails]. Qed.

Ltac fails :=
  repeat match goal with
  | |- Vfs.FailsProperly (vbind _ _) => apply vbind_fails; [|intros ?]
  | |- Vfs.FailsProperly (vok_or _ _) => apply vok_or_fails; done
  | |- Vfs.FailsProperly (verr _) => apply verr_fails; done
  | |- Vfs.FailsProperly (map_err _ _) => apply map_err_fails; done
  | |- Vfs.FailsProperly (match ?x with _ => _ end) => destruct x
  | |- _ => apply _
  end.
#[export] Instance found_fails {A} (m : M D C (option A)) : Vfs.FailsProperly (found m).
Proof. unfold found. fails. Qed.
#[export] Instance utf8_fails name : Vfs.FailsProperly (utf8 name).
Proof. unfold utf8. fails. Qed.

#[export] Instance agent_nfs_errors : Vfs.VfsErrors agent_nfs.
Proof.
  split; intros; cbn;
    unfold lookup, getattr, setattr, read, write, create, create_exclusive, mkdir, mknod,
      remove, rename, link, readdir, symlink, readlink; fails.
Qed.
End AgentNFS.

(** Instance search takes these as they are. *)
#[global] Typeclasses Opaque map_err call found utf8.
