(* ===== verification/NfsHandlers.v ===== *)
(** * NfsHandlers: the procedures of NFS

    [cli/src/nfsserve/nfs_handlers.rs].  A handler reads its arguments from the rest of the
    call, turns file handles into inode numbers, fetches attributes, checks permissions,
    calls the filesystem, and writes its reply.  Its result is the reply, or the error of
    reading the arguments, for which no reply is sent; a vector too long to be written is
    a panic.  [Vfs.NFSFileSystem] is the filesystem, [generation] the generation number of
    its handles, [overflow_checks] whether the build checks integer overflow. *)
From S2P Require Import Prelude Types Engine Xdr NfsTypes Permissions NfsVfs.

(** ** Arguments and results *)

Record READ3args := mk_READ3args { ra_file : nfs_fh3; ra_offset : Z; ra_count : Z }.
#[export] Instance READ3args_xdr : XDR READ3args :=
  xdr_struct (λ a, (ra_file a, U64 (ra_offset a), U32 (ra_count a)))
             (λ '(file, U64 offset, U32 count), mk_READ3args file offset count).
#[export] Instance READ3args_default : Default READ3args := mk_READ3args default_value 0 0.

Record READ3resok := mk_READ3resok {
  rr_file_attributes : post_op_attr; rr_count : Z; rr_eof : bool; rr_data : bytes
}.
#[export] Instance READ3resok_xdr : XDR READ3resok :=
  xdr_struct (λ r, (rr_file_attributes r, U32 (rr_count r), rr_eof r, rr_data r))
             (λ '(attrs, U32 count, eof, data), mk_READ3resok attrs count eof data).

Record PATHCONF3resok := mk_PATHCONF3resok {
  pc_obj_attributes : post_op_attr; pc_linkmax : Z; pc_name_max : Z; pc_no_trunc : bool;
  pc_chown_restricted : bool; pc_case_insensitive : bool; pc_case_preserving : bool
}.
#[export] Instance PATHCONF3resok_xdr : XDR PATHCONF3resok :=
  xdr_struct
    (λ p, (pc_obj_attributes p, U32 (pc_linkmax p), U32 (pc_name_max p), pc_no_trunc p,
           pc_chown_restricted p, pc_case_insensitive p, pc_case_preserving p))
    (λ '(obj, U32 linkmax, U32 name_max, no_trunc, chown, insensitive, preserving),
       mk_PATHCONF3resok obj linkmax name_max no_trunc chown insensitive preserving).

Record FSSTAT3resok := mk_FSSTAT3resok {
  fst_obj_attributes : post_op_attr; fst_tbytes : Z; fst_fbytes : Z; fst_abytes : Z;
  fst_tfiles : Z; fst_ffiles : Z; fst_afiles : Z; fst_invarsec : Z
}.
#[export] Instance FSSTAT3resok_xdr : XDR FSSTAT3resok :=
  xdr_struct
    (λ f, (fst_obj_attributes f, U64 (fst_tbytes f), U64 (fst_fbytes f), U64 (fst_abytes f),
           U64 (fst_tfiles f), U64 (fst_ffiles f), U64 (fst_afiles f), U32 (fst_invarsec f)))
    (λ '(obj, U64 tb, U64 fb, U64 ab, U64 tf, U64 ff, U64 af, U32 inv),
       mk_FSSTAT3resok obj tb fb ab tf ff af inv).

Record READDIRPLUS3args := mk_READDIRPLUS3args {
  rp_dir : nfs_fh3; rp_cookie : Z; rp_cookieverf : array 8; rp_dircount : Z; rp_maxcount : Z
}.
#[export] Instance READDIRPLUS3args_xdr : XDR READDIRPLUS3args :=
  xdr_struct
    (λ a, (rp_dir a, U64 (rp_cookie a), rp_cookieverf a, U32 (rp_dircount a),
           U32 (rp_maxcount a)))
    (λ '(dir, U64 cookie, verf, U32 dircount, U32 maxcount),
       mk_READDIRPLUS3args dir cookie verf dircount maxcount).
#[export] Instance READDIRPLUS3args_default : Default READDIRPLUS3args :=
  mk_READDIRPLUS3args default_value 0 default_value 0 0.

Record entry3 := mk_entry3 { e3_fileid : Z; e3_name : filename3; e3_cookie : Z }.
#[export] Instance entry3_xdr : XDR entry3 :=
  xdr_struct (λ e, (U64 (e3_fileid e), e3_name e, U64 (e3_cookie e)))
             (λ '(U64 fileid, name, U64 cookie), mk_entry3 fileid name cookie).

Record READDIR3args := mk_READDIR3args {
  rda_dir : nfs_fh3; rda_cookie : Z; rda_cookieverf : array 8; rda_dircount : Z
}.
#[export] Instance READDIR3args_xdr : XDR READDIR3args :=
  xdr_struct
    (λ a, (rda_dir a, U64 (rda_cookie a), rda_cookieverf a, U32 (rda_dircount a)))
    (λ '(dir, U64 cookie, verf, U32 dircount), mk_READDIR3args dir cookie verf dircount).
#[export] Instance READDIR3args_default : Default READDIR3args :=
  mk_READDIR3args default_value 0 default_value 0.

Record entryplus3 := mk_entryplus3 {
  ep_fileid : Z; ep_name : filename3; ep_cookie : Z; ep_name_attributes : post_op_attr;
  ep_name_handle : post_op_fh3
}.
#[export] Instance entryplus3_xdr : XDR entryplus3 :=
  xdr_struct
    (λ e, (U64 (ep_fileid e), ep_name e, U64 (ep_cookie e), ep_name_attributes e,
           ep_name_handle e))
    (λ '(U64 fileid, name, U64 cookie, attrs, handle),
       mk_entryplus3 fileid name cookie attrs handle).

Inductive stable_how := UNSTABLE | DATA_SYNC | FILE_SYNC.
Definition stable_how_num (s : stable_how) : Z :=
  match s with UNSTABLE => 0 | DATA_SYNC => 1 | FILE_SYNC => 2 end.
#[export] Instance stable_how_xdr : XDR stable_how :=
  xdr_enum stable_how_num (from_primitive stable_how_num [UNSTABLE; DATA_SYNC; FILE_SYNC]).

Record WRITE3args := mk_WRITE3args {
  wr_file : nfs_fh3; wr_offset : Z; wr_count : Z; wr_stable : Z; wr_data : bytes
}.
#[export] Instance WRITE3args_xdr : XDR WRITE3args :=
  xdr_struct
    (λ a, (wr_file a, U64 (wr_offset a), U32 (wr_count a), U32 (wr_stable a), wr_data a))
    (λ '(file, U64 offset, U32 count, U32 stable, data),
       mk_WRITE3args file offset count stable data).
#[export] Instance WRITE3args_default : Default WRITE3args := mk_WRITE3args default_value 0 0 0 [].

Record WRITE3resok := mk_WRITE3resok {
  wo_file_wcc : wcc_data; wo_count : Z; wo_committed : stable_how; wo_verf : array 8
}.
#[export] Instance WRITE3resok_xdr : XDR WRITE3resok :=
  xdr_struct (λ r, (wo_file_wcc r, U32 (wo_count r), wo_committed r, wo_verf r))
             (λ '(wcc, U32 count, committed, verf), mk_WRITE3resok wcc count committed verf).

Inductive createmode3 := UNCHECKED | GUARDED | EXCLUSIVE.
Definition createmode3_num (m : createmode3) : Z :=
  match m with UNCHECKED => 0 | GUARDED => 1 | EXCLUSIVE => 2 end.
#[export] Instance createmode3_xdr : XDR createmode3 :=
  xdr_enum createmode3_num (from_primitive createmode3_num [UNCHECKED; GUARDED; EXCLUSIVE]).
#[export] Instance createmode3_default : Default createmode3 := UNCHECKED.

(** [sattrguard3] is a union of [XDRBoolUnion]. *)
Abbreviation sattrguard3 := (option nfstime3).

Record SETATTR3args := mk_SETATTR3args {
  sta_object : nfs_fh3; sta_new_attribute : sattr3; sta_guard : sattrguard3
}.
#[export] Instance SETATTR3args_xdr : XDR SETATTR3args :=
  xdr_struct (λ a, (sta_object a, sta_new_attribute a, sta_guard a))
             (λ '(object, attrs, guard), mk_SETATTR3args object attrs guard).
#[export] Instance SETATTR3args_default : Default SETATTR3args :=
  mk_SETATTR3args default_value default_value None.

Record MKDIR3args := mk_MKDIR3args { mka_dirops : diropargs3; mka_attributes : sattr3 }.
#[export] Instance MKDIR3args_xdr : XDR MKDIR3args :=
  xdr_struct (λ a, (mka_dirops a, mka_attributes a)) (λ '(d, s), mk_MKDIR3args d s).
#[export] Instance MKDIR3args_default : Default MKDIR3args := mk_MKDIR3args default_value default_value.

Record SYMLINK3args := mk_SYMLINK3args { sya_dirops : diropargs3; sya_symlink : symlinkdata3 }.
#[export] Instance SYMLINK3args_xdr : XDR SYMLINK3args :=
  xdr_struct (λ a, (sya_dirops a, sya_symlink a)) (λ '(d, s), mk_SYMLINK3args d s).
#[export] Instance SYMLINK3args_default : Default SYMLINK3args :=
  mk_SYMLINK3args default_value default_value.

Record LINK3args := mk_LINK3args { la_file : nfs_fh3; la_link : diropargs3 }.
#[export] Instance LINK3args_xdr : XDR LINK3args :=
  xdr_struct (λ a, (la_file a, la_link a)) (λ '(f, l), mk_LINK3args f l).
#[export] Instance LINK3args_default : Default LINK3args := mk_LINK3args default_value default_value.

(** ** Handlers *)

Section Handlers.
Context {D C : Type} {V : Vfs.NFSFileSystem D C} (generation : Z) (overflow_checks : bool).

(** A handler on the credentials of the caller and the rest of the input. *)
Abbreviation Handler := (M D C (IoError + bytes)).

(** [let mut args = T::default(); args.deserialize(input)?;]. *)
Definition read_args {T} `{XDR T, Default T} (input : bytes) (k : T → bytes → Handler) : Handler :=
  match deserialize (T := T) default_value input with
  | inl e => mret (inl e)
  | inr (args, input) => k args input
  end.

(** What is written to [output], piece by piece. *)
Definition output (pieces : list (option bytes)) : Handler :=
  bs ← or_panic (wconcat pieces); mret (inr bs).

(** A reply: the header, a status, and the rest. *)
Definition reply (xid : Z) (stat : nfsstat3) (pieces : list (option bytes)) : Handler :=
  output (serialize (make_success_reply xid) :: serialize stat :: pieces).

(** [context.vfs.fh_to_id(&fh)], with the failure that follows. *)
Definition with_id (xid : Z) (fh : nfs_fh3) (failure : list (option bytes)) (k : Z → Handler) :
    Handler :=
  match fh_to_id generation fh with
  | inl stat => reply xid stat failure
  | inr id => k id
  end.

(** [match context.vfs.getattr(id).await], with the failure that follows. *)
Definition with_attr (xid id : Z) (failure : list (option bytes)) (k : fattr3 → Handler) :
    Handler :=
  r ← Vfs.getattr id;
  match r with
  | inl stat => reply xid stat failure
  | inr attr => k attr
  end.

(** The attributes of [id], or [Void]. *)
Definition attr_now (id : Z) : M D C post_op_attr := r ← Vfs.getattr id; mret (post_attr r).

Definition pre_attr (attr : fattr3) : pre_op_attr :=
  Some (mk_wcc_attr (fa_size attr) (fa_mtime attr) (fa_ctime attr)).

Definition void_attr : option bytes := serialize (None : post_op_attr).
Definition no_wcc : option bytes := serialize (default_value : wcc_data).

(** [if !matches!(context.vfs.capabilities(), VFSCapabilities::ReadWrite)]. *)
Definition needs_write (xid : Z) (failure : list (option bytes)) (k : Handler) : Handler :=
  match Vfs.capabilities (D := D) (C := C) with
  | ReadWriteVfs => k
  | ReadOnlyVfs => reply xid NFS3ERR_ROFS failure
  end.

Section Procedures.
Context (auth : auth_unix).

Definition nfsproc3_null (xid : Z) (input : bytes) : Handler :=
  output [serialize (make_success_reply xid)].

Definition nfsproc3_getattr (xid : Z) (input : bytes) : Handler :=
  read_args input (λ (handle : nfs_fh3) _,
  with_id xid handle [] (λ id,
  r ← Vfs.getattr id;
  match r with
  | inr fh => reply xid NFS3_OK [serialize fh]
  | inl stat => reply xid stat []
  end)).

Definition nfsproc3_lookup (xid : Z) (input : bytes) : Handler :=
  read_args input (λ (dirops : diropargs3) _,
  with_id xid (do_dir dirops) [void_attr] (λ dirid,
  with_attr xid dirid [void_attr] (λ dir_attr_full,
  let dir_attr := serialize (Some dir_attr_full) in
  if negb (can_execute auth dir_attr_full) then reply xid NFS3ERR_ACCES [dir_attr]
  else
    r ← Vfs.lookup dirid (do_name dirops);
    match r with
    | inr fid =>
        obj_attr ← attr_now fid;
        reply xid NFS3_OK [serialize (id_to_fh generation fid); serialize obj_attr; dir_attr]
    | inl stat => reply xid stat [dir_attr]
    end))).

Definition nfsproc3_read (xid : Z) (input : bytes) : Handler :=
  read_args input (λ (args : READ3args) _,
  with_id xid (ra_file args) [void_attr] (λ id,
  with_attr xid id [void_attr] (λ attr,
  if negb (can_read auth attr) then reply xid NFS3ERR_ACCES [serialize (Some attr)]
  else
    r ← Vfs.read id (ra_offset args) (ra_count args);
    match r with
    | inr (data, eof) =>
        reply xid NFS3_OK [serialize (mk_READ3resok (Some attr) (as_u32 (len data)) eof data)]
    | inl stat => reply xid stat [serialize (Some attr)]
    end))).

Definition nfsproc3_fsinfo (xid : Z) (input : bytes) : Handler :=
  read_args input (λ (handle : nfs_fh3) _,
  with_id xid handle [void_attr] (λ id,
  r ← fsinfo id;
  match r with
  | inr info => reply xid NFS3_OK [serialize info]
  | inl stat => reply xid stat []
  end)).

Definition nfsproc3_access (xid : Z) (input : bytes) : Handler :=
  read_args input (λ (handle : nfs_fh3) input,
  read_args input (λ (requested_access : u32) _,
  with_id xid handle [void_attr] (λ id,
  with_attr xid id [void_attr] (λ attr,
  let granted_access := compute_access auth attr (of_u32 requested_access) in
  let granted_access :=
    match Vfs.capabilities (D := D) (C := C) with
    | ReadWriteVfs => granted_access
    | ReadOnlyVfs =>
        Z.land granted_access (Z.lor (Z.lor ACCESS3_READ ACCESS3_LOOKUP) ACCESS3_EXECUTE)
    end in
  reply xid NFS3_OK [serialize (Some attr); serialize (U32 granted_access)])))).

Definition nfsproc3_pathconf (xid : Z) (input : bytes) : Handler :=
  read_args input (λ (handle : nfs_fh3) _,
  with_id xid handle [void_attr] (λ id,
  obj_attr ← attr_now id;
  reply xid NFS3_OK [serialize (mk_PATHCONF3resok obj_attr 0 32768 true true false true)])).

Definition nfsproc3_fsstat (xid : Z) (input : bytes) : Handler :=
  read_args input (λ (handle : nfs_fh3) _,
  with_id xid handle [void_attr] (λ id,
  obj_attr ← attr_now id;
  reply xid NFS3_OK
    [serialize (mk_FSSTAT3resok obj_attr
       (1024 * 1024 * 1024 * 1024) (1024 * 1024 * 1024 * 1024) (1024 * 1024 * 1024 * 1024)
       (1024 * 1024 * 1024) (1024 * 1024 * 1024) (1024 * 1024 * 1024) U32_MAX)])).

(** ** Listing directories *)

(** [a as usize - b]: it panics below zero, or wraps around. *)
Definition usize_sub (a b : Z) : option Z :=
  if b <=? a then Some (a - b) else if overflow_checks then None else Some (as_u64 (a - b)).

(** The version of a directory: its modification time. *)
Definition dirversion (attr : fattr3) : array 8 :=
  Array (be_bytes 8 (Z.lor (Z.shiftl (seconds (fa_mtime attr)) 32) (nseconds (fa_mtime attr)))).

(** The size of fileid, name and cookie. *)
Definition added_dircount (name : filename3) : Z := 8 + (4 + len name) + 8.

(** The entries that fit, after the bytes written so far, and whether all did. *)
Fixpoint plus_loop (max_bytes_allowed max_dircount_bytes : Z) (out : bytes)
    (accumulated_dircount : Z) (entries : list NfsDirEntry) : option (bytes * bool) :=
  match entries with
  | [] => Some (out, true)
  | entry :: entries =>
      write_buf ← wapp (serialize true)
        (serialize (mk_entryplus3 (nde_fileid entry) (nde_name entry) (nde_fileid entry)
                      (Some (nde_attr entry)) (Some (id_to_fh generation (nde_fileid entry)))));
      if (len write_buf + len out <? max_bytes_allowed) &&
         (added_dircount (nde_name entry) + accumulated_dircount <? max_dircount_bytes)
      then plus_loop max_bytes_allowed max_dircount_bytes (out ++ write_buf)
             (accumulated_dircount + added_dircount (nde_name entry)) entries
      else Some (out, false)
  end.

Fixpoint simple_loop (max_bytes_allowed : Z) (out : bytes) (entries : list DirEntrySimple) :
    option (bytes * bool) :=
  match entries with
  | [] => Some (out, true)
  | entry :: entries =>
      write_buf ← wapp (serialize true)
        (serialize (mk_entry3 (des_fileid entry) (des_name entry) (des_fileid entry)));
      if len write_buf + len out <? max_bytes_allowed
      then simple_loop max_bytes_allowed (out ++ write_buf) entries
      else Some (out, false)
  end.

(** The reply: header, entries, end of list, end of directory. *)
Definition listing (xid : Z) (dir_attr : fattr3) (loop : bytes → option (bytes * bool))
    (at_end : bool) : Handler :=
  head ← or_panic (wconcat [serialize (make_success_reply xid); serialize NFS3_OK;
                            serialize (Some dir_attr); serialize (dirversion dir_attr)]);
  r ← or_panic (loop head);
  let '(out, all_entries_written) := r in
  output [Some out; serialize false;
          serialize (if all_entries_written : bool then at_end else false)].

Definition nfsproc3_readdirplus (xid : Z) (input : bytes) : Handler :=
  read_args input (λ (args : READDIRPLUS3args) _,
  with_id xid (rp_dir args) [void_attr] (λ dirid,
  with_attr xid dirid [void_attr] (λ dir_attr,
  if negb (can_read auth dir_attr) then reply xid NFS3ERR_ACCES [serialize (Some dir_attr)]
  else
    max_bytes_allowed ← or_panic (usize_sub (rp_maxcount args) 128);
    let estimated_max_results := rp_dircount args / 16 in
    r ← Vfs.readdir dirid (rp_cookie args) estimated_max_results;
    match r with
    | inr result =>
        listing xid dir_attr
          (λ head, plus_loop max_bytes_allowed (rp_dircount args) head 0 (rd_entries result))
          (rd_end result)
    | inl stat => reply xid stat [serialize (Some dir_attr)]
    end))).

(** [args.cookie] is not used. *)
Definition nfsproc3_readdir (xid : Z) (input : bytes) : Handler :=
  read_args input (λ (args : READDIR3args) _,
  with_id xid (rda_dir args) [void_attr] (λ dirid,
  with_attr xid dirid [void_attr] (λ dir_attr,
  if negb (can_read auth dir_attr) then reply xid NFS3ERR_ACCES [serialize (Some dir_attr)]
  else
    max_bytes_allowed ← or_panic (usize_sub (rda_dircount args) 128);
    let estimated_max_results := rda_dircount args / 16 in
    r ← readdir_simple dirid estimated_max_results;
    match r with
    | inr result =>
        listing xid dir_attr
          (λ head, simple_loop max_bytes_allowed head (rds_entries result)) (rds_end result)
    | inl stat => reply xid stat [serialize (Some dir_attr)]
    end))).

(** ** Writing and changing attributes *)

Definition nfsproc3_write (xid : Z) (input : bytes) : Handler :=
  needs_write xid [no_wcc] (
  read_args input (λ (args : WRITE3args) _,
  if negb (len (wr_data args) =? wr_count args) then
    output [serialize (garbage_args_reply_message xid)]
  else
  with_id xid (wr_file args) [no_wcc] (λ id,
  with_attr xid id [no_wcc] (λ attr,
  if negb (can_write auth attr) then
    reply xid NFS3ERR_ACCES [serialize (mk_wcc_data (pre_attr attr) (Some attr))]
  else
    r ← Vfs.write id (wr_offset args) (wr_data args);
    match r with
    | inr fattr =>
        fattr ←
          (if negb (au_uid auth =? 0) && has_bit (fa_mode fattr) 0xc00 then
             let cleared_mode := Z.ldiff (fa_mode fattr) 0xc00 in
             updated ← Vfs.setattr id
               (mk_sattr3 (Some (U32 cleared_mode)) None None None DONT_CHANGE DONT_CHANGE);
             mret (match updated with inr updated => updated | inl _ => fattr end)
           else mret fattr);
        reply xid NFS3_OK
          [serialize (mk_WRITE3resok (mk_wcc_data (pre_attr attr) (Some fattr))
                        (wr_count args) FILE_SYNC (serverid generation))]
    | inl stat => reply xid stat [no_wcc]
    end)))).

(** [NFS3ERR_PERM], or another status, with the attributes on both sides. *)
Definition refused (xid : Z) (stat : nfsstat3) (attr : fattr3) : Handler :=
  reply xid stat [serialize (mk_wcc_data (pre_attr attr) (Some attr))].

Definition sets_client_time (t : set_time) : bool :=
  match t with SET_TO_CLIENT_TIME _ => true | _ => false end.

(** The checks of SETATTR, in their order: the status of the first that fails. *)
Definition setattr_check (attr : fattr3) (new_attribute : sattr3) : option nfsstat3 :=
  let changing_mode := bool_decide (is_Some (sa_mode new_attribute)) in
  let root := au_uid auth =? 0 in
  if bool_decide (is_Some (sa_size new_attribute)) && negb (can_write auth attr)
  then Some NFS3ERR_ACCES
  else if changing_mode && negb (is_owner auth attr) then Some NFS3ERR_PERM
  else if from_option (λ target_uid, negb root && negb (of_u32 target_uid =? fa_uid attr))
            false (sa_uid new_attribute)
  then Some NFS3ERR_PERM
  else if from_option (λ target_gid, negb root && negb (is_owner auth attr))
            false (sa_gid new_attribute)
  then Some NFS3ERR_PERM
  else if from_option (λ target_gid, negb root &&
            negb ((au_gid auth =? of_u32 target_gid) || gids_contain auth (of_u32 target_gid)))
            false (sa_gid new_attribute)
  then Some NFS3ERR_PERM
  else if (sets_client_time (sa_atime new_attribute) || sets_client_time (sa_mtime new_attribute))
          && negb (is_owner auth attr)
  then Some NFS3ERR_PERM
  else None.

Definition with_mode (mode : set_mode3) (s : sattr3) : sattr3 :=
  mk_sattr3 mode (sa_uid s) (sa_gid s) (sa_size s) (sa_atime s) (sa_mtime s).

(** The bits that POSIX clears: S_ISGID when a caller outside the group sets it, S_ISUID and
    S_ISGID when ownership changes. *)
Definition adjust_mode (attr : fattr3) (s : sattr3) : sattr3 :=
  let root := au_uid auth =? 0 in
  match sa_mode s with
  | Some (U32 mode) =>
      let file_gid := default (fa_gid attr) (of_u32 <$> sa_gid s) in
      if negb root && has_bit mode 0x400 &&
         negb ((au_gid auth =? file_gid) || gids_contain auth file_gid)
      then with_mode (Some (U32 (Z.ldiff mode 0x400))) s else s
  | None =>
      if negb root && (bool_decide (is_Some (sa_uid s)) || bool_decide (is_Some (sa_gid s))) &&
         has_bit (fa_mode attr) 0xc00
      then with_mode (Some (U32 (Z.ldiff (fa_mode attr) 0xc00))) s else s
  end.

(** A guard that does not match writes a reply, and goes on. *)
Definition guard_reply (xid : Z) (attr : fattr3) (guard : sattrguard3) : list (option bytes) :=
  match guard with
  | None => []
  | Some c =>
      if negb (seconds c =? seconds (fa_ctime attr)) || negb (nseconds c =? nseconds (fa_ctime attr))
      then [serialize (make_success_reply xid); serialize NFS3ERR_NOT_SYNC; no_wcc]
      else []
  end.

Definition nfsproc3_setattr (xid : Z) (input : bytes) : Handler :=
  needs_write xid [no_wcc] (
  read_args input (λ (args : SETATTR3args) _,
  with_id xid (sta_object args) [] (λ id,
  with_attr xid id [no_wcc] (λ attr,
  match setattr_check attr (sta_new_attribute args) with
  | Some stat => refused xid stat attr
  | None =>
      let new_attribute := adjust_mode attr (sta_new_attribute args) in
      let written := guard_reply xid attr (sta_guard args) in
      r ← Vfs.setattr id new_attribute;
      match r with
      | inr post_op_attr =>
          output (written ++
            [serialize (make_success_reply xid); serialize NFS3_OK;
             serialize (mk_wcc_data (pre_attr attr) (Some post_op_attr))])
      | inl stat =>
          output (written ++ [serialize (make_success_reply xid); serialize stat; no_wcc])
      end
  end)))).

(** ** Creating entries *)

(** The attributes of a directory before an operation, and the check that the caller may
    add entries to it; then the operation. *)
Definition in_directory (xid : Z) (fh : nfs_fh3) (k : Z → fattr3 → Handler) : Handler :=
  with_id xid fh [no_wcc] (λ dirid,
  with_attr xid dirid [no_wcc] (λ dir_attr,
  if negb (can_modify_directory auth dir_attr) then
    post_dir_attr ← attr_now dirid;
    reply xid NFS3ERR_ACCES [serialize (mk_wcc_data (pre_attr dir_attr) post_dir_attr)]
  else k dirid dir_attr)).

(** The replies of the procedures that create an entry; the attributes of the directory
    are fetched again. *)
Definition creation_reply (xid dirid : Z) (dir_attr : fattr3)
    (r : nfsstat3 + (Z * post_op_attr)) : Handler :=
  post_dir_attr ← attr_now dirid;
  let wcc_res := serialize (mk_wcc_data (pre_attr dir_attr) post_dir_attr) in
  match r with
  | inr (fid, attr) =>
      reply xid NFS3_OK [serialize (Some (id_to_fh generation fid)); serialize attr; wcc_res]
  | inl e => reply xid e [wcc_res]
  end.

(** [Ok((fid, fattr))], with the attributes to return. *)
Definition with_attributes (r : nfsstat3 + (Z * fattr3)) : nfsstat3 + (Z * post_op_attr) :=
  match r with inr (fid, fattr) => inr (fid, Some fattr) | inl e => inl e end.

Definition nfsproc3_create (xid : Z) (input : bytes) : Handler :=
  needs_write xid [no_wcc] (
  read_args input (λ (dirops : diropargs3) input,
  read_args input (λ (createhow : createmode3) input,
  in_directory xid (do_dir dirops) (λ dirid dir_attr,
  let create (target_attributes : sattr3) : Handler :=
    r ← Vfs.create dirid (do_name dirops) target_attributes auth;
    creation_reply xid dirid dir_attr (with_attributes r) in
  match createhow with
  | UNCHECKED => read_args input (λ target_attributes _, create target_attributes)
  | GUARDED =>
      read_args input (λ target_attributes _,
      existing ← Vfs.lookup dirid (do_name dirops);
      match existing with
      | inr _ =>
          post_dir_attr ← attr_now dirid;
          reply xid NFS3ERR_EXIST [serialize (mk_wcc_data (pre_attr dir_attr) post_dir_attr)]
      | inl _ => create target_attributes
      end)
  | EXCLUSIVE =>
      r ← Vfs.create_exclusive dirid (do_name dirops) auth;
      creation_reply xid dirid dir_attr
        (match r with inr fid => inr (fid, None) | inl e => inl e end)
  end)))).

Definition nfsproc3_mkdir (xid : Z) (input : bytes) : Handler :=
  needs_write xid [no_wcc] (
  read_args input (λ (args : MKDIR3args) _,
  in_directory xid (do_dir (mka_dirops args)) (λ dirid dir_attr,
  r ← Vfs.mkdir dirid (do_name (mka_dirops args)) (mka_attributes args) auth;
  creation_reply xid dirid dir_attr (with_attributes r)))).

Definition nfsproc3_symlink (xid : Z) (input : bytes) : Handler :=
  needs_write xid [no_wcc] (
  read_args input (λ (args : SYMLINK3args) _,
  in_directory xid (do_dir (sya_dirops args)) (λ dirid dir_attr,
  r ← Vfs.symlink dirid (do_name (sya_dirops args)) (symlink_data (sya_symlink args))
        (symlink_attributes (sya_symlink args)) auth;
  creation_reply xid dirid dir_attr (with_attributes r)))).

Definition nfsproc3_mknod (xid : Z) (input : bytes) : Handler :=
  needs_write xid [no_wcc] (
  read_args input (λ (dirops : diropargs3) input,
  read_args input (λ (ftype : u32) input,
  let ftype := default NF3REG (ftype3_from_u32 (of_u32 ftype)) in
  let make (attr : sattr3) (rdev : specdata3) : Handler :=
    in_directory xid (do_dir dirops) (λ dirid dir_attr,
    r ← Vfs.mknod dirid (do_name dirops) ftype attr rdev auth;
    creation_reply xid dirid dir_attr (with_attributes r)) in
  match ftype with
  | NF3CHR | NF3BLK =>
      read_args input (λ (attr : sattr3) input,
      read_args input (λ (rdev : specdata3) _, make attr rdev))
  | NF3SOCK | NF3FIFO =>
      read_args input (λ (attr : sattr3) _, make attr default_value)
  | _ => reply xid NFS3ERR_BADTYPE [no_wcc]
  end))).

Definition nfsproc3_link (xid : Z) (input : bytes) : Handler :=
  needs_write xid [void_attr; no_wcc] (
  read_args input (λ (args : LINK3args) _,
  with_id xid (la_file args) [void_attr; no_wcc] (λ fileid,
  with_attr xid fileid [void_attr; no_wcc] (λ file_attr,
  if bool_decide (fa_ftype file_attr = NF3DIR) then
    reply xid NFS3ERR_ISDIR [serialize (Some file_attr); no_wcc]
  else
  with_id xid (do_dir (la_link args)) [serialize (Some file_attr); no_wcc] (λ dirid,
  with_attr xid dirid [serialize (Some file_attr); no_wcc] (λ dir_attr,
  if negb (can_modify_directory auth dir_attr) then
    post_dir_attr ← attr_now dirid;
    reply xid NFS3ERR_ACCES
      [serialize (Some file_attr); serialize (mk_wcc_data (pre_attr dir_attr) post_dir_attr)]
  else
    r ← Vfs.link fileid dirid (do_name (la_link args));
    post_dir_attr ← attr_now dirid;
    let wcc_res := serialize (mk_wcc_data (pre_attr dir_attr) post_dir_attr) in
    match r with
    | inr new_attr => reply xid NFS3_OK [serialize (Some new_attr); wcc_res]
    | inl e =>
        post_file_attr ← attr_now fileid;
        reply xid e [serialize post_file_attr; wcc_res]
    end)))))).

Definition nfsproc3_readlink (xid : Z) (input : bytes) : Handler :=
  read_args input (λ (handle : nfs_fh3) _,
  with_id xid handle [] (λ id,
  with_attr xid id [void_attr] (λ attr,
  r ← Vfs.readlink id;
  match r with
  | inr path => reply xid NFS3_OK [serialize (Some attr); serialize path]
  | inl stat => reply xid stat [serialize (Some attr)]
  end))).

(** ** Removing entries *)

(** Whether the caller may take the entry [name] out of the directory, and, for an entry
    that a sticky directory holds, what else is asked of it. *)
Definition may_take (dirid : Z) (dir_attr : fattr3) (name : filename3) (extra : fattr3 → bool) :
    M D C bool :=
  if has_bit (fa_mode dir_attr) S_ISVTX then
    r ← Vfs.lookup dirid name;
    match r with
    | inr entry_id =>
        a ← Vfs.getattr entry_id;
        match a with
        | inr entry_attr => mret (can_delete_entry auth dir_attr entry_attr && extra entry_attr)
        | inl _ => mret (can_modify_directory auth dir_attr)
        end
    | inl _ => mret (can_modify_directory auth dir_attr)
    end
  else mret (can_modify_directory auth dir_attr).

Definition nfsproc3_remove (xid : Z) (input : bytes) : Handler :=
  needs_write xid [no_wcc] (
  read_args input (λ (dirops : diropargs3) _,
  with_id xid (do_dir dirops) [no_wcc] (λ dirid,
  with_attr xid dirid [no_wcc] (λ dir_attr,
  remove_allowed ← may_take dirid dir_attr (do_name dirops) (λ _, true);
  if negb remove_allowed then
    post_dir_attr ← attr_now dirid;
    reply xid NFS3ERR_ACCES [serialize (mk_wcc_data (pre_attr dir_attr) post_dir_attr)]
  else
    res ← Vfs.remove dirid (do_name dirops);
    post_dir_attr ← attr_now dirid;
    let wcc_res := serialize (mk_wcc_data (pre_attr dir_attr) post_dir_attr) in
    match res with
    | inr _ => reply xid NFS3_OK [wcc_res]
    | inl e => reply xid e [wcc_res]
    end)))).

(** A reply of RENAME, with the attributes of both directories fetched again. *)
Definition rename_reply (xid : Z) (stat : nfsstat3) (from_dirid to_dirid : Z)
    (from_dir_attr to_dir_attr : fattr3) : Handler :=
  post_from_dir_attr ← attr_now from_dirid;
  post_to_dir_attr ← attr_now to_dirid;
  reply xid stat
    [serialize (mk_wcc_data (pre_attr from_dir_attr) post_from_dir_attr);
     serialize (mk_wcc_data (pre_attr to_dir_attr) post_to_dir_attr)].

(** A directory that leaves a sticky directory is moved by its owner or root only. *)
Definition may_move (from_dirid to_dirid : Z) (entry_attr : fattr3) : bool :=
  negb (bool_decide (fa_ftype entry_attr = NF3DIR) && negb (from_dirid =? to_dirid) &&
        negb (au_uid auth =? 0) && negb (au_uid auth =? fa_uid entry_attr)).

Definition nfsproc3_rename (xid : Z) (input : bytes) : Handler :=
  needs_write xid [no_wcc] (
  read_args input (λ (fromdirops : diropargs3) input,
  read_args input (λ (todirops : diropargs3) _,
  with_id xid (do_dir fromdirops) [no_wcc] (λ from_dirid,
  with_id xid (do_dir todirops) [no_wcc] (λ to_dirid,
  with_attr xid from_dirid [no_wcc] (λ from_dir_attr,
  with_attr xid to_dirid [no_wcc] (λ to_dir_attr,
  from_allowed ← may_take from_dirid from_dir_attr (do_name fromdirops)
                   (may_move from_dirid to_dirid);
  if negb from_allowed then
    rename_reply xid NFS3ERR_ACCES from_dirid to_dirid from_dir_attr to_dir_attr
  else
  to_allowed ← may_take to_dirid to_dir_attr (do_name todirops) (λ _, true);
  if negb to_allowed then
    rename_reply xid NFS3ERR_ACCES from_dirid to_dirid from_dir_attr to_dir_attr
  else
    res ← Vfs.rename from_dirid (do_name fromdirops) to_dirid (do_name todirops);
    rename_reply xid (match res with inr _ => NFS3_OK | inl e => e end)
      from_dirid to_dirid from_dir_attr to_dir_attr))))))).
End Procedures.

(** ** Dispatch *)

(** [nfs::VERSION]. *)
Definition NFS_VERSION : Z := 3.

Definition handle_nfs (auth : auth_unix) (xid : Z) (call : call_body) (input : bytes) : Handler :=
  if negb (cb_vers call =? NFS_VERSION) then
    output [serialize (prog_mismatch_reply_message xid NFS_VERSION)]
  else
    match cb_proc call with
    | 0 => nfsproc3_null xid input
    | 1 => nfsproc3_getattr xid input
    | 2 => nfsproc3_setattr auth xid input
    | 3 => nfsproc3_lookup auth xid input
    | 4 => nfsproc3_access auth xid input
    | 5 => nfsproc3_readlink xid input
    | 6 => nfsproc3_read auth xid input
    | 7 => nfsproc3_write auth xid input
    | 8 => nfsproc3_create auth xid input
    | 9 => nfsproc3_mkdir auth xid input
    | 10 => nfsproc3_symlink auth xid input
    | 11 => nfsproc3_mknod auth xid input
    | 12 => nfsproc3_remove auth xid input
    | 13 => nfsproc3_remove auth xid input
    | 14 => nfsproc3_rename auth xid input
    | 15 => nfsproc3_link auth xid input
    | 16 => nfsproc3_readdir auth xid input
    | 17 => nfsproc3_readdirplus auth xid input
    | 18 => nfsproc3_fsstat xid input
    | 19 => nfsproc3_fsinfo xid input
    | 20 => nfsproc3_pathconf xid input
    | _ => output [serialize (proc_unavail_reply_message xid)]
    end.
End Handlers.

(** Instance search takes these as they are. *)
#[global] Typeclasses Opaque output reply attr_now listing may_take rename_reply compute_access.

(** What holds of every procedure holds of the dispatch. *)
Lemma dispatch {A} (Q : Z → A → Prop) (p : Z)
    (f0 f1 f2 f3 f4 f5 f6 f7 f8 f9 f10 f11 f12 f13 f14 f15 f16 f17 f18 f19 f20 other : A) :
  Q 0 f0 → Q 1 f1 → Q 2 f2 → Q 3 f3 → Q 4 f4 → Q 5 f5 → Q 6 f6 → Q 7 f7 → Q 8 f8 → Q 9 f9 →
  Q 10 f10 → Q 11 f11 → Q 12 f12 → Q 13 f13 → Q 14 f14 → Q 15 f15 → Q 16 f16 → Q 17 f17 →
  Q 18 f18 → Q 19 f19 → Q 20 f20 → (∀ p, ¬ (0 <= p <= 20) → Q p other) →
  Q p (match p with
       | 0 => f0 | 1 => f1 | 2 => f2 | 3 => f3 | 4 => f4 | 5 => f5 | 6 => f6 | 7 => f7 | 8 => f8
       | 9 => f9 | 10 => f10 | 11 => f11 | 12 => f12 | 13 => f13 | 14 => f14 | 15 => f15
       | 16 => f16 | 17 => f17 | 18 => f18 | 19 => f19 | 20 => f20 | _ => other
       end).
Proof.
  intros. destruct p as [|p|p]; [assumption| |match goal with H : _ |- _ => apply H; lia end].
  do 5 try (destruct p as [p|p|]; try assumption;
            try match goal with H : ∀ p, ¬ _ → _ |- _ => apply H; lia end).
Qed.
