(* ===== verification/NfsWire.v ===== *)
(** * NfsWire: the messages of NFS on the wire

    The codecs of the arguments and results of the procedures, and what the codecs of all
    messages promise together. *)
From S2P Require Import Prelude Engine Xdr NfsTypes NfsVfs NfsHandlers.

#[export] Instance READ3args_codec : XdrCodec READ3args.
Proof. struct_codec. Defined.
#[export] Instance READ3resok_codec : XdrCodec READ3resok.
Proof. struct_codec. Defined.
#[export] Instance PATHCONF3resok_codec : XdrCodec PATHCONF3resok.
Proof. struct_codec. Defined.
#[export] Instance FSSTAT3resok_codec : XdrCodec FSSTAT3resok.
Proof. struct_codec. Defined.
#[export] Instance READDIRPLUS3args_codec : XdrCodec READDIRPLUS3args.
Proof. struct_codec. Defined.
#[export] Instance entry3_codec : XdrCodec entry3.
Proof. struct_codec. Defined.
#[export] Instance READDIR3args_codec : XdrCodec READDIR3args.
Proof. struct_codec. Defined.
#[export] Instance entryplus3_codec : XdrCodec entryplus3.
Proof. struct_codec. Defined.
#[export] Instance stable_how_codec : XdrCodec stable_how.
Proof. enum_codec. Defined.
#[export] Instance WRITE3args_codec : XdrCodec WRITE3args.
Proof. struct_codec. Defined.
#[export] Instance WRITE3resok_codec : XdrCodec WRITE3resok.
Proof. struct_codec. Defined.
#[export] Instance createmode3_codec : XdrCodec createmode3.
Proof. enum_codec. Defined.
#[export] Instance SETATTR3args_codec : XdrCodec SETATTR3args.
Proof. struct_codec. Defined.
#[export] Instance MKDIR3args_codec : XdrCodec MKDIR3args.
Proof. struct_codec. Defined.
#[export] Instance SYMLINK3args_codec : XdrCodec SYMLINK3args.
Proof. struct_codec. Defined.
#[export] Instance LINK3args_codec : XdrCodec LINK3args.
Proof. struct_codec. Defined.

(** ** What a codec promises *)

(** A value within its types is written, in a multiple of four bytes, and read back from
    whatever follows, over whatever value. *)
Definition crosses {T} `{XDR T} (v : T) : Prop :=
  ∃ bs, serialize v = Some bs ∧ (4 | len bs) ∧
    ∀ old rest, deserialize old (bs ++ rest) = inr (v, rest).

(** The promise for a type: its values cross the wire, and what is read from a message can
    be written again and stands for the same value. *)
Definition faithful (T : Type) `{XdrCodec T} : Prop :=
  (∀ v : T, fits v → crosses v) ∧
  (∀ (old v : T) bs rest, fits old → len bs < U32_MAX →
     deserialize old bs = inr (v, rest) → crosses v ∧ rest `suffix_of` bs).

Lemma codec_faithful T `{XdrCodec T} : faithful T.
Proof.
  split; [intros v; apply round_trip|]. intros old v bs rest Ho Hb Hr.
  edestruct read_fits as [Hv Hs]; [exact Ho|exact Hb|exact Hr|]. split; [by apply round_trip|done].
Qed.

(** * Properties *)

(** C24: the formats of all messages are read back as they were written.  For every type
    of message, RPC and credentials, arguments and results: a value whose integers are
    within their types and whose vectors are shorter than 2^32 - 1 is written in a multiple
    of four bytes and read back exactly, leaving what follows; and what is read out of a
    message can be written and read again. *)
Theorem messages_faithful :
  (faithful rpc_msg ∧ faithful auth_unix ∧ faithful mapping ∧ faithful mountstat3) ∧
  (faithful nfsstat3 ∧ faithful nfs_fh3 ∧ faithful diropargs3 ∧ faithful sattr3 ∧
   faithful fattr3 ∧ faithful wcc_data ∧ faithful fsinfo3 ∧ faithful symlinkdata3) ∧
  (faithful READ3args ∧ faithful WRITE3args ∧ faithful SETATTR3args ∧ faithful MKDIR3args ∧
   faithful SYMLINK3args ∧ faithful LINK3args ∧ faithful READDIR3args ∧
   faithful READDIRPLUS3args ∧ faithful createmode3) ∧
  (faithful READ3resok ∧ faithful WRITE3resok ∧ faithful PATHCONF3resok ∧
   faithful FSSTAT3resok ∧ faithful entry3 ∧ faithful entryplus3).
Proof. split_and!; apply codec_faithful. Qed.

(** Every reply that the server makes up fits, whatever the transaction. *)
Lemma reply_fits xid : in_u32 xid →
  fits (make_success_reply xid) ∧ fits (prog_unavail_reply_message xid) ∧
  fits (proc_unavail_reply_message xid) ∧ fits (garbage_args_reply_message xid).
Proof. intros Hx. split_and!; done. Qed.

(** Finding: a discriminant that no variant has is not refused; the value that was there
    stays.  A message of an unknown type is taken for a call. *)
Lemma unknown_message_is_a_call n rest : in_u32 n → 2 <= n →
  deserialize (T := rpc_body) default_value (be_bytes 4 n ++ rest) = inr (CALL default_value, rest).
Proof.
  intros Hn H2. cbn [deserialize rpc_body_xdr]. destruct (u32_round_trip n Hn) as (bs & Hs & _ & Hr).
  cbn [serialize u32_xdr] in Hs. injection Hs as <-.
  erewrite reader_step by apply Hr. cbn [of_u32]. cbv zeta.
  destruct (Z.eqb_spec n 0); [lia|]. destruct (Z.eqb_spec n 1); [lia|]. done.
Qed.
