(* ===== verification/NfsHandlersProps.v ===== *)
(** * NfsHandlersProps: what the procedures of NFS guarantee

    Calls change the filesystem only with the permissions they need; every reply has the
    form of its procedure.  Stated for any filesystem whose reading methods change
    nothing, under any failures. *)
From S2P Require Import Prelude Types Engine Xdr NfsTypes Permissions NfsVfs NfsHandlers.

Section HandlerProps.
Context {D C : Type} {V : Vfs.NFSFileSystem D C} {Hreads : Vfs.VfsReads V}.
Context (generation : Z) (overflow_checks : bool).
Abbreviation Handler := (M D C (IoError + bytes)).

(** ** Permissions

    [observed m w r]: on the tables of [w] the filesystem answers [m] with [r]. *)
Definition observed {A} (m : VR D C A) (w : World D C) (r : nfsstat3 + A) : Prop :=
  ∃ w1, w_db w1 = w_db w ∧ (m w1).1 = Ok r.

(** Read an argument, or two. *)
Definition parses {T} `{XDR T, Default T} (input : bytes) (args : T) (rest : bytes) : Prop :=
  deserialize (T := T) default_value input = inr (args, rest).

(** The inode that a handle leads to, with its attributes. *)
Definition leads (w : World D C) (fh : nfs_fh3) (id : Z) (attr : fattr3) : Prop :=
  fh_to_id generation fh = inr id ∧ observed (Vfs.getattr id) w (inr attr).

Definition may_add (auth : auth_unix) (dir : fattr3) : Prop :=
  Rules.allowed auth dir Write = true ∧ Rules.allowed auth dir Execute = true.

(** Taking an entry out of a directory: in a sticky one the entry counts, where the
    filesystem finds it. *)
Definition may_remove (auth : auth_unix) (w : World D C) (dirid : Z) (dir : fattr3)
    (name : filename3) (extra : fattr3 → bool) : Prop :=
  may_add auth dir ∧
  (Z.testbit (fa_mode dir) 9 = true →
   (∃ e, observed (Vfs.lookup dirid name) w (inl e)) ∨
   ∃ id, observed (Vfs.lookup dirid name) w (inr id) ∧
     ((∃ e, observed (Vfs.getattr id) w (inl e)) ∨
      ∃ entry, observed (Vfs.getattr id) w (inr entry) ∧
        Rules.may_delete auth dir entry = true ∧ extra entry = true)).

(** The rules of SETATTR. *)
Definition owns (auth : auth_unix) (attr : fattr3) : Prop :=
  au_uid auth = 0 ∨ au_uid auth = fa_uid attr.
Definition may_set (auth : auth_unix) (attr : fattr3) (s : sattr3) : Prop :=
  (is_Some (sa_size s) → Rules.allowed auth attr Write = true) ∧
  (is_Some (sa_mode s) → owns auth attr) ∧
  (∀ uid, sa_uid s = Some (U32 uid) → au_uid auth = 0 ∨ uid = fa_uid attr) ∧
  (∀ gid, sa_gid s = Some (U32 gid) →
     au_uid auth = 0 ∨ (au_uid auth = fa_uid attr ∧ gid ∈ au_gid auth :: au_gids auth)) ∧
  (sets_client_time (sa_atime s) || sets_client_time (sa_mtime s) = true → owns auth attr).

(** What a caller needs for a procedure to change anything. *)
Inductive permitted (auth : auth_unix) (w : World D C) : Z → bytes → Prop :=
| may_setattr input args rest id attr :
    parses input args rest → leads w (sta_object args) id attr →
    may_set auth attr (sta_new_attribute args) → permitted auth w 2 input
| may_write input args rest id attr :
    parses input args rest → leads w (wr_file args) id attr →
    Rules.allowed auth attr Write = true → permitted auth w 7 input
| may_create input dirops rest id dir :
    parses input dirops rest → leads w (do_dir dirops) id dir → may_add auth dir →
    permitted auth w 8 input
| may_mkdir input args rest id dir :
    parses input args rest → leads w (do_dir (mka_dirops args)) id dir → may_add auth dir →
    permitted auth w 9 input
| may_symlink input args rest id dir :
    parses input args rest → leads w (do_dir (sya_dirops args)) id dir → may_add auth dir →
    permitted auth w 10 input
| may_mknod input dirops rest id dir :
    parses input dirops rest → leads w (do_dir dirops) id dir → may_add auth dir →
    permitted auth w 11 input
| may_remove_entry proc input dirops rest id dir : proc = 12 ∨ proc = 13 →
    parses input dirops rest → leads w (do_dir dirops) id dir →
    may_remove auth w id dir (do_name dirops) (λ _, true) → permitted auth w proc input
| may_rename input from mid to rest from_id from_dir to_id to_dir :
    parses input from mid → parses mid to rest →
    leads w (do_dir from) from_id from_dir → leads w (do_dir to) to_id to_dir →
    may_remove auth w from_id from_dir (do_name from) (may_move auth from_id to_id) →
    may_remove auth w to_id to_dir (do_name to) (λ _, true) → permitted auth w 14 input
| may_link input args rest file_id file id dir :
    parses input args rest → leads w (la_file args) file_id file → fa_ftype file ≠ NF3DIR →
    leads w (do_dir (la_link args)) id dir → may_add auth dir → permitted auth w 15 input.

(** [changes_if P w0 m]: run on the tables of [w0], [m] leaves them unless [P]. *)
Definition changes_if {A} (P : Prop) (w0 : World D C) (m : M D C A) : Prop :=
  ∀ w, w_db w = w_db w0 → w_db (m w).2 = w_db w0 ∨ P.

Lemma changes_if_allowed {A} (P : Prop) w0 (m : M D C A) : P → changes_if P w0 m.
Proof. intros HP w Hw. by right. Qed.

Lemma changes_if_readonly {A} P w0 (m : M D C A) `{!ReadOnly m} : changes_if P w0 m.
Proof. intros w Hw. left. by rewrite (readonly w). Qed.

Lemma changes_if_bind {A B} P w0 (m : M D C A) (f : A → M D C B) `{!ReadOnly m} :
  (∀ r, (∃ w1, w_db w1 = w_db w0 ∧ (m w1).1 = Ok r) → changes_if P w0 (f r)) →
  changes_if P w0 (m ≫= f).
Proof.
  intros Hf w Hw. pose proof (readonly (m := m) w) as Hr. unfold mbind, M_bind.
  destruct (m w) as [[a|e|] w1] eqn:Hm; simpl in Hr; [|left; simpl; congruence..].
  apply Hf; [|congruence]. exists w. split; [done|by rewrite Hm].
Qed.

#[export] Instance output_readonly pieces : ReadOnly (output (D:=D) (C:=C) pieces).
Proof. unfold output. apply _. Qed.
#[export] Instance reply_readonly xid stat pieces : ReadOnly (reply (D:=D) (C:=C) xid stat pieces).
Proof. unfold reply. apply _. Qed.
#[export] Instance attr_now_readonly id : ReadOnly (attr_now (D:=D) (C:=C) id).
Proof. unfold attr_now. apply _. Qed.

Lemma changes_if_args {T} `{XDR T, Default T} P w0 input (k : T → bytes → Handler) :
  (∀ args rest, parses input args rest → changes_if P w0 (k args rest)) →
  changes_if P w0 (read_args input k).
Proof.
  intros Hk. unfold read_args. destruct (deserialize _ input) as [e|[args rest]] eqn:He.
  - apply changes_if_readonly, _.
  - by apply Hk.
Qed.

Lemma changes_if_id P w0 xid fh failure (k : Z → Handler) :
  (∀ id, fh_to_id generation fh = inr id → changes_if P w0 (k id)) →
  changes_if P w0 (with_id generation xid fh failure k).
Proof.
  intros Hk. unfold with_id. destruct (fh_to_id generation fh) as [stat|id].
  - apply changes_if_readonly, _.
  - by apply Hk.
Qed.

Lemma changes_if_attr P w0 xid id failure (k : fattr3 → Handler) :
  (∀ attr, observed (Vfs.getattr id) w0 (inr attr) → changes_if P w0 (k attr)) →
  changes_if P w0 (with_attr xid id failure k).
Proof.
  intros Hk. unfold with_attr. apply changes_if_bind; [apply _|]. intros [stat|attr] Ho.
  - apply changes_if_readonly, _.
  - by apply Hk.
Qed.

Lemma changes_if_needs_write P w0 xid failure (k : Handler) :
  changes_if P w0 k → changes_if P w0 (needs_write xid failure k).
Proof.
  intros Hk. unfold needs_write. destruct Vfs.capabilities; [|done].
  apply changes_if_readonly, _.
Qed.

Lemma can_modify_allowed auth dir : can_modify_directory auth dir = true → may_add auth dir.
Proof.
  unfold can_modify_directory, can_write, can_execute. rewrite !check_permission_allowed.
  by intros [? ?]%andb_prop.
Qed.

Lemma changes_if_directory P w0 auth xid fh (k : Z → fattr3 → Handler) :
  (∀ id dir, leads w0 fh id dir → may_add auth dir → P) →
  changes_if P w0 (in_directory generation auth xid fh k).
Proof.
  intros Hk. unfold in_directory. apply changes_if_id. intros id Hid.
  apply changes_if_attr. intros dir Hdir.
  destruct (can_modify_directory auth dir) eqn:Hm; cbn [negb].
  - apply changes_if_allowed, (Hk id dir); [by split|by apply can_modify_allowed].
  - apply changes_if_readonly, _.
Qed.

(** The checks of the handlers are the rules. *)
Lemma is_owner_owns auth attr : is_owner auth attr = true ↔ owns auth attr.
Proof. unfold is_owner, owns. by rewrite orb_true_iff, !Z.eqb_eq. Qed.

Lemma setattr_check_rules auth attr s : setattr_check auth attr s = None → may_set auth attr s.
Proof.
  unfold setattr_check. cbv zeta. intros Hs.
  destruct (bool_decide (is_Some (sa_size s)) && _) eqn:H1; [done|].
  destruct (bool_decide (is_Some (sa_mode s)) && _) eqn:H2; [done|].
  destruct (from_option _ false (sa_uid s)) eqn:H3; [done|].
  destruct (from_option _ false (sa_gid s)) eqn:H4; [done|].
  match type of Hs with (if ?b then _ else _) = _ => destruct b eqn:H5 end; [done|].
  match type of Hs with (if ?b then _ else _) = _ => destruct b eqn:H6 end; [done|].
  clear Hs. unfold may_set. split_and!.
  - intros Hz. rewrite bool_decide_true in H1 by done. apply negb_false_iff in H1.
    by rewrite <-check_permission_allowed.
  - intros Hz. rewrite bool_decide_true in H2 by done. by apply is_owner_owns, negb_false_iff.
  - intros uid Hu. rewrite Hu in H3. cbn in H3. apply andb_false_iff in H3.
    destruct H3 as [H3%negb_false_iff%Z.eqb_eq|H3%negb_false_iff%Z.eqb_eq]; auto.
  - intros gid Hg. rewrite Hg in H4, H5. cbn in H4, H5.
    destruct (Z.eqb_spec (au_uid auth) 0) as [|Hne]; [by left|]. cbn [negb andb] in *.
    apply negb_false_iff, is_owner_owns in H4. right. split; [by destruct H4|].
    apply negb_false_iff, orb_true_iff in H5. unfold gids_contain in H5.
    rewrite Z.eqb_eq, bool_decide_eq_true in H5. destruct H5 as [->|]; [by left|by right].
  - intros Ht. rewrite Ht in H6. cbn [andb] in H6. by apply is_owner_owns, negb_false_iff.
Qed.

#[export] Instance may_take_readonly auth dirid dir name extra :
  ReadOnly (may_take (D:=D) (C:=C) auth dirid dir name extra).
Proof.
  unfold may_take. case_match; [|apply _]. apply bind_readonly; [apply _|]. intros [|id]; [apply _|].
  apply bind_readonly; [apply _|]. intros [|]; apply _.
Qed.

(** One more observation on the same tables. *)
Lemma observe {A B} (m : VR D C A) (f : nfsstat3 + A → M D C B) `{!ReadOnly m} w0 w b w' :
  w_db w = w_db w0 → (m ≫= f) w = (Ok b, w') →
  ∃ r w1, observed m w0 r ∧ w_db w1 = w_db w0 ∧ f r w1 = (Ok b, w').
Proof.
  intros Hw (r & w1 & Hm & Hf)%bind_ok. exists r, w1.
  pose proof (readonly (m := m) w) as Hr. rewrite Hm in Hr. simpl in Hr.
  split_and!; [|congruence|done]. exists w. by rewrite Hm.
Qed.

Lemma may_take_rules auth (w0 w : World D C) dirid dir name extra :
  w_db w = w_db w0 → (may_take auth dirid dir name extra w).1 = Ok true →
  may_remove auth w0 dirid dir name extra.
Proof.
  intros Hw Ht. destruct (may_take _ _ _ _ _ w) as [r w'] eqn:Hm. simpl in Ht. subst r.
  unfold may_take in Hm. change S_ISVTX with (2 ^ 9) in Hm. rewrite has_bit_pow2 in Hm by done.
  destruct (Z.testbit (fa_mode dir) 9) eqn:Hs.
  - destruct (observe _ _ _ _ _ _ Hw Hm) as (r & w1 & Hr & Hw1 & Hm1).
    destruct r as [e|id].
    + injection Hm1 as Hm1 _. split; [by apply can_modify_allowed|]. intros _. left. by exists e.
    + destruct (observe _ _ _ _ _ _ Hw1 Hm1) as (r & w2 & Hr2 & Hw2 & Hm2).
      destruct r as [e|entry]; injection Hm2 as Hm2 _.
      * split; [by apply can_modify_allowed|]. intros _. right. exists id. split; [done|].
        left. by exists e.
      * apply andb_prop in Hm2 as [Hd Hx]. rewrite can_delete_entry_rules in Hd.
        split; [|intros _; right; exists id; split; [done|]; right; by exists entry].
        unfold Rules.may_delete in Hd. by apply andb_prop in Hd as [[? ?]%andb_prop _].
  - injection Hm as Hm _. split; [by apply can_modify_allowed|]. by rewrite Hs.
Qed.

Lemma changes_if_take P (w0 : World D C) auth dirid dir name extra (k : bool → Handler) :
  (may_remove auth w0 dirid dir name extra → changes_if P w0 (k true)) →
  changes_if P w0 (k false) →
  changes_if P w0 (may_take auth dirid dir name extra ≫= k).
Proof.
  intros Ht Hf. apply changes_if_bind; [apply _|]. intros [|] (w1 & Hw & Hr); [|done].
  by apply Ht, (may_take_rules auth w0 w1).
Qed.

#[export] Instance usize_sub_readonly a b :
  ReadOnly (or_panic (D:=D) (C:=C) (usize_sub overflow_checks a b)).
Proof. apply _. Qed.
#[export] Instance listing_readonly xid dir loop e : ReadOnly (listing (D:=D) (C:=C) xid dir loop e).
Proof.
  unfold listing. apply bind_readonly; [apply _|]. intros head.
  apply bind_readonly; [apply _|]. intros [out all]. apply _.
Qed.
#[export] Instance rename_reply_readonly xid stat a b c d :
  ReadOnly (rename_reply (D:=D) (C:=C) xid stat a b c d).
Proof. unfold rename_reply. apply _. Qed.

(** The procedures that only look. *)
Ltac looks :=
  repeat match goal with
  | |- changes_if _ _ (read_args _ _) => apply changes_if_args; intros ?args ?rest ?Hparse
  | |- changes_if _ _ (with_id _ _ _ _ _) => apply changes_if_id; intros ?id ?Hid
  | |- changes_if _ _ (with_attr _ _ _ _) => apply changes_if_attr; intros ?attr ?Hattr
  | |- changes_if _ _ (if ?b then _ else _) => destruct b eqn:?
  | |- changes_if _ _ (match ?x with _ => _ end) => destruct x eqn:?
  | |- changes_if _ _ (reply _ _ _) => apply changes_if_readonly, _
  | |- changes_if _ _ (output _) => apply changes_if_readonly, _
  | |- changes_if _ _ (listing _ _ _ _) => apply changes_if_readonly, _
  | |- changes_if _ _ (_ ≫= _) => apply changes_if_bind; [apply _|]; intros ?r ?Hr
  end.

Lemma looking_only P w0 auth xid input :
  changes_if P w0 (nfsproc3_null (D:=D) (C:=C) xid input) ∧
  changes_if P w0 (nfsproc3_getattr generation xid input) ∧
  changes_if P w0 (nfsproc3_lookup generation auth xid input) ∧
  changes_if P w0 (nfsproc3_access generation auth xid input) ∧
  changes_if P w0 (nfsproc3_readlink generation xid input) ∧
  changes_if P w0 (nfsproc3_read generation auth xid input) ∧
  changes_if P w0 (nfsproc3_readdir generation overflow_checks auth xid input) ∧
  changes_if P w0 (nfsproc3_readdirplus generation overflow_checks auth xid input) ∧
  changes_if P w0 (nfsproc3_fsstat generation xid input) ∧
  changes_if P w0 (nfsproc3_fsinfo generation xid input) ∧
  changes_if P w0 (nfsproc3_pathconf generation xid input).
Proof.
  assert (∀ id, ReadOnly (fsinfo (D:=D) (C:=C) id)) by (intros; unfold fsinfo, vok; apply _).
  assert (∀ id n, ReadOnly (readdir_simple (D:=D) (C:=C) id n))
    by (intros; unfold readdir_simple, vok; apply _).
  split_and!; unfold nfsproc3_null, nfsproc3_getattr, nfsproc3_lookup, nfsproc3_access,
    nfsproc3_readlink, nfsproc3_read, nfsproc3_readdir, nfsproc3_readdirplus,
    nfsproc3_fsstat, nfsproc3_fsinfo, nfsproc3_pathconf; looks.
Qed.

(** Procedures that add an entry. *)
Ltac adds k :=
  apply changes_if_directory; intros ?id ?dir ?Hleads ?Hadd; eapply k; eassumption.

Lemma setattr_permitted (w0 : World D C) auth xid input :
  changes_if (permitted auth w0 2 input) w0 (nfsproc3_setattr generation auth xid input).
Proof.
  apply changes_if_needs_write, changes_if_args. intros args rest Hp.
  apply changes_if_id. intros id Hid. apply changes_if_attr. intros attr Hattr.
  destruct (setattr_check _ _ _) eqn:Hc; [apply changes_if_readonly; unfold refused; apply _|].
  apply changes_if_allowed. eapply may_setattr; [done|by split|by apply setattr_check_rules].
Qed.

Lemma write_permitted (w0 : World D C) auth xid input :
  changes_if (permitted auth w0 7 input) w0 (nfsproc3_write generation auth xid input).
Proof.
  apply changes_if_needs_write, changes_if_args. intros args rest Hp.
  destruct (negb _); [apply changes_if_readonly, _|].
  apply changes_if_id. intros id Hid. apply changes_if_attr. intros attr Hattr.
  destruct (can_write auth attr) eqn:Hw; cbn [negb]; [|apply changes_if_readonly, _].
  apply changes_if_allowed. eapply may_write; [done|by split|].
  by rewrite <-check_permission_allowed.
Qed.

Lemma create_permitted (w0 : World D C) auth xid input :
  changes_if (permitted auth w0 8 input) w0 (nfsproc3_create generation auth xid input).
Proof.
  apply changes_if_needs_write, changes_if_args. intros dirops rest Hp.
  apply changes_if_args. intros how rest' _. adds may_create.
Qed.

Lemma mkdir_permitted (w0 : World D C) auth xid input :
  changes_if (permitted auth w0 9 input) w0 (nfsproc3_mkdir generation auth xid input).
Proof. apply changes_if_needs_write, changes_if_args. intros args rest Hp. adds may_mkdir. Qed.

Lemma symlink_permitted (w0 : World D C) auth xid input :
  changes_if (permitted auth w0 10 input) w0 (nfsproc3_symlink generation auth xid input).
Proof. apply changes_if_needs_write, changes_if_args. intros args rest Hp. adds may_symlink. Qed.

Lemma mknod_permitted (w0 : World D C) auth xid input :
  changes_if (permitted auth w0 11 input) w0 (nfsproc3_mknod generation auth xid input).
Proof.
  apply changes_if_needs_write, changes_if_args. intros dirops rest Hp.
  apply changes_if_args. intros ftype rest' _.
  cbv zeta. case_match; try apply changes_if_readonly, _;
    apply changes_if_args; intros attr rest2 _; [| |adds may_mknod..];
    apply changes_if_args; intros rdev rest3 _; adds may_mknod.
Qed.

Lemma remove_permitted (w0 : World D C) auth proc xid input : proc = 12 ∨ proc = 13 →
  changes_if (permitted auth w0 proc input) w0 (nfsproc3_remove generation auth xid input).
Proof.
  intros Hproc. apply changes_if_needs_write, changes_if_args. intros dirops rest Hp.
  apply changes_if_id. intros id Hid. apply changes_if_attr. intros dir Hdir.
  apply changes_if_take; [|apply changes_if_readonly; apply _].
  intros Hr. apply changes_if_allowed. eapply may_remove_entry; [done|done|by split|done].
Qed.

Lemma rename_permitted (w0 : World D C) auth xid input :
  changes_if (permitted auth w0 14 input) w0 (nfsproc3_rename generation auth xid input).
Proof.
  apply changes_if_needs_write, changes_if_args. intros from mid Hp.
  apply changes_if_args. intros to rest Hp'.
  apply changes_if_id. intros from_id Hid. apply changes_if_id. intros to_id Hid'.
  apply changes_if_attr. intros from_dir Hdir. apply changes_if_attr. intros to_dir Hdir'.
  apply changes_if_take; [intros Hf|apply changes_if_readonly; apply _].
  apply changes_if_take; [intros Ht|apply changes_if_readonly; apply _].
  apply changes_if_allowed. eapply may_rename; [done|done|by split|by split|done|done].
Qed.

Lemma link_permitted (w0 : World D C) auth xid input :
  changes_if (permitted auth w0 15 input) w0 (nfsproc3_link generation auth xid input).
Proof.
  apply changes_if_needs_write, changes_if_args. intros args rest Hp.
  apply changes_if_id. intros file_id Hid. apply changes_if_attr. intros file Hfile.
  case_bool_decide as Hty; [apply changes_if_readonly, _|].
  apply changes_if_id. intros id Hid'. apply changes_if_attr. intros dir Hdir.
  destruct (can_modify_directory auth dir) eqn:Hm; cbn [negb];
    [|apply changes_if_readonly, _].
  apply changes_if_allowed.
  eapply may_link; [done|by split|done|by split|by apply can_modify_allowed].
Qed.

(** A call of NFS, on every procedure. *)
Lemma handle_nfs_changes (w : World D C) auth xid call input :
  w_db (handle_nfs generation overflow_checks auth xid call input w).2 = w_db w ∨
  permitted auth w (cb_proc call) input.
Proof.
  enough (changes_if (permitted auth w (cb_proc call) input) w
            (handle_nfs generation overflow_checks auth xid call input)) as H by by apply H.
  unfold handle_nfs. destruct (negb _); [apply changes_if_readonly, _|].
  destruct (looking_only (permitted auth w 0 input) w auth xid input) as (L0 & _).
  pose proof (λ p, looking_only (permitted auth w p input) w auth xid input) as L.
  apply (dispatch (λ p m, changes_if (permitted auth w p input) w m)).
  - exact L0.
  - apply (L 1).
  - apply setattr_permitted.
  - apply (L 3).
  - apply (L 4).
  - apply (L 5).
  - apply (L 6).
  - apply write_permitted.
  - apply create_permitted.
  - apply mkdir_permitted.
  - apply symlink_permitted.
  - apply mknod_permitted.
  - apply remove_permitted. by left.
  - apply remove_permitted. by right.
  - apply rename_permitted.
  - apply link_permitted.
  - apply (L 16).
  - apply (L 17).
  - apply (L 18).
  - apply (L 19).
  - apply (L 20).
  - intros p _. apply changes_if_readonly, _.
Qed.
(** ** What the procedures do not look at *)

(** READDIR does not look at the cookie: whatever the client has seen, it gets the listing
    from its start. *)
Lemma readdir_ignores_cookie auth xid dir c c' verf n input input' :
  parses input (mk_READDIR3args dir c verf n) [] →
  parses input' (mk_READDIR3args dir c' verf n) [] →
  nfsproc3_readdir generation overflow_checks auth xid input =
  nfsproc3_readdir (V := V) generation overflow_checks auth xid input'.
Proof. unfold parses, nfsproc3_readdir, read_args. by intros -> ->. Qed.

(** Setting the owner of a file to whom it has passes every check for any caller, and takes
    the set-id bits of the file away. *)
Lemma anyone_strips_set_id auth attr : au_uid auth ≠ 0 → has_bit (fa_mode attr) 0xc00 = true →
  let s := mk_sattr3 None (Some (U32 (fa_uid attr))) None None DONT_CHANGE DONT_CHANGE in
  setattr_check auth attr s = None ∧
  sa_mode (adjust_mode auth attr s) = Some (U32 (Z.ldiff (fa_mode attr) 0xc00)).
Proof.
  intros Hu Hb s. apply Z.eqb_neq in Hu. split.
  - unfold setattr_check, s. cbn. by rewrite Z.eqb_refl, andb_false_r.
  - unfold adjust_mode, s. cbn. by rewrite Hu, Hb.
Qed.

(** Nor is ownership asked for where a client sets the times to those of the server. *)
Lemma anyone_touches auth attr :
  setattr_check auth attr
    (mk_sattr3 None None None None SET_TO_SERVER_TIME SET_TO_SERVER_TIME) = None.
Proof. done. Qed.
End HandlerProps.
