(* ===== verification/NfsReplies.v ===== *)
(** * NfsReplies: the form of the replies of NFS

    The comments of [nfs_handlers.rs] give the result type of every procedure, from
    RFC 1813.  Here are those types as lists of what is written, [documented], and the
    theorem that every reply is of its type, or one of a few others, [undocumented]. *)
From S2P Require Import Prelude Types Engine Xdr NfsTypes Permissions NfsVfs NfsHandlers.

(** ** What is written *)

(** A type with its serializer, and bytes that are values of a list of types. *)
Record wire := Wire { wire_ty : Type; wire_put : wire_ty → option bytes }.
Definition wire_of (T : Type) `{XDR T} : wire := Wire T serialize.

Inductive written : list wire → bytes → Prop :=
| written_nil : written [] []
| written_cons T put (v : T) a l bs :
    put v = Some a → written l bs → written (Wire T put :: l) (a ++ bs).

(** A linked list of entries, and whether it ends the directory. *)
Definition put_entries {E} `{XDR E} (l : list E) : option bytes :=
  wconcat ((λ e, wapp (serialize true) (serialize e)) <$> l).
Definition put_dirlist {E} `{XDR E} (l : list E * bool) : option bytes :=
  bs ← put_entries l.1; wconcat [Some bs; serialize false; serialize l.2].

(** ** The result types *)

Definition ok (s : nfsstat3) : bool := bool_decide (s = NFS3_OK).

Definition documented (proc : Z) (stat : nfsstat3) : list wire :=
  let attr := wire_of post_op_attr in
  let wcc := wire_of wcc_data in
  let entry_made := [wire_of post_op_fh3; attr; wcc] in
  match proc with
  | 1 => if ok stat then [wire_of fattr3] else []
  | 2 => [wcc]
  | 3 => if ok stat then [wire_of nfs_fh3; attr; attr] else [attr]
  | 4 => if ok stat then [attr; wire_of u32] else [attr]
  | 5 => if ok stat then [attr; wire_of nfspath3] else [attr]
  | 6 => if ok stat then [wire_of READ3resok] else [attr]
  | 7 => if ok stat then [wire_of WRITE3resok] else [wcc]
  | 8 | 9 | 10 | 11 => if ok stat then entry_made else [wcc]
  | 12 | 13 => [wcc]
  | 14 => [wcc; wcc]
  | 15 => [attr; wcc]
  | 16 => if ok stat then [attr; wire_of (array 8); Wire (list entry3 * bool) put_dirlist] else [attr]
  | 17 =>
      if ok stat then [attr; wire_of (array 8); Wire (list entryplus3 * bool) put_dirlist]
      else [attr]
  | 18 => if ok stat then [wire_of FSSTAT3resok] else [attr]
  | 19 => if ok stat then [wire_of fsinfo3] else [attr]
  | 20 => if ok stat then [wire_of PATHCONF3resok] else [attr]
  | _ => []
  end.

(** What else is sent: nothing after the status where SETATTR and READLINK are given a
    handle that leads nowhere; one [wcc_data] instead of two where RENAME fails early. *)
Definition undocumented (proc : Z) (stat : nfsstat3) (body : bytes) : Prop :=
  match proc with
  | 2 | 5 => body = [] ∧ (stat = NFS3ERR_STALE ∨ stat = NFS3ERR_BADHANDLE)
  | 14 => stat ≠ NFS3_OK ∧ serialize (default_value : wcc_data) = Some body
  | _ => False
  end.

Section Replies.
Context {D C : Type} {V : Vfs.NFSFileSystem D C} {Hfails : Vfs.VfsErrors V}.
Context (generation : Z) (overflow_checks : bool).
Abbreviation Handler := (M D C (IoError + bytes)).

Definition header (xid : Z) : option bytes := serialize (make_success_reply xid).

(** A successful RPC that answers [xid] with a status and a body. *)
Definition status_and_body (xid proc : Z) (bs : bytes) : Prop :=
  ∃ h s stat body, header xid = Some h ∧ serialize stat = Some s ∧ bs = h ++ s ++ body ∧
    (written (documented proc stat) body ∨ undocumented proc stat body).

(** The replies of a procedure; WRITE also answers that its arguments are garbage, and
    SETATTR writes two replies when the guard does not match. *)
Definition answers_call (xid proc : Z) (bs : bytes) : Prop :=
  (proc = 0 ∧ header xid = Some bs) ∨ status_and_body xid proc bs ∨
  (proc = 7 ∧ serialize (garbage_args_reply_message xid) = Some bs) ∨
  (proc = 2 ∧ ∃ h s w reply, header xid = Some h ∧ serialize NFS3ERR_NOT_SYNC = Some s ∧
     serialize (default_value : wcc_data) = Some w ∧ bs = h ++ s ++ w ++ reply ∧
     status_and_body xid proc reply).

Definition replies (Q : bytes → Prop) (m : Handler) : Prop :=
  ∀ w bs, (m w).1 = Ok (inr bs) → Q bs.

(** ** Lemmas *)

Lemma replies_bind {A} Q (m : M D C A) (f : A → Handler) :
  (∀ a, (∃ w, (m w).1 = Ok a) → replies Q (f a)) → replies Q (m ≫= f).
Proof.
  intros Hf w bs Hr. unfold mbind, M_bind in Hr.
  destruct (m w) as [[a|e|] w'] eqn:Hm; [|done..].
  eapply Hf; [exists w; by rewrite Hm|done].
Qed.

Lemma wapp_some a b c : wapp a b = Some c → ∃ x y, a = Some x ∧ b = Some y ∧ c = x ++ y.
Proof. destruct a, b; naive_solver. Qed.

Lemma output_replies (Q : bytes → Prop) pieces :
  (∀ bs, wconcat pieces = Some bs → Q bs) → replies Q (output pieces).
Proof.
  intros HQ w bs. unfold output, or_panic. destruct (wconcat pieces) as [b|] eqn:Hb; [|done].
  intros [= <-]. by apply HQ.
Qed.

(** Pieces that are values of a list of types. *)
Inductive pieces_of : list wire → list (option bytes) → Prop :=
| pieces_nil : pieces_of [] []
| pieces_cons T put (v : T) l ps : pieces_of l ps → pieces_of (Wire T put :: l) (put v :: ps).

Lemma pieces_written l ps bs : pieces_of l ps → wconcat ps = Some bs → written l bs.
Proof.
  intros Hp. revert bs. induction Hp as [|T put v l ps _ IH]; intros bs.
  { intros [= <-]. constructor. }
  cbn [wconcat foldr]. intros (x & y & Hx & Hy & ->)%wapp_some. by apply (written_cons T put v); [|apply IH].
Qed.

Lemma pieces_status xid proc stat pieces bs :
  pieces_of (documented proc stat) pieces ∨
    (∀ body, wconcat pieces = Some body → undocumented proc stat body) →
  wconcat (serialize (make_success_reply xid) :: serialize stat :: pieces) = Some bs →
  status_and_body xid proc bs.
Proof.
  intros Hp.
  cbn [wconcat foldr]. intros (h & r & Hh & (s & body & Hs & Hb & ->)%wapp_some & ->)%wapp_some.
  exists h, s, stat, body. split_and!; [done..|]. destruct Hp as [Hp|Hp]; [left|right; by apply Hp].
  by eapply pieces_written.
Qed.

Lemma reply_answers xid proc stat pieces :
  pieces_of (documented proc stat) pieces ∨
    (∀ body, wconcat pieces = Some body → undocumented proc stat body) →
  replies (answers_call xid proc) (reply xid stat pieces).
Proof.
  intros Hp. apply output_replies. intros bs Hb. right. left. by eapply pieces_status.
Qed.

Lemma args_replies {T} `{XDR T, Default T} Q input (k : T → bytes → Handler) :
  (∀ args rest, replies Q (k args rest)) → replies Q (read_args input k).
Proof. intros Hk. unfold read_args. by destruct (deserialize _ input) as [|[]]. Qed.

Lemma fh_status fh stat : fh_to_id generation fh = inl stat →
  stat = NFS3ERR_STALE ∨ stat = NFS3ERR_BADHANDLE.
Proof.
  unfold fh_to_id. destruct (negb _); [intros [= <-]; by right|].
  destruct (_ ?= _); intros [= <-]; auto.
Qed.

Lemma id_replies Q xid fh failure (k : Z → Handler) :
  (∀ stat, stat = NFS3ERR_STALE ∨ stat = NFS3ERR_BADHANDLE → replies Q (reply xid stat failure)) →
  (∀ id, replies Q (k id)) → replies Q (with_id generation xid fh failure k).
Proof.
  intros Hf Hk. unfold with_id. destruct (fh_to_id generation fh) eqn:Hfh; [|apply Hk].
  by eapply Hf, fh_status.
Qed.

Lemma attr_replies Q xid id failure (k : fattr3 → Handler) :
  (∀ stat, stat ≠ NFS3_OK → replies Q (reply xid stat failure)) →
  (∀ attr, replies Q (k attr)) → replies Q (with_attr xid id failure k).
Proof.
  intros Hf Hk. unfold with_attr. apply replies_bind. intros [stat|attr] [w Hw]; [|apply Hk].
  apply Hf. intros ->. by apply (Vfs.fails_properly (m := Vfs.getattr id) w).
Qed.

Lemma needs_write_replies Q xid failure (k : Handler) :
  replies Q (reply xid NFS3ERR_ROFS failure) → replies Q k → replies Q (needs_write xid failure k).
Proof. intros Hf Hk. unfold needs_write. by destruct Vfs.capabilities. Qed.

Lemma not_ok stat : stat ≠ NFS3_OK → ok stat = false.
Proof. intros H. by apply bool_decide_eq_false. Qed.

(** The pieces of a reply, against the documented types. *)
Ltac pieces :=
  unfold documented, void_attr, no_wcc, wire_of;
  repeat match goal with
  | H : ?s ≠ NFS3_OK |- context [ok ?s] => rewrite (not_ok s H)
  | |- context [ok NFS3_OK] => change (ok NFS3_OK) with true
  | |- context [ok ?s] => change (ok s) with false
  end; cbv iota zeta;
  repeat first [apply pieces_nil | apply (pieces_cons _ serialize)].

(** One step through a handler. *)
Ltac answer :=
  match goal with
  | |- replies _ (read_args _ _) => apply args_replies; intros ?args ?rest
  | |- replies _ (with_id _ _ _ _ _) => apply id_replies; [intros ?stat ?Hstat|intros ?id]
  | |- replies _ (with_attr _ _ _ _) => apply attr_replies; [intros ?stat ?Hstat|intros ?attr]
  | |- replies _ (needs_write _ _ _) => apply needs_write_replies
  | |- replies _ (refused _ _ _) => unfold refused
  | |- replies (answers_call _ _) (reply _ _ _) => apply reply_answers
  | |- replies _ (if ?b then _ else _) => destruct b eqn:?
  | |- replies _ (match ?x with _ => _ end) => destruct x eqn:?
  | |- replies _ (_ ≫= _) => apply replies_bind; intros ?r ?Hr
  end.

(** A status that the filesystem returned is not that of success. *)
Ltac failed :=
  repeat match goal with
  | H : ∃ w, (?m w).1 = Ok ?r |- _ =>
      match r with
      | inl ?e => 
          assert (e ≠ NFS3_OK) by
            (intros ->; destruct H as [? H]; by apply (Vfs.fails_properly (m := m)) in H); clear H
      | _ => fail
      end
  | H : _ = NFS3ERR_STALE ∨ _ = NFS3ERR_BADHANDLE |- _ => destruct H as [->| ->]
  end.
Ltac answers := repeat answer; subst; failed; try solve [left; pieces].

Lemma getattr_answers xid input :
  replies (answers_call xid 1) (nfsproc3_getattr (D:=D) (C:=C) generation xid input).
Proof. unfold nfsproc3_getattr. answers. Qed.
Lemma lookup_answers auth xid input :
  replies (answers_call xid 3) (nfsproc3_lookup (D:=D) (C:=C) generation auth xid input).
Proof. unfold nfsproc3_lookup. answers. Qed.
Lemma read_answers auth xid input :
  replies (answers_call xid 6) (nfsproc3_read (D:=D) (C:=C) generation auth xid input).
Proof. unfold nfsproc3_read. answers. Qed.
Lemma access_answers auth xid input :
  replies (answers_call xid 4) (nfsproc3_access (D:=D) (C:=C) generation auth xid input).
Proof. unfold nfsproc3_access. answers. Qed.
Lemma pathconf_answers xid input :
  replies (answers_call xid 20) (nfsproc3_pathconf (D:=D) (C:=C) generation xid input).
Proof. unfold nfsproc3_pathconf. answers. Qed.
Lemma fsstat_answers xid input :
  replies (answers_call xid 18) (nfsproc3_fsstat (D:=D) (C:=C) generation xid input).
Proof. unfold nfsproc3_fsstat. answers. Qed.
Lemma readlink_answers xid input :
  replies (answers_call xid 5) (nfsproc3_readlink (D:=D) (C:=C) generation xid input).
Proof.
  unfold nfsproc3_readlink. answers; right; intros body [= <-]; split; auto.
Qed.
Lemma link_answers auth xid input :
  replies (answers_call xid 15) (nfsproc3_link (D:=D) (C:=C) generation auth xid input).
Proof. unfold nfsproc3_link. answers. Qed.
Lemma directory_answers xid auth proc fh (k : Z → fattr3 → Handler) :
  documented proc NFS3ERR_STALE = [wire_of wcc_data] →
  (∀ stat, stat ≠ NFS3_OK → documented proc stat = [wire_of wcc_data]) →
  (∀ id dir, replies (answers_call xid proc) (k id dir)) →
  replies (answers_call xid proc) (in_directory generation auth xid fh k).
Proof.
  intros Hs Hdoc Hk. unfold in_directory. answers; try apply Hk; left; rewrite Hdoc by done; pieces.
Qed.

Lemma fsinfo_never_fails id w stat : (fsinfo (D:=D) (C:=C) id w).1 ≠ Ok (inl stat).
Proof. unfold fsinfo, mbind, M_bind. destruct (Vfs.getattr id w) as [[]]; simpl; done. Qed.
Lemma fsinfo_answers xid input :
  replies (answers_call xid 19) (nfsproc3_fsinfo (D:=D) (C:=C) generation xid input).
Proof.
  unfold nfsproc3_fsinfo. answers. match goal with H : ∃ w, _ |- _ => destruct H as [w Hw] end.
  by apply fsinfo_never_fails in Hw.
Qed.

(** The procedures that make an entry. *)
Definition makes (proc : Z) : Prop := proc = 8 ∨ proc = 9 ∨ proc = 10 ∨ proc = 11.

Lemma creation_answers xid proc dirid dir_attr r : makes proc →
  (∀ e, r = inl e → e ≠ NFS3_OK) →
  replies (answers_call xid proc) (creation_reply generation xid dirid dir_attr r).
Proof.
  intros Hp He. unfold creation_reply. apply replies_bind. intros attrs _. cbv zeta.
  destruct r as [e|[fid attr]].
  - pose proof (He e eq_refl). destruct Hp as [->|[->|[->| ->]]]; answers.
  - destruct Hp as [->|[->|[->| ->]]]; answers.
Qed.

Lemma in_directory_answers xid auth proc fh (k : Z → fattr3 → Handler) : makes proc →
  (∀ id dir, replies (answers_call xid proc) (k id dir)) →
  replies (answers_call xid proc) (in_directory generation auth xid fh k).
Proof.
  intros [->|[->|[->| ->]]]; apply directory_answers; try done;
    intros stat Hs; unfold documented; by rewrite (not_ok _ Hs).
Qed.

(** Making an entry by a method of the filesystem. *)
Lemma made_answers xid proc dirid dir_attr (m : VR D C (Z * fattr3)) : makes proc →
  Vfs.FailsProperly m →
  replies (answers_call xid proc)
    (r ← m; creation_reply generation xid dirid dir_attr (with_attributes r)).
Proof.
  intros Hp Hm. apply replies_bind. intros r [w Hw]. apply creation_answers; [done|].
  intros e He. destruct r as [e'|[]]; simplify_eq/=. intros ->. by apply Hm in Hw.
Qed.

Lemma create_answers auth xid input :
  replies (answers_call xid 8) (nfsproc3_create (D:=D) (C:=C) generation auth xid input).
Proof.
  assert (makes 8) as Hm by by left. unfold nfsproc3_create. answer; [answers|].
  apply args_replies; intros dirops rest. apply args_replies; intros how rest'.
  apply in_directory_answers; [done|]. intros id dir. cbv zeta. destruct how.
  - apply args_replies. intros attrs _. apply made_answers; [done|apply _].
  - apply args_replies. intros attrs _. apply replies_bind. intros [e|fid] _.
    + apply made_answers; [done|apply _].
    + answers.
  - apply replies_bind. intros r [w Hw]. apply creation_answers; [done|].
    intros e He. destruct r as [e'|]; simplify_eq/=. intros ->.
    by apply (Vfs.fails_properly (m := Vfs.create_exclusive _ _ _)) in Hw.
Qed.
Lemma mkdir_answers auth xid input :
  replies (answers_call xid 9) (nfsproc3_mkdir (D:=D) (C:=C) generation auth xid input).
Proof.
  assert (makes 9) as Hm by (right; by left). unfold nfsproc3_mkdir. answer; [answers|].
  apply args_replies; intros args rest. apply in_directory_answers; [done|]. intros id dir.
  apply made_answers; [done|apply _].
Qed.
Lemma symlink_answers auth xid input :
  replies (answers_call xid 10) (nfsproc3_symlink (D:=D) (C:=C) generation auth xid input).
Proof.
  assert (makes 10) as Hm by (right; right; by left). unfold nfsproc3_symlink. answer; [answers|].
  apply args_replies; intros args rest. apply in_directory_answers; [done|]. intros id dir.
  apply made_answers; [done|apply _].
Qed.
Lemma mknod_answers auth xid input :
  replies (answers_call xid 11) (nfsproc3_mknod (D:=D) (C:=C) generation auth xid input).
Proof.
  assert (makes 11) as Hm by (right; right; by right). unfold nfsproc3_mknod. answer; [answers|].
  do 2 (apply args_replies; intros ? ?). cbv zeta.
  destruct (default _ _); answers; apply in_directory_answers; try done; intros id dir;
    (apply made_answers; [done|apply _]).
Qed.
Lemma remove_answers auth proc xid input : proc = 12 ∨ proc = 13 →
  replies (answers_call xid proc) (nfsproc3_remove (D:=D) (C:=C) generation auth xid input).
Proof. intros [-> | ->]; unfold nfsproc3_remove; answers. Qed.
Lemma rename_reply_answers xid stat a b c d :
  replies (answers_call xid 14) (rename_reply (D:=D) (C:=C) xid stat a b c d).
Proof. unfold rename_reply. answers. Qed.
Lemma rename_answers auth xid input :
  replies (answers_call xid 14) (nfsproc3_rename (D:=D) (C:=C) generation auth xid input).
Proof.
  unfold nfsproc3_rename. answers; try apply rename_reply_answers;
    right; intros body Hb; split; try done; cbn in Hb.
Qed.

Lemma write_answers auth xid input :
  replies (answers_call xid 7) (nfsproc3_write (D:=D) (C:=C) generation auth xid input).
Proof.
  unfold nfsproc3_write. answers. apply output_replies. intros bs Hb. right. right. left.
  split; [done|]. cbn [wconcat foldr] in Hb. apply wapp_some in Hb as (x & y & Hx & [= <-] & ->).
  by rewrite app_nil_r.
Qed.

(** A reply of SETATTR, after what the guard wrote. *)
Lemma guarded_answers xid attr guard stat pieces :
  pieces_of (documented 2 stat) pieces →
  replies (answers_call xid 2)
    (output (D:=D) (C:=C)
       (guard_reply xid attr guard ++
        serialize (make_success_reply xid) :: serialize stat :: pieces)).
Proof.
  intros Hp. apply output_replies. intros bs Hb. unfold guard_reply in Hb.
  assert (∀ bs, wconcat (serialize (make_success_reply xid) :: serialize stat :: pieces) = Some bs →
                status_and_body xid 2 bs) as Hs.
  { intros b. apply pieces_status. by left. }
  destruct guard as [c|]; [|right; left; by apply Hs].
  destruct (_ || _); [|right; left; by apply Hs]. right. right. right. split; [done|].
  cbn [app wconcat foldr] in Hb.
  apply wapp_some in Hb as (h & r1 & Hh & Hb & ->).
  apply wapp_some in Hb as (s & r2 & Hst & Hb & ->).
  apply wapp_some in Hb as (wc & rest & Hw & Hb & ->).
  exists h, s, wc, rest. split_and!; [done..|]. by apply Hs.
Qed.

Lemma setattr_answers auth xid input :
  replies (answers_call xid 2) (nfsproc3_setattr (D:=D) (C:=C) generation auth xid input).
Proof.
  unfold nfsproc3_setattr. answers; try (apply guarded_answers; pieces);
    right; intros body [= <-]; split; auto.
Qed.

(** The entries that were written are a prefix, all of them if the loop says so. *)
Definition entry_plus (e : NfsDirEntry) : entryplus3 :=
  mk_entryplus3 (nde_fileid e) (nde_name e) (nde_fileid e) (Some (nde_attr e))
    (Some (id_to_fh generation (nde_fileid e))).
Definition entry_simple (e : DirEntrySimple) : entry3 :=
  mk_entry3 (des_fileid e) (des_name e) (des_fileid e).

Lemma put_entries_cons {E} `{XDR E} (e : E) l b bs :
  wapp (serialize true) (serialize e) = Some b → put_entries l = Some bs →
  put_entries (e :: l) = Some (b ++ bs).
Proof. unfold put_entries, wconcat. cbn [fmap list_fmap foldr]. by intros -> ->. Qed.

Lemma plus_loop_prefix mb md out n entries out' all :
  plus_loop generation mb md out n entries = Some (out', all) →
  ∃ k bs, put_entries (entry_plus <$> take k entries) = Some bs ∧ out' = out ++ bs ∧
    (k <= length entries)%nat ∧ (all = true → k = length entries).
Proof.
  revert out n. induction entries as [|e entries IH]; intros out n; cbn [plus_loop].
  { intros [= <- <-]. exists 0%nat, []. by rewrite app_nil_r. }
  destruct (wapp _ _) as [b|] eqn:Hb; [|done]. cbn [mbind option_bind].
  destruct (_ && _).
  - intros (k & bs & Hk & -> & Hle & Hall)%IH. exists (S k), (b ++ bs). split_and!.
    + cbn [take fmap list_fmap]. by apply put_entries_cons.
    + by rewrite app_assoc.
    + simpl. lia.
    + intros Ha. by rewrite Hall.
  - intros [= <- <-]. exists 0%nat, []. rewrite app_nil_r. split_and!; [done|done|lia|done].
Qed.

Lemma simple_loop_prefix mb out entries out' all :
  simple_loop mb out entries = Some (out', all) →
  ∃ k bs, put_entries (entry_simple <$> take k entries) = Some bs ∧ out' = out ++ bs ∧
    (k <= length entries)%nat ∧ (all = true → k = length entries).
Proof.
  revert out. induction entries as [|e entries IH]; intros out; cbn [simple_loop].
  { intros [= <- <-]. exists 0%nat, []. by rewrite app_nil_r. }
  destruct (wapp _ _) as [b|] eqn:Hb; [|done]. cbn [mbind option_bind].
  destruct (_ <? _).
  - intros (k & bs & Hk & -> & Hle & Hall)%IH. exists (S k), (b ++ bs). split_and!.
    + cbn [take fmap list_fmap]. by apply put_entries_cons.
    + by rewrite app_assoc.
    + simpl. lia.
    + intros Ha. by rewrite Hall.
  - intros [= <- <-]. exists 0%nat, []. rewrite app_nil_r. split_and!; [done|done|lia|done].
Qed.

Lemma or_panic_ok {A} (o : option A) (w : World D C) a : (or_panic o w).1 = Ok a → o = Some a.
Proof. destruct o; simpl; congruence. Qed.

Lemma listing_answers {E} `{XDR E} proc xid dir_attr loop at_end :
  documented proc NFS3_OK =
    [wire_of post_op_attr; wire_of (array 8); Wire (list E * bool) put_dirlist] →
  (∀ head out all, loop head = Some (out, all) →
     ∃ (l : list E) bs, put_entries l = Some bs ∧ out = head ++ bs) →
  replies (answers_call xid proc) (listing (D:=D) (C:=C) xid dir_attr loop at_end).
Proof.
  intros Hdoc Hloop. unfold listing.
  apply replies_bind. intros head [w1 Hhead%or_panic_ok].
  apply replies_bind. intros [out all] [w2 Hl%or_panic_ok].
  apply output_replies. intros bs Hb. right. left.
  destruct (Hloop _ _ _ Hl) as (l & es & Hes & ->).
  cbn [wconcat foldr] in Hhead.
  apply wapp_some in Hhead as (h & r1 & Hh & Hhead & ->).
  apply wapp_some in Hhead as (s & r2 & Hs & Hhead & ->).
  apply wapp_some in Hhead as (a & r3 & Ha & Hhead & ->).
  apply wapp_some in Hhead as (v & r4 & Hv & [= <-] & ->).
  cbn [wconcat foldr] in Hb. apply wapp_some in Hb as (x & r5 & [= <-] & Hb & ->).
  exists h, s, NFS3_OK, (a ++ v ++ es ++ r5). split_and!; [done|done|by rewrite !app_nil_r, <-!app_assoc|].
  left. rewrite Hdoc. apply (written_cons post_op_attr serialize (Some dir_attr)); [done|].
  apply (written_cons (array 8) serialize (dirversion dir_attr)); [done|].
  rewrite <-(app_nil_r (es ++ r5)).
  apply (written_cons (list E * bool) put_dirlist (l, if all then at_end else false)); [|constructor].
  unfold put_dirlist. cbn [fst snd]. rewrite Hes.
  cbn [mbind option_bind wconcat foldr]. by rewrite Hb.
Qed.

Lemma readdirplus_answers auth xid input :
  replies (answers_call xid 17) (nfsproc3_readdirplus (D:=D) (C:=C) generation overflow_checks auth xid input).
Proof.
  unfold nfsproc3_readdirplus. answers. apply (listing_answers (E := entryplus3)); [done|].
  intros head out all (k & bs & Hb & -> & _)%plus_loop_prefix. by eexists _, bs.
Qed.
Lemma readdir_simple_fails id n : Vfs.FailsProperly (readdir_simple (D:=D) (C:=C) id n).
Proof. unfold readdir_simple. apply _. Qed.
Lemma readdir_answers auth xid input :
  replies (answers_call xid 16) (nfsproc3_readdir (D:=D) (C:=C) generation overflow_checks auth xid input).
Proof.
  unfold nfsproc3_readdir. pose proof readdir_simple_fails.
  answers. apply (listing_answers (E := entry3)); [done|].
  intros head out all (k & bs & Hb & -> & _)%simple_loop_prefix. by eexists _, bs.
Qed.

(** * Properties *)

(** C23: every reply has the form of its procedure.  A call of one of the 21 procedures
    that is answered is answered with its transaction number, a status and the result that
    the procedure has for the status, field by field, on every path of every handler; but
    for what the code does otherwise: SETATTR and READLINK end after the status when the
    handle is bad, RENAME sends one [wcc_data] where two are due, SETATTR sends two replies
    in one when its guard does not match, and WRITE answers garbage with its own header. *)
Theorem replies_conform auth xid call input (w : World D C) bs :
  cb_vers call = NFS_VERSION → 0 <= cb_proc call <= 20 →
  (handle_nfs generation overflow_checks auth xid call input w).1 = Ok (inr bs) →
  answers_call xid (cb_proc call) bs.
Proof.
  intros Hv Hp. unfold handle_nfs. rewrite Hv. cbn [Z.eqb negb]. revert Hp w bs.
  apply (dispatch (λ p m, 0 <= p <= 20 → replies (answers_call xid p) m)); try intros _.
  - apply output_replies. intros bs Hb. left. split; [done|]. cbn [wconcat foldr] in Hb.
    apply wapp_some in Hb as (x & y & Hx & [= <-] & ->). by rewrite app_nil_r.
  - apply getattr_answers.
  - apply setattr_answers.
  - apply lookup_answers.
  - apply access_answers.
  - apply readlink_answers.
  - apply read_answers.
  - apply write_answers.
  - apply create_answers.
  - apply mkdir_answers.
  - apply symlink_answers.
  - apply mknod_answers.
  - apply remove_answers. by left.
  - apply remove_answers. by right.
  - apply rename_answers.
  - apply link_answers.
  - apply readdir_answers.
  - apply readdirplus_answers.
  - apply fsstat_answers.
  - apply fsinfo_answers.
  - apply pathconf_answers.
  - by intros p ? ?.
Qed.
End Replies.
