(* ===== verification/NfsServer.v ===== *)
(** * NfsServer: from bytes to replies

    [cli/src/nfsserve/rpcwire.rs] cuts the stream of a connection into messages and
    handles each; [transaction_tracker.rs] drops what was sent twice; [context.rs] is what
    a handler knows; [mount_handlers.rs] and [portmap_handlers.rs] are the two small
    programs beside NFS.  Messages are handled by tasks of their own; the model runs them
    one at a time, the operations of the tracker in any order.  Sockets, channels and the
    signal of mounts are left out. *)
From S2P Require Import Prelude Types Engine Path Xdr NfsTypes Utf8 Permissions.
From S2P Require Import NfsVfs NfsHandlers NfsHandlersProps.

(** ** Retransmissions *)

Inductive TransactionState := InProgress | Completed (completion_time : Z).
Abbreviation Tracker := (gmap (Z * string) TransactionState).

(** Times are nanoseconds; [max_age] is the retention period. *)
Definition retained (cutoff : Z) (s : TransactionState) : bool :=
  match s with InProgress => true | Completed completion_time => cutoff <=? completion_time end.
Definition housekeeping (now max_age : Z) (transactions : Tracker) : Tracker :=
  let cutoff := now - max_age in
  filter (λ kv, retained cutoff kv.2) transactions.

Definition is_retransmission (now max_age xid : Z) (client_addr : string) (tr : Tracker) :
    bool * Tracker :=
  let tr := housekeeping now max_age tr in
  match tr !! (xid, client_addr) with
  | None => (false, <[(xid, client_addr) := InProgress]> tr)
  | Some _ => (true, tr)
  end.

Definition mark_processed (now xid : Z) (client_addr : string) (tr : Tracker) : Tracker :=
  match tr !! (xid, client_addr) with
  | Some _ => <[(xid, client_addr) := Completed now]> tr
  | None => tr
  end.

(** ** Record marking *)

(** [read_fragment]: whether the fragment is the last of its record, its data, and the
    rest of the stream; [None] is the end of the stream. *)
Definition read_fragment (stream : bytes) : option (bool * bytes * bytes) :=
  match read_exact 4 stream with
  | inl _ => None
  | inr (header_buf, stream) =>
      let fragment_header := be_val header_buf in
      let is_last := 0 <? Z.land fragment_header (2 ^ 31) in
      let length := Z.land fragment_header (2 ^ 31 - 1) in
      match read_exact (Z.to_nat length) stream with
      | inl _ => None
      | inr (data, stream) => Some (is_last, data, stream)
      end
  end.

(** [write_fragment]: [None] is the failed assertion. *)
Definition write_fragment (buf : bytes) : option bytes :=
  if len buf <? 2 ^ 31 then Some (be_bytes 4 (len buf + 2 ^ 31) ++ buf) else None.

(** [SocketMessageHandler::read], looped: the messages of the stream.  A fragment is four
    bytes at least, so that the length of the stream is fuel enough. *)
Fixpoint read_messages (fuel : nat) (cur_fragment stream : bytes) : list bytes :=
  match fuel with
  | O => []
  | S fuel =>
      match read_fragment stream with
      | None => []
      | Some (is_last, data, stream) =>
          let cur_fragment := cur_fragment ++ data in
          if is_last : bool then cur_fragment :: read_messages fuel [] stream
          else read_messages fuel cur_fragment stream
      end
  end.
Definition messages (stream : bytes) : list bytes := read_messages (length stream) [] stream.

(** ** The context of a call *)

Record RPCContext := mkContext {
  local_port : Z; client_addr : string; context_auth : auth_unix; export_name : string
}.

(** The context of a new connection ([tcp.rs]). *)
Definition new_context (port : Z) (peer name : string) : RPCContext :=
  mkContext port peer default_value name.

Inductive RpcError := IoFailure (e : IoError) | BadCallFormat.

Definition NFS_PROGRAM : Z := 100003.
Definition PORTMAP_PROGRAM : Z := 100000.
Definition PORTMAP_VERSION : Z := 2.
Definition MOUNT_PROGRAM : Z := 100005.
Definition NFS_ACL_PROGRAM : Z := 100227.
Definition NFS_ID_MAP_PROGRAM : Z := 100270.
Definition NFS_METADATA_PROGRAM : Z := 200024.

Section Server.
Context {D C : Type} {V : Vfs.NFSFileSystem D C} (generation : Z) (overflow_checks : bool).
Abbreviation Handler := (M D C (IoError + bytes)).

(** ** The port mapper *)

Definition pmapproc_null (xid : Z) (input : bytes) : Handler :=
  output [serialize (make_success_reply xid)].

Definition pmapproc_getport (context : RPCContext) (xid : Z) (input : bytes) : Handler :=
  read_args input (λ (_ : mapping) _,
  output [serialize (make_success_reply xid); serialize (U32 (local_port context))]).

Definition handle_portmap (context : RPCContext) (xid : Z) (call : call_body) (input : bytes) :
    Handler :=
  if negb (cb_vers call =? PORTMAP_VERSION) then
    output [serialize (prog_mismatch_reply_message xid PORTMAP_VERSION)]
  else
    match cb_proc call with
    | 0 => pmapproc_null xid input
    | 3 => pmapproc_getport context xid input
    | _ => output [serialize (proc_unavail_reply_message xid)]
    end.

(** ** The mount program *)

Record mountres3_ok := mk_mountres3_ok { mr_fhandle : bytes; mr_auth_flavors : list u32 }.
#[local] Instance mountres3_ok_xdr : XDR mountres3_ok :=
  xdr_struct (λ m, (mr_fhandle m, mr_auth_flavors m)) (λ '(f, a), mk_mountres3_ok f a).

Definition mountproc3_null (xid : Z) (input : bytes) : Handler :=
  output [serialize (make_success_reply xid)].

(** The path below the export: [None] when it does not start with the name. *)
Definition export_path (context : RPCContext) (path : bytes) : option bytes :=
  let utf8path := default ""%string (from_utf8 path) in
  path ← strip_prefix utf8path (export_name context);
  Some (as_bytes ("/" +:+ trim (trim_end (trim_start path)))).

Definition mountproc3_mnt (context : RPCContext) (xid : Z) (input : bytes) : Handler :=
  read_args input (λ (path : bytes) _,
  match export_path context path with
  | None => output [serialize (make_success_reply xid); serialize MNT3ERR_NOENT]
  | Some path =>
      r ← path_to_id path;
      match r with
      | inr fileid =>
          let response :=
            mk_mountres3_ok (fh_data (id_to_fh generation fileid))
              [U32 (auth_flavor_num AUTH_NULL); U32 (auth_flavor_num AUTH_UNIX)] in
          output [serialize (make_success_reply xid); serialize MNT3_OK; serialize response]
      | inl _ => output [serialize (make_success_reply xid); serialize MNT3ERR_NOENT]
      end
  end).

Definition mountproc3_export (context : RPCContext) (xid : Z) (input : bytes) : Handler :=
  output [serialize (make_success_reply xid); serialize true;
          serialize (as_bytes (export_name context)); serialize false; serialize false].

Definition mountproc3_umnt (xid : Z) (input : bytes) : Handler :=
  read_args input (λ (path : bytes) _,
  output [serialize (make_success_reply xid); serialize MNT3_OK]).

Definition mountproc3_umnt_all (xid : Z) (input : bytes) : Handler :=
  output [serialize (make_success_reply xid); serialize MNT3_OK].

Definition handle_mount (context : RPCContext) (xid : Z) (call : call_body) (input : bytes) :
    Handler :=
  match cb_proc call with
  | 0 => mountproc3_null xid input
  | 1 => mountproc3_mnt context xid input
  | 3 => mountproc3_umnt xid input
  | 4 => mountproc3_umnt_all xid input
  | 5 => mountproc3_export context xid input
  | _ => output [serialize (proc_unavail_reply_message xid)]
  end.

(** ** A message *)

(** The program that a call is for. *)
Definition dispatch_program (context : RPCContext) (xid : Z) (call : call_body) (input : bytes) :
    Handler :=
  if cb_prog call =? NFS_PROGRAM then
    handle_nfs generation overflow_checks (context_auth context) xid call input
  else if cb_prog call =? PORTMAP_PROGRAM then handle_portmap context xid call input
  else if cb_prog call =? MOUNT_PROGRAM then handle_mount context xid call input
  else output [serialize (prog_unavail_reply_message xid)].

(** The credentials of a call, over those of the connection. *)
Definition call_auth (context : RPCContext) (call : call_body) : IoError + auth_unix :=
  match oa_flavor (cb_cred call) with
  | AUTH_UNIX =>
      match deserialize (T := auth_unix) default_value (oa_body (cb_cred call)) with
      | inr (auth, _) => inr auth
      | inl e => inl e
      end
  | _ => inr (context_auth context)
  end.

(** [handle_rpc] at the time [arrival], with the call processed at [completion]: an error,
    or the reply if there is one. *)
Definition handle_rpc (max_age arrival completion : Z) (context : RPCContext) (input : bytes)
    (tr : Tracker) : World D C → Outcome (RpcError + option bytes) * Tracker * World D C := λ w,
  match deserialize (T := rpc_msg) default_value input with
  | inl e => (Ok (inl (IoFailure e)), tr, w)
  | inr (recv, input) =>
      match body recv with
      | REPLY _ => (Ok (inl BadCallFormat), tr, w)
      | CALL call =>
          match call_auth context call with
          | inl e => (Ok (inl (IoFailure e)), tr, w)
          | inr auth =>
              let context := mkContext (local_port context) (client_addr context) auth
                               (export_name context) in
              if negb (cb_rpcvers call =? 2) then
                (match serialize (rpc_vers_mismatch (xid recv)) with
                 | Some bs => Ok (inr (Some bs))
                 | None => Panic
                 end, tr, w)
              else
                match is_retransmission arrival max_age (xid recv) (client_addr context) tr with
                | (true, tr) => (Ok (inr None), tr, w)
                | (false, tr) =>
                    match dispatch_program context (xid recv) call input w with
                    | (Ok r, w) =>
                        (Ok (match r with inr bs => inr (Some bs) | inl e => inl (IoFailure e) end),
                         mark_processed completion (xid recv) (client_addr context) tr, w)
                    | (Err e, w) => (Err e, tr, w)
                    | (Panic, w) => (Panic, tr, w)
                    end
                end
          end
      end
  end.

(** ** What a message changes *)

Context {Hreads : Vfs.VfsReads V}.

#[export] Instance walk_ids_readonly fid components : ReadOnly (walk_ids (V := V) fid components).
Proof. revert fid. induction components as [|[|b c] cs IH]; intros fid; cbn [walk_ids]; apply _. Qed.
#[export] Instance path_to_id_readonly path : ReadOnly (path_to_id (V := V) path).
Proof. unfold path_to_id. apply _. Qed.

Lemma other_programs_read context xid call input :
  ReadOnly (handle_portmap context xid call input) ∧ ReadOnly (handle_mount context xid call input).
Proof.
  split; unfold handle_portmap, handle_mount, pmapproc_null, pmapproc_getport, mountproc3_null,
    mountproc3_mnt, mountproc3_umnt, mountproc3_umnt_all, mountproc3_export, read_args;
    repeat case_match; apply _.
Qed.

(** What the program of a call may change. *)
Lemma dispatch_changes (w : World D C) context xid call input :
  w_db (dispatch_program context xid call input w).2 = w_db w ∨
  (cb_prog call = NFS_PROGRAM ∧
   permitted generation (context_auth context) w (cb_proc call) input).
Proof using Hreads.
  unfold dispatch_program. destruct (Z.eqb_spec (cb_prog call) NFS_PROGRAM) as [Hp|Hp].
  { destruct (handle_nfs_changes generation overflow_checks w (context_auth context) xid call input)
      as [?|?]; [by left|by right]. }
  left. destruct (other_programs_read context xid call input).
  repeat case_match; by rewrite (readonly w).
Qed.
End Server.

(** ** Record marking *)

(** How a client may send a message: in fragments, the last one marked. *)
Definition fragment (last : bool) (data : bytes) : bytes :=
  be_bytes 4 (len data + if last then 2 ^ 31 else 0) ++ data.
Fixpoint record (pieces : list bytes) (last : bytes) : bytes :=
  match pieces with
  | [] => fragment true last
  | data :: pieces => fragment false data ++ record pieces last
  end.

Lemma header_last (last : bool) n : 0 <= n < 2 ^ 31 →
  (0 <? Z.land (n + if last then 2 ^ 31 else 0) (2 ^ 31)) = last.
Proof.
  intros Hn. assert (0 <= Z.land (n + if last then 2 ^ 31 else 0) (2 ^ 31)) as Hpos
    by (apply Z.land_nonneg; lia).
  transitivity (has_bit (n + if last then 2 ^ 31 else 0) (2 ^ 31)).
  { unfold has_bit. destruct (Z.ltb_spec 0 (Z.land (n + if last then 2 ^ 31 else 0) (2 ^ 31)));
      destruct (Z.eqb_spec (Z.land (n + if last then 2 ^ 31 else 0) (2 ^ 31)) 0); done || lia. }
  rewrite has_bit_pow2 by done. destruct last.
  - apply Z.testbit_true; [done|]. rewrite <-(Z.mul_1_l (2 ^ 31)) at 1.
    by rewrite Z.div_add, Z.div_small by lia.
  - rewrite Z.add_0_r. by apply (testbit_above n 31).
Qed.

Lemma header_length (last : bool) n : 0 <= n < 2 ^ 31 →
  Z.land (n + if last then 2 ^ 31 else 0) (2 ^ 31 - 1) = n.
Proof.
  intros Hn. change (2 ^ 31 - 1) with (Z.ones 31). rewrite Z.land_ones by done.
  destruct last; [|rewrite Z.add_0_r; by apply Z.mod_small].
  rewrite <-(Z.mul_1_l (2 ^ 31)) at 1. rewrite Z_mod_plus_full. by apply Z.mod_small.
Qed.

Lemma read_fragment_fragment last data rest : len data < 2 ^ 31 →
  read_fragment (fragment last data ++ rest) = Some (last, data, rest).
Proof.
  intros Hl. pose proof (len_nonneg data) as Hpos. unfold read_fragment, fragment.
  rewrite <-app_assoc, read_exact_app by apply length_be_bytes.
  rewrite be_val_bytes by (change (256 ^ Z.of_nat 4) with (2 ^ 32); destruct last; lia).
  rewrite header_last, header_length by done.
  by rewrite read_exact_app by (unfold len; lia).
Qed.

Definition small_pieces (m : list bytes * bytes) : Prop :=
  Forall (λ p, len p < 2 ^ 31) m.1 ∧ len m.2 < 2 ^ 31.

(** What a client sends for a sequence of messages, each in its pieces. *)
Definition stream_of (ms : list (list bytes * bytes)) : bytes := concat ((λ m, record m.1 m.2) <$> ms).

Lemma length_fragment last data : length (fragment last data) = (4 + length data)%nat.
Proof. unfold fragment. by rewrite length_app, length_be_bytes. Qed.

Lemma read_record fuel cur pieces last rest :
  Forall (λ p, len p < 2 ^ 31) pieces → len last < 2 ^ 31 →
  (length (record pieces last ++ rest) <= fuel)%nat →
  ∃ fuel', (length rest <= fuel')%nat ∧
    read_messages fuel cur (record pieces last ++ rest) =
      (cur ++ concat pieces ++ last) :: read_messages fuel' [] rest.
Proof.
  intros Hp Hl. revert fuel cur. induction Hp as [|data pieces Hd _ IH]; intros fuel cur Hf;
    cbn [record] in *; rewrite ?length_app, length_fragment in Hf;
    (destruct fuel as [|fuel]; [lia|]); cbn [read_messages].
  - rewrite read_fragment_fragment by done. exists fuel. split; [lia|done].
  - rewrite <-app_assoc, read_fragment_fragment by done.
    destruct (IH fuel (cur ++ data)) as (fuel' & Hf' & ->); [rewrite length_app; lia|].
    exists fuel'. split; [done|]. cbn [concat]. by rewrite <-!app_assoc.
Qed.
Lemma read_stream fuel ms : Forall small_pieces ms → (length (stream_of ms) <= fuel)%nat →
  read_messages fuel [] (stream_of ms) = (λ m, concat m.1 ++ m.2) <$> ms.
Proof.
  intros Hms. revert fuel. induction Hms as [|[pieces last] ms [Hp Hl] _ IH]; intros fuel Hf.
  { by destruct fuel. }
  unfold stream_of in *. cbn [fmap list_fmap concat fst snd] in *.
  destruct (read_record fuel [] pieces last (concat ((λ m, record m.1 m.2) <$> ms)))
    as (fuel' & Hf' & ->); [done..|]. by rewrite IH.
Qed.

(** ** Retransmissions *)

(** What happens to the tracker: calls arrive, and are processed. *)
Inductive event := Arrives (now : Z) (key : Z * string) | Processed (now : Z) (key : Z * string).
Definition event_time (e : event) : Z :=
  match e with Arrives t _ => t | Processed t _ => t end.

(** The answers of the tracker: [true] where a call is to be handled. *)
Fixpoint track (max_age : Z) (tr : Tracker) (evs : list event) : list bool :=
  match evs with
  | [] => []
  | Arrives now (xid, client) :: evs =>
      let '(again, tr) := is_retransmission now max_age xid client tr in
      negb again :: track max_age tr evs
  | Processed now (xid, client) :: evs =>
      false :: track max_age (mark_processed now xid client tr) evs
  end.

(** Housekeeping keeps a key or finds it too old. *)
Lemma housekeeping_lookup (now max_age : Z) (tr : Tracker) (key : Z * string) s :
  tr !! key = Some s →
  housekeeping now max_age tr !! key = Some s ∨
  housekeeping now max_age tr !! key = None ∧ ∃ c, s = Completed c ∧ c < now - max_age.
Proof.
  intros Hs. unfold housekeeping. cbv zeta. destruct (retained (now - max_age) s) eqn:Hr.
  - left. apply map_lookup_filter_Some. split; [done|]. cbn [snd]. by rewrite Hr.
  - right. split.
    + apply map_lookup_filter_None. right. intros s'. rewrite Hs. intros [= <-] Ha. cbn [snd] in Ha. by rewrite Hr in Ha.
    + destruct s as [|c]; [done|]. exists c. split; [done|]. by apply Z.leb_gt in Hr.
Qed.

(** A call is handled that the tracker knows: it was completed, too long ago. *)
Lemma track_known (max_age : Z) (tr : Tracker) evs (key : Z * string) s j tj :
  tr !! key = Some s → StronglySorted Z.le (event_time <$> evs) →
  track max_age tr evs !! j = Some true → evs !! j = Some (Arrives tj key) →
  (∃ c, s = Completed c ∧ c < tj - max_age) ∨
  ∃ m c, (m < j)%nat ∧ evs !! m = Some (Processed c key) ∧ c < tj - max_age.
Proof.
  revert tr s j. induction evs as [|e evs IH]; intros tr s j Hs Hsort Ht He; [done|].
  apply StronglySorted_inv in Hsort as [Hsort Hle].
  assert (∀ s' tr' j', tr' !! key = Some s' → j = S j' → track max_age tr' evs !! j' = Some true →
    (∃ c, s' = Completed c ∧ c < tj - max_age) ∨
    ∃ m c, (m < j)%nat ∧ (e :: evs) !! m = Some (Processed c key) ∧ c < tj - max_age) as Hstep.
  { intros s' tr' j' Hs' -> Ht'. destruct (IH tr' s' j' Hs' Hsort Ht' He) as [?|(m & c & ? & ? & ?)];
      [by left|]. right. exists (S m), c. split_and!; [lia|done|done]. }
  destruct e as [t [x cl]|t [x cl]]; cbn [track] in Ht.
  - destruct (housekeeping_lookup t max_age tr key s Hs) as [Hk|[Hk (c & -> & Hc)]].
    + unfold is_retransmission in Ht. cbv zeta in Ht.
      destruct (housekeeping t max_age tr !! (x, cl)) as [s2|] eqn:Hx.
      * destruct j as [|j]; [done|]. by eapply Hstep.
      * destruct j as [|j]; [injection He as <- <-; congruence|].
        eapply Hstep; [|done|exact Ht]. rewrite lookup_insert_ne; [done|]. intros <-. congruence.
    + left. exists c. split; [done|]. destruct j as [|j]; [by injection He as <- <-|].
      assert (tj ∈ event_time <$> evs) as Htj.
      { apply list_elem_of_fmap. exists (Arrives tj key). split; [done|].
        by eapply list_elem_of_lookup_2. }
      pose proof (proj1 (Forall_forall _ _) Hle tj Htj) as Hc'. cbn in Hc'. lia.
  - destruct j as [|j]; [done|]. unfold mark_processed in Ht.
    destruct (decide (key = (x, cl))) as [->|Hne].
    + rewrite Hs in Ht.
      destruct (Hstep (Completed t) _ j (lookup_insert_eq _ _ _) eq_refl Ht)
        as [(c & [= <-] & Hc)|?]; [|by right].
      right. exists 0%nat, t. split_and!; [lia|done|done].
    + eapply Hstep; [|done|exact Ht]. destruct (tr !! (x, cl)); [|done].
      by rewrite lookup_insert_ne.
Qed.

Lemma handled_twice (max_age : Z) (tr : Tracker) evs (key : Z * string) i j ti tj :
  StronglySorted Z.le (event_time <$> evs) → (i < j)%nat →
  evs !! i = Some (Arrives ti key) → evs !! j = Some (Arrives tj key) →
  track max_age tr evs !! i = Some true → track max_age tr evs !! j = Some true →
  ∃ m c, (i < m < j)%nat ∧ evs !! m = Some (Processed c key) ∧ c < tj - max_age.
Proof.
  revert tr i j. induction evs as [|e evs IH]; intros tr i j Hsort Hij Hi Hj Hti Htj; [done|].
  apply StronglySorted_inv in Hsort as [Hsort _]. destruct j as [|j]; [lia|]. destruct i as [|i].
  - injection Hi as ->. destruct key as [x cl]. cbn [track] in Hti, Htj.
    unfold is_retransmission in Hti, Htj. cbv zeta in Hti, Htj.
    destruct (housekeeping ti max_age tr !! (x, cl)) as [s|]; [done|].
    edestruct track_known as [(c & ? & _)|(m & c & Hm & Hp & Hc)];
      [apply lookup_insert_eq|exact Hsort|exact Htj|exact Hj|done|].
    exists (S m), c. split_and!; [lia|lia|done|done].
  - assert (∀ tr', track max_age tr' evs !! i = Some true → track max_age tr' evs !! j = Some true →
      ∃ m c, (S i < m < S j)%nat ∧ (e :: evs) !! m = Some (Processed c key) ∧ c < tj - max_age) as Hstep.
    { intros tr' H1 H2. destruct (IH tr' i j) as (m & c & Hm & Hp & Hc); [done|lia|done..|].
      exists (S m), c. split_and!; [lia|lia|done|done]. }
    destruct e as [t [x cl]|t [x cl]]; cbn [track] in Hti, Htj; [|by apply Hstep in Htj].
    destruct (is_retransmission t max_age x cl tr) as [again tr']. by apply Hstep in Htj.
Qed.

Lemma first_is_handled (max_age : Z) (tr : Tracker) evs (key : Z * string) i t :
  tr !! key = None → evs !! i = Some (Arrives t key) →
  (∀ k t', (k < i)%nat → evs !! k ≠ Some (Arrives t' key)) →
  track max_age tr evs !! i = Some true.
Proof.
  revert tr i. induction evs as [|e evs IH]; intros tr i Htr Hi Hfirst; [done|].
  assert (∀ t, housekeeping t max_age tr !! key = None) as Hhk.
  { intros t'. apply map_lookup_filter_None. by left. }
  destruct i as [|i].
  - injection Hi as ->. destruct key as [x cl]. cbn [track]. unfold is_retransmission. cbv zeta.
    by rewrite Hhk.
  - assert (∀ tr', tr' !! key = None → track max_age tr' evs !! i = Some true) as Hstep.
    { intros tr' H. apply IH; [done..|]. intros k t' Hk. apply (Hfirst (S k)). lia. }
    destruct e as [t' [x cl]|t' [x cl]]; cbn [track].
    + assert (key ≠ (x, cl)) as Hne by (intros ->; by apply (Hfirst 0%nat t'); [lia|]).
      unfold is_retransmission. cbv zeta.
      destruct (housekeeping t' max_age tr !! (x, cl)); apply Hstep; [done|].
      by rewrite lookup_insert_ne.
    + apply Hstep. unfold mark_processed. destruct (tr !! (x, cl)) eqn:Hx; [|done].
      rewrite lookup_insert_ne; [done|]. intros <-. congruence.
Qed.

(** * Properties *)


(** C26: messages cross the wire whole.  However a client cuts its messages into fragments
    of less than 2^31 bytes, the server reads exactly these messages, in order; and what
    the server writes as a fragment is read back as one message. *)
Theorem record_marking (ms : list (list bytes * bytes)) : Forall small_pieces ms →
  messages (stream_of ms) = (λ m, concat m.1 ++ m.2) <$> ms ∧
  ∀ buf, len buf < 2 ^ 31 → ∃ out, write_fragment buf = Some out ∧ messages out = [buf].
Proof.
  intros Hms. split; [by apply read_stream|]. intros buf Hb. unfold write_fragment.
  rewrite (proj2 (Z.ltb_lt _ _) Hb). eexists. split; [done|].
  pose proof (read_stream _ [([], buf)] ltac:(by repeat constructor) (le_n _)) as Hr.
  unfold stream_of in Hr. cbn [fmap list_fmap concat record fst snd] in Hr.
  rewrite app_nil_r in Hr. exact Hr.
Qed.

(** C25: a call is handled at most once while it counts.  However calls arrive and are
    processed, as long as the clock does not go back: when a call with the transaction
    number and client of an earlier one is handled again, the earlier one was processed in
    between, and more than the retention period ago; and a call that did not come before
    is handled. *)
Theorem at_most_once (max_age : Z) (evs : list event) (key : Z * string) :
  StronglySorted Z.le (event_time <$> evs) →
  (∀ i j ti tj, (i < j)%nat →
     evs !! i = Some (Arrives ti key) → evs !! j = Some (Arrives tj key) →
     track max_age ∅ evs !! i = Some true → track max_age ∅ evs !! j = Some true →
     ∃ m c, (i < m < j)%nat ∧ evs !! m = Some (Processed c key) ∧ c < tj - max_age) ∧
  (∀ i t, evs !! i = Some (Arrives t key) →
     (∀ k t', (k < i)%nat → evs !! k ≠ Some (Arrives t' key)) →
     track max_age ∅ evs !! i = Some true).
Proof.
  intros Hsort. split; [intros i j ti tj; by apply handled_twice|].
  intros i t. by apply first_is_handled.
Qed.

(** Where no credentials of AUTH_UNIX come with a call, the caller is root. *)
Theorem no_credentials_are_root port peer name call attr p :
  oa_flavor (cb_cred call) ≠ AUTH_UNIX →
  ∃ auth, call_auth (new_context port peer name) call = inr auth ∧
    check_permission auth attr p = true.
Proof.
  intros Hf. exists default_value. split; [|done]. unfold call_auth.
  by destruct (oa_flavor (cb_cred call)).
Qed.
