(* ===== verification/NfsAdapterProps.v ===== *)
(** * NfsAdapterProps: listing, reading and writing over NFS

    Listing a directory page by page, [AgentNFS::readdir]: what a client sees that goes on
    from the last entry it got, and when that fails.  Then READ and WRITE calls from their
    bytes to the tables of an [AgentFS]. *)
From S2P Require Import Prelude Types Engine Lru Schema FileIO FileIOSpec AgentFS AgentFSInv.
From S2P Require Import AgentFSOps Xdr NfsTypes Permissions NfsVfs NfsAdapter NfsHandlers.

(** ** Pages *)

(** An entry as NFS reports it; its inode number is the cookie to go on from. *)
Definition fileid (e : DirEntry) : Z := as_u64 (st_ino (de_stats e)).
Definition nfs_entry (e : DirEntry) : NfsDirEntry :=
  mk_entry (fileid e) (Utf8.as_bytes (de_name e)) (stats_to_fattr (de_stats e)).
Definition cookie (seen : list NfsDirEntry) : Z :=
  match last seen with Some e => nde_fileid e | None => 0 end.

(** Inode numbers are not zero, and no two entries lead to the same inode. *)
Definition distinct (entries : list DirEntry) : Prop :=
  NoDup (fileid <$> entries) ∧ Forall (λ e, 0 < fileid e) entries.

(** A client: it asks for pages of so many entries, of which so many fit the reply, and
    goes on from the last one it got. *)
Fixpoint list_pages (requests : list (Z * nat)) (entries : list DirEntry)
    (seen : list NfsDirEntry) : list NfsDirEntry :=
  match requests with
  | [] => seen
  | (max_entries, fit) :: requests =>
      list_pages requests entries
        (seen ++ take fit (rd_entries (readdir_page (cookie seen) max_entries entries)))
  end.

Lemma page_take start max k acc entries : 0 <= max → len acc <= max →
  page start max false k acc entries =
    (acc ++ (nfs_entry <$> take (Z.to_nat (max - len acc)) entries), k).
Proof.
  intros Hmax. revert acc. induction entries as [|e entries IH]; intros acc Hacc; cbn [page].
  { by rewrite take_nil, app_nil_r. }
  destruct (Z.leb_spec max (len acc)) as [Hle|Hlt].
  - replace (max - len acc) with 0 by lia. by rewrite app_nil_r.
  - rewrite IH by len. len. replace (Z.to_nat (max - len acc)) with (S (Z.to_nat (max - (len acc + 1)))) by lia.
    cbn [take fmap list_fmap]. by rewrite <-app_assoc.
Qed.

Lemma page_skip start max k acc pre e rest :
  fileid e = start → Forall (λ x, fileid x ≠ start) pre →
  page start max true k acc (pre ++ e :: rest) =
    page start max false (k + len pre + 1) acc rest.
Proof.
  intros He Hpre. revert k. induction Hpre as [|x pre Hx _ IH]; intros k; cbn [app page].
  - change (as_u64 (st_ino (de_stats e))) with (fileid e). rewrite He, Z.eqb_refl. cbn [negb].
    by replace (k + len (@nil DirEntry) + 1) with (k + 1) by (rewrite len_nil; lia).
  - change (as_u64 (st_ino (de_stats x))) with (fileid x). destruct (Z.eqb_spec (fileid x) start); [done|].
    cbn [negb]. rewrite IH, len_cons. f_equal. lia.
Qed.

Lemma page_skip_all start max k acc entries :
  Forall (λ x, fileid x ≠ start) entries →
  page start max true k acc entries = (acc, k + len entries).
Proof.
  intros Hall. revert k. induction Hall as [|x entries Hx _ IH]; intros k; cbn [page].
  - rewrite len_nil. f_equal. lia.
  - change (as_u64 (st_ino (de_stats x))) with (fileid x). destruct (Z.eqb_spec (fileid x) start); [done|].
    cbn [negb]. rewrite IH, len_cons. f_equal. lia.
Qed.

(** Going on after an entry whose number comes first there. *)
Lemma readdir_page_after pre e rest max :
  0 <= max → 0 < fileid e → Forall (λ x, fileid x ≠ fileid e) pre →
  readdir_page (fileid e) max (pre ++ e :: rest) =
    mk_result (nfs_entry <$> take (Z.to_nat max) rest) (len rest <=? max).
Proof.
  intros Hmax Hpos Hpre. unfold readdir_page. rewrite (proj2 (Z.ltb_lt _ _) Hpos), page_skip by done.
  rewrite page_take, len_nil, Z.sub_0_r by done. cbn [app]. f_equal.
  rewrite len_app, len_cons. unfold len at 3. rewrite length_fmap, length_take.
  apply eq_bool_prop_intro. rewrite !Is_true_true, !Z.leb_le. unfold len. lia.
Qed.

Lemma readdir_page_start rest max : 0 <= max →
  readdir_page 0 max rest =
    mk_result (nfs_entry <$> take (Z.to_nat max) rest) (len rest <=? max).
Proof.
  intros Hmax. unfold readdir_page. cbn [Z.ltb Z.compare].
  rewrite page_take, len_nil, Z.sub_0_r by done. cbn [app]. f_equal.
  unfold len at 2. rewrite length_fmap, length_take.
  apply eq_bool_prop_intro. rewrite !Is_true_true, !Z.leb_le. unfold len. lia.
Qed.

Lemma readdir_page_continues pre rest max : distinct (pre ++ rest) → 0 <= max →
  readdir_page (cookie (nfs_entry <$> pre)) max (pre ++ rest) =
    mk_result (nfs_entry <$> take (Z.to_nat max) rest) (len rest <=? max).
Proof.
  intros [Hnd Hpos] Hmax. destruct pre as [|x pre] using rev_ind; [by apply readdir_page_start|].
  clear IHpre. unfold cookie. rewrite fmap_app. cbn [fmap list_fmap]. rewrite last_snoc. cbn [nfs_entry nde_fileid].
  rewrite <-app_assoc in *. cbn [app] in *. apply readdir_page_after; [done| |].
  - rewrite Forall_app, Forall_cons in Hpos. tauto.
  - rewrite fmap_app in Hnd. apply NoDup_app in Hnd as (_ & Hnd & _).
    apply Forall_forall. intros y Hy Heq. apply (Hnd (fileid y)).
    + by apply list_elem_of_fmap_2.
    + rewrite Heq. left.
Qed.

Lemma list_pages_prefix requests entries pre rest :
  distinct entries → entries = pre ++ rest → Forall (λ r, 0 <= r.1) requests →
  ∃ pre' rest', entries = pre' ++ rest' ∧
    list_pages requests entries (nfs_entry <$> pre) = nfs_entry <$> pre' ∧
    (Forall (λ r, 1 <= r.1 ∧ (1 <= r.2)%nat) requests →
     (length pre + length requests <= length pre')%nat ∨ rest' = []).
Proof.
  intros Hd He Hreq. revert pre rest He. induction Hreq as [|[max fit] reqs Hmax _ IH];
    intros pre rest He; cbn [list_pages].
  { exists pre, rest. split_and!; [done..|]. intros _. left. simpl. lia. }
  cbn [fst] in Hmax. subst entries. rewrite readdir_page_continues by done. cbn [rd_entries].
  rewrite <-fmap_take, <-fmap_app, take_take.
  set (n := min fit (Z.to_nat max)).
  destruct (IH (pre ++ take n rest) (drop n rest)) as (pre' & rest' & He' & Hl & Hp).
  { by rewrite <-app_assoc, take_drop. }
  exists pre', rest'. split_and!; [done..|]. intros Hall. apply Forall_cons in Hall as [[H1 H2] Hall].
  destruct (Hp Hall) as [Hlen| ->]; [|by right]. cbn [fst snd] in *.
  destruct (decide (length rest <= n)%nat) as [Hle|Hgt].
  - right. apply nil_length_inv. apply (f_equal length) in He'. rewrite !length_app in *.
    rewrite take_ge in Hlen by done. lia.
  - left. rewrite length_app, length_take in Hlen. simpl. lia.
Qed.

(** * Properties *)


(** Two links to one file in a directory: going on from the second is going on from the
    first, so that what lies between is listed again and again; with pages that end at the
    second link, what follows is never seen, and the end is never reported. *)
Theorem hard_links_loop (pre mid post : list DirEntry) (e e' : DirEntry) :
  0 < fileid e → fileid e' = fileid e → Forall (λ x, fileid x ≠ fileid e) pre → post ≠ [] →
  readdir_page (fileid e') (len mid + 1) (pre ++ e :: mid ++ e' :: post) =
    mk_result (nfs_entry <$> (mid ++ [e'])) false.
Proof.
  intros Hpos Heq Hpre Hpost. pose proof (len_nonneg mid). rewrite Heq, readdir_page_after by (done || lia).
  f_equal.
  - f_equal. replace (mid ++ e' :: post) with ((mid ++ [e']) ++ post) by by rewrite <-app_assoc.
    apply take_app_length'. rewrite length_app. unfold len. simpl. lia.
  - destruct post as [|p post]; [done|]. rewrite len_app, !len_cons.
    pose proof (len_nonneg post). case_bool; done || lia.
Qed.

(** When the entry to go on from was removed in between, the listing ends, whatever is left. *)
Theorem listing_cut_short (entries : list DirEntry) (gone max : Z) :
  0 < gone → Forall (λ x, fileid x ≠ gone) entries →
  readdir_page gone max entries = mk_result [] true.
Proof.
  intros Hpos Hall. unfold readdir_page. rewrite (proj2 (Z.ltb_lt _ _) Hpos), page_skip_all by done.
  f_equal. rewrite len_nil. apply Z.leb_le. lia.
Qed.
