(* ===== verification/NfsFiles.v ===== *)
(** * NfsFiles: reading and writing files over NFS

    READ and WRITE calls from their bytes to the tables of an [AgentFS] and back: what the
    client gets is what the reference functions on byte strings say. *)
From S2P Require Import Prelude Types Engine Lru Schema FileIO FileIOSpec AgentFS AgentFSInv.
From S2P Require Import AgentFSOps Xdr NfsTypes Permissions NfsVfs NfsAdapter NfsHandlers NfsWire.

Section NfsFiles.
Context {E : SqlEngine} {Lru : LruCache (Z * string) Z} (cs generation : Z).
Hypotheses (Hcs : 0 < cs) (Hgen : in_u64 generation).
#[local] Existing Instance agentfs_filesystem.
#[local] Instance agent : Vfs.NFSFileSystem Db (lru (Z * string) Z) :=
  @agent_nfs _ _ (agentfs_filesystem cs).
Abbreviation W := (World Db (lru (Z * string) Z)).

(** The attributes of an inode as NFS shows them. *)
Definition shown (ino : Z) (row : Inode) : fattr3 :=
  stats_to_fattr (build_stats_from_row ino row).

Lemma land_mask x n : 0 <= n → 0 <= Z.land x (Z.ones n) < 2 ^ n.
Proof. intros Hn. rewrite Z.land_ones by done. apply Z.mod_pos_bound. lia. Qed.

Lemma shown_fits ino row : fits (shown ino row).
Proof.
  unfold shown. destruct row. pose proof (land_mask (as_u32 i_mode) 12 ltac:(done)) as Hm.
  repeat first [apply conj | apply as_u32_range | apply as_u64_range | done];
    cbn -[Z.land] in *; change 4095 with (Z.ones 12); lia.
Qed.

(** ** What a client makes of a reply *)

(** The client reads a reply of [xid] with this status and result, and nothing is left. *)
Definition receives {R} `{XDR R} (bs : bytes) (xid : Z) (stat : nfsstat3) (result : R) : Prop :=
  ∀ old, deserialize (T := rpc_msg * nfsstat3 * R) old bs =
    inr (make_success_reply xid, stat, result, []).

Lemma reply_received {R} `{XdrCodec R} xid stat (result : R) (w : W) : in_u32 xid → fits result →
  ∃ bs, reply xid stat [serialize result] w = (Ok (inr bs), w) ∧ receives bs xid stat result.
Proof.
  intros Hx Hr.
  destruct (round_trip (make_success_reply xid, stat, result)) as (bs & Hs & _ & Hd).
  { split_and!; [done..|exact Hr]. }
  exists bs. split; [|intros old; by rewrite <-(app_nil_r bs)].
  cbn [serialize prod_xdr fst snd] in Hs. unfold reply, output. cbn [wconcat foldr].
  destruct (serialize (make_success_reply xid)); [|done]. cbn [wapp] in *.
  destruct (serialize stat); [|done]. cbn [wapp] in *.
  destruct (serialize result); [|done]. cbn [wapp] in *.
  injection Hs as <-. by rewrite app_nil_r, <-app_assoc.
Qed.

(** Arguments that a client writes are the arguments that the handler reads. *)
Lemma args_received {T} `{XdrCodec T, Default T} (args : T) input
    (k : T → bytes → M Db (lru (Z * string) Z) (IoError + bytes)) :
  fits args → serialize args = Some input → read_args input k = k args [].
Proof.
  intros Hf Hs. destruct (round_trip args Hf) as (bs & Hb & _ & Hd).
  rewrite Hb in Hs. injection Hs as ->. unfold read_args.
  pose proof (Hd default_value []) as Hd'. rewrite app_nil_r in Hd'. by rewrite Hd'.
Qed.

(** ** The methods on a healthy world *)

Lemma handle_leads ino xid failure k : in_u64 ino →
  with_id generation xid (id_to_fh generation ino) failure k = (k ino : M Db (lru (Z * string) Z) _).
Proof using Hgen. intros Hi. unfold with_id. by rewrite fh_round_trip. Qed.

Lemma getattr_run ino row (w : W) : 1 <= ino < 2 ^ 63 → faultless w →
  fs_inode (w_db w) !! ino = Some row →
  Vfs.getattr (NFSFileSystem := agent) ino w = (Ok (inr (shown ino row)), w).
Proof.
  intros Hi Hw Hrow. destruct w as [d c fs clk t]. unfold faultless in Hw. cbn [w_db w_faults] in *.
  subst fs. cbn. unfold getattr, found, call, map_err, vok_or, vok, id_to_fs_ino.
  rewrite as_i64_id by (unfold in_i64; lia). unfold vbind. cbn.
  unfold AgentFS.getattr, getattr_with_conn. run. unfold sel_inode. rewrite Hrow. done.
Qed.

Lemma nfs_open_run ino flags row (w : W) : 1 <= ino < 2 ^ 63 → faultless w →
  fs_inode (w_db w) !! ino = Some row →
  SdkFs.open (FileSystem := agentfs_filesystem cs) (id_to_fs_ino ino) flags w =
    (Ok (mkFile ino cs), w).
Proof.
  intros Hi Hw Hrow. destruct w as [d c fs clk t]. unfold faultless in Hw. cbn [w_db w_faults] in *.
  subst fs. unfold id_to_fs_ino. rewrite as_i64_id by (unfold in_i64; lia).
  cbn. unfold AgentFS.open. run. unfold sel_inode. by rewrite Hrow.
Qed.

Lemma fstat_run ino row (w : W) : faultless w → fs_inode (w_db w) !! ino = Some row →
  FileIO.fstat (mkFile ino cs) w = (Ok (build_stats_from_row ino row), w).
Proof.
  intros Hw Hrow. destruct w as [d c fs clk t]. unfold faultless in Hw. cbn [w_db w_faults] in *.
  subst fs. unfold FileIO.fstat. run. unfold sel_inode. cbn [f_ino]. by rewrite Hrow.
Qed.

Lemma map_err_run {D C A} f (m : M D C A) w a w' :
  m w = (Ok a, w') → map_err f m w = (Ok (inr a), w').
Proof. unfold map_err. by intros ->. Qed.

Lemma vbind_run {D C A B} (m : VR D C A) (f : A → VR D C B) w a w' :
  m w = (Ok (inr a), w') → vbind m f w = f a w'.
Proof. unfold vbind, mbind, M_bind. by intros ->. Qed.

Lemma spec_read_end (l : bytes) off n : 0 <= off →
  len (FileSpec.read l off n) = 0 ∨ off + len (FileSpec.read l off n) <= len l.
Proof.
  intros Hoff. unfold FileSpec.read, len. rewrite length_take, length_drop. lia.
Qed.

Lemma size_shown ino row d : chunks_ok cs d → fs_inode d !! ino = Some row →
  as_u64 (st_size (build_stats_from_row ino row)) = len (contents cs d ino).
Proof.
  intros Hok Hrow. pose proof (sizes_ok _ _ Hok _ _ Hrow) as Hs. cbn [st_size build_stats_from_row].
  unfold contents. rewrite (fsize_row _ _ _ Hrow), len_fbytes by lia. apply as_u64_id. unfold in_u64. lia.
Qed.

Lemma read_run ino off count row (w : W) : chunks_ok cs (w_db w) → faultless w →
  1 <= ino < 2 ^ 63 → fs_inode (w_db w) !! ino = Some row → in_u64 off → in_u32 count →
  let data := FileSpec.read (contents cs (w_db w) ino) off count in
  Vfs.read (NFSFileSystem := agent) ino off count w =
    (Ok (inr (data, len (contents cs (w_db w) ino) <=? off + len data)), w).
Proof using Hcs.
  intros Hok Hw Hi Hrow [Hoff1 Hoff2] [Hc1 Hc2] data. cbn. unfold read.
  erewrite vbind_run by (apply map_err_run; by eapply nfs_open_run).
  unfold call. erewrite vbind_run by (apply map_err_run; cbn; by apply pread_run).
  erewrite vbind_run by (apply map_err_run; by eapply fstat_run). fold data.
  rewrite (size_shown ino row (w_db w)) by done. unfold vok. do 3 f_equal.
  unfold u64_add. rewrite as_u64_id; [done|].
  destruct (spec_read_end (contents cs (w_db w) ino) off count Hoff1) as [H0|Hend]; [fold data in H0|fold data in Hend].
  - rewrite H0. unfold in_u64. lia.
  - pose proof (sizes_ok _ _ Hok _ _ Hrow). rewrite <-(size_shown ino row (w_db w)) in Hend by done.
    cbn in Hend. rewrite as_u64_id in Hend by (unfold in_u64; lia).
    pose proof (len_nonneg data). unfold in_u64. lia.
Qed.
Lemma write_run ino off data row (w : W) : chunks_ok cs (w_db w) → healthy w →
  1 <= ino < 2 ^ 63 → fs_inode (w_db w) !! ino = Some row → 0 <= off → off + len data < 2 ^ 63 →
  ∃ row' w', Vfs.write (NFSFileSystem := agent) ino off data w = (Ok (inr (shown ino row')), w') ∧
    fs_inode (w_db w') !! ino = Some row' ∧ i_mode row' = i_mode row ∧
    healthy w' ∧ chunks_ok cs (w_db w') ∧ only_file ino (w_db w) (w_db w') ∧
    contents cs (w_db w') ino =
      match data with [] => contents cs (w_db w) ino
      | _ => FileSpec.write (contents cs (w_db w) ino) off data end.
Proof using Hcs.
  intros Hok Hw Hi Hrow Hoff Hmax.
  destruct (pwrite_run cs ino off data row w Hcs Hok Hw Hrow Hoff Hmax)
    as (w' & Hrun & Hw' & Hof & Hok' & _ & (row' & Hrow' & Hmode & _) & Hc).
  exists row', w'. split; [|done]. cbn. unfold write.
  erewrite vbind_run by (apply map_err_run; eapply nfs_open_run; [done|apply Hw|done]).
  unfold call. erewrite vbind_run by (apply map_err_run; exact Hrun).
  exact (getattr_run ino row' w' Hi (proj1 Hw') Hrow').
Qed.

Lemma attr_step xid ino failure k row (w : W) : 1 <= ino < 2 ^ 63 → faultless w →
  fs_inode (w_db w) !! ino = Some row →
  with_attr (V := agent) xid ino failure k w = k (shown ino row) w.
Proof.
  intros Hi Hw Hrow. unfold with_attr, mbind, M_bind. by rewrite (getattr_run ino row).
Qed.

(** ** The procedures *)

(** What READ answers. *)
Definition read_answer (auth : auth_unix) (args : READ3args) (ino : Z) (row : Inode) (d : Db)
    (bs : bytes) (xid : Z) : Prop :=
  let attr := shown ino row in
  let file := contents cs d ino in
  let data := FileSpec.read file (ra_offset args) (ra_count args) in
  if Rules.allowed auth attr Read then
    receives bs xid NFS3_OK
      (mk_READ3resok (Some attr) (len data) (len file <=? ra_offset args + len data) data)
  else receives bs xid NFS3ERR_ACCES (Some attr).

Lemma spec_read_len (l : bytes) off n : 0 <= n → len (FileSpec.read l off n) <= n.
Proof. intros Hn. unfold FileSpec.read, len. rewrite length_take. lia. Qed.

Lemma nfsproc3_read_run auth xid args input ino row (w : W) :
  chunks_ok cs (w_db w) → faultless w → 1 <= ino < 2 ^ 63 →
  fs_inode (w_db w) !! ino = Some row →
  ra_file args = id_to_fh generation ino → ra_count args < U32_MAX → in_u32 xid →
  fits args → serialize args = Some input →
  ∃ bs, nfsproc3_read (V := agent) generation auth xid input w = (Ok (inr bs), w) ∧
    read_answer auth args ino row (w_db w) bs xid.
Proof using Hcs Hgen.
  intros Hok Hw Hi Hrow Hfile Hcount Hx Hf Hs. unfold nfsproc3_read, read_answer.
  rewrite (args_received args) by done. rewrite Hfile, handle_leads by (unfold in_u64; lia).
  rewrite (attr_step _ _ _ _ row) by done. unfold can_read. rewrite check_permission_allowed.
  destruct Hf as [[_ Hoff] Hcnt].
  change (in_u64 (ra_offset args)) in Hoff. change (in_u32 (ra_count args)) in Hcnt.
  destruct (Rules.allowed auth (shown ino row) Read); cbn [negb].
  - unfold mbind, M_bind. rewrite (read_run ino _ _ row) by done. cbv zeta beta iota.
    set (data := FileSpec.read _ _ _). assert (0 <= len data < U32_MAX) as Hlen.
    { pose proof (spec_read_len (contents cs (w_db w) ino) (ra_offset args) (ra_count args)) as Hl.
      pose proof (len_nonneg data). unfold in_u32 in Hcnt. fold data in Hl. lia. }
    rewrite as_u32_id by (unfold in_u32, U32_MAX in *; lia).
    apply reply_received; [done|].
    refine (conj (conj (conj (shown_fits ino row) _) I) (proj2 Hlen)).
    change (in_u32 (len data)). unfold in_u32, U32_MAX in *. lia.
  - apply reply_received; [done|apply shown_fits].
Qed.
Lemma pre_attr_fits ino row : fits (pre_attr (shown ino row)).
Proof.
  destruct (shown_fits ino row) as [[[[[[[[_ Hsize] _] _] _] _] _] Hm] Hc].
  exact (conj (conj Hsize Hm) Hc).
Qed.

(** The set-id bits are among the bits that are shown. *)
Lemma set_id_shown ino row : has_bit (fa_mode (shown ino row)) 0xc00 = has_bit (i_mode row) 0xc00.
Proof.
  unfold has_bit, shown, stats_to_fattr. cbn [fa_mode st_mode build_stats_from_row].
  unfold as_u32. rewrite <-(Z.land_ones (i_mode row) 32), <-!Z.land_assoc by done. done.
Qed.

Definition wcc_of (ino : Z) (before after : Inode) : wcc_data :=
  mk_wcc_data (pre_attr (shown ino before)) (Some (shown ino after)).

Lemma wcc_fits ino before after : fits (wcc_of ino before after).
Proof. exact (conj (pre_attr_fits ino before) (shown_fits ino after)). Qed.

Lemma nfsproc3_write_run auth xid args input ino row (w : W) :
  chunks_ok cs (w_db w) → healthy w → 1 <= ino < 2 ^ 63 →
  fs_inode (w_db w) !! ino = Some row →
  wr_file args = id_to_fh generation ino → wr_count args = len (wr_data args) →
  wr_offset args + len (wr_data args) < 2 ^ 63 →
  Rules.allowed auth (shown ino row) Write = true →
  au_uid auth = 0 ∨ has_bit (i_mode row) 0xc00 = false → in_u32 xid →
  fits args → serialize args = Some input →
  ∃ bs row' w', nfsproc3_write (V := agent) generation auth xid input w = (Ok (inr bs), w') ∧
    receives bs xid NFS3_OK
      (mk_WRITE3resok (wcc_of ino row row') (len (wr_data args)) FILE_SYNC (serverid generation)) ∧
    fs_inode (w_db w') !! ino = Some row' ∧ i_mode row' = i_mode row ∧
    healthy w' ∧ chunks_ok cs (w_db w') ∧ only_file ino (w_db w) (w_db w') ∧
    contents cs (w_db w') ino =
      match wr_data args with [] => contents cs (w_db w) ino
      | data => FileSpec.write (contents cs (w_db w) ino) (wr_offset args) data end.
Proof using Hcs Hgen.
  intros Hok Hw Hi Hrow Hfile Hcount Hmax Hallow Hset Hx Hf Hs.
  unfold nfsproc3_write, needs_write. cbn [Vfs.capabilities agent agent_nfs].
  rewrite (args_received args) by done. rewrite Hcount, Z.eqb_refl. cbn [negb].
  rewrite Hfile, handle_leads by (unfold in_u64; lia).
  rewrite (attr_step _ _ _ _ row) by (done || apply Hw).
  unfold can_write. rewrite check_permission_allowed, Hallow. cbn [negb].
  destruct Hf as [[[[_ Hoff] Hcnt] _] Hlen].
  change (in_u64 (wr_offset args)) in Hoff. change (in_u32 (wr_count args)) in Hcnt.
  destruct (write_run ino (wr_offset args) (wr_data args) row w Hok Hw Hi Hrow (proj1 Hoff) Hmax)
    as (row' & w' & Hrun & Hrow' & Hmode & Hrest).
  unfold mbind at 1, M_bind at 1. rewrite Hrun. cbv beta iota.
  assert (negb (au_uid auth =? 0) && has_bit (fa_mode (shown ino row')) 0xc00 = false) as ->.
  { destruct Hset as [->|Hset]; [done|].
    by rewrite set_id_shown, Hmode, Hset, andb_false_r. }
  unfold mbind, M_bind, mret, M_ret.
  destruct (reply_received (R := WRITE3resok) xid NFS3_OK
    (mk_WRITE3resok (wcc_of ino row row') (len (wr_data args)) FILE_SYNC (serverid generation)) w' Hx)
    as (bs & Hb & Hr).
  { refine (conj (conj (conj (wcc_fits ino row row') _) I) _); [by rewrite <-Hcount|done]. }
  exists bs, row', w'. split; [exact Hb|]. split; [exact Hr|].
  split; [exact Hrow'|]. split; [exact Hmode|]. destruct (wr_data args); exact Hrest.
Qed.

(** * Properties *)

(** READ over NFS returns the contents.  For any call whose arguments fit and whose
    handle is that of a file, the client gets, byte for byte, the range it asked for of the
    contents of the file, whether the file ends there, and its attributes, if the
    permissions allow the caller to read; otherwise the refusal.  Nothing changes. *)
Theorem nfs_read_returns auth xid args input ino row (w : W) :
  chunks_ok cs (w_db w) → faultless w → 1 <= ino < 2 ^ 63 →
  fs_inode (w_db w) !! ino = Some row →
  ra_file args = id_to_fh generation ino → ra_count args < U32_MAX → in_u32 xid →
  fits args → serialize args = Some input →
  ∃ bs, nfsproc3_read (V := agent) generation auth xid input w = (Ok (inr bs), w) ∧
    read_answer auth args ino row (w_db w) bs xid.
Proof using Hcs Hgen. apply nfsproc3_read_run. Qed.

(** C22: what WRITE stores, READ returns.  A caller who may write sends data that fit the
    file; the client gets the success it can rely on ([FILE_SYNC]), no other file changes,
    and every READ of the file after that answers from the contents with the data written
    over them. *)
Theorem nfs_write_then_read auth xid args input ino row (w : W) :
  chunks_ok cs (w_db w) → healthy w → 1 <= ino < 2 ^ 63 →
  fs_inode (w_db w) !! ino = Some row →
  wr_file args = id_to_fh generation ino → wr_count args = len (wr_data args) →
  wr_data args ≠ [] → wr_offset args + len (wr_data args) < 2 ^ 63 →
  Rules.allowed auth (shown ino row) Write = true →
  au_uid auth = 0 ∨ has_bit (i_mode row) 0xc00 = false → in_u32 xid →
  fits args → serialize args = Some input →
  ∃ bs row' w', nfsproc3_write (V := agent) generation auth xid input w = (Ok (inr bs), w') ∧
    receives bs xid NFS3_OK
      (mk_WRITE3resok (wcc_of ino row row') (len (wr_data args)) FILE_SYNC (serverid generation)) ∧
    only_file ino (w_db w) (w_db w') ∧
    contents cs (w_db w') ino =
      FileSpec.write (contents cs (w_db w) ino) (wr_offset args) (wr_data args) ∧
    ∀ reader xid' args' input', ra_file args' = id_to_fh generation ino →
      ra_count args' < U32_MAX → in_u32 xid' → fits args' → serialize args' = Some input' →
      ∃ bs', nfsproc3_read (V := agent) generation reader xid' input' w' = (Ok (inr bs'), w') ∧
        read_answer reader args' ino row' (w_db w') bs' xid'.
Proof using Hcs Hgen.
  intros Hok Hw Hi Hrow Hfile Hcount Hne Hmax Hallow Hset Hx Hf Hs.
  destruct (nfsproc3_write_run auth xid args input ino row w)
    as (bs & row' & w' & Hrun & Hr & Hrow' & _ & Hw' & Hok' & Hof & Hc); [done..|].
  exists bs, row', w'. split_and!; [done..| |].
  - rewrite Hc. by destruct (wr_data args).
  - intros. apply nfsproc3_read_run; done || apply Hw'.
Qed.
End NfsFiles.
