(* ===== verification/Fuse.v ===== *)
(** * Fuse: a filesystem of the SDK behind the kernel

    [cli/src/fuse.rs]: [AgentFSFuse] answers the requests of the kernel by the trait
    [FileSystem] of the SDK, with a table of the files that are open.  A callback runs to its
    reply before the next one starts; its reply is its result here.  Names and targets are
    the bytes the kernel sends. *)
From S2P Require Import Prelude Types Engine Xdr Utf8 NfsAdapter.

(** The other errno codes that replies use. *)
Class LibcFuse `{Libc} := {
  EIO : Z; EAGAIN : Z; EBADF : Z;
  fuse_errno_positive : 0 < EIO ∧ 0 < EAGAIN ∧ 0 < EBADF
}.
#[export] Program Instance libc_fuse_linux : LibcFuse := {| EIO := 5; EAGAIN := 11; EBADF := 9 |}.
Next Obligation. done. Qed.

Definition error_to_errno `{LibcFuse} (e : Error.t) : Z :=
  match e with
  | Error.Fs fs_err => FsError.to_errno fs_err
  | Error.Io raw_os_error => default EIO raw_os_error
  | Error.Database Busy => EAGAIN
  | Error.ConnectionPoolTimeout => EAGAIN
  | _ => EIO
  end.

(** ** Attributes *)

Module FileType.
Inductive t :=
| NamedPipe | CharDevice | BlockDevice | Directory | RegularFile | Symlink | Socket.
#[global] Instance t_eq_dec : EqDecision t.
Proof. solve_decision. Defined.
End FileType.

(** A [SystemTime] is the seconds and nanoseconds since the epoch. *)
Record FileAttr := mkAttr {
  a_ino : Z; a_size : Z; a_blocks : Z;
  a_atime : Z * Z; a_mtime : Z * Z; a_ctime : Z * Z;
  a_kind : FileType.t; a_perm : Z; a_nlink : Z; a_uid : Z; a_gid : Z; a_rdev : Z;
  a_blksize : Z
}.

(** [UNIX_EPOCH + Duration::new(secs as u64, nsec)]: both the carry of the nanoseconds and
    the addition panic on overflow; a [SystemTime] counts its seconds in 63 bits. *)
Definition system_time (secs nsec : Z) : option (Z * Z) :=
  let s := as_u64 secs + nsec / 10 ^ 9 in
  if s <? 2 ^ 63 then Some (s, nsec mod 10 ^ 9) else None.

Definition kind_of (mode : Z) : FileType.t :=
  let file_type := Z.land mode S_IFMT in
  if file_type =? S_IFDIR then FileType.Directory
  else if file_type =? S_IFLNK then FileType.Symlink
  else if file_type =? S_IFIFO then FileType.NamedPipe
  else if file_type =? S_IFCHR then FileType.CharDevice
  else if file_type =? S_IFBLK then FileType.BlockDevice
  else if file_type =? S_IFSOCK then FileType.Socket
  else FileType.RegularFile.

(** [u64::div_ceil]. *)
Definition div_ceil (a b : Z) : Z := (a + b - 1) / b.

Definition fillattr (stats : Stats) : option FileAttr :=
  let size := if Z.land (st_mode stats) S_IFMT =? S_IFDIR then 4096 else as_u64 (st_size stats) in
  atime ← system_time (st_atime stats) (st_atime_nsec stats);
  mtime ← system_time (st_mtime stats) (st_mtime_nsec stats);
  ctime ← system_time (st_ctime stats) (st_ctime_nsec stats);
  Some (mkAttr (as_u64 (st_ino stats)) size (div_ceil size 512) atime mtime ctime
          (kind_of (st_mode stats)) (Z.land (st_mode stats) 0xfff) (st_nlink stats)
          (st_uid stats) (st_gid stats) (as_u32 (st_rdev stats)) 512).

(** ** Replies *)

(** An entry of a listing, and one with attributes (whose inode is that of the attributes). *)
Record Dirent := mkDirent { d_ino : Z; d_off : Z; d_kind : FileType.t; d_name : string }.
Record DirentPlus := mkDirentPlus { p_off : Z; p_name : string; p_attr : FileAttr }.

(** Every entry and every attribute is valid for ever ([TTL]), and of generation 0. *)
Inductive Reply :=
| RError (errno : Z)
| REntry (attr : FileAttr)
| RAttr (attr : FileAttr)
| RData (data : bytes)
| ROpened (fh : Z)
| RCreated (attr : FileAttr) (fh : Z)
| RWritten (size : Z)
| RDirectory (entries : list Dirent)
| RDirectoryPlus (entries : list DirentPlus)
| RStatfs (blocks bfree bavail files ffree bsize namelen frsize : Z)
| ROk.

(** The buffer of a listing ([fuser/ll/reply.rs]): every entry takes a header and its name,
    rounded up to eight bytes.  [None]: the buffer is full, and as it was. *)
Definition DIRENT_SIZE : Z := 24.
Definition DIRENTPLUS_SIZE : Z := 152.
Definition entsize (header : Z) (name : string) : Z :=
  Z.land (header + Z.of_nat (String.length name) + 7) (Z.lnot 7).
Definition push (max_size header : Z) (name : string) (used : Z) : option Z :=
  if max_size <? used + entsize header name then None else Some (used + entsize header name).

(** The loop of [readdir], after [skip]: what fits. *)
Fixpoint fill (max_size used i : Z) (l : list (Z * FileType.t * string)) : list Dirent :=
  match l with
  | [] => []
  | (ino, kind, name) :: l =>
      match push max_size DIRENT_SIZE name used with
      | None => []
      | Some used => mkDirent ino (i + 1) kind name :: fill max_size used (i + 1) l
      end
  end.

(** ** The filesystem *)

Inductive TimeOrNow := SpecificTime (since_epoch : option (Z * Z)) | TimeNow.

(** The caller of a request. *)
Record FuseReq := mkReq { req_uid : Z; req_gid : Z }.

Section AgentFSFuse.
Context {D C : Type} {F : SdkFs.FileSystem D C} {L : Libc} {LF : LibcFuse}.
(** [libc::O_RDWR]. *)
Context (O_RDWR : Z).

(** [f_fs]: the memory of the filesystem; [invalidated]: the entries the kernel was told to
    forget, in order. *)
Record Fuse := mkFuse {
  f_fs : C;
  open_files : gmap Z (SdkFs.File (FileSystem := F));
  next_fh : Z;
  invalidated : list (Z * bytes)
}.
Abbreviation File := (SdkFs.File (FileSystem := F)).
Abbreviation Cb := (M D Fuse).

(** [AgentFSFuse::new]. *)
Definition new (fs : C) : Fuse := mkFuse fs ∅ 1 [].

(** [self.runtime.block_on(...)]: the result of an operation of the filesystem. *)
Definition block_on {A} (m : M D C A) : Cb (Error.t + A) := λ w,
  let mem := w_mem w in
  let '(r, w') := m (mkWorld (w_db w) (f_fs mem) (w_faults w) (w_clock w) (w_tick w)) in
  (match r with Ok a => Ok (inr a) | Err e => Ok (inl e) | Panic => Panic end,
   mkWorld (w_db w') (mkFuse (w_mem w') (open_files mem) (next_fh mem) (invalidated mem))
     (w_faults w') (w_clock w') (w_tick w')).

(** [Ok(a) => k(a), Err(e) => reply.error(error_to_errno(&e))]. *)
Definition respond {A} (m : M D C A) (k : A → Cb Reply) : Cb Reply :=
  r ← block_on m;
  match r with
  | inr a => k a
  | inl e => mret (RError (error_to_errno e))
  end.

Definition error (errno : Z) : Cb Reply := mret (RError errno).

(** [name.to_str()] or [EINVAL]. *)
Definition to_str (name : bytes) (k : string → Cb Reply) : Cb Reply :=
  match from_utf8 name with Some s => k s | None => error EINVAL end.

Definition attr_of (stats : Stats) : Cb FileAttr := or_panic (fillattr stats).
Definition reply_entry (stats : Stats) : Cb Reply := attr ← attr_of stats; mret (REntry attr).
Definition reply_attr (stats : option Stats) : Cb Reply :=
  match stats with
  | Some stats => attr ← attr_of stats; mret (RAttr attr)
  | None => error ENOENT
  end.

(** The tables of open files and of deferred notifications. *)
Definition alloc_fh : Cb Z :=
  with_mem (λ m, (next_fh m,
    mkFuse (f_fs m) (open_files m) (as_u64 (next_fh m + 1)) (invalidated m))).
Definition insert_file (fh : Z) (file : File) : Cb unit :=
  with_mem (λ m, (tt, mkFuse (f_fs m) (<[fh := file]> (open_files m)) (next_fh m) (invalidated m))).
Definition get_file (fh : Z) : Cb (option File) := with_mem (λ m, (open_files m !! fh, m)).
Definition remove_file (fh : Z) : Cb unit :=
  with_mem (λ m, (tt, mkFuse (f_fs m) (delete fh (open_files m)) (next_fh m) (invalidated m))).
Definition inval_entry (parent : Z) (name : bytes) : Cb unit :=
  with_mem (λ m, (tt, mkFuse (f_fs m) (open_files m) (next_fh m) (invalidated m ++ [(parent, name)]))).
Definition with_file (fh : Z) (k : File → Cb Reply) : Cb Reply :=
  file ← get_file fh;
  match file with Some file => k file | None => error EBADF end.

(** ** Names and attributes *)

Definition lookup (parent : Z) (name : bytes) : Cb Reply :=
  to_str name (λ name_str,
    respond (SdkFs.lookup (as_i64 parent) name_str) (λ stats,
      match stats with
      | Some stats => reply_entry stats
      | None => error ENOENT
      end)).

Definition getattr (ino : Z) : Cb Reply :=
  respond (SdkFs.getattr (as_i64 ino)) reply_attr.

Definition readlink (ino : Z) : Cb Reply :=
  respond (SdkFs.readlink (as_i64 ino)) (λ target,
    match target with
    | Some target => mret (RData (as_bytes target))
    | None => error ENOENT
    end).

(** The times of a request; before the epoch is the epoch. *)
Definition time_change (t : option TimeOrNow) : TimeChange :=
  match t with
  | Some (SpecificTime since) =>
      let dur := default (0, 0) since in SetTime (as_i64 dur.1) dur.2
  | Some TimeNow => Now
  | None => Omit
  end.

Definition setattr (ino : Z) (mode uid gid size : option Z) (atime mtime : option TimeOrNow)
    (fh : option Z) : Cb Reply :=
  let finish := respond (SdkFs.getattr (as_i64 ino)) reply_attr in
  let times :=
    match atime, mtime with
    | None, None => finish
    | _, _ =>
        respond (SdkFs.utimens (as_i64 ino) (time_change atime) (time_change mtime))
          (λ _, finish)
    end in
  let truncate :=
    match size with
    | None => times
    | Some new_size =>
        match fh with
        | Some fh =>
            with_file fh (λ file, respond (SdkFs.truncate file new_size) (λ _, times))
        | None =>
            respond (file ← SdkFs.open (as_i64 ino) O_RDWR; SdkFs.truncate file new_size)
              (λ _, times)
        end
    end in
  let chown :=
    match uid, gid with
    | None, None => truncate
    | _, _ => respond (SdkFs.chown (as_i64 ino) uid gid) (λ _, truncate)
    end in
  match mode with
  | None => chown
  | Some new_mode => respond (SdkFs.chmod (as_i64 ino) new_mode) (λ _, chown)
  end.

(** ** Directories *)

(** The type that [readdir] reports. *)
Definition entry_kind (stats : Stats) : FileType.t :=
  if is_directory stats then FileType.Directory
  else if is_symlink stats then FileType.Symlink
  else FileType.RegularFile.

Definition all_entries (ino : Z) (entries : list DirEntry) : list (Z * FileType.t * string) :=
  (ino, FileType.Directory, ".") :: (1, FileType.Directory, "..") ::
  ((λ e, (as_u64 (st_ino (de_stats e)), entry_kind (de_stats e), de_name e)) <$> entries).

Definition readdir (ino offset max_size : Z) : Cb Reply :=
  respond (SdkFs.readdir_plus (as_i64 ino)) (λ entries,
    match entries with
    | Some entries =>
        let skip := as_u64 offset in
        mret (RDirectory
          (fill max_size 0 skip (drop (Z.to_nat skip) (all_entries ino entries))))
    | None => error ENOENT
    end).

(** [.ok().flatten()] of [getattr]. *)
Definition stats_if_any (ino : Z) : Cb (option Stats) :=
  r ← block_on (SdkFs.getattr ino);
  mret (match r with inr (Some stats) => Some stats | _ => None end).

(** One entry from [offset_counter] on; [None]: the buffer is full. *)
Definition add_plus (max_size offset offset_counter : Z) (name : string) (stats : option Stats)
    (s : Z * list DirentPlus) : Cb (option (Z * list DirentPlus)) :=
  if offset <=? offset_counter then
    match stats with
    | Some stats =>
        attr ← attr_of stats;
        mret (match push max_size DIRENTPLUS_SIZE name s.1 with
              | Some used => Some (used, s.2 ++ [mkDirentPlus (offset_counter + 1) name attr])
              | None => None
              end)
    | None => mret (Some s)
    end
  else mret (Some s).

Fixpoint fill_plus (max_size offset offset_counter : Z) (l : list (string * option Stats))
    (s : Z * list DirentPlus) : Cb Reply :=
  match l with
  | [] => mret (RDirectoryPlus s.2)
  | (name, stats) :: l =>
      r ← add_plus max_size offset offset_counter name stats s;
      match r with
      | Some s => fill_plus max_size offset (offset_counter + 1) l s
      | None => mret (RDirectoryPlus s.2)
      end
  end.

Definition readdirplus (ino offset max_size : Z) : Cb Reply :=
  respond (SdkFs.readdir_plus (as_i64 ino)) (λ entries,
    match entries with
    | Some entries =>
        dir_stats ← stats_if_any (as_i64 ino);
        parent_stats ← (if ino =? 1 then mret dir_stats else stats_if_any 1);
        fill_plus max_size offset 0
          ((".", dir_stats) :: ("..", parent_stats) ::
           ((λ e, (de_name e, Some (de_stats e))) <$> entries)) (0, [])
    | None => error ENOENT
    end).

Definition mknod (req : FuseReq) (parent : Z) (name : bytes) (mode rdev : Z) : Cb Reply :=
  to_str name (λ name_str,
    respond (SdkFs.mknod (as_i64 parent) name_str mode rdev (req_uid req) (req_gid req))
      reply_entry).

Definition mkdir (req : FuseReq) (parent : Z) (name : bytes) (mode : Z) : Cb Reply :=
  to_str name (λ name_str,
    respond (SdkFs.mkdir (as_i64 parent) name_str mode (req_uid req) (req_gid req)) reply_entry).

Definition rmdir (parent : Z) (name : bytes) : Cb Reply :=
  to_str name (λ name_str,
    respond (SdkFs.rmdir (as_i64 parent) name_str) (λ _, inval_entry parent name ;; mret ROk)).

(** ** Creating and removing *)

(** A file becomes an open file. *)
Definition track (file : File) : Cb Z :=
  fh ← alloc_fh; insert_file fh file ;; mret fh.

Definition create (req : FuseReq) (parent : Z) (name : bytes) (mode : Z) : Cb Reply :=
  to_str name (λ name_str,
    respond (SdkFs.create_file (as_i64 parent) name_str mode (req_uid req) (req_gid req))
      (λ created,
        attr ← attr_of created.1;
        fh ← track created.2;
        mret (RCreated attr fh))).

Definition symlink (req : FuseReq) (parent : Z) (link_name target : bytes) : Cb Reply :=
  to_str link_name (λ name_str, to_str target (λ target_str,
    respond (SdkFs.symlink (as_i64 parent) name_str target_str (req_uid req) (req_gid req))
      reply_entry)).

Definition link (ino newparent : Z) (newname : bytes) : Cb Reply :=
  to_str newname (λ name_str,
    respond (SdkFs.link (as_i64 ino) (as_i64 newparent) name_str) reply_entry).

Definition unlink (parent : Z) (name : bytes) : Cb Reply :=
  to_str name (λ name_str,
    respond (SdkFs.unlink (as_i64 parent) name_str) (λ _, inval_entry parent name ;; mret ROk)).

(** The flags are not looked at. *)
Definition rename (parent : Z) (name : bytes) (newparent : Z) (newname : bytes) (flags : Z) :
    Cb Reply :=
  to_str name (λ old_name_str, to_str newname (λ new_name_str,
    respond (SdkFs.rename (as_i64 parent) old_name_str (as_i64 newparent) new_name_str)
      (λ _, inval_entry parent name ;; inval_entry newparent newname ;; mret ROk))).

(** ** Open files *)

Definition open (ino flags : Z) : Cb Reply :=
  respond (SdkFs.open (as_i64 ino) flags) (λ file, fh ← track file; mret (ROpened fh)).

Definition read (fh offset size : Z) : Cb Reply :=
  with_file fh (λ file,
    respond (SdkFs.pread file (as_u64 offset) size) (λ data, mret (RData data))).

Definition write (fh offset : Z) (data : bytes) : Cb Reply :=
  with_file fh (λ file,
    respond (SdkFs.pwrite file (as_u64 offset) data) (λ _, mret (RWritten (as_u32 (len data))))).

Definition flush (fh : Z) : Cb Reply := with_file fh (λ _, mret ROk).

Definition fsync (fh : Z) : Cb Reply :=
  with_file fh (λ file, respond (SdkFs.fsync file) (λ _, mret ROk)).

Definition release (fh : Z) : Cb Reply := remove_file fh ;; mret ROk.

Definition BLOCK_SIZE : Z := 4096.
Definition TOTAL_INODES : Z := 1000000.
Definition MAX_NAMELEN : Z := 255.
Definition TOTAL_BLOCKS : Z := 1024 * 1024 * 1024.

Definition statfs : Cb Reply :=
  result ← block_on SdkFs.statfs;
  let '(used_blocks, used_inodes) :=
    match result with
    | inr stats => (div_ceil (bytes_used stats) BLOCK_SIZE, inodes stats)
    | inl _ => (0, 1)
    end in
  let free_blocks := saturating_sub TOTAL_BLOCKS used_blocks in
  let free_inodes := saturating_sub TOTAL_INODES used_inodes in
  mret (RStatfs TOTAL_BLOCKS free_blocks free_blocks TOTAL_INODES free_inodes BLOCK_SIZE
          MAX_NAMELEN BLOCK_SIZE).

(** ** Forgetting inodes; no reply *)

Definition forget (ino nlookup : Z) : Cb unit :=
  block_on (SdkFs.forget (as_i64 ino) nlookup) ;; mret tt.

Fixpoint batch_forget (nodes : list (Z * Z)) : Cb unit :=
  match nodes with
  | [] => mret tt
  | (ino, nlookup) :: nodes => forget ino nlookup ;; batch_forget nodes
  end.
End AgentFSFuse.

(** Instance search takes the callbacks as they are. *)
#[global] Typeclasses Opaque block_on respond with_file.
