(* ===== verification/FuseSession.v ===== *)
(** * FuseSession: the session with the kernel

    [cli/src/fuser/request.rs], [session.rs] and the defaults of [cli/src/fuser/mod.rs]: the
    handshake, who may call, and which callback of [AgentFSFuse] answers a request.  Requests
    are dispatched one at a time, in the order they are read. *)
From S2P Require Import Prelude Types Engine NfsAdapter Fuse.

(** The errno codes of the session. *)
Class LibcSession `{LibcFuse} := {
  EPROTO : Z; ENOSYS : Z; EACCES : Z;
  session_errno_positive : 0 < EPROTO ∧ 0 < ENOSYS ∧ 0 < EACCES
}.
#[export] Program Instance libc_session_linux : LibcSession :=
  {| EPROTO := 71; ENOSYS := 38; EACCES := 13 |}.
Next Obligation. done. Qed.

(** ** Requests *)

(** What the kernel asks, with the arguments that reach the filesystem; those that have none
    here are answered without looking at their arguments. *)
Inductive Operation :=
| Init (major minor capabilities max_readahead : Z)
| Destroy
| Interrupt
| Lookup (name : bytes)
| Forget (nlookup : Z)
| BatchForget (nodes : list (Z * Z))
| GetAttr
| SetAttr (mode uid gid size : option Z) (atime mtime : option TimeOrNow) (fh : option Z)
| ReadLink
| MkNod (name : bytes) (mode umask rdev : Z)
| MkDir (name : bytes) (mode umask : Z)
| Unlink (name : bytes)
| RmDir (name : bytes)
| SymLink (link_name target : bytes)
| Rename (name : bytes) (newdir : Z) (newname : bytes)
| Link (ino : Z) (newname : bytes)
| Open (flags : Z)
| Create (name : bytes) (mode umask flags : Z)
| Read (fh offset size : Z)
| Write (fh offset : Z) (data : bytes)
| Flush (fh : Z)
| FSync (fh : Z)
| Release (fh : Z)
| OpenDir (flags : Z)
| ReadDir (offset size : Z)
| FSyncDir
| ReleaseDir
| StatFs
| SetXAttr | GetXAttr | ListXAttr | RemoveXAttr | Access | GetLk | SetLk | SetLkW | BMap | IoCtl | Poll
| NotifyReply
| CuseInit.

(** [nodeid] is the inode the request is about. *)
Record Request := mkRequest { operation : Operation; nodeid : Z; r_uid : Z; r_gid : Z }.

(** ** The handshake *)

Record KernelConfig := mkConfig {
  capabilities : Z; requested : Z; max_readahead : Z; max_background : Z;
  congestion : option Z; max_write : Z
}.

Definition FUSE_ASYNC_READ : Z := Z.shiftl 1 0.
Definition FUSE_BIG_WRITES : Z := Z.shiftl 1 5.
Definition FUSE_WRITEBACK_CACHE : Z := Z.shiftl 1 16.
Definition FUSE_PARALLEL_DIROPS : Z := Z.shiftl 1 18.
Definition FUSE_CACHE_SYMLINKS : Z := Z.shiftl 1 23.
Definition FUSE_NO_OPENDIR_SUPPORT : Z := Z.shiftl 1 24.
Definition INIT_FLAGS : Z := Z.lor FUSE_ASYNC_READ FUSE_BIG_WRITES.
Definition MAX_WRITE_SIZE : Z := 16 * 1024 * 1024.
Definition FUSE_KERNEL_VERSION : Z := 7.
(** Without the features [abi-7-19] and later. *)
Definition FUSE_KERNEL_MINOR_VERSION : Z := 18.

(** [KernelConfig::new]. *)
Definition kernel_config (capabilities max_readahead : Z) : KernelConfig :=
  mkConfig capabilities INIT_FLAGS max_readahead 16 None MAX_WRITE_SIZE.

(** All of them or none. *)
Definition add_capabilities (to_add : Z) (c : KernelConfig) : Z + KernelConfig :=
  if negb (Z.land to_add (capabilities c) =? to_add)
  then inl (to_add - Z.land to_add (capabilities c))
  else inr (mkConfig (capabilities c) (Z.lor (requested c) to_add) (max_readahead c)
              (max_background c) (congestion c) (max_write c)).

Definition congestion_threshold (c : KernelConfig) : Z :=
  match congestion c with
  | None => max_background c * 3 / 4
  | Some value => Z.min value (max_background c)
  end.

(** [AgentFSFuse::init]: a refusal is ignored. *)
Definition wanted : Z :=
  Z.lor (Z.lor (Z.lor (Z.lor FUSE_ASYNC_READ FUSE_WRITEBACK_CACHE) FUSE_PARALLEL_DIROPS)
    FUSE_CACHE_SYMLINKS) FUSE_NO_OPENDIR_SUPPORT.
Definition init (c : KernelConfig) : KernelConfig :=
  match add_capabilities wanted c with inr c' => c' | inl _ => c end.

(** ** Sessions *)

(** The [SessionACL] of a mount. *)
Module Acl.
Inductive t := All | RootAndOwner | Owner.
#[global] Instance t_eq_dec : EqDecision t.
Proof. solve_decision. Defined.
End Acl.

Inductive Response :=
| Replied (reply : Reply)
| InitReply (major minor max_readahead flags max_background congestion_threshold max_write : Z)
| NoReply.

Section Session.
Context {D C : Type} {F : SdkFs.FileSystem D C} {L : Libc} {LF : LibcFuse} {LS : LibcSession}.
Context (O_RDWR : Z).

Record Session := mkSession {
  filesystem : Fuse (F := F);
  allowed : Acl.t; session_owner : Z;
  proto_major : Z; proto_minor : Z;
  initialized : bool; destroyed : bool
}.
Abbreviation S := (M D Session).

(** [Session::from_fd]. *)
Definition session (fs : Fuse) (acl : Acl.t) (owner : Z) : Session :=
  mkSession fs acl owner 0 0 false false.

(** A callback of the filesystem. *)
Definition on_filesystem {A} (m : M D Fuse A) : S A := λ w,
  let se := w_mem w in
  let '(r, w') := m (mkWorld (w_db w) (filesystem se) (w_faults w) (w_clock w) (w_tick w)) in
  (r, mkWorld (w_db w')
        (mkSession (w_mem w') (allowed se) (session_owner se) (proto_major se) (proto_minor se)
           (initialized se) (destroyed se))
        (w_faults w') (w_clock w') (w_tick w')).

(** Operations that the kernel may issue on behalf of nobody. *)
Definition without_uid (op : Operation) : bool :=
  match op with
  | Init _ _ _ _ | Destroy | Read _ _ _ | ReadDir _ _ | BatchForget _ | Forget _ | Write _ _ _
  | FSync _ | FSyncDir | Release _ | ReleaseDir => true
  | _ => false
  end.

Definition acl_denies (se : Session) (uid : Z) : bool :=
  (bool_decide (allowed se = Acl.RootAndOwner) && negb (uid =? session_owner se)
     && negb (uid =? 0))
  || (bool_decide (allowed se = Acl.Owner) && negb (uid =? session_owner se)).

(** [ll::Version]'s order. *)
Definition version_lt (major minor : Z) : bool := (major <? 7) || ((major =? 7) && (minor <? 6)).

Definition set_initialized (major minor : Z) : S unit :=
  with_mem (λ se, (tt,
    mkSession (filesystem se) (allowed se) (session_owner se) major minor true (destroyed se))).
Definition set_destroyed : S unit :=
  with_mem (λ se, (tt,
    mkSession (filesystem se) (allowed se) (session_owner se) (proto_major se) (proto_minor se)
      (initialized se) true)).

(** [Init::reply], of a kernel of 32 flags. *)
Definition init_reply (caps : Z) (config : KernelConfig) : Response :=
  InitReply FUSE_KERNEL_VERSION FUSE_KERNEL_MINOR_VERSION (max_readahead config)
    (as_u32 (Z.land caps (requested config))) (max_background config)
    (congestion_threshold config) (max_write config).

Definition answer (m : M D Fuse Reply) : M D Fuse (option Reply) :=
  reply ← m; mret (Some reply).

(** The callback of an operation; those that [AgentFSFuse] does not define are the trait's. *)
Definition callback (r : Request) : M D Fuse (option Reply) :=
  let req := mkReq (r_uid r) (r_gid r) in
  let ino := nodeid r in
  match operation r with
  | Lookup name => answer (Fuse.lookup ino name)
  | Forget nlookup => Fuse.forget ino nlookup ;; mret None
  | BatchForget nodes => Fuse.batch_forget nodes ;; mret None
  | GetAttr => answer (Fuse.getattr ino)
  | SetAttr mode uid gid size atime mtime fh =>
      answer (Fuse.setattr O_RDWR ino mode uid gid size atime mtime fh)
  | ReadLink => answer (Fuse.readlink ino)
  | MkNod name mode _ rdev => answer (Fuse.mknod req ino name mode rdev)
  | MkDir name mode _ => answer (Fuse.mkdir req ino name mode)
  | Unlink name => answer (Fuse.unlink ino name)
  | RmDir name => answer (Fuse.rmdir ino name)
  | SymLink link_name target => answer (Fuse.symlink req ino link_name target)
  | Rename name newdir newname => answer (Fuse.rename ino name newdir newname 0)
  | Link src newname => answer (Fuse.link src ino newname)
  | Open flags => answer (Fuse.open ino flags)
  | Create name mode _ _ => answer (Fuse.create req ino name mode)
  | Read fh offset size => answer (Fuse.read fh offset size)
  | Write fh offset data => answer (Fuse.write fh offset data)
  | Flush fh => answer (Fuse.flush fh)
  | FSync fh => answer (Fuse.fsync fh)
  | Release fh => answer (Fuse.release fh)
  | OpenDir _ => mret (Some (ROpened 0))
  | ReadDir offset size => answer (Fuse.readdir ino offset size)
  | ReleaseDir => mret (Some ROk)
  | StatFs => answer (Fuse.statfs)
  | _ => mret (Some (RError ENOSYS))
  end.

(** [dispatch_req]; its [Err] is the reply of an error. *)
Definition dispatch (r : Request) : S Response :=
  se ← with_mem (λ se, (se, se));
  if acl_denies se (r_uid r) && negb (without_uid (operation r))
  then mret (Replied (RError EACCES))
  else
    match operation r with
    | Init major minor caps readahead =>
        if version_lt major minor then mret (Replied (RError EPROTO))
        else
          set_initialized major minor ;;
          mret (init_reply caps (init (kernel_config caps readahead)))
    | op =>
        if negb (initialized se) then mret (Replied (RError EIO))
        else
          match op with
          | Destroy => set_destroyed ;; mret (Replied ROk)
          | _ =>
              if destroyed se then mret (Replied (RError EIO))
              else
                reply ← on_filesystem (callback r);
                mret (match reply with Some reply => Replied reply | None => NoReply end)
          end
    end.

(** The loop of [Session::run], over the requests that arrive: their responses, up to a panic
    of the thread. *)
Fixpoint run (requests : list Request) (w : World D Session) :
    list (Operation * Response) * World D Session :=
  match requests with
  | [] => ([], w)
  | r :: requests =>
      match dispatch r w with
      | (Ok response, w') =>
          let '(trace, w'') := run requests w' in ((operation r, response) :: trace, w'')
      | (_, w') => ([], w')
      end
  end.
End Session.
