(* ===== verification/FuseProps.v ===== *)
(** * FuseProps: handles, sessions, listings and attributes over FUSE

    What holds of any filesystem of the SDK behind [AgentFSFuse]: the table of open files over
    a whole session with the kernel; when a session reaches the filesystem at all; listing a
    directory page by page; the ranges of what is reported. *)
From S2P Require Import Prelude Types Engine Utf8 NfsAdapter Fuse FuseSession.

(** ** The table of open files *)

Section Handles.
Context {D C : Type} {F : SdkFs.FileSystem D C} {L : Libc} {LF : LibcFuse} {LS : LibcSession}.
Abbreviation Cb := (M D (Fuse (F := F))).

Definition tables (m : Fuse) : gmap Z (SdkFs.File (FileSystem := F)) * Z :=
  (open_files m, next_fh m).

(** Callbacks that neither open nor release. *)
Class KeepsOpen {A} (m : Cb A) :=
  keeps_open w : tables (w_mem (m w).2) = tables (w_mem w).
#[local] Hint Mode KeepsOpen + ! : typeclass_instances.

#[export] Instance ret_keeps {A} (a : A) : KeepsOpen (mret a).
Proof. done. Qed.
#[export] Instance bind_keeps {A B} (m : Cb A) (f : A → Cb B) :
  KeepsOpen m → (∀ a, KeepsOpen (f a)) → KeepsOpen (m ≫= f).
Proof.
  intros Hm Hf w. specialize (Hm w). unfold mbind, M_bind.
  destruct (m w) as [[a|e|] w']; simpl in *; [|done..]. by rewrite Hf.
Qed.
#[export] Instance or_panic_keeps {A} (o : option A) : KeepsOpen (or_panic o).
Proof. by destruct o. Qed.
#[export] Instance block_on_keeps {A} (m : M D C A) : KeepsOpen (block_on m).
Proof. intros w. unfold block_on. by destruct (m _). Qed.
#[export] Instance inval_entry_keeps parent name : KeepsOpen (inval_entry parent name).
Proof. done. Qed.
#[export] Instance get_file_keeps fh : KeepsOpen (get_file fh).
Proof. intros w. by destruct w as [? []]. Qed.
#[local] Hint Extern 0 (KeepsOpen (match ?x with _ => _ end)) => destruct x : typeclass_instances.
#[export] Instance respond_keeps {A} (m : M D C A) k :
  (∀ a, KeepsOpen (k a)) → KeepsOpen (respond m k).
Proof. unfold respond. intros Hk. apply _. Qed.
#[export] Instance error_keeps e : KeepsOpen (error e).
Proof. done. Qed.
#[export] Instance to_str_keeps name k : (∀ s, KeepsOpen (k s)) → KeepsOpen (to_str name k).
Proof. unfold to_str. intros Hk. apply _. Qed.
#[export] Instance with_file_keeps fh k : (∀ f, KeepsOpen (k f)) → KeepsOpen (with_file fh k).
Proof. unfold with_file. intros Hk. apply _. Qed.
#[export] Instance attr_of_keeps stats : KeepsOpen (attr_of stats).
Proof. unfold attr_of. apply _. Qed.
#[export] Instance reply_entry_keeps stats : KeepsOpen (reply_entry stats).
Proof. unfold reply_entry. apply _. Qed.
#[export] Instance reply_attr_keeps stats : KeepsOpen (reply_attr stats).
Proof. unfold reply_attr. apply _. Qed.
#[export] Instance batch_forget_keeps nodes : KeepsOpen (batch_forget nodes).
Proof. induction nodes as [|[]]; cbn [batch_forget]; [apply _|]. unfold forget. apply _. Qed.
#[export] Instance setattr_keeps rdwr ino mode uid gid size atime mtime fh :
  KeepsOpen (setattr rdwr ino mode uid gid size atime mtime fh).
Proof. unfold setattr. cbv zeta. repeat case_match; apply _. Qed.

(** What opening and releasing do to the tables; an operation that fails leaves them. *)
Definition opened_as (op : Operation) (reply : option Reply) : list Z :=
  match op, reply with
  | Open _, Some (ROpened fh) => [fh]
  | Create _ _ _ _, Some (RCreated _ fh) => [fh]
  | _, _ => []
  end.

Definition tables_after (op : Operation) (res : Outcome (option Reply)) (m m' : Fuse) : Prop :=
  match op, res with
  | Release fh, _ => tables m' = (delete fh (open_files m), next_fh m)
  | _, Ok reply =>
      match opened_as op reply with
      | [] => tables m' = tables m
      | fh :: _ => fh = next_fh m ∧
          ∃ f, tables m' = (<[fh := f]> (open_files m), as_u64 (next_fh m + 1))
      end
  | _, _ => tables m' = tables m
  end.

Lemma respond_cases {A} (m : M D C A) (k : A → Cb Reply) w :
  ∃ w1, tables (w_mem w1) = tables (w_mem w) ∧
    ((∃ a, respond m k w = k a w1) ∨ (∃ e, respond m k w = (Ok (RError e), w1)) ∨
     (∃ r, respond m k w = (r, w1) ∧ ∀ reply, r ≠ Ok reply)).
Proof.
  pose proof (block_on_keeps m w) as Hk. unfold respond, mbind, M_bind.
  destruct (block_on m w) as [r w1] eqn:Hm. exists w1. split; [exact Hk|].
  destruct r as [[e|a]|e|]; [right; left; by eexists|left; by eexists|..];
    right; right; by eexists.
Qed.

Lemma track_run (f : SdkFs.File (FileSystem := F)) (w : World D Fuse) :
  ∃ w', track f w = (Ok (next_fh (w_mem w)), w') ∧
    tables (w_mem w') =
      (<[next_fh (w_mem w) := f]> (open_files (w_mem w)), as_u64 (next_fh (w_mem w) + 1)).
Proof. destruct w as [d []]. by eexists. Qed.

Lemma answer_run (m : Cb Reply) w :
  answer m w = (match (m w).1 with Ok a => Ok (Some a) | Err e => Err e | Panic => Panic end,
                (m w).2).
Proof. unfold answer, mbind, M_bind. by destruct (m w) as [[] ?]. Qed.

Lemma open_tables rdwr ino flags uid gid (w : World D Fuse) :
  let op := Open flags in
  tables_after op (callback rdwr (mkRequest op ino uid gid) w).1 (w_mem w)
    (w_mem (callback rdwr (mkRequest op ino uid gid) w).2).
Proof.
  cbv zeta. unfold callback, Fuse.open. cbn [operation nodeid]. rewrite answer_run.
  destruct (respond_cases (SdkFs.open (as_i64 ino) flags)
    (λ file, fh ← track file; mret (ROpened fh)) w)
    as (w1 & Hk & [[f Hr]|[[e Hr]|[r [Hr Hne]]]]).
  - rewrite Hr. destruct (track_run f w1) as (w2 & Ht & Hw2).
    unfold mbind, M_bind. rewrite Ht. cbn.
    unfold tables in Hk, Hw2 |- *. injection Hk as Ho Hn. rewrite Ho, Hn in Hw2.
    rewrite Hn, Hw2. split; [done|by exists f].
  - rewrite Hr. exact Hk.
  - rewrite Hr. destruct r as [a| |]; [by destruct (Hne a)|exact Hk..].
Qed.

Lemma create_tables rdwr ino name mode umask flags uid gid (w : World D Fuse) :
  let op := Create name mode umask flags in
  tables_after op (callback rdwr (mkRequest op ino uid gid) w).1 (w_mem w)
    (w_mem (callback rdwr (mkRequest op ino uid gid) w).2).
Proof.
  cbv zeta. unfold callback, Fuse.create, to_str. cbn [operation nodeid r_uid r_gid].
  rewrite answer_run. destruct (from_utf8 name) as [s|]; [|done].
  destruct (respond_cases (SdkFs.create_file (as_i64 ino) s mode
      (req_uid (mkReq uid gid)) (req_gid (mkReq uid gid)))
    (λ created, attr ← attr_of created.1; fh ← track created.2; mret (RCreated attr fh)) w)
    as (w1 & Hk & [[[stats f] Hr]|[[e Hr]|[r [Hr Hne]]]]).
  - rewrite Hr. cbn [fst snd]. unfold attr_of. destruct (fillattr stats) as [attr|]; [|exact Hk].
    destruct (track_run f w1) as (w2 & Ht & Hw2).
    unfold mbind, M_bind. cbn [or_panic mret M_ret]. rewrite Ht. cbn.
    unfold tables in Hk, Hw2 |- *. injection Hk as Ho Hn. rewrite Ho, Hn in Hw2.
    rewrite Hn, Hw2. split; [done|by exists f].
  - rewrite Hr. exact Hk.
  - rewrite Hr. destruct r as [a| |]; [by destruct (Hne a)|exact Hk..].
Qed.

Lemma callback_tables rdwr r (w : World D Fuse) :
  tables_after (operation r) (callback rdwr r w).1 (w_mem w) (w_mem (callback rdwr r w).2).
Proof.
  destruct r as [op ino uid gid].
  assert (Hkeep : KeepsOpen (callback rdwr (mkRequest op ino uid gid)) →
    opened_as op = (λ _, []) → (∀ fh, op ≠ Release fh) →
    tables_after op (callback rdwr (mkRequest op ino uid gid) w).1 (w_mem w)
      (w_mem (callback rdwr (mkRequest op ino uid gid) w).2)).
  { intros Hk Hno Hrel. specialize (Hk w). unfold tables_after. rewrite Hno.
    destruct op; try by destruct (callback _ _ w).1. by destruct (Hrel fh). }
  destruct op;
    try apply open_tables; try apply create_tables;
    try (apply Hkeep; [|done|done];
         unfold callback, answer, Fuse.lookup, Fuse.forget, Fuse.getattr, Fuse.readlink, Fuse.mknod,
           Fuse.mkdir, Fuse.unlink, Fuse.rmdir, Fuse.symlink, Fuse.rename, Fuse.link, Fuse.read,
           Fuse.write, Fuse.flush, Fuse.fsync, Fuse.readdir, Fuse.statfs; cbn [operation nodeid];
         apply _).
  by destruct w as [d []].
Qed.

(** ** Sessions *)

Abbreviation Sess := (Session (F := F)).

Definition reply_of (response : Response) : option Reply :=
  match response with Replied reply => Some reply | _ => None end.
Definition response_to (reply : option Reply) : Response :=
  match reply with Some reply => Replied reply | None => NoReply end.

(** The handles that a request was answered with, and the handles that are open after it. *)
Definition opened (x : Operation * Response) : list Z := opened_as x.1 (reply_of x.2).
Definition live (s : gset Z) (x : Operation * Response) : gset Z :=
  match x with
  | (Release fh, Replied ROk) => s ∖ {[fh]}
  | _ => list_to_set (opened x) ∪ s
  end.

(** Requests reach the filesystem between the handshake and the end only. *)
Inductive dispatched rdwr (r : Request) (w : World D Sess) : Prop :=
| answered_by_session response se
    (Hrun : dispatch rdwr r w = (Ok response, set_mem se w))
    (Hfs : filesystem se = filesystem (w_mem w))
    (Hacl : allowed se = allowed (w_mem w) ∧ session_owner se = session_owner (w_mem w))
    (Hopened : opened (operation r, response) = [])
    (Hrelease : ∀ fh, operation r = Release fh → response ≠ Replied ROk)
    (Hinit : initialized se = true →
       initialized (w_mem w) = true ∨ ∃ a b c d e f g, response = InitReply a b c d e f g)
    (Hdestroyed : destroyed (w_mem w) = true → destroyed se = true)
    (Hdestroy : operation r = Destroy → response = Replied ROk → destroyed se = true)
| answered_by_filesystem res w'
    (Hready : initialized (w_mem w) = true ∧ destroyed (w_mem w) = false)
    (Hreal : operation r ≠ Destroy)
    (Hcall : on_filesystem (callback rdwr r) w = (res, w'))
    (Hrun : dispatch rdwr r w =
       (match res with Ok reply => Ok (response_to reply) | Err e => Err e | Panic => Panic end, w')).

Lemma dispatch_cases rdwr r w : dispatched rdwr r w.
Proof.
  destruct w as [d se fs clk t]. destruct (dispatch rdwr r (mkWorld d se fs clk t)) as [res w'] eqn:Hd.
  pose proof Hd as Hrun. revert Hrun. unfold dispatch. unfold mbind at 1, M_bind at 1.
  cbn [with_mem w_mem set_mem w_db w_faults w_clock w_tick].
  destruct (acl_denies _ _ && _).
  { intros [= <- <-]. eapply (answered_by_session _ _ _ _ se); [exact Hd|done|..]; cbn; auto.
    all: by destruct (operation r). }
  destruct (operation r) eqn:Hop; cbv beta iota.
  1: destruct (version_lt _ _).
  1: { intros [= <- <-]. eapply (answered_by_session _ _ _ _ se); [exact Hd|done|..]; rewrite ?Hop; cbn; auto; done. }
  1: { intros [= <- <-]. eapply answered_by_session; [exact Hd|done|..]; rewrite ?Hop; cbn; try done.
       intros _. right. by repeat eexists. }
  all: destruct (initialized se) eqn:Hi; cbn [negb];
    [|intros [= <- <-]; eapply (answered_by_session _ _ _ _ se); [exact Hd|done|..]; rewrite ?Hop; cbn; auto; done].
  1: { intros [= <- <-]. eapply answered_by_session; [exact Hd|done|..]; rewrite ?Hop; cbn; auto; done. }
  all: destruct (destroyed se) eqn:Hde;
    [intros [= <- <-]; eapply (answered_by_session _ _ _ _ se); [exact Hd|done|..]; rewrite ?Hop; cbn; auto; done|].
  all: unfold mbind, M_bind; destruct (on_filesystem _ _) as [res0 w0] eqn:Hcall; intros Heq;
    eapply (answered_by_filesystem _ _ _ res0 w0); [done|congruence|exact Hcall|];
    rewrite Hd; by destruct res0 as [[]| |]; injection Heq as <- <-.
Qed.

Lemma on_filesystem_run {A} (m : Cb A) (w w' : World D Sess) res :
  on_filesystem m w = (res, w') →
  ∃ w0 w1, m w0 = (res, w1) ∧ w_db w0 = w_db w ∧ w_mem w0 = filesystem (w_mem w) ∧
    w_db w' = w_db w1 ∧ filesystem (w_mem w') = w_mem w1 ∧
    initialized (w_mem w') = initialized (w_mem w) ∧ destroyed (w_mem w') = destroyed (w_mem w) ∧
    allowed (w_mem w') = allowed (w_mem w) ∧ session_owner (w_mem w') = session_owner (w_mem w).
Proof.
  unfold on_filesystem. destruct w as [d se fs clk t]. cbn [w_mem w_db w_faults w_clock w_tick].
  destruct (m _) as [r w1] eqn:Hm. intros [= <- <-]. by eexists _, w1.
Qed.

(** One request, seen by the table of open files. *)
Lemma dispatch_tables rdwr r w res w' : dispatch rdwr r w = (res, w') →
  let m := filesystem (w_mem w) in
  let m' := filesystem (w_mem w') in
  match res with
  | Ok response =>
      (∃ fh, operation r = Release fh ∧ response = Replied ROk ∧
         tables m' = (delete fh (open_files m), next_fh m)) ∨
      ((∀ fh, operation r = Release fh → response ≠ Replied ROk) ∧
       opened (operation r, response) = [] ∧ tables m' = tables m) ∨
      (∃ f, opened (operation r, response) = [next_fh m] ∧
         (∀ fh, operation r ≠ Release fh) ∧
         tables m' = (<[next_fh m := f]> (open_files m), as_u64 (next_fh m + 1)))
  | _ => tables m' = tables m
  end.
Proof.
  intros Hd. cbv zeta. destruct (dispatch_cases rdwr r w) as
    [response se Hrun Hfs _ Hopened Hrel _ _ _|res0 w0 _ _ Hcall Hrun].
  - rewrite Hd in Hrun. injection Hrun as -> ->. right. left. unfold tables. cbn. by rewrite Hfs.
  - rewrite Hd in Hrun. injection Hrun as -> ->.
    destruct (on_filesystem_run _ _ _ _ Hcall) as (v & v' & Hv & _ & Hm & _ & Hm' & _).
    pose proof (callback_tables rdwr r v) as Ht. rewrite Hv, Hm in Ht. cbn [fst snd] in Ht.
    rewrite Hm'. destruct (operation r) eqn:Hop; cbn [tables_after] in Ht.
    all: try (destruct res0 as [[reply|]|e|]; cbn [opened_as response_to] in Ht |- *; [| |exact Ht..];
      [destruct reply; try (right; left; split_and!; [done..|exact Ht])|right; left; by split_and!];
      destruct Ht as [-> [f Ht]]; right; right; by exists f).
    assert (res0 = Ok (Some ROk)) as ->.
    { unfold callback, answer in Hv. rewrite Hop in Hv. destruct v as [? []]. by injection Hv as <- <-. }
    left. by exists fh.
Qed.

(** Handles are given out in order, as long as the counter does not wrap around. *)
Definition fresh_handles (m : Fuse) : Prop :=
  0 <= next_fh m ∧ ∀ fh, fh ∈ dom (open_files m) → fh < next_fh m.

Lemma live_other s op response :
  opened (op, response) = [] → (∀ fh, op = Release fh → response ≠ Replied ROk) →
  live s (op, response) = s.
Proof.
  unfold live. intros -> Hrel. destruct op; try set_solver.
  destruct response as [[]| |]; set_solver.
Qed.

Lemma dispatch_live rdwr r w res w' : dispatch rdwr r w = (res, w') →
  let m := filesystem (w_mem w) in
  let m' := filesystem (w_mem w') in
  fresh_handles m → next_fh m + 1 < 2 ^ 64 →
  fresh_handles m' ∧ next_fh m <= next_fh m' <= next_fh m + 1 ∧
  (∀ fh f, operation r ≠ Release fh → open_files m !! fh = Some f → open_files m' !! fh = Some f) ∧
  match res with
  | Ok response =>
      dom (open_files m') = live (dom (open_files m)) (operation r, response) ∧
      (opened (operation r, response) = [] ∨
       opened (operation r, response) = [next_fh m] ∧ next_fh m' = next_fh m + 1)
  | _ => dom (open_files m') = dom (open_files m)
  end.
Proof.
  intros Hd m m' [Hpos Hfresh] Hmax. pose proof (dispatch_tables _ _ _ _ _ Hd) as Ht. cbv zeta in Ht.
  fold m m' in Ht. clearbody m m'.
  assert (Hsame : tables m' = tables m → open_files m' = open_files m ∧ next_fh m' = next_fh m)
    by (intros Heq; by injection Heq).
  unfold fresh_handles.
  destruct res as [response|e|];
    [|by apply Hsame in Ht as [-> ->]; split_and!; [done..|lia|lia|auto|]..].
  destruct Ht as [(fh & Hop & -> & Ht)|[(Hrel & Ho & Ht)|(f & Ho & Hrel & Ht)]].
  - injection Ht as -> ->. rewrite Hop. split_and!; [done|..|lia|lia| | |by left].
    + intros fh'. rewrite dom_delete. intros Hin. apply Hfresh. set_solver.
    + intros fh' f Hne Hf. rewrite lookup_delete_ne by congruence. done.
    + cbn [live]. by rewrite dom_delete_L.
  - apply Hsame in Ht as [-> ->]. split_and!; [done..|lia|lia|auto| |by left].
    by rewrite live_other.
  - injection Ht as Hfiles Hnext. unfold as_u64 in Hnext. rewrite Z.mod_small in Hnext by lia.
    rewrite Hfiles, Hnext. split_and!; [lia|..|lia|lia| | |by right].
    + intros fh. rewrite dom_insert. intros Hin.
      apply elem_of_union in Hin as [->%elem_of_singleton|Hin]; [lia|]. apply Hfresh in Hin. lia.
    + intros fh g Hne Hg. rewrite lookup_insert_ne; [done|]. intros <-.
      apply elem_of_dom_2, Hfresh in Hg. lia.
    + rewrite dom_insert_L. unfold live. rewrite Ho. cbn [list_to_set].
      destruct (operation r); set_solver.
Qed.

(** A whole session. *)
Lemma run_live rdwr rs : ∀ w trace w', run rdwr rs w = (trace, w') →
  let m := filesystem (w_mem w) in
  let m' := filesystem (w_mem w') in
  fresh_handles m → next_fh m + len rs < 2 ^ 64 →
  fresh_handles m' ∧ next_fh m <= next_fh m' <= next_fh m + len rs ∧
  (∀ fh f, fh ∉ (rs ≫= λ r, match operation r with Release fh => [fh] | _ => [] end) →
     open_files m !! fh = Some f → open_files m' !! fh = Some f) ∧
  dom (open_files m') = foldl live (dom (open_files m)) trace ∧
  NoDup (trace ≫= opened) ∧ ∀ fh, fh ∈ trace ≫= opened → next_fh m <= fh < next_fh m'.
Proof.
  induction rs as [|r rs IH]; intros w trace w' Hrun m m' Hfresh Hmax.
  - injection Hrun as <- <-. subst m m'.
    split_and!; [exact Hfresh|lia|unfold len; simpl; lia|done|done|constructor|].
    cbn. intros fh Hin. by apply elem_of_nil in Hin.
  - rewrite len_cons in Hmax. pose proof (len_nonneg rs) as Hlen. cbn [run] in Hrun.
    destruct (dispatch rdwr r w) as [res w1] eqn:Hd.
    destruct (dispatch_live _ _ _ _ _ Hd Hfresh ltac:(fold m; lia)) as (Hf1 & Hn1 & Hkeep1 & Hdom1).
    set (m1 := filesystem (w_mem w1)) in *. fold m in Hn1, Hkeep1, Hdom1.
    destruct res as [response|e|].
    2, 3: (injection Hrun as <- <-; fold m1 in m'; subst m'; rewrite len_cons;
      split_and!; [by apply Hf1..|lia|lia| |exact Hdom1|constructor|];
      [intros fh f Hnot; apply Hkeep1; cbn in Hnot; intros Heq; rewrite Heq in Hnot; set_solver|
       cbn; intros fh Hin; by apply elem_of_nil in Hin]).
    destruct (run rdwr rs w1) as [trace1 w2] eqn:Hr. injection Hrun as <- <-.
    destruct (IH _ _ _ Hr Hf1 ltac:(fold m1; lia)) as (Hf2 & Hn2 & Hkeep2 & Hdom2 & Hnd & Hin).
    fold m1 m' in Hf2, Hn2, Hkeep2, Hdom2, Hin. destruct Hdom1 as [Hdom1 Hopened].
    rewrite len_cons. split_and!; [by apply Hf2..|lia|lia| | | |].
    + intros fh f Hnot Hf. cbn in Hnot. apply not_elem_of_app in Hnot as [Hnot1 Hnot2].
      apply Hkeep2; [done|]. apply Hkeep1; [|done]. intros Heq. rewrite Heq in Hnot1. set_solver.
    + cbn [foldl]. by rewrite <-Hdom1.
    + cbn [mbind list_bind]. apply NoDup_app. split_and!; [|..|done];
        destruct Hopened as [->|[-> Hnext]]; [constructor|apply NoDup_singleton|..].
      * intros x Hx. by apply elem_of_nil in Hx.
      * intros x ->%list_elem_of_singleton Hx%Hin. lia.
    + cbn [mbind list_bind]. intros fh [Hx|Hx%Hin]%elem_of_app; [|lia].
      destruct Hopened as [Ho|[Ho Hnext]]; rewrite Ho in Hx; [by apply elem_of_nil in Hx|].
      apply list_elem_of_singleton in Hx as ->. lia.
Qed.

(** The handle that a request works through. *)
Definition through (op : Operation) : option Z :=
  match op with
  | Read fh _ _ | Write fh _ _ | Flush fh | FSync fh => Some fh
  | _ => None
  end.

Lemma dispatch_unknown rdwr r (w : World D Sess) fh :
  through (operation r) = Some fh → open_files (filesystem (w_mem w)) !! fh = None →
  ∃ e, dispatch rdwr r w = (Ok (Replied (RError e)), w) ∧ (e = EACCES ∨ e = EIO ∨ e = EBADF).
Proof.
  intros Hop Hnone. destruct w as [d [m al ow pa pi i de] fs clk t].
  destruct m as [c files next inv]. cbn [w_mem filesystem open_files] in Hnone.
  unfold dispatch. unfold mbind at 1, M_bind at 1.
  cbn [with_mem w_mem set_mem w_db w_faults w_clock w_tick].
  destruct (acl_denies _ _ && _); [eexists; split; [done|by left]|].
  assert (∀ k : SdkFs.File → Cb Reply, answer (with_file fh k) (mkWorld d (mkFuse c files next inv) fs clk t)
    = (Ok (Some (RError EBADF)), mkWorld d (mkFuse c files next inv) fs clk t)) as Hbad.
  { intros k. unfold answer, with_file, get_file, with_mem, mbind, M_bind. cbn [w_mem open_files].
    by rewrite Hnone. }
  destruct (operation r) eqn:Hr; try discriminate Hop; injection Hop as ->;
    (destruct i; cbn [initialized negb]; [|eexists; split; [done|by right; left]]);
    (destruct de; cbn [destroyed]; [eexists; split; [done|by right; left]|]);
    exists EBADF; (split; [|by right; right]);
    unfold on_filesystem, callback, mbind, M_bind; rewrite Hr; cbn [w_db w_mem filesystem w_faults w_clock w_tick];
    unfold read, write, flush, fsync; by rewrite Hbad.
Qed.

(** ** When a session reaches its filesystem *)

Definition untouched (w w' : World D Sess) : Prop :=
  w_db w' = w_db w ∧ filesystem (w_mem w') = filesystem (w_mem w).

Lemma dispatch_kept rdwr r w res w' : dispatch rdwr r w = (res, w') →
  allowed (w_mem w') = allowed (w_mem w) ∧ session_owner (w_mem w') = session_owner (w_mem w) ∧
  (destroyed (w_mem w) = true → destroyed (w_mem w') = true) ∧
  (operation r = Destroy → res = Ok (Replied ROk) → destroyed (w_mem w') = true).
Proof.
  intros Hd. destruct (dispatch_cases rdwr r w) as [response se Hrun Hfs [Ha Ho] _ _ _ Hde Hdy|
    res0 w0 [_ Hnd] Hop Hcall Hrun]; rewrite Hd in Hrun.
  - injection Hrun as -> ->. cbn. split_and!; [done..|]. intros Hop [= ->]. auto.
  - injection Hrun as -> ->. destruct (on_filesystem_run _ _ _ _ Hcall)
      as (v & v' & _ & _ & _ & _ & _ & _ & Hde & -> & ->). split_and!; [done..|congruence|done].
Qed.

Lemma dispatch_closed rdwr r w res w' : dispatch rdwr r w = (res, w') →
  initialized (w_mem w) = false ∨ destroyed (w_mem w) = true → untouched w w'.
Proof.
  intros Hd Hclosed. destruct (dispatch_cases rdwr r w) as [response se Hrun Hfs|
    res0 w0 [Hi Hde] _ Hcall Hrun]; rewrite Hd in Hrun; [|destruct Hclosed; congruence].
  by injection Hrun as -> ->.
Qed.

Definition denied (se : Sess) (r : Request) : bool :=
  acl_denies se (r_uid r) && negb (without_uid (operation r)).

Lemma dispatch_denied rdwr r w : denied (w_mem w) r = true →
  dispatch rdwr r w = (Ok (Replied (RError EACCES)), w).
Proof.
  unfold denied. intros Hden. destruct w as [d se fs clk t]. unfold dispatch.
  unfold mbind at 1, M_bind at 1. cbn [with_mem w_mem set_mem w_db w_faults w_clock w_tick].
  cbn [w_mem] in Hden. by rewrite Hden.
Qed.

Lemma untouched_trans w1 w2 w3 : untouched w1 w2 → untouched w2 w3 → untouched w1 w3.
Proof. intros [? ?] [? ?]. split; congruence. Qed.

(** What a session goes through keeps what each of its requests keeps. *)
Lemma run_invariant rdwr (P : World D Sess → Prop) (ok : Request → Outcome Response → Prop) rs :
  (∀ r w res w', dispatch rdwr r w = (res, w') → P w → ok r res → P w' ∧ untouched w w') →
  ∀ w trace w', run rdwr rs w = (trace, w') → P w →
  (∀ r res, r ∈ rs → (∀ response, res = Ok response → (operation r, response) ∈ trace) → ok r res) →
  P w' ∧ untouched w w'.
Proof.
  intros Hstep. induction rs as [|r rs IH]; intros w trace w' Hrun HP Hok.
  { by injection Hrun as <- <-. }
  cbn [run] in Hrun. destruct (dispatch rdwr r w) as [res w1] eqn:Hd.
  assert (Hr : ok r res → P w1 ∧ untouched w w1) by (intros H; by apply (Hstep _ _ _ _ Hd)).
  destruct res as [response|e|].
  - destruct (run rdwr rs w1) as [trace1 w2] eqn:Hr1. injection Hrun as <- <-.
    destruct Hr as [HP1 Hu]. { apply Hok; [left|]. intros ? [= ->]. left. }
    destruct (IH _ _ _ Hr1 HP1) as [HP2 Hu2].
    { intros r' res' Hin Hres. apply Hok; [by right|]. intros ? ->. right. by apply Hres. }
    split; [done|]. by apply untouched_trans with w1.
  - injection Hrun as <- <-. apply Hr, Hok; [left|done].
  - injection Hrun as <- <-. apply Hr, Hok; [left|done].
Qed.

Lemma run_destroyed rdwr rs w trace w' : run rdwr rs w = (trace, w') →
  destroyed (w_mem w) = true → untouched w w'.
Proof.
  intros Hrun Hde.
  apply (run_invariant rdwr (λ w, destroyed (w_mem w) = true) (λ _ _, True) rs) with trace; [|exact Hrun|exact Hde|done].
  intros r v res v' Hd Hv _. split; [|apply (dispatch_closed _ _ _ _ _ Hd); by right].
  destruct (dispatch_kept _ _ _ _ _ Hd) as (_ & _ & Hk & _). auto.
Qed.

Definition init_reply_in (trace : list (Operation * Response)) : Prop :=
  ∃ op a b c d e f g, (op, InitReply a b c d e f g) ∈ trace.

Lemma run_uninitialized rdwr rs w trace w' : run rdwr rs w = (trace, w') →
  initialized (w_mem w) = false → ¬ init_reply_in trace → untouched w w'.
Proof.
  intros Hrun Hi Hno.
  apply (run_invariant rdwr (λ w, initialized (w_mem w) = false)
    (λ r res, ∀ response, res = Ok response → (operation r, response) ∈ trace) rs) with trace;
    [|exact Hrun|exact Hi|auto].
  intros r v res v' Hd Hv Hin. split; [|apply (dispatch_closed _ _ _ _ _ Hd); by left].
  destruct (dispatch_cases rdwr r v) as [response se Hrun' _ _ _ _ Hinit _ _|? ? [? _]]; [|congruence].
  rewrite Hd in Hrun'. injection Hrun' as -> ->. cbn. apply not_true_is_false. intros Ht.
  destruct (Hinit Ht) as [|(a & b & c & d & e & f & g & ->)]; [congruence|].
  apply Hno. eexists _, _, _, _, _, _, _, _. by apply Hin.
Qed.

Lemma run_destroy rdwr rs : ∀ w trace w', run rdwr rs w = (trace, w') →
  (Destroy, Replied ROk) ∈ trace ∨ destroyed (w_mem w) = true → destroyed (w_mem w') = true.
Proof.
  induction rs as [|r rs IH]; intros w trace w' Hrun Hor.
  { injection Hrun as <- <-. destruct Hor as [Hin|]; [by apply elem_of_nil in Hin|done]. }
  cbn [run] in Hrun. destruct (dispatch rdwr r w) as [res w1] eqn:Hd.
  destruct (dispatch_kept _ _ _ _ _ Hd) as (_ & _ & Hk & Hdy).
  destruct res as [response|e|].
  - destruct (run rdwr rs w1) as [trace1 w2] eqn:Hr1. injection Hrun as <- <-.
    apply (IH _ _ _ Hr1). destruct Hor as [Hin|]; [|auto].
    apply elem_of_cons in Hin as [[= Hop Hres]|]; [right|by left].
    apply Hdy; [done|by rewrite <-Hres].
  - injection Hrun as <- <-. destruct Hor as [Hin|]; [by apply elem_of_nil in Hin|auto].
  - injection Hrun as <- <-. destruct Hor as [Hin|]; [by apply elem_of_nil in Hin|auto].
Qed.

Lemma run_kept rdwr rs : ∀ w trace w', run rdwr rs w = (trace, w') →
  allowed (w_mem w') = allowed (w_mem w) ∧ session_owner (w_mem w') = session_owner (w_mem w).
Proof.
  induction rs as [|r rs IH]; intros w trace w' Hrun; [by injection Hrun as <- <-|].
  cbn [run] in Hrun. destruct (dispatch rdwr r w) as [res w1] eqn:Hd.
  destruct (dispatch_kept _ _ _ _ _ Hd) as (Ha & Ho & _).
  destruct res as [response|e|]; [|by injection Hrun as <- <-..].
  destruct (run rdwr rs w1) as [trace1 w2] eqn:Hr1. injection Hrun as <- <-.
  destruct (IH _ _ _ Hr1) as [-> ->]. done.
Qed.

Lemma run_denied rdwr rs : ∀ w trace w', run rdwr rs w = (trace, w') →
  Forall (λ r, denied (w_mem w) r = true) rs →
  w' = w ∧ trace = (λ r, (operation r, Replied (RError EACCES))) <$> rs.
Proof.
  induction rs as [|r rs IH]; intros w trace w' Hrun Hall; [by injection Hrun as <- <-|].
  apply Forall_cons in Hall as [Hr Hall]. cbn [run] in Hrun. rewrite dispatch_denied in Hrun by done.
  destruct (run rdwr rs w) as [trace1 w2] eqn:Hr1. injection Hrun as <- <-.
  by destruct (IH _ _ _ Hr1 Hall) as [-> ->].
Qed.

(** * Properties *)


End Handles.
