(* ===== verification/FuseFiles.v ===== *)
(** * FuseFiles: open files and directories of an AgentFS over FUSE

    An open file as the kernel uses it: reads and writes of the bytes of the file, whatever
    fails.  A directory as the kernel lists it: page by page, from where the last page ended.
    The attributes and statistics that are reported, and when reporting them panics. *)
From S2P Require Import Prelude Types Engine Lru Schema FileIO FileIOSpec AgentFS AgentFSInv.
From S2P Require Import AgentFSOps AgentFSProps NfsAdapter Fuse.

(** ** What an operation uses up

    Operations consume the schedule of failures and do not set the clock. *)

Class Consumes {D C A} (m : M D C A) :=
  consumes w : w_faults (m w).2 `suffix_of` w_faults w ∧ w_clock (m w).2 = w_clock w.
#[global] Hint Mode Consumes + + + ! : typeclass_instances.

Section Consumes.
Context {D C : Type}.

#[export] Instance ret_consumes {A} (a : A) : Consumes (mret (M := M D C) a).
Proof. by intros w. Qed.
#[export] Instance throw_consumes {A} e : Consumes (throw (D:=D) (C:=C) (A:=A) e).
Proof. by intros w. Qed.
#[export] Instance or_panic_consumes {A} (o : option A) : Consumes (or_panic (D:=D) (C:=C) o).
Proof. intros w. by destruct o. Qed.
#[export] Instance div_consumes a b : Consumes (udiv (D:=D) (C:=C) a b).
Proof. apply _. Qed.
#[export] Instance rem_consumes a b : Consumes (urem (D:=D) (C:=C) a b).
Proof. apply _. Qed.
#[export] Instance engine_call_consumes : Consumes (engine_call (D:=D) (C:=C)).
Proof. intros [d c [|[e|] fs] clk t]; cbn; split; try done; by eexists [_]. Qed.
#[export] Instance bind_consumes {A B} (m : M D C A) (f : A → M D C B) :
  Consumes m → (∀ a, Consumes (f a)) → Consumes (m ≫= f).
Proof.
  intros Hm Hf w. specialize (Hm w). unfold mbind, M_bind.
  destruct (m w) as [[a|e|] w1]; simpl in *; [|done..].
  destruct (Hf a w1) as [Hs Hc], Hm as [Hs1 Hc1]. split; [by trans (w_faults w1)|congruence].
Qed.
#[export] Instance query_consumes {A} (f : D → A) : Consumes (query (C:=C) f).
Proof. unfold query. apply bind_consumes; [apply _|]. by intros _ w. Qed.
#[export] Instance query_row_consumes {A} (f : D → option (A * D)) : Consumes (query_row (C:=C) f).
Proof.
  unfold query_row. apply bind_consumes; [apply _|]. intros _ w.
  by destruct (f (w_db w)) as [[a d]|].
Qed.
#[export] Instance update_consumes (f : D → D) : Consumes (update (C:=C) f).
Proof. unfold update, execute. apply _. Qed.
#[export] Instance now_consumes : Consumes (now (D:=D) (C:=C)).
Proof. intros w. unfold now. by destruct (w_clock w (w_tick w)). Qed.
#[export] Instance transaction_consumes {A} (m : M D C A) : Consumes m → Consumes (transaction m).
Proof.
  intros Hm w. unfold transaction. pose proof (engine_call_consumes w) as [Hs Hc].
  destruct (engine_call w) as [[u|e|] w1]; simpl in *; [|done..].
  pose proof (Hm w1) as [Hs1 Hc1].
  destruct (m w1) as [[a|e|] w2]; simpl in *; [|split; [by trans (w_faults w1)|congruence]..].
  pose proof (engine_call_consumes w2) as [Hs2 Hc2].
  destruct (engine_call w2) as [[u2|e|] w3]; simpl in *;
    (split; [by do 2 (etrans; [eassumption|])|congruence]).
Qed.
End Consumes.
#[export] Hint Extern 0 (Consumes (match ?x with _ => _ end)) => destruct x : typeclass_instances.

Section File.
Context {C : Type}.
#[export] Instance pread_consumes f off n : Consumes (pread (C:=C) f off n).
Proof. unfold pread, get_connection. apply _. Qed.
#[export] Instance write_loop_consumes fuel f off data k :
  Consumes (write_loop (C:=C) fuel f off data k).
Proof. revert k. induction fuel as [|fuel IH]; intros k; cbn [write_loop]; apply _. Qed.
#[export] Instance pwrite_consumes f off data : Consumes (pwrite (C:=C) f off data).
Proof. unfold pwrite, write_data_at_offset_with_conn, get_connection. apply _. Qed.
#[export] Instance fsync_consumes : Consumes (FileIO.fsync (C:=C)).
Proof. unfold FileIO.fsync, get_connection. apply _. Qed.
#[export] Instance fsync_stops : Stops (FileIO.fsync (C:=C)).
Proof. unfold FileIO.fsync, get_connection. apply _. Qed.
End File.

(** ** An open file *)

Section OpenFile.
Context {E : SqlEngine} {Lru : LruCache (Z * string) Z} {L : Libc} {LF : LibcFuse}.
Context (cs : Z).
#[local] Existing Instance agentfs_filesystem.
Abbreviation F := (agentfs_filesystem cs).
Abbreviation W := (World Db (Fuse (F := F))).

(** What is done with an open file, and the callbacks that do it. *)
Inductive FileOp :=
| FRead (offset size : Z)
| FWrite (offset : Z) (data : bytes)
| FFlush
| FFsync.
Definition file_call (fh : Z) (op : FileOp) : M Db (Fuse (F := F)) Reply :=
  match op with
  | FRead offset size => Fuse.read fh offset size
  | FWrite offset data => Fuse.write fh offset data
  | FFlush => Fuse.flush fh
  | FFsync => Fuse.fsync fh
  end.
Fixpoint file_calls (fh : Z) (ops : list FileOp) : M Db (Fuse (F := F)) (list Reply) :=
  match ops with
  | [] => mret []
  | op :: ops =>
      reply ← file_call fh op; replies ← file_calls fh ops; mret (reply :: replies)
  end.

(** The same on the bytes of the file: an operation has its reply and its effect, or is
    answered with the errno of a failure among [fails] and has no effect. *)
Definition file_effect (op : FileOp) (l : bytes) : Reply * bytes :=
  match op with
  | FRead offset size => (RData (FileSpec.read l offset size), l)
  | FWrite offset data =>
      (RWritten (len data), match data with [] => l | _ => FileSpec.write l offset data end)
  | FFlush | FFsync => (ROk, l)
  end.
Inductive behaves (fails : list (option Error.t)) : bytes → list FileOp → list Reply → bytes → Prop :=
| behaves_nil l : behaves fails l [] [] l
| behaves_done l op ops replies l' :
    behaves fails (file_effect op l).2 ops replies l' →
    behaves fails l (op :: ops) ((file_effect op l).1 :: replies) l'
| behaves_failed l op ops replies l' e :
    Some e ∈ fails → behaves fails l ops replies l' →
    behaves fails l (op :: ops) (RError (error_to_errno e) :: replies) l'.

(** Offsets and lengths that the kernel asks for. *)
Definition op_fits (op : FileOp) : Prop :=
  match op with
  | FRead offset size => 0 <= offset < 2 ^ 63 ∧ 0 <= size
  | FWrite offset data => 0 <= offset ∧ offset + len data < 2 ^ 63 ∧ len data < 2 ^ 32
  | _ => True
  end.

(** The handle is open for [ino]. *)
Record serving (fh ino : Z) (w : W) : Prop := {
  sv_file : open_files (w_mem w) !! fh = Some (mkFile ino cs : SdkFs.File (FileSystem := F));
  sv_row : is_Some (fs_inode (w_db w) !! ino);
  sv_chunks : chunks_ok cs (w_db w);
  sv_clock : clock_ok w
}.

Abbreviation inner w :=
  (mkWorld (w_db w) (f_fs (w_mem w)) (w_faults w) (w_clock w) (w_tick w)).
Definition outer (w : W) (v : World Db (lru (Z * string) Z)) : W :=
  mkWorld (w_db v)
    (mkFuse (w_mem v) (open_files (w_mem w)) (next_fh (w_mem w)) (invalidated (w_mem w)))
    (w_faults v) (w_clock v) (w_tick v).

Lemma with_file_run fh ino k (w : W) : serving fh ino w →
  with_file fh k w = k (mkFile ino cs) w.
Proof.
  intros [Hf _ _ _]. unfold with_file, get_file, with_mem, mbind, M_bind. destruct w as [d m fs clk t].
  cbn [w_mem] in *. rewrite Hf. done.
Qed.

Lemma respond_run {A} (m : M Db (lru (Z * string) Z) A) (k : A → M Db (Fuse (F := F)) Reply) (w : W) :
  respond m k w =
    match m (inner w) with
    | (Ok a, v) => k a (outer w v)
    | (Err e, v) => (Ok (RError (error_to_errno e)), outer w v)
    | (Panic, v) => (Panic, outer w v)
    end.
Proof.
  unfold respond, block_on, mbind, M_bind. by destruct (m (inner w)) as [[a|e|] v].
Qed.

Lemma done_or_failed {A} (m : M Db (lru (Z * string) Z) A) `{!Stops m, !Atomic m, !Consumes m}
    (k : A → M Db (Fuse (F := F)) Reply) (w : W) a v0 :
  m (set_faults [] (inner w)) = (Ok a, v0) →
  ∃ v, w_faults v `suffix_of` w_faults w ∧ w_clock v = w_clock w ∧
    ((respond m k w = k a (outer w v) ∧ w_db v = w_db v0) ∨
     (∃ e, Some e ∈ w_faults w ∧ respond m k w = (Ok (RError (error_to_errno e)), outer w v) ∧
        w_db v = w_db w)).
Proof.
  intros Hrun. pose proof (consumes (m:=m) (inner w)) as [Hs Hc].
  apply (stops_atomic m (inner w)) in Hrun. rewrite respond_run.
  destruct (m (inner w)) as [[a'|e|] v]; cbn [fst snd] in *; [| |done].
  - destruct Hrun as (-> & Hdb & _). exists v. split_and!; [done..|]. by left.
  - destruct Hrun as [He Hdb]. exists v. split_and!; [done..|]. right. by exists e.
Qed.

Lemma serving_outer fh ino (w : W) v : serving fh ino w →
  w_clock v = w_clock w → is_Some (fs_inode (w_db v) !! ino) → chunks_ok cs (w_db v) →
  serving fh ino (outer w v).
Proof.
  intros [Hf _ _ Hclk] Hc Hrow Hok. split; [done..|]. unfold clock_ok. cbn. by rewrite Hc.
Qed.

Lemma file_call_step fh ino op (w : W) : 0 < cs → serving fh ino w → op_fits op →
  ∃ reply w', file_call fh op w = (Ok reply, w') ∧ serving fh ino w' ∧
    w_faults w' `suffix_of` w_faults w ∧ only_file ino (w_db w) (w_db w') ∧
    ((reply, contents cs (w_db w') ino) = file_effect op (contents cs (w_db w) ino) ∨
     ∃ e, Some e ∈ w_faults w ∧ reply = RError (error_to_errno e) ∧
       contents cs (w_db w') ino = contents cs (w_db w) ino).
Proof.
  intros Hcs Hsv Hfits. pose proof Hsv as [Hf [row Hrow] Hok [clk Hclk]].
  (** an operation that leaves the tables as they are *)
  assert (Hsame : ∀ A (m : M Db (lru (Z * string) Z) A) k a v0,
    Stops m → Atomic m → Consumes m → m (set_faults [] (inner w)) = (Ok a, v0) → w_db v0 = w_db w →
    (∀ v, k a (outer w v) = (Ok (file_effect op (contents cs (w_db w) ino)).1, outer w v)) →
    (file_effect op (contents cs (w_db w) ino)).2 = contents cs (w_db w) ino →
    ∃ reply w', respond m k w = (Ok reply, w') ∧ serving fh ino w' ∧
    w_faults w' `suffix_of` w_faults w ∧ only_file ino (w_db w) (w_db w') ∧
    ((reply, contents cs (w_db w') ino) = file_effect op (contents cs (w_db w) ino) ∨
     ∃ e, Some e ∈ w_faults w ∧ reply = RError (error_to_errno e) ∧
       contents cs (w_db w') ino = contents cs (w_db w) ino)).
  { intros A m k a v0 ? ? ? Hrun Hdb0 Hk Heff.
    destruct (done_or_failed m k w a v0 Hrun) as (v & Hs & Hc & [[Hr Hdb]|(e & He & Hr & Hdb)]).
    - rewrite Hdb0 in Hdb. eexists _, (outer w v). rewrite Hr, Hk.
      split_and!; [done|by apply serving_outer; rewrite ?Hdb|done|cbn; rewrite Hdb; apply only_file_refl|].
      left. cbn. rewrite Hdb. destruct (file_effect _ _) as [r l']. cbn in *. by rewrite Heff.
    - eexists _, (outer w v). split_and!; [done|by apply serving_outer; rewrite ?Hdb|done|
        cbn; rewrite Hdb; apply only_file_refl|]. right. exists e. cbn. by rewrite Hdb. }
  destruct op as [off size|off data| |]; cbn [file_call op_fits] in *;
    unfold read, write, flush, fsync; rewrite (with_file_run _ ino) by done.
  - destruct Hfits as [Hoff Hsize]. rewrite as_u64_id by (unfold in_u64; lia).
    pose proof (pread_run cs ino off size (set_faults [] (inner w)) Hcs Hok eq_refl
      (proj1 Hoff) Hsize) as Hrun.
    exact (Hsame _ (FileIO.pread (mkFile ino cs) off size) (λ data, mret (RData data) : M Db (Fuse (F := F)) Reply) _ _
      _ _ _ Hrun eq_refl (λ v, eq_refl) eq_refl).
  - destruct Hfits as (Hoff & Hmax & Hlen). pose proof (len_nonneg data).
    rewrite as_u64_id by (unfold in_u64; lia).
    destruct (pwrite_run cs ino off data row (set_faults [] (inner w)))
      as (v0 & Hrun & _ & Hof & Hok' & _ & Hlinks & Hcont); [done|exact Hok|by split; [|exists clk]|done..|].
    destruct (done_or_failed (FileIO.pwrite (mkFile ino cs) off data)
      (λ _, mret (RWritten (as_u32 (len data)))) w tt v0 Hrun)
      as (v & Hs & Hc & [[Hr Hdb]|(e & He & Hr & Hdb)]).
    + eexists _, (outer w v). split_and!; [exact Hr| |done|cbn; by rewrite Hdb|].
      * destruct Hlinks as (row' & Hrow' & _). apply serving_outer; rewrite ?Hdb; try done.
      * left. cbn [file_effect]. rewrite as_u32_id by (unfold in_u32; lia). f_equal.
        cbn [outer w_db]. rewrite Hdb. exact Hcont.
    + eexists _, (outer w v). split_and!; [exact Hr|by apply serving_outer; rewrite ?Hdb|done|
        cbn; rewrite Hdb; apply only_file_refl|]. right. exists e. cbn. by rewrite Hdb.
  - eexists _, w. split_and!; [done..|apply only_file_refl|by left].
  - exact (Hsame _ FileIO.fsync (λ _, mret ROk : M Db (Fuse (F := F)) Reply) tt (set_faults [] (inner w))
      _ _ _ eq_refl eq_refl (λ v, eq_refl) eq_refl).
Qed.

(** C30: an open file over FUSE.  Whatever sequence of reads, writes, flushes and fsyncs
    arrives through a handle, and wherever the engine fails, every one is answered: with what
    the same operation on the bytes of the file returns, and then has its effect, or with the
    errno of a failure of the engine, and then has none.  The file stays open, its tables
    well-formed, and no other file changes. *)
Theorem fuse_file_session fh ino ops (w : W) : 0 < cs → serving fh ino w → Forall op_fits ops →
  ∃ replies w', file_calls fh ops w = (Ok replies, w') ∧ serving fh ino w' ∧
    only_file ino (w_db w) (w_db w') ∧
    behaves (w_faults w) (contents cs (w_db w) ino) ops replies (contents cs (w_db w') ino).
Proof.
  intros Hcs. revert w. induction ops as [|op ops IH]; intros w Hsv Hall.
  { exists [], w. split_and!; [done..|apply only_file_refl|constructor]. }
  apply Forall_cons in Hall as [Hfits Hall].
  destruct (file_call_step fh ino op w Hcs Hsv Hfits) as (reply & w1 & Hr & Hsv1 & Hsuf & Hof & Hstep).
  destruct (IH w1 Hsv1 Hall) as (replies & w2 & Hrs & Hsv2 & Hof2 & Hb).
  exists (reply :: replies), w2. split_and!; [|done|by apply only_file_trans with (w_db w1)|].
  { cbn [file_calls]. unfold mbind, M_bind. by rewrite Hr, Hrs. }
  assert (Hb' : behaves (w_faults w) (contents cs (w_db w1) ino) ops replies (contents cs (w_db w2) ino)).
  { destruct Hsuf as [pre Hpre]. clear -Hb Hpre. induction Hb; [constructor|by constructor|].
    constructor; [|done]. rewrite Hpre. apply elem_of_app. by right. }
  destruct Hstep as [Heq|(e & He & -> & Hc)].
  - pose proof (behaves_done (w_faults w) (contents cs (w_db w) ino) op) as Hd.
    rewrite <-Heq in Hd. by apply Hd.
  - rewrite Hc in Hb'. by constructor.
Qed.
End OpenFile.

(** ** Listing a directory page by page *)

(** The entries of a listing with the offsets that follow them. *)
Fixpoint numbered (i : Z) (l : list (Z * FileType.t * string)) : list Dirent :=
  match l with
  | [] => []
  | (ino, kind, name) :: l => mkDirent ino (i + 1) kind name :: numbered (i + 1) l
  end.

(** Every entry fits a page of its own. *)
Definition page_fits (max_size : Z) (l : list (Z * FileType.t * string)) : Prop :=
  Forall (λ e, entsize DIRENT_SIZE e.2 <= max_size) l.

Lemma numbered_length i l : length (numbered i l) = length l.
Proof. revert i. induction l as [|[[ino kind] name] l IH]; intros i; simpl; [done|]. by rewrite IH. Qed.

Lemma numbered_drop i n l : numbered (i + Z.of_nat n) (drop n l) = drop n (numbered i l).
Proof.
  revert i l. induction n as [|n IH]; intros i l; [by rewrite Z.add_0_r|].
  destruct l as [|[[ino kind] name] l]; [done|]. cbn [drop numbered]. rewrite <-IH. f_equal. lia.
Qed.

Lemma numbered_off i l n e : numbered i l !! n = Some e → d_off e = i + Z.of_nat n + 1.
Proof.
  revert i n. induction l as [|[[ino kind] name] l IH]; intros i n; [done|].
  destruct n as [|n]; cbn; [intros [= <-]; cbn; lia|]. intros H%IH. lia.
Qed.

Lemma fill_prefix max used i l :
  ∃ n, (n <= length l)%nat ∧ fill max used i l = take n (numbered i l) ∧
    (used = 0 → page_fits max l → l ≠ [] → (0 < n)%nat).
Proof.
  revert used i. induction l as [|[[ino kind] name] l IH]; intros used i; [by exists 0%nat|].
  cbn [fill]. destruct (push max DIRENT_SIZE name used) as [used'|] eqn:Hp.
  - destruct (IH used' (i + 1)) as (n & Hn & -> & _). exists (S n). simpl. split_and!; [lia|done|lia].
  - exists 0%nat. split_and!; [lia|done|]. intros -> Hfit _. apply Forall_cons in Hfit as [Hfit _].
    revert Hp. unfold push. cbn in Hfit. case_bool; [lia|done].
Qed.

Section Listing.
Context {D C : Type} {F : SdkFs.FileSystem D C} {L : Libc} {LF : LibcFuse}.

(** How the kernel lists: it asks for the next page after the last entry of the previous one,
    until a page is empty.  [None]: an error. *)
Fixpoint list_dir (rounds : nat) (ino max_size offset : Z) (seen : list Dirent) :
    M D (Fuse (F := F)) (option (list Dirent)) :=
  match rounds with
  | O => mret None
  | S rounds =>
      reply ← Fuse.readdir ino offset max_size;
      match reply with
      | RDirectory entries =>
          match last entries with
          | None => mret (Some seen)
          | Some e => list_dir rounds ino max_size (d_off e) (seen ++ entries)
          end
      | _ => mret None
      end
  end.

Lemma readdir_run ino offset max_size (w : World D (Fuse (F := F))) entries :
  let v := mkWorld (w_db w) (f_fs (w_mem w)) (w_faults w) (w_clock w) (w_tick w) in
  SdkFs.readdir_plus (as_i64 ino) v = (Ok (Some entries), v) →
  Fuse.readdir ino offset max_size w =
    (Ok (RDirectory (fill max_size 0 (as_u64 offset)
       (drop (Z.to_nat (as_u64 offset)) (all_entries ino entries)))), w).
Proof.
  intros v Hrun. unfold readdir, respond, block_on, mbind, M_bind. fold v. rewrite Hrun.
  by destruct w as [d [] fs clk t].
Qed.

Lemma list_dir_run ino max_size (w : World D (Fuse (F := F))) entries :
  let v := mkWorld (w_db w) (f_fs (w_mem w)) (w_faults w) (w_clock w) (w_tick w) in
  let all := numbered 0 (all_entries ino entries) in
  SdkFs.readdir_plus (as_i64 ino) v = (Ok (Some entries), v) →
  page_fits max_size (all_entries ino entries) → len (all_entries ino entries) < 2 ^ 63 →
  ∀ rounds n, (n <= length all)%nat → (length all - n < rounds)%nat →
  list_dir rounds ino max_size (Z.of_nat n) (take n all) w = (Ok (Some all), w).
Proof.
  intros v all Hrun Hfit Hmax. pose proof (numbered_length 0 (all_entries ino entries)) as Hlen.
  fold all in Hlen. unfold len in Hmax.
  induction rounds as [|rounds IH]; intros n Hn Hrounds; [lia|]. cbn [list_dir].
  unfold mbind at 1, M_bind at 1. rewrite (readdir_run _ _ _ _ _ Hrun), as_u64_id, Nat2Z.id
    by (unfold in_u64; lia).
  destruct (fill_prefix max_size 0 (Z.of_nat n) (drop n (all_entries ino entries)))
    as (k & Hk & -> & Hpos). rewrite length_drop in Hk.
  rewrite <-(Z.add_0_l (Z.of_nat n)), numbered_drop. fold all.
  destruct (decide (n = length all)) as [->|Hne].
  { rewrite drop_ge, take_nil by lia. cbn. rewrite take_ge by lia. done. }
  assert (0 < k)%nat.
  { apply Hpos; [done|by apply Forall_drop|]. intros Hd%(f_equal length). rewrite length_drop in Hd.
    change (length []) with 0%nat in Hd. lia. }
  assert (Hlast : last (take k (drop n all)) = all !! (n + k - 1)%nat).
  { rewrite last_lookup, length_take, length_drop, lookup_take_lt, lookup_drop by lia. f_equal. lia. }
  rewrite Hlast. destruct (all !! (n + k - 1)%nat) as [e|] eqn:He;
    [|apply lookup_ge_None in He; lia].
  apply numbered_off in He as ->. rewrite take_take_drop.
  replace (0 + Z.of_nat (n + k - 1) + 1) with (Z.of_nat (n + k)) by lia. apply IH; lia.
Qed.
End Listing.

Section AgentListing.
Context {E : SqlEngine} {Lru : LruCache (Z * string) Z} {L : Libc} {LF : LibcFuse}.
Context (cs : Z).
Abbreviation F := (agentfs_filesystem cs).

(** The inode of an entry, as the tables have it. *)
Definition listed (d : Db) (ino : Z) (e : Dirent) : Prop :=
  ∃ c row, fs_dentry d !! (ino, d_name e) = Some c ∧ fs_inode d !! c = Some row ∧
    d_ino e = as_u64 c ∧ d_kind e = entry_kind (build_stats_from_row c row).

Lemma names_length (d : Db) ino names : NoDup names →
  (∀ n : string, n ∈ names → is_Some (fs_dentry d !! (ino, n))) →
  (length names <= size (fs_dentry d))%nat.
Proof.
  intros Hnd Hin. rewrite <-(length_fmap (pair ino) names).
  rewrite <-(size_list_to_set (C := gset (Z * string))) by (apply NoDup_fmap_2; [apply _|done]).
  rewrite <-size_dom. apply subseteq_size. intros x (n & -> & Hn)%elem_of_list_to_set%list_elem_of_fmap.
  by apply elem_of_dom, Hin.
Qed.

Lemma numbered_names i l : d_name <$> numbered i l = snd <$> l.
Proof. revert i. induction l as [|[[ino kind] name] l IH]; intros i; cbn; [done|]. by rewrite IH. Qed.

Lemma numbered_elem i l e : e ∈ numbered i l → (d_ino e, d_kind e, d_name e) ∈ l.
Proof.
  revert i. induction l as [|[[ino kind] name] l IH]; intros i; cbn; [by intros ?%elem_of_nil|].
  intros [-> |He]%elem_of_cons; [left|right; by apply (IH (i + 1))].
Qed.

(** C31: listing a directory over FUSE ends and is complete.  The kernel asks page by page, with
    a buffer that every entry fits alone, from where the last page ended; after at most as many
    rounds as there are entries, and one, it has exactly [.], [..] and the entries of the
    directory, each once, in order, with their inodes. *)
Theorem fuse_listing ino max_size (w : World Db (Fuse (F := F))) :
  fs_wf cs (w_db w) → faultless w → is_dir (w_db w) ino → in_i64 ino →
  32 <= max_size → (∀ n c, fs_dentry (w_db w) !! (ino, n) = Some c → entsize DIRENT_SIZE n <= max_size) →
  Z.of_nat (size (fs_dentry (w_db w))) + 2 < 2 ^ 63 →
  ∃ names listing,
    (∀ rounds, (length names + 3 <= rounds)%nat →
     list_dir rounds ino max_size 0 [] w = (Ok (Some listing), w)) ∧
    d_name <$> listing = "." :: ".." :: names ∧ NoDup names ∧
    (∀ n, n ∈ names ↔ n ≠ "" ∧ is_Some (fs_dentry (w_db w) !! (ino, n))) ∧
    Forall (listed (w_db w) ino) (drop 2 listing).
Proof.
  intros Hwf Hf Hdir Hino Hmax Hfit Hsize.
  set (v := mkWorld (w_db w) (f_fs (w_mem w)) (w_faults w) (w_clock w) (w_tick w)).
  destruct (readdir_lists cs ino v Hwf Hf Hdir)
    as (names & es & _ & Hes & Hnd & _ & Hin & Hnames & Hstats).
  assert (Hnlen : (length names <= size (fs_dentry (w_db w)))%nat).
  { apply (names_length _ ino); [done|]. intros n Hn. by apply Hin. }
  assert (Hlen : length (all_entries ino es) = (length names + 2)%nat).
  { unfold all_entries. rewrite <-Hnames. cbn [length]. rewrite !length_fmap. lia. }
  exists names, (numbered 0 (all_entries ino es)). split_and!; [|..|done|done|].
  - intros rounds Hr.
    refine (list_dir_run (F := F) ino max_size w es _ _ _ rounds 0 _ _); fold v.
    + cbn. by rewrite as_i64_id.
    + unfold page_fits, all_entries. repeat constructor; [done..|]. apply Forall_fmap, Forall_forall.
      intros e He. destruct (Hstats e He) as (c & Hc & _). exact (Hfit _ _ Hc).
    + unfold len. rewrite Hlen. lia.
    + lia.
    + rewrite numbered_length, Hlen. lia.
  - rewrite numbered_names. unfold all_entries. cbn [fmap list_fmap snd].
    do 2 f_equal. rewrite <-list_fmap_compose, <-Hnames. by apply list_fmap_ext.
  - apply Forall_forall. intros e He. apply numbered_elem in He.
    apply list_elem_of_fmap in He as (x & Hx & He). injection Hx as Hi Hk Hn.
    destruct (Hstats x He) as (c & Hc & Hg). rewrite <-Hn in Hc.
    destruct (co_dentry _ _ _ (wf_core _ _ Hwf) _ _ _ Hc) as [_ [row Hrow]].
    assert (Hg' : (AgentFS.getattr c v).1 = Ok (Some (build_stats_from_row c row))).
    { clear -Hf Hrow. destruct w as [d m fs clk t]. unfold faultless in Hf. subst v.
      cbn [w_db w_mem w_faults] in *. subst fs. unfold AgentFS.getattr. run_fs. by rewrite Hrow. }
    rewrite Hg in Hg'. injection Hg' as Hst. exists c, row. rewrite Hi, Hk, Hst. done.
Qed.
End AgentListing.

(** ** What is reported *)

(** The ranges of the fields of [Stats]. *)
Record typed (s : Stats) : Prop := {
  ty_ino : in_i64 (st_ino s); ty_mode : in_u32 (st_mode s); ty_nlink : in_u32 (st_nlink s);
  ty_uid : in_u32 (st_uid s); ty_gid : in_u32 (st_gid s); ty_size : in_i64 (st_size s);
  ty_atime : in_i64 (st_atime s); ty_mtime : in_i64 (st_mtime s); ty_ctime : in_i64 (st_ctime s);
  ty_ansec : in_u32 (st_atime_nsec s); ty_mnsec : in_u32 (st_mtime_nsec s);
  ty_cnsec : in_u32 (st_ctime_nsec s)
}.

(** A time that a [SystemTime] since the epoch can be. *)
Definition time_fits (secs nsec : Z) : Prop := 0 <= secs ∧ secs + nsec / 10 ^ 9 < 2 ^ 63.
Definition times_fit (s : Stats) : Prop :=
  time_fits (st_atime s) (st_atime_nsec s) ∧ time_fits (st_mtime s) (st_mtime_nsec s) ∧
  time_fits (st_ctime s) (st_ctime_nsec s).

(** The same instant, with the nanoseconds below a second. *)
Definition same_instant (secs nsec : Z) (t : Z * Z) : Prop :=
  t.1 * 10 ^ 9 + t.2 = secs * 10 ^ 9 + nsec ∧ 0 <= t.1 < 2 ^ 63 ∧ 0 <= t.2 < 10 ^ 9.

Lemma system_time_spec secs nsec : in_i64 secs → in_u32 nsec →
  match system_time secs nsec with
  | Some t => time_fits secs nsec ∧ same_instant secs nsec t
  | None => ¬ time_fits secs nsec
  end.
Proof.
  unfold in_i64, in_u32, time_fits, same_instant, system_time. intros Hs Hn.
  pose proof (Z.div_mod nsec (10 ^ 9) ltac:(done)) as Hdm.
  pose proof (Z.mod_pos_bound nsec (10 ^ 9) ltac:(done)) as Hb.
  assert (0 <= nsec / 10 ^ 9) by (apply Z.div_pos; lia).
  destruct (decide (0 <= secs)) as [Hpos|Hneg].
  - rewrite as_u64_id by (unfold in_u64; lia). case_bool; cbn [fst snd]; lia.
  - assert (as_u64 secs = secs + 2 ^ 64) as ->.
    { unfold as_u64. symmetry. apply (Z.mod_unique_pos _ _ (-1)); lia. }
    case_bool; lia.
Qed.

(** Attributes as the protocol has them. *)
Record reports (s : Stats) (a : FileAttr) : Prop := {
  rp_ino : in_u64 (a_ino a) ∧ as_i64 (a_ino a) = st_ino s;
  rp_size : in_u64 (a_size a) ∧
    (Z.land (st_mode s) S_IFMT ≠ S_IFDIR → 0 <= st_size s → a_size a = st_size s);
  rp_blocks : a_size a <= 512 * a_blocks a < a_size a + 512;
  rp_perm : 0 <= a_perm a < 2 ^ 12 ∧ Z.lor (Z.land (st_mode s) S_IFMT) (a_perm a) = Z.land (st_mode s) 0xffff;
  rp_atime : same_instant (st_atime s) (st_atime_nsec s) (a_atime a);
  rp_mtime : same_instant (st_mtime s) (st_mtime_nsec s) (a_mtime a);
  rp_ctime : same_instant (st_ctime s) (st_ctime_nsec s) (a_ctime a);
  rp_rdev : in_u32 (a_rdev a)
}.

Lemma div_ceil_spec a b : 0 < b → a <= b * div_ceil a b < a + b.
Proof.
  intros Hb. unfold div_ceil. pose proof (Z.div_mod (a + b - 1) b ltac:(lia)).
  pose proof (Z.mod_pos_bound (a + b - 1) b Hb). lia.
Qed.

(** C32: the attributes that are reported.  Reporting the attributes of a file panics exactly
    when one of its times is before the epoch or, with the nanoseconds carried, does not fit
    63 bits; otherwise every field is in the range of the protocol, the inode number is the
    file's, the blocks cover the size, and the times are the instants of the file. *)
Theorem attributes_reported s : typed s →
  match fillattr s with
  | Some a => times_fit s ∧ reports s a
  | None => ¬ times_fit s
  end.
Proof.
  intros [Hino Hmode _ _ _ Hsize Ha Hm Hc Han Hmn Hcn]. unfold fillattr.
  pose proof (system_time_spec _ _ Ha Han) as Hat. pose proof (system_time_spec _ _ Hm Hmn) as Hmt.
  pose proof (system_time_spec _ _ Hc Hcn) as Hct. unfold times_fit.
  destruct (system_time (st_atime s) _) as [ta|]; cbn [mbind option_bind]; [|tauto].
  destruct (system_time (st_mtime s) _) as [tm|]; cbn [mbind option_bind]; [|tauto].
  destruct (system_time (st_ctime s) _) as [tc|]; cbn [mbind option_bind]; [|tauto].
  split; [tauto|]. set (size := if _ =? S_IFDIR then 4096 else as_u64 (st_size s)).
  assert (Hsz : in_u64 size).
  { unfold size. case_match; [done|apply as_u64_range]. }
  split; cbn [a_ino a_size a_blocks a_atime a_mtime a_ctime a_perm a_rdev]; try tauto.
  - split; [apply as_u64_range|]. unfold as_i64, as_u64. rewrite Z.mod_mod by done.
    exact (as_i64_id _ Hino).
  - split; [done|]. intros Hd Hpos. unfold size. apply Z.eqb_neq in Hd. rewrite Hd.
    apply as_u64_id. unfold in_u64, in_i64 in *. lia.
  - by apply div_ceil_spec.
  - split; [|by rewrite <-Z.land_lor_distr_r].
    change 0xfff with (Z.ones 12). rewrite Z.land_ones by lia. apply Z.mod_pos_bound. lia.
  - apply as_u32_range.
Qed.

(** The statistics of the filesystem: what is free is part of what there is. *)
Lemma statistics_reported {D C} {F : SdkFs.FileSystem D C} {L : Libc} {LF : LibcFuse}
    (w w' : World D (Fuse (F := F))) blocks bfree bavail files ffree bsize namelen frsize :
  statfs w = (Ok (RStatfs blocks bfree bavail files ffree bsize namelen frsize), w') →
  0 <= bfree ∧ bavail = bfree ∧ 0 <= ffree ∧ blocks = TOTAL_BLOCKS ∧ files = TOTAL_INODES.
Proof.
  unfold statfs. unfold mbind at 1, M_bind at 1.
  destruct (block_on _ w) as [[[e|stats]|e|] w1]; [..|done|done];
    intros [= <- <- <- <- <- <- <- <- <-]; unfold saturating_sub; split_and!; lia || done.
Qed.
