(* ===== verification/Scenarios.v ===== *)
(** * Scenarios: concrete runs

    The engine that counts up, the bounded cache and a clock that stands still give
    concrete worlds, in which the operations are evaluated.  The theorems here
    are runs of the path-based interface whose outcome differs from what its
    documentation says. *)
From S2P Require Import Prelude Types Engine Lru Schema FileIO FileIOSpec Path AgentFS.
From S2P Require Import AgentFSInv AgentFSSpec AgentFSOps AgentFSCoherent Init AgentFSProps.
From S2P Require Import AgentFSPath AgentFSPathProps.
#[local] Existing Instance sql_reference.
#[local] Existing Instance BoundedLru.

Abbreviation Cache := (lru (Z * string) Z).
Abbreviation FsWorld := (World Db (lru (Z * string) Z)).

(** A new filesystem with a small chunk size and a small cache. *)
Definition clock : nat → Z * Z := λ _, (1000, 0).
Definition cs4 : Z := 4.
Lemma cs4_pos : 0 < cs4.
Proof. done. Qed.
Definition new_world : FsWorld :=
  mkWorld (initial_db 0 0 (1000, 0)) (lru_new 10) [] (ticks clock) 1.

Lemma new_world_healthy : healthy new_world.
Proof. split; [done|by exists clock]. Qed.
Lemma new_world_wf : fs_wf cs4 (w_db new_world).
Proof. apply initial_wf. Qed.
Lemma new_world_coherent : coherent new_world.
Proof. apply map_empty_subseteq. Qed.

Definition hello : bytes :=
  [Byte.x68; Byte.x65; Byte.x6c; Byte.x6c; Byte.x6f; Byte.x21].

(** [/f] (inode 2) holds six bytes, [/d] (inode 3) is an empty directory, [/l]
    (inode 4) a symlink to nothing. *)
Definition setup : list op :=
  [OCreate 1 "f" 0x1a4 0 0; OMkdir 1 "d" 0x1ed 0 0; OSymlink 1 "l" "nowhere" 0 0;
   OWrite 2 0 hello].

Definition after (ops : list op) (w : FsWorld) : FsWorld :=
  foldl (λ w o, (run_op cs4 o w).2) w ops.

Definition some_world : FsWorld := after setup new_world.

(** ** Cases the path-based interface gets wrong *)

Definition path_after {A} (m : M Db Cache A) (w : FsWorld) : FsWorld := (m w).2.

(** A file with a hole: one byte written at offset 8, with chunks of 4. *)
Definition sparse_world : FsWorld :=
  path_after (PathApi.pwrite cs4 "/s" 8 [Byte.x41]) new_world.

(** [read_file] and the path-based [pread] leave holes out.  After one byte
    is written at offset 8 of a new file, the handle reads nine bytes, eight of
    them zeros; [read_file] returns the one byte that was written. *)
Theorem sparse_file_misread :
  (FileIO.pread (mkFile 2 cs4) 0 9 sparse_world).1 = Ok (zeros 8 ++ [Byte.x41]) ∧
  (PathApi.read_file "/s" sparse_world).1 = Ok (Some [Byte.x41]) ∧
  (PathApi.pread cs4 "/s" 0 9 sparse_world).1 = Ok (Some [Byte.x41]).
Proof. by vm_compute. Qed.

(** A dangling symlink cannot be removed by path: [lstat] sees it, [remove]
    follows it and reports that nothing is there. *)
Theorem dangling_symlink_stuck :
  match (PathApi.lstat "/l" some_world).1 with
  | Ok (Some s) => is_symlink s = true
  | _ => False
  end ∧
  (PathApi.remove "/l" some_world).1 = Err (Error.Fs FsError.NotFound) ∧
  (PathApi.rename "/l" "/m" some_world).1 = Err (Error.Fs FsError.NotFound).
Proof. by vm_compute. Qed.

(** Entries below a file: the path-based interface does not check that a parent
    is a directory, so that [/f/x] is created below the regular file [/f]. *)
Theorem entry_below_file :
  (PathApi.lstat "/f/x" some_world).1 = Ok None ∧
  match PathApi.create_file cs4 "/f/x" 0x1a4 0 0 some_world with
  | (Ok (s, _), w') => fs_dentry (w_db w') !! (2, "x"%string) = Some (st_ino s)
  | _ => False
  end.
Proof. split; by vm_compute. Qed.

(** The world an operation leaves, with its outcome. *)
Lemma outcome_pair {D C A} (m : M D C A) w a : (m w).1 = Ok a → m w = (Ok a, (m w).2).
Proof. destruct (m w). by intros [= ->]. Qed.

(** ** The worlds of the scenarios are admissible *)

Fixpoint admissible (ops : list op) (w : FsWorld) : Prop :=
  match ops with
  | [] => True
  | o :: ops => op_ok o (w_db w) ∧ healthy (run_op cs4 o w).2 ∧ admissible ops (run_op cs4 o w).2
  end.

Lemma admissible_good (ops : list op) (w : FsWorld) :
  healthy w → fs_wf cs4 (w_db w) → coherent w → admissible ops w →
  healthy (after ops w) ∧ fs_wf cs4 (w_db (after ops w)) ∧ coherent (after ops w).
Proof.
  revert w. induction ops as [|o ops IH]; intros w Hh Hwf Hcoh; [done|].
  intros (Hok & Hh' & Hops). apply (IH (run_op cs4 o w).2); [done| | |done].
  - by apply step_wf.
  - apply step_coherent; [|done]. intros p n p' n' ->. by destruct Hok as (_ & _ & _ & ?).
Qed.

(** Decides the side conditions of a concrete step. *)
Ltac concrete :=
  repeat match goal with
  | |- _ ∧ _ => split
  | |- healthy _ => split; [by vm_compute|exists clock; by vm_compute]
  | |- clock_ok _ => exists clock; by vm_compute
  | |- is_dir _ _ => eexists; split; [by vm_compute|by vm_compute]
  | |- regular _ _ => eexists; split; [by vm_compute|split; by vm_compute]
  | |- small _ => by vm_compute
  | |- _ => by vm_compute
  end.

Lemma setup_admissible : admissible setup new_world.
Proof. cbn [admissible setup op_ok]. concrete. Qed.

Lemma some_world_good : healthy some_world ∧ fs_wf cs4 (w_db some_world) ∧ coherent some_world.
Proof.
  apply admissible_good; [apply new_world_healthy|apply new_world_wf|
    apply new_world_coherent|apply setup_admissible].
Qed.
Lemma some_world_healthy : healthy some_world.
Proof. exact (proj1 some_world_good). Qed.
Lemma some_world_wf : fs_wf cs4 (w_db some_world).
Proof. exact (proj1 (proj2 some_world_good)). Qed.
Lemma some_world_coherent : coherent some_world.
Proof. exact (proj2 (proj2 some_world_good)). Qed.
Lemma some_world_chunks : chunks_ok cs4 (w_db some_world).
Proof. exact (co_chunks _ _ _ (wf_core _ _ some_world_wf)). Qed.
Lemma root_is_dir : is_dir (w_db some_world) 1.
Proof. concrete. Qed.
Lemma some_world_small : small (w_db some_world).
Proof. concrete. Qed.
