(* ===== verification/SdkScenarios.v ===== *)
(** * SdkScenarios: opening, migrating and listing, at concrete inputs

    A disk that is a list of files, databases of old versions, and an agent with an overlay:
    the theorems of [Options], [Versions] and [ListingProps] applied to them, and two runs
    that end differently from what their commands promise. *)
From S2P Require Import Prelude Types Engine Lru Schema FileIO Path AgentFS AgentFSInv.
From S2P Require Import AgentFSPathProps Scenarios Utf8 Options Versions Listing ListingProps.
#[local] Existing Instance sql_reference.
#[local] Existing Instance BoundedLru.

(** ** A disk that is a list of paths *)
#[local] Instance ascii_only : Unicode := λ _, false.
#[local] Instance no_partial_sync : Turso := unit.
#[local] Instance list_disk : HostDisk := {|
  disk := list string;
  exists_ h p := bool_decide (p ∈ h);
  Options.is_file h p := bool_decide (p ∈ h);
  Options.is_dir h p := String.eqb p ".agentfs";
  create_dir_all h p := inr (p :: h)
|}.
Definition dir_prefix : string := ".agentfs/".
#[local] Instance list_dirs : HostDirs := {|
  read_dir h p := inr (omap (λ f : string, strip_prefix f dir_prefix) h);
  remove_file h p := inr (filter (λ f : string, f ≠ p) h)
|}.

Definition two_agents : list string :=
  [".agentfs"; ".agentfs/a.db"; ".agentfs/ab.db"].
Definition on_disk {D} (d : D) (h : list string) : World D disk :=
  @mkWorld D disk d h [] (ticks clock) 0.

Lemma agent_id_confined_witness :
  (db_path (with_id "ab") (on_disk tt two_agents) = (Err (Error.InvalidAgentId "ab"), on_disk tt two_agents)
    ∧ validate_agent_id "ab" = false) ∨
  (∃ e, db_path (with_id "ab") (on_disk tt two_agents) = (Err e, on_disk tt two_agents) ∧
    create_dir_all (w_mem (on_disk tt two_agents)) agentfs_dir = inl e) ∨
  (∃ p w', db_path (with_id "ab") (on_disk tt two_agents) = (Ok p, w') ∧
    split_slash p = [agentfs_dir; "ab.db"%string] ∧ "ab.db"%string ≠ "."%string ∧ "ab.db"%string ≠ ".."%string ∧
    (w' = on_disk tt two_agents ∨
     ∃ h, create_dir_all (w_mem (on_disk tt two_agents)) agentfs_dir = inr h ∧
       w' = set_mem h (on_disk tt two_agents))).
Proof.
  exact (agent_id_confined (with_id "ab") "ab" (on_disk tt two_agents) eq_refl eq_refl eq_refl).
Defined.

Lemma resolve_opens_witness :
  (resolve "a" (on_disk tt two_agents) = (Ok (with_path ".agentfs/a.db"), on_disk tt two_agents)) ∧
  (∃ o, resolve "a" (on_disk tt two_agents) = (Ok o, on_disk tt two_agents) ∧
    db_path o (on_disk tt two_agents) = db_path (with_id "a") (on_disk tt two_agents)).
Proof.
  pose proof (resolve_opens "a" (on_disk tt two_agents) eq_refl) as [H1 H2].
  split; [exact H1|]. apply H2; by vm_compute.
Defined.

(** [agentfs init --force a] also deletes the agent [ab]. *)
Lemma force_deletes_others :
  prepare_database "a" true None (on_disk tt two_agents) =
    (Ok tt, on_disk tt [".agentfs"]).
Proof. by vm_compute. Qed.

(** ** Databases of old versions *)
Definition text_of (e : Error.t) : string :=
  match e with Error.Internal m => m | _ => "other" end.
#[local] Instance alter_errors : AlterErrors := {|
  error_text := text_of;
  duplicate_column := Error.Internal "duplicate column name: c";
  no_such_table := Error.Internal "no such table: fs_inode";
  duplicate_text := eq_refl;
  missing_text := eq_refl
|}.

Definition old_row (mode size : Z) : gmap string Z :=
  {["mode" := mode; "uid" := 0; "gid" := 0; "size" := size;
    "atime" := 9; "mtime" := 9; "ctime" := 9]}.
(** The tables of version 0.0: the root and one file of six bytes. *)
Definition v0_0_table : Table :=
  mkTable ["ino"; "mode"; "uid"; "gid"; "size"; "atime"; "mtime"; "ctime"]
    {[1 := old_row 0x41ed 0; 2 := old_row 0x81a4 6]}.
Definition v0_0_file : File := mkFile (Some v0_0_table) (Some ∅) [].
Definition old_world : World File disk := on_disk v0_0_file two_agents.
Definition old_world_stopped : World File disk :=
  set_faults [None; None; None; None; None; None; None; None; None; None; None;
              Some (Error.Database Busy)] old_world.

Lemma old_located : located (w_mem old_world) "a" ".agentfs/a.db".
Proof.
  split; [by vm_compute|]. intros [d h fs clk t] Hh. cbn in Hh. subst h.
  exists (with_path ".agentfs/a.db"). split; by vm_compute.
Qed.


Lemma migration_resumes_witness :
  let '(_, w1) := handle_migrate_command "a" false old_world_stopped in
  let '(r2, w2) := handle_migrate_command "a" false (set_faults [] w1) in
  r2 = Ok tt ∧ check_schema_version w2 = (Ok tt, w2).
Proof.
  pose proof (migration_resumes "a" ".agentfs/a.db" old_world_stopped v0_0_table ∅ old_located) as H.
  assert (clean old_world_stopped) as Hc.
  { intros e He. change (w_faults old_world_stopped) with
      (replicate 11 (@None Error.t) ++ [Some (Error.Database Busy)]) in He.
    apply elem_of_app in He as [[He _]%elem_of_replicate|He%list_elem_of_singleton]; [done|].
    by injection He as ->. }
  specialize (H Hc eq_refl eq_refl).
  destruct (handle_migrate_command "a" false old_world_stopped) as [r w1].
  destruct H as (_ & _ & H). destruct (handle_migrate_command "a" false (set_faults [] w1)) as [r2 w2].
  destruct H as (H1 & _ & H2). by split.
Defined.

(** The stop was on the way: the first column is there, the last is not. *)
Example stopped_midway :
  match inode_table (w_db (handle_migrate_command "a" false old_world_stopped).2) with
  | Some t => columns t = columns v0_0_table ++ ["nlink"]
  | None => False
  end.
Proof. by vm_compute. Qed.

(** A row as [AgentFS] reads it. *)
Definition row_inode (r : gmap string Z) : Inode :=
  let c k := default 0 (r !! k) in
  mkInode (c "mode") (c "nlink") (c "uid") (c "gid") (c "size") (c "atime") (c "mtime")
    (c "ctime") (c "rdev") (c "atime_nsec") (c "mtime_nsec") (c "ctime_nsec").

(** The migrated database, with the entry and the contents of the file. *)
Definition migrated_db : Db :=
  match inode_table (w_db (handle_migrate_command "a" false old_world).2) with
  | Some t => mkDb ∅ 2 (row_inode <$> rows t) {[(1, "f"%string) := 2]} {[(2, 0) := hello]} ∅
  | None => empty_db
  end.

(** Migrating from version 0.0 gives every inode the link count 0: deleting the one entry of
    a file then makes it -1, and the inode and its contents stay for ever. *)
Lemma migrated_files_leak :
  let w := mkWorld migrated_db (lru_new 10) [] (ticks clock) 0 in
  i_nlink <$> fs_inode migrated_db !! 2 = Some 0 ∧
  let '(r, w') := AgentFS.unlink 1 "f" w in
  r = Ok tt ∧ fs_dentry (w_db w') = ∅ ∧
  i_nlink <$> fs_inode (w_db w') !! 2 = Some (-1) ∧ fs_data (w_db w') !! (2, 0) = Some hello.
Proof. by vm_compute. Qed.

(** A table without [nlink] may be reported as current. *)
Lemma nlink_not_detected :
  version_of ("rdev" :: "atime_nsec" :: "mtime_nsec" :: "ctime_nsec" :: columns v0_0_table) =
    SchemaVersion.V0_4.
Proof. by vm_compute. Qed.

(** ** Listings *)
Definition some_overlay : OverlayTables :=
  mkOverlayTables {["/gone"%string]} {["base_path"%string := "/base"%string]}.
Definition agent_world {C} (c : C) : World Agent C :=
  mkWorld (mkAgent (w_db some_world) (Some some_overlay)) c [] (ticks clock) 0.
#[local] Instance no_quotes : SqlText := λ _ _ _, inl (Error.Database EngineFailure).
#[local] Instance some_host : HostTests := {|
  host_exists p := String.eqb p "/base/f" || String.eqb p "/base/gone";
  host_is_dir _ := false; host_is_symlink _ := false; host_is_file p := String.eqb p "/base/gone"
|}.

Lemma delta_paths_complete_witness : ∃ paths,
  get_delta_paths 4 (agent_world tt) = (Ok (Some paths), agent_world tt) ∧
  ∀ p, p ∈ paths ↔ ∃ l ino, holds (w_db some_world) l ino ∧ p = render l.
Proof.
  pose proof (delta_paths_complete cs4 (agent_world tt) 4 eq_refl some_world_wf) as H.
  apply H. by vm_compute.
Defined.

Lemma some_names_ok : names_ok (w_db some_world).
Proof.
  assert (map_Forall (λ (k : Z * string) (_ : Z), (k.2 ≠ "" ∧ split_slash k.2 = [k.2]) ∧ has_quote k.2 = false)
    (fs_dentry (w_db some_world))) as H by by apply (bool_decide_unpack _); vm_compute.
  intros p n c Hc. exact (H _ _ Hc).
Qed.

Lemma ls_lists_witness : ∃ listing,
  ls_filesystem 4 "/" (agent_world []) =
      (Ok (Some tt), set_mem (w_mem (agent_world []) ++ ((λ e : list string * bool,
         (if e.2 then "d" else "f") +:+ " " +:+ join_slash e.1) <$> listing)) (agent_world [])) ∧
  NoDup listing.*1.
Proof.
  pose proof (ls_lists cs4 (agent_world []) 4 eq_refl some_world_wf ltac:(by vm_compute)
    (λ p n c H, proj1 (some_names_ok p n c H))) as (listing & H1 & H2 & _).
  exists listing. split; [exact H1|exact H2].
Defined.

Lemma diff_reports_witness : ∃ changes,
  diff_filesystem 4 (agent_world []) =
      (Ok (Some tt), set_mem ([] ++
         match changes with [] => ["No changes"%string] | _ => change_line <$> changes end) (agent_world [])) ∧
  StronglySorted change_le changes ∧ NoDup changes ∧
  ∀ c, c ∈ changes ↔ reported "/base" (w_db some_world) some_overlay c.
Proof.
  pose proof (diff_reports cs4 (agent_world []) 4 some_overlay "/base" eq_refl some_world_wf
    some_names_ok ltac:(by vm_compute) eq_refl eq_refl) as H. exact H.
Defined.

Example diff_prints :
  w_mem (diff_filesystem 4 (agent_world [])).2 =
    ["A d /d"; "M f /f"; "D f /gone"; "A l /l"]%string.
Proof. by vm_compute. Qed.
