(* ===== verification/SandboxScenarios.v ===== *)
(** * SandboxScenarios: concrete runs inside the sandbox

    The worlds of [Scenarios], mounted at [/agent]: the theorems on [SqliteVfs] at
    concrete inputs, and runs that do not do what a system call promises. *)
From S2P Require Import Prelude Types Engine Lru Schema FileIO FileIOSpec Path AgentFS.
From S2P Require Import AgentFSInv AgentFSSpec AgentFSOps AgentFSCoherent Init AgentFSProps.
From S2P Require Import AgentFSPath AgentFSPathProps Mounts SqliteVfs SqliteVfsProps Scenarios.
#[local] Existing Instance sql_reference.
#[local] Existing Instance BoundedLru.

#[local] Instance plain_texts : ErrorTexts :=
  {| turso_text _ := "failed"; io_text _ := "failed"; time_text := "failed" |}%string.

(** ** Requests that are not checked *)

(** The results of requests on a handle. *)
Definition results (ops : list handle_op) (f : SqliteFileOps) (w : FsWorld) :
    list (VResult handle_result) := (handle_run true ops (f, w)).1.

(** What opening a file does not look at.  A symlink is opened as if it were a file,
    and reads as zeros; and a handle that was opened for reading takes writes, which
    closing it stores. *)
Theorem open_unchecked :
  match open cs4 "/agent" "/agent/l" O_RDONLY (tt, some_world) with
  | (VOk (FileOps f), (_, w)) =>
      fo_ino f = 4 ∧ results [HRead 100] f w = [VOk (RBytes (zeros 7))]
  | _ => False
  end ∧
  match open cs4 "/agent" "/agent/f" O_RDONLY (tt, some_world) with
  | (VOk (FileOps f), (_, w)) =>
      results [HWrite [Byte.x41]] f w = [VOk (RNumber 1)] ∧
      let '(_, (f1, w1)) := handle_run true [HWrite [Byte.x41]] (f, w) in
      let '(r, (_, w2)) := close cs4 (f1, w1) in
      r = VOk tt ∧ contents cs4 (w_db w2) 2 = Byte.x41 :: drop 1 hello
  | _ => False
  end.
Proof. by vm_compute. Qed.

(** ** The theorems at concrete inputs *)

Lemma located_at (rel : string) d p n parent :
  split_parent rel = inr (parent, n) → String.eqb n ".." = false → strlen n <= MAX_NAME_LEN →
  forallb (λ c, negb (String.eqb c "..") && (strlen c <=? MAX_NAME_LEN)) (components parent) = true →
  walk (fs_dentry d) ROOT_INO (components parent) = Some p → located rel d p n.
Proof.
  intros Hs Hn Hl Hc Hw. exists parent. split_and!; [done| | |done].
  - split; [|done]. intros ->. done.
  - apply Forall_forall. intros c Hin%list_elem_of_In.
    pose proof (proj1 (forallb_forall _ _) Hc c Hin) as Hcc.
    apply andb_prop in Hcc as [Hd Hlen]. split; [|by apply Z.leb_le]. intros ->. done.
Qed.

Lemma f_entry : fs_dentry (w_db some_world) !! (1, "f"%string) = Some 2.
Proof. by vm_compute. Qed.

Ltac at_path := eapply located_at; by vm_compute.

Lemma f_located : located "/f" (w_db some_world) 1 "f".
Proof. at_path. Qed.
Lemma d_located : located "/d" (w_db some_world) 1 "d".
Proof. at_path. Qed.
Lemma new_located : located "/d/new" (w_db some_world) 3 "new".
Proof. at_path. Qed.

Lemma f_is_file : ∃ r, fs_inode (w_db some_world) !! 2 = Some r ∧ dir_row r = false.
Proof. eexists. split; by vm_compute. Qed.
Lemma d_is_directory : ∃ r, fs_inode (w_db some_world) !! 3 = Some r ∧ dir_row r = true.
Proof. eexists. split; by vm_compute. Qed.

(** Reading two bytes, writing one, and appending one. *)
Definition session_ops : list handle_op :=
  [HRead 2; HWrite [Byte.x41]; HSeek 0 SEEK_END; HWrite [Byte.x42]].

Lemma session_ok : Forall handle_op_ok session_ops.
Proof. by repeat constructor. Qed.
Lemma session_run :
  HandleSpec.run true (has_flag O_RDWR O_APPEND) session_ops
    (if has_flag O_RDWR O_TRUNC then [] else contents cs4 (w_db some_world) 2, 0) =
  ([VOk (RBytes (take 2 hello)); VOk (RNumber 1); VOk (RNumber 6); VOk (RNumber 1)],
   (take 2 hello ++ [Byte.x41] ++ drop 3 hello ++ [Byte.x42], 7)).
Proof. by vm_compute. Qed.

Lemma file_session_witness :
  ∃ f w1 f1 f2 w2,
    open cs4 "/agent" "/agent/f" O_RDWR (tt, some_world) = (VOk (FileOps f), (tt, w1)) ∧
    w_db w1 = w_db some_world ∧
    handle_run true session_ops (f, w1) =
      ([VOk (RBytes (take 2 hello)); VOk (RNumber 1); VOk (RNumber 6); VOk (RNumber 1)], (f1, w1)) ∧
    close cs4 (f1, w1) = (VOk tt, (f2, w2)) ∧
    contents cs4 (w_db w2) 2 = take 2 hello ++ [Byte.x41] ++ drop 3 hello ++ [Byte.x42] ∧
    only_file 2 (w_db some_world) (w_db w2).
Proof.
  destruct f_is_file as (r & Hr & Hd).
  pose proof (file_session cs4 "/agent" true "/agent/f" "/f" O_RDWR 1 "f" 2 r session_ops some_world
    cs4_pos some_world_wf some_world_healthy eq_refl f_located f_entry Hr Hd session_ok) as H.
  cbv zeta in H. rewrite session_run in H. apply H.
  rewrite !elem_of_cons, elem_of_nil. by intros [|[|[|[|]]]].
Defined.

(** A handle on a file that is not there yet. *)
Definition fresh : SqliteFileOps := mkFileOps 0 "/d/new" hello 6 O_CREAT true.

Lemma new_file_written_once_witness :
  (∃ ino f1 w1, fsync cs4 (fresh, some_world) = (VOk tt, (f1, w1)) ∧
     fs_dentry (w_db w1) !! (3, "new"%string) = Some ino ∧ contents cs4 (w_db w1) ino = hello ∧
     ∀ ops rs f2 w2, Forall handle_op_ok ops → handle_run true ops (f1, w1) = (rs, (f2, w2)) →
       fo_dirty f2 = true →
       ∃ w3, close cs4 (f2, w2) = (VErr already_exists, (f2, w3)) ∧ w_db w3 = w_db w1) ∧
  (∃ ino st w1 w2, fstat cs4 true (fresh, some_world) = (VOk st, (fresh, w1)) ∧
     fs_dentry (w_db w1) !! (3, "new"%string) = Some ino ∧ contents cs4 (w_db w1) ino = [] ∧
     close cs4 (fresh, w1) = (VErr already_exists, (fresh, w2)) ∧ w_db w2 = w_db w1).
Proof.
  refine (new_file_written_once cs4 true fresh 3 "new" some_world _ some_world_wf some_world_healthy
            _ _ _ _ new_located _ _); try done.
  destruct d_is_directory as (r & Hr & Hd). by exists r.
Defined.

Lemma stat_is_lstat_witness :
  (stat "/agent" true "/agent/l" (tt, some_world)).1 =
  (lstat "/agent" true "/agent/l" (tt, some_world)).1.
Proof.
  refine (stat_is_lstat cs4 "/agent" true "/agent/l" "/l" 1 "l" some_world some_world_wf
            some_world_healthy _ _ _); [done| |done]. at_path.
Defined.

Lemma getdents_lists_once_witness :
  ∃ (f1 : SqliteDirectoryOps) w1 es,
    getdents (mkDirOps 3 "/d" 0 None 0, some_world) =
      (VOk ((3, ".", DT_DIR) :: (1, "..", DT_DIR) :: es)%string, (f1, w1)) ∧
    getdents (f1, w1) = (VOk [], (f1, w1)) ∧ w_db w1 = w_db some_world ∧
    NoDup es.*1.*2 ∧ Sorted String.le es.*1.*2 ∧
    (∀ nm, nm ∈ es.*1.*2 ↔ nm ≠ "" ∧ is_Some (fs_dentry (w_db some_world) !! (3, nm))) ∧
    ∀ e, e ∈ es → dirent (w_db some_world) 3 e.
Proof.
  destruct d_is_directory as (r & Hr & Hd).
  refine (getdents_lists_once cs4 "/d" 1 "d" 3 r 0 some_world some_world_wf some_world_healthy d_located
            _ _ _ Hr Hd); [done| |done].
  apply (bool_decide_unpack _). by vm_compute.
Defined.

(** The engine fails after the buffer is written, before the file is cut. *)
Definition failures : list (option Error.t) :=
  replicate 11 None ++ [Some (Error.Database EngineFailure)].
Abbreviation failing := (set_faults failures some_world).
Definition shortened : SqliteFileOps := mkFileOps 2 "/f" [Byte.x41] 1 O_RDWR true.

Lemma faults_chunks (faults : list (option Error.t)) (w : FsWorld) :
  chunks_ok cs4 (w_db w) → chunks_ok cs4 (w_db (set_faults faults w)).
Proof. done. Qed.
Lemma failing_clock : clock_ok failing.
Proof. exists clock. by vm_compute. Qed.
Lemma failing_row : ∃ r, fs_inode (w_db failing) !! fo_ino shortened = Some r.
Proof. eexists. by vm_compute. Qed.

Lemma fsync_under_failures_witness :
  match fsync cs4 (shortened, failing) with
  | (VOk _, (f', w')) =>
      f' = cleaned shortened ∧ contents cs4 (w_db w') 2 = [Byte.x41] ∧
      only_file 2 (w_db failing) (w_db w')
  | (VErr _, (f', w')) =>
      f' = shortened ∧ (contents cs4 (w_db w') 2 = contents cs4 (w_db failing) 2 ∨
        contents cs4 (w_db w') 2 = overwritten (contents cs4 (w_db failing) 2) [Byte.x41]) ∧
      only_file 2 (w_db failing) (w_db w')
  | (VPanic, _) => False
  end.
Proof.
  destruct failing_row as [r Hr].
  refine (fsync_under_failures cs4 r shortened failing cs4_pos
            (faults_chunks _ _ some_world_chunks) failing_clock Hr _ _ _);
    done.
Defined.
