(* ===== verification/SyscallScenarios.v ===== *)
(** * SyscallScenarios: concrete runs of the system calls

    A kernel with processes and descriptors that does what [KernelProcs] says; the theorems on
    system calls at concrete inputs, with the worlds of [Scenarios] mounted at [/agent]; and
    runs that do not do what a system call promises. *)
From S2P Require Import Prelude Types Engine Lru Schema FileIO FileIOSpec Path AgentFS.
From S2P Require Import AgentFSInv AgentFSSpec AgentFSOps AgentFSCoherent Init AgentFSProps.
From S2P Require Import FdTable Mounts SqliteVfs Syscalls SyscallsProps Processes SqliteVfsProps.
From S2P Require Import SyscallFiles Scenarios SandboxScenarios.
#[local] Existing Instance sql_reference.
#[local] Existing Instance BoundedLru.

(** ** A kernel *)

(** The processes by their table, the tables, a number for the next file, and the calls that
    were executed. *)
Record Kernel := mkKernel {
  k_procs : gmap Z Z; k_tables : gmap Z (gmap Z nat); k_next : nat; k_log : list (Z * Call)
}.
Definition k_files (k : Kernel) (pid : Z) : gmap Z nat :=
  match k_procs k !! pid with Some r => default ∅ (k_tables k !! r) | None => ∅ end.
Definition k_alive (k : Kernel) (pid : Z) : Prop := is_Some (k_procs k !! pid).
Definition k_shares (k : Kernel) (p q : Z) : Prop :=
  p = q ∨ ∃ r, k_procs k !! p = Some r ∧ k_procs k !! q = Some r.

Definition done_with (v : Z) : KReply := mkReply v [] [].

(** A call on one table. *)
Definition table_call (c : Call) (o : nat) (t : gmap Z nat) : KReply * gmap Z nat :=
  let opens o := (done_with (unused t), <[unused t := o]> t) in
  let dup fd := match t !! fd with Some o => opens o | None => (done_with (-9), t) end in
  match c with
  | Openat _ (Some _) _ _ | Socket _ _ _ => opens o
  | Openat _ None _ _ => (done_with (-14), t)
  | Dup fd | Fcntl fd (F_DUPFD _) | Fcntl fd (F_DUPFD_CLOEXEC _) => dup fd
  | Dup2 fd fd' | Dup3 fd fd' _ =>
      match t !! fd with Some o => (done_with fd', <[fd' := o]> t) | None => (done_with (-9), t) end
  | Close fd =>
      match t !! fd with
      | Some _ => (done_with 0, base.delete fd t)
      | None => (done_with (-9), t)
      end
  | Pipe2 pipefd _ =>
      if pipefd =? 0 then (done_with (-14), t)
      else
        let t1 := <[unused t := o]> t in
        (mkReply 0 [unused t; unused t1] [], <[unused t1 := o]> t1)
  | _ => (done_with 0, t)
  end.

Definition new_pid (k : Kernel) : Z :=
  Z.max 1 (Z.max (above (λ pid _, pid) (k_procs k)) (above (λ _ r, r) (k_procs k))).

Definition run_call (pid : Z) (c : Call) (k : Kernel) : KReply * Kernel :=
  match k_procs k !! pid with
  | None => (done_with (-3), k)
  | Some r =>
      let log := k_log k ++ [(pid, c)] in
      let t := default ∅ (k_tables k !! r) in
      match starts c with
      | None =>
          let '(reply, t') := table_call c (k_next k) t in
          (reply, mkKernel (k_procs k) (<[r := t']> (k_tables k)) (k_next k + 1) log)
      | Some true =>
          (done_with (new_pid k), mkKernel (<[new_pid k := r]> (k_procs k)) (k_tables k) (k_next k) log)
      | Some false =>
          (done_with (new_pid k),
           mkKernel (<[new_pid k := new_pid k]> (k_procs k)) (<[new_pid k := t]> (k_tables k))
             (k_next k) log)
      end
  end.

(** *** It does what a kernel should *)

Lemma run_call_files pid c k : starts c = None →
  (k_procs k !! pid = None ∧ run_call pid c k = (done_with (-3), k) ∧ k_files k pid = ∅) ∨
  ((run_call pid c k).1 = (table_call c (k_next k) (k_files k pid)).1 ∧
   k_files (run_call pid c k).2 pid = (table_call c (k_next k) (k_files k pid)).2).
Proof.
  intros Hc. unfold run_call, k_files. destruct (k_procs k !! pid) as [r|] eqn:Hr; [right|by left].
  rewrite Hc. destruct (table_call _ _ _) as [reply t']. cbn. by rewrite Hr, lookup_insert_eq.
Qed.

(** A new descriptor for [o']. *)
Lemma opens_unused (P : nat → Prop) (r : KReply * Kernel) k pid o : P o →
  r.1 = done_with (unused (k_files k pid)) →
  k_files r.2 pid = <[unused (k_files k pid) := o]> (k_files k pid) →
  opens (λ k, k_files k pid) r k P.
Proof.
  intros HP Hr Ht. destruct (unused_spec (k_files k pid)). right. rewrite Hr, Ht.
  split_and!; [done..|]. by exists o.
Qed.

(** A law of the kernel: of a process that there is not, and of a table. *)
#[local] Ltac of_call c k pid :=
  destruct (run_call_files pid c k eq_refl) as [(_ & Hrun & Hf)|[Hr Ht]];
  [try (left; rewrite Hrun; done); unfold fails; rewrite Hrun; rewrite ?Hf
  |cbn [table_call fst snd] in Hr, Ht].

#[local] Instance kernel_fds pid : KernelFds (run_call pid) (λ k, k_files k pid).
Proof.
  split.
  - intros dirfd path flags mode k. of_call (Openat dirfd (Some path) flags mode) k pid.
    by eapply opens_unused.
  - intros dirfd flags mode k. of_call (Openat dirfd None flags mode) k pid; [done|].
    unfold fails. by rewrite Hr, Ht.
  - intros domain ty protocol k. of_call (Socket domain ty protocol) k pid. by eapply opens_unused.
  - intros fd k. of_call (Dup fd) k pid.
    destruct (k_files k pid !! fd) as [o|]; [by eapply opens_unused|left; by rewrite Hr, Ht].
  - intros fd arg k. of_call (Fcntl fd (F_DUPFD arg)) k pid.
    destruct (k_files k pid !! fd) as [o|]; [by eapply opens_unused|left; by rewrite Hr, Ht].
  - intros fd arg k. of_call (Fcntl fd (F_DUPFD_CLOEXEC arg)) k pid.
    destruct (k_files k pid !! fd) as [o|]; [by eapply opens_unused|left; by rewrite Hr, Ht].
  - intros fd fd' k Hfd. of_call (Dup2 fd fd') k pid; [done|]. rewrite Hfd in Hr, Ht.
    unfold fails. by rewrite Hr, Ht.
  - intros fd fd' flags k Hfd. of_call (Dup3 fd fd' flags) k pid; [done|]. rewrite Hfd in Hr, Ht.
    unfold fails. by rewrite Hr, Ht.
  - intros fd k. of_call (Close fd) k pid; [cbn; by rewrite Hf, delete_empty|]. rewrite Ht.
    destruct (k_files k pid !! fd) eqn:Hfd; [done|]. cbn. by rewrite delete_id.
  - intros fd k [o Ho]. of_call (Close fd) k pid; [by rewrite Hf in Ho|]. rewrite Hr, Ho. done.
  - intros pipefd flags k. of_call (Pipe2 pipefd flags) k pid.
    destruct (Z.eqb_spec pipefd 0) as [|Hp]; [left; by rewrite Hr, Ht|right].
    set (t := k_files k pid) in *. destruct (unused_spec t) as [_ Hn1].
    destruct (unused_spec (<[unused t := k_next k]> t)) as [_ Hn2]. rewrite Hr, Ht.
    apply lookup_insert_None in Hn2 as [Hn2 Hne].
    split; [done|]. split; [done|]. eexists _, _, (k_next k), (k_next k). by split_and!.
  - intros c k Hc. assert (Hs : starts c = None) by (by destruct c).
    destruct (run_call_files pid c k Hs) as [(_ & -> & Hf)|[Hr ->]]; [done|].
    destruct c; try discriminate Hc; try done. by destruct cmd.
Qed.

Lemma new_pid_spec k p r : k_procs k !! p = Some r → 0 < new_pid k ∧ p < new_pid k ∧ r < new_pid k.
Proof.
  intros Hp. unfold new_pid. destruct (above_spec (λ pid _, pid) (k_procs k)) as [H1 H2].
  destruct (above_spec (λ _ r, r) (k_procs k)) as [H3 H4].
  specialize (H2 _ _ Hp). specialize (H4 _ _ Hp). lia.
Qed.

#[local] Instance shares_equiv k : Equivalence (k_shares k).
Proof.
  split.
  - by left.
  - intros p q [->|(r & Hp & Hq)]; [by left|right; by exists r].
  - intros p q s [->|(r & Hp & Hq)]; [done|]. intros [<-|(r' & Hq' & Hs)]; [right; by exists r|].
    right. exists r. split; [done|congruence].
Qed.

#[local] Instance kernel_procs : KernelProcs run_call k_files k_alive k_shares.
Proof.
  split.
  - apply _.
  - apply _.
  - intros k p q [->|(r & Hp & Hq)]; [done|]. unfold k_files. by rewrite Hp, Hq.
  - intros pid c k Hc. unfold run_call. destruct (k_procs k !! pid) as [r|] eqn:Hr; [|done].
    rewrite Hc. destruct (table_call _ _ _) as [reply t']. split; [done..|].
    intros q Hq. unfold k_files. cbn. destruct (k_procs k !! q) as [r'|] eqn:Hr'; [|done].
    rewrite lookup_insert_ne; [done|]. intros ->. apply Hq. right. by exists r'.
  - intros pid c k shared Hc Hne. cbv zeta. unfold run_call.
    destruct (k_procs k !! pid) as [r|] eqn:Hr; [|by split; [|left]].
    rewrite Hc. assert (Hnew : k_procs k !! new_pid k = None).
    { apply eq_None_not_Some. intros [x Hx]. pose proof (new_pid_spec _ _ _ Hx). lia. }
    assert (Hold : ∀ q r', k_procs k !! q = Some r' → q ≠ new_pid k ∧ r' ≠ new_pid k).
    { intros q r' Hq. pose proof (new_pid_spec _ _ _ Hq). lia. }
    destruct shared; cbn [fst snd ret done_with]; (split; [|right; split_and!]);
      unfold kept, k_alive, k_files, k_shares; cbn [k_procs k_tables].
    all: try (by rewrite ?lookup_insert_eq, ?Hnew).
    + intros q [r' Hq]. destruct (Hold _ _ Hq). rewrite lookup_insert_ne by done. rewrite Hq.
      split_and!; [by eexists|done|]. intros p [r'' Hp]. destruct (Hold _ _ Hp).
      by rewrite lookup_insert_ne.
    + by rewrite lookup_insert_eq, Hr.
    + intros q [r' Hq]. destruct (Hold _ _ Hq). rewrite lookup_insert_eq, lookup_insert_ne by done.
      rewrite Hr, Hq. split.
      * intros [?|(r0 & [= ->] & [= ->])]; [congruence|]. split; [done|]. right. by exists r0.
      * intros [_ [->|(r0 & [= <-] & [= ->])]]; right; [exists r'; split; congruence|by exists r].
    + intros q [r' Hq]. destruct (Hold _ _ Hq). rewrite lookup_insert_ne by done. rewrite Hq.
      rewrite lookup_insert_ne by done.
      split_and!; [by eexists|done|]. intros p [r'' Hp]. destruct (Hold _ _ Hp).
      by rewrite lookup_insert_ne.
    + by rewrite !lookup_insert_eq, Hr.
    + intros q [r' Hq]. destruct (Hold _ _ Hq). rewrite lookup_insert_eq, lookup_insert_ne by done.
      split; [|by intros [? _]]. intros [?|(r0 & [= <-] & Hq')]; congruence.
Qed.

(** ** Processes *)

#[local] Instance plain_texts : ErrorTexts :=
  {| turso_text _ := "failed"; io_text _ := "failed"; time_text := "failed" |}%string.
#[local] Instance agent_vfs : VirtualFs.t Files := sandbox_vfs cs4 true.

(** A host directory at [/data], and an AgentFS at [/agent]. *)
Definition mounts : MountTable :=
  add_mount (mkMount "/agent" (Sqlite "/agent")) (add_mount (mkMount "/data" (Bind (mkBind "/srv/data" "/data"))) []).

(** The process 7, alone, with its standard descriptors. *)
Definition host : Kernel :=
  mkKernel {[7 := 7]} {[7 := list_to_map [(0, 0%nat); (1, 1%nat); (2, 2%nat)]]} 3 [].
Definition disk : Files := ([], some_world).

Definition open_path (path : string) (flags : Z) : Call := Openat AT_FDCWD (Some path) flags None.

(** A parent and its child, which has copies of the parent's descriptors, and a thread, which
    has the parent's. *)
Definition family : list (Z * Call) :=
  [(7, open_path "/data/x" O_RDONLY); (7, open_path "/agent/f" O_RDONLY); (7, Fork);
   (8, Close 3); (8, Dup 4); (7, Dup2 3 4); (7, Clone CLONE_FILES); (9, Pipe2 100 0);
   (7, Close 5); (9, Dup 6); (8, Read 3 1 2)].


(** ** A file of the mount *)

Definition newborn : Proc := mkProc FdTable.new disk host.
Definition shared_ops : list (bool * handle_op) :=
  zip [false; true; false; true] session_ops.

Lemma shared_ok : Forall (λ o : bool * handle_op, call_ok o.2) shared_ops.
Proof. repeat constructor; cbn; lia. Qed.

Lemma syscall_file_session_witness :
  ∃ fd fd2 outs p1 p2,
    exec cs4 true (run_call 7) mounts 0
      (open_path "/agent/f" O_RDWR :: Dup fd :: calls_of 1 fd fd2 shared_ops) newborn =
      (SOk ((fd, NoOut) :: (fd2, NoOut) :: outs), p1) ∧
    SOk <$> outs = [SOk (2, OutBytes (take 2 hello)); SOk (1, NoOut); SOk (6, NoOut); SOk (1, NoOut)] ∧
    w_db (vfs_state p1).2 = w_db some_world ∧
    exec cs4 true (run_call 7) mounts 0 [Close fd; Close fd2] p1 =
      (SOk [(0, NoOut); (0, NoOut)], p2) ∧
    contents cs4 (w_db (vfs_state p2).2) 2 = take 2 hello ++ [Byte.x41] ++ drop 3 hello ++ [Byte.x42] ∧
    only_file 2 (w_db some_world) (w_db (vfs_state p2).2) ∧
    entries (fd_table p2) = entries (fd_table newborn) ∧ kernel_state p2 = host.
Proof.
  destruct f_is_file as (r & Hr & Hd).
  pose proof (syscall_file_session cs4 true (run_call 7) mounts 0 "/agent/f" "/agent" "/agent/f" "/f" O_RDWR
    None 1 "f" 2 r shared_ops 1 [] some_world newborn
    cs4_pos some_world_wf some_world_healthy eq_refl eq_refl f_located f_entry Hr Hd
    ltac:(done) shared_ok new_ok ltac:(by vm_compute) eq_refl) as H.
  cbv zeta in H. change (snd <$> shared_ops) with session_ops in H. rewrite session_run in H. apply H.
  rewrite !elem_of_cons, elem_of_nil. by intros [|[|[|[|]]]].
Defined.

(** ** Numbers that the kernel does not know *)

(** What the calls of process 7 return, and what the kernel executed. *)
Definition session (calls : list Call) : list (SResult (Z * Out)) * list Call :=
  let '(rs, sb) := run run_call mounts 0 ((7,.) <$> calls) (initial disk host) in
  (rs, snd <$> k_log (sb_kernel sb)).

(** The number of a virtual file, or one that is not in the table, goes to the kernel as it is,
    and there it is the number of another file.  A [pwrite64] on a file of the mount writes
    into the host file that has that number in the kernel; and closing a descriptor twice
    closes another one, which the process still has: reading from that one fails. *)
Theorem raw_numbers :
  session [open_path "/agent/f" O_RDWR; open_path "/data/x" O_RDWR; Pwrite64 3 1 5 0] =
    ([SOk (3, NoOut); SOk (4, NoOut); SOk (0, NoOut)],
     [open_path "/srv/data/x" O_RDWR; Pwrite64 3 1 5 0]) ∧
  session [open_path "/agent/f" O_RDWR; open_path "/data/x" O_RDWR; Close 3; Close 3; Dup 4] =
    ([SOk (3, NoOut); SOk (4, NoOut); SOk (0, NoOut); SOk (0, NoOut); SOk (-9, NoOut)],
     [open_path "/srv/data/x" O_RDWR; Close 3; Dup 3]).
Proof. by vm_compute. Qed.

(** Calls that change the tree do not ask whether a mount is virtual: the host gets them, with
    the path of the sandbox, and the filesystem of the mount is not asked. *)
Theorem host_paths :
  session [Unlink (Some "/agent/f"); Rename (Some "/agent/f") (Some "/agent/g");
           Rmdir (Some "/agent/d"); Chdir (Some "/agent/d"); Access (Some "/agent/f") 0;
           Fchmodat AT_FDCWD (Some "/agent/f") 0x1ff 0]%string =
    (replicate 6 (SOk (0, NoOut)),
     [Unlink (Some "/agent/f"); Rename (Some "/agent/f") (Some "/agent/g");
      Rmdir (Some "/agent/d"); Chdir (Some "/agent/d"); Access (Some "/agent/f") 0;
      Fchmodat AT_FDCWD (Some "/agent/f") 0x1ff 0]%string).
Proof. by vm_compute. Qed.

(** Arguments that are not looked at: a descriptor below zero is given out, and is an error for
    the caller; the vectored calls pass on no count; a copy of the table is made for a thread
    that [clone3] starts. *)
Theorem unchecked_arguments :
  session [Dup2 0 (-5); Fcntl 0 (F_DUPFD (-9)); Read (-9) 1 1] =
    ([SOk (-5, NoOut); SOk (-9, NoOut); SOk (0, NoOut)],
     [Dup 0; Fcntl 0 (F_DUPFD 0); Read 4 1 1]) ∧
  session [Readv 0 16 2; Writev 1 16 2; Connect 0 32 16] =
    ([SOk (0, NoOut); SOk (0, NoOut); SOk (0, NoOut)],
     [Readv 0 16 0; Writev 1 16 0; Connect 0 0 16]) ∧
  (let '(_, sb) := run run_call mounts 0 [(7, Clone3); (7, Dup 0)] (initial disk host) in
   FD_TABLES sb !! 7 = Some 0%nat ∧ FD_TABLES sb !! 8 = Some 1%nat ∧
   option_map (get 3) (heap sb !! 0%nat) = Some (Some (Passthrough 3 0 None)) ∧
   option_map (get 3) (heap sb !! 1%nat) = Some None).
Proof. by vm_compute. Qed.

(** The entries that do not fit into the buffer are lost: the next call finds the directory at
    its end, though it has more entries than one. *)
Theorem getdents_truncates :
  (session [open_path "/agent" O_RDONLY; Getdents64 3 1 24; Getdents64 3 1 4096]).1 =
    [SOk (3, NoOut); SOk (24, OutBytes (dirent64 1 1 "." DT_DIR)); SOk (0, OutBytes [])] ∧
  match (session [open_path "/agent" O_RDONLY; Getdents64 3 1 4096]).1 with
  | [_; SOk (n, _)] => n = 5 * 24
  | _ => False
  end.
Proof. by vm_compute. Qed.

(** A wait that times out leaves the sets and the events of the caller as they were; and one
    for more numbers than a set has ends the process that serves the calls. *)
Theorem waits_that_time_out :
  session [Pselect6 1 (Some [0]) None None 0 0; Poll (Some [mkPollFd 0 1 1]) 0] =
    ([SOk (0, NoOut); SOk (0, NoOut)],
     [Pselect6 1 (Some [0]) None None 0 0; Poll (Some [mkPollFd 0 1 0]) 0]) ∧
  session [Pselect6 1025 (Some []) None None 0 0; Dup 0] = ([SPanic], []).
Proof. by vm_compute. Qed.

(** [close] answers that all is well when the data could not be stored.  Two descriptors for a
    name that is not there yet: the first that is closed makes the file, the second cannot. *)
Theorem close_hides_failure :
  let create := open_path "/agent/new" (Z.lor O_CREAT O_RDWR) in
  let '(rs, sb) := run run_call mounts 0
    ((7,.) <$> [create; create; Write 3 1 [Byte.x41]; Write 4 1 [Byte.x42]; Close 3; Close 4])
    (initial disk host) in
  rs = [SOk (3, NoOut); SOk (4, NoOut); SOk (1, NoOut); SOk (1, NoOut); SOk (0, NoOut); SOk (0, NoOut)] ∧
  option_map (contents cs4 (w_db (sb_vfs sb).2)) (fs_dentry (w_db (sb_vfs sb).2) !! (1, "new"%string)) =
    Some [Byte.x41].
Proof. by vm_compute. Qed.
