(* ===== verification/OverlayScenarios.v ===== *)
(** * OverlayScenarios: concrete overlays

    A small base, and runs of the overlay over it: where it does what is
    expected, and where it does not. *)
From S2P Require Import Prelude Types Engine Lru Schema FileIO FileIOSpec Path AgentFS.
From S2P Require Import AgentFSInv AgentFSSpec AgentFSOps AgentFSPath Overlay OverlayProps.
From S2P Require Import OverlayCopy OverlayLookup Init Scenarios.
#[local] Existing Instance sql_reference.
#[local] Existing Instance BoundedLru.

(** ** A base of three nodes

    [/f] (inode 11) holds six bytes, the directory [/d] (inode 12) contains the empty
    file [/d/g] (inode 13). *)

Definition base_stats (ino mode size : Z) : Stats :=
  mkStats ino mode 1 7 8 size 500 500 500 0 0 0 0.
Definition base_nodes (ino : Z) : option Stats :=
  if ino =? 1 then Some (base_stats 1 0x41ed 0)
  else if ino =? 11 then Some (base_stats 11 0x81a4 6)
  else if ino =? 12 then Some (base_stats 12 0x41ed 0)
  else if ino =? 13 then Some (base_stats 13 0x81a4 0)
  else None.
Definition base_entries (ino : Z) : list (string * Z) :=
  if ino =? 1 then [("d"%string, 12); ("f"%string, 11)]
  else if ino =? 12 then [("g"%string, 13)] else [].
Definition base_find (ino : Z) (n : string) : option Z :=
  snd <$> head (filter (λ e : string * Z, e.1 = n) (base_entries ino)).

#[local] Instance tree_base : BaseFS := {|
  base_handle := Z;
  base_lookup ino n := inr (base_find ino n ≫= base_nodes);
  base_getattr ino := inr (base_nodes ino);
  base_readlink _ := inr None;
  base_readdir ino := inr (Some (base_entries ino).*1);
  base_readdir_plus ino :=
    inr (Some (omap (λ e : string * Z, mkDirEntry e.1 <$> base_nodes e.2) (base_entries ino)));
  base_open ino _ := if ino =? 11 then inr 11 else inr 0;
  base_pread h off n :=
    inr (if h =? 11 then take (Z.to_nat n) (drop (Z.to_nat off) hello) else [])
|}.
#[local] Instance tree_bounds : BaseBounds tree_base.
Proof.
  split; [|done]. intros h off n l [= <-]. cbn [base_handle] in h. unfold len.
  assert (length hello = 6)%nat by done.
  destruct (h =? 11); [|done]. rewrite length_take, length_drop. lia.
Qed.

Abbreviation OvWorld := (World ODb OMem).
Definition rdonly : Z := 0.

(** The overlay over a new delta, as [load] leaves it. *)
Definition ov_new : OvWorld :=
  (load (mkWorld (mkODb (initial_db 0 0 (1000, 0)) ∅ ∅ ∅) (new (lru_new 10)) [] (ticks clock) 1)).2.

Definition ov_after {A} (m : M ODb OMem A) (w : OvWorld) : OvWorld := (m w).2.

(** What a directory lists under the inode that [lookup] gives. *)
Definition listing (p : Z) (n : string) (w : OvWorld) : Outcome (option (list string)) :=
  match lookup p n w with
  | (Ok (Some s), w') => (readdir (st_ino s) w').1
  | (Ok None, _) => Ok None
  | (Err e, _) => Err e
  | (Panic, _) => Panic
  end.

(** Renaming a directory of the base loses what is in it.  [/d] holds [g];
    renaming it to [/e] succeeds, [/e] is an empty directory, and [/d] is gone. *)
Theorem rename_loses_children :
  let w := ov_after (Overlay.rename cs4 rdonly 1 "d" 1 "e") ov_new in
  (Overlay.rename cs4 rdonly 1 "d" 1 "e" ov_new).1 = Ok tt ∧
  listing 1 "d" ov_new = Ok (Some ["g"%string]) ∧
  listing 1 "e" w = Ok (Some []) ∧ (lookup 1 "d" w).1 = Ok None.
Proof. by vm_compute. Qed.

(** [/f] is removed, made anew in the delta, and renamed. *)
Definition replaced : OvWorld :=
  ov_after (Overlay.rename cs4 rdonly 1 "f" 1 "h")
    (ov_after (Overlay.create_file cs4 1 "f" 0x1a4 0 0) (ov_after (Overlay.unlink 1 "f") ov_new)).

(** A renamed file can be out of reach.  The mapping of a renamed inode keeps
    the old path; when the base has a file at that path, it has a whiteout, and the
    inode that [lookup] reports under the new name has no attributes and cannot be
    opened. *)
Theorem renamed_file_unreachable :
  match lookup 1 "h" replaced with
  | (Ok (Some s), w) =>
      (getattr (st_ino s) w).1 = Ok None ∧
      (Overlay.open cs4 rdonly (st_ino s) 0 w).1 = Err (Error.Fs FsError.NotFound)
  | _ => False
  end.
Proof. by vm_compute. Qed.

(** [create_file] over a file of the base succeeds and hides it. *)
Lemma create_over_base :
  match Overlay.create_file cs4 1 "f" 0x1a4 0 0 ov_new with
  | (Ok (s, _), w) => st_size s = 0 ∧ ∃ s', (lookup 1 "f" w).1 = Ok (Some s') ∧ st_size s' = 0
  | _ => False
  end.
Proof. vm_compute. split; [done|]. by eexists. Qed.

(** ** The worlds are admissible *)

Lemma ov_new_inv : ov_inv ov_new.
Proof. split; [|split; by vm_compute]. exact (new_maps _). Qed.
Lemma ov_new_wf : fs_wf cs4 (o_fs (w_db ov_new)).
Proof. apply initial_wf. Qed.
Lemma ov_new_clock : clock_ok ov_new.
Proof. exists clock. by vm_compute. Qed.
Lemma ov_root : inode_map (w_mem ov_new) !! 1 = Some (mkInfo Delta 1 "/").
Proof. by vm_compute. Qed.
Lemma f_plain : plain "f".
Proof. by split. Qed.
Lemma root_path : dir_path "/".
Proof. by left. Qed.

(** ** The theorems at these inputs *)

Definition busy_ops : list ov_op :=
  [VUnlink 1 "f"; VOpen 2 0; VMkdir 1 "n" 0x1ed 0 0; VRename 1 "d" 1 "n"].
Definition some_faults : list (option Error.t) :=
  [None; None; None; None; None; None; None; None; Some (Error.Database Busy)].

Lemma overlay_state_witness :
  let w' := calls cs4 rdonly busy_ops (set_faults some_faults ov_new) in
  ov_inv w' ∧ handles_stay (set_faults some_faults ov_new) w' ∧
  ∃ w'', load (set_mem (new (lru_new 5)) (set_faults [] w')) = (Ok tt, w'') ∧
    ov_inv w'' ∧ whiteouts (w_mem w'') = whiteouts (w_mem w') ∧
    origin_map (w_mem w'') = origin_map (w_mem w').
Proof. exact (overlay_state cs4 rdonly busy_ops (set_faults some_faults ov_new) _ ov_new_inv). Defined.

Lemma unlinked_ok :
  Overlay.unlink 1 "f" ov_new = (Ok tt, ov_after (Overlay.unlink 1 "f") ov_new).
Proof. refine (outcome_pair (Overlay.unlink 1 "f") ov_new tt _). by vm_compute. Qed.
Lemma unlinked_root :
  inode_map (w_mem (ov_after (Overlay.unlink 1 "f") ov_new)) !! 1 = Some (mkInfo Delta 1 "/").
Proof. by vm_compute. Qed.

Lemma removed_names_vanish_witness :
  (lookup 1 "f" (set_faults [] (ov_after (Overlay.unlink 1 "f") ov_new))).1 = Ok None.
Proof.
  exact (removed_names_vanish cs4 rdonly 1 "f" _ ov_new _ _ _ (RUnlink _ _ _ _) unlinked_ok
           ov_root unlinked_root eq_refl f_plain root_path).
Defined.

Lemma g_dots : Forall (.≠ "..") (components "/d/g").
Proof. by repeat constructor. Qed.
Lemma copied_ok :
  copy_up cs4 rdonly "/f" 11 ov_new = (Ok 2, ov_after (copy_up cs4 rdonly "/f" 11) ov_new).
Proof. refine (outcome_pair (copy_up cs4 rdonly "/f" 11) ov_new 2 _). by vm_compute. Qed.
Lemma f_dots : Forall (.≠ "..") (components "/f").
Proof. by repeat constructor. Qed.

Lemma copy_up_copies_witness :
  let w' := ov_after (copy_up cs4 rdonly "/f" 11) ov_new in
  fs_wf cs4 (o_fs (w_db w')) ∧ grows (abs cs4 (o_fs (w_db ov_new))) (abs cs4 (o_fs (w_db w'))) ∧
  walk (abs cs4 (o_fs (w_db w'))) ROOT_INO (components "/f") = Some 2 ∧
  (walk (abs cs4 (o_fs (w_db ov_new))) ROOT_INO (components "/f") = Some 2 ∧
     abs cs4 (o_fs (w_db w')) = abs cs4 (o_fs (w_db ov_new)) ∨
   walk (abs cs4 (o_fs (w_db ov_new))) ROOT_INO (components "/f") = None ∧
   ∃ s nd, base_getattr 11 = inr (Some s) ∧ copy_of rdonly s 11 = Some nd ∧
     Spec.nodes (abs cs4 (o_fs (w_db w'))) !! 2 = Some nd ∧
     origin_map (w_mem w') !! 2 = Some 11).
Proof.
  exact (copy_up_copies cs4 rdonly "/f" 11 2 ov_new _ eq_refl ov_new_wf ov_new_clock f_dots
           copied_ok).
Defined.

Lemma root_tracks : tracks cs4 ov_new (mkInfo Delta 1 "/").
Proof. done. Qed.
Lemma root_dots : Forall (.≠ "..") (components (in_path (mkInfo Delta 1 "/"))).
Proof. by constructor. Qed.
Lemma f_not_dots : "f"%string ≠ "..".
Proof. done. Qed.
Lemma looked_up_ok :
  lookup 1 "f" ov_new = (Ok (Some (with_ino 2 (base_stats 11 0x81a4 6))), ov_after (lookup 1 "f") ov_new).
Proof. refine (outcome_pair (lookup 1 "f") ov_new (Some (with_ino 2 (base_stats 11 0x81a4 6))) _). by vm_compute. Qed.

Lemma lookup_merges_witness :
  match merged cs4 ov_new (components "/" ++ ["f"%string]) with
  | Some node => ∃ s, Some (with_ino 2 (base_stats 11 0x81a4 6)) = Some s ∧
      shows ov_new node s ∧
      is_Some (inode_map (w_mem (ov_after (lookup 1 "f") ov_new)) !! st_ino s)
  | None => Some (with_ino 2 (base_stats 11 0x81a4 6)) = None
  end.
Proof.
  exact (lookup_merges cs4 1 "f" _ _ ov_new _ ov_new_inv ov_new_wf ov_new_clock ov_root
           root_tracks f_plain f_not_dots root_dots looked_up_ok).
Defined.
