(* ===== verification/NfsScenarios.v ===== *)
(** * NfsScenarios: concrete calls of NFS

    The worlds of [Scenarios] behind the NFS server: calls from their bytes to the bytes of
    the reply, and the theorems on the server at concrete inputs. *)
From S2P Require Import Prelude Types Engine Lru Schema FileIO FileIOSpec AgentFS AgentFSInv.
From S2P Require Import AgentFSOps AgentFSProps Xdr NfsTypes Permissions NfsVfs NfsAdapter.
From S2P Require Import NfsHandlers NfsWire NfsHandlersProps NfsReplies NfsServer.
From S2P Require Import NfsAdapterProps NfsFiles Scenarios.
#[local] Existing Instance sql_reference.
#[local] Existing Instance BoundedLru.

#[local] Instance server : Vfs.NFSFileSystem Db Cache := agent cs4.
#[local] Instance server_reads : Vfs.VfsReads server := @agent_nfs_reads _ _ _ (agentfs_reads cs4).
#[local] Instance server_errors : Vfs.VfsErrors server := @agent_nfs_errors _ _ (agentfs_filesystem cs4).

Definition generation : Z := 7.
Lemma generation_u64 : in_u64 generation.
Proof. done. Qed.

(** The bytes of a value; the root, and a caller who owns nothing. *)
Definition bytes_of {T} `{XDR T} (v : T) : bytes := default [] (serialize v).
Definition root : auth_unix := default_value.
Definition guest : auth_unix := mk_auth_unix 0 [] 1000 1000 [].

(** READ of two bytes at offset 1 of [/f], and WRITE of one byte there. *)
Definition read_args_f : READ3args := mk_READ3args (id_to_fh generation 2) 1 2.
Definition write_args_f : WRITE3args :=
  mk_WRITE3args (id_to_fh generation 2) 1 1 2 [Byte.x41].

(** A call of a procedure of NFS, as a message. *)
Definition nfs_call (proc : Z) (auth : auth_unix) : rpc_msg :=
  mk_rpc_msg 5 (CALL (mk_call_body 2 NFS_PROGRAM NFS_VERSION proc
    (mk_opaque_auth AUTH_UNIX (bytes_of auth)) (mk_opaque_auth AUTH_NULL []))).
Definition message {T} `{XDR T} (proc : Z) (auth : auth_unix) (args : T) : bytes :=
  bytes_of (nfs_call proc auth) ++ bytes_of args.

Definition context : RPCContext := new_context 11111 "peer" "/".
Definition served (input : bytes) (w : FsWorld) : Outcome (RpcError + option bytes) * Tracker * FsWorld :=
  handle_rpc generation true 60 100 101 context input ∅ w.

(** ** Runs *)

(** The file after a message was served. *)
Definition f_after (input : bytes) : bytes :=
  let '(_, _, w) := served input some_world in contents cs4 (w_db w) 2.

(** Root may write the file, a caller who owns nothing may not. *)
Example write_by_root : f_after (message 7 root write_args_f) = take 1 hello ++ Byte.x41 :: drop 2 hello.
Proof. by vm_compute. Qed.
Example write_by_guest : f_after (message 7 guest write_args_f) = hello.
Proof. by vm_compute. Qed.

(** A call without credentials of AUTH_UNIX is served as a call of root. *)
Definition anonymous_call (proc : Z) : rpc_msg :=
  mk_rpc_msg 5 (CALL (mk_call_body 2 NFS_PROGRAM NFS_VERSION proc
    (mk_opaque_auth AUTH_NULL []) (mk_opaque_auth AUTH_NULL []))).
Example write_by_nobody :
  f_after (bytes_of (anonymous_call 7) ++ bytes_of write_args_f) =
    take 1 hello ++ Byte.x41 :: drop 2 hello.
Proof. by vm_compute. Qed.

(** The same message twice: the second is not answered. *)
Example served_once :
  let '(_, tr, w) := served (message 6 root read_args_f) some_world in
  (handle_rpc generation true 60 110 111 context (message 6 root read_args_f) tr w).1.1 =
    Ok (inr None).
Proof. by vm_compute. Qed.

(** READDIR with a small buffer stops the program when overflow is checked: [dircount] less
    than 128. *)
Example small_buffer_panics :
  (served (message 16 root (mk_READDIR3args (id_to_fh generation 1) 0 default_value 100))
     some_world).1.1 = Panic.
Proof. by vm_compute. Qed.

(** A guard of SETATTR that does not hold: the client is told so, in a reply that a second
    one follows in the same record, and the file is cut all the same. *)
Definition guarded_cut : SETATTR3args :=
  mk_SETATTR3args (id_to_fh generation 2)
    (mk_sattr3 None None None (Some (U64 0)) DONT_CHANGE DONT_CHANGE) (Some (mk_nfstime3 1 1)).
Theorem guard_does_not_hold :
  f_after (message 2 root guarded_cut) = [] ∧
  match (served (message 2 root guarded_cut) some_world).1.1 with
  | Ok (inr (Some bs)) =>
      ∃ rest, deserialize (T := rpc_msg * nfsstat3 * wcc_data * rpc_msg * nfsstat3 * wcc_data)
        (nfs_call 0 root, NFS3_OK, default_value, nfs_call 0 root, NFS3_OK, default_value) bs =
        inr (make_success_reply 5, NFS3ERR_NOT_SYNC, default_value, make_success_reply 5, NFS3_OK, rest, [])
  | _ => False
  end.
Proof. split; [by vm_compute|]. vm_compute. by eexists. Qed.

(** CREATE of a name that exists fails even where it is UNCHECKED. *)
Definition create_f (how : createmode3) : bytes :=
  message 8 root (mk_diropargs3 (id_to_fh generation 1) (Utf8.as_bytes "f")) ++
  bytes_of how ++ bytes_of (default_value : sattr3).
Example unchecked_create :
  match (served (create_f UNCHECKED) some_world).1.1 with
  | Ok (inr (Some bs)) =>
      ∃ rest, deserialize (T := rpc_msg * nfsstat3) (nfs_call 0 root, NFS3_OK) bs =
        inr (make_success_reply 5, NFS3ERR_EXIST, rest)
  | _ => False
  end.
Proof. vm_compute. by eexists. Qed.

(** Mounting a sibling of the export whose name starts like it leads into the export. *)
Example mount_sibling :
  export_path (new_context 11111 "peer" "/agent") (Utf8.as_bytes "/agent-data") =
    Some (Utf8.as_bytes "/-data").
Proof. by vm_compute. Qed.

(** ** The theorems at concrete inputs *)

Lemma handles_identify_witness : fh_to_id generation (id_to_fh generation 2) = inr 2.
Proof. exact (proj1 (handles_identify generation generation_u64) 2 ltac:(done)). Defined.


(** GETATTR of [/f]. *)
Definition getattr_call : call_body :=
  mk_call_body 2 NFS_PROGRAM NFS_VERSION 1 (mk_opaque_auth AUTH_NULL []) (mk_opaque_auth AUTH_NULL []).
Definition getattr_reply : bytes :=
  match (handle_nfs generation true root 5 getattr_call (bytes_of (id_to_fh generation 2)) some_world).1 with
  | Ok (inr bs) => bs
  | _ => []
  end.
Lemma getattr_run_reply :
  (handle_nfs generation true root 5 getattr_call (bytes_of (id_to_fh generation 2)) some_world).1 =
    Ok (inr getattr_reply).
Proof. by vm_compute. Qed.

Lemma replies_conform_witness : answers_call 5 1 getattr_reply.
Proof.
  refine (replies_conform generation true root 5 getattr_call (bytes_of (id_to_fh generation 2))
            some_world getattr_reply eq_refl _ getattr_run_reply). done.
Defined.

Lemma record_marking_witness :
  messages (stream_of [([hello; hello], []); ([], hello)]) = [hello ++ hello; hello].
Proof.
  refine (proj1 (record_marking [([hello; hello], []); ([], hello)] _)).
  repeat constructor.
Defined.

(** A call, the same again, its completion, and the same much later. *)
Definition key : Z * string := (5, "peer"%string).
Definition arrivals : list event :=
  [Arrives 0 key; Arrives 1 key; Processed 2 key; Arrives 1000 key].
Example arrivals_handled : track 60 ∅ arrivals = [true; false; false; true].
Proof. by vm_compute. Qed.
Lemma arrivals_sorted : StronglySorted Z.le (event_time <$> arrivals).
Proof. repeat constructor; done. Qed.
Lemma at_most_once_witness :
  ∃ m c, (0 < m < 3)%nat ∧ arrivals !! m = Some (Processed c key) ∧ c < 1000 - 60.
Proof.
  refine (proj1 (at_most_once 60 arrivals key arrivals_sorted) 0%nat 3%nat 0 1000 _ _ _ _ _); lia || done.
Defined.

(** Two entries, in two pages. *)
Definition two_entries : list DirEntry :=
  (λ p : string * Z, mkDirEntry p.1 (mkStats p.2 0x81a4 1 0 0 0 0 0 0 0 0 0 0)) <$>
    [("a"%string, 2); ("b"%string, 3)].
Lemma two_distinct : distinct two_entries.
Proof. split; [by apply (bool_decide_unpack _)|by repeat constructor]. Qed.

Lemma f_inode : ∃ row, fs_inode (w_db some_world) !! 2 = Some row ∧ has_bit (i_mode row) 0xc00 = false.
Proof. eexists. split; by vm_compute. Qed.
Lemma read_args_f_fit : fits read_args_f.
Proof. by split_and!. Qed.
Lemma write_args_f_fit : fits write_args_f.
Proof. by split_and!. Qed.

Lemma nfs_read_returns_witness : ∃ bs row,
  nfsproc3_read (V := server) generation guest 5 (bytes_of read_args_f) some_world =
    (Ok (inr bs), some_world) ∧
  read_answer cs4 guest read_args_f 2 row (w_db some_world) bs 5.
Proof.
  destruct f_inode as (row & Hrow & _).
  pose proof (nfs_read_returns cs4 generation cs4_pos generation_u64 guest 5 read_args_f
    (bytes_of read_args_f) 2 row some_world some_world_chunks (proj1 some_world_healthy)
    ltac:(done) Hrow eq_refl ltac:(done) ltac:(done) read_args_f_fit ltac:(by vm_compute)) as H.
  destruct H as (bs & H1 & H2).
  exists bs, row. exact (conj H1 H2).
Defined.

Lemma nfs_write_then_read_witness : ∃ bs w',
  nfsproc3_write (V := server) generation root 5 (bytes_of write_args_f) some_world =
    (Ok (inr bs), w') ∧
  contents cs4 (w_db w') 2 = FileSpec.write (contents cs4 (w_db some_world) 2) 1 [Byte.x41].
Proof.
  destruct f_inode as (row & Hrow & Hset).
  destruct (nfs_write_then_read cs4 generation cs4_pos generation_u64 root 5 write_args_f
    (bytes_of write_args_f) 2 row some_world some_world_chunks some_world_healthy
    ltac:(done) Hrow eq_refl eq_refl ltac:(done) ltac:(done) ltac:(done) ltac:(by right) ltac:(done)
    write_args_f_fit ltac:(by vm_compute))
    as (bs & _ & w' & H1 & _ & _ & H2 & _).
  exists bs, w'. exact (conj H1 H2).
Defined.
