(* ===== verification/FuseScenarios.v ===== *)
(** * FuseScenarios: concrete sessions over FUSE

    The worlds of [Scenarios] behind the kernel: sessions whose outcome differs from what the
    documentation says or from what a kernel expects, and the theorems on the adapter at
    concrete inputs. *)
From S2P Require Import Prelude Types Engine Lru Schema FileIO FileIOSpec AgentFS AgentFSInv.
From S2P Require Import AgentFSOps AgentFSProps Utf8 NfsAdapter Fuse FuseSession FuseProps FuseFiles.
From S2P Require Import Scenarios.
#[local] Existing Instance sql_reference.
#[local] Existing Instance BoundedLru.
Abbreviation agent := (agentfs_filesystem cs4).

Abbreviation FuseWorld := (World Db (Fuse (F := agent))).
Abbreviation SessionWorld := (World Db (Session (F := agent))).

(** The adapter over [some_world], and its session: the mount of user 1000. *)
Definition adapter : FuseWorld :=
  mkWorld (w_db some_world) (new (w_mem some_world)) [] (ticks clock) 9.
Definition mounted : SessionWorld :=
  mkWorld (w_db some_world) (session (new (w_mem some_world)) Acl.Owner 1000) [] (ticks clock) 9.

(** What the kernel sends; [user]: user 1000 about the root. *)
Definition user (op : Operation) (ino : Z) : Request := mkRequest op ino 1000 1000.
Definition all_flags : Z := Z.ones 32.
Definition handshake : Request := user (Init 7 31 all_flags 131072) 0.
Definition answers (rs : list Request) (w : SessionWorld) : list Response := (run 2 rs w).1.*2.
Definition name_of (s : string) : bytes := as_bytes s.

(** ** The handshake *)

(** A kernel that lacks one of the wanted capabilities is asked for none of them: with all flags
    but [FUSE_CACHE_SYMLINKS], only what every session requests is on. *)
Theorem partial_support :
  answers [user (Init 7 31 (Z.ldiff all_flags FUSE_CACHE_SYMLINKS) 131072) 0] mounted =
    [InitReply 7 18 131072 INIT_FLAGS 16 12 MAX_WRITE_SIZE] ∧
  answers [handshake] mounted =
    [InitReply 7 18 131072 (Z.lor INIT_FLAGS wanted) 16 12 MAX_WRITE_SIZE].
Proof. by vm_compute. Qed.

(** Before the handshake, and after the end, requests fail. *)
Example outside_of_session :
  answers [user GetAttr 1; handshake; user Destroy 1; user GetAttr 1; handshake; user GetAttr 1]
    mounted !! 0%nat = Some (Replied (RError EIO)) ∧
  answers [handshake; user Destroy 1; handshake; user GetAttr 1] mounted !! 3%nat =
    Some (Replied (RError EIO)).
Proof. by vm_compute. Qed.

(** ** Files that are unlinked while they are open *)

(** [/f] is opened, unlinked, written and read: the write is answered as done, the read finds
    nothing; and the bytes stay in the tables, of an inode that is gone. *)
Definition unlinked_session : list Request :=
  [handshake; user (Open 2) 2; user (Unlink (name_of "f")) 1; user (Write 1 0 hello) 2;
   user (Read 1 0 6) 2].
Theorem unlinked_while_open :
  drop 1 (answers unlinked_session mounted) =
    [Replied (ROpened 1); Replied ROk; Replied (RWritten 6); Replied (RData [])] ∧
  let d := w_db (run 2 unlinked_session mounted).2 in
  fs_inode d !! 2 = None ∧ fs_data d !! (2, 0) = Some (take 4 hello).
Proof. by vm_compute. Qed.

(** ** Listings *)

(** Offsets are positions: when an entry that was listed is removed before the next page, the
    entry after the page is never listed. *)
Definition names_listed (response : Response) : list string :=
  match response with Replied (RDirectory l) => d_name <$> l | _ => [] end.
Definition listing_with_removal : list Request :=
  [handshake; user (ReadDir 0 96) 1; user (RmDir (name_of "d")) 1; user (ReadDir 3 96) 1].
Theorem removal_between_pages :
  (names_listed <$> answers listing_with_removal mounted) =
    [[]; ["."; ".."; "d"]; []; ["l"]]%string ∧
  (** [f] is there all the time *)
  fs_dentry (w_db (run 2 listing_with_removal mounted).2) !! (1, "f"%string) = Some 2.
Proof. by vm_compute. Qed.

(** A named pipe is listed as a regular file, and looked up as a pipe. *)
Definition kinds (response : Response) : list (string * FileType.t) :=
  match response with
  | Replied (RDirectory l) => (λ e, (d_name e, d_kind e)) <$> l
  | Replied (REntry a) => [("", a_kind a)]
  | _ => []
  end.
Theorem pipe_listed_as_file :
  (kinds <$> drop 1 (answers [handshake; user (MkNod (name_of "p") (Z.lor S_IFIFO 0x1a4) 0 0) 3;
     user (ReadDir 2 4096) 3; user (Lookup (name_of "p")) 3] mounted)) =
    [[("", FileType.NamedPipe)]; [("p", FileType.RegularFile)]; [("", FileType.NamedPipe)]]%string.
Proof. by vm_compute. Qed.

(** ** Times *)

(** A time before the epoch is stored as the epoch; one that the filesystem reports panics. *)
Theorem times_before_the_epoch :
  time_change (Some (SpecificTime None)) = SetTime 0 0 ∧
  ∀ s, st_mtime s = -1 → st_mtime_nsec s = 0 → fillattr s = None.
Proof.
  split; [done|]. intros s Hs Hn. unfold fillattr. rewrite Hs, Hn.
  destruct (system_time (st_atime s) _); [|done]. done.
Qed.

(** ** The theorems at concrete inputs *)

Definition opens : list Request :=
  [handshake; user (Open 2) 2; user (Open 2) 2; user (Release 1) 2;
   user (Create (name_of "n") 0x81a4 0 2) 1].
Definition opens_trace : list (Operation * Response) := (run 2 opens mounted).1.
Definition opens_world : SessionWorld := (run 2 opens mounted).2.

Lemma opens_run : run 2 opens mounted = (opens_trace, opens_world).
Proof. unfold opens_trace, opens_world. by destruct (run 2 opens mounted). Qed.

Example opens_answered :
  opens_trace ≫= opened = [1; 2; 3] ∧ foldl live ∅ opens_trace = {[2; 3]}.
Proof. split; [by vm_compute|]. apply set_eq. vm_compute. intros x. set_solver. Qed.


Definition others : list Request := [mkRequest (Unlink (name_of "f")) 1 1001 1001].
Lemma others_run :
  run 2 others opens_world = ((run 2 others opens_world).1, (run 2 others opens_world).2).
Proof. by destruct (run 2 others opens_world). Qed.

(** [/f] open as handle 1, with failures to come. *)
Definition open_world : FuseWorld := (Fuse.open 2 2 adapter).2.
Definition failing_world : FuseWorld :=
  set_faults [None; None; None; Some (Error.Database Busy)] open_world.
Definition file_ops : list FileOp := [FRead 0 4; FWrite 2 hello; FRead 1 3; FFsync; FRead 0 9].

Example file_ops_answered :
  (file_calls cs4 1 file_ops failing_world).1 =
    Ok [RData (take 4 hello); RError EAGAIN; RData (take 3 (drop 1 hello)); ROk; RData hello].
Proof. by vm_compute. Qed.

Lemma failing_world_serving : serving cs4 1 2 failing_world.
Proof.
  assert (w_db failing_world = w_db some_world) as Hdb by by vm_compute.
  split; [by vm_compute|eexists; by vm_compute| |by exists clock].
  rewrite Hdb. exact some_world_chunks.
Qed.

Lemma fuse_file_session_witness :
  behaves (w_faults failing_world) (contents cs4 (w_db failing_world) 2) file_ops
    [RData (take 4 hello); RError EAGAIN; RData (take 3 (drop 1 hello)); ROk; RData hello]
    (contents cs4 (w_db (file_calls cs4 1 file_ops failing_world).2) 2).
Proof.
  destruct (fuse_file_session cs4 1 2 file_ops failing_world cs4_pos failing_world_serving)
    as (replies & w' & Hr & _ & _ & Hb); [by repeat constructor|].
  rewrite Hr. pose proof file_ops_answered as Ha. rewrite Hr in Ha. injection Ha as ->.
  exact Hb.
Defined.

Lemma root_names_fit : ∀ n c, fs_dentry (w_db adapter) !! (1, n) = Some c →
  entsize DIRENT_SIZE n <= 40.
Proof.
  assert (map_Forall (λ (k : Z * string) (_ : Z), entsize DIRENT_SIZE k.2 <= 40) (fs_dentry (w_db adapter)))
    as Hall by (apply (bool_decide_unpack _); by vm_compute).
  intros n c Hc. exact (Hall _ _ Hc).
Qed.

Lemma fuse_listing_witness :
  ∃ names listing,
    list_dir (length names + 3) 1 40 0 [] adapter = (Ok (Some listing), adapter) ∧
    d_name <$> listing = "." :: ".." :: names.
Proof.
  destruct (fuse_listing cs4 1 40 adapter) as (names & listing & Hl & Hn & _);
    [exact some_world_wf|done|exact root_is_dir|done|done|exact root_names_fit|by vm_compute|].
  exists names, listing. split; [by apply Hl|exact Hn].
Defined.

Definition f_stats : Stats := mkStats 2 0x81a4 1 0 0 6 1000 1000 1000 0 0 999999999 0.
Lemma attributes_reported_witness :
  match fillattr f_stats with
  | Some a => times_fit f_stats ∧ reports f_stats a
  | None => ¬ times_fit f_stats
  end.
Proof. apply attributes_reported. split; done. Defined.
