(* ===== verification/Witnesses.v ===== *)
(** * Witnesses: the theorems at concrete inputs

    Each theorem with hypotheses is applied in one of the worlds of
    [Scenarios], where its hypotheses hold by evaluation. *)
From S2P Require Import Prelude Types Engine Rows KvStore ToolCalls Lru Schema FileIO.
From S2P Require Import FileIOSpec Path AgentFS AgentFSInv AgentFSSpec AgentFSOps.
From S2P Require Import AgentFSCoherent Init AgentFSProps AgentFSPath AgentFSPathProps Scenarios.
#[local] Existing Instance sql_reference.
#[local] Existing Instance sorting_engine.
#[local] Existing Instance BoundedLru.

Abbreviation good := some_world_wf.
Lemma some_clock : clock_ok some_world.
Proof. exact (proj2 some_world_healthy). Qed.
Lemma some_faultless : faultless some_world.
Proof. exact (proj1 some_world_healthy). Qed.
Lemma d_is_dir : is_dir (w_db some_world) 3.
Proof. concrete. Qed.
Lemma f_regular : regular (w_db some_world) 2.
Proof. concrete. Qed.

(** ** The inode interface *)

Lemma reachable_wf_witness :
  fs_wf cs4 (w_db (AgentFSProps.run_op cs4 (ORename 1 "f" 3 "g") some_world).2) ∧
  coherent (AgentFSProps.run_op cs4 (ORename 1 "f" 3 "g") some_world).2.
Proof.
  refine (reachable_wf cs4 some_world _ cs4_pos good some_world_coherent _).
  apply rtc_once. refine (Step _ _ _ (ORename 1 "f" 3 "g") some_world_healthy _ eq_refl).
  cbn [op_ok]. split_and!; [exact some_world_small|exact root_is_dir|exact d_is_dir|done].
Defined.

Definition faulty_rename : op := ORename 1 "f" 1 "l".
Definition late_fault : list (option Error.t) :=
  [None; None; None; None; None; None; None; Some (Error.Database Busy)].
Definition after_fault : FsWorld :=
  (AgentFSProps.run_op cs4 faulty_rename (set_faults late_fault some_world)).2.

Lemma cache_coherent_witness : coherent after_fault.
Proof.
  refine (cache_coherent cs4 some_world _ some_world_coherent _).
  apply rtc_once. refine (FaultyStep _ _ _ faulty_rename late_fault _ eq_refl).
  intros p n p' n' [= <- <- <- <-]. done.
Defined.

Lemma pread_refines_witness :
  match FileIO.pread (mkFile 2 cs4) 1 3 some_world with
  | (Ok l, w') => l = FileSpec.read (contents cs4 (w_db some_world) 2) 1 3 ∧
                  w_db w' = w_db some_world
  | (Err e, w') => Some e ∈ w_faults some_world ∧ w_db w' = w_db some_world
  | (Panic, _) => False
  end.
Proof.
  refine (pread_refines cs4 2 1 3 some_world cs4_pos some_world_chunks _ _); done.
Defined.

Lemma f_row : ∃ row, fs_inode (w_db some_world) !! 2 = Some row.
Proof. eexists. by vm_compute. Qed.

Lemma pwrite_refines_witness :
  match FileIO.pwrite (mkFile 2 cs4) 9 hello some_world with
  | (Ok _, w') =>
      contents cs4 (w_db w') 2 = FileSpec.write (contents cs4 (w_db some_world) 2) 9 hello ∧
      only_file 2 (w_db some_world) (w_db w') ∧ chunks_ok cs4 (w_db w')
  | (Err e, w') => Some e ∈ w_faults some_world ∧ w_db w' = w_db some_world
  | (Panic, _) => False
  end.
Proof.
  destruct f_row as [row Hrow].
  refine (pwrite_refines cs4 2 9 hello row some_world cs4_pos some_world_chunks Hrow _ _
            some_clock); done.
Defined.

Lemma truncate_refines_witness :
  match FileIO.truncate (mkFile 2 cs4) 3 some_world with
  | (Ok _, w') =>
      contents cs4 (w_db w') 2 = FileSpec.truncate (contents cs4 (w_db some_world) 2) 3 ∧
      only_file 2 (w_db some_world) (w_db w') ∧ chunks_ok cs4 (w_db w')
  | (Err e, w') => Some e ∈ w_faults some_world ∧ w_db w' = w_db some_world
  | (Panic, _) => False
  end.
Proof.
  destruct f_row as [row Hrow].
  refine (truncate_refines cs4 2 3 row some_world cs4_pos some_world_chunks Hrow _
            some_clock); done.
Defined.

Lemma rename_refines_witness :
  refines cs4 (rename 1 "f" 3 "g")
    (Spec.rename 1 "f" 3 "g" (dir_gone 3 "g" (w_db some_world))) some_world.
Proof.
  refine (proj1 (rename_refines cs4 1 "f" 3 "g" some_world good some_world_small
                   root_is_dir d_is_dir _ some_clock)). done.
Defined.

Lemma unlink_refines_witness :
  refines cs4 (unlink 1 "f") (Spec.unlink 1 "f") some_world.
Proof. exact (unlink_refines cs4 1 "f" some_world good some_world_small some_clock). Defined.

Lemma create_file_refines_witness :
  refines cs4 (create_file cs4 3 "new" 0x1a4 7 8)
    (Spec.create 3 "new" (next_rowid (inode_seq (w_db some_world)))
       (Spec.mkNode (Z.lor S_IFREG (Z.land 0x1a4 0xfff)) 7 8 0 (Spec.Data []))) some_world.
Proof.
  exact (proj1 (create_file_refines cs4 3 "new" 0x1a4 7 8 some_world good d_is_dir some_clock)).
Defined.

Lemma mkdir_refines_witness :
  refines cs4 (mkdir 3 "sub" 0x1ed 7 8)
    (Spec.create 3 "sub" (next_rowid (inode_seq (w_db some_world)))
       (Spec.mkNode (Z.lor S_IFDIR (Z.land 0x1ed 0xfff)) 7 8 0 Spec.Directory)) some_world.
Proof. exact (mkdir_refines cs4 3 "sub" 0x1ed 7 8 some_world good d_is_dir some_clock). Defined.

Lemma mknod_refines_witness :
  refines cs4 (mknod 3 "pipe" S_IFIFO 0 7 8)
    (Spec.create 3 "pipe" (next_rowid (inode_seq (w_db some_world)))
       (Spec.mkNode S_IFIFO 7 8 (as_i64 0) (Spec.Data []))) some_world.
Proof.
  refine (mknod_refines cs4 3 "pipe" S_IFIFO 0 7 8 some_world good d_is_dir _ _ some_clock);
    done.
Defined.

Lemma symlink_refines_witness :
  refines cs4 (symlink 3 "link" "/f" 7 8)
    (Spec.create 3 "link" (next_rowid (inode_seq (w_db some_world)))
       (Spec.mkNode (Z.lor S_IFLNK 0x1ff) 7 8 0 (Spec.Link "/f"))) some_world.
Proof.
  refine (symlink_refines cs4 3 "link" "/f" 7 8 some_world good d_is_dir _ some_clock). done.
Defined.

Lemma link_refines_witness :
  refines cs4 (link 2 3 "again") (Spec.link 2 3 "again") some_world.
Proof. exact (link_refines cs4 2 3 "again" some_world good d_is_dir some_clock). Defined.

Lemma rmdir_refines_witness :
  refines cs4 (rmdir 1 "d") (Spec.rmdir 1 "d" (dir_gone 1 "d" (w_db some_world))) some_world.
Proof. exact (rmdir_refines cs4 1 "d" some_world good root_is_dir some_clock). Defined.


Lemma attributes_refine_witness :
  refines cs4 (chmod 2 0x1ff) (Spec.chmod 2 0x1ff) some_world ∧
  refines cs4 (chown 2 (Some 5) None) (Spec.chown 2 (Some 5) None) some_world.
Proof.
  exact (proj1 (attributes_refine cs4 2 0x1ff (Some 5) None some_world good some_clock)).
Defined.

Lemma write_then_read_witness :
  ∃ w', FileIO.pwrite (mkFile 2 cs4) 5 hello some_world = (Ok tt, w') ∧
    FileIO.pread (mkFile 2 cs4) 5 (len hello) w' = (Ok hello, w') ∧
    ∀ ino', ino' ≠ 2 → contents cs4 (w_db w') ino' = contents cs4 (w_db some_world) ino'.
Proof.
  refine (write_then_read cs4 2 5 hello some_world cs4_pos good some_world_healthy f_regular
            _ _ _); done.
Defined.

Lemma new_not_dots : "new"%string ≠ "..".
Proof. done. Qed.
Lemma u32_7 : in_u32 7.
Proof. done. Qed.
Lemma u32_8 : in_u32 8.
Proof. done. Qed.

Lemma create_then_lookup_witness :
  ∃ s f w1, create_file cs4 3 "new" 0x1a4 7 8 some_world = (Ok (s, f), w1) ∧
    (lookup 3 "new" w1).1 = Ok (Some s) ∧ (getattr (st_ino s) w1).1 = Ok (Some s) ∧
    f = mkFile (st_ino s) cs4 ∧ contents cs4 (w_db w1) (st_ino s) = [].
Proof.
  destruct (create_file cs4 3 "new" 0x1a4 7 8 some_world) as [[[s f]|e|] w1] eqn:Hrun.
  - exists s, f, w1. split; [done|].
    exact (create_then_lookup cs4 3 "new" 0x1a4 7 8 s f some_world w1 good d_is_dir
             some_world_healthy new_not_dots u32_7 u32_8 Hrun).
  - exfalso. apply (f_equal fst) in Hrun. by vm_compute in Hrun.
  - exfalso. apply (f_equal fst) in Hrun. by vm_compute in Hrun.
Defined.

Lemma readdir_lists_witness :
  ∃ names es,
    readdir 1 some_world = (Ok (Some names), some_world) ∧
    readdir_plus 1 some_world = (Ok (Some es), some_world) ∧
    NoDup names ∧ Sorted String.le names ∧
    (∀ n, n ∈ names ↔ n ≠ "" ∧ is_Some (fs_dentry (w_db some_world) !! (1, n))) ∧
    (de_name <$> es) = names ∧
    ∀ e, e ∈ es → ∃ c, fs_dentry (w_db some_world) !! (1, de_name e) = Some c ∧
      (getattr c some_world).1 = Ok (Some (de_stats e)).
Proof. exact (readdir_lists cs4 1 some_world good some_faultless root_is_dir). Defined.

Lemma rename_to_itself_destroys_witness :
  ∃ row, fs_inode (w_db some_world) !! 2 = Some row ∧
  let '(o, w') := rename 1 "f" 1 "f" some_world in
  o = Ok tt ∧ fs_dentry (w_db w') !! (1, "f"%string) = None ∧
  fs_inode (w_db w') !! 2 = None ∧
  w_mem w' = lru_put (1, "f"%string) 2 (lru_pop (1, "f"%string)
               (lru_pop (1, "f"%string) (w_mem some_world))).
Proof.
  destruct (fs_inode (w_db some_world) !! 2) as [row|] eqn:Hrow;
    [|exfalso; by vm_compute in Hrow].
  exists row. split; [done|].
  refine (rename_to_itself_destroys cs4 1 "f" 2 row some_world good some_world_small
            some_world_healthy _ _ Hrow _ _); [done|by vm_compute|..];
    vm_compute in Hrow; by injection Hrow as <-.
Defined.

Lemma rmdir_leaks_inode_witness :
  let '(o, w') := rmdir 1 "d" some_world in
  o = Ok tt ∧ links (w_db w') 3 = 0 ∧
  ∃ r', fs_inode (w_db w') !! 3 = Some r' ∧ i_nlink r' = 1.
Proof.
  destruct (fs_inode (w_db some_world) !! 3) as [row|] eqn:Hrow;
    [|exfalso; by vm_compute in Hrow].
  refine (rmdir_leaks_inode cs4 1 "d" 3 row some_world good some_world_healthy root_is_dir
            _ _ Hrow _ _ _); [done|by vm_compute|..];
    try (vm_compute in Hrow; by injection Hrow as <-).
  apply (childless_abs cs4). by vm_compute.
Defined.

(** Scheduling failures changes nothing else. *)
Lemma wf_faults (fs : list (option Error.t)) (w : FsWorld) : fs_wf cs4 (w_db w) → fs_wf cs4 (w_db (set_faults fs w)).
Proof. done. Qed.
Lemma clock_faults (fs : list (option Error.t)) (w : FsWorld) : clock_ok w → clock_ok (set_faults fs w).
Proof. done. Qed.
Lemma faults_faults (fs : list (option Error.t)) (w : FsWorld) : w_faults (set_faults fs w) = fs.
Proof. done. Qed.

Definition crash : list (option Error.t) := [None; None; None; Some (Error.Database Busy)].

Lemma sub_is_new : fs_dentry (w_db (set_faults crash some_world)) !! (3, "sub"%string) = None.
Proof. by vm_compute. Qed.

Lemma mkdir_not_atomic_witness :
  let w := set_faults crash some_world in
  let '(o, w') := mkdir 3 "sub" 0x1ed 7 8 w in
  let ino := next_rowid (inode_seq (w_db w)) in
  o = Err (Error.Database Busy) ∧ fs_inode (w_db w) !! ino = None ∧
  is_Some (fs_inode (w_db w') !! ino) ∧ links (w_db w') ino = 0.
Proof.
  exact (mkdir_not_atomic cs4 3 "sub" 0x1ed 7 8 (Error.Database Busy)
    (set_faults crash some_world) (wf_faults crash _ good) (clock_faults crash _ some_clock)
    (Z.lt_le_incl 3 255 eq_refl) sub_is_new (faults_faults crash _)).
Defined.

(** ** Opening *)

Lemma open_filesystem_witness :
  ∃ w' : FsWorld, Init.from_pool 0 0 some_world =
      (Ok (configured (w_db some_world), lru_new DENTRY_CACHE_MAX_SIZE), w') ∧
    fs_wf cs4 (w_db w') ∧ kept (w_db some_world) (w_db w').
Proof.
  exact (open_filesystem cs4 0 0 some_world some_world_healthy (or_intror good)).
Defined.

(** ** Paths *)

Lemma normalize_absolute_witness :
  normalize_path (normalize_path "/a/./b/../c//d/..") = normalize_path "/a/./b/../c//d/.." ∧
  canonical (split_path "/a/./b/../c//d/..") ∧
  normalize_path "/a/./b/../c//d/.." = render (split_path "/a/./b/../c//d/..").
Proof. exact (normalize_absolute "/a/./b/../c//d/.." eq_refl). Defined.

Lemma resolve_path_walks_witness :
  looks_up some_world
    (walk (fs_dentry (w_db some_world)) ROOT_INO (split_path "/d/../f"))
    (PathApi.resolve_path "/d/../f" some_world).
Proof. exact (resolve_path_walks "/d/../f" some_world some_world_coherent). Defined.

Lemma path_create_file_refines_witness :
  refines cs4 (PathApi.create_file cs4 "/d/new" 0x1a4 7 8)
    (spec_create_at "/d/new" (next_rowid (inode_seq (w_db some_world)))
       (Spec.mkNode (Z.lor S_IFREG (Z.land 0x1a4 0xfff)) 7 8 0 (Spec.Data []))) some_world.
Proof.
  refine (path_create_file_refines cs4 "/d/new" 0x1a4 7 8 some_world good some_world_coherent
            some_clock _).
  intros p Hp. vm_compute in Hp. injection Hp as <-. exact d_is_dir.
Defined.

(** [/f] holds six bytes in two chunks. *)
Lemma f_dense : dense cs4 (w_db some_world) 2 2.
Proof.
  assert (Hrows : chunks_of 2 (w_db some_world) = [(0, take 4 hello); (1, drop 4 hello)] ∨
                  chunks_of 2 (w_db some_world) = [(1, drop 4 hello); (0, take 4 hello)])
    by (vm_compute; auto).
  assert (Hin : ∀ idx c, fs_data (w_db some_world) !! (2, idx) = Some c ↔
    (idx, c) = (0, take 4 hello) ∨ (idx, c) = (1, drop 4 hello)).
  { intros idx c. rewrite <-elem_of_chunks_of.
    destruct Hrows as [-> | ->]; rewrite !elem_of_cons, elem_of_nil; tauto. }
  assert (Hsize : fsize (w_db some_world) 2 = 6) by by vm_compute.
  split; [done|]. split.
  - intros idx. split.
    + intros [c [[= -> _]|[= -> _]]%Hin]; lia.
    + intros Hidx. assert (idx = 0 ∨ idx = 1) as [-> | ->] by lia; eexists; apply Hin;
        [by left|by right].
  - intros idx c Hc. rewrite Hsize. apply Hin in Hc as [[= -> ->]|[= -> ->]]; by vm_compute.
Qed.

Lemma f_walk :
  walk (fs_dentry (w_db some_world)) ROOT_INO (split_path "/f") = Some 2.
Proof. by vm_compute. Qed.
Lemma f_chunks : 2 = (fsize (w_db some_world) 2 + cs4 - 1) / cs4.
Proof. by vm_compute. Qed.

Lemma read_file_contents_witness :
  (PathApi.read_file "/f" some_world).1 = Ok (Some (contents cs4 (w_db some_world) 2)).
Proof.
  exact (read_file_contents cs4 "/f" 2 2 some_world cs4_pos some_world_chunks
           some_world_coherent some_faultless f_walk f_dense f_chunks).
Defined.

(** ** The key-value store and the audit log *)

(** A serializer of strings that puts a quote in front. *)
Definition quote : Ascii.ascii := Ascii.Ascii false true false false false true false false.
#[local] Instance quoting : Serde string := {|
  to_json s := inr (String quote s);
  from_json s := match s with String _ s => inr s | EmptyString => inl "eof"%string end |}.
#[local] Instance quoting_law : SerdeLaw string.
Proof. split; [by intros v s [= <-]|done]. Qed.

Definition kv_world : World (gmap string KvRow) unit :=
  mkWorld ∅ tt [None; None; None; Some (Error.Database Busy)] (ticks clock) 0.
Definition engine_clock (n : nat) : Z := 1000 + Z.of_nat n.
Definition kv_ops : list (kv_op (V:=string)) :=
  [KvSet "a" "1"; KvSet "a" "2"; KvSet "b" "3"; KvDelete "a"]%string.

Lemma kv_empty : represents (∅ : gmap string string) (w_db kv_world).
Proof. split; [intros k v Hk; by rewrite lookup_empty in Hk|done]. Qed.

Lemma kv_store_is_a_map_witness :
  let '(m', w') := history engine_clock kv_ops ∅ kv_world in
  let quiet := set_faults [] w' in
  (KvStore.get "b" quiet).1 = Ok (m' !! "b"%string) ∧
  ∃ ks, (keys quiet).1 = Ok ks ∧ NoDup ks ∧ ∀ k', k' ∈ ks ↔ is_Some (m' !! k').
Proof. exact (kv_store_is_a_map engine_clock kv_ops ∅ kv_world "b" kv_empty). Defined.

Definition quiet_kv : World (gmap string KvRow) unit := mkWorld ∅ tt [] (ticks clock) 0.

Lemma kv_set_timestamps_witness :
  match to_json "1"%string, KvStore.set engine_clock "a" "1"%string quiet_kv with
  | inr s, (Ok _, w') =>
      w_db w' !! "a"%string = Some (mkKvRow s
        (match w_db quiet_kv !! "a"%string with
         | Some r => kv_created_at r | None => engine_clock (w_tick quiet_kv) end)
        (engine_clock (w_tick quiet_kv))) ∧
      ∀ k, k ≠ "a"%string → w_db w' !! k = w_db quiet_kv !! k
  | inl msg, (Err e, w') => e = Error.Json msg ∧ w_db w' = w_db quiet_kv
  | _, _ => False
  end.
Proof. exact (kv_set_timestamps engine_clock "a" "1"%string quiet_kv eq_refl). Defined.

Definition log_world : World ToolDb unit := mkWorld (mkToolDb 0 ∅) tt [] (ticks clock) 0.

Lemma empty_log : log_wf true (w_db log_world).
Proof. split; [by intros i [r Hr]|done]. Qed.

(** A call to [read] is running (id 1), one to [write] was recorded (id 2). *)
Definition log_ops : list (tc_op (V:=string)) :=
  [Start "read" (Some "params"%string); Record_ "write" 5 7 None (Some "r"%string) None].
Definition busy_log : World ToolDb unit := run_ops true log_ops log_world.

Lemma audit_log_witness :
  log_wf true (w_db busy_log) ∧ log_grows (w_db log_world) (w_db busy_log).
Proof. exact (audit_log true log_ops log_world empty_log). Defined.

Lemma busy_log_wf : log_wf true (w_db busy_log).
Proof.
  unfold busy_log, log_ops, run_ops. cbn [foldl]. cbn [ToolCalls.run_op].
  apply record_grows, start_grows, empty_log.
Qed.

Definition other_calls : list (tc_op (V:=string)) :=
  [Record_ "write" 5 7 None (Some "r"%string) None; Error_ 2 "late"].

Definition started : World ToolDb unit :=
  (start "read" (Some "params"%string) log_world).2.
Definition succeeded : World ToolDb unit :=
  (success true 1 (Some "done"%string) (run_ops true other_calls started)).2.

Lemma start_ok : start "read" (Some "params"%string) log_world = (Ok 1, started).
Proof. apply outcome_pair. by vm_compute. Qed.
Lemma success_ok : success true 1 (Some "done"%string) (run_ops true other_calls started) =
  (Ok tt, succeeded).
Proof. apply outcome_pair. by vm_compute. Qed.
Lemma other_calls_end : Forall (λ o, ends o ≠ Some 1) other_calls.
Proof. by repeat constructor. Qed.

Lemma call_lifecycle_witness :
  ∃ s c, (ToolCalls.get 1 (set_faults [] succeeded)).1 =
    Ok (Some (mkToolCall 1 "read" (Some "params"%string) (Some "done"%string) None
          ToolCallStatus.Success s (Some c) (Some (as_i64 ((c - s) * 1000))))).
Proof.
  exact (call_lifecycle true "read" (Some "params"%string) (Some "done"%string) other_calls
           log_world 1 started succeeded empty_log start_ok other_calls_end success_ok).
Defined.

Definition once : World ToolDb unit := (success true 1 (Some "done"%string) busy_log).2.
Definition twice : World ToolDb unit := (error true 1 "late" once).2.

Lemma once_ok : success true 1 (Some "done"%string) busy_log = (Ok tt, once).
Proof. apply outcome_pair. by vm_compute. Qed.
Lemma twice_ok : error true 1 "late" once = (Ok tt, twice).
Proof. apply outcome_pair. by vm_compute. Qed.
Lemma busy_log_has_1 : is_Some (sel_call 1 (w_db busy_log)).
Proof. vm_compute. by eexists. Qed.
Lemma late_nonempty : "late"%string ≠ EmptyString.
Proof. done. Qed.

Lemma outcomes_not_exclusive_witness :
  ∃ call, (ToolCalls.get (V:=string) 1 (set_faults [] twice)).1 = Ok (Some call) ∧
    call_result call = Some "done"%string ∧ call_error call = Some "late"%string ∧
    call_status call = ToolCallStatus.Error.
Proof.
  exact (outcomes_not_exclusive true 1 "done"%string "late" busy_log once twice late_nonempty
           busy_log_has_1 once_ok twice_ok).
Defined.

Lemma recent_calls_witness :
  ∃ rows rest,
    (recent (V:=string) (Some 1) busy_log).1 =
      Ok ((λ p, row_to_tool_call p.1 p.2) <$> rows) ∧
    rows ++ rest ≡ₚ map_to_list (tc_calls (w_db busy_log)) ∧
    StronglySorted (λ a b, b <= a) ((λ p, c_started_at p.2) <$> rows) ∧
    (0 <= default 100 (Some 1) → len rows <= default 100 (Some 1)) ∧
    ∀ x y, x ∈ rows → y ∈ rest → c_started_at y.2 <= c_started_at x.2.
Proof. exact (recent_calls (Some 1) busy_log eq_refl). Defined.

Lemma stats_for_counts_witness :
  ∃ o, (stats_for "read" busy_log).1 = Ok o ∧
    (o = None ↔ rows_named "read" (w_db busy_log) = []) ∧
    ∀ s, o = Some s → s_name s = "read"%string ∧
      total_calls s = len (rows_named "read" (w_db busy_log)) ∧
      total_calls s = successful s + failed s +
                      count_status "pending" (rows_named "read" (w_db busy_log)).
Proof. exact (stats_for_counts true "read" busy_log eq_refl busy_log_wf). Defined.

Lemma stats_agree_witness :
  ∃ l, (stats busy_log).1 = Ok l ∧ NoDup (s_name <$> l) ∧
    StronglySorted (λ a b, total_calls b <= total_calls a) l ∧
    ∀ n s, s ∈ l ∧ s_name s = n ↔ (stats_for n busy_log).1 = Ok (Some s).
Proof. exact (stats_agree busy_log eq_refl). Defined.
