(* ===== verification/HostFs.v ===== *)
(** * HostFs: a directory of the host as a filesystem

    [HostFS] of [sdk/rust/src/filesystem/hostfs_linux.rs]: the filesystem that passes its
    operations on to a directory of the host, the usual base of an overlay.  The host is a
    parameter, that answers the calls of the C library; the handle keeps a descriptor opened with
    [O_PATH] for every file it has given an inode number to, and how often it gave it out. *)
From Stdlib Require Import Ascii.
From stdpp Require Import pretty.
From S2P Require Import Prelude Types Engine Xdr Utf8 NfsAdapter.

(** ** Strings of the host *)

(** [String::from_utf8_lossy]: the longest prefix of a sequence that is not valid becomes
    U+FFFD. *)
Definition REPLACEMENT : bytes := [Byte.xef; Byte.xbf; Byte.xbd].
Fixpoint lossy (l : bytes) : bytes :=
  match l with
  | [] => []
  | a :: l1 =>
      if byte_val a <? 0x80 then a :: lossy l1
      else match l1 with
      | [] => REPLACEMENT
      | b :: l2 =>
          if between 0xc2 0xdf (byte_val a) then
            if continuation (byte_val b) then a :: b :: lossy l2 else REPLACEMENT ++ lossy l1
          else if between 0xe0 0xef (byte_val a) then
            if second_of_three (byte_val a) (byte_val b) then
              match l2 with
              | [] => REPLACEMENT
              | c :: l3 =>
                  if continuation (byte_val c) then a :: b :: c :: lossy l3
                  else REPLACEMENT ++ lossy l2
              end
            else REPLACEMENT ++ lossy l1
          else if between 0xf0 0xf4 (byte_val a) then
            if second_of_four (byte_val a) (byte_val b) then
              match l2 with
              | [] => REPLACEMENT
              | c :: l3 =>
                  if continuation (byte_val c) then
                    match l3 with
                    | [] => REPLACEMENT
                    | d :: l4 =>
                        if continuation (byte_val d) then a :: b :: c :: d :: lossy l4
                        else REPLACEMENT ++ lossy l3
                    end
                  else REPLACEMENT ++ lossy l2
              end
            else REPLACEMENT ++ lossy l1
          else REPLACEMENT ++ lossy l1
      end
  end.
Definition from_utf8_lossy (bs : bytes) : string := String.string_of_list_byte (lossy bs).

(** [CString::new]: a string without zero bytes. *)
Fixpoint has_nul (s : string) : bool :=
  match s with
  | EmptyString => false
  | String c s => Ascii.eqb c zero || has_nul s
  end.
Definition c_string (s : string) : option string := if has_nul s then None else Some s.

(** ** The host *)

(** [libc::stat] and [libc::statfs], as far as they are looked at. *)
Record HostStat := mkHostStat {
  hs_dev : Z; hs_ino : Z; hs_mode : Z; hs_nlink : Z; hs_uid : Z; hs_gid : Z; hs_rdev : Z;
  hs_size : Z; hs_atime : Z; hs_atime_nsec : Z; hs_mtime : Z; hs_mtime_nsec : Z;
  hs_ctime : Z; hs_ctime_nsec : Z
}.
Record StatFs := mkStatFs { f_files : Z; f_blocks : Z; f_bfree : Z; f_bsize : Z }.
(** A [timespec]. *)
Definition TimeSpec : Type := Z * Z.

(** The calls, by what they answer.  [Metadata] is [std::fs::metadata]; [Readdir]: the names
    that [readdir] gives, call after call, until the end or an error; [Dup]: [try_clone]. *)
Inductive HostCall : Type → Type :=
| Metadata (path : string) : HostCall HostStat
| Open (path : string) (flags : Z) : HostCall Z
| Openat (dirfd : Z) (name : string) (flags mode : Z) : HostCall Z
| Dup (fd : Z) : HostCall Z
| Close (fd : Z) : HostCall unit
| Fstatat (dirfd : Z) (name : string) (flags : Z) : HostCall HostStat
| Fstat (fd : Z) : HostCall HostStat
| Readlinkat (dirfd : Z) (name : string) (bufsize : Z) : HostCall bytes
| Fdopendir (fd : Z) : HostCall unit
| Readdir (fd : Z) : HostCall (list bytes * option Z)
| Closedir (fd : Z) : HostCall unit
| Chmod (path : string) (mode : Z) : HostCall unit
| Fchownat (dirfd : Z) (name : string) (uid gid flags : Z) : HostCall unit
| Utimensat (dirfd : Z) (path : string) (atime mtime : TimeSpec) (flags : Z) : HostCall unit
| Mkdirat (dirfd : Z) (name : string) (mode : Z) : HostCall unit
| Mknodat (dirfd : Z) (name : string) (mode rdev : Z) : HostCall unit
| Symlinkat (target : string) (dirfd : Z) (name : string) : HostCall unit
| Unlinkat (dirfd : Z) (name : string) (flags : Z) : HostCall unit
| Linkat (olddirfd : Z) (oldname : string) (newdirfd : Z) (newname : string) (flags : Z) :
    HostCall unit
| Renameat (olddirfd : Z) (oldname : string) (newdirfd : Z) (newname : string) : HostCall unit
| Fstatfs (fd : Z) : HostCall StatFs
| Pread (fd size offset : Z) : HostCall bytes
| Pwrite (fd : Z) (data : bytes) (offset : Z) : HostCall Z
| Ftruncate (fd size : Z) : HostCall unit
| Fsync (fd : Z) : HostCall unit.

(** A host: every call succeeds, or fails with an [errno]. *)
Definition Host (K : Type) : Type := ∀ A, HostCall A → K → (Z + A) * K.

(** The flags of the [libc] crate, and the texts of the errors of other crates. *)
Class LibcHost := {
  O_PATH : Z; O_NOFOLLOW : Z; O_DIRECTORY : Z; O_RDONLY : Z; O_RDWR : Z; O_CREAT : Z; O_TRUNC : Z;
  AT_EMPTY_PATH : Z; AT_SYMLINK_NOFOLLOW : Z; AT_REMOVEDIR : Z; AT_FDCWD : Z;
  PATH_MAX : Z; UTIME_NOW : Z; UTIME_OMIT : Z;
  os_error_text : Z → string; join_error_text : string
}.
#[export] Instance libc_host_linux : LibcHost := {|
  O_PATH := 0x200000; O_NOFOLLOW := 0x20000; O_DIRECTORY := 0x10000; O_RDONLY := 0; O_RDWR := 2;
  O_CREAT := 0x40; O_TRUNC := 0x200; AT_EMPTY_PATH := 0x1000; AT_SYMLINK_NOFOLLOW := 0x100;
  AT_REMOVEDIR := 0x200; AT_FDCWD := -100; PATH_MAX := 4096; UTIME_NOW := 0x3fffffff;
  UTIME_OMIT := 0x3ffffffe; os_error_text _ := "os error"; join_error_text := "task panicked" |}.

(** ** State *)

(** The identity of a file of the host. *)
Record SrcId := mkSrcId { id_ino : Z; id_dev : Z }.
#[export] Instance src_id_eq_dec : EqDecision SrcId.
Proof. solve_decision. Defined.
#[export] Instance src_id_countable : Countable SrcId.
Proof.
  by refine (inj_countable' (λ s, (id_ino s, id_dev s)) (λ p, mkSrcId p.1 p.2) _); intros [].
Defined.

Record Inode := mkInode { fd : Z; src_ino : Z; src_dev : Z; nlookup : Z }.
Definition src_id (i : Inode) : SrcId := mkSrcId (src_ino i) (src_dev i).
Definition stat_id (st : HostStat) : SrcId := mkSrcId (hs_ino st) (hs_dev st).

Record HostMem := mkHostMem {
  root : string;
  root_fd : Z;
  inodes : gmap Z Inode;
  src_to_ino : gmap SrcId Z;
  next_ino : Z;
  fuse_mountpoint_inode : option Z
}.
Record HostFSFile := mkHostFile { hf_fd : Z }.

Definition ROOT_INO : Z := 1.

Definition set_inodes (x : gmap Z Inode) (m : HostMem) : HostMem :=
  mkHostMem (root m) (root_fd m) x (src_to_ino m) (next_ino m) (fuse_mountpoint_inode m).
Definition set_src_to_ino (x : gmap SrcId Z) (m : HostMem) : HostMem :=
  mkHostMem (root m) (root_fd m) (inodes m) x (next_ino m) (fuse_mountpoint_inode m).
Definition set_next_ino (x : Z) (m : HostMem) : HostMem :=
  mkHostMem (root m) (root_fd m) (inodes m) (src_to_ino m) x (fuse_mountpoint_inode m).

(** ** Calling the host *)

Definition io_error {D C A} (errno : Z) : M D C A := throw (Error.Io (Some errno)).

Section Calls.
Context {K C : Type} (host : Host K).

Definition libc {A} (c : HostCall A) : M K C (Z + A) := λ w,
  let '(r, k) := host A c (w_db w) in
  (Ok r, mkWorld k (w_mem w) (w_faults w) (w_clock w) (w_tick w)).

(** A call whose failure is [last_os_error().into()]; [refused] maps the [errno] codes that have
    an error of their own. *)
Definition mapped {A} (refused : Z → option FsError.t) (c : HostCall A) : M K C A :=
  r ← libc c;
  match r with
  | inr a => mret a
  | inl errno => match refused errno with Some e => fs_err e | None => io_error errno end
  end.
Definition io {A} (c : HostCall A) : M K C A := mapped (λ _, None) c.

(** The drop of an [OwnedFd]. *)
Definition drop_fd (fd : Z) : M K C unit := libc (Close fd) ;; mret tt.

(** [fd] is owned while [m] runs: it is dropped when [m] does not end with [Ok]. *)
Definition owning {A} (fd : Z) (m : M K C A) : M K C A := λ w,
  match m w with
  | (Ok a, w') => (Ok a, w')
  | (r, w') => (r, (drop_fd fd w').2)
  end.

(** [spawn_blocking(..).await.map_err(..)]: a panic of the task is an error. *)
Definition spawn_blocking `{LibcHost} {A} (m : M K C A) : M K C A := λ w,
  match m w with
  | (Panic, w') => (Err (Error.Internal join_error_text), w')
  | r => r
  end.
End Calls.

(** [CString::new(name).map_err(|_| FsError::InvalidPath)?] *)
Definition cstr {D C} (s : string) : M D C string := ok_or (Error.Fs FsError.InvalidPath) (c_string s).

Definition stat_to_stats (st : HostStat) : Stats :=
  mkStats (as_i64 (hs_ino st)) (hs_mode st) (as_u32 (hs_nlink st)) (hs_uid st) (hs_gid st)
    (hs_size st) (hs_atime st) (hs_mtime st) (hs_ctime st) (as_u32 (hs_atime_nsec st))
    (as_u32 (hs_mtime_nsec st)) (as_u32 (hs_ctime_nsec st)) (hs_rdev st).
Definition with_ino (ino : Z) (s : Stats) : Stats :=
  mkStats ino (st_mode s) (st_nlink s) (st_uid s) (st_gid s) (st_size s) (st_atime s)
    (st_mtime s) (st_ctime s) (st_atime_nsec s) (st_mtime_nsec s) (st_ctime_nsec s) (st_rdev s).
(** [let mut stats = stat_to_stats(&stat); stats.ino = ino;] *)
Definition numbered (ino : Z) (st : HostStat) : Stats := with_ino ino (stat_to_stats st).

Definition proc_path (fd : Z) : string := "/proc/self/fd/" +:+ pretty fd.

Section HostFS.
Context {K : Type} (host : Host K) {L : Libc} {LH : LibcHost} (overflow_checks : bool).

Abbreviation H := (M K HostMem).

(** ** Open files *)

(** [vec![0; size]] panics above [isize::MAX]. *)
Definition HostFSFile_pread (f : HostFSFile) (offset size : Z) : H bytes :=
  spawn_blocking (
    or_panic (if size <? 2 ^ 63 then Some tt else None) ;;
    io host (Pread (hf_fd f) size (as_i64 offset))).

Definition HostFSFile_pwrite (f : HostFSFile) (offset : Z) (data : bytes) : H unit :=
  io host (Pwrite (hf_fd f) data (as_i64 offset)) ;; mret tt.
Definition HostFSFile_truncate (f : HostFSFile) (size : Z) : H unit :=
  io host (Ftruncate (hf_fd f) (as_i64 size)).
Definition HostFSFile_fsync (f : HostFSFile) : H unit := io host (Fsync (hf_fd f)).
Definition HostFSFile_fstat (f : HostFSFile) : H Stats :=
  stat ← io host (Fstat (hf_fd f)); mret (stat_to_stats stat).
(** The last reference to an open file goes. *)
Definition HostFSFile_drop (f : HostFSFile) : H unit := drop_fd host (hf_fd f).

(** ** Inodes *)

Definition get_inode (ino : Z) : H (option Inode) := with_mem (λ m, (inodes m !! ino, m)).
Definition get_inode_fd (ino : Z) : H Z :=
  inode ← get_inode ino;
  match inode with Some inode => mret (fd inode) | None => fs_err FsError.NotFound end.
(** [match self.get_inode_fd(ino) { Ok(fd) => fd, Err(_) => return Ok(None) }] *)
Definition if_known {A} (ino : Z) (k : Z → H (option A)) : H (option A) :=
  inode ← get_inode ino;
  match inode with Some inode => k (fd inode) | None => mret None end.

Definition alloc_ino : H Z :=
  with_mem (λ m, (as_i64 (next_ino m), set_next_ino (as_u64 (next_ino m + 1)) m)).

Definition fstatat_empty_path (fd : Z) : H HostStat :=
  io host (Fstatat fd "" (Z.lor AT_EMPTY_PATH AT_SYMLINK_NOFOLLOW)).
Definition open_real_fd (o_path_fd flags : Z) : H Z := io host (Open (proc_path o_path_fd) flags).

Definition set_nlookup (n : Z) (i : Inode) : Inode := mkInode (fd i) (src_ino i) (src_dev i) n.

(** The two steps of [get_or_create_inode]: with the read locks, a known file is found and
    counted; with the write locks, a new inode is entered. *)
Definition find_inode (stat : HostStat) : H (option Z) :=
  with_mem (λ m,
    match src_to_ino m !! stat_id stat with
    | Some ino =>
        match inodes m !! ino with
        | Some inode =>
            (Some ino,
             set_inodes (<[ino := set_nlookup (as_u64 (nlookup inode + 1)) inode]> (inodes m)) m)
        | None => (None, m)
        end
    | None => (None, m)
    end).
Definition create_inode (fd : Z) (stat : HostStat) : H Z :=
  ino ← alloc_ino;
  with_mem (λ m, (tt,
    set_inodes (<[ino := mkInode fd (hs_ino stat) (hs_dev stat) 1]> (inodes m)) m)) ;;
  with_mem (λ m, (tt, set_src_to_ino (<[stat_id stat := ino]> (src_to_ino m)) m)) ;;
  mret ino.

(** [fd] is dropped when the file is known. *)
Definition get_or_create_inode (fd : Z) (stat : HostStat) : H (Z * bool) :=
  known ← find_inode stat;
  match known with
  | Some ino => drop_fd host fd ;; mret (ino, false)
  | None => ino ← create_inode fd stat; mret (ino, true)
  end.

Definition remove_inode (ino : Z) : H unit :=
  inode ← with_mem (λ m, (inodes m !! ino, set_inodes (base.delete ino (inodes m)) m));
  match inode with
  | Some inode =>
      with_mem (λ m, (tt, set_src_to_ino (base.delete (src_id inode) (src_to_ino m)) m)) ;;
      drop_fd host (fd inode)
  | None => mret tt
  end.

(** [HostFS::new] and [with_fuse_mountpoint]. *)
Definition is_ok {A} (r : Z + A) : bool := match r with inr _ => true | inl _ => false end.
Definition new {C} (root : string) : M K C HostMem :=
  exists_ ← libc host (Metadata root);
  if negb (is_ok exists_) then throw (Error.BaseDirectoryNotFound (from_utf8_lossy (as_bytes root)))
  else
    md ← libc host (Metadata root);
    if negb (match md with inr st => has_type (hs_mode st) S_IFDIR | inl _ => false end)
    then throw (Error.NotADirectory (from_utf8_lossy (as_bytes root)))
    else
      c_path ← ok_or (Error.Internal "invalid path") (c_string root);
      root_fd ← io host (Open c_path (Z.lor O_PATH O_DIRECTORY));
      owning host root_fd (
        stat ← io host (Fstatat root_fd "" AT_EMPTY_PATH);
        cloned ← libc host (Dup root_fd);
        match cloned with
        | inl errno => throw (Error.Internal (os_error_text errno))
        | inr fd =>
            mret (mkHostMem root root_fd {[ROOT_INO := mkInode fd (hs_ino stat) (hs_dev stat) 1]}
                    {[stat_id stat := ROOT_INO]} 2 None)
        end).
Definition with_fuse_mountpoint (inode : Z) (m : HostMem) : HostMem :=
  mkHostMem (root m) (root_fd m) (inodes m) (src_to_ino m) (next_ino m) (Some inode).

(** ** The trait [FileSystem] *)

Definition not_found (errno : Z) : option FsError.t :=
  if errno =? ENOENT then Some FsError.NotFound else None.
Definition already_exists (errno : Z) : option FsError.t :=
  if errno =? EEXIST then Some FsError.AlreadyExists else None.
Definition rmdir_refused (errno : Z) : option FsError.t :=
  if errno =? ENOENT then Some FsError.NotFound
  else if errno =? ENOTEMPTY then Some FsError.NotEmpty
  else if errno =? ENOTDIR then Some FsError.NotADirectory else None.

Definition is_mountpoint (src_ino : Z) (m : HostMem) : bool :=
  bool_decide (fuse_mountpoint_inode m = Some src_ino).

Definition mountpoint (src_ino : Z) : H bool := with_mem (λ m, (is_mountpoint src_ino m, m)).
Definition mountpoint_inode (ino : Z) : H bool :=
  with_mem (λ m,
    (match inodes m !! ino with Some i => is_mountpoint (src_ino i) m | None => false end, m)).

(** [?] with an [fd] that is dropped in any case. *)
Definition dropping {A} (fd : Z) (a : A) : H A := drop_fd host fd ;; mret a.

Definition lookup (parent_ino : Z) (name : string) : H (option Stats) :=
  parent_fd ← get_inode_fd parent_ino;
  hidden ← mountpoint_inode parent_ino;
  if (hidden : bool) then mret None
  else
    c_name ← cstr name;
    r ← libc host (Openat parent_fd c_name (Z.lor O_PATH O_NOFOLLOW) 0);
    match r with
    | inl errno => if errno =? ENOENT then mret None else io_error errno
    | inr child_fd =>
        stat ← owning host child_fd (fstatat_empty_path child_fd);
        hidden ← mountpoint (hs_ino stat);
        if (hidden : bool) then dropping child_fd None
        else
          r ← get_or_create_inode child_fd stat;
          mret (Some (numbered r.1 stat))
    end.

Definition getattr (ino : Z) : H (option Stats) :=
  if_known ino (λ fd, stat ← fstatat_empty_path fd; mret (Some (numbered ino stat))).

Definition readlink (ino : Z) : H (option string) :=
  if_known ino (λ fd,
    r ← libc host (Readlinkat fd "" PATH_MAX);
    match r with
    | inl errno =>
        if errno =? ENOENT then mret None
        else if errno =? EINVAL then fs_err FsError.NotASymlink
        else io_error errno
    | inr buf => mret (Some (from_utf8_lossy buf))
    end).

Definition is_dots (name : string) : bool := String.eqb name "." || String.eqb name "..".

(** The stream of a directory: [body] is run on what it gives; an error of the stream closes it,
    like its end. *)
Definition with_dir {A} (ino_fd : Z) (body : Z → list bytes → H A) : H A :=
  dir_fd ← open_real_fd ino_fd (Z.lor O_RDONLY O_DIRECTORY);
  owning host dir_fd (io host (Fdopendir dir_fd)) ;;
  r ← libc host (Readdir dir_fd);
  let '(names, error) := match r with inr x => x | inl errno => ([], Some errno) end in
  a ← body dir_fd names;
  libc host (Closedir dir_fd) ;;
  match error with Some errno => io_error errno | None => mret a end.

Definition string_le (a b : string) : Prop := String.le a b.

Definition readdir (ino : Z) : H (option (list string)) :=
  if_known ino (λ fd,
    entries ← with_dir fd (λ _ names,
      mret (filter (λ n, is_dots n = false) (from_utf8_lossy <$> names)));
    mret (Some (merge_sort String.le entries))).

(** The loop of [readdir_plus] over the stream, and the one that opens what it found. *)
Fixpoint stat_entries (dir_fd : Z) (names : list bytes) : H (list (string * HostStat)) :=
  match names with
  | [] => mret []
  | d_name :: names =>
      let name := from_utf8_lossy d_name in
      if is_dots name then stat_entries dir_fd names
      else
        r ← libc host (Fstatat dir_fd (String.string_of_list_byte d_name) AT_SYMLINK_NOFOLLOW);
        match r with
        | inr stat =>
            hidden ← mountpoint (hs_ino stat);
            rest ← stat_entries dir_fd names;
            mret (if (hidden : bool) then rest else (name, stat) :: rest)
        | inl _ => stat_entries dir_fd names
        end
  end.
Fixpoint number_entries (fd : Z) (entries : list (string * HostStat)) : H (list DirEntry) :=
  match entries with
  | [] => mret []
  | (name, stat) :: entries =>
      c_name ← cstr name;
      r ← libc host (Openat fd c_name (Z.lor O_PATH O_NOFOLLOW) 0);
      match r with
      | inl _ => number_entries fd entries
      | inr child_fd =>
          child ← get_or_create_inode child_fd stat;
          rest ← number_entries fd entries;
          mret (mkDirEntry name (numbered child.1 stat) :: rest)
      end
  end.
Definition entry_le (a b : DirEntry) : Prop := String.le (de_name a) (de_name b).
#[export] Instance entry_le_dec a b : Decision (entry_le a b).
Proof. unfold entry_le. apply _. Defined.

Definition readdir_plus (ino : Z) : H (option (list DirEntry)) :=
  if_known ino (λ fd,
    entries_raw ← with_dir fd stat_entries;
    result ← number_entries fd entries_raw;
    mret (Some (merge_sort entry_le result))).

Definition chmod (ino mode : Z) : H unit :=
  fd ← get_inode_fd ino; io host (Chmod (proc_path fd) mode).

Definition chown (ino : Z) (uid gid : option Z) : H unit :=
  fd ← get_inode_fd ino;
  stat ← fstatat_empty_path fd;
  io host (Fchownat fd "" (default (hs_uid stat) uid) (default (hs_gid stat) gid)
             (Z.lor AT_EMPTY_PATH AT_SYMLINK_NOFOLLOW)).

Definition to_timespec (tc : TimeChange) (current : TimeSpec) : TimeSpec :=
  match tc with
  | SetTime secs nsec => (secs, nsec)
  | Now => (0, UTIME_NOW)
  | Omit => current
  end.
Definition utimens (ino : Z) (atime mtime : TimeChange) : H unit :=
  fd ← get_inode_fd ino;
  let omit_spec := (0, UTIME_OMIT) in
  io host (Utimensat AT_FDCWD (proc_path fd) (to_timespec atime omit_spec)
             (to_timespec mtime omit_spec) 0).

Definition open (ino flags : Z) : H HostFSFile :=
  fd ← get_inode_fd ino;
  real_fd ← open_real_fd fd flags;
  mret (mkHostFile real_fd).

(** [self.lookup(parent_ino, name).await?.ok_or(FsError::NotFound.into())] *)
Definition lookup_new (parent_ino : Z) (name : string) : H Stats :=
  s ← lookup parent_ino name; ok_or (Error.Fs FsError.NotFound) s.

Definition mkdir (parent_ino : Z) (name : string) (mode uid gid : Z) : H Stats :=
  parent_fd ← get_inode_fd parent_ino;
  c_name ← cstr name;
  mapped host already_exists (Mkdirat parent_fd c_name mode) ;;
  lookup_new parent_ino name.

Definition create_file (parent_ino : Z) (name : string) (mode uid gid : Z) :
    H (Stats * HostFSFile) :=
  parent_fd ← get_inode_fd parent_ino;
  c_name ← cstr name;
  real_fd ← mapped host already_exists
    (Openat parent_fd c_name (Z.lor (Z.lor O_CREAT O_TRUNC) O_RDWR) mode);
  owning host real_fd (
    o_path_fd ← io host (Openat parent_fd c_name (Z.lor O_PATH O_NOFOLLOW) 0);
    stat ← owning host o_path_fd (fstatat_empty_path o_path_fd);
    r ← get_or_create_inode o_path_fd stat;
    mret (numbered r.1 stat, mkHostFile real_fd)).

Definition mknod (parent_ino : Z) (name : string) (mode rdev uid gid : Z) : H Stats :=
  parent_fd ← get_inode_fd parent_ino;
  c_name ← cstr name;
  mapped host already_exists (Mknodat parent_fd c_name mode rdev) ;;
  lookup_new parent_ino name.

Definition symlink (parent_ino : Z) (name target : string) (uid gid : Z) : H Stats :=
  parent_fd ← get_inode_fd parent_ino;
  c_name ← cstr name;
  c_target ← cstr target;
  mapped host already_exists (Symlinkat c_target parent_fd c_name) ;;
  lookup_new parent_ino name.

Definition unlink (parent_ino : Z) (name : string) : H unit :=
  parent_fd ← get_inode_fd parent_ino;
  c_name ← cstr name;
  mapped host not_found (Unlinkat parent_fd c_name 0).

Definition rmdir (parent_ino : Z) (name : string) : H unit :=
  parent_fd ← get_inode_fd parent_ino;
  c_name ← cstr name;
  mapped host rmdir_refused (Unlinkat parent_fd c_name AT_REMOVEDIR).

Definition link (ino newparent_ino : Z) (newname : string) : H Stats :=
  fd ← get_inode_fd ino;
  newparent_fd ← get_inode_fd newparent_ino;
  c_newname ← cstr newname;
  mapped host already_exists (Linkat fd "" newparent_fd c_newname AT_EMPTY_PATH) ;;
  s ← getattr ino;
  ok_or (Error.Fs FsError.NotFound) s.

Definition rename (oldparent_ino : Z) (oldname : string) (newparent_ino : Z) (newname : string) :
    H unit :=
  oldparent_fd ← get_inode_fd oldparent_ino;
  newparent_fd ← get_inode_fd newparent_ino;
  c_oldname ← cstr oldname;
  c_newname ← cstr newname;
  mapped host not_found (Renameat oldparent_fd c_oldname newparent_fd c_newname).

(** Arithmetic of [u64]: a build with overflow checks panics outside the range. *)
Definition u64_arith (z : Z) : H Z :=
  or_panic (if (0 <=? z) && (z <? 2 ^ 64) then Some z
            else if overflow_checks then None else Some (as_u64 z)).

Definition statfs : H FilesystemStats :=
  fd ← with_mem (λ m, (root_fd m, m));
  spawn_blocking (
    st ← io host (Fstatfs fd);
    used ← u64_arith (f_blocks st - f_bfree st);
    bytes_used ← u64_arith (used * as_u64 (f_bsize st));
    mret (mkFsStats (f_files st) bytes_used)).

(** The two steps of [forget]: with the read lock, the count goes down; with the write lock, the
    inode goes. *)
Definition forget_count (ino count : Z) : H bool :=
  with_mem (λ m,
    match inodes m !! ino with
    | Some inode =>
        (nlookup inode <=? count,
         set_inodes (<[ino := set_nlookup (as_u64 (nlookup inode - count)) inode]> (inodes m)) m)
    | None => (false, m)
    end).
Definition forget (ino count : Z) : H unit :=
  if ino =? ROOT_INO then mret tt
  else
    should_remove ← forget_count ino count;
    if (should_remove : bool) then remove_inode ino else mret tt.
End HostFS.

(** A filesystem of the SDK. *)
#[export] Instance hostfs_filesystem {K} (host : Host K) {L : Libc} {LH : LibcHost}
    (overflow_checks : bool) : SdkFs.FileSystem K HostMem := {|
  SdkFs.File := HostFSFile;
  SdkFs.lookup := lookup host;
  SdkFs.getattr := getattr host;
  SdkFs.readlink := readlink host;
  SdkFs.readdir := readdir host;
  SdkFs.readdir_plus := readdir_plus host;
  SdkFs.chmod := chmod host;
  SdkFs.chown := chown host;
  SdkFs.utimens := utimens host;
  SdkFs.open := open host;
  SdkFs.mkdir := mkdir host;
  SdkFs.create_file := create_file host;
  SdkFs.mknod := mknod host;
  SdkFs.symlink := symlink host;
  SdkFs.unlink := unlink host;
  SdkFs.rmdir := rmdir host;
  SdkFs.link := link host;
  SdkFs.rename := rename host;
  SdkFs.pread := HostFSFile_pread host;
  SdkFs.pwrite := HostFSFile_pwrite host;
  SdkFs.truncate := HostFSFile_truncate host;
  SdkFs.fsync := HostFSFile_fsync host;
  SdkFs.fstat := HostFSFile_fstat host;
  SdkFs.statfs := statfs host overflow_checks;
  SdkFs.forget := forget host |}.
