(* ===== verification/HostFsProps.v ===== *)
(** * HostFsProps: the inode numbers and descriptors of a host filesystem

    Over any host whose calls do to descriptors and names what their documentation says, the
    handle is a ledger: which file every inode number stands for, and how often it was given
    out; and it keeps exactly the descriptors that the ledger needs. *)
From S2P Require Import Prelude Types Engine Xdr Utf8 NfsAdapter HostFs.

(** ** What the host promises *)

(** The flags with which files are looked up. *)
Definition find_flags `{LibcHost} : Z := Z.lor O_PATH O_NOFOLLOW.
Definition own_flags `{LibcHost} : Z := Z.lor AT_EMPTY_PATH AT_SYMLINK_NOFOLLOW.

(** Calls that open or close no descriptor, and those that change no directory. *)
Definition keeps_fds {A} (c : HostCall A) : bool :=
  match c with
  | Open _ _ | Openat _ _ _ _ | Dup _ | Close _ | Closedir _ => false
  | _ => true
  end.
Definition peeks `{LibcHost} {A} (c : HostCall A) : bool :=
  match c with
  | Metadata _ | Dup _ | Close _ | Fstatat _ _ _ | Fstat _ | Readlinkat _ _ _ | Fdopendir _
  | Readdir _ | Closedir _ | Fstatfs _ | Pread _ _ _ | Fsync _ => true
  | Open _ flags => flags =? Z.lor O_RDONLY O_DIRECTORY
  | Openat _ _ flags _ => flags =? find_flags
  | _ => false
  end.

(** [ofds]: the open descriptors, and the file each of them denotes; the identity of a file that
    is open belongs to no other.  [entry]: the names in directories.  [dir_max]: how many there
    are. *)
Section Host.
Context {K : Type} (host : Host K) {L : Libc} {LH : LibcHost} (overflow_checks : bool).
Context (ofds : K → gmap Z SrcId) (entry : K → SrcId → string → option SrcId) (dir_max : Z).

Definition opens (r : (Z + Z) * K) (k : K) (P : SrcId → Prop) : Prop :=
  match r with
  | (inl _, k') => ofds k' = ofds k
  | (inr fd, k') => ofds k !! fd = None ∧ ∃ o, P o ∧ ofds k' = <[fd := o]> (ofds k)
  end.

Class HostLaws : Prop := {
  h_open path flags k : opens (host _ (Open path flags) k) k (λ _, True);
  (** [/proc/self/fd/N] leads to what [N] denotes. *)
  h_open_proc fd flags o k : ofds k !! fd = Some o →
    opens (host _ (Open (proc_path fd) flags) k) k (λ o', o' = o);
  h_openat d n flags mode k : opens (host _ (Openat d n flags mode) k) k (λ _, True);
  h_find d n mode od k : ofds k !! d = Some od →
    opens (host _ (Openat d n find_flags mode) k) k (λ o, entry k od n = Some o);
  h_absent d n mode od k : ofds k !! d = Some od →
    (host _ (Openat d n find_flags mode) k).1 = inl ENOENT → entry k od n = None;
  h_dup fd k : opens (host _ (Dup fd) k) k (λ o, ofds k !! fd = Some o);
  h_close fd k : ofds (host _ (Close fd) k).2 = base.delete fd (ofds k);
  h_closedir fd k : ofds (host _ (Closedir fd) k).2 = base.delete fd (ofds k);
  h_keeps {A} (c : HostCall A) k : keeps_fds c = true → ofds (host A c k).2 = ofds k;
  h_peeks {A} (c : HostCall A) k : peeks c = true → entry (host A c k).2 = entry k;
  (** The attributes of what a descriptor denotes, and of an entry of a directory. *)
  h_stat fd flags st k : (flags = own_flags ∨ flags = AT_EMPTY_PATH) →
    (host _ (Fstatat fd "" flags) k).1 = inr st → ofds k !! fd = Some (stat_id st);
  h_stat_entry d n od st k : ofds k !! d = Some od →
    (host _ (Fstatat d n AT_SYMLINK_NOFOLLOW) k).1 = inr st → entry k od n = Some (stat_id st);
  (** Names are UTF-8, without zero bytes, and there are at most [dir_max] in a directory. *)
  h_names fd names error k : (host _ (Readdir fd) k).1 = inr (names, error) →
    len names <= dir_max ∧
    Forall (λ n, utf8_valid (byte_val <$> n) = true ∧ has_nul (String.string_of_list_byte n) = false) names;
  h_dir_max : 0 <= dir_max
}.
Context {HL : HostLaws}.

(** ** The ledger *)

(** Which file a number stands for and how often it was given out; the next number; the other
    descriptors that are open. *)
Record Ledger := mkLedger { lg : gmap Z (SrcId * Z); nx : Z; files : gmap Z SrcId }.

(** A file is reported under the number [j]: the number it has, or a new one. *)
Definition sees (o : SrcId) (j : Z) (a a' : Ledger) : Prop :=
  (∃ n, lg a !! j = Some (o, n) ∧ a' = mkLedger (<[j := (o, n + 1)]> (lg a)) (nx a) (files a)) ∨
  ((∀ j' n, lg a !! j' ≠ Some (o, n)) ∧ lg a !! j = None ∧ j = nx a ∧
   a' = mkLedger (<[j := (o, 1)]> (lg a)) (nx a + 1) (files a)).
Fixpoint seen (l : list (SrcId * Z)) (a a' : Ledger) : Prop :=
  match l with
  | [] => a' = a
  | (o, j) :: l => ∃ a1, sees o j a a1 ∧ seen l a1 a'
  end.

(** The client gives [count] references back; the root stays. *)
Definition forgets (j count : Z) (a : Ledger) : Ledger :=
  if j =? ROOT_INO then a
  else match lg a !! j with
       | Some (o, n) =>
           mkLedger (if n <=? count then base.delete j (lg a) else <[j := (o, n - count)]> (lg a))
             (nx a) (files a)
       | None => a
       end.

Definition set_files (f : gmap Z SrcId) (a : Ledger) : Ledger := mkLedger (lg a) (nx a) f.

(** ** The handle *)

Definition held (m : HostMem) (x : Z) : Prop :=
  x = root_fd m ∨ ∃ ino i, inodes m !! ino = Some i ∧ fd i = x.
Definition ledger (m : HostMem) : gmap Z (SrcId * Z) := (λ i, (src_id i, nlookup i)) <$> inodes m.

(** Numbers and files correspond one to one; every number has a descriptor of its own.  [b]: how
    many files can still be reported. *)
Record numbering (b : Z) (m : HostMem) (fds : gmap Z SrcId) : Prop := {
  nb_open ino i : inodes m !! ino = Some i → fds !! fd i = Some (src_id i);
  nb_fds ino1 ino2 i1 i2 :
    inodes m !! ino1 = Some i1 → inodes m !! ino2 = Some i2 → fd i1 = fd i2 → ino1 = ino2;
  nb_ids o ino : src_to_ino m !! o = Some ino ↔ ∃ i, inodes m !! ino = Some i ∧ src_id i = o;
  nb_root : is_Some (inodes m !! ROOT_INO);
  nb_root_fd : is_Some (fds !! root_fd m) ∧ ∀ ino i, inodes m !! ino = Some i → fd i ≠ root_fd m;
  nb_below ino i : inodes m !! ino = Some i → 1 <= ino < next_ino m;
  nb_count ino i : inodes m !! ino = Some i → 1 <= nlookup i ∧ nlookup i + b < 2 ^ 64;
  nb_room : 0 <= b ∧ 1 < next_ino m ∧ next_ino m + b < 2 ^ 63
}.

(** [R]: the descriptors that do not belong to the handle. *)
Record owned (R : gmap Z SrcId) (m : HostMem) (fds : gmap Z SrcId) : Prop := {
  ow_rest x : ¬ held m x → fds !! x = R !! x;
  ow_held x : held m x → R !! x = None
}.

Abbreviation W := (World K HostMem).
Abbreviation H := (M K HostMem).

(** The handle implements the ledger [a], in a host of the directories [T]. *)
Record St (b : Z) (T : SrcId → string → option SrcId) (a : Ledger) (w : W) : Prop := {
  st_numbering : numbering b (w_mem w) (ofds (w_db w));
  st_owned : owned (files a) (w_mem w) (ofds (w_db w));
  st_ledger : ledger (w_mem w) = lg a;
  st_next : next_ino (w_mem w) = nx a;
  st_tree : entry (w_db w) = T
}.

Lemma held_open b m fds x : numbering b m fds → held m x → is_Some (fds !! x).
Proof.
  intros Hn [->|(ino & i & Hi & <-)]; [apply Hn|]. rewrite (nb_open _ _ _ Hn _ _ Hi). by eexists.
Qed.

Lemma ledger_lookup m ino : ledger m !! ino = (λ i, (src_id i, nlookup i)) <$> inodes m !! ino.
Proof. apply lookup_fmap. Qed.

Lemma ledger_some m ino o n : ledger m !! ino = Some (o, n) ↔
  ∃ i, inodes m !! ino = Some i ∧ src_id i = o ∧ nlookup i = n.
Proof.
  rewrite ledger_lookup. destruct (inodes m !! ino) as [i|]; cbn; [|naive_solver].
  split; [intros [= <- <-]; eauto|by intros (? & [= <-] & <- & <-)].
Qed.

(** Numbers are as good as identities. *)
Lemma numbering_inj b m fds ino1 ino2 i1 i2 : numbering b m fds →
  inodes m !! ino1 = Some i1 → inodes m !! ino2 = Some i2 → src_id i1 = src_id i2 → ino1 = ino2.
Proof.
  intros Hn H1 H2 Heq.
  assert (src_to_ino m !! src_id i1 = Some ino1) by (apply (nb_ids _ _ _ Hn); eauto).
  assert (src_to_ino m !! src_id i1 = Some ino2) by (apply (nb_ids _ _ _ Hn); eauto).
  congruence.
Qed.

(** Only the descriptors of the handle matter. *)
Lemma numbering_fds b m fds fds' : numbering b m fds →
  (∀ x, held m x → fds' !! x = fds !! x) → numbering b m fds'.
Proof.
  intros [] Heq. split; try done.
  - intros ino i Hi. rewrite Heq; [by eapply nb_open0|]. right; eauto.
  - split; [|apply nb_root_fd0]. rewrite Heq; [apply nb_root_fd0|]. by left.
Qed.

(** ** Transitions of the handle *)

Lemma open_step b T T' a k w x o :
  St b T a w → ofds (w_db w) !! x = None → ofds k = <[x := o]> (ofds (w_db w)) → entry k = T' →
  files a !! x = None ∧ St b T' (set_files (<[x := o]> (files a)) a) (set_db k w).
Proof.
  intros [Hn Ho Hl Hx Ht] Hfree Hk Ht'.
  assert (Hnh : ¬ held (w_mem w) x).
  { intros [y Hy]%(held_open _ _ _ _ Hn). congruence. }
  assert (Hne : ∀ y, held (w_mem w) y → y ≠ x) by congruence.
  split; [by rewrite <-(ow_rest _ _ _ Ho)|]. split; cbn; [|..|done|done|done]; rewrite Hk.
  - apply (numbering_fds _ _ _ _ Hn). intros y Hy. by rewrite lookup_insert_ne by (by apply not_eq_sym, Hne).
  - split; intros y Hy.
    + destruct (decide (y = x)) as [->|]; [by rewrite !lookup_insert_eq|].
      rewrite !lookup_insert_ne by done. by apply Ho.
    + rewrite lookup_insert_ne; [by apply Ho|]. by apply not_eq_sym, Hne.
Qed.

Lemma close_step b T a k w x o :
  St b T (set_files (<[x := o]> (files a)) a) w → files a !! x = None →
  ofds k = base.delete x (ofds (w_db w)) → entry k = T → St b T a (set_db k w).
Proof.
  intros [Hn Ho Hl Hx Ht] Hfree Hk Ht'.
  assert (Hnh : ¬ held (w_mem w) x).
  { intros Hh%(ow_held _ _ _ Ho). cbn in Hh. by rewrite lookup_insert_eq in Hh. }
  assert (Hne : ∀ y, held (w_mem w) y → y ≠ x) by congruence.
  split; cbn; [|..|done|done|done]; rewrite Hk.
  - apply (numbering_fds _ _ _ _ Hn). intros y Hy. by rewrite lookup_delete_ne by (by apply not_eq_sym, Hne).
  - split; intros y Hy.
    + destruct (decide (y = x)) as [->|]; [by rewrite lookup_delete_eq|].
      rewrite lookup_delete_ne, (ow_rest _ _ _ Ho) by done. cbn. by rewrite lookup_insert_ne by done.
    + pose proof (ow_held _ _ _ Ho _ Hy) as Hr. cbn in Hr. rewrite lookup_insert_ne in Hr; [done|].
      by apply not_eq_sym, Hne.
Qed.

Lemma keep_step b T T' a k w :
  St b T a w → ofds k = ofds (w_db w) → entry k = T' → St b T' a (set_db k w).
Proof. intros [Hn Ho Hl Hx Ht] Hk Ht'. split; cbn; rewrite ?Hk; done. Qed.

Lemma sees_files o j a a' : sees o j a a' → files a' = files a.
Proof. by intros [(n & _ & ->)|(_ & _ & _ & ->)]. Qed.

(** A change of the table of inodes that keeps descriptors and identities. *)
Lemma numbering_recount b b' m fds j i n : numbering b m fds → inodes m !! j = Some i →
  0 <= b' <= b → 1 <= n → n + b' < 2 ^ 64 →
  numbering b' (set_inodes (<[j := set_nlookup n i]> (inodes m)) m) fds.
Proof.
  intros [] Hj Hb Hn1 Hn2.
  assert (Hold : ∀ ino i', <[j := set_nlookup n i]> (inodes m) !! ino = Some i' →
    ∃ i0, inodes m !! ino = Some i0 ∧ fd i' = fd i0 ∧ src_id i' = src_id i0).
  { intros ino i' [[<- <-]|[_ Hi]]%lookup_insert_Some; eauto. }
  split; cbn.
  - intros ino i' Hi. destruct (Hold _ _ Hi) as (i0 & Hi0 & -> & ->). by eapply nb_open0.
  - intros ino1 ino2 i1 i2 H1 H2 Heq.
    destruct (Hold _ _ H1) as (i01 & Hi1 & He1 & _), (Hold _ _ H2) as (i02 & Hi2 & He2 & _).
    eapply nb_fds0; [done..|congruence].
  - intros o ino. rewrite nb_ids0. destruct (decide (ino = j)) as [->|].
    + rewrite lookup_insert_eq, Hj. split; intros (i' & [= <-] & <-); eauto.
    + by rewrite lookup_insert_ne by done.
  - apply lookup_insert_is_Some'. by right.
  - split; [apply nb_root_fd0|]. intros ino i' Hi. destruct (Hold _ _ Hi) as (i0 & Hi0 & -> & _).
    by eapply nb_root_fd0.
  - intros ino i' Hi. destruct (Hold _ _ Hi) as (i0 & Hi0 & _). by eapply nb_below0.
  - intros ino i' [[<- <-]|[_ Hi]]%lookup_insert_Some; cbn; [lia|].
    specialize (nb_count0 _ _ Hi). lia.
  - lia.
Qed.

Lemma held_recount m j i n x : inodes m !! j = Some i →
  held (set_inodes (<[j := set_nlookup n i]> (inodes m)) m) x ↔ held m x.
Proof.
  intros Hj. unfold held. cbn. apply or_iff_compat_l. split.
  - intros (ino & i' & [[<- <-]|[_ Hi]]%lookup_insert_Some & <-); eauto.
  - intros (ino & i' & Hi & <-). destruct (decide (ino = j)) as [->|].
    + exists j, (set_nlookup n i). rewrite lookup_insert_eq. split; [done|]. cbn. congruence.
    + exists ino, i'. by rewrite lookup_insert_ne.
Qed.

Lemma owned_held R m m' fds : owned R m fds → (∀ x, held m' x ↔ held m x) → owned R m' fds.
Proof. intros [] Hh. split; intros x; rewrite Hh; auto. Qed.

(** The count of a number changes. *)
Lemma St_recount b b' T a w j i n : St b T a w → inodes (w_mem w) !! j = Some i →
  0 <= b' <= b → 1 <= n → n + b' < 2 ^ 64 →
  St b' T (mkLedger (<[j := (src_id i, n)]> (lg a)) (nx a) (files a))
    (set_mem (set_inodes (<[j := set_nlookup n i]> (inodes (w_mem w))) (w_mem w)) w).
Proof.
  intros [Hn Ho Hl Hx Ht] Hj Hb Hn1 Hn2. split; cbn; [|..|done|done].
  - by apply (numbering_recount b).
  - apply (owned_held _ _ _ _ Ho). intros x. by apply held_recount.
  - unfold ledger in *. cbn. by rewrite fmap_insert, Hl.
Qed.

Lemma find_inode_step b T a w st : St (b + 1) T a w → 0 <= b →
  match find_inode st w with
  | (Ok (Some j), w') => w_db w' = w_db w ∧ ∃ a', sees (stat_id st) j a a' ∧ St b T a' w'
  | (Ok None, w') => w' = w ∧ src_to_ino (w_mem w) !! stat_id st = None
  | _ => False
  end.
Proof.
  intros HS Hb. pose proof HS as [Hn Ho Hl Hx Ht]. unfold find_inode, with_mem.
  destruct (src_to_ino (w_mem w) !! stat_id st) as [j|] eqn:Hj; [|by destruct w].
  apply (nb_ids _ _ _ Hn) in Hj as (i & Hi & Hid). rewrite Hi. cbn. split; [done|].
  destruct (nb_count _ _ _ Hn _ _ Hi) as [Hc1 Hc2].
  rewrite as_u64_id by (unfold in_u64; lia).
  exists (mkLedger (<[j := (stat_id st, nlookup i + 1)]> (lg a)) (nx a) (files a)). split.
  - left. exists (nlookup i). split; [|done]. rewrite <-Hl, ledger_lookup, Hi. cbn. by rewrite Hid.
  - rewrite <-Hid. by apply (St_recount (b + 1)); [done..|lia|lia|lia].
Qed.

Lemma create_inode_step b T a w x st :
  St (b + 1) T (set_files (<[x := stat_id st]> (files a)) a) w → 0 <= b → files a !! x = None →
  src_to_ino (w_mem w) !! stat_id st = None →
  match create_inode x st w with
  | (Ok j, w') => w_db w' = w_db w ∧ ∃ a', sees (stat_id st) j a a' ∧ St b T a' w'
  | _ => False
  end.
Proof.
  intros [Hn Ho Hl Hx Ht] Hb Hfree Hnew. cbn in Hl, Hx. unfold create_inode, alloc_ino, with_mem, mbind, M_bind, mret, M_ret. cbn.
  split; [done|].
  assert (Hroom := nb_room _ _ _ Hn). rewrite as_i64_id, as_u64_id by (unfold in_i64, in_u64; lia).
  set (j := next_ino (w_mem w)) in *. set (i := mkInode x (hs_ino st) (hs_dev st) 1).
  assert (Hj : inodes (w_mem w) !! j = None).
  { destruct (inodes (w_mem w) !! j) eqn:He; [|done]. apply (nb_below _ _ _ Hn) in He. lia. }
  assert (Hx0 : ofds (w_db w) !! x = Some (stat_id st) ∧ ¬ held (w_mem w) x).
  { assert (Hnh : ¬ held (w_mem w) x).
    { intros Hh%(ow_held _ _ _ Ho). cbn in Hh. by rewrite lookup_insert_eq in Hh. }
    split; [|done]. rewrite (ow_rest _ _ _ Ho) by done. cbn. by rewrite lookup_insert_eq. }
  destruct Hx0 as [Hopen Hnh].
  assert (Hfd : ∀ ino' i', inodes (w_mem w) !! ino' = Some i' → fd i' ≠ x).
  { intros ino' i' Hi' Heq. apply Hnh. right; eauto. }
  exists (mkLedger (<[j := (stat_id st, 1)]> (lg a)) (nx a + 1) (files a)). split.
  - right. split_and!; [|by rewrite <-Hl, ledger_lookup, Hj|done..].
    intros j' n. rewrite <-Hl. intros (i' & Hi' & Hid & _)%ledger_some.
    assert (src_to_ino (w_mem w) !! stat_id st = Some j'); [|congruence].
    apply (nb_ids _ _ _ Hn). eauto.
  - split; cbn; [| |by unfold ledger in *; cbn; rewrite fmap_insert, Hl|by rewrite Hx|done].
    + destruct Hn. split; cbn.
      * intros ino i' [[<- <-]|[_ Hi]]%lookup_insert_Some; [done|by eapply nb_open0].
      * intros ino1 ino2 i1 i2 [[<- <-]|[_ H1]]%lookup_insert_Some [[<- <-]|[_ H2]]%lookup_insert_Some Heq;
          [done|by destruct (Hfd _ _ H2)|by destruct (Hfd _ _ H1)|by eapply nb_fds0].
      * intros o ino. destruct (decide (o = stat_id st)) as [->|Hd].
        -- rewrite lookup_insert_eq. split.
           ++ intros [= <-]. exists i. by rewrite lookup_insert_eq.
           ++ intros (i' & [[<- _]|[_ Hi]]%lookup_insert_Some & Hid); [done|].
              assert (src_to_ino (w_mem w) !! stat_id st = Some ino) by (apply nb_ids0; eauto). congruence.
        -- rewrite lookup_insert_ne, nb_ids0 by done. split; intros (i' & Hi & Hid).
           ++ exists i'. rewrite lookup_insert_ne; [done|]. congruence.
           ++ apply lookup_insert_Some in Hi as [[_ <-]|[_ Hi]]; [by destruct Hd|eauto].
      * apply lookup_insert_is_Some'. by right.
      * split; [apply nb_root_fd0|]. intros ino i' [[_ <-]|[_ Hi]]%lookup_insert_Some; [|by eapply nb_root_fd0].
        cbn. intros ->. apply Hnh. by left.
      * intros ino i' [[<- _]|[_ Hi]]%lookup_insert_Some; [lia|]. specialize (nb_below0 _ _ Hi). lia.
      * intros ino i' [[_ <-]|[_ Hi]]%lookup_insert_Some; [cbn; lia|]. specialize (nb_count0 _ _ Hi). lia.
      * lia.
    + assert (Hheld : ∀ y, held (mkHostMem (root (w_mem w)) (root_fd (w_mem w)) (<[j := i]> (inodes (w_mem w)))
        (<[stat_id st := j]> (src_to_ino (w_mem w))) (j + 1) (fuse_mountpoint_inode (w_mem w))) y ↔ held (w_mem w) y ∨ y = x).
      { intros y. unfold held. cbn. split.
        - intros [?|(ino & i' & [[_ <-]|[_ Hi]]%lookup_insert_Some & <-)]; eauto 6.
        - intros [[?|(ino & i' & Hi & <-)]| ->]; [by left|right..].
          + exists ino, i'. rewrite lookup_insert_ne; [done|]. congruence.
          + exists j, i. by rewrite lookup_insert_eq. }
      split; intros y; [intros Hy|intros Hy]; rewrite Hheld in Hy.
      * rewrite (ow_rest _ _ _ Ho) by tauto. cbn. rewrite lookup_insert_ne; [done|]. intros ->. tauto.
      * destruct Hy as [Hy| ->]; [|done]. pose proof (ow_held _ _ _ Ho _ Hy) as Hr. cbn in Hr.
        by apply lookup_insert_None in Hr as [].
Qed.

(** The memory without the inode [j]. *)
Definition without (j : Z) (o : SrcId) (m : HostMem) : HostMem :=
  set_src_to_ino (base.delete o (src_to_ino m)) (set_inodes (base.delete j (inodes m)) m).

Lemma remove_numbering b m fds j i : numbering b m fds → inodes m !! j = Some i → j ≠ ROOT_INO →
  numbering b (without j (src_id i) m) (base.delete (fd i) fds).
Proof.
  intros Hn Hj Hroot. pose proof Hn as [].
  assert (Hother : ∀ ino i', base.delete j (inodes m) !! ino = Some i' →
    inodes m !! ino = Some i' ∧ fd i' ≠ fd i ∧ src_id i' ≠ src_id i).
  { intros ino i' [Hd Hi]%lookup_delete_Some. split_and!; [done|..]; intros Heq; apply Hd.
    - by apply (nb_fds0 _ _ _ _ Hj Hi).
    - by apply (numbering_inj _ _ _ _ _ _ _ Hn Hj Hi). }
  split; cbn.
  - intros ino i' (Hi & Hd & _)%Hother. rewrite lookup_delete_ne by done. by eapply nb_open0.
  - intros ino1 ino2 i1 i2 (H1 & _)%Hother (H2 & _)%Hother. by eapply nb_fds0.
  - intros o ino. rewrite lookup_delete_Some, nb_ids0. split.
    + intros (Hd & i' & Hi & Hid). exists i'. rewrite lookup_delete_ne; [done|]. congruence.
    + intros (i' & (Hi & _ & Hd)%Hother & <-). eauto.
  - by rewrite lookup_delete_ne by done.
  - split; [|intros ino i' (Hi & _)%Hother; by eapply nb_root_fd0].
    rewrite lookup_delete_ne; [apply nb_root_fd0|]. by eapply nb_root_fd0.
  - intros ino i' (Hi & _)%Hother. by eapply nb_below0.
  - intros ino i' (Hi & _)%Hother. by eapply nb_count0.
  - done.
Qed.

Lemma remove_owned b R m fds j i : numbering b m fds → owned R m fds → inodes m !! j = Some i →
  owned R (without j (src_id i) m) (base.delete (fd i) fds).
Proof.
  intros Hn Ho Hj.
  assert (Hheld : ∀ x, held (without j (src_id i) m) x ↔ held m x ∧ x ≠ fd i).
  { intros x. unfold held. cbn. split.
    - intros [->|(ino & i' & [Hd Hi]%lookup_delete_Some & <-)].
      + split; [by left|]. apply not_eq_sym. by eapply (nb_root_fd _ _ _ Hn).
      + split; [right; eauto|]. intros Heq. apply Hd. by eapply (nb_fds _ _ _ Hn).
    - intros [[->|(ino & i' & Hi & <-)] Hd]; [by left|right].
      exists ino, i'. rewrite lookup_delete_ne; [done|]. congruence. }
  split; intros x; rewrite Hheld.
  - intros Hx. destruct (decide (x = fd i)) as [->|Hd].
    + rewrite lookup_delete_eq. symmetry. apply (ow_held _ _ _ Ho). right; eauto.
    + rewrite lookup_delete_ne by done. apply (ow_rest _ _ _ Ho). tauto.
  - intros [Hx _]. by apply (ow_held _ _ _ Ho).
Qed.

Lemma forget_step b T a w j count : St b T a w → 0 <= count →
  match forget host j count w with
  | (Ok _, w') => St b T (forgets j count a) w'
  | _ => False
  end.
Proof.
  intros HS Hcount. pose proof HS as [Hn Ho Hl Hx Ht]. unfold forget, forgets.
  destruct (Z.eqb_spec j ROOT_INO) as [|Hroot]; [done|].
  unfold forget_count, remove_inode, with_mem, mbind, M_bind. rewrite <-Hl, ledger_lookup.
  destruct (inodes (w_mem w) !! j) as [i|] eqn:Hj; cbn; [|by destruct w].
  assert (Hc := nb_count _ _ _ Hn _ _ Hj). assert (Hroom := nb_room _ _ _ Hn).
  destruct (Z.leb_spec (nlookup i) count) as [Hle|Hlt]; cbn.
  - rewrite lookup_insert_eq. unfold drop_fd, libc, mbind, M_bind. cbn.
    assert (Hcl := h_close (fd i) (w_db w)). assert (Hpk := h_peeks (Close (fd i)) (w_db w) eq_refl).
    destruct (host unit (Close (fd i)) (w_db w)) as [r k]. cbn in *.
    match goal with |- St _ _ _ (mkWorld _ ?m _ _ _) =>
      assert (m = without j (src_id i) (w_mem w)) as ->
        by (unfold without, set_src_to_ino, set_inodes; cbn; by rewrite delete_insert_eq) end.
    split; cbn; rewrite ?Hcl, ?Hpk; [..|done|done].
    + by apply remove_numbering.
    + by apply (remove_owned b).
    + unfold ledger. cbn. by rewrite <-fmap_delete.
  - rewrite as_u64_id by (unfold in_u64; lia). rewrite Hl. apply (St_recount b b); [done..|lia|lia|lia].
Qed.

(** ** Running operations

    An operation does not panic, and ends with an error of which [E] holds or a result of which
    [Q] does. *)
Definition wp {A} (m : H A) (E : Error.t → W → Prop) (Q : A → W → Prop) (w : W) : Prop :=
  match m w with
  | (Ok a, w') => Q a w'
  | (Err e, w') => E e w'
  | (Panic, _) => False
  end.

Lemma wp_host_bind {A B} (m : H A) (f : A → H B) E Q w :
  wp m E (λ a, wp (f a) E Q) w → wp (m ≫= f) E Q w.
Proof. unfold wp, mbind, M_bind. by destruct (m w) as [[a|e|] w1]. Qed.
Lemma wp_host_mono {A} (m : H A) (E E' : Error.t → W → Prop) (Q Q' : A → W → Prop) w :
  wp m E Q w → (∀ e w', E e w' → E' e w') → (∀ a w', Q a w' → Q' a w') → wp m E' Q' w.
Proof. unfold wp. destruct (m w) as [[a|e|] w1]; auto. Qed.
Lemma wp_libc {A} (c : HostCall A) E (Q : Z + A → W → Prop) w :
  Q (host A c (w_db w)).1 (set_db (host A c (w_db w)).2 w) → wp (libc host c) E Q w.
Proof. unfold wp, libc. by destruct (host A c (w_db w)). Qed.
Lemma wp_mapped {A} refused (c : HostCall A) (E : Error.t → W → Prop) (Q : A → W → Prop) w :
  (∀ e errno, (host A c (w_db w)).1 = inl errno → E e (set_db (host A c (w_db w)).2 w)) →
  (∀ a, (host A c (w_db w)).1 = inr a → Q a (set_db (host A c (w_db w)).2 w)) →
  wp (mapped host refused c) E Q w.
Proof.
  intros HE HQ. apply wp_host_bind, wp_libc. destruct ((host A c (w_db w)).1) as [errno|a].
  - unfold wp, fs_err, io_error, throw. by destruct (refused errno); eapply HE.
  - by apply HQ.
Qed.
Lemma wp_owning {A} fd (m : H A) E Q w :
  wp m (λ e, wp (drop_fd host fd) (λ _ _, False) (λ _, E e)) Q w → wp (owning host fd m) E Q w.
Proof.
  unfold wp, owning. destruct (m w) as [[a|e|] w1]; [done| |done].
  by destruct (drop_fd host fd w1) as [[]].
Qed.
Lemma wp_cstr s E Q w : (∀ e, E e w) → (has_nul s = false → Q s w) → wp (cstr s) E Q w.
Proof.
  intros HE HQ. unfold wp, cstr, c_string, ok_or, throw. destruct (has_nul s); [apply HE|by apply HQ].
Qed.

Lemma St_mono b b' T a w : St b T a w → 0 <= b' <= b → St b' T a w.
Proof.
  intros [[] Ho Hl Hx Ht] Hb. split; [|done..]. split; try done; [|lia].
  intros ino i Hi. specialize (nb_count0 _ _ Hi). lia.
Qed.

(** A descriptor that does not belong to the handle. *)
Lemma St_file b T a w x o : St b T a w → files a !! x = Some o → ofds (w_db w) !! x = Some o.
Proof.
  intros [_ Ho _ _ _] Hx. rewrite (ow_rest _ _ _ Ho); [done|].
  intros Hh%(ow_held _ _ _ Ho). congruence.
Qed.
Lemma St_inode b T a w ino i : St b T a w → inodes (w_mem w) !! ino = Some i →
  ofds (w_db w) !! fd i = Some (src_id i) ∧ lg a !! ino = Some (src_id i, nlookup i).
Proof.
  intros [Hn _ Hl _ _] Hi. split; [by eapply nb_open|]. by rewrite <-Hl, ledger_lookup, Hi.
Qed.

Lemma St_keep {A} (c : HostCall A) b T a w : St b T a w → keeps_fds c = true →
  ∃ T', St b T' a (set_db (host A c (w_db w)).2 w) ∧ (peeks c = true → T' = T).
Proof.
  intros HS Hc. exists (entry (host A c (w_db w)).2). split.
  - by apply (keep_step b T); [|apply h_keeps|].
  - intros Hp. rewrite h_peeks by done. apply HS.
Qed.
Lemma St_peek {A} (c : HostCall A) b T a w : St b T a w → keeps_fds c = true → peeks c = true →
  St b T a (set_db (host A c (w_db w)).2 w).
Proof. intros HS Hc Hp. destruct (St_keep c _ _ _ _ HS Hc) as (T' & HS' & HT). by rewrite <-(HT Hp). Qed.


(** A call that opens a descriptor. *)
Lemma St_opens (c : HostCall Z) b T a w (P : SrcId → Prop) :
  St b T a w → opens (host _ c (w_db w)) (w_db w) P →
  ∃ T', (peeks c = true → T' = T) ∧
  match (host _ c (w_db w)).1 with
  | inl _ => St b T' a (set_db (host _ c (w_db w)).2 w)
  | inr x => files a !! x = None ∧ ∃ o, P o ∧
      St b T' (set_files (<[x := o]> (files a)) a) (set_db (host _ c (w_db w)).2 w)
  end.
Proof.
  intros HS Hop. exists (entry (host _ c (w_db w)).2). split.
  { intros Hp. rewrite h_peeks by done. apply HS. }
  destruct (host _ c (w_db w)) as [[errno|x] k] eqn:Hk; cbn in *.
  - by apply (keep_step b T).
  - destruct Hop as [Hfree (o & Ho & Hfds)].
    destruct (open_step b T (entry k) a k w x o) as [Hf HS']; [done..|]. eauto.
Qed.

Lemma wp_mapped_opens refused (c : HostCall Z) b T a w P (E : Error.t → W → Prop) (Q : Z → W → Prop) :
  St b T a w → opens (host _ c (w_db w)) (w_db w) P →
  (∀ e w' T', (peeks c = true → T' = T) → St b T' a w' → E e w') →
  (∀ x o w' T', P o → (peeks c = true → T' = T) → files a !! x = None → w_mem w' = w_mem w →
     (∀ y o', ofds (w_db w) !! y = Some o' → ofds (w_db w') !! y = Some o') →
     St b T' (set_files (<[x := o]> (files a)) a) w' → Q x w') →
  wp (mapped host refused c) E Q w.
Proof.
  intros HS Hop HE HQ. destruct (St_opens _ _ _ _ _ _ HS Hop) as (T' & HT & Hr).
  apply wp_mapped.
  - intros e errno Hc. rewrite Hc in Hr. by eapply HE.
  - intros x Hc. rewrite Hc in Hr. destruct Hr as (Hx & o & Ho & HS'). eapply HQ; [done..|done| |done].
    intros y o' Hy. unfold opens in Hop. destruct (host Z c (w_db w)) as [r k]. cbn in *. subst r.
    destruct Hop as (Hfree & o2 & _ & Hk). cbn. rewrite Hk, lookup_insert_ne; [done|]. congruence.
Qed.

Lemma wp_drop_fd b T a w x o E :
  St b T (set_files (<[x := o]> (files a)) a) w → files a !! x = None →
  wp (drop_fd host x) E (λ _, St b T a) w.
Proof.
  intros HS Hx. apply wp_host_bind, wp_libc. unfold wp. cbn. eapply close_step; [done..|apply h_close|].
  rewrite h_peeks by done. apply HS.
Qed.

Lemma sees_set_files o j f a a' : sees o j (set_files f a) a' → ∃ a1, sees o j a a1 ∧ a' = set_files f a1.
Proof.
  intros [(n & Hn & ->)|(H1 & H2 & H3 & ->)]; cbn in *.
  - exists (mkLedger (<[j := (o, n + 1)]> (lg a)) (nx a) (files a)). split; [|done]. left. eauto.
  - exists (mkLedger (<[j := (o, 1)]> (lg a)) (nx a + 1) (files a)). split; [|done]. right. eauto.
Qed.

(** A descriptor of a file becomes a number. *)
Lemma wp_get_or_create b T a w x st E : 0 <= b →
  St (b + 1) T (set_files (<[x := stat_id st]> (files a)) a) w → files a !! x = None →
  wp (get_or_create_inode host x st) E (λ r w', ∃ a', sees (stat_id st) r.1 a a' ∧ St b T a' w') w.
Proof.
  intros Hb HS Hx. apply wp_host_bind. pose proof (find_inode_step _ _ _ _ st HS Hb) as Hf.
  unfold wp at 1. destruct (find_inode st w) as [[[j|]|e|] w1]; [| |done|done].
  - destruct Hf as (_ & a1 & (a' & Ha' & ->)%sees_set_files & HS'). apply wp_host_bind.
    eapply wp_host_mono; [eapply (wp_drop_fd b T a' w1 x (stat_id st) (λ _ _, False))| |].
    + by rewrite (sees_files _ _ _ _ Ha').
    + by rewrite (sees_files _ _ _ _ Ha').
    + done.
    + intros [] w2 HS2. unfold wp. cbn. eauto.
  - destruct Hf as [-> Hnew]. apply wp_host_bind. pose proof (create_inode_step _ _ _ _ _ _ HS Hb Hx Hnew) as Hc.
    unfold wp at 1. destruct (create_inode x st w) as [[j|e|] w1]; [|done..].
    destruct Hc as (_ & a' & Ha' & HS'). unfold wp. cbn. eauto.
Qed.

(** ** Looking up *)

Lemma wp_get_inode_fd b T a ino (E : Error.t → W → Prop) (Q : Z → W → Prop) w : St b T a w →
  (inodes (w_mem w) !! ino = None → E (Error.Fs FsError.NotFound) w) →
  (∀ i, inodes (w_mem w) !! ino = Some i → ofds (w_db w) !! fd i = Some (src_id i) →
     lg a !! ino = Some (src_id i, nlookup i) → Q (fd i) w) →
  wp (get_inode_fd ino) E Q w.
Proof.
  intros HS HE HQ. apply wp_host_bind. unfold wp, get_inode, with_mem, fs_err, throw. cbn.
  destruct (inodes (w_mem w) !! ino) as [i|] eqn:Hi; destruct w; [|by apply HE].
  destruct (St_inode _ _ _ _ _ _ HS Hi). by apply (HQ i).
Qed.

Lemma wp_host_reads {A} (f : HostMem → A) E (Q : A → W → Prop) w :
  Q (f (w_mem w)) w → wp (with_mem (λ m, (f m, m))) E Q w.
Proof. intros HQ. unfold wp, with_mem. by destruct w. Qed.

(** The attributes of what is open. *)
Lemma wp_fstatat_empty_path b T a x o (E : Error.t → W → Prop) (Q : HostStat → W → Prop) w :
  St b T a w → ofds (w_db w) !! x = Some o →
  (∀ e k, St b T a (set_db k w) → E e (set_db k w)) →
  (∀ st k, stat_id st = o → St b T a (set_db k w) → Q st (set_db k w)) →
  wp (fstatat_empty_path host x) E Q w.
Proof.
  intros HS Hx HE HQ.
  assert (HS' := St_peek (Fstatat x "" own_flags) _ _ _ _ HS eq_refl eq_refl).
  apply wp_mapped; [intros e errno _; by apply HE|]. intros st Hst. apply HQ; [|done].
  apply h_stat in Hst; [|by left]. congruence.
Qed.

(** The mountpoint of the filesystem itself. *)
Definition hides (w : W) (o : SrcId) : Prop := fuse_mountpoint_inode (w_mem w) = Some (id_ino o).

(** The entry [n] of the directory [p] of the ledger. *)
Definition names_entry (T : SrcId → string → option SrcId) (a : Ledger) (p : Z) (n : string) (o : SrcId) : Prop :=
  ∃ d count, lg a !! p = Some (d, count) ∧ T d n = Some o.

(** What a lookup answers: there is no such entry, or it is hidden; or its number. *)
Definition looked_up (b : Z) (T : SrcId → string → option SrcId) (a : Ledger) (w0 : W) (p : Z) (n : string)
    (r : option Stats) (w : W) : Prop :=
  match r with
  | Some s => ∃ st o a', names_entry T a p n o ∧ ¬ hides w0 o ∧ stat_id st = o ∧
      s = numbered (st_ino s) st ∧ sees o (st_ino s) a a' ∧ St b T a' w
  | None => St b T a w ∧ ∃ d count, lg a !! p = Some (d, count) ∧
      (hides w0 d ∨ T d n = None ∨ ∃ o, T d n = Some o ∧ hides w0 o)
  end.

Lemma wp_lookup b T a w p n : St (b + 1) T a w → 0 <= b →
  wp (lookup host p n) (λ _, St b T a) (looked_up b T a w p n) w.
Proof.
  intros HS Hb. assert (Hb1 := St_mono _ b _ _ _ HS).
  apply wp_host_bind. eapply wp_get_inode_fd; [done|intros _; apply Hb1; lia|].
  intros i Hi Hfd Hlg. apply wp_host_bind, wp_host_reads. rewrite Hi. unfold is_mountpoint.
  case_bool_decide as Hh.
  { split; [apply Hb1; lia|]. exists (src_id i), (nlookup i). split; [done|]. by left. }
  apply wp_host_bind, wp_cstr; [intros _; apply Hb1; lia|]. intros _. apply wp_host_bind, wp_libc.
  assert (Hpk : peeks (Openat (fd i) n find_flags 0) = true) by apply Z.eqb_refl.
  destruct (St_opens _ _ _ _ _ _ HS (h_find (fd i) n 0 _ _ Hfd)) as (T' & HT & Hop).
  rewrite (HT Hpk) in Hop. clear HT. change (Z.lor O_PATH O_NOFOLLOW) with find_flags.
  destruct ((host Z (Openat (fd i) n find_flags 0) (w_db w)).1) as [errno|x] eqn:Hr.
  - assert (HS1 := St_mono _ b _ _ _ Hop). destruct (Z.eqb_spec errno ENOENT) as [->|]; [|apply HS1; lia].
    split; [apply HS1; lia|]. exists (src_id i), (nlookup i). split; [done|]. right; left.
    rewrite <-(st_tree _ _ _ _ HS). by apply (h_absent _ _ _ _ _ Hfd Hr).
  - destruct Hop as (Hx & o & Ho & HS1). apply wp_host_bind, wp_owning.
    set (w1 := set_db _ w) in *.
    assert (Hox : ofds (w_db w1) !! x = Some o).
    { apply (St_file _ _ _ _ _ _ HS1). apply lookup_insert_eq. }
    eapply wp_fstatat_empty_path; [done..| |].
    { intros e k HS2. eapply wp_host_mono; [by eapply (wp_drop_fd _ _ _ _ _ _ (λ _ _, False))|done|].
      intros [] w2 HS3. apply (St_mono _ _ _ _ _ HS3). lia. }
    intros st k Hst HS2. assert (Hne : names_entry T a p n o).
    { exists (src_id i), (nlookup i). split; [done|]. by rewrite <-(st_tree _ _ _ _ HS). }
    apply wp_host_bind, wp_host_reads. unfold is_mountpoint. case_bool_decide as Hm.
    + apply wp_host_bind. eapply wp_host_mono; [by eapply (wp_drop_fd _ _ _ _ _ _ (λ _ _, False))|done|].
      intros [] w2 HS3. split; [apply (St_mono _ _ _ _ _ HS3); lia|].
      destruct Hne as (d & c & Hd & Hn). exists d, c. split; [done|]. right; right. exists o.
      split; [done|]. by rewrite <-Hst.
    + apply wp_host_bind. rewrite <-Hst in HS2.
      eapply wp_host_mono; [by apply (wp_get_or_create b T a _ x st (λ _ _, False))|done|].
      intros [j new] w2 (a' & Ha' & HS3). exists st, o, a'. cbn.
      split_and!; [done| |done..|by rewrite <-Hst|done]. by rewrite <-Hst.
Qed.

(** ** Making files *)

(** The directories are no longer what they were. *)
Definition SomeSt (b : Z) (a : Ledger) (w : W) : Prop := ∃ T, St b T a w.

Definition reported (b : Z) (a : Ledger) (p : Z) (n : string) (s : Stats) (w : W) : Prop :=
  ∃ T st a', names_entry T a p n (stat_id st) ∧ s = numbered (st_ino s) st ∧
    sees (stat_id st) (st_ino s) a a' ∧ St b T a' w.

Lemma wp_lookup_new b a w p n : SomeSt (b + 1) a w → 0 <= b →
  wp (lookup_new host p n) (λ _, SomeSt b a) (reported b a p n) w.
Proof.
  intros [T HS] Hb. apply wp_host_bind. eapply wp_host_mono; [by apply (wp_lookup b T a)| |].
  - intros e w1 HS1. by exists T.
  - intros [s|] w1; cbn.
    + intros (st & o & a' & Hn & _ & <- & Hs & Ha & HS1). exists T, st, a'. done.
    + intros [HS1 _]. by exists T.
Qed.

Lemma wp_mapped_some {A} refused (c : HostCall A) b a w (E : Error.t → W → Prop) (Q : A → W → Prop) :
  SomeSt b a w → keeps_fds c = true →
  (∀ e w', SomeSt b a w' → E e w') → (∀ r w', SomeSt b a w' → Q r w') →
  wp (mapped host refused c) E Q w.
Proof.
  intros [T HS] Hc HE HQ. destruct (St_keep c _ _ _ _ HS Hc) as (T' & HS' & _).
  apply wp_mapped; [intros e errno _; apply HE|intros r _; apply HQ]; by exists T'.
Qed.

Lemma SomeSt_mono b b' a w : SomeSt b a w → 0 <= b' <= b → SomeSt b' a w.
Proof. intros [T HS] Hb. exists T. by apply (St_mono _ _ _ _ _ HS). Qed.

(** The common form of [mkdir], [mknod] and [symlink]. *)
Lemma wp_make b a w p n (c : Z → HostCall unit) : SomeSt (b + 1) a w → 0 <= b →
  (∀ d, keeps_fds (c d) = true) →
  ∀ parent_fd, wp (mapped host already_exists (c parent_fd) ;; lookup_new host p n)
    (λ _, SomeSt b a) (reported b a p n) w.
Proof.
  intros HS Hb Hc parent_fd. apply wp_host_bind. eapply wp_mapped_some; [done|apply Hc| |].
  - intros e w1 HS1. apply (SomeSt_mono _ _ _ _ HS1). lia.
  - intros [] w1 HS1. by apply wp_lookup_new.
Qed.

Lemma wp_parent {A} b a w p (k : Z → H A) (Q : A → W → Prop) : SomeSt (b + 1) a w → 0 <= b →
  (∀ x o T, St (b + 1) T a w → ofds (w_db w) !! x = Some o → (∃ count, lg a !! p = Some (o, count)) →
     wp (k x) (λ _, SomeSt b a) Q w) →
  wp (fd ← get_inode_fd p; k fd) (λ _, SomeSt b a) Q w.
Proof.
  intros HS Hb Hk. pose proof HS as [T HS1]. apply wp_host_bind. eapply wp_get_inode_fd; [done| |].
  - intros _. apply (SomeSt_mono _ _ _ _ HS). lia.
  - intros i _ Hfd Hlg. eapply Hk; eauto.
Qed.

Lemma wp_cstr_some {A} b a w s (k : string → H A) (Q : A → W → Prop) : SomeSt (b + 1) a w → 0 <= b →
  wp (k s) (λ _, SomeSt b a) Q w → wp (c ← cstr s; k c) (λ _, SomeSt b a) Q w.
Proof.
  intros HS Hb Hk. apply wp_host_bind, wp_cstr; [|done]. intros e. apply (SomeSt_mono _ _ _ _ HS). lia.
Qed.

Lemma wp_mkdir b a w p n mode uid gid : SomeSt (b + 1) a w → 0 <= b →
  wp (mkdir host p n mode uid gid) (λ _, SomeSt b a) (reported b a p n) w.
Proof.
  intros HS Hb. apply wp_parent; [done..|]. intros x o T _ _ _. apply wp_cstr_some; [done..|].
  by apply (wp_make b a w p n (λ d, Mkdirat d n mode)).
Qed.
Lemma wp_mknod b a w p n mode rdev uid gid : SomeSt (b + 1) a w → 0 <= b →
  wp (mknod host p n mode rdev uid gid) (λ _, SomeSt b a) (reported b a p n) w.
Proof.
  intros HS Hb. apply wp_parent; [done..|]. intros x o T _ _ _. apply wp_cstr_some; [done..|].
  by apply (wp_make b a w p n (λ d, Mknodat d n mode rdev)).
Qed.
Lemma wp_symlink b a w p n target uid gid : SomeSt (b + 1) a w → 0 <= b →
  wp (symlink host p n target uid gid) (λ _, SomeSt b a) (reported b a p n) w.
Proof.
  intros HS Hb. apply wp_parent; [done..|]. intros x o T _ _ _. apply wp_cstr_some; [done..|].
  apply wp_cstr_some; [done..|]. by apply (wp_make b a w p n (λ d, Symlinkat target d n)).
Qed.

(** A new file, and the descriptor that is open for it. *)
Definition created (b : Z) (a : Ledger) (p : Z) (n : string) (r : Stats * HostFSFile) (w : W) : Prop :=
  let '(s, f) := r in
  files a !! hf_fd f = None ∧ ∃ T st a' o, names_entry T a p n (stat_id st) ∧
    s = numbered (st_ino s) st ∧ sees (stat_id st) (st_ino s) a a' ∧
    St b T (set_files (<[hf_fd f := o]> (files a)) a') w.

Lemma wp_drop_some b b' a w x o (E : Error.t → W → Prop) :
  SomeSt b (set_files (<[x := o]> (files a)) a) w → files a !! x = None → 0 <= b' <= b →
  wp (drop_fd host x) (λ _ _, False) (λ _, SomeSt b' a) w.
Proof.
  intros [T HS] Hx Hb. eapply wp_host_mono; [by eapply (wp_drop_fd _ _ _ _ _ _ (λ _ _, False))|done|].
  intros [] w2 HS2. exists T. by apply (St_mono _ _ _ _ _ HS2).
Qed.

Lemma wp_create_file b a w p n mode uid gid : SomeSt (b + 1) a w → 0 <= b →
  wp (create_file host p n mode uid gid) (λ _, SomeSt b a) (created b a p n) w.
Proof.
  intros HS Hb. apply wp_parent; [done..|]. intros d od T HS0 Hd [cnt Hlg]. apply wp_cstr_some; [done..|].
  apply wp_host_bind. eapply wp_mapped_opens; [done|by apply h_openat| |].
  { intros e w1 T1 _ HS1. exists T1. apply (St_mono _ _ _ _ _ HS1). lia. }
  intros x o w1 T1 _ _ Hx _ Hkeep HS1. apply wp_owning. apply Hkeep in Hd. clear w HS HS0 Hkeep.
  set (a1 := set_files _ _) in *.
  assert (Hdrop : ∀ w' (e : Error.t), SomeSt b a1 w' → wp (drop_fd host x) (λ _ _, False) (λ _, SomeSt b a) w').
  { intros w' e HS'. by apply (wp_drop_some b b a w' x o (λ _ _, False)). }
  apply wp_host_bind. eapply wp_mapped_opens; [done|by eapply h_find| |].
  { intros e w2 T2 _ HS2. apply Hdrop; [done|]. exists T2. apply (St_mono _ _ _ _ _ HS2). lia. }
  intros y oy w2 T2 Hentry HT Hy _ _ HS2. rewrite HT in HS2 by apply Z.eqb_refl. clear HT.
  apply wp_host_bind, wp_owning.
  assert (Hoy : ofds (w_db w2) !! y = Some oy) by (apply (St_file _ _ _ _ _ _ HS2), lookup_insert_eq).
  eapply wp_fstatat_empty_path; [done..| |].
  { intros e k HS3. eapply wp_host_mono; [eapply (wp_drop_some (b + 1) b a1 _ y oy (λ _ _, False))|done|].
    - by exists T1.
    - done.
    - lia.
    - intros [] w3 HS4. by apply Hdrop. }
  intros st k <- HS3. apply wp_host_bind.
  eapply wp_host_mono; [by apply (wp_get_or_create b T1 a1 _ y st (λ _ _, False))|done|].
  intros [j new] w3 (a2 & (a' & Hs & ->)%sees_set_files & HS4). split; [done|].
  exists T1, st, a', o. split_and!; [|done..]. exists od, cnt. split; [done|].
  rewrite <-Hentry. symmetry. by rewrite (st_tree _ _ _ _ HS1).
Qed.

(** ** Operations that report no number *)

Class Neutral {A} (m : H A) := neutral b a w : SomeSt b a w → wp m (λ _, SomeSt b a) (λ _, SomeSt b a) w.
#[local] Hint Mode Neutral ! ! : typeclass_instances.

#[local] Instance ret_neutral {A} (a : A) : Neutral (mret (M := H) a).
Proof. by intros ???. Qed.
#[local] Instance throw_neutral {A} e : Neutral (throw (D := K) (C := HostMem) (A := A) e).
Proof. by intros ???. Qed.
#[local] Instance fs_err_neutral {A} e : Neutral (fs_err (D := K) (C := HostMem) (A := A) e).
Proof. by intros ???. Qed.
#[local] Instance io_error_neutral {A} e : Neutral (io_error (D := K) (C := HostMem) (A := A) e).
Proof. by intros ???. Qed.
#[local] Instance ok_or_neutral {A} e (o : option A) : Neutral (ok_or (D := K) (C := HostMem) e o).
Proof. intros ???. by destruct o. Qed.
#[local] Instance cstr_neutral s : Neutral (cstr (D := K) (C := HostMem) s).
Proof. apply ok_or_neutral. Qed.
#[local] Instance bind_neutral {A B} (m : H A) (f : A → H B) :
  Neutral m → (∀ x, Neutral (f x)) → Neutral (m ≫= f).
Proof.
  intros Hm Hf b a w HS. apply wp_host_bind. eapply wp_host_mono; [by apply Hm|done|]. intros x w1. apply Hf.
Qed.
#[local] Instance reads_neutral {A} (f : HostMem → A) : Neutral (with_mem (D := K) (λ m, (f m, m))).
Proof. intros b a w HS. by apply wp_host_reads. Qed.
Lemma libc_neutral {A} (c : HostCall A) : keeps_fds c = true → Neutral (libc host c).
Proof.
  intros Hc b a w [T HS]. destruct (St_keep c _ _ _ _ HS Hc) as (T' & HS' & _). apply wp_libc.
  by exists T'.
Qed.
Lemma mapped_neutral {A} refused (c : HostCall A) : keeps_fds c = true → Neutral (mapped host refused c).
Proof. intros Hc b a w HS. by eapply wp_mapped_some. Qed.
#[local] Hint Extern 1 (Neutral (libc _ _)) => apply libc_neutral; reflexivity : typeclass_instances.
#[local] Hint Extern 1 (Neutral (mapped _ _ _)) => apply mapped_neutral; reflexivity : typeclass_instances.
#[local] Hint Extern 1 (Neutral (io _ _)) => apply mapped_neutral; reflexivity : typeclass_instances.
#[local] Hint Extern 2 (Neutral (if ?x then _ else _)) => destruct x : typeclass_instances.
#[local] Hint Extern 2 (Neutral (match ?x with _ => _ end)) => destruct x : typeclass_instances.
#[local] Instance get_inode_neutral ino : Neutral (get_inode ino).
Proof. apply (reads_neutral (λ m, inodes m !! ino)). Qed.
#[local] Instance if_known_neutral {A} ino (k : Z → H (option A)) :
  (∀ x, Neutral (k x)) → Neutral (if_known ino k).
Proof. unfold if_known. apply _. Qed.
(** A task may panic. *)
Lemma spawn_neutral {A} (o : option A) {B} (f : A → H B) :
  (∀ x, Neutral (f x)) → Neutral (spawn_blocking (or_panic o ≫= f)).
Proof.
  intros Hf b a w HS. unfold wp, spawn_blocking, mbind, M_bind, or_panic. destruct o as [x|]; [|done].
  pose proof (Hf x b a w HS) as Hw. unfold wp in Hw. cbn. by destruct (f x w) as [[]].
Qed.

Lemma pread_neutral f off n : Neutral (HostFSFile_pread host f off n).
Proof. apply spawn_neutral. apply _. Qed.
Lemma pwrite_neutral f off data : Neutral (HostFSFile_pwrite host f off data).
Proof. apply _. Qed.
Lemma truncate_neutral f n : Neutral (HostFSFile_truncate host f n).
Proof. apply _. Qed.
Lemma fsync_neutral f : Neutral (HostFSFile_fsync host f).
Proof. apply _. Qed.
Lemma fstat_neutral f : Neutral (HostFSFile_fstat host f).
Proof. apply _. Qed.
#[local] Instance getattr_neutral ino : Neutral (getattr host ino).
Proof. apply _. Qed.
Lemma readlink_neutral ino : Neutral (readlink host ino).
Proof. apply _. Qed.
Lemma chmod_neutral ino mode : Neutral (chmod host ino mode).
Proof. apply _. Qed.
Lemma chown_neutral ino uid gid : Neutral (chown host ino uid gid).
Proof. apply _. Qed.
Lemma utimens_neutral ino atime mtime : Neutral (utimens host ino atime mtime).
Proof. apply _. Qed.
Lemma unlink_neutral p n : Neutral (unlink host p n).
Proof. apply _. Qed.
Lemma rmdir_neutral p n : Neutral (rmdir host p n).
Proof. apply _. Qed.
Lemma link_neutral ino p n : Neutral (link host ino p n).
Proof. apply _. Qed.
Lemma rename_neutral p n p' n' : Neutral (rename host p n p' n').
Proof. apply _. Qed.
Lemma statfs_neutral : Neutral (statfs host overflow_checks).
Proof.
  unfold statfs. apply bind_neutral; [apply (reads_neutral root_fd)|]. intros fd b a w HS.
  pose proof (mapped_neutral (λ _, None) (Fstatfs fd) eq_refl b a w HS) as Hw.
  unfold wp, spawn_blocking, mbind, M_bind, io in *.
  destruct (mapped host (λ _, None) (Fstatfs fd) w) as [[st|e|] w1]; [|done..].
  unfold u64_arith.
  match goal with |- context [or_panic ?o w1] => destruct o as [used|] end; [|done]. cbn.
  by match goal with |- context [or_panic ?o w1] => destruct o end.
Qed.

(** ** Directories *)

(** Valid names are read as they are. *)
Lemma lossy_valid l : utf8_valid (byte_val <$> l) = true → lossy l = l.
Proof.
  remember (length l) as n eqn:Hn. assert (Hle : (length l <= n)%nat) by lia. clear Hn.
  revert l Hle. induction n as [|n IH]; intros l Hle; [by destruct l; cbn in *; [|lia]|].
  destruct l as [|x l1]; [done|]. cbn [fmap list_fmap utf8_valid lossy] in *.
  destruct (byte_val x <? 0x80); [intros Hv; f_equal; apply IH; [cbn in Hle; lia|done]|].
  destruct l1 as [|y l2]; [done|]. cbn [fmap list_fmap].
  destruct (between 0xc2 0xdf (byte_val x)).
  { intros [-> Hv]%andb_prop. do 2 f_equal. apply IH; [cbn in Hle; lia|done]. }
  destruct l2 as [|z l3]; [done|]. cbn [fmap list_fmap].
  destruct (between 0xe0 0xef (byte_val x)).
  { intros [[-> ->]%andb_prop Hv]%andb_prop. do 3 f_equal. apply IH; [cbn in Hle; lia|done]. }
  destruct l3 as [|u l4]; [done|]. cbn [fmap list_fmap].
  intros [[[[-> ->]%andb_prop ->]%andb_prop ->]%andb_prop Hv]%andb_prop.
  do 4 f_equal. apply IH; [cbn in Hle; lia|done].
Qed.

Definition proper_name (n : bytes) : Prop :=
  utf8_valid (byte_val <$> n) = true ∧ has_nul (String.string_of_list_byte n) = false.

Lemma wp_with_dir {A} b T a w x o (body : Z → list bytes → H A) (P : A → HostMem → Prop) :
  St b T a w → ofds (w_db w) !! x = Some o →
  (∀ y names w1, files a !! y = None → len names <= dir_max → Forall proper_name names →
     w_mem w1 = w_mem w → St b T (set_files (<[y := o]> (files a)) a) w1 →
     wp (body y names) (λ _ _, False)
       (λ r w2, P r (w_mem w2) ∧ St b T (set_files (<[y := o]> (files a)) a) w2) w1) →
  wp (with_dir host x body) (λ _, St b T a) (λ r w', P r (w_mem w') ∧ St b T a w') w.
Proof.
  intros HS Hx Hbody. apply wp_host_bind. eapply wp_mapped_opens; [done|by eapply h_open_proc| |].
  { intros e w1 T1 HT HS1. rewrite HT in HS1; [done|apply Z.eqb_refl]. }
  intros y o' w1 T1 -> HT Hy Hmem _ HS1. rewrite HT in HS1 by apply Z.eqb_refl. clear HT.
  assert (Hdrop : ∀ w' E, St b T (set_files (<[y := o]> (files a)) a) w' →
    wp (drop_fd host y) E (λ _, St b T a) w') by (intros w' E HS'; by eapply wp_drop_fd).
  apply wp_host_bind, wp_owning. apply wp_mapped.
  { intros e errno _. apply Hdrop, (St_peek (Fdopendir y)); done. }
  intros [] _. assert (HS2 := St_peek (Fdopendir y) _ _ _ _ HS1 eq_refl eq_refl).
  set (w2 := set_db _ w1) in *. apply wp_host_bind, wp_libc.
  assert (HS3 := St_peek (Readdir y) _ _ _ _ HS2 eq_refl eq_refl).
  set (r := (host _ (Readdir y) (w_db w2)).1). set (w3 := set_db _ w2) in *.
  assert (Hnames : ∃ names error, match r with inr x => x | inl errno => ([], Some errno) end = (names, error) ∧
    len names <= dir_max ∧ Forall proper_name names).
  { destruct r as [errno|[names error]] eqn:Hr.
    - exists [], (Some errno). split_and!; [done|apply h_dir_max|constructor].
    - exists names, error. split; [done|]. by eapply h_names. }
  destruct Hnames as (names & error & -> & Hlen & Hproper).
  apply wp_host_bind. eapply wp_host_mono; [by apply Hbody|done|].
  intros v w4 [Hv HS4].
  apply wp_host_bind, wp_libc.
  assert (HS5 : St b T a (set_db (host _ (Closedir y) (w_db w4)).2 w4)).
  { eapply close_step; [done..|apply h_closedir|]. rewrite h_peeks by done. apply HS4. }
  by destruct error.
Qed.

Lemma wp_if_known {A} b T a ino (k : Z → H (option A)) (E : Error.t → W → Prop) Q w : St b T a w →
  (inodes (w_mem w) !! ino = None → Q None w) →
  (∀ i, inodes (w_mem w) !! ino = Some i → ofds (w_db w) !! fd i = Some (src_id i) →
     lg a !! ino = Some (src_id i, nlookup i) → wp (k (fd i)) E Q w) →
  wp (if_known ino k) E Q w.
Proof.
  intros HS HN HQ. apply wp_host_bind. unfold wp at 1, get_inode, with_mem. cbn.
  destruct (inodes (w_mem w) !! ino) as [i|] eqn:Hi; destruct w; [|by apply HN].
  destruct (St_inode _ _ _ _ _ _ HS Hi). by apply (HQ i).
Qed.

Lemma readdir_keeps b T a w ino : St b T a w →
  wp (readdir host ino) (λ _, St b T a) (λ _, St b T a) w.
Proof.
  intros HS. eapply wp_if_known; [done..|]. intros i _ Hfd _. apply wp_host_bind.
  eapply wp_host_mono; [eapply (wp_with_dir _ _ _ _ _ _ _ (λ _ _, True)); [done..|]|done|].
  - by intros y names w1 _ _ _ _ HS1.
  - by intros names w1 [_ HS1].
Qed.

(** What the loop over the stream collects. *)
Lemma wp_stat_entries b T a y o names w : files a !! y = Some o → Forall proper_name names → St b T a w →
  wp (stat_entries host y names) (λ _ _, False)
    (λ l w', (len l <= len names ∧ w_mem w' = w_mem w ∧
       Forall (λ e, has_nul e.1 = false ∧ T o e.1 = Some (stat_id e.2)) l) ∧ St b T a w') w.
Proof.
  intros Hy Hnames. revert w. induction Hnames as [|n names [Hutf Hnul] _ IH]; intros w HS; [done|].
  cbn [stat_entries]. unfold from_utf8_lossy. rewrite lossy_valid by done.
  set (s := String.string_of_list_byte n) in *. rewrite len_cons.
  destruct (is_dots s).
  { eapply wp_host_mono; [by apply IH|done|]. intros l w1 [(Hl & Hm & Hf) HS1]. split_and!; [lia|done..]. }
  apply wp_host_bind, wp_libc.
  assert (HS1 := St_peek (Fstatat y s AT_SYMLINK_NOFOLLOW) _ _ _ _ HS eq_refl eq_refl).
  destruct ((host _ (Fstatat y s AT_SYMLINK_NOFOLLOW) (w_db w)).1) as [errno|st] eqn:Hst.
  { eapply wp_host_mono; [by apply IH|done|]. intros l w1 [(Hl & Hm & Hf) HS2]. split_and!; [lia|done..]. }
  apply wp_host_bind, wp_host_reads, wp_host_bind. eapply wp_host_mono; [by apply IH|done|].
  intros l w2 [(Hl & Hm & Hf) HS2]. unfold wp. cbn. case_match; [split_and!; [lia|done..]|].
  split; [|done]. rewrite len_cons. split_and!; [lia|done|]. constructor; [|done]. split; [done|]. cbn.
  apply (h_stat_entry _ _ o) in Hst; [|by eapply St_file]. by rewrite <-(st_tree _ _ _ _ HS).
Qed.

(** The entries of a listing, and the files they stand for. *)
Definition listed (T : SrcId → string → option SrcId) (d : SrcId) (e : DirEntry) (o : SrcId * Z) : Prop :=
  o.2 = st_ino (de_stats e) ∧ T d (de_name e) = Some o.1 ∧
  ∃ st, stat_id st = o.1 ∧ de_stats e = numbered o.2 st.

Lemma get_or_create_fds x st w y : y ≠ x →
  ofds (w_db (get_or_create_inode host x st w).2) !! y = ofds (w_db w) !! y.
Proof.
  intros Hd. unfold get_or_create_inode, mbind, M_bind.
  assert (Hf : ∃ r m, find_inode st w = (Ok r, set_mem m w)).
  { unfold find_inode, with_mem. repeat case_match; simplify_eq/=; eauto. }
  destruct Hf as (r & m & ->). destruct r as [j|].
  - unfold drop_fd, libc, mbind, M_bind. cbn. pose proof (h_close x (w_db w)) as Hc.
    destruct (host unit (Close x) (w_db w)) as [r k]. cbn in *. by rewrite Hc, lookup_delete_ne by done.
  - unfold create_inode, alloc_ino, with_mem, mbind, M_bind. by cbn.
Qed.

Lemma wp_number_entries b T o x l a w :
  Forall (λ e : string * HostStat, has_nul e.1 = false ∧ T o e.1 = Some (stat_id e.2)) l → 0 <= b →
  St (b + len l) T a w → ofds (w_db w) !! x = Some o →
  wp (number_entries host x l) (λ _ _, False)
    (λ es w', ∃ os a', Forall2 (listed T o) es os ∧ seen os a a' ∧ St b T a' w') w.
Proof.
  intros Hl Hb. revert a w. induction Hl as [|[n st] l [Hnul Ho] _ IH]; intros a w HS Hx.
  { exists [], a. cbn. rewrite len_nil, Z.add_0_r in HS. done. }
  cbn [number_entries fst snd] in *. rewrite len_cons in HS. pose proof (len_nonneg l) as Hpos.
  replace (b + (1 + len l)) with (b + len l + 1) in HS by lia.
  apply wp_host_bind. unfold cstr, c_string. rewrite Hnul. unfold wp at 1. cbn.
  apply wp_host_bind, wp_libc. change (Z.lor O_PATH O_NOFOLLOW) with find_flags.
  assert (Hop := h_find x n 0 _ _ Hx). set (c := Openat x n find_flags 0) in *.
  assert (Hpk : peeks c = true) by apply Z.eqb_refl.
  destruct (St_opens _ _ _ _ _ _ HS Hop) as (T' & HT & Hr). rewrite (HT Hpk) in Hr. clear HT.
  unfold opens in Hop. destruct (host Z c (w_db w)) as [[errno|y] k]; cbn in *.
  - eapply IH; [apply (St_mono _ _ _ _ _ Hr); lia|]. cbn. by rewrite Hop.
  - destruct Hop as (Hfree & o1 & Hent & Hk), Hr as (Hy & o2 & Hent2 & HS1).
    assert (o2 = stat_id st) as ->.
    { rewrite (st_tree _ _ _ _ HS) in Hent2. congruence. }
    assert (Hxy : x ≠ y) by congruence.
    apply wp_host_bind. pose proof (wp_get_or_create (b + len l) T a _ y st (λ _ _, False) ltac:(lia) HS1 Hy) as Hg.
    pose proof (get_or_create_fds y st (set_db k w) x Hxy) as Hfds. unfold wp in Hg |- *.
    destruct (get_or_create_inode host y st (set_db k w)) as [[[j new]|e|] w2]; [|done..].
    destruct Hg as (a1 & Ha1 & HS2). cbn in Hfds, Ha1.
    fold (wp (rest ← number_entries host x l; mret (mkDirEntry n (numbered j st) :: rest)) (λ _ _, False)
      (λ es w', ∃ os a', Forall2 (listed T o) es os ∧ seen os a a' ∧ St b T a' w') w2).
    apply wp_host_bind. eapply wp_host_mono; [apply (IH a1 w2); [done|]|done|].
    { rewrite Hfds, Hk, lookup_insert_ne; done. }
    intros es w3 (os & a2 & HF & Hseen & HS3). exists ((stat_id st, j) :: os), a2. split_and!; [|by exists a1|done].
    constructor; [|done]. split_and!; [done..|]. by exists st.
Qed.

#[local] Instance entry_le_trans : Transitive entry_le.
Proof. intros x y z. unfold entry_le. apply transitivity. Qed.
#[local] Instance entry_le_total : Total entry_le.
Proof. intros x y. apply (total String.le). Qed.

Lemma wp_readdir_plus b T a w ino : St (b + dir_max) T a w → 0 <= b →
  wp (readdir_plus host ino) (λ _, St b T a)
    (λ r w', match r with
     | None => St b T a w'
     | Some es => ∃ d count es' os a', lg a !! ino = Some (d, count) ∧ es' ≡ₚ es ∧ StronglySorted entry_le es ∧
         Forall2 (listed T d) es' os ∧ seen os a a' ∧ St b T a' w'
     end) w.
Proof.
  intros HS Hb. pose proof h_dir_max as Hmax.
  eapply wp_if_known; [done|intros _; apply (St_mono _ _ _ _ _ HS); lia|]. intros i Hi Hfd Hlg. apply wp_host_bind.
  eapply wp_host_mono; [eapply (wp_with_dir _ T a _ _ (src_id i) _ (λ l m, len l <= dir_max ∧ m = w_mem w ∧
    Forall (λ e : string * HostStat, has_nul e.1 = false ∧ T (src_id i) e.1 = Some (stat_id e.2)) l)); [done..|]| |].
  - intros y names w1 Hy Hlen Hproper Hm HS1. eapply wp_host_mono; [apply (wp_stat_entries _ _ _ y (src_id i) names w1 (lookup_insert_eq (files a) y (src_id i)) Hproper HS1)|done|].
    intros l w2 [(Hl & Hm2 & Hf) HS2]. split_and!; [lia|congruence|done..].
  - intros e w1 HS1. apply (St_mono _ _ _ _ _ HS1). lia.
  - intros l w1 [(Hl & Hm & Hf) HS1]. apply wp_host_bind.
    eapply wp_host_mono; [eapply (wp_number_entries b T (src_id i)); [done..| |]|done|].
    + apply (St_mono _ _ _ _ _ HS1). pose proof (len_nonneg l). lia.
    + destruct (St_inode _ _ _ _ ino i HS1); [by rewrite Hm|done].
    + intros es w2 (os & a' & HF & Hseen & HS2). unfold wp. cbn.
      exists (src_id i), (nlookup i), es, os, a'.
      split_and!; [done|symmetry; apply merge_sort_Permutation| |done..].
      apply (StronglySorted_merge_sort entry_le es).
Qed.
End Host.
