(* ===== verification/HostFsSession.v ===== *)
(** * HostFsSession: sessions with a host filesystem

    Sequences of the operations of [HostFS], with what the client knows from the answers alone:
    how many references it holds to every number, and which files it has open. *)
From S2P Require Import Prelude Types Engine Xdr Utf8 NfsAdapter HostFs HostFsProps.

(** What an answer gives to the client: numbers, and the descriptor of an open file. *)
Record Answer := mkAnswer { named : list Z; opened : option Z }.

Module HostOp.
Inductive t :=
| Lookup (parent : Z) (name : string)
| GetAttr (ino : Z)
| ReadLink (ino : Z)
| ReadDir (ino : Z)
| ReadDirPlus (ino : Z)
| ChMod (ino mode : Z)
| ChOwn (ino : Z) (uid gid : option Z)
| UTimens (ino : Z) (atime mtime : TimeChange)
| OpenFile (ino flags : Z)
| MkDir (parent : Z) (name : string) (mode uid gid : Z)
| CreateFile (parent : Z) (name : string) (mode uid gid : Z)
| MkNod (parent : Z) (name : string) (mode rdev uid gid : Z)
| SymLink (parent : Z) (name target : string) (uid gid : Z)
| Unlink (parent : Z) (name : string)
| RmDir (parent : Z) (name : string)
| Link (ino parent : Z) (name : string)
| Rename (parent : Z) (name : string) (newparent : Z) (newname : string)
| StatFs
| Forget (ino count : Z)
| PRead (file : HostFSFile) (offset size : Z)
| PWrite (file : HostFSFile) (offset : Z) (data : bytes)
| Truncate (file : HostFSFile) (size : Z)
| FSync (file : HostFSFile)
| FStat (file : HostFSFile)
| DropFile (file : HostFSFile).
End HostOp.

Section Session.
Context {K : Type} (host : Host K) {L : Libc} {LH : LibcHost} (overflow_checks : bool).
Context (ofds : K → gmap Z SrcId) (entry : K → SrcId → string → option SrcId) (dir_max : Z).
Context {HL : HostLaws host ofds entry dir_max}.
Abbreviation W := (World K HostMem).
Abbreviation H := (M K HostMem).
Abbreviation SomeSt := (SomeSt ofds entry).
Abbreviation St := (St ofds entry).

Definition silent {A} (m : H A) : H Answer := m ;; mret (mkAnswer [] None).

Definition perform (op : HostOp.t) : H Answer :=
  match op with
  | HostOp.Lookup p n =>
      s ← lookup host p n; mret (mkAnswer (match s with Some s => [st_ino s] | None => [] end) None)
  | HostOp.GetAttr ino => silent (getattr host ino)
  | HostOp.ReadLink ino => silent (readlink host ino)
  | HostOp.ReadDir ino => silent (readdir host ino)
  | HostOp.ReadDirPlus ino =>
      es ← readdir_plus host ino;
      mret (mkAnswer (match es with Some es => (λ e, st_ino (de_stats e)) <$> es | None => [] end) None)
  | HostOp.ChMod ino mode => silent (chmod host ino mode)
  | HostOp.ChOwn ino uid gid => silent (chown host ino uid gid)
  | HostOp.UTimens ino atime mtime => silent (utimens host ino atime mtime)
  | HostOp.OpenFile ino flags => f ← open host ino flags; mret (mkAnswer [] (Some (hf_fd f)))
  | HostOp.MkDir p n mode uid gid =>
      s ← mkdir host p n mode uid gid; mret (mkAnswer [st_ino s] None)
  | HostOp.CreateFile p n mode uid gid =>
      r ← create_file host p n mode uid gid; mret (mkAnswer [st_ino r.1] (Some (hf_fd r.2)))
  | HostOp.MkNod p n mode rdev uid gid =>
      s ← mknod host p n mode rdev uid gid; mret (mkAnswer [st_ino s] None)
  | HostOp.SymLink p n target uid gid =>
      s ← symlink host p n target uid gid; mret (mkAnswer [st_ino s] None)
  | HostOp.Unlink p n => silent (unlink host p n)
  | HostOp.RmDir p n => silent (rmdir host p n)
  | HostOp.Link ino p n => silent (link host ino p n)
  | HostOp.Rename p n p' n' => silent (rename host p n p' n')
  | HostOp.StatFs => silent (statfs host overflow_checks)
  | HostOp.Forget ino count => silent (forget host ino count)
  | HostOp.PRead f off n => silent (HostFSFile_pread host f off n)
  | HostOp.PWrite f off data => silent (HostFSFile_pwrite host f off data)
  | HostOp.Truncate f n => silent (HostFSFile_truncate host f n)
  | HostOp.FSync f => silent (HostFSFile_fsync host f)
  | HostOp.FStat f => silent (HostFSFile_fstat host f)
  | HostOp.DropFile f => silent (HostFSFile_drop host f)
  end.

(** How many numbers an operation may report. *)
Definition cost (op : HostOp.t) : Z :=
  match op with
  | HostOp.ReadDirPlus _ => dir_max
  | HostOp.Lookup _ _ | HostOp.MkDir _ _ _ _ _ | HostOp.CreateFile _ _ _ _ _
  | HostOp.MkNod _ _ _ _ _ _ | HostOp.SymLink _ _ _ _ _ => 1
  | _ => 0
  end.

(** ** The ledger of an operation *)

Definition answers (ans : Answer) (a a' : Ledger) : Prop :=
  ∃ os a1, os.*2 ≡ₚ named ans ∧ seen os a a1 ∧
    match opened ans with
    | None => a' = a1
    | Some x => files a !! x = None ∧ ∃ o, a' = set_files (<[x := o]> (files a)) a1
    end.
Definition ledger_step (op : HostOp.t) (r : Outcome Answer) (a a' : Ledger) : Prop :=
  match r with
  | Ok ans =>
      match op with
      | HostOp.Forget ino count => ans = mkAnswer [] None ∧ a' = forgets ino count a
      | HostOp.DropFile f =>
          ans = mkAnswer [] None ∧ a' = set_files (base.delete (hf_fd f) (files a)) a
      | _ => answers ans a a'
      end
  | Err _ => a' = a
  | Panic => False
  end.

(** Files are closed once, and counts are not negative. *)
Definition legal (op : HostOp.t) (open_files : gset Z) : Prop :=
  match op with
  | HostOp.DropFile f => hf_fd f ∈ open_files
  | HostOp.Forget _ count => 0 <= count
  | _ => True
  end.
#[export] Instance legal_dec op fs : Decision (legal op fs).
Proof. unfold legal. destruct op; apply _. Defined.

Lemma answers_none a : answers (mkAnswer [] None) a a.
Proof. by exists [], a. Qed.
Lemma answers_one o j a a' : sees o j a a' → answers (mkAnswer [j] None) a a'.
Proof. intros Hs. exists [(o, j)], a'. split_and!; [done| |done]. by exists a'. Qed.

(** What [wp] says of the step of an operation. *)
Definition steps (b : Z) (op : HostOp.t) (a : Ledger) (w : W) : Prop :=
  wp (perform op) (λ e w', SomeSt b a w')
    (λ ans w', ∃ a', ledger_step op (Ok ans) a a' ∧ SomeSt b a' w') w.

Lemma silent_steps {A} b a w (m : H A) (op : HostOp.t) :
  SomeSt b a w → Neutral ofds entry m → perform op = silent m →
  (∀ a', answers (mkAnswer [] None) a a' → ledger_step op (Ok (mkAnswer [] None)) a a') → steps b op a w.
Proof.
  intros HS Hm Hop Hl. unfold steps. rewrite Hop. apply wp_host_bind.
  eapply wp_host_mono; [by apply Hm|done|]. intros x w1 HS1. exists a. split; [|done]. apply Hl, answers_none.
Qed.

Lemma reported_steps b a p n w s :
  reported ofds entry b a p n s w → ∃ a', answers (mkAnswer [st_ino s] None) a a' ∧ SomeSt b a' w.
Proof.
  intros (T & st & a' & _ & _ & Hs & HS). exists a'. split; [by eapply answers_one|by exists T].
Qed.

Lemma lookup_steps b a w p n : SomeSt (b + 1) a w → 0 <= b → steps b (HostOp.Lookup p n) a w.
Proof.
  intros [T HS] Hb. apply wp_host_bind. eapply wp_host_mono; [by eapply (wp_lookup host ofds entry dir_max b T a)| |].
  - intros e w1 HS1. by exists T.
  - intros [s|] w1; cbn.
    + intros (st & o & a' & _ & _ & _ & _ & Ha & HS1). exists a'. split; [by eapply answers_one|by exists T].
    + intros [HS1 _]. exists a. split; [apply answers_none|by exists T].
Qed.

Lemma Forall2_listed T d es os : Forall2 (listed T d) es os → os.*2 = (λ e, st_ino (de_stats e)) <$> es.
Proof. induction 1 as [|e o es os [He _] _ IH]; [done|]. cbn. by rewrite He, IH. Qed.

Lemma readdir_plus_steps b a w ino : SomeSt (b + dir_max) a w → 0 <= b → steps b (HostOp.ReadDirPlus ino) a w.
Proof.
  intros [T HS] Hb. apply wp_host_bind. eapply wp_host_mono; [by eapply (wp_readdir_plus host ofds entry dir_max b T a)| |].
  - intros e w1 HS1. by exists T.
  - intros [es|] w1; cbn.
    + intros (d & count & es' & os & a' & _ & Hp & _ & HF & Hseen & HS1). exists a'. split; [|by exists T].
      exists os, a'. split_and!; [|done..]. cbn. rewrite (Forall2_listed _ _ _ _ HF). by rewrite Hp.
    + intros HS1. exists a. split; [apply answers_none|by exists T].
Qed.

Lemma open_steps b a w ino flags : SomeSt b a w → steps b (HostOp.OpenFile ino flags) a w.
Proof.
  intros [T HS]. apply wp_host_bind. unfold open. apply wp_host_bind. eapply wp_get_inode_fd; [done| |].
  { intros _. by exists T. }
  intros i _ Hfd _. apply wp_host_bind. eapply wp_mapped_opens; [done..|by eapply h_open_proc| |].
  - intros e w1 T1 _ HS1. by exists T1.
  - intros x o w1 T1 _ _ Hx _ _ HS1. unfold wp. cbn.
    exists (set_files (<[x := o]> (files a)) a). split; [|by exists T1].
    exists [], a. split_and!; [done..|]. cbn. eauto.
Qed.

Lemma create_steps b a w p n mode uid gid : SomeSt (b + 1) a w → 0 <= b →
  steps b (HostOp.CreateFile p n mode uid gid) a w.
Proof.
  intros HS Hb. apply wp_host_bind. eapply wp_host_mono; [by eapply wp_create_file|done|].
  intros [s f] w1 (Hf & T & st & a' & o & _ & _ & Hs & HS1). unfold wp. cbn.
  exists (set_files (<[hf_fd f := o]> (files a)) a'). split; [|by exists T].
  exists [(stat_id st, st_ino s)], a'. split_and!; [done|by exists a'|]. cbn. eauto.
Qed.

Lemma forget_steps b a w ino count : SomeSt b a w → 0 <= count → steps b (HostOp.Forget ino count) a w.
Proof.
  intros [T HS] Hc. apply wp_host_bind. pose proof (forget_step host ofds entry dir_max b T a w ino count HS Hc) as Hf.
  unfold wp at 1. destruct (forget host ino count w) as [[u|e|] w1]; [|done..].
  exists (forgets ino count a). split; [done|by exists T].
Qed.

Lemma drop_steps b a w f : SomeSt b a w → hf_fd f ∈ dom (files a) → steps b (HostOp.DropFile f) a w.
Proof.
  intros [T HS] [o Ho]%elem_of_dom. apply wp_host_bind.
  eapply wp_host_mono; [eapply (wp_drop_fd host ofds entry dir_max b T (set_files (base.delete (hf_fd f) (files a)) a) w
    (hf_fd f) o (λ _ _, False))|done|].
  - cbn. rewrite insert_delete_id by done. by destruct a.
  - cbn. apply lookup_delete_eq.
  - intros [] w1 HS1. eexists. split; [done|by exists T].
Qed.

(** Every operation does to the ledger what its answer says. *)
Lemma perform_steps b op a w : SomeSt (b + cost op) a w → 0 <= b → legal op (dom (files a)) → steps b op a w.
Proof.
  intros HS Hb Hlegal. destruct op; cbn [cost legal] in *; rewrite ?Z.add_0_r in HS;
    try (eapply silent_steps; [done| |done|done]).
  - by apply lookup_steps.
  - by eapply getattr_neutral.
  - by eapply readlink_neutral.
  - intros b' a' w' [T HS']. eapply wp_host_mono; [by eapply readdir_keeps| |]; intros; by exists T.
  - by apply readdir_plus_steps.
  - by eapply chmod_neutral.
  - by eapply chown_neutral.
  - by eapply utimens_neutral.
  - by apply open_steps.
  - apply wp_host_bind. eapply wp_host_mono; [by eapply wp_mkdir|done|]. intros s w1. apply reported_steps.
  - by apply create_steps.
  - apply wp_host_bind. eapply wp_host_mono; [by eapply wp_mknod|done|]. intros s w1. apply reported_steps.
  - apply wp_host_bind. eapply wp_host_mono; [by eapply wp_symlink|done|]. intros s w1. apply reported_steps.
  - by eapply unlink_neutral.
  - by eapply rmdir_neutral.
  - by eapply link_neutral.
  - by eapply rename_neutral.
  - by eapply statfs_neutral.
  - by apply forget_steps.
  - by eapply pread_neutral.
  - by eapply pwrite_neutral.
  - by eapply truncate_neutral.
  - by eapply fsync_neutral.
  - by eapply fstat_neutral.
  - by apply drop_steps.
Qed.

(** ** What the client knows *)

Definition occurrences (j : Z) (l : list Z) : Z := len (filter (λ x, x = j) l).

(** The references that the client holds, after an answer: it counts what it is told, and what it
    gives back; the root is never given back. *)
Definition client (op : HostOp.t) (r : Outcome Answer) (count : Z → Z) (j : Z) : Z :=
  match r with
  | Ok ans =>
      match op with
      | HostOp.Forget ino n =>
          if (j =? ino) && negb (ino =? ROOT_INO) then Z.max 0 (count j - n) else count j
      | _ => count j + occurrences j (named ans)
      end
  | _ => count j
  end.
Definition client_files (op : HostOp.t) (r : Outcome Answer) (fs : gset Z) : gset Z :=
  match r with
  | Ok ans =>
      match op with
      | HostOp.DropFile f => fs ∖ {[hf_fd f]}
      | _ => match opened ans with Some x => {[x]} ∪ fs | None => fs end
      end
  | _ => fs
  end.

(** A session: operations, each with its answer; [fs] are the files that are open. *)
Inductive session : W → gset Z → list (HostOp.t * Outcome Answer) → W → gset Z → Prop :=
| session_nil w fs : session w fs [] w fs
| session_cons op r tr w fs w1 w2 fs2 :
    legal op fs → perform op w = (r, w1) → session w1 (client_files op r fs) tr w2 fs2 →
    session w fs ((op, r) :: tr) w2 fs2.

Definition client_run (tr : list (HostOp.t * Outcome Answer)) (count : Z → Z) : Z → Z :=
  fold_left (λ c e, client e.1 e.2 c) tr count.
Fixpoint cost_run (tr : list (HostOp.t * Outcome Answer)) : Z :=
  match tr with [] => 0 | (op, _) :: tr => cost op + cost_run tr end.

(** ** The ledger and the client *)

Definition count_of (a : Ledger) (j : Z) : Z := match lg a !! j with Some (_, n) => n | None => 0 end.
Definition proper (a : Ledger) : Prop :=
  1 < nx a ∧ ∀ j o n, lg a !! j = Some (o, n) → 1 <= j < nx a ∧ 1 <= n.

(** From [a] to [a'], no number changed its meaning. *)
Definition evolves (a a' : Ledger) : Prop :=
  nx a <= nx a' ∧ ∀ j o n, lg a' !! j = Some (o, n) → j < nx a → ∃ n', lg a !! j = Some (o, n').

Lemma evolves_refl a : evolves a a.
Proof. split; [lia|]. eauto. Qed.
Lemma evolves_trans a a1 a2 : evolves a a1 → evolves a1 a2 → evolves a a2.
Proof.
  intros [H1 H2] [H3 H4]. split; [lia|]. intros j o n Hj Hlt.
  destruct (H4 _ _ _ Hj) as [n' Hn']; [lia|]. by eapply H2.
Qed.

Lemma SomeSt_proper b a w : SomeSt b a w → proper a.
Proof.
  intros [T [Hn _ Hl Hx _]]. split; [rewrite <-Hx; by eapply nb_room|].
  intros j o n. rewrite <-Hl, <-Hx. intros (i & Hi & _ & <-)%ledger_some.
  split; [by eapply nb_below|]. by eapply nb_count.
Qed.

Lemma sees_evolves o j a a' : proper a → sees o j a a' → proper a' ∧ evolves a a' ∧
  ∀ j', count_of a' j' = count_of a j' + (if decide (j = j') then 1 else 0).
Proof.
  intros [Hnx Hp]. unfold count_of. intros [(n & Hn & ->)|(_ & Hnew & -> & ->)]; cbn.
  - destruct (Hp _ _ _ Hn). split; [split; cbn; [lia|]|split; [split; cbn; [lia|]|]].
    + intros j' o' n' [[<- [= <- <-]]|[_ Hl]]%lookup_insert_Some; [lia|by apply (Hp _ o')].
    + intros j' o' n' [[<- [= <- <-]]|[_ Hl]]%lookup_insert_Some _; eauto.
    + intros j'. case_decide as Hd; [subst j'|]; [by rewrite lookup_insert_eq, Hn|].
      rewrite lookup_insert_ne by done. lia.
  - split; [split; cbn; [lia|]|split; [split; cbn; [lia|]|]].
    + intros j' o' n' [[<- [= <- <-]]|[_ Hl]]%lookup_insert_Some; [lia|]. destruct (Hp _ _ _ Hl). lia.
    + intros j' o' n' [[<- _]|[_ Hl]]%lookup_insert_Some ?; [lia|eauto].
    + intros j'. case_decide as Hd; [subst j'|]; [by rewrite lookup_insert_eq, Hnew|].
      rewrite lookup_insert_ne by done. lia.
Qed.

Lemma occurrences_cons j j' l : occurrences j' (j :: l) = (if decide (j = j') then 1 else 0) + occurrences j' l.
Proof. unfold occurrences. rewrite filter_cons. case_decide; rewrite ?len_cons; lia. Qed.
#[local] Instance occurrences_perm j : Proper ((≡ₚ) ==> eq) (occurrences j).
Proof. intros l l' Hl. unfold occurrences, len. by rewrite Hl. Qed.

Lemma seen_evolves os a a' : proper a → seen os a a' → proper a' ∧ evolves a a' ∧ files a' = files a ∧
  ∀ j, count_of a' j = count_of a j + occurrences j os.*2.
Proof.
  revert a. induction os as [|[o j] os IH]; intros a Hp; cbn.
  { intros ->. split_and!; [done|apply evolves_refl|done|]. intros j. unfold occurrences. cbn. rewrite len_nil. lia. }
  intros (a1 & Hs & Hos). pose proof (sees_files _ _ _ _ Hs) as Hf.
  destruct (sees_evolves _ _ _ _ Hp Hs) as (Hp1 & He1 & Hc1), (IH _ Hp1 Hos) as (Hp2 & He2 & Hf2 & Hc2).
  split_and!; [done|by eapply evolves_trans|congruence|]. intros j'. rewrite Hc2, Hc1, occurrences_cons. lia.
Qed.

Lemma forgets_evolves j n a : proper a → 0 <= n → evolves a (forgets j n a) ∧ files (forgets j n a) = files a ∧
  ∀ j', count_of (forgets j n a) j' =
    if (j' =? j) && negb (j =? ROOT_INO) then Z.max 0 (count_of a j' - n) else count_of a j'.
Proof.
  intros [Hnx Hp] Hn. unfold forgets. destruct (Z.eqb_spec j ROOT_INO); cbn.
  { split_and!; [apply evolves_refl|done|]. intros j'. by rewrite andb_false_r. }
  destruct (lg a !! j) as [[o c]|] eqn:Hj; cbn.
  - destruct (Hp _ _ _ Hj) as [_ Hc]. split; [|split; [done|]].
    + split; cbn; [lia|]. intros j' o' n'. destruct (Z.leb_spec c n).
      * intros [_ Hl]%lookup_delete_Some. eauto.
      * intros [[<- [= <- _]]|[_ Hl]]%lookup_insert_Some; eauto.
    + intros j'. rewrite andb_true_r. unfold count_of. cbn.
      destruct (Z.leb_spec c n), (Z.eqb_spec j' j) as [->|Hd].
      * rewrite lookup_delete_eq, Hj. lia.
      * by rewrite lookup_delete_ne by done.
      * rewrite lookup_insert_eq, Hj. lia.
      * by rewrite lookup_insert_ne by done.
  - split_and!; [apply evolves_refl|done|]. intros j'. rewrite andb_true_r. unfold count_of.
    destruct (Z.eqb_spec j' j) as [->|]; [|done]. rewrite Hj. lia.
Qed.

(** A step of the ledger is what the client counts. *)
Lemma ledger_step_client op r a a' : proper a → legal op (dom (files a)) → ledger_step op r a a' →
  evolves a a' ∧ dom (files a') = client_files op r (dom (files a)) ∧
  ∀ j, count_of a' j = client op r (count_of a) j.
Proof.
  intros Hp Hlegal. destruct r as [ans|e|]; cbn; [|by intros ->; split_and!; [apply evolves_refl|..]|done].
  assert (Hans : answers ans a a' → evolves a a' ∧
    dom (files a') = match opened ans with Some x => {[x]} ∪ dom (files a) | None => dom (files a) end ∧
    ∀ j, count_of a' j = count_of a j + occurrences j (named ans)).
  { intros (os & a1 & Hperm & Hseen & Hop). destruct (seen_evolves _ _ _ Hp Hseen) as (_ & He & Hf & Hc).
    setoid_rewrite Hperm in Hc. destruct (opened ans) as [x|]; [|by subst a'; split_and!; [|rewrite Hf|]].
    destruct Hop as [_ [o ->]]. split_and!; [done| |done]. cbn. by rewrite dom_insert_L. }
  destruct op; try done.
  - intros [-> ->]. cbn in Hlegal. destruct (forgets_evolves ino count a Hp Hlegal) as (He & Hf & Hc).
    split_and!; [done|by rewrite Hf|done].
  - intros [-> ->]. split_and!; [by split; cbn; [lia|eauto]|cbn; by rewrite dom_delete_L|].
    intros j. unfold occurrences, len. cbn. unfold count_of. cbn. lia.
Qed.

Lemma client_ext op r c c' j : (∀ j, c j = c' j) → client op r c j = client op r c' j.
Proof. intros Hc. unfold client. destruct r; [|done..]. by destruct op; rewrite Hc. Qed.
Lemma client_run_ext tr c c' j : (∀ j, c j = c' j) → client_run tr c j = client_run tr c' j.
Proof.
  revert c c'. induction tr as [|[op r] tr IH]; intros c c' Hc; [done|]. cbn. apply IH. intros j'.
  by apply client_ext.
Qed.

Lemma cost_nonneg op : 0 <= cost op.
Proof. pose proof (h_dir_max host ofds entry dir_max). destruct op; cbn; lia. Qed.
Lemma cost_run_nonneg tr : 0 <= cost_run tr.
Proof. induction tr as [|[op r] tr IH]; cbn; [lia|]. pose proof (cost_nonneg op). lia. Qed.


(** ** Opening a handle *)

Definition started {C} (m : HostMem) (w : World K C) : W :=
  mkWorld (w_db w) m (w_faults w) (w_clock w) (w_tick w).
(** The ledger of a new handle: the root, and what was open before. *)
Definition first_ledger (o : SrcId) (fds : gmap Z SrcId) : Ledger := mkLedger {[ROOT_INO := (o, 1)]} 2 fds.

#[local] Arguments singletonM : simpl never.

Lemma first_St b x y st root k fds m : 0 <= b < 2 ^ 62 → ofds k = <[y := stat_id st]> (<[x := stat_id st]> fds) →
  fds !! x = None → x ≠ y → fds !! y = None →
  m = mkHostMem root x {[ROOT_INO := mkInode y (hs_ino st) (hs_dev st) 1]} {[stat_id st := ROOT_INO]} 2 None →
  ∀ w : W, w_db w = k → w_mem w = m → SomeSt b (first_ledger (stat_id st) fds) w.
Proof.
  intros Hb Hk Hx Hxy Hy -> w Hw Hm. exists (entry k).
  assert (Hone : ∀ j i, ({[ROOT_INO := mkInode y (hs_ino st) (hs_dev st) 1]} : gmap Z Inode) !! j = Some i →
    j = ROOT_INO ∧ i = mkInode y (hs_ino st) (hs_dev st) 1) by (intros j i [<- <-]%lookup_singleton_Some; done).
  split; rewrite ?Hw, ?Hm, ?Hk; cbn; [..|apply (map_fmap_singleton (λ i, (src_id i, nlookup i)))|done|done].
  - split; cbn; [..|lia].
    + intros j i [-> ->]%Hone. by rewrite lookup_insert_eq.
    + intros j1 j2 i1 i2 [-> ->]%Hone [-> ->]%Hone. done.
    + intros o j. rewrite lookup_singleton_Some. split; [|by intros (i & [-> ->]%Hone & <-)].
      intros [<- <-]. eexists. by rewrite lookup_singleton_eq.
    + by rewrite lookup_singleton_eq.
    + split; [|by intros j i [-> ->]%Hone]. by rewrite lookup_insert_ne, lookup_insert_eq.
    + intros j i [-> _]%Hone. unfold ROOT_INO. lia.
    + intros j i [_ ->]%Hone. cbn. lia.
  - assert (Hheld : ∀ z, held (mkHostMem root x {[ROOT_INO := mkInode y (hs_ino st) (hs_dev st) 1]}
      {[stat_id st := ROOT_INO]} 2 None) z ↔ z = x ∨ z = y).
    { intros z. unfold held. cbn. split.
      - intros [->|(j & i & [-> ->]%Hone & <-)]; eauto.
      - intros [->| ->]; [by left|right]. eexists _, _. by rewrite lookup_singleton_eq. }
    split; intros z Hz; rewrite Hheld in Hz.
    + rewrite !lookup_insert_ne; [done|intros ->; tauto..].
    + by destruct Hz as [->| ->].
Qed.

Lemma drop_fd_run {C} x (w : World K C) :
  drop_fd host x w = (Ok tt, set_db (host unit (Close x) (w_db w)).2 w).
Proof. unfold drop_fd, libc, mbind, M_bind. by destruct (host unit (Close x) (w_db w)). Qed.

(** [HostFS::new] opens two descriptors, or none. *)
Lemma new_starts {C} root b (w : World K C) : 0 <= b < 2 ^ 62 →
  match new host root w with
  | (Ok m, w') => ∃ o, SomeSt b (first_ledger o (ofds (w_db w))) (started m w')
  | (Err _, w') => ofds (w_db w') = ofds (w_db w)
  | (Panic, _) => False
  end.
Proof.
  intros Hb. unfold new, mbind, M_bind, libc.
  pose proof (h_keeps host ofds entry dir_max (Metadata root) (w_db w) eq_refl) as H1.
  destruct (host HostStat (Metadata root) (w_db w)) as [r1 k1]. cbn in *. destruct (is_ok r1); cbn; [|done].
  pose proof (h_keeps host ofds entry dir_max (Metadata root) k1 eq_refl) as H2.
  destruct (host HostStat (Metadata root) k1) as [r2 k2]. cbn in *.
  destruct r2 as [errno|st2]; cbn; [congruence|]. destruct (has_type _ _); cbn; [|congruence].
  destruct (c_string root) as [s|]; cbn; [|congruence].
  unfold io, mapped, mbind, M_bind, libc. cbn.
  pose proof (h_open host ofds entry dir_max s (Z.lor O_PATH O_DIRECTORY) k2) as H3. unfold opens in H3.
  destruct (host Z (Open s (Z.lor O_PATH O_DIRECTORY)) k2) as [[errno|x] k3]; cbn in *; [congruence|].
  destruct H3 as [Hx (o & _ & H3)].
  assert (Hclose : ∀ k, ofds k = ofds k3 → ofds (host unit (Close x) k).2 = ofds (w_db w)).
  { intros k Hk. by rewrite (h_close host ofds entry dir_max), Hk, H3, delete_insert_id, H2, H1. }
  unfold owning, mbind, M_bind, libc. cbn.
  pose proof (h_keeps host ofds entry dir_max (Fstatat x "" AT_EMPTY_PATH) k3 eq_refl) as H4.
  destruct (host HostStat (Fstatat x "" AT_EMPTY_PATH) k3) as [[errno|st] k4] eqn:Hst; cbn in *.
  { rewrite drop_fd_run. by apply Hclose. }
  apply (f_equal fst) in Hst. apply (h_stat host ofds entry dir_max) in Hst; [|by right].
  assert (o = stat_id st) as -> by (rewrite H3, lookup_insert_eq in Hst; congruence).
  pose proof (h_dup host ofds entry dir_max x k4) as H5. unfold opens in H5.
  destruct (host Z (Dup x) k4) as [[errno|y] k5]; cbn in *.
  { rewrite drop_fd_run. apply Hclose. cbn. congruence. }
  destruct H5 as [Hy (o & Ho & H5)]. rewrite H4 in *.
  assert (o = stat_id st) as -> by congruence.
  exists (stat_id st). eapply (first_St b x y st root k5 (ofds (w_db w))); [done|..|done|done|done].
  - rewrite H5, H3. by rewrite H2, H1.
  - by rewrite <-H1, <-H2.
  - rewrite H3 in Hy. apply lookup_insert_None in Hy as []. done.
  - rewrite <-H1, <-H2. rewrite H3 in Hy. by apply lookup_insert_None in Hy as [].
Qed.

(** ** Descriptors *)

Definition held_fds (m : HostMem) : list Z := root_fd m :: (fd <$> (map_to_list (inodes m)).*2).

Lemma held_fds_spec m x : x ∈ held_fds m ↔ held m x.
Proof.
  unfold held_fds, held. rewrite elem_of_cons, !list_elem_of_fmap. apply or_iff_compat_l. split.
  - intros (i & -> & Hi). apply list_elem_of_fmap in Hi as ([j i'] & -> & Hi). apply elem_of_map_to_list in Hi. eauto.
  - intros (j & i & Hi & <-). exists i. split; [done|]. apply list_elem_of_fmap. exists (j, i).
    split; [done|]. by apply elem_of_map_to_list.
Qed.

Lemma held_fds_nodup b m fds : numbering b m fds → NoDup (held_fds m).
Proof.
  intros Hn. apply NoDup_cons. split.
  - rewrite list_elem_of_fmap. intros (i & Hr & Hi). apply list_elem_of_fmap in Hi as ([j i'] & -> & Hi).
    apply elem_of_map_to_list in Hi. by apply (nb_root_fd _ _ _ Hn) in Hi.
  - rewrite <-list_fmap_compose. apply NoDup_fmap_2_strong; [|apply NoDup_map_to_list].
    intros [j1 i1] [j2 i2] H1%elem_of_map_to_list H2%elem_of_map_to_list Heq. cbn in Heq.
    assert (j1 = j2) as -> by (by eapply nb_fds). congruence.
Qed.

(** The open descriptors: one per number, that of the root, and those of others. *)
Lemma descriptors b T a w : St b T a w → size (ofds (w_db w)) = (1 + size (lg a) + size (files a))%nat.
Proof.
  intros HS. pose proof HS as [Hn Ho Hl _ _].
  assert (Hdom : dom (ofds (w_db w)) = list_to_set (held_fds (w_mem w)) ∪ dom (files a)).
  { apply set_eq. intros x. rewrite elem_of_union, elem_of_list_to_set, held_fds_spec, !elem_of_dom. split.
    - intros Hx. destruct (decide (x ∈ held_fds (w_mem w))) as [Hh|Hh]; rewrite held_fds_spec in Hh; [by left|].
      right. by rewrite <-(ow_rest _ _ _ Ho).
    - intros [Hh|[o Hx]]; [by eapply held_open|]. exists o. by eapply St_file. }
  rewrite <-size_dom, Hdom, size_union; [|].
  - rewrite size_list_to_set by (by eapply held_fds_nodup). rewrite size_dom, <-Hl. unfold ledger.
    rewrite map_size_fmap, <-(length_map_to_list (inodes (w_mem w))). unfold held_fds. cbn. by rewrite !length_fmap.
  - intros x. rewrite elem_of_list_to_set, held_fds_spec, elem_of_dom. intros Hh [o Hx].
    rewrite (ow_held _ _ _ Ho) in Hx; done.
Qed.


(** ** Running sessions *)

Fixpoint run_session (ops : list HostOp.t) (w : W) : list (HostOp.t * Outcome Answer) * W :=
  match ops with
  | [] => ([], w)
  | op :: ops =>
      let '(r, w1) := perform op w in
      let '(tr, w2) := run_session ops w1 in
      ((op, r) :: tr, w2)
  end.
Fixpoint client_files_run (tr : list (HostOp.t * Outcome Answer)) (fs : gset Z) : option (gset Z) :=
  match tr with
  | [] => Some fs
  | (op, r) :: tr => if decide (legal op fs) then client_files_run tr (client_files op r fs) else None
  end.

Lemma run_session_spec ops w fs fs' :
  client_files_run (run_session ops w).1 fs = Some fs' →
  session w fs (run_session ops w).1 (run_session ops w).2 fs'.
Proof.
  revert w fs. induction ops as [|op ops IH]; intros w fs; cbn; [intros [= <-]; constructor|].
  destruct (perform op w) as [r w1] eqn:Hop. specialize (IH w1 (client_files op r fs)).
  destruct (run_session ops w1) as [tr w2]. cbn in *. destruct (decide (legal op fs)); [|done].
  intros Hfs. econstructor; [done..|]. by apply IH.
Qed.

(** ** Identity *)

(** The lookup of [n] in [p] leads to [o], and reports it under the number of [s]. *)
Definition found_as (T : SrcId → string → option SrcId) (p : Z) (n : string) (o : SrcId) (s : Stats)
    (a a' : Ledger) : Prop :=
  names_entry T a p n o ∧ sees o (st_ino s) a a'.

(** Inode numbers of a host filesystem identify files: two lookups, of any names in any
    directories, give the same number exactly if the names lead to the same file of the host,
    as hard links do. *)
Theorem hostfs_identity b a w p1 n1 s1 w1 p2 n2 s2 w2 :
  SomeSt (b + 2) a w → 0 <= b →
  lookup host p1 n1 w = (Ok (Some s1), w1) → lookup host p2 n2 w1 = (Ok (Some s2), w2) →
  ∃ o1 o2 a1 a2, found_as (entry (w_db w)) p1 n1 o1 s1 a a1 ∧ found_as (entry (w_db w)) p2 n2 o2 s2 a1 a2 ∧
    SomeSt b a2 w2 ∧ (st_ino s1 = st_ino s2 ↔ o1 = o2).
Proof.
  intros [T HS] Hb H1 H2. rewrite (st_tree _ _ _ _ _ _ HS).
  assert (HL1 := wp_lookup host ofds entry dir_max (b + 1) T a w p1 n1). unfold wp in HL1. rewrite H1 in HL1.
  destruct HL1 as (st1 & o1 & a1 & Hn1 & _ & _ & _ & Hs1 & HS1); [by replace (b + 1 + 1) with (b + 2) by lia|lia|].
  assert (HL2 := wp_lookup host ofds entry dir_max b T a1 w1 p2 n2). unfold wp in HL2. rewrite H2 in HL2.
  destruct HL2 as (st2 & o2 & a2 & Hn2 & _ & _ & _ & Hs2 & HS2); [done..|].
  exists o1, o2, a1, a2. split_and!; [done..|by exists T|].
  assert (He1 : ∃ n, lg a1 !! st_ino s1 = Some (o1, n)).
  { destruct Hs1 as [(n & _ & ->)|(_ & _ & _ & ->)]; cbn; rewrite lookup_insert_eq; eauto. }
  destruct He1 as [c1 He1]. destruct Hs2 as [(n & He2 & _)|(Hnew & Hno & _ & _)].
  - split; [intros Heq; rewrite Heq in He1; congruence|intros ->].
    destruct HS1 as [Hn _ Hl _ _]. rewrite <-Hl in He1, He2.
    apply ledger_some in He1 as (i1 & Hi1 & Hid1 & _), He2 as (i2 & Hi2 & Hid2 & _).
    eapply numbering_inj; [done..|congruence].
  - split; [intros Heq; congruence|]. intros ->. by apply Hnew in He1.
Qed.

(** ** Listings *)

(** Listing a directory of the host gives its entries in the order of their names, each with
    the number and the attributes of the file it stands for, which the handle counts once per
    entry, and changes nothing if it fails. *)
Theorem hostfs_readdir_plus b T a w ino : St (b + dir_max) T a w → 0 <= b →
  match readdir_plus host ino w with
  | (Ok (Some es), w') =>
      ∃ d count es' os a', lg a !! ino = Some (d, count) ∧ es' ≡ₚ es ∧ StronglySorted entry_le es ∧
        Forall2 (listed T d) es' os ∧ seen os a a' ∧ St b T a' w'
  | (Ok None, w') | (Err _, w') => St b T a w'
  | (Panic, _) => False
  end.
Proof.
  intros HS Hb. pose proof (wp_readdir_plus host ofds entry dir_max b T a w ino HS Hb) as Hw. unfold wp in Hw.
  by destruct (readdir_plus host ino w) as [[[es|]|e|] w'].
Qed.
End Session.
