(* ===== verification/HostFsScenarios.v ===== *)
(** * HostFsScenarios: a host, and runs of a host filesystem over it

    A host with files, directories and links that does what [HostLaws] says; the theorems on
    sessions at concrete inputs; and runs that do something else than the code says. *)
From stdpp Require Import pretty.
From S2P Require Import Prelude Types Engine Xdr Utf8 NfsAdapter HostFs HostFsProps HostFsSession.

(** ** A host *)

Record Node := mkNode { n_mode : Z; n_nlink : Z; n_data : bytes }.

(** Descriptors, files, the names in directories, the inode number of the next file. *)
Record Machine := mkMachine {
  m_fds : gmap Z SrcId; m_nodes : gmap SrcId Node; m_names : gmap (SrcId * string) SrcId; m_next : Z
}.

Definition m_root : SrcId := mkSrcId 100 1.
Definition set_fds (f : gmap Z SrcId) (k : Machine) : Machine := mkMachine f (m_nodes k) (m_names k) (m_next k).
Definition set_nodes (f : gmap SrcId Node) (k : Machine) : Machine := mkMachine (m_fds k) f (m_names k) (m_next k).
Definition set_names (f : gmap (SrcId * string) SrcId) (k : Machine) : Machine :=
  mkMachine (m_fds k) (m_nodes k) f (m_next k).

Definition node_of (o : SrcId) (k : Machine) : Node := default (mkNode 0 0 []) (m_nodes k !! o).
Definition attr_of (o : SrcId) (k : Machine) : HostStat :=
  let n := node_of o k in
  mkHostStat (id_dev o) (id_ino o) (n_mode n) (n_nlink n) 0 0 0 (len (n_data n)) 0 0 0 0 0 0.
Definition set_data (d : bytes) (n : Node) : Node := mkNode (n_mode n) (n_nlink n) d.
Definition add_links (z : Z) (n : Node) : Node := mkNode (n_mode n) (n_nlink n + z) (n_data n).

Definition open_fd (o : SrcId) (k : Machine) : (Z + Z) * Machine :=
  (inr (unused (m_fds k)), set_fds (<[unused (m_fds k) := o]> (m_fds k)) k).
(** A new file, in the directory [d]. *)
Definition add_node (d : SrcId) (name : string) (n : Node) (k : Machine) : SrcId * Machine :=
  let o := mkSrcId (m_next k) (id_dev d) in
  (o, mkMachine (m_fds k) (<[o := n]> (m_nodes k)) (<[(d, name) := o]> (m_names k)) (m_next k + 1)).

Definition entry_of (k : Machine) (d : SrcId) (name : string) : option SrcId := m_names k !! (d, name).
Definition find_proc (path : string) (k : Machine) : option SrcId :=
  snd <$> head (filter (λ e, proc_path e.1 = path) (map_to_list (m_fds k))).
(** The names of a directory; at most a hundred. *)
Definition names_of (d : SrcId) (k : Machine) : list bytes :=
  take 100 (filter (λ n, bool_decide (utf8_valid (byte_val <$> n) = true ∧
                                      has_nul (String.string_of_list_byte n) = false) = true)
    ((λ e, as_bytes e.1.2) <$> filter (λ e, e.1.1 = d) (map_to_list (m_names k)))).

Definition at_fd {A} (fd : Z) (k : Machine) (f : SrcId → (Z + A) * Machine) : (Z + A) * Machine :=
  match m_fds k !! fd with Some o => f o | None => (inl 9, k) end.
Definition make (d : SrcId) (name : string) (n : Node) (k : Machine) : (Z + unit) * Machine :=
  match entry_of k d name with
  | Some _ => (inl 17, k)
  | None => (inr tt, (add_node d name n k).2)
  end.

(** Opening without [O_NOFOLLOW]: links are followed once, files are made and cut. *)
Definition open_for_writing (d : SrcId) (name : string) (mode : Z) (k : Machine) : (Z + Z) * Machine :=
  let name :=
    match entry_of k d name with
    | Some o =>
        if has_type (n_mode (node_of o k)) S_IFLNK then String.string_of_list_byte (n_data (node_of o k)) else name
    | None => name
    end in
  let '(o, k) :=
    match entry_of k d name with
    | Some o => (o, k)
    | None => add_node d name (mkNode (Z.lor S_IFREG (Z.land mode 0xfff)) 1 []) k
    end in
  open_fd o (set_nodes (<[o := set_data [] (node_of o k)]> (m_nodes k)) k).

(** [pwrite] takes eight bytes at a time. *)
Definition write_at (data : bytes) (offset : Z) (old : bytes) : bytes :=
  let old := old ++ zeros (offset - len old) in
  take (Z.to_nat offset) old ++ data ++ drop (Z.to_nat (offset + len data)) old.

Definition toy : Host Machine := λ A c k,
  match c in HostCall A return (Z + A) * Machine with
  | Metadata path => if String.eqb path "/host" then (inr (attr_of m_root k), k) else (inl 2, k)
  | Open path flags =>
      match find_proc path k with
      | Some o => open_fd o k
      | None => if String.eqb path "/host" then open_fd m_root k else (inl 2, k)
      end
  | Openat d name flags mode =>
      at_fd d k (λ od,
        if flags =? find_flags then
          match entry_of k od name with Some o => open_fd o k | None => (inl 2, k) end
        else open_for_writing od name mode k)
  | Dup fd => at_fd fd k (λ o, open_fd o k)
  | Close fd | Closedir fd => (inr tt, set_fds (base.delete fd (m_fds k)) k)
  | Fstatat d name flags =>
      at_fd d k (λ od,
        if String.eqb name "" && negb (flags =? AT_SYMLINK_NOFOLLOW) then (inr (attr_of od k), k)
        else match entry_of k od name with Some o => (inr (attr_of o k), k) | None => (inl 2, k) end)
  | Fstat fd => at_fd fd k (λ o, (inr (attr_of o k), k))
  | Readlinkat fd _ _ =>
      at_fd fd k (λ o,
        if has_type (n_mode (node_of o k)) S_IFLNK then (inr (n_data (node_of o k)), k) else (inl 22, k))
  | Fdopendir fd => (inr tt, k)
  | Readdir fd => at_fd fd k (λ o, (inr (names_of o k, None), k))
  | Chmod _ _ | Fchownat _ _ _ _ _ | Utimensat _ _ _ _ _ => (inr tt, k)
  | Mkdirat d name mode => at_fd d k (λ od, make od name (mkNode (Z.lor S_IFDIR (Z.land mode 0xfff)) 2 []) k)
  | Mknodat d name mode _ => at_fd d k (λ od, make od name (mkNode mode 1 []) k)
  | Symlinkat target d name => at_fd d k (λ od, make od name (mkNode (Z.lor S_IFLNK 0x1ff) 1 (as_bytes target)) k)
  | Unlinkat d name _ =>
      at_fd d k (λ od,
        match entry_of k od name with
        | Some o =>
            (inr tt, set_nodes (<[o := add_links (-1) (node_of o k)]> (m_nodes k))
                       (set_names (base.delete (od, name) (m_names k)) k))
        | None => (inl 2, k)
        end)
  | Linkat fd _ d name _ =>
      at_fd fd k (λ o, at_fd d k (λ od,
        match entry_of k od name with
        | Some _ => (inl 17, k)
        | None =>
            (inr tt, set_nodes (<[o := add_links 1 (node_of o k)]> (m_nodes k))
                       (set_names (<[(od, name) := o]> (m_names k)) k))
        end))
  | Renameat d name d' name' =>
      at_fd d k (λ od, at_fd d' k (λ od',
        match entry_of k od name with
        | Some o => (inr tt, set_names (<[(od', name') := o]> (base.delete (od, name) (m_names k))) k)
        | None => (inl 2, k)
        end))
  | Fstatfs _ => (inr (mkStatFs 10 100 40 4096), k)
  | Pread fd size offset =>
      at_fd fd k (λ o, (inr (take (Z.to_nat size) (drop (Z.to_nat offset) (n_data (node_of o k)))), k))
  | Pwrite fd data offset =>
      at_fd fd k (λ o,
        let data := take 8 data in
        (inr (len data), set_nodes (<[o := set_data (write_at data offset (n_data (node_of o k))) (node_of o k)]> (m_nodes k)) k))
  | Ftruncate fd size =>
      at_fd fd k (λ o,
        (inr tt, set_nodes (<[o := set_data (vec_resize (n_data (node_of o k)) size zero_byte) (node_of o k)]> (m_nodes k)) k))
  | Fsync _ => (inr tt, k)
  end.

(** *** It does what a host should *)

Lemma open_fd_opens o k k0 (P : SrcId → Prop) : m_fds k = m_fds k0 → P o → opens m_fds (open_fd o k) k0 P.
Proof.
  intros Hk HP. unfold opens, open_fd. cbn. rewrite Hk. destruct (unused_spec (m_fds k0)). split; [done|]. by exists o.
Qed.
Lemma open_for_writing_opens d name mode k :
  ∃ o k', open_for_writing d name mode k = open_fd o k' ∧ m_fds k' = m_fds k.
Proof.
  unfold open_for_writing. set (n := match entry_of k d name with Some _ => _ | None => _ end).
  destruct (entry_of k d n) as [o|]; cbn; eauto.
Qed.

#[local] Instance proc_path_inj : Inj (=) (=) proc_path.
Proof. intros x y Heq. unfold proc_path in Heq. apply (inj pretty). by repeat injection Heq as Heq. Qed.

Lemma find_proc_open fd o k : m_fds k !! fd = Some o → find_proc (proc_path fd) k = Some o.
Proof.
  intros Hfd. unfold find_proc.
  destruct (filter _ (map_to_list (m_fds k))) as [|[fd' o'] l] eqn:Hl.
  - assert ((fd, o) ∈ filter (λ e, proc_path e.1 = proc_path fd) (map_to_list (m_fds k))) as He.
    { apply list_elem_of_filter. split; [done|]. by apply elem_of_map_to_list. }
    rewrite Hl in He. by apply not_elem_of_nil in He.
  - assert ((fd', o') ∈ filter (λ e, proc_path e.1 = proc_path fd) (map_to_list (m_fds k))) as He.
    { rewrite Hl. apply list_elem_of_here. }
    apply list_elem_of_filter in He as [Heq He]. apply elem_of_map_to_list in He. cbn in *.
    apply (inj proc_path) in Heq as ->. congruence.
Qed.

#[export] Instance toy_laws : HostLaws toy m_fds entry_of 100.
Proof.
  split.
  - intros path flags k. cbn. destruct (find_proc path k); [by apply open_fd_opens|].
    case_match; [by apply open_fd_opens|done].
  - intros fd flags o k Hfd. cbn. rewrite (find_proc_open _ _ _ Hfd). by apply open_fd_opens.
  - intros d n flags mode k. cbn. unfold at_fd. destruct (m_fds k !! d) as [od|]; [|done].
    destruct (flags =? find_flags).
    + destruct (entry_of k od n); [by apply open_fd_opens|done].
    + destruct (open_for_writing_opens od n mode k) as (o & k' & -> & Hk). by apply open_fd_opens.
  - intros d n mode od k Hd. cbn. unfold at_fd. rewrite Hd.
    destruct (entry_of k od n) eqn:He; [by apply open_fd_opens|done].
  - intros d n mode od k Hd. cbn. unfold at_fd. rewrite Hd. by destruct (entry_of k od n).
  - intros fd k. cbn. unfold at_fd. destruct (m_fds k !! fd) eqn:Hfd; [by apply open_fd_opens|done].
  - done.
  - done.
  - intros A c k Hc. destruct c; try done; cbn; unfold at_fd, make; repeat case_match; done.
  - intros A c k Hc. destruct c; try done; cbn in *; unfold at_fd; repeat case_match; simplify_eq/=; try done.
  - intros fd flags st k Hflags. cbn. unfold at_fd. destruct (m_fds k !! fd) as [o|]; [|done].
    destruct Hflags as [->| ->]; intros [= <-]; by destruct o.
  - intros d n od st k Hd. cbn. unfold at_fd. rewrite Hd. rewrite andb_false_r.
    destruct (entry_of k od n) as [o|]; [|done]. intros [= <-]. by destruct o.
  - intros fd names error k. cbn. unfold at_fd. destruct (m_fds k !! fd) as [o|]; [|done].
    intros [= <- <-]. split.
    + unfold len, names_of. rewrite length_take. lia.
    + apply Forall_take, Forall_forall. intros n [Hn _]%list_elem_of_filter. by apply bool_decide_eq_true in Hn.
  - done.
Qed.

(** ** A directory of the host

    [/host] holds the file [f], a second link [g] to it, the directory [d] and the symbolic
    link [l] to [f]. *)
Definition abc : bytes := as_bytes "abcdef".
Definition file_id : SrcId := mkSrcId 101 1.
Definition dir_id : SrcId := mkSrcId 102 1.
Definition link_id : SrcId := mkSrcId 103 1.
Definition machine : Machine :=
  mkMachine ∅
    (list_to_map [(m_root, mkNode 0x41ed 3 []); (file_id, mkNode 0x81a4 2 abc);
                  (dir_id, mkNode 0x41ed 2 []); (link_id, mkNode 0xa1ff 1 (as_bytes "f"))])
    (list_to_map [((m_root, "f"%string), file_id); ((m_root, "g"%string), file_id);
                  ((m_root, "d"%string), dir_id); ((m_root, "l"%string), link_id)]) 200.

Abbreviation HostW := (World Machine HostMem).
Definition before_new : World Machine unit := mkWorld machine tt [] (λ _, None) 0.
Definition opened_handle : Outcome HostMem * World Machine unit := new toy "/host" before_new.
Definition handle : HostMem :=
  match opened_handle.1 with Ok m => m | _ => mkHostMem "" 0 ∅ ∅ 0 None end.
Definition host_world : HostW := started handle opened_handle.2.
Definition after {A} (m : M Machine HostMem A) (w : HostW) : HostW := (m w).2.

Lemma handle_opened : new toy "/host" before_new = (Ok handle, opened_handle.2).
Proof. by vm_compute. Qed.
Lemma host_world_ledger b : 0 <= b < 2 ^ 62 → ∃ o, SomeSt m_fds entry_of b (first_ledger o ∅) host_world.
Proof.
  intros Hb. pose proof (new_starts toy m_fds entry_of 100 "/host" b before_new Hb) as Hn.
  by rewrite handle_opened in Hn.
Qed.

(** A session: lookups of both links, a new directory, a new file that is written and closed, a
    listing, and references that are given back. *)
Definition ops : list HostOp.t :=
  [HostOp.Lookup 1 "f"; HostOp.Lookup 1 "g"; HostOp.Lookup 1 "absent"; HostOp.MkDir 1 "e" 0x1ed 0 0;
   HostOp.CreateFile 3 "n" 0x1a4 0 0; HostOp.PWrite (mkHostFile 4) 0 abc; HostOp.DropFile (mkHostFile 4);
   HostOp.ReadDirPlus 1; HostOp.Forget 2 3; HostOp.OpenFile 2 0; HostOp.Forget 2 1; HostOp.Forget 3 9].
Definition trace : list (HostOp.t * Outcome Answer) := (run_session toy true ops host_world).1.
Definition host_world' : HostW := (run_session toy true ops host_world).2.
Definition open_files' : gset Z := default ∅ (client_files_run trace ∅).

Lemma trace_session : session toy true host_world ∅ trace host_world' open_files'.
Proof. unfold trace, host_world'. apply run_session_spec. vm_compute. reflexivity. Qed.



(** Two links to one file, and another file. *)
Definition found (r : Outcome (option Stats)) : Stats :=
  match r with Ok (Some s) => s | _ => mkStats 0 0 0 0 0 0 0 0 0 0 0 0 0 end.
Definition w_f : HostW := after (lookup toy 1 "f") host_world.
Definition w_g : HostW := after (lookup toy 1 "g") w_f.

Lemma hostfs_identity_witness :
  ∃ o1 o2 : SrcId, (st_ino (found (lookup toy 1 "f" host_world).1) = st_ino (found (lookup toy 1 "g" w_f).1) ↔ o1 = o2) ∧
    o1 = o2.
Proof.
  destruct (host_world_ledger (0 + 2)) as [o HS]; [done|].
  destruct (hostfs_identity toy m_fds entry_of 100 0 _ host_world 1 "f" (found (lookup toy 1 "f" host_world).1) w_f
    1 "g" (found (lookup toy 1 "g" w_f).1) w_g HS)
    as (o1 & o2 & a1 & a2 & _ & _ & _ & Heq); [done|by vm_compute..|].
  exists o1, o2. split; [exact Heq|]. apply Heq. by vm_compute.
Defined.

Definition listing : list DirEntry :=
  match (readdir_plus toy 1 host_world).1 with Ok (Some es) => es | _ => [] end.
Lemma hostfs_readdir_plus_witness :
  StronglySorted entry_le listing ∧ de_name <$> listing = ["d"; "f"; "g"; "l"]%string ∧
  (λ e, st_ino (de_stats e)) <$> listing = [4; 2; 2; 3].
Proof.
  split; [|by vm_compute]. destruct (host_world_ledger (0 + 100)) as [o [T HS]]; [done|].
  assert (0 <= 0) as H0 by lia.
  pose proof (hostfs_readdir_plus toy m_fds entry_of 100 0 T _ host_world 1 HS H0) as Hr.
  unfold listing. destruct (readdir_plus toy 1 host_world) as [r w'] eqn:Heq.
  assert (∃ es, r = Ok (Some es)) as [es ->].
  { apply (f_equal fst) in Heq. cbn in Heq. subst r. eexists. by vm_compute. }
  by destruct Hr as (d & count & es' & os & a' & _ & _ & Hs & _).
Defined.

(** ** Where the code does something else than it says *)

Definition contents (o : SrcId) (w : HostW) : bytes := n_data (node_of o (w_db w)).

(** A write that the host takes in part is reported as done: eight of the ten bytes are in the
    file. *)
Theorem short_writes_lost :
  let w := after (open toy 2 2) w_f in
  let data := as_bytes "0123456789" in
  (HostFSFile_pwrite toy (mkHostFile 3) 0 data w).1 = Ok tt ∧
  contents file_id (after (HostFSFile_pwrite toy (mkHostFile 3) 0 data) w) = as_bytes "01234567".
Proof. by vm_compute. Qed.

(** Creating a file where a symbolic link is: the file that the link leads to loses its contents
    and is the one that is open, the attributes are those of the link. *)
Theorem create_file_follows_links :
  let r := create_file toy 1 "l" 0x1a4 0 0 host_world in
  (match r.1 with Ok (s, f) => is_symlink s && (hf_fd f =? 2) | _ => false end) = true ∧
  m_fds (w_db r.2) !! 2 = Some file_id ∧
  contents file_id host_world = abc ∧ contents file_id r.2 = [].
Proof. by vm_compute. Qed.

(** The mountpoint is recognised by its inode number alone, on any device: with [f] on another
    device than the mountpoint, [f] disappears. [readdir] lists what lookups do not find. *)
Definition w_mount : HostW := set_mem (with_fuse_mountpoint 101 handle) host_world.
Theorem mountpoint_hides_by_number :
  (lookup toy 1 "f" w_mount).1 = Ok None ∧
  (readdir toy 1 w_mount).1 = Ok (Some ["d"; "f"; "g"; "l"]%string).
Proof. by vm_compute. Qed.

(** A reference that [link] gives out is not counted: the client that was given two references
    and gave one back holds a number that is not known. *)
Theorem link_is_not_counted :
  let w := after (link toy 2 1 "h") w_f in
  let w' := after (forget toy 2 1) w in
  (match (link toy 2 1 "h" w_f).1 with Ok s => st_ino s | _ => 0 end) = 2 ∧
  (getattr toy 2 w').1 = Ok None.
Proof. by vm_compute. Qed.

(** Numbers follow the order of lookups: a handle opened anew gives other numbers to the same
    files. *)
Theorem numbers_follow_order :
  let f_d := after (lookup toy 1 "d") w_f in
  let w_d := after (lookup toy 1 "d") host_world in
  st_ino (found (lookup toy 1 "f" host_world).1) = 2 ∧ st_ino (found (lookup toy 1 "d" w_f).1) = 3 ∧
  st_ino (found (lookup toy 1 "d" host_world).1) = 2 ∧ st_ino (found (lookup toy 1 "f" w_d).1) = 3.
Proof. by vm_compute. Qed.

(** Two lookups of one file that run at the same time both enter it: both look for it before
    either has entered it.  It has two numbers then, and one of them is not found by its
    identity. *)
Definition stat_f : HostStat := attr_of file_id machine.
Definition open_f : M Machine HostMem (Z + Z) := libc toy (Openat 0 "f" find_flags 0).
Theorem concurrent_lookups_duplicate :
  let w := after open_f (after open_f host_world) in
  let w1 := after (create_inode 3 stat_f) (after (create_inode 2 stat_f) w) in
  (find_inode stat_f w).1 = Ok None ∧ (find_inode stat_f (after (find_inode stat_f) w)).1 = Ok None ∧
  src_id <$> inodes (w_mem w1) !! 2 = Some file_id ∧ src_id <$> inodes (w_mem w1) !! 3 = Some file_id ∧
  src_to_ino (w_mem w1) !! file_id = Some 3.
Proof. by vm_compute. Qed.

(** A lookup between the two steps of [forget]: the number it gave out is removed. *)
Theorem forget_races_with_lookup :
  let w := after (forget_count 2 1) w_f in
  let w1 := after (lookup toy 1 "f") w in
  (forget_count 2 1 w_f).1 = Ok true ∧ st_ino (found (lookup toy 1 "f" w).1) = 2 ∧
  (getattr toy 2 (after (remove_inode toy 2) w1)).1 = Ok None.
Proof. by vm_compute. Qed.

(** *** Names that are not UTF-8

    A host with two names in [/host]: one byte that is not UTF-8, of the directory [d], and
    U+FFFD, of the file [f]. *)
Definition bad_name : bytes := [Byte.xff].
Definition raw_machine : Machine :=
  mkMachine ∅ (m_nodes machine)
    (list_to_map [((m_root, String.string_of_list_byte bad_name), dir_id);
                  ((m_root, String.string_of_list_byte REPLACEMENT), file_id)]) 200.
Definition raw_names : list bytes := [bad_name; REPLACEMENT].
Definition raw_toy : Host Machine := λ A c k,
  match c in HostCall A return (Z + A) * Machine with
  | Readdir fd => (inr (raw_names, None), k)
  | c => toy _ c k
  end.
Definition raw_world : HostW := set_db (mkMachine (m_fds (w_db host_world)) (m_nodes raw_machine) (m_names raw_machine) 200) host_world.

(** The number that is given to the directory has the descriptor of the file: its attributes in
    the listing are those of a directory, and then those of a file. *)
Theorem lossy_names_mix_files :
  let r := readdir_plus raw_toy 1 raw_world in
  (match r.1 with
   | Ok (Some es) => (λ e, (st_ino (de_stats e), is_directory (de_stats e))) <$> es
   | _ => []
   end) = [(2, true); (3, false)] ∧
  (match (getattr raw_toy 2 r.2).1 with Ok (Some s) => is_file s | _ => false end) = true ∧
  src_id <$> inodes (w_mem r.2) !! 2 = Some dir_id.
Proof. by vm_compute. Qed.
