(* ===== verification/HostFsUses.v ===== *)
(** * HostFsUses: a host filesystem behind the kernel, and below an overlay

    Runs of [AgentFSFuse] and of the overlay over the numbers and the counts of a host
    filesystem. *)
From S2P Require Import Prelude Types Engine Lru Schema FileIO AgentFS AgentFSPath Overlay.
From S2P Require Import NfsAdapter Fuse Init Scenarios OverlayScenarios.
From S2P Require Import HostFs HostFsProps HostFsSession HostFsScenarios.
#[local] Existing Instance sql_reference.
#[local] Existing Instance BoundedLru.

(** ** Listing a directory through FUSE

    [readdir] of [AgentFSFuse] lists with [readdir_plus], which counts a reference to every
    entry; the kernel holds none after a READDIR, and has nothing to give back. *)
#[local] Instance toy_filesystem : SdkFs.FileSystem Machine HostMem := hostfs_filesystem toy true.
Definition fuse_host : World Machine Fuse :=
  mkWorld (w_db host_world) (Fuse.new handle) [] (λ _, None) 0.

Theorem fuse_listing_pins_descriptors :
  let w := (Fuse.readdir 1 0 4096 fuse_host).2 in
  let w' := (Fuse.readdir 1 0 4096 w).2 in
  (match (Fuse.readdir 1 0 4096 fuse_host).1 with
   | Ok (RDirectory es) => (λ e, (d_ino e, d_name e)) <$> es
   | _ => []
   end) = [(1, "."); (1, ".."); (4, "d"); (2, "f"); (2, "g"); (3, "l")]%string ∧
  size (m_fds (w_db fuse_host)) = 2%nat ∧ size (m_fds (w_db w)) = 5%nat ∧
  nlookup <$> inodes (f_fs (w_mem w')) !! 2 = Some 4.
Proof. by vm_compute. Qed.

(** ** Origins below an overlay

    [numbers_follow_order]: the numbers of the base depend on the order of lookups since it was
    opened.  The overlay keeps them in the table [fs_origin].  A base of the files [a] and [b],
    numbered [na] and [nb]. *)
Definition two_files (na nb : Z) : BaseFS := {|
  base_handle := Z;
  base_lookup ino n :=
    inr (if negb (ino =? 1) then None
         else if String.eqb n "a" then Some (base_stats na 0x81a4 4)
         else if String.eqb n "b" then Some (base_stats nb 0x81a4 4) else None);
  base_getattr ino :=
    inr (if ino =? 1 then Some (base_stats 1 0x41ed 0)
         else if (ino =? na) || (ino =? nb) then Some (base_stats ino 0x81a4 4) else None);
  base_readlink _ := inr None;
  base_readdir _ := inr (Some ["a"; "b"]%string);
  base_readdir_plus _ := inr None;
  base_open ino _ := inr ino;
  base_pread h off n :=
    inr (take (Z.to_nat n) (drop (Z.to_nat off) (Utf8.as_bytes (if h =? na then "AAAA" else "BBBB"))))
|}.

(** A session in which [a] is looked up first, and its mode is changed. *)
Definition first_session : OvWorld :=
  let B := two_files 2 3 in
  ov_after (Overlay.chmod (B := B) cs4 rdonly 2 0x180) (ov_after (Overlay.lookup (B := B) 1 "a") ov_new).
(** The next one, with a new handle of the base, in which [b] is looked up first. *)
Definition second_session : OvWorld :=
  ov_after load (set_mem (Overlay.new (lru_new 10)) first_session).

Theorem persisted_origins_mix_files :
  let B := two_files 3 2 in
  let w1 := ov_after (Overlay.lookup (B := B) 1 "b") second_session in
  let w2 := ov_after (Overlay.lookup (B := B) 1 "a") w1 in
  map_to_list (t_origin (w_db first_session)) = [(2, 2)] ∧
  (match (Overlay.lookup (B := B) 1 "b" second_session).1 with Ok (Some s) => st_ino s | _ => 0 end) = 2 ∧
  (match (Overlay.lookup (B := B) 1 "a" w1).1 with Ok (Some s) => st_ino s | _ => 0 end) = 2 ∧
  in_path <$> inode_map (w_mem w1) !! 2 = Some "/b"%string ∧
  in_path <$> inode_map (w_mem w2) !! 2 = Some "/a"%string.
Proof. vm_compute. done. Qed.
