(* ===== verification/NoPanic.v ===== *)
(** * NoPanic: operations that never panic

    Whatever the tables hold and whatever fails, these operations of the SDK return a result or
    an error: those that the server of [McpServer] runs for its clients. *)
From S2P Require Import Prelude Types Engine Lru Schema FileIO Path AgentFS AgentFSPath.
From S2P Require Import Rows KvStore.
Import PathApi (resolve_components, resolve_path_with_conn).

(** [NoPanic m]: in no world does [m] panic. *)
Class NoPanic {D C A} (m : M D C A) := no_panic w : (m w).1 ≠ Panic.
#[global] Hint Mode NoPanic + + + ! : typeclass_instances.

Section Operations.
Context {D C : Type}.

#[export] Instance ret_np {A} (a : A) : NoPanic (mret (M := M D C) a).
Proof. done. Qed.
#[export] Instance throw_np {A} e : NoPanic (throw (D:=D) (C:=C) (A:=A) e).
Proof. done. Qed.
#[export] Instance fs_err_np {A} e : NoPanic (fs_err (D:=D) (C:=C) (A:=A) e).
Proof. done. Qed.
#[export] Instance ok_or_np {A} e (o : option A) : NoPanic (ok_or (D:=D) (C:=C) e o).
Proof. by destruct o. Qed.
#[export] Instance json_np {A} (r : string + A) : NoPanic (json (D:=D) (C:=C) r).
Proof. by destruct r. Qed.
#[export] Instance some_np {A} (a : A) : NoPanic (or_panic (D:=D) (C:=C) (Some a)).
Proof. done. Qed.
#[export] Instance with_mem_np {A} (f : C → A * C) : NoPanic (with_mem (D:=D) f).
Proof. intros w. unfold with_mem. by destruct (f _). Qed.
#[export] Instance engine_call_np : NoPanic (engine_call (D:=D) (C:=C)).
Proof. by intros [d c [|[e|] fs] clk t]. Qed.
#[export] Instance get_connection_np : NoPanic (get_connection (D:=D) (C:=C)).
Proof. apply _. Qed.
#[export] Instance now_np : NoPanic (now (D:=D) (C:=C)).
Proof. intros w. unfold now. by destruct (w_clock w _). Qed.
#[export] Instance now_or_default_np : NoPanic (now_or_default (D:=D) (C:=C)).
Proof. done. Qed.
#[export] Instance bind_np {A B} (m : M D C A) (f : A → M D C B) :
  NoPanic m → (∀ a, NoPanic (f a)) → NoPanic (m ≫= f).
Proof.
  intros Hm Hf w. specialize (Hm w). unfold mbind, M_bind.
  destruct (m w) as [[a|e|] w1]; [apply Hf|done..].
Qed.
#[export] Instance query_np {A} (f : D → A) : NoPanic (query (C:=C) f).
Proof. unfold query. by apply bind_np; [apply _|intros _ w]. Qed.
#[export] Instance query_row_np {A} (f : D → option (A * D)) : NoPanic (query_row (C:=C) f).
Proof.
  unfold query_row. apply bind_np; [apply _|intros _ w]. by destruct (f (w_db w)) as [[]|].
Qed.
#[export] Instance execute_np (f : D → option D) : NoPanic (execute (C:=C) f).
Proof. unfold execute. apply _. Qed.
#[export] Instance update_np (f : D → D) : NoPanic (update (C:=C) f).
Proof. unfold update. apply _. Qed.
#[export] Instance transaction_np {A} (m : M D C A) : NoPanic m → NoPanic (transaction m).
Proof.
  intros Hm w. unfold transaction. pose proof (engine_call_np w) as H1.
  destruct (engine_call w) as [[u|e|] w1]; [|done..]. pose proof (Hm w1) as H2.
  destruct (m w1) as [[a|e|] w2]; [|done..]. pose proof (engine_call_np w2) as H3.
  by destruct (engine_call w2) as [[u2|e|] w3].
Qed.
Lemma udiv_np a b : 0 < b → NoPanic (udiv (D:=D) (C:=C) a b).
Proof. intros Hb w. unfold udiv. by destruct (Z.eqb_spec b 0); [lia|]. Qed.
Lemma urem_run a b (w : World D C) : 0 < b → urem a b w = (Ok (a mod b), w).
Proof. intros Hb. unfold urem. by destruct (Z.eqb_spec b 0); [lia|]. Qed.
End Operations.

#[export] Hint Extern 0 (NoPanic (match ?x with _ => _ end)) => destruct x : typeclass_instances.

(** ** Open files *)
Section Files.
Context {C : Type} (cs : Z).

(** Every slice of the loop is within bounds, whatever the chunks hold. *)
Lemma write_loop_np fuel ino off data k :
  0 < cs → 0 <= k → NoPanic (write_loop (C:=C) fuel (mkFile ino cs) off data k).
Proof.
  intros Hcs. revert k. induction fuel as [|fuel IH]; intros k Hk; cbn [write_loop]; [apply _|].
  destruct (Z.ltb_spec k (len data)); [|apply _]. cbn [f_ino f_chunk_size].
  apply bind_np; [by apply udiv_np|]. intros idx w. unfold mbind at 1, M_bind at 1.
  rewrite urem_run by done.
  pose proof (Z.mod_pos_bound (u64_add off k) cs Hcs) as Ho. set (o := u64_add off k mod cs) in *.
  set (tw := Z.min (cs - o) (len data - k)). revert w.
  set (src := take (Z.to_nat tw) (drop (Z.to_nat k) data)).
  assert (Hsl : slice data k (k + tw) = Some src).
  { rewrite slice_spec by lia. unfold src. by replace (k + tw - k) with tw by lia. }
  assert (Hsrc : len src = tw) by (unfold src; rewrite len_take, len_drop; lia).
  rewrite Hsl. match goal with |- ∀ w, (?m w).1 ≠ Panic => change (NoPanic m) end.
  apply bind_np; [|intros c; apply bind_np; [apply _|intros _; apply IH; lia]].
  destruct (negb _); [|apply _]. apply bind_np; [apply _|intros row w].
  unfold mbind, M_bind. cbn [or_panic mret M_ret].
  set (ext := if _ <? _ then _ else _).
  assert (Hext : o + len src <= len ext).
  { unfold ext. destruct (Z.ltb_spec (len (default [] row)) (o + tw)); [|lia].
    rewrite len_vec_resize by lia. lia. }
  by rewrite copy_at_spec by lia.
Qed.

Lemma pwrite_np ino off data : 0 < cs → NoPanic (pwrite (C:=C) (mkFile ino cs) off data).
Proof.
  intros Hcs. unfold pwrite, write_data_at_offset_with_conn. destruct data as [|b data]; [apply _|].
  apply bind_np; [apply _|intros _]. apply transaction_np.
  apply bind_np; [apply _|intros row]. apply bind_np; [by apply write_loop_np|intros _]. apply _.
Qed.
End Files.

(** ** The key-value store *)
Section Store.
Context {V : Type} `{Serde V} (unixepoch : nat → Z).

#[export] Instance read_unixepoch_np : NoPanic (read_unixepoch unixepoch).
Proof. done. Qed.
#[export] Instance kv_set_np key value : NoPanic (KvStore.set unixepoch key value).
Proof. unfold KvStore.set. apply _. Qed.
#[export] Instance kv_get_np key : NoPanic (KvStore.get key).
Proof. unfold KvStore.get. apply _. Qed.
#[export] Instance kv_delete_np key : NoPanic (KvStore.delete key).
Proof. unfold KvStore.delete. apply _. Qed.
End Store.

(** ** The filesystem by path *)
Section Paths.
Context {E : SqlEngine} {Lru : LruCache (Z * string) Z} (cs : Z).
Abbreviation Fs := (M Db (lru (Z * string) Z)).

#[export] Instance resolve_components_np ino components :
  NoPanic (resolve_components ino components : Fs _).
Proof.
  revert ino. induction components as [|c components IH]; intros ino;
    cbn [resolve_components]; unfold cache_get, one_row, cache_insert; apply _.
Qed.
#[export] Instance resolve_path_with_conn_np path : NoPanic (resolve_path_with_conn path : Fs _).
Proof. unfold resolve_path_with_conn. apply _. Qed.
#[export] Instance resolve_existing_np path : NoPanic (PathApi.resolve_existing path : Fs _).
Proof. unfold PathApi.resolve_existing. apply _. Qed.
(** There is a last component where there is one. *)
#[export] Instance resolve_parent_np c components :
  NoPanic (PathApi.resolve_parent (c :: components) : Fs _).
Proof.
  unfold PathApi.resolve_parent. destruct (last (c :: components)) eqn:Hl; [apply _|].
  by apply last_None in Hl.
Qed.
#[export] Instance readlink_with_conn_np path : NoPanic (PathApi.readlink_with_conn path : Fs _).
Proof. unfold PathApi.readlink_with_conn. apply _. Qed.
#[export] Instance stat_loop_np missing depth path :
  NoPanic (PathApi.stat_loop missing depth path : Fs _).
Proof. revert path. induction depth; intros path; cbn [PathApi.stat_loop]; apply _. Qed.
#[export] Instance path_stat_np path : NoPanic (PathApi.stat path : Fs _).
Proof. unfold PathApi.stat. apply _. Qed.
#[export] Instance path_readdir_np ino : NoPanic (PathApi.readdir ino : Fs _).
Proof. unfold PathApi.readdir. apply _. Qed.
#[export] Instance path_read_file_np path : NoPanic (PathApi.read_file path : Fs _).
Proof. unfold PathApi.read_file. apply _. Qed.
#[export] Instance lookup_child_np p n : NoPanic (lookup_child p n : Fs _).
Proof. unfold lookup_child, one_row. apply _. Qed.
#[export] Instance get_link_count_np ino : NoPanic (get_link_count ino : Fs _).
Proof. unfold get_link_count. apply _. Qed.
#[export] Instance purge_inode_np ino : NoPanic (purge_inode ino : Fs _).
Proof. unfold purge_inode. apply _. Qed.

#[export] Instance path_mkdir_np path uid gid : NoPanic (PathApi.mkdir path uid gid : Fs _).
Proof.
  unfold PathApi.mkdir, cache_insert. destruct (split_path _); apply _.
Qed.
#[export] Instance path_create_file_np path mode uid gid :
  NoPanic (PathApi.create_file cs path mode uid gid : Fs _).
Proof.
  unfold PathApi.create_file, cache_insert. destruct (split_path _); apply _.
Qed.
#[export] Instance path_remove_np path : NoPanic (PathApi.remove path : Fs _).
Proof.
  unfold PathApi.remove, PathApi.stat_with_conn, cache_remove. destruct (split_path _); apply _.
Qed.
#[export] Instance path_rename_np from to : NoPanic (PathApi.rename from to : Fs _).
Proof.
  unfold PathApi.rename, PathApi.replace_destination, PathApi.stat_with_conn, move_entry,
    cache_remove, cache_insert.
  destruct (split_path (normalize_path to)); apply _.
Qed.
End Paths.
