(* ===== verification/McpServer.v ===== *)
(** * McpServer: the tools of an agent for a model

    [cli/src/cmd/mcp_server.rs]: the server of the Model Context Protocol, that answers JSON-RPC
    requests, one per line, with tools on the filesystem and the key-value store of an agent.
    JSON text, base64 and the messages of other crates are foreign. *)
From Stdlib Require Import Ascii.
From stdpp Require Import pretty.
From S2P Require Import Prelude Types Engine Lru Schema FileIO Path AgentFS AgentFSPath.
From S2P Require Import Rows KvStore Xdr Utf8 Versions.

(** ** JSON

    An object is the list of its fields. *)
#[local] Unset Elimination Schemes.
Inductive Json :=
| JNull
| JBool (b : bool)
| JNum (n : Z)
| JFloat (text : string)
| JStr (s : string)
| JArr (l : list Json)
| JObj (fields : list (string * Json)).
#[local] Set Elimination Schemes.

(** [Value::get] and [Value::as_str]. *)
Fixpoint assoc (k : string) (l : list (string * Json)) : option Json :=
  match l with
  | [] => None
  | (k', v) :: l => if String.eqb k k' then Some v else assoc k l
  end.
Definition get (k : string) (j : Json) : option Json :=
  match j with JObj fields => assoc k fields | _ => None end.
Definition as_str (j : Json) : option string := match j with JStr s => Some s | _ => None end.

(** [serde_json::from_str], [to_string] and [to_string_pretty] of a value, and the messages of
    [from_value]. *)
Class SerdeJson := {
  from_str : string → option Json;
  to_string : Json → string;
  to_string_pretty : Json → string;
  serde_error : string → Json → string
}.
(** The standard engine of the crate [base64]. *)
Class Base64 := {
  encode : bytes → string;
  decode : string → string + bytes
}.

(** ** Paths *)

(** Rejects paths that contain [..] anywhere; a path that is not absolute is one from the root. *)
Definition normalize_path (path : string) : string + string :=
  let path := trim path in
  if contains ".." path then inl ("Path traversal not allowed: " +:+ path)
  else inr (if starts_with path "/" then path
            else if String.eqb path "" then "/"
            else "/" +:+ path)%string.

(** [Path::parent] of an absolute path: what follows the last name, separators and [.], goes with
    it. *)
Definition is_junk (s : string) : bool := String.eqb s "" || String.eqb s ".".
Fixpoint drop_junk (l : list string) : list string :=
  match l with
  | s :: l' => if is_junk s then drop_junk l' else l
  | [] => []
  end.
Definition parent (path : string) : option string :=
  match drop_junk (reverse (split_slash path)) with
  | [] => None
  | _ :: l =>
      match drop_junk l with
      | [] => Some "/"%string
      | l => Some (join_slash (reverse l))
      end
  end.

(** [Path::extension]: what follows the last dot of the file name, if something precedes it. *)
Fixpoint after_last_dot (s : string) : option (string * string) :=
  match s with
  | EmptyString => None
  | String c s' =>
      match after_last_dot s' with
      | Some (a, b) => Some (String c a, b)
      | None => if Ascii.eqb c (Ascii.ascii_of_nat 46) then Some (EmptyString, s') else None
      end
  end.
Definition file_name (path : string) : option string :=
  match drop_junk (reverse (split_slash path)) with
  | name :: _ => if String.eqb name ".." then None else Some name
  | [] => None
  end.
Definition extension (path : string) : option string :=
  name ← file_name path;
  match after_last_dot name with
  | Some (EmptyString, _) | None => None
  | Some (_, ext) => Some ext
  end.

Definition guess_mime_type (path : string) : string :=
  match extension path with
  | Some ext =>
      if String.eqb ext "txt" || String.eqb ext "md" then "text/plain"
      else if String.eqb ext "json" then "application/json"
      else if String.eqb ext "html" || String.eqb ext "htm" then "text/html"
      else if String.eqb ext "js" || String.eqb ext "mjs" then "application/javascript"
      else if String.eqb ext "ts" then "application/typescript"
      else if String.eqb ext "css" then "text/css"
      else if String.eqb ext "xml" then "application/xml"
      else if String.eqb ext "png" then "image/png"
      else if String.eqb ext "jpg" || String.eqb ext "jpeg" then "image/jpeg"
      else if String.eqb ext "gif" then "image/gif"
      else if String.eqb ext "svg" then "image/svg+xml"
      else if String.eqb ext "pdf" then "application/pdf"
      else if String.eqb ext "zip" then "application/zip"
      else if String.eqb ext "tar" then "application/x-tar"
      else if String.eqb ext "gz" then "application/gzip"
      else "application/octet-stream"
  | None => "application/octet-stream"
  end%string.

Example parents :
  parent "/a/b" = Some "/a"%string ∧ parent "/a//b/./c/" = Some "/a//b"%string ∧
  parent "/a" = Some "/"%string ∧ parent "/" = None ∧
  guess_mime_type "/a.b/x.tar.gz" = "application/gzip"%string ∧
  guess_mime_type "/.json" = "application/octet-stream"%string.
Proof. by vm_compute. Qed.

(** ** Parameters of the tools

    [#[derive(Deserialize)]] of a struct: the fields of an object by name, or the elements of an
    array in order; an optional field may be missing or null. *)
Definition struct_fields (names : list string) (j : Json) : option (list (option Json)) :=
  match j with
  | JObj fields => Some ((λ n, assoc n fields) <$> names)
  | JArr l =>
      if (length l <=? length names)%nat
      then Some ((Some <$> l) ++ replicate (length names - length l) None) else None
  | _ => None
  end.
Definition required (v : option Json) : option string := v ≫= as_str.
Definition optional {A} (as_a : Json → option A) (v : option Json) : option (option A) :=
  match v with
  | None | Some JNull => Some None
  | Some j => Some <$> as_a j
  end.
Definition as_bool (j : Json) : option bool := match j with JBool b => Some b | _ => None end.

Record ReadFileParams := mkReadFile { rf_path : string; rf_encoding : option string }.
Record WriteFileParams := mkWriteFile {
  wf_path : string; wf_content : string; wf_encoding : option string; wf_create_dirs : option bool
}.
Record RenameParams := mkRename { rn_from : string; rn_to : string }.
Record KvSetParams := mkKvSet { ks_key : string; ks_value : Json }.

Definition read_file_params (j : Json) : option ReadFileParams :=
  match struct_fields ["path"; "encoding"] j with
  | Some [p; e] => path ← required p; encoding ← optional as_str e; Some (mkReadFile path encoding)
  | _ => None
  end.
Definition write_file_params (j : Json) : option WriteFileParams :=
  match struct_fields ["path"; "content"; "encoding"; "create_dirs"] j with
  | Some [p; c; e; d] =>
      path ← required p; content ← required c; encoding ← optional as_str e;
      create_dirs ← optional as_bool d; Some (mkWriteFile path content encoding create_dirs)
  | _ => None
  end.
Definition rename_params (j : Json) : option RenameParams :=
  match struct_fields ["from"; "to"] j with
  | Some [f; t] => from ← required f; to ← required t; Some (mkRename from to)
  | _ => None
  end.
Definition kv_set_params (j : Json) : option KvSetParams :=
  match struct_fields ["key"; "value"] j with
  | Some [k; v] => key ← required k; value ← v; Some (mkKvSet key value)
  | _ => None
  end.
(** The structs of one string, [path] or [key]. *)
Definition one_param (name : string) (j : Json) : option string :=
  match struct_fields [name] j with Some [v] => required v | _ => None end.

(** ** The server *)

(** The tables of the agent; the messages of [anyhow] errors are texts. *)
Record McpDb := mkMcpDb { mcp_fs : Db; mcp_kv : KvDb }.

Section McpServer.
Context {E : SqlEngine} {Lru : LruCache (Z * string) Z} {ET : ErrorTexts}.
Context {SJ : SerdeJson} {B64 : Base64} {SV : Serde Json}.
Context (chunk_size : Z) (unixepoch : nat → Z) (cargo_pkg_version : string).
(** The filter of the command line. *)
Context (enabled_tools : option (gset string)).

Abbreviation Mem := (lru (Z * string) Z).
Abbreviation Mcp := (M McpDb Mem).
(** [anyhow::Result]. *)
Abbreviation R A := (M McpDb Mem (string + A)).

Definition ok {A} (a : A) : R A := mret (inr a).
Definition bail {A} (msg : string) : R A := mret (inl msg).
Definition and_then {A B} (m : R A) (f : A → R B) : R B :=
  r ← m; match r with inl e => mret (inl e) | inr a => f a end.
Notation "x ←! m ; k" := (and_then m (λ x, k))
  (at level 20, m at level 100, k at level 200, right associativity).
Notation "m ;;! k" := (and_then m (λ _, k)) (at level 100, k at level 200, right associativity).

(** An operation of the filesystem or of the store, and its result. *)
Definition on_fs {A} (op : M Db Mem A) : Mcp (Error.t + A) := λ w,
  let '(r, w') := op (mkWorld (mcp_fs (w_db w)) (w_mem w) (w_faults w) (w_clock w) (w_tick w)) in
  (match r with Ok a => Ok (inr a) | Err e => Ok (inl e) | Panic => Panic end,
   mkWorld (mkMcpDb (w_db w') (mcp_kv (w_db w))) (w_mem w') (w_faults w') (w_clock w') (w_tick w')).
Definition on_kv {A} (op : M KvDb unit A) : Mcp (Error.t + A) := λ w,
  let '(r, w') := op (mkWorld (mcp_kv (w_db w)) tt (w_faults w) (w_clock w) (w_tick w)) in
  (match r with Ok a => Ok (inr a) | Err e => Ok (inl e) | Panic => Panic end,
   mkWorld (mkMcpDb (mcp_fs (w_db w)) (w_db w')) (w_mem w) (w_faults w') (w_clock w') (w_tick w')).

(** [?] and [.context(..)?] *)
Definition question {A} (m : Mcp (Error.t + A)) : R A :=
  r ← m; match r with inl e => bail (Error.fmt e) | inr a => ok a end.
Definition context {A} (msg : string) (m : Mcp (Error.t + A)) : R A :=
  r ← m; match r with inl _ => bail msg | inr a => ok a end.
(** A [Result] and an [Option] with their [?]. *)
Definition result {A} (r : string + A) : R A := mret r.
Definition or_bail {A} (msg : string) (o : option A) : R A :=
  match o with Some a => ok a | None => bail msg end.

Definition is_tool_enabled (tool_name : string) : bool :=
  match enabled_tools with
  | None => true
  | Some set => bool_decide (tool_name ∈ set)
  end.

(** *** The tools *)

Definition is_base64 (encoding : option string) : bool :=
  match encoding with Some e => String.eqb e "base64" | None => false end.

Definition handle_read_file (params : ReadFileParams) : R string :=
  path ←! result (normalize_path (rf_path params));
  found ←! context "Failed to read file" (on_fs (PathApi.read_file path));
  data ←! or_bail ("File not found: " +:+ path) found;
  if is_base64 (rf_encoding params) then ok (encode data)
  else or_bail "File is not valid UTF-8. Use encoding=base64 for binary files." (from_utf8 data).

(** The recursion over the parents of a path; [fuel] is the number of its components. *)
Fixpoint ensure_parents (fuel : nat) (path : string) : R unit :=
  match parent path with
  | Some p =>
      if String.eqb p "/" then ok tt
      else
        parent_path ←! result (normalize_path p);
        exists_ ←! question (on_fs (PathApi.stat parent_path));
        match exists_ with
        | Some _ => ok tt
        | None =>
            (match fuel with
             | O => ok tt
             | S fuel => ensure_parents fuel parent_path
             end) ;;!
            context ("Failed to create directory: " +:+ parent_path)
              (on_fs (PathApi.mkdir parent_path 0 0))
        end
  | None => ok tt
  end.
Definition ensure_parent_dirs (path : string) : R unit :=
  ensure_parents (String.length path) path.

Definition FILE_MODE : Z := Z.lor S_IFREG 0x1a4.
Definition handle_write_file (params : WriteFileParams) : R string :=
  path ←! result (normalize_path (wf_path params));
  data ←! result (if is_base64 (wf_encoding params)
                  then match decode (wf_content params) with
                       | inl e => inl ("Base64 decode error: " +:+ e)
                       | inr data => inr data
                       end
                  else inr (as_bytes (wf_content params)));
  (if default false (wf_create_dirs params) then ensure_parent_dirs path else ok tt) ;;!
  exists_ ←! question (on_fs (PathApi.stat path));
  (match exists_ with
   | Some _ => question (on_fs (PathApi.remove path))
   | None => ok tt
   end) ;;!
  created ←! context "Failed to create file" (on_fs (PathApi.create_file chunk_size path FILE_MODE 0 0));
  context "Failed to write file" (on_fs (FileIO.pwrite created.2 0 data)) ;;!
  ok ("Wrote " +:+ pretty (len data) +:+ " bytes to " +:+ path).

Definition handle_readdir (path : string) : R string :=
  path ←! result (normalize_path path);
  found ←! context "Failed to stat directory" (on_fs (PathApi.stat path));
  stats ←! or_bail ("Directory not found: " +:+ path) found;
  found ←! context "Failed to read directory" (on_fs (PathApi.readdir (st_ino stats)));
  entries ←! or_bail ("Directory not found: " +:+ path) found;
  ok (to_string_pretty (JArr (JStr <$> entries))).

Definition handle_mkdir (path : string) : R string :=
  path ←! result (normalize_path path);
  context "Failed to create directory" (on_fs (PathApi.mkdir path 0 0)) ;;!
  ok ("Created directory: " +:+ path).

Definition handle_remove (path : string) : R string :=
  path ←! result (normalize_path path);
  context "Failed to remove directory" (on_fs (PathApi.remove path)) ;;!
  ok ("Removed directory: " +:+ path).

Definition handle_rename (params : RenameParams) : R string :=
  from ←! result (normalize_path (rn_from params));
  to ←! result (normalize_path (rn_to params));
  context "Failed to rename" (on_fs (PathApi.rename from to)) ;;!
  ok ("Renamed " +:+ from +:+ " to " +:+ to).

(** [StatsResponse]. *)
Definition stats_response (s : Stats) : Json :=
  JObj [("ino", JNum (st_ino s)); ("mode", JNum (st_mode s)); ("nlink", JNum (st_nlink s));
        ("uid", JNum (st_uid s)); ("gid", JNum (st_gid s)); ("size", JNum (st_size s));
        ("atime", JNum (st_atime s)); ("mtime", JNum (st_mtime s)); ("ctime", JNum (st_ctime s));
        ("is_file", JBool (is_file s)); ("is_directory", JBool (is_directory s));
        ("is_symlink", JBool (is_symlink s))].
Definition handle_stat (path : string) : R string :=
  path ←! result (normalize_path path);
  found ←! context "Failed to stat" (on_fs (PathApi.stat path));
  stats ←! or_bail ("Path not found: " +:+ path) found;
  ok (to_string_pretty (stats_response stats)).

Definition handle_access (path : string) : R string :=
  path ←! result (normalize_path path);
  found ←! question (on_fs (PathApi.stat path));
  ok (to_string (JObj [("exists", JBool (bool_decide (is_Some found)))])).

Definition handle_kv_get (key : string) : R string :=
  value ←! context "Failed to get value" (on_kv (KvStore.get key));
  ok (to_string_pretty (default JNull value)).
Definition handle_kv_set (params : KvSetParams) : R string :=
  context "Failed to set value" (on_kv (KvStore.set unixepoch (ks_key params) (ks_value params))) ;;!
  ok ("Set key: " +:+ ks_key params).
Definition handle_kv_delete (key : string) : R string :=
  context "Failed to delete key" (on_kv (KvStore.delete key)) ;;!
  ok ("Deleted key: " +:+ key).

(** *** Which tools there are *)

Definition property (name ty description : string) : string * Json :=
  (name, JObj [("type", JStr ty); ("description", JStr description)]).
Definition encoding_property (description : string) : string * Json :=
  ("encoding", JObj [("type", JStr "string"); ("enum", JArr [JStr "utf8"; JStr "base64"]);
                     ("description", JStr description)])%string.
Definition tool (name description : string) (properties : list (string * Json)) (required : list string) : Json :=
  JObj [("name", JStr name); ("description", JStr description);
        ("inputSchema",
           JObj ([("type", JStr "object"); ("properties", JObj properties)] ++
                 match required with [] => [] | _ => [("required", JArr (JStr <$> required))] end))].

(** The tools of the filesystem. *)
Definition filesystem_tools : list (string * Json) :=
  [("read_file", tool "read_file" "Read file contents from the filesystem"
      [property "path" "string" "Path to the file to read";
       encoding_property "Encoding to use for file contents (default: utf8)"] ["path"]);
   ("write_file", tool "write_file" "Write content to a file in the filesystem"
      [property "path" "string" "Path to the file to write";
       property "content" "string" "Content to write to the file";
       encoding_property "Encoding of the content (default: utf8)";
       property "create_dirs" "boolean" "Create parent directories if they don't exist"]
      ["path"; "content"]);
   ("readdir", tool "readdir" "List contents of a directory"
      [property "path" "string" "Path to the directory to list"] ["path"]);
   ("mkdir", tool "mkdir" "Create a directory"
      [property "path" "string" "Path of the directory to create"] ["path"]);
   ("remove", tool "remove" "Remove a file or empty directory"
      [property "path" "string" "Path of the file or directory to remove"] ["path"]);
   ("rename", tool "rename" "Move or rename a file or directory"
      [property "from" "string" "Source path"; property "to" "string" "Destination path"] ["from"; "to"]);
   ("stat", tool "stat" "Get file or directory metadata"
      [property "path" "string" "Path to stat"] ["path"]);
   ("access", tool "access" "Test if a path exists"
      [property "path" "string" "Path to test"] ["path"])]%string.

(** The tools of the key-value store. *)
Definition kv_tools : list (string * Json) :=
  [("kv_get", tool "kv_get" "Get a value from the key-value store"
      [property "key" "string" "Key to retrieve"] ["key"]);
   ("kv_set", tool "kv_set" "Set a value in the key-value store"
      [property "key" "string" "Key to set";
       ("value", JObj [("description", JStr "Value to store (any JSON value)")])] ["key"; "value"]);
   ("kv_delete", tool "kv_delete" "Delete a key from the key-value store"
      [property "key" "string" "Key to delete"] ["key"]);
   ("kv_list", tool "kv_list" "List keys in the key-value store with optional prefix"
      [property "prefix" "string" "Optional prefix to filter keys"] [])]%string.

Definition get_tool_definitions : list Json :=
  (filter (λ t, is_tool_enabled t.1 = true) (filesystem_tools ++ kv_tools)).*2.

(** *** Resources *)

(** The loop over the entries of the directory [path]; [recurse] is the call on a directory. *)
Fixpoint visit_entries (recurse : string → list Json → R (list Json)) (path : string)
    (entries : list string) (resources : list Json) : R (list Json) :=
  match entries with
  | [] => ok resources
  | entry :: entries =>
      let full_path :=
        (if String.eqb path "/" then "/" +:+ entry else path +:+ "/" +:+ entry)%string in
      found ←! question (on_fs (PathApi.stat full_path));
      match found with
      | None => visit_entries recurse path entries resources
      | Some stats =>
          if is_file stats then
            visit_entries recurse path entries (resources ++
              [JObj [("uri", JStr full_path); ("name", JStr entry);
                     ("description", JStr ("File at " +:+ full_path));
                     ("mimeType", JStr (guess_mime_type full_path))]])
          else if is_directory stats then
            resources ←! recurse full_path resources;
            visit_entries recurse path entries resources
          else visit_entries recurse path entries resources
      end
  end.

(** The walk over the directories; [fuel] is the depth. *)
Fixpoint collect_file_resources (fuel : nat) (path : string) (resources : list Json) : R (list Json) :=
  match fuel with
  | O => ok resources
  | S fuel =>
      found ←! question (on_fs (PathApi.stat path));
      match found with
      | None => ok resources
      | Some dir_stats =>
          found ←! question (on_fs (PathApi.readdir (st_ino dir_stats)));
          match found with
          | None => ok resources
          | Some entries => visit_entries (collect_file_resources fuel) path entries resources
          end
      end
  end.
(** As deep as there are entries, and one more. *)
Definition list_resources : R (list Json) := λ w,
  collect_file_resources (S (S (size (fs_dentry (mcp_fs (w_db w)))))) "/" [] w.

Definition read_resource (path : string) : R bytes :=
  normalized ←! result (normalize_path path);
  found ←! context "Failed to read file" (on_fs (PathApi.read_file normalized));
  or_bail ("File not found: " +:+ normalized) found.

(** *** Requests *)

Definition handle_initialize (params : Json) : R Json :=
  ok (JObj [("protocolVersion", JStr "2024-11-05");
            ("capabilities", JObj [("tools", JObj []); ("resources", JObj [])]);
            ("serverInfo", JObj [("name", JStr "agentfs-mcp-server"); ("version", JStr cargo_pkg_version)])])%string.

Definition handle_tools_list : R Json := ok (JObj [("tools", JArr get_tool_definitions)]).

(** [serde_json::from_value(arguments)?] *)
Definition from_value {A} (struct : string) (parse : Json → option A) (arguments : Json) : R A :=
  or_bail (serde_error struct arguments) (parse arguments).

Definition call_tool (name : string) (arguments : Json) : R string :=
  if String.eqb name "read_file" then
    params ←! from_value "ReadFileParams" read_file_params arguments; handle_read_file params
  else if String.eqb name "write_file" then
    params ←! from_value "WriteFileParams" write_file_params arguments; handle_write_file params
  else if String.eqb name "readdir" then
    path ←! from_value "ReaddirParams" (one_param "path") arguments; handle_readdir path
  else if String.eqb name "mkdir" then
    path ←! from_value "MkdirParams" (one_param "path") arguments; handle_mkdir path
  else if String.eqb name "rename" then
    params ←! from_value "RenameParams" rename_params arguments; handle_rename params
  else if String.eqb name "remove" then
    path ←! from_value "RemoveParams" (one_param "path") arguments; handle_remove path
  else if String.eqb name "stat" then
    path ←! from_value "StatParams" (one_param "path") arguments; handle_stat path
  else if String.eqb name "access" then
    path ←! from_value "AccessParams" (one_param "path") arguments; handle_access path
  else if String.eqb name "kv_get" then
    key ←! from_value "KvGetParams" (one_param "key") arguments; handle_kv_get key
  else if String.eqb name "kv_set" then
    params ←! from_value "KvSetParams" kv_set_params arguments; handle_kv_set params
  else if String.eqb name "kv_delete" then
    key ←! from_value "KvDeleteParams" (one_param "key") arguments; handle_kv_delete key
  else bail ("Unknown tool: " +:+ name).

Definition handle_tools_call (params : Json) : R Json :=
  name ←! or_bail "Missing tool name" (get "name" params ≫= as_str);
  let arguments := default (JObj []) (get "arguments" params) in
  result_text ←! call_tool name arguments;
  ok (JObj [("content", JArr [JObj [("type", JStr "text"); ("text", JStr result_text)]])])%string.

Definition handle_resources_list : R Json :=
  resources ←! list_resources; ok (JObj [("resources", JArr resources)]).

Definition handle_resources_read (params : Json) : R Json :=
  uri ←! or_bail "Missing resource uri" (get "uri" params ≫= as_str);
  contents ←! read_resource uri;
  let mime_type := guess_mime_type uri in
  let resource_contents :=
    match from_utf8 contents with
    | Some text => JObj [("uri", JStr uri); ("mimeType", JStr mime_type); ("text", JStr text)]
    | None => JObj [("uri", JStr uri); ("mimeType", JStr mime_type); ("blob", JStr (encode contents))]
    end%string in
  ok (JObj [("contents", JArr [resource_contents])]).

Definition dispatch (method : string) (params : Json) : R Json :=
  if String.eqb method "initialize" then handle_initialize params
  else if String.eqb method "tools/list" then handle_tools_list
  else if String.eqb method "tools/call" then handle_tools_call params
  else if String.eqb method "resources/list" then handle_resources_list
  else if String.eqb method "resources/read" then handle_resources_read params
  else bail ("Unknown method: " +:+ method).

Definition handle_request (request : Json) : Mcp (option Json) :=
  match get "method" request ≫= as_str with
  | None => mret None
  | Some method =>
      let id := default JNull (get "id" request) in
      let params := default (JObj []) (get "params" request) in
      if String.eqb method "initialized" then mret None
      else
        r ← dispatch method params;
        mret (Some (match r with
          | inr result => JObj [("jsonrpc", JStr "2.0"); ("id", id); ("result", result)]
          | inl e =>
              JObj [("jsonrpc", JStr "2.0"); ("id", id);
                    ("error", JObj [("code", JNum (-32603)); ("message", JStr e)])]
          end%string))
  end.

(** The lines of the standard input, and those that are written. *)
Fixpoint serve (lines : list string) : Mcp (list string) :=
  match lines with
  | [] => mret []
  | line :: lines =>
      if String.eqb (trim line) "" then serve lines
      else match from_str line with
      | None => serve lines
      | Some request =>
          response ← handle_request request;
          rest ← serve lines;
          mret (match response with Some resp => to_string resp :: rest | None => rest end)
      end
  end.
End McpServer.

(** Instance search takes the operations as they are. *)
#[global] Typeclasses Opaque ok bail and_then on_fs on_kv question context result or_bail
  handle_read_file ensure_parents ensure_parent_dirs handle_write_file handle_readdir handle_mkdir
  handle_remove handle_rename handle_stat handle_access handle_kv_get handle_kv_set handle_kv_delete
  visit_entries collect_file_resources list_resources read_resource handle_initialize handle_tools_list from_value
  call_tool handle_tools_call handle_resources_list handle_resources_read dispatch handle_request.
