(* ===== verification/McpProps.v ===== *)
(** * McpProps: what the server of tools promises

    Every request is answered; requests that only read leave the tables alone; a file that was
    written is read back. *)
From Stdlib Require Import Ascii.
From stdpp Require Import pretty.
From S2P Require Import Prelude Types Engine Lru Schema FileIO FileIOSpec Path AgentFS.
From S2P Require Import AgentFSInv AgentFSSpec AgentFSOps AgentFSPath AgentFSPathProps AgentFSPathRuns.
From S2P Require Import Rows KvStore Xdr Utf8 NoPanic McpServer.

(** ** How deep the parents of a path are *)

Lemma string_length_app s t : String.length (s +:+ t) = (String.length s + String.length t)%nat.
Proof. induction s as [|a s IH]; [done|]. exact (f_equal S IH). Qed.

Lemma join_split_slash s : join_slash (split_slash s) = s.
Proof.
  induction s as [|a s IH]; [done|]. cbn [split_slash].
  destruct (Ascii.eqb_spec a slash) as [->|Hne].
  - destruct (split_slash_cons s) as (p & ps & Hs). rewrite Hs in *.
    rewrite join_slash_cons, IH. done.
  - destruct (split_slash_cons s) as (p & ps & Hs). rewrite Hs in *. rewrite <-IH. by destruct ps.
Qed.

Lemma length_join l1 l2 : l1 ≠ [] → l2 ≠ [] →
  String.length (join_slash (l1 ++ l2)) =
    (String.length (join_slash l1) + 1 + String.length (join_slash l2))%nat.
Proof.
  intros H1 H2. induction l1 as [|a l1 IH]; [done|]. destruct l1 as [|b l1].
  - destruct l2 as [|c l2]; [done|]. cbn [app]. rewrite join_slash_cons, !string_length_app. simpl. lia.
  - cbn [app] in *. rewrite !join_slash_cons, !string_length_app, IH by done. simpl. lia.
Qed.
Lemma length_in_join x l : x ∈ l → (String.length x <= String.length (join_slash l))%nat.
Proof.
  induction l as [|a l IH]; [by intros ?%elem_of_nil|].
  destruct l as [|b l]; [by intros ->%list_elem_of_singleton|].
  rewrite join_slash_cons, !string_length_app. intros [->|Hx%IH]%elem_of_cons; simpl in *; lia.
Qed.

Lemma drop_junk_app l : ∃ junk, l = junk ++ drop_junk l.
Proof.
  induction l as [|s l [junk IH]]; [by exists []|]. cbn [drop_junk].
  destruct (is_junk s); [exists (s :: junk); by rewrite IH at 1|by exists []].
Qed.
Lemma drop_junk_head l s k : drop_junk l = s :: k → is_junk s = false.
Proof.
  induction l as [|a l IH]; [done|]. cbn [drop_junk]. destruct (is_junk a) eqn:Ha; [done|].
  by intros [= -> _].
Qed.

(** A parent other than the root is shorter by a name and a separator. *)
Lemma parent_shorter path p :
  McpServer.parent path = Some p → p = "/"%string ∨ (String.length p + 2 <= String.length path)%nat.
Proof.
  unfold McpServer.parent. destruct (drop_junk_app (reverse (split_slash path))) as [junk1 H1].
  destruct (drop_junk (reverse _)) as [|x k] eqn:Hk; [done|].
  apply drop_junk_head in Hk. destruct (drop_junk_app k) as [junk2 H2].
  destruct (drop_junk k) as [|y l]; [intros [= <-]; by left|]. intros [= <-]. right.
  assert (Hsplit : split_slash path = reverse (y :: l) ++ reverse junk2 ++ x :: reverse junk1).
  { rewrite <-(reverse_involutive (split_slash path)), H1, H2.
    rewrite !reverse_app, reverse_cons, reverse_app. by rewrite <-!app_assoc. }
  rewrite <-(join_split_slash path), Hsplit, length_join.
  2: { rewrite reverse_cons. by destruct (reverse l). }
  2: { by destruct (reverse junk2). }
  assert (Hx : (String.length x <= String.length (join_slash (reverse junk2 ++ x :: reverse junk1)))%nat)
    by (apply length_in_join, elem_of_app; right; left).
  destruct x as [|a x]; [done|]. simpl in Hx. lia.
Qed.

(** Trimming never makes a text longer. *)
Lemma strip_seq_length p l k : strip_seq p l = Some k → (length k <= length l)%nat.
Proof.
  revert l. induction p as [|a p IH]; intros l; [by intros [= ->]|].
  destruct l as [|b l]; [done|]. simpl. destruct (a =? b); [|done]. intros H%IH. lia.
Qed.
Lemma drop_any_length fuel ps l : (length (drop_any fuel ps l) <= length l)%nat.
Proof.
  revert l. induction fuel as [|fuel IH]; intros l; [done|]. cbn [drop_any].
  destruct (head _) as [k|] eqn:Hk; [|done]. specialize (IH k).
  apply head_Some_elem_of, list_elem_of_omap in Hk as (p & _ & Hp%strip_seq_length). lia.
Qed.
Lemma length_string_of_bytes l : String.length (String.string_of_list_byte l) = length l.
Proof. induction l as [|a l IH]; [done|]. exact (f_equal S IH). Qed.
Lemma length_as_bytes s : length (as_bytes s) = String.length s.
Proof. induction s as [|a s IH]; [done|]. exact (f_equal S IH). Qed.
Lemma trim_length s : (String.length (trim s) <= String.length s)%nat.
Proof.
  unfold trim. rewrite length_string_of_bytes, length_fmap, length_reverse.
  etrans; [apply drop_any_length|]. rewrite length_reverse.
  etrans; [apply drop_any_length|]. by rewrite length_fmap, length_as_bytes.
Qed.
Lemma normalize_length p q :
  McpServer.normalize_path p = inr q → (String.length q <= S (String.length p))%nat.
Proof.
  unfold McpServer.normalize_path. case_match; [done|]. intros [= <-]. pose proof (trim_length p).
  destruct (starts_with _ _); [lia|].
  destruct (String.eqb _ _); rewrite ?string_length_app; cbn [String.length]; lia.
Qed.

(** ** Operations of the server that always return *)

(** [Total m]: [m] ends, with neither a panic nor an error that stops the server. *)
Class Total {D C A} (m : M D C A) := total w : ∃ a w', m w = (Ok a, w').
#[global] Hint Mode Total + + + ! : typeclass_instances.

Section Total.
Context {Lru : LruCache (Z * string) Z} {ET : ErrorTexts}.
Abbreviation Mem := (lru (Z * string) Z).
Abbreviation R A := (M McpDb Mem (string + A)).

#[export] Instance ret_total {D C A} (a : A) : Total (mret (M := M D C) a).
Proof. intros w. by eexists _, _. Qed.
#[export] Instance bind_total {D C A B} (m : M D C A) (f : A → M D C B) :
  Total m → (∀ a, Total (f a)) → Total (m ≫= f).
Proof.
  intros Hm Hf w. destruct (Hm w) as (a & w1 & Hr). unfold mbind, M_bind. rewrite Hr. apply Hf.
Qed.
#[export] Instance on_fs_total {A} (op : M Db Mem A) : NoPanic op → Total (on_fs op).
Proof.
  intros Hop w. unfold on_fs. pose proof (Hop (mkWorld (mcp_fs (w_db w)) (w_mem w) (w_faults w)
    (w_clock w) (w_tick w))) as Hp.
  destruct (op _) as [[a|e|] w']; [by eexists _, _..|done].
Qed.
#[export] Instance on_kv_total {A} (op : M KvDb unit A) : NoPanic op → Total (on_kv (Lru := Lru) op).
Proof.
  intros Hop w. unfold on_kv. pose proof (Hop (mkWorld (mcp_kv (w_db w)) tt (w_faults w)
    (w_clock w) (w_tick w))) as Hp.
  destruct (op _) as [[a|e|] w']; [by eexists _, _..|done].
Qed.
#[export] Instance ok_total {A} (a : A) : Total (ok (Lru := Lru) a).
Proof. unfold ok. apply _. Qed.
#[export] Instance bail_total {A} msg : Total (bail (Lru := Lru) (A := A) msg).
Proof. unfold bail. apply _. Qed.
#[export] Instance result_total {A} (r : string + A) : Total (result (Lru := Lru) r).
Proof. unfold result. apply _. Qed.
#[export] Instance or_bail_total {A} msg (o : option A) : Total (or_bail (Lru := Lru) msg o).
Proof. unfold or_bail. destruct o; apply _. Qed.
#[export] Instance question_total {A} (m : M McpDb Mem (Error.t + A)) : Total m → Total (question m).
Proof. intros Hm. apply bind_total; [done|intros []; apply _]. Qed.
#[export] Instance context_total {A} msg (m : M McpDb Mem (Error.t + A)) : Total m → Total (context msg m).
Proof. intros Hm. apply bind_total; [done|intros []; apply _]. Qed.
#[export] Instance and_then_total {A B} (m : R A) (f : A → R B) :
  Total m → (∀ a, Total (f a)) → Total (and_then m f).
Proof. intros Hm Hf. apply bind_total; [done|intros []; apply _]. Qed.
(** What follows [m] may count on what [m] returns. *)
Lemma and_then_total_post {A B} (m : R A) (f : A → R B) :
  Total m → (∀ w a w', m w = (Ok (inr a), w') → Total (f a)) → Total (and_then m f).
Proof.
  intros Hm Hf w. unfold and_then, mbind, M_bind. destruct (Hm w) as ([e|a] & w1 & Hr); rewrite Hr.
  - by eexists _, _.
  - by eapply Hf.
Qed.
End Total.
#[export] Hint Extern 0 (Total (match ?x with _ => _ end)) => destruct x : typeclass_instances.

(** ** Operations of the server that change no table *)
Section Reads.
Context {E : SqlEngine} {Lru : LruCache (Z * string) Z} {ET : ErrorTexts}.
Abbreviation Mem := (lru (Z * string) Z).
Abbreviation R A := (M McpDb Mem (string + A)).

#[export] Instance on_fs_readonly {A} (op : M Db Mem A) : ReadOnly op → ReadOnly (on_fs op).
Proof.
  intros Hop w. unfold on_fs. pose proof (Hop (mkWorld (mcp_fs (w_db w)) (w_mem w) (w_faults w)
    (w_clock w) (w_tick w))) as Hd. cbn [w_db] in Hd.
  destruct (op _) as [r w']. cbn [snd] in Hd. cbn [snd w_db]. rewrite Hd. by destruct (w_db w).
Qed.
#[export] Instance on_kv_readonly {A} (op : M KvDb unit A) :
  ReadOnly op → ReadOnly (on_kv (Lru := Lru) op).
Proof.
  intros Hop w. unfold on_kv. pose proof (Hop (mkWorld (mcp_kv (w_db w)) tt (w_faults w)
    (w_clock w) (w_tick w))) as Hd. cbn [w_db] in Hd.
  destruct (op _) as [r w']. cbn [snd] in Hd. cbn [snd w_db]. rewrite Hd. by destruct (w_db w).
Qed.
#[export] Instance ok_readonly {A} (a : A) : ReadOnly (ok (Lru := Lru) a).
Proof. done. Qed.
#[export] Instance bail_readonly {A} msg : ReadOnly (bail (Lru := Lru) (A := A) msg).
Proof. done. Qed.
#[export] Instance result_readonly {A} (r : string + A) : ReadOnly (result (Lru := Lru) r).
Proof. done. Qed.
#[export] Instance or_bail_readonly {A} msg (o : option A) : ReadOnly (or_bail (Lru := Lru) msg o).
Proof. by destruct o. Qed.
#[export] Instance question_readonly {A} (m : M McpDb Mem (Error.t + A)) :
  ReadOnly m → ReadOnly (question m).
Proof. intros Hm. apply bind_readonly; [done|intros []; apply _]. Qed.
#[export] Instance context_readonly {A} msg (m : M McpDb Mem (Error.t + A)) :
  ReadOnly m → ReadOnly (context msg m).
Proof. intros Hm. apply bind_readonly; [done|intros []; apply _]. Qed.
#[export] Instance and_then_readonly {A B} (m : R A) (f : A → R B) :
  ReadOnly m → (∀ a, ReadOnly (f a)) → ReadOnly (and_then m f).
Proof. intros Hm Hf. apply bind_readonly; [done|intros []; apply _]. Qed.

Lemma some_readonly {A B} msg (a : A) (f : A → R B) :
  ReadOnly (f a) → ReadOnly (and_then (or_bail msg (Some a)) f).
Proof. done. Qed.

#[export] Instance resolve_components_readonly ino components :
  ReadOnly (PathApi.resolve_components ino components : M Db Mem _).
Proof.
  revert ino. induction components as [|c components IH]; intros ino;
    cbn [PathApi.resolve_components]; unfold cache_get, one_row, cache_insert; apply _.
Qed.
#[export] Instance resolve_path_with_conn_readonly path :
  ReadOnly (PathApi.resolve_path_with_conn path : M Db Mem _).
Proof. unfold PathApi.resolve_path_with_conn. apply _. Qed.
#[export] Instance readlink_with_conn_readonly path :
  ReadOnly (PathApi.readlink_with_conn path : M Db Mem _).
Proof. unfold PathApi.readlink_with_conn. apply _. Qed.
#[export] Instance stat_loop_readonly missing depth path :
  ReadOnly (PathApi.stat_loop missing depth path : M Db Mem _).
Proof. revert path. induction depth; intros path; cbn [PathApi.stat_loop]; apply _. Qed.
#[export] Instance path_stat_readonly path : ReadOnly (PathApi.stat path : M Db Mem _).
Proof. unfold PathApi.stat. apply _. Qed.
#[export] Instance path_readdir_readonly ino : ReadOnly (PathApi.readdir ino : M Db Mem _).
Proof. unfold PathApi.readdir. apply _. Qed.
#[export] Instance path_read_file_readonly path : ReadOnly (PathApi.read_file path : M Db Mem _).
Proof. unfold PathApi.read_file. apply _. Qed.
#[export] Instance kv_get_readonly {V} `{Serde V} key : ReadOnly (KvStore.get key).
Proof. unfold KvStore.get. apply _. Qed.
End Reads.

Section McpProps.
Context {E : SqlEngine} {Lru : LruCache (Z * string) Z} {ET : ErrorTexts}.
Context {SJ : SerdeJson} {B64 : Base64} {SV : Serde Json}.
Context (cs : Z) (unixepoch : nat → Z) (version : string) (enabled : option (gset string)).
Abbreviation Mem := (lru (Z * string) Z).
Abbreviation W := (World McpDb Mem).

(** ** Every request is answered *)

#[export] Instance ensure_parents_total fuel path : Total (ensure_parents fuel path).
Proof.
  revert path. induction fuel as [|fuel IH]; intros path; cbn [ensure_parents]; apply _.
Qed.

Lemma create_file_handle path mode uid gid (w : World Db Mem) a w' :
  PathApi.create_file cs path mode uid gid w = (Ok a, w') → f_chunk_size a.2 = cs.
Proof.
  intros H. unfold PathApi.create_file in H. apply bind_ok in H as (? & w1 & _ & H).
  destruct (split_path _); [done|].
  apply bind_ok in H as ([p n] & w2 & _ & H). apply bind_ok in H as (ex & w3 & _ & H).
  destruct ex; [done|]. apply bind_ok in H as (r & w4 & _ & H).
  apply bind_ok in H as (? & w5 & _ & H). injection H as <- _. done.
Qed.

Lemma write_file_total params : 0 < cs → Total (handle_write_file cs params).
Proof.
  intros Hcs. unfold handle_write_file, ensure_parent_dirs.
  apply and_then_total; [apply _|intros path]. apply and_then_total; [apply _|intros data].
  apply and_then_total; [apply _|intros _]. apply and_then_total; [apply _|intros found].
  apply and_then_total; [apply _|intros _]. apply and_then_total_post; [apply _|].
  intros w a w' Hrun. unfold context in Hrun. apply bind_ok in Hrun as (r & w1 & Hr & Hrun).
  destruct r as [e|a']; [done|]. injection Hrun as -> _.
  unfold on_fs in Hr. destruct (PathApi.create_file _ _ _ _ _ _) as [[a0|e|] w2] eqn:Hc; [|done..].
  injection Hr as -> _. apply create_file_handle in Hc.
  destruct a as [s [ino c]]. cbn in Hc. subst c. cbn [snd].
  pose proof (pwrite_np (C := Mem) cs ino 0 data Hcs). apply _.
Qed.

Lemma visit_entries_total recurse path entries resources :
  (∀ path resources, Total (recurse path resources)) →
  Total (visit_entries recurse path entries resources).
Proof.
  intros IH. revert resources. induction entries as [|x entries IHe]; intros resources;
    cbn [visit_entries]; [apply _|].
  apply and_then_total; [apply _|intros [st|]; [|apply IHe]].
  destruct (Types.is_file st); [apply IHe|]. destruct (is_directory st); [|apply IHe].
  apply and_then_total; [apply IH|intros; apply IHe].
Qed.
#[export] Instance collect_total fuel path resources :
  Total (collect_file_resources fuel path resources).
Proof.
  revert path resources. induction fuel as [|fuel IH]; intros path resources;
    cbn [collect_file_resources]; [apply _|].
  apply and_then_total; [apply _|intros [s|]; [|apply _]].
  apply and_then_total; [apply _|intros [entries|]; [|apply _]].
  by apply visit_entries_total.
Qed.
#[export] Instance list_resources_total : Total list_resources.
Proof. intros w. unfold list_resources. apply collect_total. Qed.

#[export] Instance handle_read_file_total params : Total (handle_read_file params).
Proof. unfold handle_read_file. apply _. Qed.
#[export] Instance handle_readdir_total path : Total (handle_readdir path).
Proof. unfold handle_readdir. apply _. Qed.
#[export] Instance handle_stat_total path : Total (handle_stat path).
Proof. unfold handle_stat. apply _. Qed.
#[export] Instance handle_access_total path : Total (handle_access path).
Proof. unfold handle_access. apply _. Qed.
#[export] Instance handle_kv_get_total key : Total (handle_kv_get key).
Proof. unfold handle_kv_get. apply _. Qed.
#[export] Instance handle_mkdir_total path : Total (handle_mkdir path).
Proof. unfold handle_mkdir. apply _. Qed.
#[export] Instance handle_remove_total path : Total (handle_remove path).
Proof. unfold handle_remove. apply _. Qed.
#[export] Instance handle_rename_total params : Total (handle_rename params).
Proof. unfold handle_rename. apply _. Qed.
#[export] Instance handle_kv_set_total params : Total (handle_kv_set unixepoch params).
Proof. unfold handle_kv_set. apply _. Qed.
#[export] Instance handle_kv_delete_total key : Total (handle_kv_delete key).
Proof. unfold handle_kv_delete. apply _. Qed.
#[export] Instance from_value_total {A} struct (parse : Json → option A) j :
  Total (from_value (Lru := Lru) struct parse j).
Proof. unfold from_value. apply _. Qed.
Lemma call_tool_total name arguments : 0 < cs → Total (call_tool cs unixepoch name arguments).
Proof.
  intros Hcs. pose proof (λ params, write_file_total params Hcs). unfold call_tool.
  repeat match goal with |- Total (if ?b then _ else _) => destruct b; [apply _|] end. apply _.
Qed.
Lemma dispatch_total method params :
  0 < cs → Total (dispatch cs unixepoch version enabled method params).
Proof.
  intros Hcs. unfold dispatch, handle_initialize, handle_tools_list, handle_tools_call,
    handle_resources_list, handle_resources_read, read_resource.
  pose proof (λ name arguments, call_tool_total name arguments Hcs). apply _.
Qed.

(** The method of a request, and whether it gets an answer. *)
Definition method_of (request : Json) : option string := get "method" request ≫= as_str.
Definition awaited (request : Json) : bool :=
  match method_of request with Some m => negb (String.eqb m "initialized") | None => false end.
(** The requests of the lines: empty lines, and lines that are not JSON, are none. *)
Definition requests (lines : list string) : list Json :=
  omap (λ line, if String.eqb (trim line) "" then None else from_str line) lines.

Definition methods : list string :=
  ["initialize"; "tools/list"; "tools/call"; "resources/list"; "resources/read"].
Definition error_object (msg : string) : Json :=
  JObj [("code", JNum (-32603)); ("message", JStr msg)]%string.
(** An answer of JSON-RPC: the id of the request, and either a result or an error. *)
Definition answers (request response : Json) : Prop :=
  get "jsonrpc" response = Some (JStr "2.0") ∧
  get "id" response = Some (default JNull (get "id" request)) ∧
  ((∃ r, get "result" response = Some r ∧ get "error" response = None) ∨
   (∃ msg, get "error" response = Some (error_object msg) ∧ get "result" response = None)) ∧
  ∀ m, method_of request = Some m → m ∉ methods →
    get "error" response = Some (error_object ("Unknown method: " +:+ m)).

Lemma unknown_method m params w :
  m ∉ methods → dispatch cs unixepoch version enabled m params w = (Ok (inl ("Unknown method: " +:+ m)), w).
Proof.
  intros Hm. unfold dispatch, methods in *.
  repeat match goal with |- context [String.eqb m ?s] =>
    destruct (String.eqb_spec m s) as [->|_]; [exfalso; apply Hm; set_solver|] end.
  done.
Qed.

Lemma handle_request_answers request (w : W) :
  0 < cs → ∃ response w',
    handle_request cs unixepoch version enabled request w = (Ok response, w') ∧
    match response with
    | Some r => awaited request = true ∧ answers request r
    | None => awaited request = false ∧ w' = w
    end.
Proof.
  intros Hcs. unfold handle_request, awaited, answers. fold (method_of request).
  destruct (method_of request) as [m|]; [|by eexists _, _].
  destruct (String.eqb_spec m "initialized") as [->|Hne]; [by eexists _, _|].
  unfold mbind, M_bind. set (params := default (JObj []) _).
  destruct (dispatch_total m params Hcs w) as (r & w' & Hr).
  rewrite Hr. eexists _, w'. split; [done|]. split; [done|].
  assert (Hunknown : m ∉ methods → r = inl ("Unknown method: " +:+ m)).
  { intros Hm. rewrite unknown_method in Hr by done. by injection Hr. }
  destruct r as [e|a]; split_and!; try done.
  - right. by exists e.
  - intros m' [= <-] Hm. by injection (Hunknown Hm) as ->.
  - left. by exists a.
  - intros m' [= <-] Hm. by apply Hunknown in Hm.
Qed.


(** ** Requests that read *)

Definition changing_tools : list string :=
  ["write_file"; "mkdir"; "rename"; "remove"; "kv_set"; "kv_delete"].
Definition tool_of (request : Json) : option string :=
  params ← get "params" request; get "name" params ≫= as_str.
(** Whether a request asks for a tool that writes. *)
Definition changes (request : Json) : bool :=
  match method_of request, tool_of request with
  | Some m, Some tool => String.eqb m "tools/call" && bool_decide (tool ∈ changing_tools)
  | _, _ => false
  end.

Lemma visit_entries_readonly recurse path entries resources :
  (∀ path resources, ReadOnly (recurse path resources)) →
  ReadOnly (visit_entries recurse path entries resources).
Proof.
  intros IH. revert resources. induction entries as [|x entries IHe]; intros resources;
    cbn [visit_entries]; [apply _|].
  apply and_then_readonly; [apply _|intros [st|]; [|apply IHe]].
  destruct (Types.is_file st); [apply IHe|]. destruct (is_directory st); [|apply IHe].
  apply and_then_readonly; [apply IH|intros; apply IHe].
Qed.
#[export] Instance collect_readonly fuel path resources :
  ReadOnly (collect_file_resources fuel path resources).
Proof.
  revert path resources. induction fuel as [|fuel IH]; intros path resources;
    cbn [collect_file_resources]; [apply _|].
  apply and_then_readonly; [apply _|intros [s|]; [|apply _]].
  apply and_then_readonly; [apply _|intros [entries|]; [|apply _]].
  by apply visit_entries_readonly.
Qed.
#[export] Instance list_resources_readonly : ReadOnly list_resources.
Proof. intros w. unfold list_resources. apply collect_readonly. Qed.

#[export] Instance handle_read_file_readonly params : ReadOnly (handle_read_file params).
Proof. unfold handle_read_file. apply _. Qed.
#[export] Instance handle_readdir_readonly path : ReadOnly (handle_readdir path).
Proof. unfold handle_readdir. apply _. Qed.
#[export] Instance handle_stat_readonly path : ReadOnly (handle_stat path).
Proof. unfold handle_stat. apply _. Qed.
#[export] Instance handle_access_readonly path : ReadOnly (handle_access path).
Proof. unfold handle_access. apply _. Qed.
#[export] Instance handle_kv_get_readonly key : ReadOnly (handle_kv_get key).
Proof. unfold handle_kv_get. apply _. Qed.
#[export] Instance from_value_readonly {A} struct (parse : Json → option A) j :
  ReadOnly (from_value (Lru := Lru) struct parse j).
Proof. unfold from_value. apply _. Qed.
Lemma call_tool_readonly name arguments :
  name ∉ changing_tools → ReadOnly (call_tool cs unixepoch name arguments).
Proof.
  intros Hn. unfold call_tool.
  repeat match goal with |- context [String.eqb name ?s] =>
    destruct (String.eqb_spec name s) as [->|_];
      [first [apply _|exfalso; apply Hn; unfold changing_tools; set_solver]|] end.
  apply _.
Qed.

Lemma handle_request_reads request (w : W) :
  changes request = false →
  w_db (handle_request cs unixepoch version enabled request w).2 = w_db w.
Proof.
  unfold changes, handle_request. fold (method_of request).
  destruct (method_of request) as [m|]; [|done]. intros Hc.
  destruct (String.eqb m "initialized"); [done|].
  set (params := default (JObj []) (get "params" request)).
  apply (bind_readonly (dispatch cs unixepoch version enabled m params)); [|intros []; apply _].
  unfold dispatch, handle_initialize, handle_tools_list, handle_resources_list,
    handle_resources_read, read_resource.
  destruct (String.eqb m "tools/call") eqn:Hm; [|apply _].
  destruct (String.eqb m "initialize"); [apply _|]. destruct (String.eqb m "tools/list"); [apply _|].
  assert (Htool : get "name" params ≫= as_str = tool_of request).
  { unfold params, tool_of. by destruct (get "params" request). }
  unfold handle_tools_call.  rewrite Htool.
  destruct (tool_of request) as [name|]; [|done].
  apply some_readonly. cbv zeta. apply and_then_readonly; [|apply _].
  apply call_tool_readonly. intros Hin. by rewrite bool_decide_true in Hc.
Qed.

(** Only the tools that write change the tables.  However the client combines them, requests
    other than calls of [write_file], [mkdir], [rename], [remove], [kv_set] and [kv_delete] leave
    the tables of the filesystem and of the store as they are, whether they are answered with a
    result or with an error. *)
Theorem mcp_reads lines (w : W) :
  Forall (λ request, changes request = false) (requests lines) →
  w_db (serve cs unixepoch version enabled lines w).2 = w_db w.
Proof.
  revert w. induction lines as [|line lines IH]; intros w; [done|].
  cbn [serve requests omap list_omap]. fold (requests lines).
  destruct (String.eqb (trim line) ""); [apply IH|].
  destruct (from_str line) as [request|]; [|apply IH].
  intros [Hr Hall]%Forall_cons. pose proof (handle_request_reads request w Hr) as Hw.
  unfold mbind, M_bind. destruct (handle_request _ _ _ _ request w) as [[r|e|] w1]; [|done..].
  cbn [snd] in Hw. rewrite <-Hw, <-(IH w1 Hall).
  by destruct (serve _ _ _ _ lines w1) as [[]].
Qed.

(** ** A file that is written is read back *)

Lemma on_fs_ok {A} (op : M Db Mem A) d mem fs clk t kv a d' mem' fs' clk' t' :
  op (mkWorld d mem fs clk t) = (Ok a, mkWorld d' mem' fs' clk' t') →
  on_fs op (mkWorld (mkMcpDb d kv) mem fs clk t) =
    (Ok (inr a), mkWorld (mkMcpDb d' kv) mem' fs' clk' t').
Proof. intros H. unfold on_fs. cbn [w_db w_mem w_faults w_clock w_tick mcp_fs mcp_kv]. by rewrite H. Qed.

Lemma and_then_ok {A B} (m : M McpDb Mem (string + A)) (f : A → M McpDb Mem (string + B)) a w w' :
  m w = (Ok (inr a), w') → and_then m f w = f a w'.
Proof. intros H. unfold and_then, mbind, M_bind. by rewrite H. Qed.
Lemma and_then_ext {A B} (m m' : M McpDb Mem (string + A)) (f g : A → M McpDb Mem (string + B)) w :
  m w = m' w → (∀ a w', f a w' = g a w') → and_then m f w = and_then m' g w.
Proof.
  intros Hm Hf. unfold and_then, mbind, M_bind. rewrite Hm.
  destruct (m' w) as [[[e|a]|e|] w1]; [done|apply Hf|done..].
Qed.
Lemma context_ok {A B} msg (op : M Db Mem A) (f : A → M McpDb Mem (string + B))
    d mem fs clk t kv a d' mem' fs' clk' t' :
  op (mkWorld d mem fs clk t) = (Ok a, mkWorld d' mem' fs' clk' t') →
  and_then (context msg (on_fs op)) f (mkWorld (mkMcpDb d kv) mem fs clk t) =
    f a (mkWorld (mkMcpDb d' kv) mem' fs' clk' t').
Proof.
  intros H. apply (on_fs_ok op) with (kv := kv) in H.
  unfold and_then, context, mbind, M_bind. by rewrite H.
Qed.
Lemma question_ok {A B} (op : M Db Mem A) (f : A → M McpDb Mem (string + B))
    d mem fs clk t kv a d' mem' fs' clk' t' :
  op (mkWorld d mem fs clk t) = (Ok a, mkWorld d' mem' fs' clk' t') →
  and_then (question (on_fs op)) f (mkWorld (mkMcpDb d kv) mem fs clk t) =
    f a (mkWorld (mkMcpDb d' kv) mem' fs' clk' t').
Proof.
  intros H. apply (on_fs_ok op) with (kv := kv) in H.
  unfold and_then, question, mbind, M_bind. by rewrite H.
Qed.

(** The recursion over the parents ends: a path has fewer parents than characters, and with more
    fuel than that the outcome is the same. *)
Lemma ensure_parents_ends fuel path (w : W) :
  (String.length path <= fuel)%nat →
  ensure_parents fuel path w = ensure_parent_dirs path w.
Proof.
  unfold ensure_parent_dirs. remember (String.length path) as n eqn:Hn. revert fuel path w Hn.
  induction (lt_wf n) as [n _ IH]. intros fuel path w Hn Hf.
  assert (Hstep : ∀ f, ensure_parents f path w =
    match McpServer.parent path with
    | Some p =>
        if String.eqb p "/" then ok tt w
        else and_then (result (McpServer.normalize_path p)) (λ q,
          and_then (question (on_fs (PathApi.stat q))) (λ found,
            match found with
            | Some _ => ok tt
            | None => and_then (match f with O => ok tt | S f => ensure_parents f q end) (λ _,
                context ("Failed to create directory: " +:+ q) (on_fs (PathApi.mkdir q 0 0)))
            end)) w
    | None => ok tt w
    end).
  { intros f. destruct f; cbn [ensure_parents]; destruct (McpServer.parent path); try done;
      by destruct (String.eqb _ _). }
  rewrite !Hstep. destruct (McpServer.parent path) as [p|] eqn:Hp; [|done].
  destruct (String.eqb_spec p "/") as [|Hroot]; [done|].
  apply parent_shorter in Hp as [?|Hp]; [done|]. destruct fuel as [|fuel]; [lia|].
  destruct n as [|n]; [lia|]. destruct (McpServer.normalize_path p) as [e|q] eqn:Hq; [done|].
  apply normalize_length in Hq. rewrite !(and_then_ok (result (inr q)) _ q w w) by reflexivity.
  apply and_then_ext; [done|]. intros [s|] w1; [done|]. apply and_then_ext; [|done].
  pose proof (λ k, IH (String.length q) ltac:(lia) k q w1 eq_refl) as Hq'.
  by rewrite (Hq' fuel), (Hq' n) by lia.
Qed.

(** What there is under a name: nothing, or a file. *)
Definition absent_or_file (d : Db) (p : Z) (n : string) : Prop :=
  match fs_dentry d !! (p, n) with
  | None => True
  | Some c => ∃ r, fs_inode d !! c = Some r ∧ dir_row r = false ∧ lnk_row r = false
  end.

(** [path] names an entry [n] of the directory [p] that a file may take. *)
Record target (path full : string) (d : Db) (p : Z) (n : string) : Prop := {
  tg_path : McpServer.normalize_path path = inr full;
  tg_parent : walk (fs_dentry d) ROOT_INO (split_path (parent_path (split_path full))) = Some p;
  tg_name : last (split_path full) = Some n;
  tg_dir : is_dir d p;
  tg_free : absent_or_file d p n
}.

Lemma mcp_absolute path full :
  McpServer.normalize_path path = inr full → starts_with full "/" = true.
Proof.
  unfold McpServer.normalize_path. case_match; [done|]. intros [= <-].
  destruct (starts_with (trim path) "/") eqn:Hs; [done|]. by destruct (trim path).
Qed.

(** The file that was under the name is gone. *)
Definition cleared (p : Z) (n : string) (a : Spec.t) : Spec.t :=
  match Spec.entries a !! (p, n) with Some c => Spec.detach p n c a | None => a end.
Definition spec_write_file (p : Z) (n : string) (ino : Z) (data : bytes) (a : Spec.t) : Spec.t :=
  let a := cleared p n a in
  Spec.attach p n ino
    (Spec.mkFs (Spec.entries a)
       (<[ino := Spec.mkNode FILE_MODE 0 0 0 (Spec.Data data)]> (Spec.nodes a))).

(** The tables where the name is free, reached from [w] by [stat] and [remove]. *)
Lemma clear_run path full p n d mem clk t :
  fs_wf cs d → small d → coherent (mkWorld d mem [] clk t) → target path full d p n →
  ∃ found mem1 d' mem',
    PathApi.stat full (mkWorld d mem [] clk t) = (Ok found, mkWorld d mem1 [] clk t) ∧
    match found with
    | Some _ => PathApi.remove full (mkWorld d mem1 [] clk t) = (Ok tt, mkWorld d' mem' [] clk t)
    | None => d' = d ∧ mem' = mem1
    end ∧
    coherent (mkWorld d' mem' [] clk t) ∧ fs_wf cs d' ∧ inode_seq d' = inode_seq d ∧
    is_dir d' p ∧ fs_dentry d' !! (p, n) = None ∧ abs cs d' = cleared p n (abs cs d) ∧
    walk (fs_dentry d') ROOT_INO (split_path (parent_path (split_path full))) = Some p.
Proof.
  intros H Hs Hcoh [Hpath Hparent Hname Hdir Hfree]. apply mcp_absolute in Hpath.
  destruct (split_absolute full Hpath) as (Hcanon & Hsplit & _).
  destruct (path_stat_run full d mem clk t Hcoh) as (mem1 & Hstat & Hcoh1).
  all: rewrite Hsplit, (walk_parent _ _ n Hcanon Hname), Hparent in *.
  { cbn [mbind option_bind]. intros c r Hc Hr. unfold absent_or_file in Hfree. rewrite Hc in Hfree.
    destruct Hfree as (r' & Hr' & _ & Hl). by simplify_eq. }
  cbn [mbind option_bind] in Hstat. unfold absent_or_file, cleared in *.
  change (Spec.entries (abs cs d)) with (fs_dentry d).
  destruct (fs_dentry d !! (p, n)) as [c|] eqn:Hc.
  2: { exists None, mem1, d, mem1. by split_and!. }
  destruct Hfree as (r & Hr & Hd & Hl). simpl in Hstat. rewrite Hr in Hstat.
  destruct (path_remove_run cs full p n c r d mem1 clk t)
    as (mem' & d' & Hrun & Hcoh' & Hwf' & Ha & Hseq & Hde & Hdirs); [done..|].
  eexists _, mem1, d', mem'. split; [exact Hstat|]. cbn.
  assert (Hno : ∀ m, fs_dentry d !! (c, m) = None).
  { intros m. by eapply file_childless; [apply (wf_core cs _ H)|..]. }
  split_and!; try done; [by apply Hdirs|by rewrite Hde, lookup_delete_eq|].
  rewrite Hde. eapply walk_delete; [done|done| |done].
  intros ->. apply (is_dir_row _ _ _ Hr) in Hdir. congruence.
Qed.

(** A fresh file filled from its start. *)
Lemma fill_run full p n data d mem clk t :
  0 < cs → starts_with full "/" = true → fs_wf cs d → coherent (mkWorld d mem [] (ticks clk) t) →
  walk (fs_dentry d) ROOT_INO (split_path (parent_path (split_path full))) = Some p →
  last (split_path full) = Some n → is_dir d p → fs_dentry d !! (p, n) = None →
  len data < 2 ^ 63 →
  let ino := next_rowid (inode_seq d) in
  ∃ created d1 mem' d' t',
    PathApi.create_file cs full FILE_MODE 0 0 (mkWorld d mem [] (ticks clk) t) =
      (Ok created, mkWorld d1 mem' [] (ticks clk) (S t)) ∧
    pwrite created.2 0 data (mkWorld d1 mem' [] (ticks clk) (S t)) =
      (Ok tt, mkWorld d' mem' [] (ticks clk) t') ∧
    coherent (mkWorld d' mem' [] (ticks clk) t') ∧ fs_wf cs d' ∧
    abs cs d' = Spec.attach p n ino (Spec.mkFs (fs_dentry d)
      (<[ino := Spec.mkNode FILE_MODE 0 0 0 (Spec.Data data)]> (Spec.nodes (abs cs d)))) ∧
    walk (fs_dentry d') ROOT_INO (split_path full) = Some ino ∧
    contents cs d' ino = data ∧ dense cs d' ino ((fsize d' ino + cs - 1) / cs).
Proof.
  intros Hcs Habs H Hcoh Hparent Hname Hdir Hfree Hmax ino.
  destruct (split_absolute full Habs) as (Hcanon & Hsplit & _).
  edestruct (path_create_run cs full p n FILE_MODE 0 0 d mem clk t)
    as (mem' & d1 & Hcreate & Hcoh1 & Hwf1 & Hin & Hdata & Ha1);
    [done|done|by rewrite Hsplit|by rewrite Hsplit|done|done|].
  fold ino in Hcreate, Hin, Ha1. set (row := new_row _ _ _ _ _ _ _) in Hin.
  assert (Hrow : fs_inode d1 !! ino = Some row) by by rewrite Hin, lookup_insert_eq.
  assert (Hnew : fs_inode d !! ino = None).
  { apply eq_None_not_Some. intros Hi%(co_seq _ _ _ (wf_core cs _ H)).
    pose proof (next_rowid_gt (inode_seq d)). unfold ino in Hi. lia. }
  assert (Hchunks : ∀ idx, fs_data d1 !! (ino, idx) = None).
  { intros idx. rewrite Hdata. apply eq_None_not_Some. intros [c Hc].
    apply (co_data _ _ _ (wf_core cs _ H)) in Hc as (r & Hr & _). congruence. }
  destruct (pwrite_fresh cs ino data row d1 mem' clk (S t))
    as (d' & t' & Hpwrite & Hof & Hok & Hlinks & Hc & Hdense);
    [done|apply (wf_core cs _ Hwf1)|done|done|done|done|].
  destruct (edit_run cs d1 d' ino row) as [Hwf' Hedit]; [done..|].
  specialize (Hedit (λ _, data) (eq_sym Hc)). unfold Spec.edit, Spec.change in Hedit.
  rewrite (abs_row _ _ _ _ Hrow) in Hedit. apply (inj inr) in Hedit.
  eexists _, d1, mem', d', t'. split; [exact Hcreate|]. split; [exact Hpwrite|].
  assert (Hde : fs_dentry d' = <[(p, n) := ino]> (fs_dentry d)).
  { rewrite (of_dentry _ _ _ Hof). change (fs_dentry d1) with (Spec.entries (abs cs d1)).
    by rewrite Ha1. }
  assert (Hco : coherent (mkWorld d' mem' [] (ticks clk) t')).
  { unfold coherent in *. cbn [w_mem w_db] in *. by rewrite (of_dentry _ _ _ Hof). }
  split; [exact Hco|]. split; [done|]. split_and!; [| |done|done].
  - rewrite <-Hedit, Ha1. unfold Spec.attach. cbn [Spec.entries Spec.nodes].
    f_equal. by rewrite alter_insert_eq.
  - rewrite (walk_parent _ _ n Hcanon Hname), Hde.
    rewrite (walk_insert _ _ _ p) by done. cbn [mbind option_bind]. apply lookup_insert_eq.
Qed.

(** The bytes that a content stands for, and how bytes are shown. *)
Definition content_bytes (encoding : option string) (content : string) : option bytes :=
  if is_base64 encoding then
    match decode content with inr data => Some data | inl _ => None end
  else Some (as_bytes content).
Definition shown_as (encoding : option string) (data : bytes) : option string :=
  if is_base64 encoding then Some (encode data) else from_utf8 data.

Lemma write_file_run path full p n encoding content data d mem kv clk t :
  0 < cs → fs_wf cs d → small d → coherent (mkWorld d mem [] (ticks clk) t) →
  target path full d p n → content_bytes encoding content = Some data → len data < 2 ^ 63 →
  let ino := next_rowid (inode_seq d) in
  ∃ d' mem' t',
    handle_write_file cs (mkWriteFile path content encoding None)
      (mkWorld (mkMcpDb d kv) mem [] (ticks clk) t) =
    (Ok (inr ("Wrote " +:+ pretty (len data) +:+ " bytes to " +:+ full)),
     mkWorld (mkMcpDb d' kv) mem' [] (ticks clk) t') ∧
    coherent (mkWorld d' mem' [] (ticks clk) t') ∧ fs_wf cs d' ∧
    abs cs d' = spec_write_file p n ino data (abs cs d) ∧
    walk (fs_dentry d') ROOT_INO (split_path full) = Some ino ∧
    contents cs d' ino = data ∧ dense cs d' ino ((fsize d' ino + cs - 1) / cs).
Proof.
  intros Hcs H Hs Hcoh Ht Hcontent Hmax ino. pose proof (tg_path _ _ _ _ _ Ht) as Hpath.
  destruct (clear_run path full p n d mem (ticks clk) t H Hs Hcoh Ht)
    as (found & mem1 & d1 & mem2 & Hstat & Hremove & Hcoh1 & Hwf1 & Hseq & Hdir & Hfree & Ha & Hwalk).
  destruct (fill_run full p n data d1 mem2 clk t)
    as (created & d2 & mem3 & d3 & t' & Hcreate & Hpwrite & Hcoh3 & Hwf3 & Ha3 & Hwalk3 & Hc & Hdense);
    [done|by eapply mcp_absolute|done|done|done|by eapply tg_name|done..|].
  rewrite Hseq in Ha3, Hwalk3, Hc, Hdense. fold ino in Ha3, Hwalk3, Hc, Hdense.
  exists d3, mem3, t'. split_and!; try done.
  - unfold handle_write_file. cbn [wf_path wf_encoding wf_content wf_create_dirs]. rewrite Hpath.
    replace (if is_base64 encoding then _ else _) with (inr (A := string) data).
    2: { unfold content_bytes in Hcontent. destruct (is_base64 encoding); [|congruence].
         destruct (decode content); [done|congruence]. }
    do 2 erewrite and_then_ok by reflexivity.
    cbn [default]. erewrite and_then_ok by reflexivity. erewrite question_ok by exact Hstat.
    assert (Hclear : ∀ k : unit → M McpDb Mem (string + string),
      and_then (match found with Some _ => question (on_fs (PathApi.remove full)) | None => ok tt end)
        k (mkWorld (mkMcpDb d kv) mem1 [] (ticks clk) t) =
      k tt (mkWorld (mkMcpDb d1 kv) mem2 [] (ticks clk) t)).
    { intros k. destruct found as [s|]; [by erewrite question_ok by exact Hremove|].
      destruct Hremove as [-> ->]. done. }
    rewrite Hclear.
    erewrite context_ok by exact Hcreate. erewrite context_ok by exact Hpwrite. done.
  - rewrite Ha3. unfold spec_write_file. by rewrite <-Ha.
Qed.

Lemma read_file_run path full encoding data ino d mem kv clk t :
  0 < cs → fs_wf cs d → coherent (mkWorld d mem [] (ticks clk) t) →
  McpServer.normalize_path path = inr full →
  walk (fs_dentry d) ROOT_INO (split_path full) = Some ino → contents cs d ino = data →
  dense cs d ino ((fsize d ino + cs - 1) / cs) →
  ∃ mem', handle_read_file (mkReadFile path encoding) (mkWorld (mkMcpDb d kv) mem [] (ticks clk) t) =
    (Ok (match shown_as encoding data with
         | Some text => inr text
         | None => inl "File is not valid UTF-8. Use encoding=base64 for binary files."
         end), mkWorld (mkMcpDb d kv) mem' [] (ticks clk) t)%string.
Proof.
  intros Hcs H Hcoh Hpath Hwalk Hc Hdense.
  destruct (resolve_run (split_path full) ROOT_INO d mem (ticks clk) t Hcoh) as (mem' & Hres & _).
  assert (Hrun : PathApi.read_file full (mkWorld d mem [] (ticks clk) t) =
    (Ok (Some data), mkWorld d mem' [] (ticks clk) t)).
  { pose proof (read_file_contents cs full ino _ (mkWorld d mem [] (ticks clk) t) Hcs
      (co_chunks _ _ _ (wf_core cs _ H)) Hcoh eq_refl Hwalk Hdense eq_refl) as Hr.
    cbn [w_db] in Hr. rewrite Hc in Hr. revert Hr. unfold PathApi.read_file, PathApi.resolve_path_with_conn. run.
    rewrite Hres, Hwalk. run. by intros [= ->]. }
  exists mem'. unfold handle_read_file. cbn [rf_path rf_encoding]. rewrite Hpath.
  erewrite and_then_ok by reflexivity. erewrite context_ok by exact Hrun.
  erewrite and_then_ok by reflexivity. unfold shown_as.
  destruct (is_base64 encoding); [done|]. by destruct (from_utf8 data).
Qed.

(** The request that calls a tool, and the answer that carries a text or an error. *)
Definition call (id : Json) (tool : string) (arguments : list (string * Json)) : Json :=
  JObj [("jsonrpc", JStr "2.0"); ("id", id); ("method", JStr "tools/call");
        ("params", JObj [("name", JStr tool); ("arguments", JObj arguments)])]%string.
Definition text_answer (id : Json) (text : string) : Json :=
  JObj [("jsonrpc", JStr "2.0"); ("id", id);
        ("result", JObj [("content", JArr [JObj [("type", JStr "text"); ("text", JStr text)]])])]%string.
Definition error_answer (id : Json) (msg : string) : Json :=
  JObj [("jsonrpc", JStr "2.0"); ("id", id); ("error", error_object msg)]%string.
Definition encoding_field (encoding : option string) : list (string * Json) :=
  match encoding with Some e => [("encoding", JStr e)]%string | None => [] end.
Definition write_request (id : Json) (path content : string) (encoding : option string) : Json :=
  call id "write_file" ([("path", JStr path); ("content", JStr content)]%string ++ encoding_field encoding).
Definition read_request (id : Json) (path : string) (encoding : option string) : Json :=
  call id "read_file" ([("path", JStr path)]%string ++ encoding_field encoding).

(** What the answer of a tool is, from what the tool returns. *)
Lemma call_answer id tool arguments (w w' : W) r :
  call_tool cs unixepoch tool (JObj arguments) w = (Ok r, w') →
  handle_request cs unixepoch version enabled (call id tool arguments) w =
    (Ok (Some (match r with inr text => text_answer id text | inl e => error_answer id e end)), w').
Proof.
  intros H. set (params := JObj [("name", JStr tool); ("arguments", JObj arguments)]%string).
  assert (Hd : dispatch cs unixepoch version enabled "tools/call" params w =
    (Ok (match r with
         | inr text => inr (JObj [("content", JArr [JObj [("type", JStr "text"); ("text", JStr text)]])])
         | inl e => inl e
         end)%string, w')).
  { unfold dispatch. cbn [String.eqb Ascii.eqb Bool.eqb]. unfold handle_tools_call.
    erewrite and_then_ok by reflexivity. change (default (JObj []) _) with (JObj arguments).
    unfold and_then, mbind, M_bind. rewrite H. by destruct r. }
  change (handle_request cs unixepoch version enabled (call id tool arguments) w) with
    ((r ← dispatch cs unixepoch version enabled "tools/call" params;
      mret (Some (match r with
        | inr result => JObj [("jsonrpc", JStr "2.0"); ("id", id); ("result", result)]
        | inl e => error_answer id e
        end%string))) w).
  unfold mbind, M_bind. rewrite Hd. by destruct r.
Qed.

Lemma write_call path content encoding (w : W) :
  call_tool cs unixepoch "write_file"
    (JObj ([("path", JStr path); ("content", JStr content)]%string ++ encoding_field encoding)) w =
  handle_write_file cs (mkWriteFile path content encoding None) w.
Proof. by destruct encoding. Qed.
Lemma read_call path encoding (w : W) :
  call_tool cs unixepoch "read_file" (JObj ([("path", JStr path)]%string ++ encoding_field encoding)) w =
  handle_read_file (mkReadFile path encoding) w.
Proof. by destruct encoding. Qed.

(** C19: what a client writes, it reads.  Where a path names a new entry of a directory, or a
    file, [write_file] answers with the number of bytes; afterwards [read_file] of the path answers
    with those very bytes, as text or in base64, or says that they are no text.  The filesystem is
    well formed, the file has replaced what was under its name, no other entry or node has
    changed, and neither has the store. *)
Theorem mcp_write_then_read id id' path full p n content encoding encoding' data (w : W) :
  0 < cs → fs_wf cs (mcp_fs (w_db w)) → small (mcp_fs (w_db w)) → healthy w →
  coherent (mkWorld (mcp_fs (w_db w)) (w_mem w) [] (w_clock w) (w_tick w)) →
  target path full (mcp_fs (w_db w)) p n →
  content_bytes encoding content = Some data → len data < 2 ^ 63 →
  ∃ w1 w2,
    handle_request cs unixepoch version enabled (write_request id path content encoding) w =
      (Ok (Some (text_answer id ("Wrote " +:+ pretty (len data) +:+ " bytes to " +:+ full))), w1) ∧
    handle_request cs unixepoch version enabled (read_request id' path encoding') w1 =
      (Ok (Some (match shown_as encoding' data with
                 | Some text => text_answer id' text
                 | None => error_answer id' "File is not valid UTF-8. Use encoding=base64 for binary files."
                 end)), w2) ∧
    fs_wf cs (mcp_fs (w_db w1)) ∧ w_db w2 = w_db w1 ∧ mcp_kv (w_db w1) = mcp_kv (w_db w) ∧
    abs cs (mcp_fs (w_db w1)) =
      spec_write_file p n (next_rowid (inode_seq (mcp_fs (w_db w)))) data (abs cs (mcp_fs (w_db w))).
Proof.
  intros Hcs H Hs Hh Hcoh Ht Hcontent Hmax. healthy_world w. destruct d as [d kv].
  cbn [w_db w_mem w_clock w_tick mcp_fs mcp_kv] in *.
  destruct (write_file_run path full p n encoding content data d mem kv clk t)
    as (d1 & mem1 & t1 & Hwrite & Hcoh1 & Hwf1 & Ha & Hwalk & Hc & Hdense); [done..|].
  destruct (read_file_run path full encoding' data _ d1 mem1 kv clk t1 Hcs Hwf1 Hcoh1
              (tg_path _ _ _ _ _ Ht) Hwalk Hc Hdense) as (mem2 & Hread).
  unfold write_request, read_request. eexists _, _. split; [|split].
  - erewrite (call_answer id "write_file") by (rewrite write_call; exact Hwrite). done.
  - erewrite (call_answer id' "read_file") by (rewrite read_call; exact Hread).
    by destruct (shown_as encoding' data).
  - cbn [w_db mcp_fs mcp_kv]. by split_and!.
Qed.
End McpProps.
