(* ===== verification/McpListing.v ===== *)
(** * McpListing: the resources of the server

    [resources/list] of [McpServer] walks over all directories: on well-formed tables without
    symlinks it ends, and tells of every regular file once. *)
From stdpp Require Import pretty.
From S2P Require Import Prelude Types Engine Lru Schema FileIO FileIOSpec Path AgentFS.
From S2P Require Import AgentFSInv AgentFSSpec AgentFSOps AgentFSPath AgentFSPathProps AgentFSPathRuns.
From S2P Require Import Listing ListingProps Rows KvStore Xdr Utf8 McpServer McpProps.

(** ** The depth of the tree *)
Section Depth.
Context (cs : Z) (d : Db) (Hwf : fs_wf cs d).
Abbreviation es := (fs_dentry d).

(** Only one path leads to a directory. *)
Lemma walk_unique l1 l2 x :
  is_dir d x → walk es ROOT_INO l1 = Some x → walk es ROOT_INO l2 = Some x → l1 = l2.
Proof.
  revert l2 x. induction l1 as [|n1 l1 IH] using rev_ind; intros l2 x Hx;
    destruct l2 as [|n2 l2 _] using rev_ind; rewrite ?walk_append.
  - done.
  - intros [= <-]. destruct (walk es ROOT_INO l2) as [p|]; [|done]. simpl.
    destruct (es !! (p, n2)) as [c|] eqn:Hc; [|done]. intros [= ->].
    by apply (root_no_entry cs d Hwf) in Hc.
  - destruct (walk es ROOT_INO l1) as [p|]; [|done]. simpl.
    destruct (es !! (p, n1)) as [c|] eqn:Hc; [|done]. intros [= ->] [= <-].
    by apply (root_no_entry cs d Hwf) in Hc.
  - destruct (walk es ROOT_INO l1) as [p1|] eqn:H1; [|done].
    destruct (walk es ROOT_INO l2) as [p2|] eqn:H2; [|done]. simpl.
    destruct (es !! (p1, n1)) as [c1|] eqn:Hc1; [|done].
    destruct (es !! (p2, n2)) as [c2|] eqn:Hc2; [|done]. intros [= ->] [= ->].
    assert ((p1, n1) = (p2, n2)) as [= -> ->] by by eapply (one_entry cs d Hwf).
    f_equal. destruct (co_dentry _ _ _ (proj1 Hwf) _ _ _ Hc1) as [Hp _]. by eapply IH.
Qed.

(** The entries that a walk goes through are distinct, so that it is no longer than there are
    entries. *)
Definition step_of (l : list string) (i : nat) : Z * string :=
  (default 0 (walk es ROOT_INO (take i l)), default ""%string (l !! i)).

Lemma step_entry l i x :
  walk es ROOT_INO l = Some x → (i < length l)%nat →
  ∃ p n c, walk es ROOT_INO (take i l) = Some p ∧ step_of l i = (p, n) ∧ es !! (p, n) = Some c.
Proof.
  intros Hw Hi. destruct (lookup_lt_is_Some_2 _ _ Hi) as [n Hn].
  rewrite <-(take_drop_middle _ _ _ Hn), walk_append in Hw.
  destruct (walk es ROOT_INO (take i l)) as [p|] eqn:Hp; [|done]. cbn in Hw.
  destruct (es !! (p, n)) as [c|] eqn:Hc; [|done].
  exists p, n, c. unfold step_of. by rewrite Hp, Hn.
Qed.

Lemma walk_depth l x : walk es ROOT_INO l = Some x → (length l <= size es)%nat.
Proof.
  intros Hw. assert (Hnd : NoDup (step_of l <$> seq 0 (length l))).
  { apply NoDup_fmap_2_strong; [|apply NoDup_seq]. intros i j Hi%elem_of_seq Hj%elem_of_seq Heq.
    destruct (step_entry l i x Hw) as (p & n & c & Hp & Hs & Hc); [lia|].
    destruct (step_entry l j x Hw) as (p' & n' & c' & Hp' & Hs' & Hc'); [lia|].
    rewrite Hs, Hs' in Heq. injection Heq as -> ->.
    destruct (co_dentry _ _ _ (proj1 Hwf) _ _ _ Hc) as [Hdir _].
    pose proof (walk_unique _ _ _ Hdir Hp Hp') as Ht. apply (f_equal length) in Ht.
    rewrite !length_take in Ht. lia. }
  assert (Hsub : step_of l <$> seq 0 (length l) ⊆ (map_to_list es).*1).
  { intros k (i & -> & Hi%elem_of_seq)%list_elem_of_fmap.
    destruct (step_entry l i x Hw) as (p & n & c & _ & -> & Hc); [lia|].
    apply list_elem_of_fmap. exists ((p, n), c). split; [done|]. by apply elem_of_map_to_list. }
  apply NoDup_submseteq in Hsub; [|done]. apply submseteq_length in Hsub.
  by rewrite !length_fmap, length_seq, length_map_to_list in Hsub.
Qed.
End Depth.

(** ** What the walk lists *)
Section Resources.
Context {E : SqlEngine} {Lru : LruCache (Z * string) Z} {ET : ErrorTexts}.
Context (cs : Z) (d : Db) (kv : KvDb) (clk : nat → option (Z * Z)) (t : nat).
Context (Hwf : fs_wf cs d).
Abbreviation es := (fs_dentry d).
Abbreviation Mem := (lru (Z * string) Z).
Abbreviation At mem := (mkWorld (mkMcpDb d kv) mem [] clk t : World McpDb Mem).

(** Names that can be written in paths, and no symlinks. *)
Context (Hnames : ∀ p n c, es !! (p, n) = Some c → canonical_component n).
Context (Hlinks : ∀ ino r, fs_inode d !! ino = Some r → lnk_row r = false).

Definition regular (ino : Z) : Prop :=
  ∃ r, fs_inode d !! ino = Some r ∧ Types.is_file (build_stats_from_row ino r) = true.
Definition uris (resources : list Json) : list string :=
  omap (λ j, McpServer.get "uri" j ≫= as_str) resources.

(** [out] tells of the files below the entries [names] of the directory at [comps], each once. *)
Definition listed (comps names : list string) (out : list Json) : Prop :=
  NoDup (uris out) ∧ ∀ u, u ∈ uris out ↔ ∃ n l ino, n ∈ names ∧ u = render (comps ++ n :: l) ∧
    walk es ROOT_INO (comps ++ n :: l) = Some ino ∧ regular ino.

Lemma walk_canonical i l ino : walk es i l = Some ino → canonical l.
Proof.
  revert i. induction l as [|n l IH]; intros i Hw; [by apply Forall_nil|]. cbn [walk] in Hw.
  destruct (es !! (i, n)) as [c|] eqn:Hc; [|done].
  apply Forall_cons. split; [by eapply Hnames|by eapply IH].
Qed.

Lemma render_inj l1 l2 : canonical l1 → canonical l2 → render l1 = render l2 → l1 = l2.
Proof. intros H1 H2 H. by rewrite <-(split_path_render l1 H1), <-(split_path_render l2 H2), H. Qed.

Lemma render_snoc comps n :
  canonical comps →
  (if String.eqb (render comps) "/" then "/" +:+ n else render comps +:+ "/" +:+ n)%string =
    render (comps ++ [n]).
Proof.
  intros Hc. destruct (decide (comps = [])) as [->|Hne]; [done|].
  destruct (String.eqb_spec (render comps) "/") as [Heq|_].
  { by apply (render_inj comps []) in Heq; [|done|apply Forall_nil]. }
  unfold render. destruct comps as [|a l]; [done|]. cbn [app].
  change (a :: l ++ [n]) with ((a :: l) ++ [n]). rewrite join_slash_snoc by done.
  by rewrite !string_app_assoc.
Qed.

Lemma uris_app l1 l2 : uris (l1 ++ l2) = uris l1 ++ uris l2.
Proof. apply omap_app. Qed.

(** What two entries of a directory have below them is different. *)
Lemma listed_app comps x names out1 out2 :
  x ∉ names → listed comps [x] out1 → listed comps names out2 → listed comps (x :: names) (out1 ++ out2).
Proof.
  intros Hx [Hn1 H1] [Hn2 H2]. unfold listed. rewrite uris_app. split.
  - apply NoDup_app. split_and!; [done| |done]. intros u Hu1 Hu2.
    apply H1 in Hu1 as (n1 & l1 & i1 & ->%list_elem_of_singleton & -> & Hw1 & _).
    apply H2 in Hu2 as (n2 & l2 & i2 & Hin & Heq & Hw2 & _).
    apply render_inj in Heq; [|by eapply walk_canonical..].
    apply app_inv_head in Heq as [= -> _]. done.
  - intros u. rewrite elem_of_app, H1, H2. split.
    + intros [(n & l & ino & Hin & Hr)|(n & l & ino & Hin & Hr)]; exists n, l, ino;
        (split; [|exact Hr]); [apply list_elem_of_singleton in Hin as ->; left|by right].
    + intros (n & l & ino & Hin & Hr). apply elem_of_cons in Hin as [Hn|Hin]; [left|right];
        exists n, l, ino; (split; [|exact Hr]); [by apply list_elem_of_singleton|done].
Qed.


(** The lists of one entry: a file, or something without files below it. *)
Lemma listed_file comps x ino full entry description mime :
  full = render (comps ++ [x]) → walk es ROOT_INO (comps ++ [x]) = Some ino → regular ino →
  listed comps [x] [JObj [("uri", JStr full); ("name", JStr entry); ("description", JStr description);
                          ("mimeType", JStr mime)]]%string.
Proof.
  intros -> Hw Hreg. split; [apply NoDup_singleton|]. intros u.
  change (uris _) with [render (comps ++ [x])]. rewrite list_elem_of_singleton. split.
  - intros ->. exists x, [], ino. split; [by apply list_elem_of_singleton|done].
  - intros (n & l & i & ->%list_elem_of_singleton & -> & Hw' & _). f_equal. f_equal.
    destruct l as [|y l]; [done|]. exfalso.
    change (comps ++ x :: y :: l) with (comps ++ [x] ++ (y :: l)) in Hw'.
    rewrite app_assoc, walk_append, Hw in Hw'. cbn in Hw'.
    destruct Hreg as (r & Hr & Hf).
    assert (Hd : dir_row r = false).
    { apply other_type with S_IFREG; [|done]. by rewrite <-(has_type_as_u32 (i_mode r)). }
    by rewrite (file_childless _ _ _ _ _ y (wf_core cs _ Hwf) Hr Hd) in Hw'.
Qed.
Lemma listed_other comps x ino :
  walk es ROOT_INO (comps ++ [x]) = Some ino → ¬ is_dir d ino → ¬ regular ino → listed comps [x] [].
Proof.
  intros Hw Hdir Hreg. split; [apply NoDup_nil_2|]. intros u. split; [by intros ?%elem_of_nil|].
  intros (n & l & i & ->%list_elem_of_singleton & -> & Hw' & Hr). exfalso.
  destruct l as [|y l]; [by simplify_eq|].
  change (comps ++ x :: y :: l) with (comps ++ [x] ++ (y :: l)) in Hw'.
  rewrite app_assoc, walk_append, Hw in Hw'. cbn in Hw'.
  destruct (es !! (ino, y)) as [c|] eqn:Hc; [|done].
  apply Hdir. by apply (co_dentry _ _ _ (wf_core cs _ Hwf)) in Hc as [? _].
Qed.
Lemma listed_dir comps x names out :
  (∀ n c, (∃ ino, walk es ROOT_INO (comps ++ [x]) = Some ino ∧ es !! (ino, n) = Some c) → n ∈ names) →
  (∀ ino, walk es ROOT_INO (comps ++ [x]) = Some ino → is_dir d ino) →
  listed (comps ++ [x]) names out → listed comps [x] out.
Proof.
  intros Hall Hdir [Hn H]. split; [done|]. intros u. rewrite H. split.
  - intros (n & l & ino & _ & -> & Hw & Hr). exists x, (n :: l), ino.
    split; [by apply list_elem_of_singleton|]. by rewrite <-app_assoc in *.
  - intros (n & l & ino & ->%list_elem_of_singleton & -> & Hw & Hr).
    destruct l as [|y l].
    { exfalso. apply Hdir in Hw as (r & Hrow & Hd). destruct Hr as (r' & Hrow' & Hf). simplify_eq.
      apply (other_type _ S_IFDIR S_IFREG) in Hd; [|done]. unfold Types.is_file in Hf.
      cbn [build_stats_from_row st_mode] in Hf. rewrite has_type_as_u32 in Hf. congruence. }
    change (comps ++ x :: y :: l) with (comps ++ [x] ++ (y :: l)) in *. rewrite app_assoc in *.
    exists y, l, ino. split_and!; [|done..]. rewrite walk_append in Hw.
    destruct (walk es ROOT_INO (comps ++ [x])) as [i|] eqn:Hi; [|done]. cbn in Hw.
    destruct (es !! (i, y)) as [c|] eqn:Hc; [|done]. apply (Hall y c). by exists i.
Qed.

Lemma listed_none comps : listed comps [] [].
Proof.
  split; [apply NoDup_nil_2|]. intros u. split; [by intros ?%elem_of_nil|].
  by intros (n & l & i & ?%elem_of_nil & _).
Qed.

Abbreviation Fine mem := (coherent (mkWorld d mem [] clk t)).

Lemma stat_at comps ino r mem :
  Fine mem → walk es ROOT_INO comps = Some ino → fs_inode d !! ino = Some r →
  ∃ mem', PathApi.stat (render comps) (mkWorld d mem [] clk t) =
    (Ok (Some (build_stats_from_row ino r)), mkWorld d mem' [] clk t) ∧ Fine mem'.
Proof.
  intros Hcoh Hw Hr. pose proof (walk_canonical _ _ _ Hw) as Hc.
  destruct (path_stat_run (render comps) d mem clk t Hcoh) as (mem' & Hrun & Hcoh').
  all: rewrite normalize_render, split_path_render, Hw in * by done.
  { intros c r' [= <-]. apply Hlinks. }
  exists mem'. simpl in Hrun. by rewrite Hr in Hrun.
Qed.

Lemma visit_run recurse comps ino :
  walk es ROOT_INO comps = Some ino →
  (∀ x i resources mem, Fine mem → walk es ROOT_INO (comps ++ [x]) = Some i → is_dir d i →
     ∃ out mem', recurse (render (comps ++ [x])) resources (At mem) =
       (Ok (inr (resources ++ out)), At mem') ∧ Fine mem' ∧ listed comps [x] out) →
  ∀ names resources mem, NoDup names → (∀ n, n ∈ names → is_Some (es !! (ino, n))) → Fine mem →
  ∃ out mem', visit_entries recurse (render comps) names resources (At mem) =
    (Ok (inr (resources ++ out)), At mem') ∧ Fine mem' ∧ listed comps names out.
Proof.
  intros Hw Hrec. pose proof (walk_canonical _ _ _ Hw) as Hcanon.
  induction names as [|x names IH]; intros resources mem Hnd Hin Hcoh.
  { exists [], mem. rewrite app_nil_r. split_and!; [done..|apply listed_none]. }
  apply NoDup_cons in Hnd as [Hx Hnd]. destruct (Hin x) as [i Hi]; [left|].
  assert (Hwx : walk es ROOT_INO (comps ++ [x]) = Some i) by by rewrite walk_append, Hw; cbn; rewrite Hi.
  destruct (co_dentry _ _ _ (wf_core cs _ Hwf) _ _ _ Hi) as [_ [r Hr]].
  destruct (stat_at _ _ _ _ Hcoh Hwx Hr) as (mem1 & Hstat & Hcoh1).
  assert (Hgo : ∀ out1 resources' mem2, Fine mem2 → listed comps [x] out1 →
    resources' = resources ++ out1 → ∃ out mem',
    visit_entries recurse (render comps) names resources' (At mem2) =
      (Ok (inr (resources ++ out)), At mem') ∧ Fine mem' ∧ listed comps (x :: names) out).
  { intros out1 resources' mem2 Hcoh2 Hl1 ->.
    destruct (IH (resources ++ out1) mem2 Hnd) as (out2 & mem3 & Hrun & Hcoh3 & Hl2);
      [by intros n Hn; apply Hin; right|done|].
    exists (out1 ++ out2), mem3. rewrite Hrun, app_assoc. split_and!; [done..|].
    by apply listed_app. }
  cbn [visit_entries]. rewrite render_snoc by done. erewrite question_ok by exact Hstat. cbn beta iota.
  destruct (Types.is_file (build_stats_from_row i r)) eqn:Hfile.
  { eapply Hgo; [done| |done]. eapply listed_file; [done|done|by exists r]. }
  assert (Hreg : ¬ regular i) by (intros (r' & Hr' & Hf); congruence).
  rewrite is_directory_stats. destruct (dir_row r) eqn:Hd.
  - destruct (Hrec x i resources mem1 Hcoh1 Hwx) as (out1 & mem2 & Hrun & Hcoh2 & Hl1); [by exists r|].
    erewrite and_then_ok by exact Hrun. by eapply Hgo.
  - eapply (Hgo []); [done| |by rewrite app_nil_r]. apply (listed_other _ _ i); [done| |done].
    intros (r' & Hr' & Hd'). congruence.
Qed.

(** With more fuel than there are entries below, the walk lists what is below a directory. *)
Lemma collect_run fuel comps ino resources mem :
  (size es < fuel + length comps)%nat → Fine mem →
  walk es ROOT_INO comps = Some ino → is_dir d ino →
  ∃ out mem', collect_file_resources fuel (render comps) resources (At mem) =
      (Ok (inr (resources ++ out)), At mem') ∧ Fine mem' ∧
    listed comps (filter (λ name, name ≠ "") (sel_children ino d).*1) out.
Proof.
  revert comps ino resources mem. induction fuel as [|fuel IH]; intros comps ino resources mem Hf Hcoh Hw Hd.
  { pose proof (walk_depth cs d Hwf comps ino Hw). lia. }
  destruct Hd as (r & Hr & Hdir). destruct (stat_at _ _ _ _ Hcoh Hw Hr) as (mem1 & Hstat & Hcoh1).
  cbn [collect_file_resources]. erewrite question_ok by exact Hstat. cbn beta iota.
  erewrite (question_ok (PathApi.readdir _)) by reflexivity. cbn beta iota.
  change (st_ino (build_stats_from_row ino r)) with ino.
  apply (visit_run _ _ ino Hw); [|by apply NoDup_filter, NoDup_sel_children| |done].
  - intros x i res mem2 Hcoh2 Hwx Hdx.
    destruct (IH (comps ++ [x]) i res mem2) as (out & mem3 & Hrun & Hcoh3 & Hl);
      [rewrite length_app; simpl; lia|done..|].
    exists out, mem3. split_and!; [done..|]. eapply listed_dir; [|by intros; simplify_eq|exact Hl].
    intros n c (j & Hj & Hc). simplify_eq. apply list_elem_of_filter.
    split; [by destruct (Hnames _ _ _ Hc) as [[? _] _]|].
    apply list_elem_of_fmap. exists (n, c). split; [done|]. by apply sel_children_elem.
  - intros n [_ ([n' c] & -> & Hin)%list_elem_of_fmap]%list_elem_of_filter.
    apply sel_children_elem in Hin. by eexists.
Qed.
End Resources.

Section McpListing.
Context {E : SqlEngine} {Lru : LruCache (Z * string) Z} {ET : ErrorTexts}.
Context {SJ : SerdeJson} {B64 : Base64} {SV : Serde Json}.
Context (cs : Z) (unixepoch : nat → Z) (version : string) (enabled : option (gset string)).

(** Tables whose names can be written in paths and that hold no symlinks. *)
Definition plain_tree (d : Db) : Prop :=
  (∀ p n c, fs_dentry d !! (p, n) = Some c → canonical_component n) ∧
  (∀ ino r, fs_inode d !! ino = Some r → lnk_row r = false).

(** C20: the list of the resources ends and is complete.  On well-formed tables without symlinks,
    [resources/list] is answered with a list that has every path of a regular file, as its uri,
    exactly once, and no other; the recursion over the directories is no deeper than there are
    entries. *)
Theorem mcp_lists_files id (w : World McpDb (lru (Z * string) Z)) :
  fs_wf cs (mcp_fs (w_db w)) → plain_tree (mcp_fs (w_db w)) → faultless w →
  coherent (mkWorld (mcp_fs (w_db w)) (w_mem w) [] (w_clock w) (w_tick w)) →
  ∃ resources w',
    handle_request cs unixepoch version enabled
      (JObj [("id", id); ("method", JStr "resources/list")]%string) w =
      (Ok (Some (JObj [("jsonrpc", JStr "2.0"); ("id", id);
                       ("result", JObj [("resources", JArr resources)])]))%string, w') ∧
    w_db w' = w_db w ∧ NoDup (uris resources) ∧
    ∀ u, u ∈ uris resources ↔ ∃ l ino, holds (mcp_fs (w_db w)) l ino ∧ u = render l ∧
      regular (mcp_fs (w_db w)) ino.
Proof.
  intros Hwf [Hnames Hlinks] Hfl Hcoh. destruct w as [[d kv] mem fs clk t].
  unfold faultless in Hfl. cbn [w_db w_mem w_faults w_clock w_tick mcp_fs] in *. subst fs.
  destruct (collect_run cs d kv clk t Hwf Hnames Hlinks (S (S (size (fs_dentry d)))) [] ROOT_INO [] mem)
    as (out & mem' & Hrun & _ & Hn & Hl); [simpl; lia|done|done|apply (wf_core cs _ Hwf)|].
  exists out, (mkWorld (mkMcpDb d kv) mem' [] clk t). split_and!; [|done|done|].
  - change (handle_request cs unixepoch version enabled ?req ?w) with
      ((r ← dispatch cs unixepoch version enabled "resources/list" (JObj []);
        mret (Some (match r with
          | inr result => JObj [("jsonrpc", JStr "2.0"); ("id", id); ("result", result)]
          | inl e => error_answer id e
          end%string))) w).
    unfold dispatch. cbn [String.eqb Ascii.eqb Bool.eqb]. unfold handle_resources_list.
    unfold mbind, M_bind. erewrite and_then_ok by exact Hrun. done.
  - intros u. rewrite Hl. unfold holds. split.
    + intros (n & l & ino & _ & -> & Hw & Hr). by exists (n :: l), ino.
    + intros (l & ino & [Hne Hw] & -> & Hr). destruct l as [|n l]; [done|].
      exists n, l, ino. split_and!; [|done..]. cbn [walk] in Hw.
      destruct (fs_dentry d !! (ROOT_INO, n)) as [c|] eqn:Hc; [|done]. apply list_elem_of_filter.
      split; [by destruct (Hnames _ _ _ Hc) as [[? _] _]|].
      apply list_elem_of_fmap. exists (n, c). split; [done|]. by apply sel_children_elem.
Qed.
End McpListing.
