(* ===== verification/McpScenarios.v ===== *)
(** * McpScenarios: the server of tools, at concrete inputs

    The theorems of [McpProps] and [McpListing] applied to a small agent, and requests that end
    differently from what the server announces. *)
From stdpp Require Import pretty.
From S2P Require Import Prelude Types Engine Lru Schema FileIO FileIOSpec Path AgentFS.
From S2P Require Import AgentFSInv AgentFSSpec AgentFSOps AgentFSCoherent Init AgentFSProps.
From S2P Require Import AgentFSPath AgentFSPathProps Listing ListingProps Rows KvStore Xdr Utf8.
From S2P Require Import McpServer McpProps McpListing Scenarios.
#[local] Existing Instance sql_reference.
#[local] Existing Instance BoundedLru.

(** ** The foreign parts *)
#[local] Instance plain_texts : ErrorTexts :=
  {| turso_text _ := "failed"; io_text _ := "failed"; time_text := "failed" |}%string.

(** A JSON text is a string in this client: a request for a list, or something unreadable; what is
    printed does not matter here. *)
#[local] Instance short_json : SerdeJson := {|
  from_str s := if String.eqb s "{" then None else Some (JObj [("id", JNum 1); ("method", JStr s)]);
  McpServer.to_string j := match j with JObj (("jsonrpc", _) :: _) => "answer" | _ => "" end;
  to_string_pretty j := match j with JNull => "null" | JStr s => s | _ => "value" end;
  serde_error struct _ := "invalid " +:+ struct |}%string.
(** A code that leaves the bytes as they are. *)
#[local] Instance plain_code : Base64 := {|
  encode data := String.string_of_list_byte data;
  decode s := inr (as_bytes s) |}.
(** Strings and null are stored as they are printed. *)
#[local] Instance short_serde : Serde Json := {|
  to_json j := match j with JNull => inr "null" | JStr s => inr ("'" +:+ s) | _ => inl "no" end;
  from_json s := if String.eqb s "null" then inr JNull else inr (JStr s) |}%string.
#[local] Instance kv_in_order : RowOrder := sorting_engine.

Definition no_clock : nat → Z := λ _, 1000.
Abbreviation McpWorld := (World McpDb (lru (Z * string) Z)).
Definition serving (w : FsWorld) : McpWorld :=
  mkWorld (mkMcpDb (w_db w) ∅) (w_mem w) (w_faults w) (w_clock w) (w_tick w).
Definition ask (enabled : option (gset string)) (request : Json) (w : McpWorld) : option Json * McpWorld :=
  match handle_request cs4 no_clock "0.0" enabled request w with
  | (Ok r, w') => (r, w')
  | (_, w') => (None, w')
  end.

Lemma serving_healthy w : healthy w → healthy (serving w).
Proof. intros [Hf Hc]. by split. Qed.
Lemma serving_coherent w : coherent w →
  coherent (mkWorld (mcp_fs (w_db (serving w))) (w_mem (serving w)) [] (w_clock (serving w))
              (w_tick (serving w))).
Proof. done. Qed.

(** ** Witnesses *)


Lemma listing_reads :
  Forall (λ request, changes request = false) (requests ["resources/list"; "tools/call"; "nothing"]%string).
Proof. by repeat constructor. Qed.
Lemma mcp_reads_witness :
  w_db (serve cs4 no_clock "0.0" None ["resources/list"; "tools/call"; "nothing"]%string
          (serving some_world)).2 = w_db (serving some_world).
Proof. exact (mcp_reads cs4 no_clock "0.0" None _ (serving some_world) listing_reads). Defined.

(** [/f] is a file with other contents. *)
Lemma f_target : target "f" "/f" (mcp_fs (w_db (serving some_world))) 1 "f".
Proof.
  split; [by vm_compute..|exact root_is_dir|]. unfold absent_or_file.
  assert (Hf : fs_dentry (mcp_fs (w_db (serving some_world))) !! (1, "f"%string) = Some 2) by by vm_compute.
  rewrite Hf. destruct (fs_inode (mcp_fs (w_db (serving some_world))) !! 2) as [r|] eqn:Hr;
    vm_compute in Hr; [|done]. injection Hr as <-. by eexists.
Qed.
Lemma mcp_write_then_read_witness :
  ∃ w1 w2,
    handle_request cs4 no_clock "0.0" None (write_request (JNum 1) "f" "new text" None) (serving some_world) =
      (Ok (Some (text_answer (JNum 1) ("Wrote " +:+ pretty (len (as_bytes "new text")) +:+ " bytes to " +:+ "/f"))), w1) ∧
    handle_request cs4 no_clock "0.0" None (read_request (JNum 2) "f" (Some "base64"%string)) w1 =
      (Ok (Some (match shown_as (Some "base64"%string) (as_bytes "new text") with
                 | Some text => text_answer (JNum 2) text
                 | None => error_answer (JNum 2)
                     "File is not valid UTF-8. Use encoding=base64 for binary files."
                 end)), w2) ∧
    fs_wf cs4 (mcp_fs (w_db w1)) ∧ w_db w2 = w_db w1 ∧
    mcp_kv (w_db w1) = mcp_kv (w_db (serving some_world)) ∧
    abs cs4 (mcp_fs (w_db w1)) =
      spec_write_file 1 "f" (next_rowid (inode_seq (mcp_fs (w_db (serving some_world))))) (as_bytes "new text")
        (abs cs4 (mcp_fs (w_db (serving some_world)))).
Proof.
  apply (mcp_write_then_read cs4 no_clock "0.0" None (JNum 1) (JNum 2) "f" "/f" 1 "f" "new text" None
           (Some "base64"%string) (as_bytes "new text") (serving some_world) cs4_pos some_world_wf
           some_world_small).
  - apply serving_healthy, some_world_healthy.
  - apply serving_coherent, some_world_coherent.
  - exact f_target.
  - done.
  - by vm_compute.
Defined.

(** [/f] with six bytes, [/d], and [/d/g]. *)
Definition tree_setup : list op :=
  [OCreate 1 "f" 0x1a4 0 0; OMkdir 1 "d" 0x1ed 0 0; OCreate 3 "g" 0x1a4 0 0; OWrite 2 0 hello].
Definition tree_world : FsWorld := after tree_setup new_world.
Lemma tree_good : healthy tree_world ∧ fs_wf cs4 (w_db tree_world) ∧ coherent tree_world.
Proof.
  apply admissible_good; [apply new_world_healthy|apply new_world_wf|apply new_world_coherent|].
  cbn [admissible tree_setup op_ok]. concrete.
Qed.
Lemma tree_entries :
  map_to_list (fs_dentry (w_db tree_world)) = [((3, "g"), 4); ((1, "f"), 2); ((1, "d"), 3)]%string.
Proof. by vm_compute. Qed.
Lemma tree_modes :
  map_Forall (λ _ r, lnk_row r = false) (fs_inode (w_db tree_world)).
Proof. refine (bool_decide_unpack _ _). by vm_compute. Qed.
Lemma tree_plain : plain_tree (mcp_fs (w_db (serving tree_world))).
Proof.
  split; [|exact tree_modes]. intros p n c Hc%elem_of_map_to_list.
  change (mcp_fs (w_db (serving tree_world))) with (w_db tree_world) in Hc.
  rewrite tree_entries in Hc.
  assert (Hn : n ∈ ["f"; "d"; "g"]%string).
  { rewrite !elem_of_cons, elem_of_nil in Hc. rewrite !elem_of_cons. naive_solver. }
  clear Hc. revert n Hn. apply Forall_forall. repeat constructor; done.
Qed.

Lemma mcp_lists_files_witness :
  ∃ resources w',
    handle_request cs4 no_clock "0.0" None
      (JObj [("id", JNum 3); ("method", JStr "resources/list")]%string) (serving tree_world) =
      (Ok (Some (JObj [("jsonrpc", JStr "2.0"); ("id", JNum 3);
                       ("result", JObj [("resources", JArr resources)])]))%string, w') ∧
    w_db w' = w_db (serving tree_world) ∧ NoDup (uris resources) ∧
    ∀ u, u ∈ uris resources ↔ ∃ l ino, holds (mcp_fs (w_db (serving tree_world))) l ino ∧ u = render l ∧
      McpListing.regular (mcp_fs (w_db (serving tree_world))) ino.
Proof.
  apply (mcp_lists_files cs4 no_clock "0.0" None (JNum 3) (serving tree_world)).
  - exact (proj1 (proj2 tree_good)).
  - exact tree_plain.
  - exact (proj1 (serving_healthy _ (proj1 tree_good))).
  - exact (serving_coherent _ (proj2 (proj2 tree_good))).
Defined.

(** ** Requests that end differently from what is announced *)

Definition tool_names (enabled : option (gset string)) : list string :=
  omap (λ t, McpServer.get "name" t ≫= as_str) (get_tool_definitions enabled).
(** The text or the error of an answer. *)
Definition outcome (response : option Json) : option (string + string) :=
  r ← response;
  match McpServer.get "error" r with
  | Some e => m ← McpServer.get "message" e; inl <$> as_str m
  | None =>
      result ← McpServer.get "result" r; content ← McpServer.get "content" result;
      match content with JArr [t] => text ← McpServer.get "text" t; inr <$> as_str text | _ => None end
  end.
Definition path_arg (path : string) : list (string * Json) := [("path", JStr path)]%string.

(** The filter hides tools and does not disable them.  A server that exposes [read_file] alone
    still removes files for its client. *)
Theorem hidden_tools_run :
  tool_names (Some {["read_file"]}) = ["read_file"]%string ∧
  outcome (ask (Some {["read_file"]}) (call (JNum 1) "remove" (path_arg "/f")) (serving some_world)).1 =
    Some (inr "Removed directory: /f")%string ∧
  fs_dentry (mcp_fs (w_db (ask (Some {["read_file"]}) (call (JNum 1) "remove" (path_arg "/f"))
    (serving some_world)).2)) !! (1, "f"%string) = None.
Proof. by vm_compute. Qed.

(** [kv_list] is announced and does not exist. *)
Theorem announced_tool_missing :
  "kv_list"%string ∈ tool_names None ∧
  outcome (ask None (call (JNum 1) "kv_list" []) (serving some_world)).1 =
    Some (inl "Unknown tool: kv_list")%string.
Proof. split; [by refine (bool_decide_unpack _ _); vm_compute|by vm_compute]. Qed.

(** The notification by which a client of the protocol ends the handshake is answered with an
    error, whose id is null. *)
Theorem notification_answered :
  (ask None (JObj [("method", JStr "notifications/initialized")]) (serving some_world)).1 =
    Some (error_answer JNull "Unknown method: notifications/initialized")%string.
Proof. by vm_compute. Qed.

(** A name may hold two dots: [/a..b] is refused as if it left the tree. *)
Theorem dots_in_names_refused :
  McpServer.normalize_path "/a..b" = inl "Path traversal not allowed: /a..b"%string ∧
  split_path "/a..b" = ["a..b"]%string.
Proof. by vm_compute. Qed.

(** Blanks around a path belong to no name: what is written to [/f ] replaces [/f]. *)
Theorem blanks_trimmed :
  McpServer.normalize_path "/f " = inr "/f"%string ∧ split_path "/f " = ["f "]%string.
Proof. by vm_compute. Qed.

(** [write_file] replaces an empty directory by a file. *)
Theorem directory_overwritten :
  outcome (ask None (write_request (JNum 1) "/d" "x" None) (serving some_world)).1 =
    Some (inr "Wrote 1 bytes to /d")%string ∧
  option_map dir_row (fs_inode (w_db some_world) !! 3) = Some true ∧
  ∃ c, fs_dentry (mcp_fs (w_db (ask None (write_request (JNum 1) "/d" "x" None) (serving some_world)).2))
         !! (1, "d"%string) = Some c ∧ c ≠ 3.
Proof. split; [by vm_compute|]. split; [by vm_compute|]. exists 5. by vm_compute. Qed.

(** [write_file] removes the old file first: when the engine fails before the new one is there,
    both are gone. *)
Definition failing_world (n : nat) : McpWorld :=
  set_faults (replicate n None ++ [Some (Error.Database EngineFailure)]) (serving some_world).
Theorem failed_write_loses :
  outcome (ask None (write_request (JNum 1) "/f" "new" None) (failing_world 12)).1 =
    Some (inl "Failed to create file")%string ∧
  fs_dentry (mcp_fs (w_db (failing_world 12))) !! (1, "f"%string) = Some 2 ∧
  fs_dentry (mcp_fs (w_db (ask None (write_request (JNum 1) "/f" "new" None) (failing_world 12)).2))
    !! (1, "f"%string) = None.
Proof. by vm_compute. Qed.

(** One symlink that leads to itself, and no resource is listed. *)
Definition looping_world : FsWorld := after (setup ++ [OSymlink 1 "m" "m" 0 0]) new_world.
Theorem one_loop_hides_all :
  (ask None (JObj [("id", JNum 1); ("method", JStr "resources/list")]%string) (serving looping_world)).1 =
    Some (error_answer (JNum 1) (Error.fmt (Error.Fs FsError.SymlinkLoop))).
Proof. by vm_compute. Qed.

(** The files below a directory are not listed a second time below a symlink to it, although
    files that symlinks lead to are. *)
Definition linked_world : FsWorld :=
  after (tree_setup ++ [OSymlink 1 "to_d" "d" 0 0; OSymlink 1 "to_f" "f" 0 0]) new_world.
Definition listed_uris (response : option Json) : option (list string) :=
  r ← response; result ← McpServer.get "result" r; resources ← McpServer.get "resources" result;
  match resources with JArr l => Some (uris l) | _ => None end.
Theorem linked_directories_skipped :
  listed_uris (ask None (JObj [("id", JNum 1); ("method", JStr "resources/list")]%string)
    (serving linked_world)).1 = Some ["/d/g"; "/f"; "/to_f"]%string.
Proof. by vm_compute. Qed.

(** A request that cannot be parsed gets no answer, and neither does one without a method. *)
Theorem bad_requests_unanswered :
  serve cs4 no_clock "0.0" None ["{"]%string (serving some_world) = (Ok [], serving some_world) ∧
  (ask None (JObj [("id", JNum 1)]%string) (serving some_world)).1 = None.
Proof. by vm_compute. Qed.

(** [kv_get] shows a key that holds null as it shows a key that is not there. *)
Theorem null_looks_absent :
  outcome (ask None (call (JNum 2) "kv_get" [("key", JStr "k")]%string)
    (ask None (call (JNum 1) "kv_set" [("key", JStr "k"); ("value", JNull)]%string) (serving some_world)).2).1 =
  outcome (ask None (call (JNum 2) "kv_get" [("key", JStr "k")]%string) (serving some_world)).1.
Proof. by vm_compute. Qed.
