(* ===== verification/RunSandbox.v ===== *)
(** * RunSandbox: [agentfs run] on Linux

    [cli/src/sandbox/linux.rs]: the overlay is mounted on a hidden directory, and the command runs
    in a child process with namespaces of its own, where the overlay is bound over the working
    directory and every other mount is made read-only.  A process is a tree of calls ([Prog]):
    each of them is answered by the system, in any way, and the answer decides what comes next. *)
From Stdlib Require Import Ascii.
From stdpp Require Import pretty.
From S2P Require Import Prelude Types Path Utf8 Xdr Options HostFs.

(** ** Programs *)

(** The pipes between parent and child, their ends, and the descriptor of the working
    directory. *)
Inductive Pipe := ToChild | ToParent.
Inductive End := ReadEnd | WriteEnd.
Inductive Fd := PipeEnd (p : Pipe) (e : End) | CwdFd.
#[export] Instance Pipe_eq : EqDecision Pipe. Proof. solve_decision. Defined.
#[export] Instance End_eq : EqDecision End. Proof. solve_decision. Defined.
#[export] Instance Fd_eq : EqDecision Fd. Proof. solve_decision. Defined.

(** What [waitpid] reports: a status, [EINTR], or another error. *)
Inductive WaitReply := Status (status : Z) | Interrupted | Failed.

(** The calls of the C library and of [std], by what they answer.  [Mountinfo]: the lines of
    [/proc/self/mountinfo], if it can be opened, each unless reading it fails; [Fusermount]: the
    command that unmounts. *)
Inductive Call :=
| Unshare (flags : Z) | MakePipe (p : Pipe) | Fork
| Read (fd : Fd) | Write (fd : Fd) | Close (fd : Fd)
| Mount (source : option string) (target : string) (flags : Z) | Mountinfo
| SetCurrentDir (path : string) | Canonicalize (path : string) | Exists (path : string)
| HomeDir | NewUuid | ProcessId | Now
| CreateDirAll (path : string) | WriteFile (path content : string)
| RemoveFile (path : string) | RemoveDir (path : string) | RemoveDirAll (path : string)
| SetVar (name value : string) | Execvp (command : string) (argv : list string)
| Waitpid (pid : Z) | Fusermount (path : string) (lazy : bool).

Definition Reply (c : Call) : Type :=
  match c with
  | Unshare _ | MakePipe _ | Fork | Read _ | Mount _ _ _ | ProcessId | Now => Z
  | Mountinfo => option (list (option string))
  | Canonicalize _ | HomeDir => option string
  | NewUuid => string
  | SetCurrentDir _ | Exists _ | CreateDirAll _ | WriteFile _ _ | RemoveFile _ | RemoveDir _
  | RemoveDirAll _ | Fusermount _ _ => bool
  | Write _ | Close _ | SetVar _ _ | Execvp _ _ => unit
  | Waitpid _ => WaitReply
  end.

(** A process: it returns, ends with a code, or makes a call.  [Execvp] only answers when it
    fails. *)
Inductive Prog (A : Type) : Type :=
| ret (a : A)
| exit (code : Z)
| act (c : Call) (k : Reply c → Prog A).
Arguments ret {A} _.
Arguments exit {A} _.
Arguments act {A} _ _.

Fixpoint bind {A B} (p : Prog A) (f : A → Prog B) : Prog B :=
  match p with
  | ret a => f a
  | exit code => exit code
  | act c k => act c (λ r, bind (k r) f)
  end.
#[export] Instance Prog_ret : MRet Prog := @ret.
#[export] Instance Prog_bind : MBind Prog := λ A B f p, bind p f.
Definition call (c : Call) : Prog (Reply c) := act c ret.

Fixpoint for_each {A} (f : A → Prog unit) (l : list A) : Prog unit :=
  match l with
  | [] => mret tt
  | a :: l => f a ;; for_each f l
  end.
Fixpoint filter_mapM {A B} (f : A → Prog (option B)) (l : list A) : Prog (list B) :=
  match l with
  | [] => mret []
  | a :: l =>
      b ← f a;
      bs ← filter_mapM f l;
      mret (match b with Some b => b :: bs | None => bs end)
  end.

(** ** Paths *)

(** [Path::join]. *)
Definition join (base path : string) : string :=
  if starts_with path "/" then path
  else if String.eqb base "" then path
  else match last (split_slash base) with
       | Some "" => base +:+ path
       | _ => base +:+ "/" +:+ path
       end.

(** [==] of paths compares their components: separators at the end or repeated do not count,
    nor does [.] after the start of a relative path. *)
Definition is_component (s : string) : bool := negb (String.eqb s "") && negb (String.eqb s ".").
Definition components (path : string) : bool * list string :=
  (starts_with path "/",
   match split_slash path with
   | "." :: l => "." :: filter (λ s, is_component s = true) l
   | l => filter (λ s, is_component s = true) l
   end).
Definition path_eqb (p q : string) : bool := bool_decide (components p = components q).

(** ** Mount points *)

Definition SKIP_MOUNT_PREFIXES : list string := ["/proc"; "/sys"; "/dev"; "/tmp"].
Definition skip_mount (path : string) : bool :=
  existsb (λ prefix, starts_with path prefix) SKIP_MOUNT_PREFIXES.

Definition MOUNTINFO_MOUNT_POINT_FIELD : nat := 4.

Definition backslash : ascii := "092".
Definition octal_digit (a : ascii) : Z := Z.of_nat (nat_of_ascii a) - 48.
Definition is_octal (a : ascii) : bool := between 0 7 (octal_digit a).

(** The loop that takes up to three digits. *)
Fixpoint take_octal (n : nat) (s : string) : string * string :=
  match n, s with
  | S n, String a s' =>
      if is_octal a then let '(octal, rest) := take_octal n s' in (String a octal, rest)
      else ("", s)
  | _, _ => ("", s)
  end.

(** [u32::from_str_radix(&octal, 8)], on digits. *)
Fixpoint octal_value (acc : Z) (s : string) : Z :=
  match s with
  | EmptyString => acc
  | String a s => octal_value (8 * acc + octal_digit a) s
  end.

(** [code as u8 as char], pushed to a string: UTF-8. *)
Definition byte_char (code : Z) : string :=
  let byte z := ascii_of_nat (Z.to_nat z) in
  if code <? 0x80 then String (byte code) ""
  else String (byte (0xc0 + code / 64)) (String (byte (0x80 + code mod 64)) "").

Fixpoint unescape (fuel : nat) (s : string) : string :=
  match fuel, s with
  | S fuel, String c rest =>
      if Ascii.eqb c backslash then
        let '(octal, rest) := take_octal 3 rest in
        if (String.length octal =? 3)%nat && (octal_value 0 octal <=? 255)
        then byte_char (octal_value 0 octal) +:+ unescape fuel rest
        else String c (octal +:+ unescape fuel rest)
      else String c (unescape fuel rest)
  | _, _ => ""
  end.
(** Every round takes a character. *)
Definition unescape_mountinfo (s : string) : string := unescape (String.length s) s.

(** The mount point that a line names, if it has so many fields. *)
Definition mount_point_of (line : string) : option string :=
  unescape_mountinfo ∘ of_bytes <$>
    split_whitespace (byte_val <$> as_bytes line) !! MOUNTINFO_MOUNT_POINT_FIELD.

(** [sort_by_key(|b| Reverse(len))]; the sort is stable. *)
Definition longer (p q : string) : Prop := (String.length q <= String.length p)%nat.
#[export] Instance longer_dec : RelDecision longer.
Proof. intros p q. unfold longer. apply _. Defined.

(** The flags of the [libc] crate. *)
Class LibcMount := {
  MS_RDONLY : Z; MS_REMOUNT : Z; MS_BIND : Z; MS_REC : Z; MS_PRIVATE : Z;
  CLONE_NEWUSER : Z; CLONE_NEWNS : Z
}.
#[export] Instance libc_mount_linux : LibcMount := {|
  MS_RDONLY := 1; MS_REMOUNT := 32; MS_BIND := 4096; MS_REC := 16384; MS_PRIVATE := 2 ^ 18;
  CLONE_NEWUSER := 2 ^ 28; CLONE_NEWNS := 2 ^ 17
|}.

(** The macros of the [libc] crate on what [waitpid] reports. *)
Class LibcWait := {
  WIFEXITED : Z → bool; WEXITSTATUS : Z → Z; WIFSIGNALED : Z → bool; WTERMSIG : Z → Z
}.
#[export] Instance libc_wait_linux : LibcWait := {|
  WIFEXITED s := Z.land s 0x7f =? 0;
  WEXITSTATUS s := Z.land (Z.shiftr s 8) 0xff;
  WIFSIGNALED s := negb (Z.land s 0x7f =? 0) && negb (Z.land s 0x7f =? 0x7f);
  WTERMSIG s := Z.land s 0x7f
|}.

(** What [serde_json] makes of a [ProcInfo]: the time is that of [Now]. *)
Class ProcJson :=
  proc_info : ∀ (pid : Z) (owner : bool) (command cwd : string) (started_at : Z), option string.

(** ** Signals

    The two counters of the parent, and what its handler sends. *)
Record Signals := mkSignals { CHILD_PID : Z; TERM_SIGNAL_COUNT : Z }.
Definition SIGKILL : Z := 9.

(** [fetch_add] wraps around. *)
Definition i32_add (a b : Z) : Z := (a + b + 2 ^ 31) mod 2 ^ 32 - 2 ^ 31.
Definition forward_signal_to_child (sig : Z) (s : Signals) : option (Z * Z) * Signals :=
  let pid := CHILD_PID s in
  if 0 <? pid then
    let count := TERM_SIGNAL_COUNT s in
    let s := mkSignals pid (i32_add count 1) in
    if count =? 0 then (Some (pid, sig), s) else (Some (pid, SIGKILL), s)
  else (None, s).
Definition install_signal_handlers (s : Signals) : Signals := mkSignals (CHILD_PID s) 0.

(** ** The child *)
Section Child.
Context `{LibcMount}.

(** [wait_for_pipe_signal]: a byte was read. *)
Definition wait_for_pipe_signal (fd : Fd) : Prog bool :=
  result ← call (Read fd);
  mret (0 <? (result : Z)).

(** Messages on the terminal are left out. *)
Definition child_exit_with_code {A} (code : Z) : Prog A := exit code.
Definition child_exit {A} : Prog A := child_exit_with_code 1.
Definition EXIT_COMMAND_NOT_FOUND : Z := 127.

Definition path_to_cstring (path : string) : Prog string :=
  match c_string path with Some s => mret s | None => child_exit end.

(** An allowed path is bound to itself, and the new mount is made writable. *)
Definition bind_allowed (allowed : string) : Prog unit :=
  match c_string allowed with
  | None => mret tt
  | Some path =>
      bind_result ← call (Mount (Some path) path MS_BIND);
      if (bind_result : Z) =? 0 then
        call (Mount None path (Z.lor MS_BIND MS_REMOUNT)) ;; mret tt
      else mret tt
  end.

Definition READ_ONLY : Z := Z.lor (Z.lor MS_BIND MS_REMOUNT) MS_RDONLY.
Definition remount_readonly (writable : string) (allowed : list string) (mount_point : string)
    : Prog unit :=
  canonical ← call (Canonicalize mount_point);
  let mount_canonical := default mount_point canonical in
  if path_eqb mount_canonical writable then mret tt
  else if existsb (path_eqb mount_canonical) allowed then mret tt
  else if skip_mount mount_point then mret tt
  else match c_string mount_point with
  | None => mret tt
  | Some path =>
      bind_result ← call (Mount (Some path) path (Z.lor MS_BIND MS_REC));
      if negb ((bind_result : Z) =? 0) then mret tt
      else call (Mount None path READ_ONLY) ;; mret tt
  end.

(** [false]: an error of [std::io]. *)
Definition remount_all_readonly_except (writable_path : string) (allowed_paths : list string)
    : Prog bool :=
  for_each bind_allowed allowed_paths ;;
  mountinfo ← call Mountinfo;
  match mbind (M := option) (mapM (λ line, line)) mountinfo with
  | None => mret false
  | Some lines =>
      let mounts := merge_sort longer (omap mount_point_of lines) in
      canonical ← call (Canonicalize writable_path);
      allowed_canonical ← filter_mapM (λ p, call (Canonicalize p)) allowed_paths;
      for_each (remount_readonly (default writable_path canonical) allowed_canonical) mounts ;;
      mret true
  end.

Definition setup_env_vars (session_id : string) : Prog unit :=
  call (SetVar "AGENTFS" "1") ;;
  call (SetVar "AGENTFS_SANDBOX" "linux-namespace") ;;
  call (SetVar "AGENTFS_SESSION" session_id) ;;
  call (SetVar "PS1" "🤖 \u@\h:\w\$ ") ;;
  home ← call HomeDir;
  match (home : option string) with
  | None => mret tt
  | Some home =>
      let user_ssh_config := join home ".ssh/config" in
      there ← call (Exists user_ssh_config);
      let config_path := if (there : bool) then from_utf8_lossy (as_bytes user_ssh_config)
                         else "/dev/null" in
      call (SetVar "GIT_SSH_COMMAND" ("ssh -F " +:+ config_path)) ;;
      mret tt
  end.

Definition exec_command {A} (command : string) (args : list string) (session_id : string) : Prog A :=
  setup_env_vars session_id ;;
  match c_string command with
  | None => child_exit_with_code EXIT_COMMAND_NOT_FOUND
  | Some command =>
      match mapM c_string args with
      | None => child_exit_with_code EXIT_COMMAND_NOT_FOUND
      | Some args =>
          call (Execvp command (command :: args)) ;;
          child_exit_with_code EXIT_COMMAND_NOT_FOUND
      end
  end.

Definition run_child {A} (cwd fuse_mountpoint : string) (allowed_paths : list string)
    (command : string) (args : list string) (session_id : string) (pipe_from_parent pipe_to_parent : Fd)
    : Prog A :=
  result ← call (Unshare (Z.lor CLONE_NEWUSER CLONE_NEWNS));
  if negb ((result : Z) =? 0) then child_exit
  else
    call (Write pipe_to_parent) ;;
    call (Close pipe_to_parent) ;;
    signalled ← wait_for_pipe_signal pipe_from_parent;
    if negb signalled then child_exit
    else
      call (Close pipe_from_parent) ;;
      result ← call (Mount None "/" (Z.lor MS_REC MS_PRIVATE));
      if negb ((result : Z) =? 0) then child_exit
      else
        fuse ← path_to_cstring fuse_mountpoint;
        cwd_cstr ← path_to_cstring cwd;
        result ← call (Mount (Some fuse) cwd_cstr MS_BIND);
        if negb ((result : Z) =? 0) then child_exit
        else
          changed ← call (SetCurrentDir cwd);
          if negb (changed : bool) then child_exit
          else
            remounted ← remount_all_readonly_except cwd allowed_paths;
            if negb remounted then child_exit
            else exec_command command args session_id.
End Child.

(** ** The parent *)
Section Parent.
Context `{LibcMount, LibcWait, ProcJson}.

(** [PathBuf]s below the directory of a session. *)
Definition run_dir (home session_id : string) : string :=
  join (join (join home ".agentfs") "run") session_id.

(** [cmd/ps.rs]: the file that says which processes a session has.  A panic of the main
    thread ends the process with 101; what it drops on the way is left out. *)
Definition procs_dir (session_id : string) : Prog string :=
  home ← call HomeDir;
  match (home : option string) with
  | None => exit 101
  | Some home => mret (join (run_dir home session_id) "procs")
  end.
Definition proc_file (session_id : string) (pid : Z) : Prog string :=
  dir ← procs_dir session_id;
  mret (join dir (pretty pid +:+ ".json")).
Definition write_proc_file (session_id : string) (owner : bool) (command cwd : string) : Prog bool :=
  pid ← call ProcessId;
  dir ← procs_dir session_id;
  created ← call (CreateDirAll dir);
  if negb (created : bool) then mret false
  else
    now ← call Now;
    path ← proc_file session_id pid;
    match proc_info pid owner command cwd now with
    | None => mret false
    | Some json => call (WriteFile path json)
    end.
Definition remove_proc_file (session_id : string) : Prog unit :=
  pid ← call ProcessId;
  path ← proc_file session_id pid;
  call (RemoveFile path) ;;
  mret tt.

Record RunSession := mkRunSession {
  run_id : string; db_path : string; fuse_mountpoint : string; base_path_file : string
}.
Definition setup_run_directory (session_id : option string) : Prog (option RunSession) :=
  run_id ← match session_id with Some id => mret id | None => call NewUuid end;
  home ← call HomeDir;
  match (home : option string) with
  | None => mret None
  | Some home_dir =>
      let run_dir := run_dir home_dir run_id in
      created ← call (CreateDirAll run_dir);
      if negb (created : bool) then mret None
      else
        let fuse_mountpoint := join run_dir "mnt" in
        created ← call (CreateDirAll fuse_mountpoint);
        if negb (created : bool) then mret None
        else mret (Some (mkRunSession run_id (join run_dir "delta.db") fuse_mountpoint
                           (join run_dir "base_path")))
  end.

Definition DEFAULT_ALLOWED_DIRS : list string :=
  [".amp"; ".cache"; ".claude"; ".claude.json"; ".codex"; ".gemini"; ".local"; ".npm"].

(** [None]: a path that was asked for cannot be resolved. *)
Fixpoint canonicalize_all (paths : list string) : Prog (option (list string)) :=
  match paths with
  | [] => mret (Some [])
  | path :: paths =>
      canonical ← call (Canonicalize path);
      match (canonical : option string) with
      | None => mret None
      | Some canonical =>
          rest ← canonicalize_all paths;
          mret (cons canonical <$> rest)
      end
  end.
(** The directories of the home that exist. *)
Definition default_allowed (no_default_allows : bool) : Prog (list string) :=
  if no_default_allows then mret []
  else
    home ← call HomeDir;
    match (home : option string) with
    | None => mret []
    | Some home =>
        filter_mapM (λ dir,
          let path := join home dir in
          there ← call (Exists path);
          mret (if (there : bool) then Some path else None)) DEFAULT_ALLOWED_DIRS
    end.
Definition build_allowed_paths (user_allowed : list string) (no_default_allows : bool)
    : Prog (option (list string)) :=
  allowed ← default_allowed no_default_allows;
  user ← canonicalize_all user_allowed;
  mret ((λ user, allowed ++ user) <$> (user : option (list string))).

(** Both pipes, or none. *)
Definition create_sync_pipes : Prog bool :=
  result ← call (MakePipe ToChild);
  if negb ((result : Z) =? 0) then mret false
  else
    result ← call (MakePipe ToParent);
    if negb ((result : Z) =? 0) then
      call (Close (PipeEnd ToChild ReadEnd)) ;;
      call (Close (PipeEnd ToChild WriteEnd)) ;;
      mret false
    else mret true.

Definition abort_child {A} (pipe_write_fd : Fd) (child_pid : Z) : Prog A :=
  call (Close pipe_write_fd) ;;
  call (Waitpid child_pid) ;;
  exit 1.

Definition write_namespace_mappings (child_pid uid gid : Z) (pipe_write_fd : Fd) : Prog unit :=
  let proc file := "/proc/" +:+ pretty child_pid +:+ "/" +:+ file in
  let map id := pretty id +:+ " " +:+ pretty id +:+ " 1
" in
  written ← call (WriteFile (proc "uid_map") (map uid));
  if negb (written : bool) then abort_child pipe_write_fd child_pid
  else
    written ← call (WriteFile (proc "setgroups") "deny");
    if negb (written : bool) then abort_child pipe_write_fd child_pid
    else
      written ← call (WriteFile (proc "gid_map") (map gid));
      if negb (written : bool) then abort_child pipe_write_fd child_pid else mret tt.

Definition wait_status_to_exit_code (status : Z) : Z :=
  if WIFEXITED status then WEXITSTATUS status
  else if WIFSIGNALED status then 128 + WTERMSIG status
  else 1.

(** [None]: interrupted as often as there is fuel. *)
Fixpoint wait_for_child (fuel : nat) (child_pid : Z) : Prog (option Z) :=
  match fuel with
  | O => mret None
  | S fuel =>
      result ← call (Waitpid child_pid);
      match (result : WaitReply) with
      | Interrupted => wait_for_child fuel child_pid
      | Failed => mret (Some 1)
      | Status status => mret (Some (wait_status_to_exit_code status))
      end
  end.

(** Dropping a [MountHandle] with [lazy_unmount]. *)
Definition drop_mount_handle (mountpoint : string) : Prog unit :=
  call (SetCurrentDir "/") ;;
  call (Fusermount mountpoint true) ;;
  mret tt.

Definition run_parent (fuel : nat) (child_pid : Z) (mountpoint session_id : string) : Prog unit :=
  code ← wait_for_child fuel child_pid;
  match code with
  | None => mret tt
  | Some exit_code =>
      remove_proc_file session_id ;;
      call (Close CwdFd) ;;
      drop_mount_handle mountpoint ;;
      call (RemoveDirAll mountpoint) ;;
      dir ← procs_dir session_id;
      call (RemoveDir dir) ;;
      exit exit_code
  end.

(** ** Parent and child after the [fork]

    [handshake]: the parent of both kinds of run, up to the signal that the mappings are
    written. *)
Definition handshake (child_pid uid gid : Z) : Prog unit :=
  call (Close (PipeEnd ToChild ReadEnd)) ;;
  call (Close (PipeEnd ToParent WriteEnd)) ;;
  signalled ← wait_for_pipe_signal (PipeEnd ToParent ReadEnd);
  (if negb signalled then abort_child (PipeEnd ToChild WriteEnd) child_pid else mret tt) ;;
  write_namespace_mappings child_pid uid gid (PipeEnd ToChild WriteEnd) ;;
  call (Write (PipeEnd ToChild WriteEnd)) ;;
  call (Close (PipeEnd ToChild WriteEnd)) ;;
  call (Close (PipeEnd ToParent ReadEnd)) ;;
  mret tt.

(** The end of [run_cmd], for a session that it has mounted. *)
Definition run_cmd_parent (fuel : nat) (child_pid uid gid : Z) (session : RunSession)
    (command cwd : string) : Prog unit :=
  handshake child_pid uid gid ;;
  write_proc_file (run_id session) true (from_utf8_lossy (as_bytes command)) cwd ;;
  run_parent fuel child_pid (fuse_mountpoint session) (run_id session).
Definition run_cmd_child (session : RunSession) (allowed_paths : list string)
    (command : string) (args : list string) (cwd : string) : Prog unit :=
  call (Close (PipeEnd ToChild WriteEnd)) ;;
  call (Close (PipeEnd ToParent ReadEnd)) ;;
  call (Close CwdFd) ;;
  run_child cwd (fuse_mountpoint session) allowed_paths command args (run_id session)
    (PipeEnd ToChild ReadEnd) (PipeEnd ToParent WriteEnd).

(** [false]: an error, reported by [main]; [true]: the fuel of the waiting ran out. *)
Definition run_cmd_fork (fuel : nat) (uid gid : Z) (session : RunSession)
    (allowed_paths : list string) (command : string) (args : list string) (cwd : string) : Prog bool :=
  piped ← create_sync_pipes;
  if negb piped then mret false
  else
    child_pid ← call Fork;
    if (child_pid : Z) <? 0 then mret false
    else
      (if child_pid =? 0 then run_cmd_child session allowed_paths command args cwd
       else run_cmd_parent fuel child_pid uid gid session command cwd) ;;
      mret true.

(** A run that joins a session leaves the mount alone. *)
Definition join_parent (fuel : nat) (child_pid uid gid : Z) (session_id command cwd : string)
    : Prog unit :=
  handshake child_pid uid gid ;;
  write_proc_file session_id false (from_utf8_lossy (as_bytes command)) cwd ;;
  code ← wait_for_child fuel child_pid;
  match code with
  | None => mret tt
  | Some exit_code => remove_proc_file session_id ;; exit exit_code
  end.
Definition join_child (cwd fuse_mountpoint : string) (allowed_paths : list string)
    (command : string) (args : list string) (session_id : string) : Prog unit :=
  call (Close (PipeEnd ToChild WriteEnd)) ;;
  call (Close (PipeEnd ToParent ReadEnd)) ;;
  run_child cwd fuse_mountpoint allowed_paths command args session_id
    (PipeEnd ToChild ReadEnd) (PipeEnd ToParent WriteEnd).
Definition run_in_existing_session (fuel : nat) (uid gid : Z) (cwd fuse_mountpoint : string)
    (allowed_paths : list string) (command : string) (args : list string) (session_id : string)
    : Prog bool :=
  piped ← create_sync_pipes;
  if negb piped then mret false
  else
    child_pid ← call Fork;
    if (child_pid : Z) <? 0 then mret false
    else
      (if child_pid =? 0 then join_child cwd fuse_mountpoint allowed_paths command args session_id
       else join_parent fuel child_pid uid gid session_id command cwd) ;;
      mret true.
End Parent.
