(* ===== verification/RunSandboxProps.v ===== *)
(** * RunSandboxProps: what a run guarantees before its command starts

    A weakest precondition for programs that make calls, over the calls made before; the escapes
    of mount points; and the isolation of the command: when it is started, every mount is
    read-only, is one that may be written, or was refused by the kernel. *)
From Stdlib Require Import Ascii.
From S2P Require Import Prelude Types Path Utf8 Xdr Options HostFs RunSandbox.

(** ** Traces *)

(** A call with its answer. *)
Definition Event : Type := {c : Call & Reply c}.
Definition ev (c : Call) (r : Reply c) : Event := existT c r.

(** The calls that a program makes first, under some answers. *)
Inductive runs {A} : Prog A → list Event → Prop :=
| runs_nil p : runs p []
| runs_call c k r t : runs (k r) t → runs (act c k) (ev c r :: t).

Lemma runs_inv {A} (p : Prog A) t :
  runs p t → match t, p with
             | [], _ => True
             | e :: t, act c k => ∃ r, e = ev c r ∧ runs (k r) t
             | _ :: _, _ => False
             end.
Proof. intros [|c k r t' Hr]; [done|by exists r]. Qed.

(** [wp ok h p Φ]: after the calls [h], whatever the answers, [p] makes a call only when [ok]
    admits it after the calls before, and returns only what [Φ] says. *)
Fixpoint wp {A} (ok : list Event → Call → Prop) (h : list Event) (p : Prog A)
    (Φ : A → list Event → Prop) : Prop :=
  match p with
  | ret a => Φ a h
  | exit _ => True
  | act c k => ok h c ∧ ∀ r, wp ok (h ++ [ev c r]) (k r) Φ
  end.

Section Wp.
Context (ok : list Event → Call → Prop).

Lemma calls_bind {A B} (p : Prog A) (f : A → Prog B) h Φ :
  wp ok h p (λ a h', wp ok h' (f a) Φ) → wp ok h (p ≫= f) Φ.
Proof.
  revert h. induction p as [a|code|c k IH]; intros h Hp; [exact Hp|done|].
  destruct Hp as [Hok Hk]. split; [exact Hok|]. intros r. apply IH, Hk.
Qed.

Lemma calls_mono {A} (p : Prog A) h (Φ Ψ : A → list Event → Prop) :
  wp ok h p Φ → (∀ a h', Φ a h' → Ψ a h') → wp ok h p Ψ.
Proof.
  intros Hp HΦ. revert h Hp. induction p as [a|code|c k IH]; intros h Hp; [by apply HΦ|done|].
  destruct Hp as [Hok Hk]. split; [exact Hok|]. intros r. apply IH, Hk.
Qed.

Lemma calls_ret {A} (a : A) h (Φ : A → list Event → Prop) : Φ a h → wp ok h (mret a) Φ.
Proof. done. Qed.

(** Calls are only added. *)
Lemma calls_prefix {A} (p : Prog A) h Φ :
  wp ok h p Φ → wp ok h p (λ a h', Φ a h' ∧ h `prefix_of` h').
Proof.
  assert (Hgen : ∀ h0, h0 `prefix_of` h → wp ok h p Φ → wp ok h p (λ a h', Φ a h' ∧ h0 `prefix_of` h')).
  2: { by apply Hgen. }
  intros h0. revert h. induction p as [a|code|c k IH]; intros h Hh Hp; [by split|done|].
  destruct Hp as [Hok Hk]. split; [done|]. intros r. apply IH; [by apply prefix_app_r|done].
Qed.

Lemma calls_call c h (Φ : Reply c → list Event → Prop) :
  ok h c → (∀ r, Φ r (h ++ [ev c r])) → wp ok h (call c) Φ.
Proof. by split. Qed.

(** [R a t]: what the program for [a] does are the calls [t]. *)
Lemma calls_for_each {A} (f : A → Prog unit) l h (R : A → list Event → Prop) :
  (∀ a h, wp ok h (f a) (λ _ h', ∃ t, h' = h ++ t ∧ R a t)) →
  wp ok h (for_each f l) (λ _ h', ∃ ts, h' = h ++ concat ts ∧ Forall2 R l ts).
Proof.
  intros Hf. revert h. induction l as [|a l IH]; intros h.
  { exists []. by rewrite app_nil_r. }
  apply calls_bind. eapply calls_mono; [apply Hf|]. intros _ h1 (t & -> & Ht).
  eapply calls_mono; [apply IH|]. intros _ h2 (ts & -> & Hts).
  exists (t :: ts). split; [by rewrite <-app_assoc|by constructor].
Qed.

Lemma calls_filter_mapM {A B} (f : A → Prog (option B)) l h (R : A → list Event → option B → Prop) :
  (∀ a h, wp ok h (f a) (λ b h', ∃ t, h' = h ++ t ∧ R a t b)) →
  wp ok h (filter_mapM f l) (λ bs h', ∃ ts,
    h' = h ++ concat (fst <$> ts) ∧ bs = omap snd ts ∧ Forall2 (λ a tb, R a tb.1 tb.2) l ts).
Proof.
  intros Hf. revert h. induction l as [|a l IH]; intros h.
  { exists []. by rewrite app_nil_r. }
  apply calls_bind. eapply calls_mono; [apply Hf|]. intros b h1 (t & -> & Ht).
  apply calls_bind. eapply calls_mono; [apply IH|]. intros bs h2 (ts & -> & -> & Hts).
  exists ((t, b) :: ts). cbn. split; [by rewrite <-app_assoc|].
  split; [by destruct b|by constructor].
Qed.

(** What holds before every call holds in every run. *)
Lemma calls_runs {A} (p : Prog A) h Φ t c r :
  wp ok h p Φ → runs p (t ++ [ev c r]) → ok (h ++ t) c.
Proof.
  revert h t. induction p as [a|code|c' k IH]; intros h t Hp Hr.
  1,2: by apply runs_inv in Hr; destruct t.
  destruct Hp as [Hok Hk]. apply runs_inv in Hr.
  destruct t as [|e t]; destruct Hr as (r' & He & Hr).
  - apply (f_equal (@projT1 _ _)) in He. cbn in He. subst. by rewrite app_nil_r.
  - subst e. rewrite cons_middle, app_assoc. eapply IH; [apply Hk|exact Hr].
Qed.
End Wp.

(** ** Mount points are read as the kernel writes them

    [proc(5)]: the characters that would break a line up are written as three octal digits
    behind a backslash, the backslash itself among them. *)
Definition octal (a : ascii) : string :=
  let digit n := ascii_of_nat (48 + n) in
  let n := nat_of_ascii a in
  String (digit (n / 64)%nat) (String (digit (n / 8 mod 8)%nat) (String (digit (n mod 8)%nat) "")).
Fixpoint mangle (escaped : ascii → bool) (s : string) : string :=
  match s with
  | EmptyString => ""
  | String a s =>
      if escaped a then String backslash (octal a +:+ mangle escaped s)
      else String a (mangle escaped s)
  end.

Lemma octal_read a rest :
  Z.of_nat (nat_of_ascii a) < 0x80 →
  take_octal 3 (octal a +:+ rest) = (octal a, rest) ∧ String.length (octal a) = 3%nat ∧
  octal_value 0 (octal a) <= 255 ∧ byte_char (octal_value 0 (octal a)) = String a "".
Proof.
  destruct a as [[] [] [] [] [] [] [] []]; intros Ha; try (by vm_compute in Ha);
    (split; [reflexivity|split; [reflexivity|split; [by vm_compute|reflexivity]]]).
Qed.

Lemma unescape_mangle escaped s fuel :
  escaped backslash = true → (∀ a, escaped a = true → Z.of_nat (nat_of_ascii a) < 0x80) →
  (String.length (mangle escaped s) <= fuel)%nat → unescape fuel (mangle escaped s) = s.
Proof.
  intros Hb Hascii. revert s. induction fuel as [|fuel IH]; intros [|a s] Hlen; try done.
  { cbn [mangle] in Hlen. destruct (escaped a); inversion Hlen. }
  cbn [mangle] in Hlen |- *. destruct (escaped a) eqn:Ha.
  - destruct (octal_read a (mangle escaped s) (Hascii a Ha)) as (Htake & Hl & Hle & Hc).
    cbn [unescape]. rewrite Ascii.eqb_refl, Htake, Hl, (proj2 (Z.leb_le _ _) Hle), Hc.
    cbn [andb Nat.eqb]. change (String a "" +:+ ?x) with (String a x). f_equal. apply IH.
    change (4 + String.length (mangle escaped s) <= S fuel)%nat in Hlen. lia.
  - cbn [unescape]. destruct (Ascii.eqb_spec a backslash) as [->|_]; [congruence|].
    f_equal. apply IH. cbn [String.length] in Hlen. lia.
Qed.

(** ** The mounts that the command sees *)

(** Calls that concern neither the other process nor the command. *)
Definition harmless (c : Call) : bool :=
  match c with
  | Read _ | Write _ | Close _ | Waitpid _ | Execvp _ _ => false
  | _ => true
  end.

Lemma c_string_some s s' : c_string s = Some s' → s' = s ∧ has_nul s = false.
Proof. unfold c_string. destruct (has_nul s); [done|]. by intros [= <-]. Qed.

Lemma c_strings_some l l' : mapM c_string l = Some l' → l' = l.
Proof.
  intros Hl%mapM_Some. induction Hl as [|a a' l l' Ha _ IH]; [done|].
  apply c_string_some in Ha as [-> _]. by f_equal.
Qed.

Section Mounts.
Context `{LibcMount}.

(** What is done for an allowed path, and for a mount point: the calls, with their answers. *)
Definition opens (path : string) (t : list Event) : Prop :=
  has_nul path = true ∧ t = [] ∨
  ∃ r, (r ≠ 0 ∧ t = [ev (Mount (Some path) path MS_BIND) r]) ∨
    (r = 0 ∧ ∃ r', t = [ev (Mount (Some path) path MS_BIND) r;
                        ev (Mount None path (Z.lor MS_BIND MS_REMOUNT)) r']).
Definition writable_at (writable : string) (allowed : list string) (m : string) (c : option string)
    : bool :=
  path_eqb (default m c) writable || existsb (path_eqb (default m c)) allowed || skip_mount m.
Definition secures (writable : string) (allowed : list string) (m : string) (t : list Event) : Prop :=
  ∃ c t', t = ev (Canonicalize m) c :: t' ∧
    if writable_at writable allowed m c || has_nul m then t' = []
    else ∃ r, (r ≠ 0 ∧ t' = [ev (Mount (Some m) m (Z.lor MS_BIND MS_REC)) r]) ∨
      (r = 0 ∧ ∃ r', t' = [ev (Mount (Some m) m (Z.lor MS_BIND MS_REC)) r;
                           ev (Mount None m READ_ONLY) r']).
(** All of it. *)
Definition protects (cwd : string) (allowed : list string) (t : list Event) : Prop :=
  ∃ ts1 lines w cs ts2,
    t = concat ts1 ++ [ev Mountinfo (Some (Some <$> lines)); ev (Canonicalize cwd) w] ++
        concat (fst <$> cs) ++ concat ts2 ∧
    Forall2 opens allowed ts1 ∧
    Forall2 (λ p tb, tb.1 = [ev (Canonicalize p) tb.2]) allowed cs ∧
    Forall2 (secures (default cwd w) (omap snd cs)) (merge_sort longer (omap mount_point_of lines)) ts2.

Context (ok : list Event → Call → Prop) (Hok : ∀ h c, harmless c = true → ok h c).

Lemma bind_allowed_wp path h :
  wp ok h (bind_allowed path) (λ _ h', ∃ t, h' = h ++ t ∧ opens path t).
Proof.
  unfold bind_allowed, opens. destruct (c_string path) as [p|] eqn:Hp.
  2: { exists []. split; [by rewrite app_nil_r|]. left. split; [|done].
       unfold c_string in Hp. by destruct (has_nul path). }
  apply c_string_some in Hp as [-> _].
  apply calls_bind, calls_call; [by apply Hok|]. intros r. destruct (Z.eqb_spec r 0) as [->|Hr].
  - apply calls_bind, calls_call; [by apply Hok|]. intros r'.
    eexists. split; [by rewrite <-app_assoc|]. right. exists 0. right. eauto.
  - eexists. split; [done|]. right. exists r. by left.
Qed.

Local Ltac decided :=
  repeat match goal with E : _ = _ :> bool |- _ => rewrite E; clear E end;
  rewrite ?orb_true_r; cbn [orb].
(** The mount point is left as it is. *)
Local Ltac nothing c := eexists; split; [reflexivity|exists c, []; split; [done|]; decided; reflexivity].

Lemma remount_readonly_wp writable allowed m h :
  wp ok h (remount_readonly writable allowed m)
    (λ _ h', ∃ t, h' = h ++ t ∧ secures writable allowed m t).
Proof.
  unfold remount_readonly, secures, writable_at.
  apply calls_bind, calls_call; [by apply Hok|]. intros c.
  destruct (path_eqb (default m c) writable) eqn:?; [nothing c|].
  destruct (existsb _ allowed) eqn:?; [nothing c|].
  destruct (skip_mount m) eqn:?; [nothing c|].
  unfold c_string. destruct (has_nul m) eqn:?; [nothing c|].
  apply calls_bind, calls_call; [by apply Hok|]. intros r. destruct (Z.eqb_spec r 0) as [->|Hr]; cbn [negb].
  - apply calls_bind, calls_call; [by apply Hok|]. intros r'.
    eexists. split; [by rewrite <-!app_assoc|]. eexists c, _. split; [done|]. decided. exists 0. right. eauto.
  - eexists. split; [by rewrite <-app_assoc|]. eexists c, _. split; [done|]. decided. exists r. by left.
Qed.

Lemma lines_read (lines : list (option string)) l :
  mapM (λ line, line) lines = Some l → lines = Some <$> l.
Proof.
  intros Hl%mapM_Some. induction Hl as [|line x lines l Hx _ IH]; [done|]. by rewrite Hx, IH.
Qed.

Lemma remount_all_wp cwd allowed h :
  wp ok h (remount_all_readonly_except cwd allowed)
    (λ done h', done = true → ∃ t, h' = h ++ t ∧ protects cwd allowed t).
Proof.
  unfold remount_all_readonly_except.
  apply calls_bind. eapply calls_mono; [apply calls_for_each, bind_allowed_wp|].
  intros _ h1 (ts1 & -> & Hts1). apply calls_bind, calls_call; [by apply Hok|]. intros [lines|]; [|done].
  cbn [mbind option_bind]. destruct (mapM _ lines) as [l|] eqn:Hl; [|done]. apply lines_read in Hl.
  apply calls_bind, calls_call; [by apply Hok|]. intros w.
  apply calls_bind. eapply calls_mono.
  { apply (calls_filter_mapM _ _ _ _ (λ p t c, t = [ev (Canonicalize p) c])).
    intros p h0. apply calls_call; [by apply Hok|]. intros c. eauto. }
  intros as_ h2 (cs & -> & -> & Hcs).
  apply calls_bind. eapply calls_mono; [apply calls_for_each, remount_readonly_wp|].
  intros _ h3 (ts2 & -> & Hts2) _. eexists. split; [by rewrite <-!app_assoc|].
  exists ts1, l, w, cs, ts2. subst lines. split_and!; [done..|]. exact Hts2.
Qed.
End Mounts.

(** The calls for one of many, in the calls for all. *)
Lemma concat_of {A B} (R : A → list B → Prop) l ts a :
  Forall2 R l ts → a ∈ l → ∃ t, R a t ∧ ∀ e, e ∈ t → e ∈ concat ts.
Proof.
  induction 1 as [|a' t l ts Ht _ IH]; [by intros ?%elem_of_nil|].
  intros [->|Ha]%elem_of_cons; cbn.
  - exists t. split; [done|]. set_solver.
  - destruct (IH Ha) as (t' & Ht' & Hin). exists t'. split; [done|]. set_solver.
Qed.

Lemma of_concat {A B} (R : A → list B → Prop) l ts e :
  Forall2 R l ts → e ∈ concat ts → ∃ a t, a ∈ l ∧ R a t ∧ e ∈ t ∧ ∀ e', e' ∈ t → e' ∈ concat ts.
Proof.
  induction 1 as [|a t l ts Ht _ IH]; cbn; [by intros ?%elem_of_nil|].
  intros [He|He]%elem_of_app; [exists a, t; set_solver|].
  destruct (IH He) as (a' & t' & ? & ? & ? & Hin). exists a', t'. set_solver.
Qed.

(** ** The command is isolated *)
Section Isolation.
Context `{LibcMount} (cwd fuse : string) (allowed : list string) (pipe_from_parent : Fd).

(** A path stands for [q] after the answer to [canonicalize]. *)
Definition resolved (t : list Event) (p q : string) : Prop :=
  ∃ c, ev (Canonicalize p) c ∈ t ∧ q = default p c.
Definition may_be_written (t : list Event) (m : string) : Prop :=
  skip_mount m = true ∨ ∃ q, resolved t m q ∧
    ((∃ w, resolved t cwd w ∧ path_eqb q w = true) ∨
     ∃ p a, p ∈ allowed ∧ ev (Canonicalize p) (Some a) ∈ t ∧ path_eqb q a = true).
Definition made_readonly (t : list Event) (m : string) : Prop :=
  ev (Mount None m (Z.lor (Z.lor MS_BIND MS_REMOUNT) MS_RDONLY)) 0 ∈ t.
Definition refused (t : list Event) (m : string) : Prop :=
  ∃ source flags r, ev (Mount source m flags) r ∈ t ∧ r ≠ 0.
Definition not_writable (t : list Event) (m : string) : Prop :=
  skip_mount m = false ∧ ∃ q w, resolved t m q ∧ resolved t cwd w ∧ path_eqb q w = false ∧
    ∀ p, p ∈ allowed → ∃ c, ev (Canonicalize p) c ∈ t ∧ ∀ a, c = Some a → path_eqb q a = false.

(** What was done before the mounts, [lines], were read, and after. *)
Record isolated (before after : list Event) (lines : list string) : Prop := {
  is_entered : sublist
    [ev (Unshare (Z.lor CLONE_NEWUSER CLONE_NEWNS)) 0;
     ev (Mount None "/" (Z.lor MS_REC MS_PRIVATE)) 0;
     ev (Mount (Some fuse) cwd MS_BIND) 0;
     ev (SetCurrentDir cwd) true] before;
  is_signalled : ∃ r, 0 < r ∧ ev (Read pipe_from_parent) r ∈ before;
  is_allowed p : p ∈ allowed → has_nul p = false →
    ∃ r, ev (Mount (Some p) p MS_BIND) r ∈ before ∧
      (r = 0 → ∃ r', ev (Mount None p (Z.lor MS_BIND MS_REMOUNT)) r' ∈ before);
  is_readonly line m : line ∈ lines → mount_point_of line = Some m →
    may_be_written after m ∨ made_readonly after m ∨ refused after m ∨ has_nul m = true;
  is_limited source m flags r : ev (Mount source m flags) r ∈ after →
    (source = Some m ∧ flags = Z.lor MS_BIND MS_REC ∨ source = None ∧ flags = READ_ONLY) ∧
    not_writable after m
}.

Definition no_mount (e : Event) : Prop :=
  match projT1 e with Mount _ _ _ => False | _ => True end.

(** What the allowed paths stand for. *)
Lemma answers_of (after : list Event) cs :
  Forall2 (λ p (tb : list Event * option string), tb.1 = [ev (Canonicalize p) tb.2]) allowed cs →
  (∀ e, e ∈ concat (fst <$> cs) → e ∈ after) →
  (∀ b, b ∈ omap snd cs → ∃ p, p ∈ allowed ∧ ev (Canonicalize p) (Some b) ∈ after) ∧
  (∀ p, p ∈ allowed → ∃ c, ev (Canonicalize p) c ∈ after ∧ ∀ a, c = Some a → a ∈ omap snd cs).
Proof.
  induction 1 as [|p [t c] l cs Ht _ IH]; intros Hin; [split; set_solver|].
  cbn in Ht, Hin. subst t. destruct IH as [IH1 IH2]; [set_solver|].
  assert (Hp : ev (Canonicalize p) c ∈ after) by (apply Hin; set_solver).
  split.
  - intros b. assert (Hb : b ∈ omap snd (([ev (Canonicalize p) c], c) :: cs) →
      c = Some b ∨ b ∈ omap snd cs) by (cbn; destruct c; set_solver).
    intros [->|(p' & ? & ?)%IH1]%Hb; [exists p|exists p']; set_solver.
  - intros p' [->|(c' & ? & Hc')%IH2]%elem_of_cons.
    + exists c. split; [done|]. intros a ->. cbn. set_solver.
    + exists c'. split; [done|]. intros a Ha%Hc'. cbn. destruct c; set_solver.
Qed.

Lemma writable_at_true (after : list Event) m c w cs :
  ev (Canonicalize m) c ∈ after → ev (Canonicalize cwd) w ∈ after →
  Forall2 (λ p (tb : list Event * option string), tb.1 = [ev (Canonicalize p) tb.2]) allowed cs →
  (∀ e, e ∈ concat (fst <$> cs) → e ∈ after) →
  if writable_at (default cwd w) (omap snd cs) m c then may_be_written after m
  else not_writable after m.
Proof.
  intros Hm Hw Hcs Hin. unfold writable_at. destruct (answers_of _ _ Hcs Hin) as [Hfrom Hto].
  assert (Hq : resolved after m (default m c)) by by exists c.
  assert (Hr : resolved after cwd (default cwd w)) by by exists w.
  destruct (path_eqb (default m c) (default cwd w)) eqn:He; cbn [orb].
  { right. exists (default m c). split; [done|]. left. by exists (default cwd w). }
  destruct (existsb (path_eqb (default m c)) (omap snd cs)) eqn:Ha; cbn [orb].
  { right. exists (default m c). split; [done|]. right.
    apply existsb_exists in Ha as (a & (p & ? & ?)%list_elem_of_In%Hfrom & Hqa). by exists p, a. }
  destruct (skip_mount m) eqn:Hs; [by left|]. split; [done|].
  exists (default m c), (default cwd w). split_and!; [done..|].
  intros p (a & Hev & Hb)%Hto. exists a. split; [done|]. intros b Hab%Hb.
  destruct (path_eqb (default m c) b) eqn:Hmb; [|done].
  rewrite <-Ha. symmetry. apply existsb_exists. exists b. by split; [apply list_elem_of_In|].
Qed.

(** Which mounts are changed. *)
Lemma event_call c c' r r' : ev c r = ev c' r' → c = c'.
Proof. intros He. by apply (f_equal (@projT1 _ _)) in He. Qed.

Lemma secures_mounts w answers m t source m' flags r :
  secures w answers m t → ev (Mount source m' flags) r ∈ t →
  m' = m ∧ (∃ c, ev (Canonicalize m) c ∈ t ∧ writable_at w answers m c = false) ∧
  (source = Some m ∧ flags = Z.lor MS_BIND MS_REC ∨ source = None ∧ flags = READ_ONLY).
Proof.
  intros (c & t' & -> & Ht) [He%event_call|Hin]%elem_of_cons; [done|].
  destruct (writable_at w answers m c) eqn:Hwr; cbn [orb] in Ht.
  { subst t'. by apply elem_of_nil in Hin. }
  destruct (has_nul m); [subst t'; by apply elem_of_nil in Hin|].
  assert (Hc : ∃ c, ev (Canonicalize m) c ∈ ev (Canonicalize m) c :: t' ∧ writable_at w answers m c = false)
    by (exists c; split; [by left|done]).
  destruct Ht as (r1 & [[_ ->]|[_ (r2 & ->)]]); repeat (apply elem_of_cons in Hin as [He%event_call|Hin]).
  all: try by apply elem_of_nil in Hin.
  all: injection He as -> -> ->; split_and!; [done|by exists c; split; [left|]|auto].
Qed.

(** The mounts that are remounted, in the calls [after] that hold what was done for each. *)
Section Remounted.
Context (after : list Event) (mounts : list string) (w : option string).
Context (cs : list (list Event * option string)) (ts : list (list Event)).
Context (Hw : ev (Canonicalize cwd) w ∈ after).
Context (Hcs : Forall2 (λ p (tb : list Event * option string),
  tb.1 = [ev (Canonicalize p) tb.2]) allowed cs).
Context (Hts : Forall2 (secures (default cwd w) (omap snd cs)) mounts ts).
Context (Hin : ∀ e, e ∈ concat (fst <$> cs) → e ∈ after) (Hin2 : ∀ e, e ∈ concat ts → e ∈ after).

Lemma mounts_readonly m :
  m ∈ mounts →
  may_be_written after m ∨ made_readonly after m ∨ refused after m ∨ has_nul m = true.
Proof.
  intros Hm. destruct (concat_of _ _ _ _ Hts Hm) as (t & (c & t' & -> & Ht) & Hi).
  pose proof (writable_at_true after m c w cs) as Hwr.
  destruct (writable_at _ _ m c); [left; apply Hwr; auto; apply Hin2, Hi; set_solver|].
  destruct (has_nul m); [by auto|]. cbn [orb] in Ht. right.
  destruct Ht as (r' & [[Hr' ->]|[-> (r'' & ->)]]).
  - right. left. exists (Some m), (Z.lor MS_BIND MS_REC), r'.
    split; [apply Hin2, Hi; set_solver|done].
  - destruct (decide (r'' = 0)) as [->|Hr'']; [left; apply Hin2, Hi; set_solver|].
    right. left. exists None, READ_ONLY, r''. split; [apply Hin2, Hi; set_solver|done].
Qed.

Lemma mounts_limited source m flags r :
  ev (Mount source m flags) r ∈ concat ts →
  (source = Some m ∧ flags = Z.lor MS_BIND MS_REC ∨ source = None ∧ flags = READ_ONLY) ∧
  not_writable after m.
Proof.
  intros Hm. destruct (of_concat _ _ _ _ Hts Hm) as (m' & t & _ & Ht & Hin' & Hi).
  destruct (secures_mounts _ _ _ _ _ _ _ _ Ht Hin') as (-> & (c & Hc & Hwr) & Hform).
  split; [done|]. pose proof (writable_at_true after m' c w cs) as Hn. rewrite Hwr in Hn.
  apply Hn; auto.
Qed.

Lemma answers_mount_nothing source m flags r :
  ¬ ev (Mount source m flags) r ∈ concat (fst <$> cs).
Proof.
  intros Hm. assert (Hcan : Forall2 (λ p t, ∃ c, t = [ev (Canonicalize p) c]) allowed (fst <$> cs)).
  { apply Forall2_fmap_r. eapply Forall2_impl; [exact Hcs|]. intros p [t b] Ht. by exists b. }
  destruct (of_concat _ _ _ _ Hcan Hm) as (p & t & _ & (c & ->) & He & _).
  by apply list_elem_of_singleton, event_call in He.
Qed.
End Remounted.

(** The calls of [remount_all_readonly_except], after those that set the namespace up and with
    the ones that come before the command. *)
Lemma protects_isolated entered t rest :
  sublist
    [ev (Unshare (Z.lor CLONE_NEWUSER CLONE_NEWNS)) 0;
     ev (Mount None "/" (Z.lor MS_REC MS_PRIVATE)) 0;
     ev (Mount (Some fuse) cwd MS_BIND) 0;
     ev (SetCurrentDir cwd) true] entered →
  (∃ r, 0 < r ∧ ev (Read pipe_from_parent) r ∈ entered) →
  protects cwd allowed t → Forall no_mount rest →
  ∃ before lines after,
    entered ++ t ++ rest = before ++ ev Mountinfo (Some (Some <$> lines)) :: after ∧
    isolated before after lines.
Proof.
  intros Hent (r & Hr & Hsig) (ts1 & lines & w & cs & ts2 & -> & Hopens & Hcs & Hts2) Hrest.
  exists (entered ++ concat ts1), lines,
    (ev (Canonicalize cwd) w :: concat (fst <$> cs) ++ concat ts2 ++ rest).
  split; [by rewrite <-!app_assoc|]. set (after := _ :: _).
  assert (Hw : ev (Canonicalize cwd) w ∈ after) by (unfold after; set_solver).
  assert (Hin : ∀ e, e ∈ concat (fst <$> cs) → e ∈ after) by (unfold after; set_solver).
  assert (Hin2 : ∀ e, e ∈ concat ts2 → e ∈ after) by (unfold after; set_solver).
  split.
  - by apply sublist_inserts_r.
  - exists r. split; [done|]. set_solver.
  - intros p Hp Hnul. destruct (concat_of _ _ _ _ Hopens Hp) as (t & [[Hn _]|(r' & Ht)] & Hi);
      [congruence|].
    exists r'. destruct Ht as [[Hr' ->]|[-> (r'' & ->)]]; split.
    all: try (apply elem_of_app; right; apply Hi; set_solver).
    1: done.
    intros _. exists r''. apply elem_of_app; right; apply Hi; set_solver.
  - intros line m Hline Hm. eapply mounts_readonly; [exact Hw|exact Hcs|exact Hts2|done|done|].
    rewrite merge_sort_Permutation. apply list_elem_of_omap. by exists line.
  - intros source m flags r' Hm.
    eapply mounts_limited; [exact Hw|exact Hcs|exact Hts2|done|done|].
    unfold after in Hm. rewrite elem_of_cons, !elem_of_app in Hm.
    destruct Hm as [He%event_call|[Hc|[?|Hc]]]; [done| |done|].
    + by eapply answers_mount_nothing in Hc.
    + rewrite Forall_forall in Hrest. by apply Hrest in Hc.
Qed.
End Isolation.

(** ** The whole child *)
Section Child.
Context `{LibcMount} (ok : list Event → Call → Prop) (Hok : ∀ h c, harmless c = true → ok h c).

Lemma setup_env_vars_wp session_id h :
  wp ok h (setup_env_vars session_id) (λ _ h', ∃ t, h' = h ++ t ∧ Forall no_mount t).
Proof.
  unfold setup_env_vars. do 4 (apply calls_bind, calls_call; [by apply Hok|]; intros ?).
  apply calls_bind, calls_call; [by apply Hok|]. intros [home|].
  2: { eexists. split; [by rewrite <-!app_assoc|]. by repeat constructor. }
  apply calls_bind, calls_call; [by apply Hok|]. intros there.
  apply calls_bind, calls_call; [by apply Hok|]. intros u.
  eexists. split; [by rewrite <-!app_assoc|]. by repeat constructor.
Qed.

Lemma exec_command_wp command args session_id h :
  (∀ h', (∃ t, h' = h ++ t ∧ Forall no_mount t) → ok h' (Execvp command (command :: args))) →
  wp ok h (exec_command (A := unit) command args session_id) (λ _ _, False).
Proof.
  intros Hexec. unfold exec_command. apply calls_bind. eapply calls_mono; [apply setup_env_vars_wp|].
  intros u h1 Ht. destruct (c_string command) as [c|] eqn:Hc; [|done].
  apply c_string_some in Hc as [-> _]. destruct (mapM c_string args) as [args'|] eqn:Hargs; [|done].
  apply c_strings_some in Hargs as ->.
  apply calls_bind, calls_call; [by apply Hexec|done].
Qed.
End Child.

(** One call. *)
Ltac step x := apply calls_bind, calls_call; [auto|]; intros x.

Section Isolated.
Context `{LibcMount} (cwd fuse : string) (allowed : list string).
Context (command : string) (args : list string) (session_id : string) (from to : Fd).
Abbreviation child := (run_child (A := unit) cwd fuse allowed command args session_id from to).

(** The child, when all it needs is admitted. *)
Lemma run_child_wp (ok : list Event → Call → Prop) h0 :
  (∀ h c, harmless c = true → ok h c) →
  let h1 := h0 ++ [ev (Unshare (Z.lor CLONE_NEWUSER CLONE_NEWNS)) 0] in
  let h2 := h1 ++ [ev (Write to) tt] in
  let h3 := h2 ++ [ev (Close to) tt] in
  ok h1 (Write to) → ok h2 (Close to) → ok h3 (Read from) →
  (∀ r, ok (h3 ++ [ev (Read from) r]) (Close from)) →
  (∀ before lines after, isolated cwd fuse allowed from before after lines →
     ok (before ++ ev Mountinfo (Some (Some <$> lines)) :: after)
       (Execvp command (command :: args))) →
  wp ok h0 child (λ _ _, False).
Proof.
  intros Hok h1 h2 h3 H1 H2 H3 H4 Hexec.
  unfold run_child. step r. destruct (Z.eqb_spec r 0) as [->|]; [|exact I]. cbn [negb].
  step u1. destruct u1. step u2. destruct u2. apply calls_bind. step r. apply calls_ret.
  destruct (Z.ltb_spec 0 r) as [Hr|]; [|exact I]. cbn [negb].
  apply calls_bind, calls_call; [apply H4|]. intros u3. destruct u3.
  step r2. destruct (Z.eqb_spec r2 0) as [->|]; [|exact I].
  cbn [negb]. unfold path_to_cstring.
  destruct (c_string fuse) as [f|] eqn:Hf; [|exact I]. apply c_string_some in Hf as [-> _].
  destruct (c_string cwd) as [c|] eqn:Hc; [|exact I]. apply c_string_some in Hc as [-> _].
  do 2 apply calls_bind, calls_ret.
  step r3. destruct (Z.eqb_spec r3 0) as [->|]; [|exact I]. step changed.
  destruct changed; [|exact I].
  apply calls_bind. eapply calls_mono; [by apply remount_all_wp|]. intros [|] h' Hdone; [|exact I].
  destruct (Hdone eq_refl) as (t & -> & Ht). apply exec_command_wp; [done|].
  intros h' (rest & -> & Hrest). rewrite <-app_assoc.
  edestruct protects_isolated as (before & lines & after & -> & His); cycle 2.
  - exact Ht.
  - exact Hrest.
  - by apply Hexec.
  - unfold h1. rewrite <-!app_assoc. apply sublist_inserts_l. cbn [app].
    repeat first [apply sublist_skip|apply sublist_cons]; done.
  - exists r. split; [done|]. unfold h3, h2, h1. set_solver.
Qed.

(** Whatever the answers, the command is started only when the child is in namespaces of its
    own, was told by its parent to go on, sees the overlay as its working directory, and has made
    every mount read-only that is none of the exceptions and that the kernel did not refuse. *)
Theorem command_isolated t command' argv r :
  runs child (t ++ [ev (Execvp command' argv) r]) →
  command' = command ∧ argv = command :: args ∧
  ∃ before lines after,
    t = before ++ ev Mountinfo (Some (Some <$> lines)) :: after ∧
    isolated cwd fuse allowed from before after lines.
Proof.
  set (ok := λ h c, match c with
    | Execvp command' argv => command' = command ∧ argv = command :: args ∧
        ∃ before lines after, h = before ++ ev Mountinfo (Some (Some <$> lines)) :: after ∧
          isolated cwd fuse allowed from before after lines
    | _ => True
    end).
  intros Hruns. change (ok t (Execvp command' argv)). eapply (calls_runs ok child []); [|exact Hruns].
  apply run_child_wp; [by intros h []|done..|].
  intros before lines after His. split_and!; [done..|]. by exists before, lines, after.
Qed.
End Isolated.
