(* ===== verification/RunSystem.v ===== *)
(** * RunSystem: parent and child of a run

    The two processes that [run_cmd] and [run_in_existing_session] leave behind after the [fork],
    over the two pipes between them: a step is a call of one of them with its answer, in any
    order.  Whatever calls fail, the command is started only after the parent has written the
    mappings of users and groups, neither process waits for ever, and both come to an end. *)
From stdpp Require Import relations pretty.
From S2P Require Import Prelude Types Path Utf8 Xdr Options HostFs RunSandbox RunSandboxProps.

Inductive Side := Parent | Child.
#[export] Instance Side_eq : EqDecision Side. Proof. solve_decision. Defined.
Definition other (s : Side) : Side := match s with Parent => Child | Child => Parent end.

(** A process runs its program, or the command that [execvp] put in its place, or is gone. *)
Inductive Process :=
| Running (p : Prog unit)
| Command (command : string) (argv : list string)
| Gone.

Record State := mkState {
  process : Side → Process;
  history : Side → list Event;
  in_pipe : Pipe → nat
}.
Definition update {K V} `{EqDecision K} (f : K → V) (k : K) (v : V) : K → V :=
  λ k', if decide (k' = k) then v else f k'.

(** Both processes have all ends after the [fork]; what is gone has none. *)
Definition holds (s : State) (side : Side) (fd : Fd) : Prop :=
  process s side ≠ Gone ∧ ev (Close fd) tt ∉ history s side.
Definition written_to (s : State) (p : Pipe) : Prop := ∃ side, holds s side (PipeEnd p WriteEnd).

(** The process got an answer. *)
Definition answer (s : State) (side : Side) (c : Call) (r : Reply c) (k : Reply c → Prog unit)
    (pipes : Pipe → nat) : State :=
  mkState (update (process s) side (Running (k r)))
    (update (history s) side (history s side ++ [ev c r])) pipes.

(** The calls whose answers do not depend on the other process. *)
Definition local (c : Call) : bool :=
  match c with
  | Read (PipeEnd _ _) | Write (PipeEnd _ _) | Waitpid _ | Execvp _ _ => false
  | _ => true
  end.

(** What happens without a failure of the calls that join the processes; every other call is
    answered in any way. *)
Inductive step : State → State → Prop :=
| step_local s side c k r :
    process s side = Running (act c k) → local c = true →
    step s (answer s side c r k (in_pipe s))
| step_read s side p k :
    process s side = Running (act (Read (PipeEnd p ReadEnd)) k) →
    holds s side (PipeEnd p ReadEnd) → (0 < in_pipe s p)%nat →
    step s (answer s side (Read (PipeEnd p ReadEnd)) 1 k
              (update (in_pipe s) p (Nat.pred (in_pipe s p))))
| step_eof s side p k :
    process s side = Running (act (Read (PipeEnd p ReadEnd)) k) →
    holds s side (PipeEnd p ReadEnd) → in_pipe s p = 0%nat → ¬ written_to s p →
    step s (answer s side (Read (PipeEnd p ReadEnd)) 0 k (in_pipe s))
| step_write s side p k :
    process s side = Running (act (Write (PipeEnd p WriteEnd)) k) →
    holds s side (PipeEnd p WriteEnd) →
    step s (answer s side (Write (PipeEnd p WriteEnd)) tt k
              (update (in_pipe s) p (S (in_pipe s p))))
| step_wait s pid status k :
    process s Parent = Running (act (Waitpid pid) k) → process s Child = Gone →
    step s (answer s Parent (Waitpid pid) (Status status) k (in_pipe s))
| step_exec s side command argv k :
    process s side = Running (act (Execvp command argv) k) →
    step s (mkState (update (process s) side (Command command argv)) (history s) (in_pipe s))
| step_exit s side code :
    process s side = Running (exit code) →
    step s (mkState (update (process s) side Gone) (history s) (in_pipe s))
| step_end s side command argv :
    process s side = Command command argv →
    step s (mkState (update (process s) side Gone) (history s) (in_pipe s)).

(** The failures: of a read, a write, an [execvp], and of the waiting, by a signal too. *)
Inductive failure : State → State → Prop :=
| failed_read s side fd k r :
    process s side = Running (act (Read fd) k) → r < 0 →
    failure s (answer s side (Read fd) r k (in_pipe s))
| failed_write s side fd k :
    process s side = Running (act (Write fd) k) →
    failure s (answer s side (Write fd) tt k (in_pipe s))
| failed_exec s side command argv k :
    process s side = Running (act (Execvp command argv) k) →
    failure s (answer s side (Execvp command argv) tt k (in_pipe s))
| failed_wait s side pid r k :
    process s side = Running (act (Waitpid pid) k) → r = Interrupted ∨ r = Failed →
    failure s (answer s side (Waitpid pid) r k (in_pipe s)).

Definition moves (s s' : State) : Prop := step s s' ∨ failure s s'.

(** The two processes behind the [fork]. *)
Definition start (parent child : Prog unit) : State :=
  mkState (λ side, match side with Parent => Running parent | Child => Running child end)
    (λ _, []) (λ _, 0%nat).

(** ** Every process comes to an end *)

(** What a process can be next. *)
Inductive smaller : Process → Process → Prop :=
| smaller_answer c k r : smaller (Running (k r)) (Running (act c k))
| smaller_exec c k command argv : smaller (Command command argv) (Running (act c k))
| smaller_exit code : smaller Gone (Running (exit code))
| smaller_end command argv : smaller Gone (Command command argv).

Lemma smaller_inv P' P :
  smaller P' P → match P with
                 | Running (act c k) =>
                     (∃ r, P' = Running (k r)) ∨ ∃ command argv, P' = Command command argv
                 | Running (exit _) | Command _ _ => P' = Gone
                 | _ => False
                 end.
Proof. intros []; eauto. Qed.

Lemma process_ends P : Acc smaller P.
Proof.
  assert (Hgone : Acc smaller Gone) by (constructor; by intros P' []%smaller_inv).
  assert (Hcommand : ∀ c argv, Acc smaller (Command c argv))
    by (intros; constructor; by intros P' ->%smaller_inv).
  destruct P as [p|c argv|]; [|apply Hcommand|done].
  induction p as [a|code|c k IH]; constructor; intros P' HP%smaller_inv.
  - done.
  - by subst.
  - destruct HP as [(r & ->)|(c' & argv & ->)]; auto.
Qed.

(** A move is one of one process. *)
Lemma move_of s s' : moves s s' →
  ∃ side, smaller (process s' side) (process s side) ∧ process s' (other side) = process s (other side).
Proof.
  assert (Hupd : ∀ s side P h pipes, smaller P (process s side) →
    let s' := mkState (update (process s) side P) h pipes in
    smaller (process s' side) (process s side) ∧ process s' (other side) = process s (other side)).
  { intros s0 side P h pipes HP. cbn. unfold update. rewrite decide_True by done. split; [done|].
    by destruct side. }
  intros [[]|[]]; eexists; apply Hupd;
    match goal with E : process _ _ = _ |- _ => rewrite E end; constructor.
Qed.

(** Processes that run on for ever do not exist, and neither do systems of two. *)
Lemma moves_end s : Acc (flip moves) s.
Proof.
  remember (process s Parent) as P eqn:HP. remember (process s Child) as C eqn:HC.
  revert C s HP HC. induction (process_ends P) as [P _ IHP]. intros C.
  induction (process_ends C) as [C _ IHC]. intros s HP HC.
  constructor. intros s' (side & Hs & Ho)%move_of. destruct side; cbn in Ho.
  - eapply IHP; [|done|done]. by rewrite HP.
  - eapply IHC; [|by rewrite Ho|done]. by rewrite HC.
Qed.

(** ** What each process does for the other *)
Section System.
Context `{LibcMount, LibcWait, ProcJson}.
Context (child_pid uid gid : Z).
Context (cwd fuse : string) (allowed : list string) (command : string) (args : list string).

Definition mapped (h : list Event) : Prop :=
  let proc file := "/proc/" +:+ pretty child_pid +:+ "/" +:+ file in
  let map id := pretty id +:+ " " +:+ pretty id +:+ " 1
" in
  ev (WriteFile (proc "uid_map") (map uid)) true ∈ h ∧
  ev (WriteFile (proc "setgroups") "deny") true ∈ h ∧
  ev (WriteFile (proc "gid_map") (map gid)) true ∈ h.
Definition unshared (h : list Event) : Prop :=
  ev (Unshare (Z.lor CLONE_NEWUSER CLONE_NEWNS)) 0 ∈ h.
Definition signalled (p : Pipe) (h : list Event) : Prop :=
  ∃ r, 0 < r ∧ ev (Read (PipeEnd p ReadEnd)) r ∈ h.
Definition closed (fd : Fd) (h : list Event) : Prop := ev (Close fd) tt ∈ h.
Definition confined (h : list Event) : Prop :=
  ∃ before lines after, h = before ++ ev Mountinfo (Some (Some <$> lines)) :: after ∧
    isolated cwd fuse allowed (PipeEnd ToChild ReadEnd) before after lines.

(** What a byte in a pipe says: the sender has done its part. *)
Definition promise (p : Pipe) (h : list Event) : Prop :=
  match p with
  | ToChild => mapped h ∧ signalled ToParent h
  | ToParent => unshared h
  end.

(** When each process makes the calls that matter to the other. *)
Definition may_call (side : Side) (h : list Event) (c : Call) : Prop :=
  match side, c with
  | Parent, Read fd => fd = PipeEnd ToParent ReadEnd ∧ ¬ closed fd h ∧
      closed (PipeEnd ToParent WriteEnd) h
  | Parent, Write fd => fd = PipeEnd ToChild WriteEnd ∧ ¬ closed fd h ∧ promise ToChild h
  | Parent, Waitpid _ => closed (PipeEnd ToChild WriteEnd) h
  | Parent, Execvp _ _ => False
  | Child, Read fd => fd = PipeEnd ToChild ReadEnd ∧ ¬ closed fd h ∧
      closed (PipeEnd ToChild WriteEnd) h ∧ closed (PipeEnd ToParent WriteEnd) h
  | Child, Write fd => fd = PipeEnd ToParent WriteEnd ∧ ¬ closed fd h ∧ promise ToParent h
  | Child, Waitpid _ => False
  | Child, Execvp command' argv => command' = command ∧ argv = command :: args ∧ confined h
  | _, _ => True
  end.
(** A parent that returns waits, with its end of the pipe closed; a child never returns. *)
Definition at_return (side : Side) (_ : unit) (h : list Event) : Prop :=
  match side with Parent => closed (PipeEnd ToChild WriteEnd) h | Child => False end.
Definition behaves (side : Side) (h : list Event) (p : Prog unit) : Prop :=
  wp (may_call side) h p (at_return side).

Lemma harmless_may side h c : harmless c = true → may_call side h c.
Proof. by destruct side, c. Qed.

Lemma child_behaves session_id h :
  ¬ closed (PipeEnd ToChild ReadEnd) h → ¬ closed (PipeEnd ToParent WriteEnd) h →
  closed (PipeEnd ToChild WriteEnd) h →
  behaves Child h (run_child cwd fuse allowed command args session_id
    (PipeEnd ToChild ReadEnd) (PipeEnd ToParent WriteEnd)).
Proof.
  intros Hread Hwrite Hclosed. apply run_child_wp; [apply (harmless_may Child)|cbn [may_call promise]..].
  - split_and!; [done| |].
    + intros [Hc|Hc%list_elem_of_singleton%event_call]%elem_of_app; done.
    + apply elem_of_app. right. by left.
  - done.
  - split_and!; [done| | |].
    + rewrite <-!app_assoc. intros [Hc|Hc]%elem_of_app; [done|]. cbn [app] in Hc.
      repeat (apply elem_of_cons in Hc as [Hc%event_call|Hc]; [done|]). by apply elem_of_nil in Hc.
    + rewrite <-!app_assoc. apply elem_of_app. by left.
    + apply elem_of_app. right. by left.
  - done.
  - intros before lines after His. split_and!; [done..|]. by exists before, lines, after.
Qed.

(** After the handshake the parent has nothing to do with the pipes. *)
Fixpoint calm {A} (p : Prog A) : Prop :=
  match p with
  | act c k =>
      match c with Read _ | Write _ | Execvp _ _ => False | _ => True end ∧ ∀ r, calm (k r)
  | _ => True
  end.

Lemma calm_bind {A B} (p : Prog A) (f : A → Prog B) : calm p → (∀ a, calm (f a)) → calm (p ≫= f).
Proof.
  intros Hp Hf. induction p as [a|code|c k IH]; [apply Hf|done|].
  destruct Hp as [Hc Hk]. split; [done|]. intros r. apply IH, Hk.
Qed.

Lemma calm_wp {A} (p : Prog A) h :
  calm p → closed (PipeEnd ToChild WriteEnd) h →
  wp (may_call Parent) h p (λ _ h', closed (PipeEnd ToChild WriteEnd) h').
Proof.
  revert h. induction p as [a|code|c k IH]; intros h Hp Hh; [done|done|].
  destruct Hp as [Hc Hk]. split; [by destruct c|]. intros r. apply IH; [apply Hk|].
  apply elem_of_app. by left.
Qed.

Ltac calm :=
  repeat first [apply calm_bind; [|intros ?]|case_match|done|split; [done|intros ?]].
Lemma procs_dir_calm session_id : calm (procs_dir session_id).
Proof. unfold procs_dir. calm. Qed.
Lemma remove_proc_file_calm session_id : calm (remove_proc_file session_id).
Proof. unfold remove_proc_file, proc_file. pose proof procs_dir_calm. calm; auto. Qed.
Lemma write_proc_file_calm session_id owner command' cwd' :
  calm (write_proc_file session_id owner command' cwd').
Proof. unfold write_proc_file, proc_file. pose proof procs_dir_calm. calm; auto. Qed.
Lemma wait_for_child_calm fuel : calm (wait_for_child fuel child_pid).
Proof. induction fuel as [|fuel IH]; [done|]. cbn [wait_for_child]. calm; auto. Qed.

(** A call that is free, and a descriptor that no call so far has closed. *)
Ltac free x := apply calls_bind, calls_call; [exact I|]; intros x; try destruct x.
Ltac not_closed :=
  let Hc := fresh in
  unfold closed; intros Hc;
  repeat (apply elem_of_cons in Hc as [Hc%event_call|Hc]; [done|]); by apply elem_of_nil in Hc.

Tactic Notation "nth" integer(n) := do n apply list_elem_of_further; apply list_elem_of_here.

Lemma abort_child_wp {A} h (Φ : A → list Event → Prop) :
  wp (may_call Parent) h (abort_child (PipeEnd ToChild WriteEnd) child_pid) Φ.
Proof.
  unfold abort_child. free u. apply calls_bind, calls_call; [|done].
  apply elem_of_app. right. by left.
Qed.

Lemma handshake_behaves :
  wp (may_call Parent) [] (handshake child_pid uid gid)
    (λ _ h, closed (PipeEnd ToChild WriteEnd) h).
Proof.
  unfold handshake. free u. free u. cbn [app].
  apply calls_bind. unfold wait_for_pipe_signal. apply calls_bind, calls_call.
  { split_and!; [done|not_closed|right; by left]. }
  cbn [app]. intros r. apply calls_ret, calls_bind. destruct (Z.ltb_spec 0 r) as [Hr|]; cbn [negb].
  2: { apply abort_child_wp. }
  apply calls_ret, calls_bind. unfold write_namespace_mappings.
  free u; [|apply abort_child_wp]. cbn [negb]. free u; [|apply abort_child_wp]. cbn [negb].
  free u; [|apply abort_child_wp]. cbn [negb app]. apply calls_ret, calls_bind, calls_call.
  { split_and!; [done|not_closed|]. split; [split_and!; [nth 3|nth 4|nth 5]|].
    exists r. split; [done|nth 2]. }
  intros []. free u. free u. cbn [app]. apply calls_ret. nth 7.
Qed.

Lemma run_cmd_parent_behaves fuel session :
  behaves Parent [] (run_cmd_parent fuel child_pid uid gid session command cwd).
Proof.
  unfold run_cmd_parent. apply calls_bind. eapply calls_mono; [apply handshake_behaves|].
  intros u h Hh. eapply calls_mono; [apply calm_wp; [|exact Hh]|by intros []].
  apply calm_bind; [apply write_proc_file_calm|]. intros _. unfold run_parent.
  apply calm_bind; [apply wait_for_child_calm|]. intros [code|]; [|done].
  apply calm_bind; [apply remove_proc_file_calm|]. intros _. unfold drop_mount_handle.
  pose proof procs_dir_calm. calm.
Qed.

Lemma join_parent_behaves fuel session_id :
  behaves Parent [] (join_parent fuel child_pid uid gid session_id command cwd).
Proof.
  unfold join_parent. apply calls_bind. eapply calls_mono; [apply handshake_behaves|].
  intros u h Hh. eapply calls_mono; [apply calm_wp; [|exact Hh]|by intros []].
  apply calm_bind; [apply write_proc_file_calm|]. intros _.
  apply calm_bind; [apply wait_for_child_calm|]. intros [code|]; [|done].
  apply calm_bind; [apply remove_proc_file_calm|done].
Qed.

Lemma run_cmd_child_behaves session :
  fuse_mountpoint session = fuse →
  behaves Child [] (run_cmd_child session allowed command args cwd).
Proof.
  intros Hfuse. unfold run_cmd_child. rewrite Hfuse. free u. free u. free u. cbn [app].
  apply child_behaves; [not_closed|not_closed|by left].
Qed.

Lemma join_child_behaves session_id :
  behaves Child [] (join_child cwd fuse allowed command args session_id).
Proof.
  unfold join_child. free u. free u. cbn [app].
  apply child_behaves; [not_closed|not_closed|by left].
Qed.

(** ** The invariant *)

Definition writer (p : Pipe) : Side := match p with ToChild => Parent | ToParent => Child end.
Definition sent (s : State) (p : Pipe) : Prop :=
  ev (Write (PipeEnd p WriteEnd)) tt ∈ history s (writer p).
Definition fine (s : State) (side : Side) : Prop :=
  match process s side with
  | Running p => behaves side (history s side) p
  | Command command' argv =>
      side = Child ∧ command' = command ∧ argv = command :: args ∧ confined (history s side)
  | Gone => True
  end.
Record inv (s : State) : Prop := {
  inv_fine side : fine s side;
  inv_bytes p : (0 < in_pipe s p)%nat ∨ signalled p (history s (other (writer p))) → sent s p;
  inv_sent p : sent s p → promise p (history s (writer p))
}.

Lemma promise_mono p h h' : h ⊆ h' → promise p h → promise p h'.
Proof.
  intros Hh. destruct p; cbn; [|apply Hh]. intros [(H1' & H2 & H3) (r & Hr & Hin)].
  split; [by split_and!; apply Hh|]. exists r. split; [done|by apply Hh].
Qed.

Lemma inv_start parent child :
  behaves Parent [] parent → behaves Child [] child → inv (start parent child).
Proof.
  intros Hp Hc. split.
  - by intros [].
  - intros p [Hlt|(r & _ & Hr)]; [cbn in Hlt; lia|by apply elem_of_nil in Hr].
  - intros p Hs. by apply elem_of_nil in Hs.
Qed.

(** What an answer does to the pipes: bytes are written into them, and read from them. *)
Definition carries (s : State) (c : Call) (r : Reply c) (pipes : Pipe → nat) : Prop :=
  (∀ p, (0 < pipes p)%nat → (0 < in_pipe s p)%nat ∨ c = Write (PipeEnd p WriteEnd)) ∧
  (∀ p n, ev c r = ev (Read (PipeEnd p ReadEnd)) n → 0 < n → (0 < in_pipe s p)%nat).

Lemma may_write side h p :
  may_call side h (Write (PipeEnd p WriteEnd)) → side = writer p ∧ promise p h.
Proof. by destruct side; intros ([= ->] & _ & Hp). Qed.

Lemma in_history s side c r k pipes side' e :
  e ∈ history (answer s side c r k pipes) side' →
  e ∈ history s side' ∨ (side' = side ∧ e = ev c r).
Proof.
  cbn. unfold update. case_decide as Hs; [subst|by left].
  intros [He|He%list_elem_of_singleton]%elem_of_app; auto.
Qed.

Lemma inv_answer s side c k r pipes :
  inv s → process s side = Running (act c k) → carries s c r pipes →
  inv (answer s side c r k pipes).
Proof.
  intros [Hfine Hbytes Hsent] Hrun [Hpipes Hread].
  pose proof (Hfine side) as Hside. unfold fine in Hside. rewrite Hrun in Hside.
  destruct Hside as [Hmay Hk]. set (s' := answer s side c r k pipes).
  assert (Hsub : ∀ side', history s side' ⊆ history s' side').
  { intros side'. cbn. unfold update. case_decide as Hs; [subst|done]. set_solver. }
  assert (Hnew : ev c r ∈ history s' side).
  { cbn. unfold update. rewrite decide_True by done. set_solver. }
  split.
  - intros side'. unfold fine. cbn. unfold update. case_decide as Hs; [subst; apply Hk|].
    exact (Hfine side').
  - intros p [[Hb| ->]%Hpipes|(n & Hn & [Hin|[Hs He]]%in_history)].
    + apply Hsub, Hbytes. by left.
    + apply may_write in Hmay as [-> _]. unfold sent. destruct r. exact Hnew.
    + apply Hsub, Hbytes. right. by exists n.
    + apply Hsub, Hbytes. left. by eapply Hread.
  - intros p [Hin|[Hs He]]%in_history; (eapply promise_mono; [apply Hsub|]).
    + by apply Hsent.
    + apply symmetry, event_call in He as ->. apply may_write in Hmay as [-> Hp]. exact Hp.
Qed.

(** A process that is replaced or gone has made no call. *)
Lemma inv_replace s side P :
  inv s → (P = Gone ∨ ∃ c argv k, P = Command c argv ∧ process s side = Running (act (Execvp c argv) k)) →
  inv (mkState (update (process s) side P) (history s) (in_pipe s)).
Proof.
  intros [Hfine Hbytes Hsent] HP. split; [|done..].
  intros side'. unfold fine. cbn. unfold update. case_decide as Hs; [subst side'|exact (Hfine side')].
  destruct HP as [->|(c & argv & k & -> & Hrun)]; [done|].
  pose proof (Hfine side) as Hside. unfold fine in Hside. rewrite Hrun in Hside.
  destruct Hside as [Hmay _]. by destruct side.
Qed.

Lemma local_carries s c r : local c = true → carries s c r (in_pipe s).
Proof.
  intros Hl. split; [by left|]. intros p n He%event_call Hn. by subst.
Qed.

(** The number that a read brought. *)
Definition bytes_read (e : Event) : Z :=
  match e with existT (Read _) r => r | _ => 0 end.
Lemma empty_carries s fd r : r <= 0 → carries s (Read fd) r (in_pipe s).
Proof.
  intros Hr. split; [by left|]. intros p n He Hn. apply (f_equal bytes_read) in He. cbn in He. lia.
Qed.
Lemma other_carries s c r : (∀ fd, c ≠ Read fd) → carries s c r (in_pipe s).
Proof. intros Hc. split; [by left|]. intros p n He%event_call _. by apply Hc in He. Qed.

Lemma inv_moves s s' : inv s → moves s s' → inv s'.
Proof.
  intros Hinv [Hstep|Hfail].
  - destruct Hstep as [s side c k r Hrun Hl|s side p k Hrun _ Hp|s side p k Hrun _ Hp _
      |s side p k Hrun _|s pid status k Hrun _|s side c argv k Hrun|s side code Hrun|s side c argv Hrun].
    + eapply inv_answer; [done|done|by apply local_carries].
    + eapply inv_answer; [done|done|]. split.
      * intros p'. unfold update. case_decide; [subst; lia|by left].
      * by intros p' n [= ->]%event_call _.
    + eapply inv_answer; [done|done|by apply empty_carries].
    + eapply inv_answer; [done|done|]. split.
      * intros p'. unfold update. case_decide; [subst; by right|by left].
      * by intros p' n He%event_call.
    + eapply inv_answer; [done|done|by apply other_carries].
    + apply inv_replace; [done|]. right. by exists c, argv, k.
    + apply inv_replace; [done|]. by left.
    + apply inv_replace; [done|]. by left.
  - destruct Hfail; (eapply inv_answer; [done|done|]);
      first [by apply other_carries|apply empty_carries; lia].
Qed.

Lemma inv_reachable parent child s :
  behaves Parent [] parent → behaves Child [] child →
  rtc moves (start parent child) s → inv s.
Proof.
  intros Hp Hc Hs. pose proof (inv_start _ _ Hp Hc) as Hi.
  induction Hs as [|s0 s1 s2 Hm _ IH]; [done|]. by eapply IH, inv_moves.
Qed.

(** ** Neither process waits for ever *)

Lemma a_reply c : Reply c.
Proof. destruct c; first [exact 0|exact None|exact true|exact tt|exact ""%string|exact Interrupted]. Qed.

(** A process that runs can make a step unless it waits for the other: to be written to, or to
    be gone. *)
Definition waits (s : State) (side : Side) : Prop :=
  (∃ p k, process s side = Running (act (Read (PipeEnd p ReadEnd)) k) ∧
     side = other (writer p) ∧ in_pipe s p = 0%nat ∧
     holds s side (PipeEnd p ReadEnd) ∧ ¬ holds s side (PipeEnd p WriteEnd) ∧
     (side = Child → closed (PipeEnd ToParent WriteEnd) (history s side))) ∨
  (∃ pid k, process s side = Running (act (Waitpid pid) k) ∧ side = Parent ∧
     ¬ holds s side (PipeEnd ToChild WriteEnd)).

Lemma steps_or_waits s side :
  fine s side →
  (∃ s', step s s') ∨ process s side = Gone ∨ waits s side ∨
  (side = Parent ∧ process s side = Running (ret tt) ∧ ¬ holds s side (PipeEnd ToChild WriteEnd)).
Proof.
  unfold fine, holds. intros Hfine.
  destruct (process s side) as [[[]|code|c k]|c argv|] eqn:Hrun; [| | | |by auto].
  - right. right. right. destruct side; [|done]. split_and!; [done..|]. by intros [_ Hn].
  - left. eexists. by eapply step_exit.
  - destruct (local c) eqn:Hl; [left; eexists; by eapply (step_local _ _ _ _ (a_reply c))|].
    destruct Hfine as [Hmay _].
    assert (Hlive : process s side ≠ Gone) by by rewrite Hrun.
    destruct c as [| | |[p []|]|[p []|]| | | | | | | | | | | | | | | | |command' argv|pid|]; try done.
    + assert (Hread : holds s side (PipeEnd p ReadEnd)).
      { split; [by rewrite Hrun|]. by destruct side, Hmay as (? & ? & _). }
      destruct (decide (in_pipe s p = 0%nat)) as [Hp|Hp].
      * right. right. left. left. exists p, k.
        destruct side; destruct Hmay as ([= ->] & _ & Hc); split_and!; try done; try tauto.
        all: intros [_ Hn]; by apply Hn, Hc.
      * left. eexists. eapply step_read; [done..|lia].
    + by destruct side, Hmay as [[=] _].
    + by destruct side, Hmay as [[=] _].
    + left. eexists. eapply step_write; [done|]. split; [done|].
      by destruct side; destruct Hmay as (? & ? & _).
    + left. eexists. by eapply step_exec.
    + right. right. left. right. exists pid, k. destruct side; [|done]. split_and!; [done..|].
      by intros [_ Hn].
  - left. eexists. by eapply step_end.
Qed.

Lemma not_written s p : (∀ side, ¬ holds s side (PipeEnd p WriteEnd)) → ¬ written_to s p.
Proof. intros Hn [side Hh]. by apply (Hn side). Qed.

(** Two processes that wait for each other do not exist. *)
Lemma no_deadlock s :
  inv s →
  (∃ s', step s s') ∨
  process s Child = Gone ∧ (process s Parent = Gone ∨ process s Parent = Running (ret tt)).
Proof.
  intros [Hfine _ _].
  destruct (steps_or_waits s Child (Hfine Child)) as [?|[Hgone|[Hwait|[? _]]]]; [by left| | |done].
  - assert (Hc : ∀ p, ¬ holds s Child (PipeEnd p WriteEnd)) by (intros p [Hh _]; done).
    destruct (steps_or_waits s Parent (Hfine Parent)) as [?|[?|[Hwait|(_ & ? & _)]]]; [by left|by auto| |by auto].
    left. destruct Hwait as [(p & k & Hrun & _ & Hp & Hr & Hw & _)|(pid & k & Hrun & _)].
    + eexists. eapply step_eof; [done..|]. apply not_written. intros []; [done|apply Hc].
    + eexists. by apply (step_wait _ _ 0 _ Hrun).
  - destruct Hwait as [(p & k & Hrun & Hs & Hp & Hr & Hw & Hcl)|(pid & k & _ & ? & _)]; [|done].
    destruct p; [|done]. left.
    destruct (steps_or_waits s Parent (Hfine Parent)) as [?|Hparent]; [done|].
    assert (Hcases : (∃ s', step s s') ∨ ¬ holds s Parent (PipeEnd ToChild WriteEnd)).
    { destruct Hparent as [Hgone|[Hwait|(_ & _ & ?)]]; [right; by intros [? _]| |by right].
      destruct Hwait as [(p & k' & Hrun' & Hs' & Hp' & Hr' & Hw' & _)|(pid & k' & _ & _ & ?)]; [|by right].
      destruct p; [done|]. left. eexists. eapply step_eof; [done..|]. apply not_written.
      intros []; [done|]. intros [_ Hn]. by apply Hn, Hcl. }
    destruct Hcases as [?|Hparent']; [done|].
    eexists. eapply step_eof; [done..|]. apply not_written. by intros [].
Qed.

(** ** Both kinds of run *)

Definition begins (s : State) : Prop :=
  (∃ fuel session, fuse_mountpoint session = fuse ∧
     s = start (run_cmd_parent fuel child_pid uid gid session command cwd)
           (run_cmd_child session allowed command args cwd)) ∨
  (∃ fuel session_id,
     s = start (join_parent fuel child_pid uid gid session_id command cwd)
           (join_child cwd fuse allowed command args session_id)).

Lemma begins_inv s0 s : begins s0 → rtc moves s0 s → inv s.
Proof.
  intros [(fuel & session & Hf & ->)|(fuel & session_id & ->)]; apply inv_reachable.
  - apply run_cmd_parent_behaves.
  - by apply run_cmd_child_behaves.
  - apply join_parent_behaves.
  - apply join_child_behaves.
Qed.

(** C16: in whatever order parent and child go on and whichever of their calls fail: only the child
    starts the command, after the parent has written the mappings of its users and groups, and
    with the mounts read-only. *)
Theorem command_after_mappings s0 s side command' argv :
  begins s0 → rtc moves s0 s → process s side = Command command' argv →
  side = Child ∧ command' = command ∧ argv = command :: args ∧
  confined (history s Child) ∧ mapped (history s Parent).
Proof.
  intros Hb Hs Hrun. destruct (begins_inv _ _ Hb Hs) as [Hfine Hbytes Hsent].
  pose proof (Hfine side) as Hside. unfold fine in Hside. rewrite Hrun in Hside.
  destruct Hside as (-> & -> & -> & Hconf). split_and!; [done..|].
  apply (Hsent ToChild), Hbytes. right.
  destruct Hconf as (before & lines & after & Heq & His).
  destruct (is_signalled _ _ _ _ _ _ _ His) as (r & Hr & Hin). exists r. split; [done|].
  cbn. rewrite Heq. set_solver.
Qed.

End System.
