(* ===== verification/RunScenarios.v ===== *)
(** * RunScenarios: runs of [agentfs run]

    A system that answers in the simplest way, a run from the [fork] to the command on it, and
    the runs whose outcome is not what the messages of the program say. *)
From stdpp Require Import relations pretty.
From S2P Require Import Prelude Types Path Utf8 Xdr Options HostFs RunSandbox RunSandboxProps RunSystem.

(** ** Programs on a system *)

(** The calls that a program makes when every call has one answer. *)
Fixpoint trace {A} (os : ∀ c, Reply c) (p : Prog A) : list Event :=
  match p with
  | act c k => ev c (os c) :: trace os (k (os c))
  | _ => []
  end.
Lemma trace_runs {A} os (p : Prog A) : runs p (trace os p).
Proof. induction p as [a|code|c k IH]; constructor. apply IH. Qed.
Lemma runs_app {A} (p : Prog A) t t' : runs p (t ++ t') → runs p t.
Proof.
  revert p. induction t as [|e t IH]; intros p Hr; [constructor|].
  apply runs_inv in Hr. destruct p as [| |c k]; [done..|]. destruct Hr as (r & -> & Hr).
  constructor. by apply IH.
Qed.

(** Everything succeeds; paths are canonical; the home is [/home/u]. *)
Definition simple (lines : list string) (c : Call) : Reply c :=
  match c with
  | Unshare _ | MakePipe _ | Mount _ _ _ => 0
  | Fork | ProcessId => 7
  | Now => 0
  | Read _ => 1
  | Mountinfo => Some (Some <$> lines)
  | Canonicalize path => Some path
  | HomeDir => Some "/home/u"
  | NewUuid => "id"
  | SetCurrentDir _ | Exists _ | CreateDirAll _ | WriteFile _ _ | RemoveFile _ | RemoveDir _
  | RemoveDirAll _ | Fusermount _ _ => true
  | Write _ | Close _ | SetVar _ _ | Execvp _ _ => tt
  | Waitpid _ => Status 0
  end.
Definition table : list string :=
  ["22 1 8:1 / / rw,relatime - ext4 /dev/sda1 rw";
   "23 22 0:5 / /proc rw - proc proc rw";
   "24 22 8:2 / /data\040set rw - ext4 /dev/sdb1 rw";
   "25 22 8:3 / /sysroot rw - ext4 /dev/sdc1 rw";
   "26 22 8:4 / /home/u/.cache/big rw - ext4 /dev/sdd1 rw";
   "27 22 0:9 / /home/u/p rw - fuse agentfs rw"].
Definition home_cache : list string := ["/home/u/.cache"].
Definition shell : Prog unit :=
  run_child "/home/u/p" "/home/u/.agentfs/run/id/mnt" home_cache "sh" ["-c"; "id"] "id"
    (PipeEnd ToChild ReadEnd) (PipeEnd ToParent WriteEnd).

(** Which paths a program mounts, and with which flags. *)
Definition mounts_of (t : list Event) : list (option string * string * Z) :=
  omap (λ e, match projT1 e with Mount source target flags => Some (source, target, flags) | _ => None end) t.

Lemma command_isolated_witness :
  ∃ t r, runs shell (t ++ [ev (Execvp "sh" ["sh"; "-c"; "id"]) r]) ∧
    ∃ before lines after,
      t = before ++ ev Mountinfo (Some (Some <$> lines)) :: after ∧
      isolated "/home/u/p" "/home/u/.agentfs/run/id/mnt" home_cache (PipeEnd ToChild ReadEnd)
        before after lines.
Proof.
  set (t := removelast (trace (simple table) shell)).
  assert (Hruns : runs shell (t ++ [ev (Execvp "sh" ["sh"; "-c"; "id"]) tt])).
  { replace (t ++ _) with (trace (simple table) shell) by (vm_compute; reflexivity).
    apply trace_runs. }
  exists t, tt. split; [exact Hruns|].
  apply (command_isolated _ _ _ _ _ _ _ _ _ _ _ _ Hruns).
Defined.

(** What the run mounts: [/proc] is left alone, the path with a space is read, and so on. *)
Example shell_mounts :
  mounts_of (trace (simple table) shell) =
    [(None, "/", 278528); (Some "/home/u/.agentfs/run/id/mnt", "/home/u/p", 4096);
     (Some "/home/u/.cache", "/home/u/.cache", 4096); (None, "/home/u/.cache", 4128);
     (Some "/home/u/.cache/big", "/home/u/.cache/big", 20480); (None, "/home/u/.cache/big", 4129);
     (Some "/data set", "/data set", 20480); (None, "/data set", 4129);
     (Some "/", "/", 20480); (None, "/", 4129)]%string.
Proof. by vm_compute. Qed.

(** ** What the messages do not say *)

(** "Everything else is read-only": a prefix that is skipped is not one of components, so that
    mounts at [/sysroot], [/devel] or [/tmpdata] are skipped like [/sys], [/dev] and [/tmp]. *)
Theorem skipped_siblings :
  Forall (λ m, ∀ writable allowed t, runs (remount_readonly writable allowed m) t → mounts_of t = [])
    ["/sysroot"; "/devel"; "/tmpdata"].
Proof.
  repeat constructor; intros writable allowed t Hr; destruct t as [|e t]; try done;
    apply runs_inv in Hr as (c & -> & Hr); cbn in Hr;
    (destruct (path_eqb _ _); [by apply runs_inv in Hr; destruct t|]);
    (destruct (existsb _ _); by apply runs_inv in Hr; destruct t).
Qed.

(** A mount below an allowed directory is none of the allowed paths, and becomes read-only. *)
Theorem below_allowed_readonly :
  ev (Mount None "/home/u/.cache/big" READ_ONLY) 0 ∈ trace (simple table) shell.
Proof.
  assert (Hi : trace (simple table) shell !! 15%nat = Some (ev (Mount None "/home/u/.cache/big" READ_ONLY) 0))
    by (vm_compute; reflexivity).
  by eapply list_elem_of_lookup_2.
Qed.

(** The kernel leaves white space outside ASCII as it is, and the line is cut there: the mount
    at [/mnt/a b], with a no-break space, is taken for [/mnt/a]. *)
Definition no_break_line : string :=
  of_bytes ([0x32; 0x38; 0x20; 0x31; 0x20; 0x38; 0x3a; 0x35; 0x20; 0x2f; 0x20] ++
            [0x2f; 0x6d; 0x6e; 0x74; 0x2f; 0x61; 0xc2; 0xa0; 0x62; 0x20; 0x72; 0x77]).
Theorem no_break_space_cut : mount_point_of no_break_line = Some "/mnt/a".
Proof. by vm_compute. Qed.

(** The name of a session is not checked as the name of an agent is: one that starts with a
    slash leads out of [.agentfs], and the end of the run removes the directory [mnt] there with
    all it holds. *)
Theorem session_leads_out fuel :
  let session := mkRunSession "/srv/data" "/srv/data/delta.db" "/srv/data/mnt" "/srv/data/base_path" in
  (∀ lines, last (trace (simple lines) (setup_run_directory (Some "/srv/data")))
     = Some (ev (CreateDirAll "/srv/data/mnt") true)) ∧
  ev (RemoveDirAll "/srv/data/mnt") true ∈
    trace (simple []) (run_parent (S fuel) 7 (fuse_mountpoint session) (run_id session)).
Proof.
  split; [done|].
  assert (Hi : trace (simple []) (run_parent (S fuel) 7 "/srv/data/mnt" "/srv/data") !! 7%nat
    = Some (ev (RemoveDirAll "/srv/data/mnt") true)) by (vm_compute; reflexivity).
  by eapply list_elem_of_lookup_2.
Qed.

(** When the overlay cannot be unmounted, a warning is printed, and the mountpoint is removed all
    the same, with all that the session sees through it. *)
Definition busy (c : Call) : Reply c :=
  match c with Fusermount _ _ => false | c => simple [] c end.
Theorem failed_unmount_deletes fuel mountpoint session_id :
  ∃ before after, trace busy (run_parent (S fuel) 7 mountpoint session_id) =
    before ++ ev (Fusermount mountpoint true) false :: ev (RemoveDirAll mountpoint) true :: after.
Proof.
  exists (take 6 (trace busy (run_parent (S fuel) 7 mountpoint session_id))),
    (drop 8 (trace busy (run_parent (S fuel) 7 mountpoint session_id))). reflexivity.
Qed.

(** The first signal is passed on, the second kills. *)
Example second_signal_kills :
  forward_signal_to_child 15 (install_signal_handlers (mkSignals 7 0)) =
    (Some (7, 15), mkSignals 7 1) ∧
  forward_signal_to_child 15 (mkSignals 7 1) = (Some (7, SIGKILL), mkSignals 7 2) ∧
  forward_signal_to_child 15 (mkSignals 0 0) = (None, mkSignals 0 0).
Proof. by vm_compute. Qed.

(** ** A run of both processes *)

Definition is_closed (fd : Fd) (h : list Event) : bool :=
  existsb (λ e, match projT1 e with Close fd' => bool_decide (fd' = fd) | _ => false end) h.
Lemma not_is_closed fd h : is_closed fd h = false → ¬ closed fd h.
Proof.
  intros Hc Hin. assert (is_closed fd h = true); [|congruence].
  apply existsb_exists. exists (ev (Close fd) tt). split; [by apply list_elem_of_In|].
  by apply bool_decide_eq_true.
Qed.

(** The next step of a process, when it is not waiting. *)
Definition advance (os : ∀ c, Reply c) (side : Side) (s : State) : option State :=
  match process s side with
  | Running (act c k) =>
      match c as c' return (Reply c' → Prog unit) → option State with
      | Read (PipeEnd p ReadEnd) => λ k,
          if negb (is_closed (PipeEnd p ReadEnd) (history s side)) && (0 <? in_pipe s p)%nat then
            Some (answer s side (Read (PipeEnd p ReadEnd)) 1 k
                    (update (in_pipe s) p (Nat.pred (in_pipe s p))))
          else None
      | Write (PipeEnd p WriteEnd) => λ k,
          if negb (is_closed (PipeEnd p WriteEnd) (history s side)) then
            Some (answer s side (Write (PipeEnd p WriteEnd)) tt k
                    (update (in_pipe s) p (S (in_pipe s p))))
          else None
      | Execvp command argv => λ _,
          Some (mkState (update (process s) side (Command command argv)) (history s) (in_pipe s))
      | c => λ k, if local c then Some (answer s side c (os c) k (in_pipe s)) else None
      end k
  | _ => None
  end.

Lemma advance_moves os side s s' : advance os side s = Some s' → moves s s'.
Proof.
  unfold advance. destruct (process s side) as [[|code|c k]|c argv|] eqn:Hrun; try done.
  assert (Hlive : process s side ≠ Gone) by by rewrite Hrun.
  intros Ha. left. destruct (local c) eqn:Hl.
  { destruct c as [| | |[]|[]| | | | | | | | | | | | | | | | | | |]; try done;
      injection Ha as <-; by eapply step_local. }
  destruct c as [| | |[p []|]|[p []|]| | | | | | | | | | | | | | | | |command argv|pid|]; try done.
  - destruct (is_closed _ _) eqn:Hc; [by cbn in Ha|]. cbn in Ha.
    destruct (in_pipe s p) eqn:Hp; [done|]. injection Ha as <-.
    replace (answer _ _ _ _ _ _) with (answer s side (Read (PipeEnd p ReadEnd)) 1 k
      (update (in_pipe s) p (Nat.pred (in_pipe s p)))) by by rewrite Hp.
    eapply step_read; [done| |lia]. split; [done|by apply not_is_closed].
  - destruct (is_closed _ _) eqn:Hc; [by cbn in Ha|]. injection Ha as <-.
    eapply step_write; [done|]. split; [done|by apply not_is_closed].
  - injection Ha as <-. by eapply step_exec.
Qed.

Fixpoint schedule (os : ∀ c, Reply c) (sides : list Side) (s : State) : option State :=
  match sides with
  | [] => Some s
  | side :: sides => s ← advance os side s; schedule os sides s
  end.
Lemma schedule_moves os sides s s' : schedule os sides s = Some s' → rtc moves s s'.
Proof.
  revert s. induction sides as [|side sides IH]; intros s; cbn; [by intros [= ->]|].
  destruct (advance os side s) as [s1|] eqn:Ha; [|done]. intros Hs.
  eapply rtc_l; [by eapply advance_moves|by apply IH].
Qed.

#[local] Instance some_json : ProcJson := λ _ _ _ _ _, Some "{}".
Definition the_session : RunSession :=
  mkRunSession "id" "/home/u/.agentfs/run/id/delta.db" "/home/u/.agentfs/run/id/mnt"
    "/home/u/.agentfs/run/id/base_path".
Definition after_fork : State :=
  start (run_cmd_parent 1 7 1000 1000 the_session "sh" "/home/u/p")
    (run_cmd_child the_session home_cache "sh" ["-c"; "id"] "/home/u/p").
(** The child signals, the parent writes the mappings and signals, the child starts the command. *)
Definition order : list Side := replicate 5 Child ++ replicate 9 Parent ++ replicate 31 Child.
Definition in_command : State := default after_fork (schedule (simple table) order after_fork).

Lemma after_fork_begins :
  begins 7 1000 1000 "/home/u/p" "/home/u/.agentfs/run/id/mnt" home_cache "sh" ["-c"; "id"] after_fork.
Proof. left. by exists 1%nat, the_session. Qed.
Lemma in_command_reached : rtc moves after_fork in_command.
Proof.
  unfold in_command. destruct (schedule (simple table) order after_fork) as [s|] eqn:Hs; [|done].
  by eapply schedule_moves.
Qed.
Lemma in_command_runs : process in_command Child = Command "sh" ["sh"; "-c"; "id"].
Proof. vm_compute. reflexivity. Qed.

Lemma command_after_mappings_witness :
  process in_command Child = Command "sh" ["sh"; "-c"; "id"] ∧
  confined "/home/u/p" "/home/u/.agentfs/run/id/mnt" home_cache (history in_command Child) ∧
  mapped 7 1000 1000 (history in_command Parent).
Proof.
  split; [exact in_command_runs|].
  destruct (command_after_mappings _ _ _ _ _ _ _ _ _ _ _ _ _ after_fork_begins in_command_reached
    in_command_runs) as (_ & _ & _ & Hc & Hm).
  split; [exact Hc|exact Hm].
Defined.

